(* ===== verification/_CoqProject ===== *)
-Q . S2P
Prelude.v
CacheHacks.v
Patch.v
PatchRam.v
PatchRom.v
PatchHook.v
Mmu.v
MmuTables.v
Patch678.v
Patch678Props.v
PatchMmu.v
MmuInv.v
MmuRom.v
MmuApply.v
MmuCore.v
MmuPort.v
PatchSim.v
MmuSpec.v
MmuLayout.v
Cpu.v
CpuProps.v
MmuInit.v
MmuBoot.v
MmuTheorems.v
MmuWitness.v
PatchD6.v
Reloc.v
RelocProps.v
RelocTheorems.v
Boot45.v
Boot45Props.v
Boot45Theorems.v
MemCheck.v
MemCheckProps.v
MemCheckMore.v
Exmem.v
ExmemProps.v
Cbr.v
CbrProps.v
Config.v
ConfigProps.v
Property.v
PropertyProps.v
PropertyTheorems.v
FilePrefix.v
FilePrefixProps.v
Log.v
LogProps.v
LogTheorems.v
LogStop.v
Util.v
Crypt.v
CryptProps.v
BigDigits.v
BigDigitsProps.v
BigArith.v
BigShift.v
BigDivide.v
BigSquare.v
BigMod.v
BigModProps.v
BigModExp.v
BigPrime.v
BigConv.v
Bigd.v
BigdProps.v
BigBits.v
BigSpec.v
Rand.v
Rsa.v
RsaProps.v
RsaFiles.v
IoCrypt.v
IoDecrypt.v
IoCryptProps.v
IoFiles.v
IoSession.v
IoDevice.v
