(* ===== verification/Prelude.v ===== *)
(** * Magic Lantern for the Canon 70D: a verification development

    Magic Lantern is firmware that runs beside Canon's operating system on the
    camera.  Its core is the code that changes Canon's program in memory, the
    allocators that share Canon's memory pools, and the services modules use:
    events, settings, encryption.  This development translates that core from
    the C sources into functions on explicit states and proves what makes it
    correct.  Paths below are relative to [src/].

    ** The parts and where they are modelled

    - [Prelude] (this file): fixed-width integers, byte memory with its
      equivalence, C strings, tactics and hints.
    - [CacheHacks]: [src/cache_hacks.c].  A [machine] has a memory and the tag
      and data RAMs of both caches; [ifetch] and [ldr] are what the processor sees.
      Every CP15 access is a read or write of those RAMs.
    - [Patch]: [src/patch.c] and [src/patch_cache.c] on top of [CacheHacks].
      [pstate] holds the registry, the function hooks and the machine;
      [apply_patches], [unpatch_memory] and [patch_hook_function] are whole calls,
      which the code runs with interrupts off.  [PatchRam], [PatchRom] and
      [PatchHook] hold the theorems on RAM patches, ROM patches and hooks.
    - Patching on the cameras with an MMU (DIGIC 7 and later) and on DIGIC 6.
      [Mmu] has the translation tables, the table walk and the translation buffers
      of the hardware, and [src/mmu_utils.c]; [Patch678] is [src/patch.c] as these
      cameras build it, against the interface [PatchPort], with the laws
      [PatchPortOk] it needs; [PatchMmu] is [src/patch_mmu.c] and [PatchD6]
      [src/patch_d6.c], the two implementations.  [MmuLayout] places the tables
      ([calc_mmu_globals]) and [MmuInit] is the boot ([mmu_init]).  [MmuTables],
      [MmuInv], [MmuRom], [MmuApply], [MmuCore] and [MmuPort] prove the invariant
      of tables, bookkeeping and cores, [Patch678Props] the client against the
      laws, [PatchSim] and [MmuSpec] the simulation by a flat memory, [MmuBoot]
      that booting establishes it; [MmuTheorems] has the results and [MmuWitness]
      a camera they apply to.
    - [Cpu], [CpuProps]: [src/cpu.c], [src/dryos_rpc.c] and [src/sgi.c].  The two
      cores as a step relation: each access to shared memory is a step, and core 0
      edits while core 1 waits.
    - [Reloc]: [src/reloc.c], which moves ARM functions of the firmware to RAM.
      [RelocProps] gives the instructions that depend on the program counter their
      meaning and tells which words read it in other ways, [RelocTheorems] compares
      function and copy.  [Boot45] is
      [src/boot-d45-am.c], the startup of the 70D, which relocates and patches the
      firmware's init task; [Boot45Props] and [Boot45Theorems] prove what runs then.
    - [MemCheck]: [src/mem.c].  [mstate] has the memory, the world of the pools
      and the bookkeeping; [__mem_malloc] and [__mem_free] are the entry points.
      The pools are the class [Backend]; [MemCheckProps] states what they promise
      ([BackendOk]) and proves the manager against it; [MemCheckMore] has a pool
      that keeps the promises, aligned blocks and the choice of a pool.
    - [Exmem]: [src/exmem.c], the shooting and SRM memory.  Canon's resource
      manager is the class [RscMgr]; [ExmemProps] has its promises and the theorems.
    - [Cbr], [CbrProps]: [src/ml-cbr.c], callbacks for named events.
    - [Config], [ConfigProps]: [src/config.c], settings and their files, with
      the lookups of [src/module.c].
    - [Property]: [src/property.c], the table of property handlers and the checked
      requests for changes; the build options are the class [PropConfig], the
      handlers act on a world that is a parameter.  [PropertyProps] has the
      invariant of the tables and the refinement to a list of registrations,
      [PropertyTheorems] requests and waiting.  [FilePrefix] and [FilePrefixProps]:
      [src/fileprefix.c], a client of it.
    - [Log]: [src/log.c], the disk log, as a step relation in which callers and the
      writing task copy byte by byte.  [LogProps] has the invariant of the ring
      buffer, [LogTheorems] the refinement to a queue, [LogStop] the end of the log.
    - [Util]: [src/crc32.c], [src/imath.c] and [bin_search] of [src/util.c].
    - [Crypt], [CryptProps]: the stream ciphers of [modules/io_crypt/] behind
      the interface [crypt_cipher_t].
    - The big numbers of [modules/io_crypt/].  [bigdigits.c] works on arrays of
      32-bit digits, lowest first: [BigDigits] has its arithmetic, [BigMod] its
      number theory and the primality tests, [BigConv] the conversions from and to
      octets and hexadecimal.  A loop whose end is not evident is [while_], with
      fuel.  [Bigd] is [bigd.c], the layer that sizes the arrays.  [BigDigitsProps]
      gives a digit array its value [val] and treats single words; [BigArith],
      [BigShift], [BigDivide], [BigSquare], [BigModProps], [BigModExp] and [BigPrime]
      relate the functions to [Z], [BigdProps] and [BigBits] the BIGD layer, and
      [BigSpec] states the contracts.
    - [Rand]: [src/rand.c], the LFSR113 generator.
    - [Rsa]: [modules/io_crypt/crypt_rsa.c], on top of [Bigd] and [Rand]: search
      for primes, key generation, the block operation, key files, the context.
      [RsaProps] has the arithmetic of RSA and of the generated keys, [RsaFiles]
      follows the keys from generation over the card to their use.
    - [IoCrypt]: [modules/io_crypt/io_crypt.c], the hooks on Canon's file device
      that encrypt images on the fly.  The device is the class [Iodev]; [iocrypt]
      holds the table of descriptors, the key and the device.  [IoDecrypt] is
      [io_decrypt.c], the program that decrypts on a computer.  [IoCryptProps] has
      the laws of the device ([IodevOk]) and the refinement to plain files,
      [IoFiles] the opening of files and the decryption loop, [IoSession] the
      theorems on whole sessions, [IoDevice] a card that meets the laws.

    The memory manager obtains its blocks from the pools of [Exmem] and of
    Canon; the patch manager works through the caches or the translation tables,
    and takes each edit as one step, which the handshake of [Cpu] justifies; the
    other parts use memory only through [malloc], whose answer is an argument of the model.
    RSA draws its candidates from the generator of [Rand], and the bases of the
    primality test from libc's rand(), which is a parameter: a stream of results
    for each seeding.  The file hooks use the stream ciphers, RSA and the
    generator, and the theorems on sessions rest on those of all three.

    ** What is proved

    - Caches and patches: [cache_fake] changes exactly one word the processor
      sees; after any sequence of ROM patches and removals the processor fetches
      the registered values and the original program elsewhere; fresh RAM
      patches are applied all or none; the registry keeps its bounds; relocated
      loads and branches mean the same.
    - Patches with the MMU: from the boot on, programs of patches, removals and
      stores have the results they have on a flat memory that can be written, ROM
      included, with a budget of pages.  Core 0 sees it; core 1 sees it from when it
      takes the tables, but may miss pages that are new between then and
      [cpu1_ready].  The ROM never changes; batches of patches that are apart and
      new are applied all or none; hooks jump to their targets; the tables and
      pages fit the two kinds of region the cameras use; page copies keep the
      permissions of the ROM.
    - The two cores: for every interleaving an edit is atomic between the tasks of
      core 1, no dead structure is used, and core 0 can always finish.
    - Relocation and startup: a relocated function means what the original means,
      instruction by instruction, for the forms the code supports and for words that
      do not read the program counter; on the 70D the
      copy of the startup code calls the program, and the relocated init task goes
      to the patched [CreateTaskMain] and back to ROM, or startup stops.
    - Memory: over any pools that keep blocks apart, clients that stay inside
      their blocks never see a block overlap or a failed check; overruns and
      double frees are found; the counters agree; the pool chosen is the best.
      The SRM table mirrors what Canon has handed out, but for a first buffer that
      was given back and is still listed.
    - Events, as long as records are free and names fit: the linked lists refine one list of callbacks per event, sorted
      by priority; notification, registration and removal terminate.
    - Settings: what is saved is read back; any file is parsed to its end and
      changes nothing but the settings, and the byte behind the structure for lines
      only when one of them is long.
    - Properties: the table refines a list of registrations; a request carries a
      length the firmware has used itself, in its low 16 bits; the file prefix is lent to one client
      at a time and restored by its key.
    - The log: for every interleaving it is a queue of bounded size between callers
      and file, calls append all or nothing, and a stop that finds the task waiting
      writes all there is.
    - Helpers: the checksum with a table is the one bit by bit; powers, logarithms
      and binary search are exact.
    - Ciphers: both follow a key stream that depends on the file offset only, the
      LFSR for block sizes that are multiples of 8;
      decryption inverts encryption for any two ways of cutting the data.
    - Big numbers: division, exponentiation with a sliding window, inverse, gcd
      and roots compute what they should on every input, in arrays of the declared
      sizes; squaring agrees with multiplication; any program over BIGD values
      refines the program over natural numbers.  The Rabin-Miller test never
      rejects a prime, and ends when rand() is fair, except for 2.
    - RSA: decryption inverts encryption; generated keys satisfy the equations of
      RSA, survive being saved and loaded, and when the two numbers that passed the
      tests are prime they bring back every number of the key size, in whole words
      without leading zero words; key generation
      ends when rand() is fair.  The random generator never falls into an absorbing
      state.
    - File hooks: programs of reads, writes and seeks on encrypted files give the
      results of plain files within the file, and key stream with a wrong count
      behind its end; writes larger than the scratch buffer have no result in the
      model, and the theorems are about smaller ones; what was written with a password or with RSA is
      recovered by the decryption program.
    - Flaws: where the code does not do what it means to, a theorem shows a
      state in which it happens: a failed patch that removes another client's, a
      hook out of range, aligned blocks that are lost, sizes that wrap, lost
      registrations, block sizes that are no multiple of a word, roots of numbers
      that fill their array, a primality test of 2 that does not end, reads past the
      end of an encrypted file, table layouts that overlap, a failed batch on
      DIGIC 6 whose instructions stay patched, log messages lost by a stop.

    ** Bounds and fuel

    Sizes of tables are those of the source (32 patches, 256 tracked blocks,
    16 SRM buffers, arenas of 255).  Addresses and counters are integers with
    their wrap-around written out ([u8], [u16], [u32], [s32], [u64]).  Recursion
    that is not structural carries fuel: walks of the callback lists get one
    step more than there are nodes, and the parser one more than the file has
    characters; the theorems prove that this is enough.  The loops of
    [Exmem] run over the slots of the table or the sizes to be tried.  The
    loops of [BigMod] get a fuel computed from the number of bits, which is
    proved enough; the draws of random numbers, which only end with luck, take
    their bound as an argument, and the liveness theorems say that some bound
    suffices for a fair source.  Numbers have any number of digits.  The
    decryption loop gets one step more than the file has whole blocks.  The loop
    that waits for a suspended core gets one step more than its timeout.  [reloc] gets
    one turn more than the function has words, [send_log_data] five steps more
    than its data has bytes, [powi] and the logarithms 33 turns, [bin_search] one
    call more than the interval has bits.  Translation
    is modelled for ROM, from 0xE0000000 on; RAM is mapped one-to-one by Canon's
    tables.  The layout theorem is for regions of up to 16 MB.

    ** What is not modelled

    Canon's code and the hardware beside the caches are parameters.  Of the big
    numbers, decimal conversion (its lengths come from floating point), printing
    and failing allocations are left out, and so are the variants of [spMultiply]
    and [spDivide] for other compilers.  Of the file hooks, failing allocations,
    their installation, the menu and the tests are left out; the encryption task
    does its work within the call that waits for it.  With the MMU, the caches
    are left out, which the code cleans after every edit, and so is
    [suspend_cpu1], which sleeps until an interrupt; the theorem on the boot is
    for platforms without early code patches, as all of them are.  Relocation is
    modelled as it is built for the camera, on a flat memory that stands for the
    caches after [sync_caches]; of the startup, the branch of the 70D.  The log
    takes files to be written without errors, whose results the code does not
    look at.  [log_length] of [src/imath.c] uses floating point.  The menus, message
    texts, drawing, the camera control, audio, scripting engines and the startup
    of other cameras are left out, as is scheduling outside of [Cpu] and [Log]:
    each operation is one step, which the code ensures by its semaphores or by
    disabling interrupts. *)
From stdpp Require Export base gmap list strings.
From Stdlib Require Export ZArith Lia.

#[global] Open Scope Z_scope.

(** ** Fixed-width integers *)

Definition u8 (x : Z) : Z := x mod 2 ^ 8.
Definition u16 (x : Z) : Z := x mod 2 ^ 16.
Definition u32 (x : Z) : Z := x mod 2 ^ 32.
Definition s32 (x : Z) : Z := (x + 2 ^ 31) mod 2 ^ 32 - 2 ^ 31.

(** ** Tactics *)

(** Turn boolean comparisons in the context and goal into propositions. *)
Ltac to_prop :=
  repeat match goal with
  | H : (_ && _) = true |- _ => apply andb_prop in H; destruct H
  | H : (_ || _) = false |- _ => apply orb_false_elim in H; destruct H
  | H : negb _ = true |- _ => apply negb_true_iff in H
  | H : negb _ = false |- _ => apply negb_false_iff in H
  | H : Z.eqb _ _ = true |- _ => apply Z.eqb_eq in H
  | H : Z.eqb _ _ = false |- _ => apply Z.eqb_neq in H
  | H : Z.ltb _ _ = true |- _ => apply Z.ltb_lt in H
  | H : Z.ltb _ _ = false |- _ => apply Z.ltb_ge in H
  | H : Z.leb _ _ = true |- _ => apply Z.leb_le in H
  | H : Z.leb _ _ = false |- _ => apply Z.leb_gt in H
  | H : bool_decide _ = true |- _ => apply bool_decide_eq_true in H
  | H : bool_decide _ = false |- _ => apply bool_decide_eq_false in H
  end.

(** Case analysis on the first [if] or [match] of the goal. *)
Ltac case_goal :=
  match goal with
  | |- context [if ?b then _ else _] => destruct b eqn:?
  | |- context [match ?x with _ => _ end] => destruct x eqn:?
  end.

(** Same, inside a hypothesis. *)
Ltac case_hyp H :=
  match type of H with
  | context [if ?b then _ else _] => destruct b eqn:?
  | context [match ?x with _ => _ end] => destruct x eqn:?
  end.

Lemma u32_range x : 0 <= u32 x < 2 ^ 32.
Proof. apply Z.mod_pos_bound. lia. Qed.
Lemma u16_range x : 0 <= u16 x < 2 ^ 16.
Proof. apply Z.mod_pos_bound. lia. Qed.
Lemma u8_range x : 0 <= u8 x < 2 ^ 8.
Proof. apply Z.mod_pos_bound. lia. Qed.
Lemma u32_small x : 0 <= x < 2 ^ 32 -> u32 x = x.
Proof. apply Z.mod_small. Qed.
Lemma u16_small x : 0 <= x < 2 ^ 16 -> u16 x = x.
Proof. apply Z.mod_small. Qed.
Lemma u8_small x : 0 <= x < 2 ^ 8 -> u8 x = x.
Proof. apply Z.mod_small. Qed.
Lemma u32_idemp x : u32 (u32 x) = u32 x.
Proof. apply Z.mod_mod. lia. Qed.
Lemma u8_idemp x : u8 (u8 x) = u8 x.
Proof. apply Z.mod_mod. lia. Qed.
Lemma s32_range x : - 2 ^ 31 <= s32 x < 2 ^ 31.
Proof. unfold s32. pose proof (Z.mod_pos_bound (x + 2 ^ 31) (2 ^ 32)). lia. Qed.
Lemma s32_small x : - 2 ^ 31 <= x < 2 ^ 31 -> s32 x = x.
Proof. intros. unfold s32. rewrite Z.mod_small; lia. Qed.

(** A disjoint [or] is a sum. *)
Lemma lor_add a b k : 0 <= k -> 0 <= b < 2 ^ k -> Z.lor (a * 2 ^ k) b = a * 2 ^ k + b.
Proof.
  intros Hk Hb. rewrite <- Z.shiftl_mul_pow2 by lia. symmetry.
  rewrite <- Z.add_lor_land.
  assert (Z.land (Z.shiftl a k) b = 0) as ->; [|lia].
  apply Z.bits_inj'. intros i Hi. rewrite Z.land_spec, Z.bits_0.
  destruct (decide (i < k)).
  - rewrite Z.shiftl_spec_low by lia. done.
  - destruct (decide (b = 0)) as [->|]; [by rewrite Z.bits_0, andb_false_r|].
    rewrite (Z.bits_above_log2 b i), andb_false_r; [done|lia|].
    apply Z.log2_lt_pow2; [lia|]. apply Z.lt_le_trans with (2 ^ k); [lia|]. apply Z.pow_le_mono_r; lia.
Qed.

(** ** Byte-addressed memory *)

(** Main memory is a finite map from addresses to byte values; a byte that
    was never written reads as zero. *)
Abbreviation memory := (gmap Z Z).

Definition rd8 (m : memory) (a : Z) : Z := u8 (default 0 (m !! a)).
Definition wr8 (m : memory) (a v : Z) : memory := <[a := u8 v]> m.

(** Little-endian load and store of [n] bytes. *)
Fixpoint ld (n : nat) (m : memory) (a : Z) : Z :=
  match n with
  | O => 0
  | S n => rd8 m a + 256 * ld n m (a + 1)
  end.

Fixpoint st (n : nat) (m : memory) (a v : Z) : memory :=
  match n with
  | O => m
  | S n => wr8 (st n m (a + 1) (v / 256)) a v
  end.

Abbreviation ld32 := (ld 4).
Abbreviation st32 := (st 4).

(** A run of [n] bytes set to the same value (memset). *)
Fixpoint fill (n : nat) (m : memory) (a v : Z) : memory :=
  match n with
  | O => m
  | S n => fill n (wr8 m a v) (a + 1) v
  end.

Create HintDb ml_mem.

Lemma rd8_range m a : 0 <= rd8 m a < 256.
Proof. apply u8_range. Qed.

Lemma rd8_wr8 m a b v : rd8 (wr8 m a v) b = if decide (a = b) then u8 v else rd8 m b.
Proof.
  unfold rd8, wr8. rewrite lookup_insert. case_decide; [|done].
  simpl. apply u8_idemp.
Qed.

Lemma rd8_wr8_eq m a v : rd8 (wr8 m a v) a = u8 v.
Proof. rewrite rd8_wr8. by rewrite decide_True. Qed.

Lemma rd8_wr8_ne m a b v : a <> b -> rd8 (wr8 m a v) b = rd8 m b.
Proof. intros. rewrite rd8_wr8. by rewrite decide_False. Qed.

Lemma ld_range n m a : 0 <= ld n m a < 256 ^ Z.of_nat n.
Proof.
  revert a. induction n as [|n IH]; intros a; [simpl; lia|].
  rewrite Nat2Z.inj_succ, Z.pow_succ_r by lia. cbn [ld].
  specialize (IH (a + 1)). pose proof (rd8_range m a). lia.
Qed.

Lemma ld32_range m a : 0 <= ld32 m a < 2 ^ 32.
Proof. exact (ld_range 4 m a). Qed.

(** Two memories are equal for the program when every byte reads the same. *)
Definition mem_eq (m1 m2 : memory) : Prop := forall a, rd8 m1 a = rd8 m2 a.

#[export] Instance mem_eq_equiv : Equivalence mem_eq.
Proof.
  split; [by intros m a|by intros m1 m2 H a|intros m1 m2 m3 H1 H2 a].
  by rewrite H1, H2.
Qed.

#[export] Instance rd8_proper : Proper (mem_eq ==> eq ==> eq) rd8.
Proof. intros m1 m2 H a ? <-. apply H. Qed.

#[export] Instance ld_proper : Proper (eq ==> mem_eq ==> eq ==> eq) ld.
Proof.
  intros n ? <- m1 m2 H a ? <-. revert a.
  induction n as [|n IH]; intros a; simpl; [done|]. by rewrite H, IH.
Qed.

#[export] Instance st_proper : Proper (eq ==> mem_eq ==> eq ==> eq ==> mem_eq) st.
Proof.
  intros n ? <- m1 m2 H a ? <- v ? <-. revert a v.
  induction n as [|n IH]; intros a v b; simpl; [apply H|].
  rewrite !rd8_wr8. case_decide; [done|]. apply IH.
Qed.

Lemma rd8_st n m a v b :
  rd8 (st n m a v) b =
  if decide (a <= b < a + Z.of_nat n) then u8 (v / 256 ^ (b - a)) else rd8 m b.
Proof.
  revert a v. induction n as [|n IH]; intros a v.
  { simpl. rewrite decide_False; [done|lia]. }
  cbn [st]. rewrite rd8_wr8. destruct (decide (a = b)) as [<-|Hne].
  - rewrite decide_True by lia. by rewrite Z.sub_diag, Z.pow_0_r, Z.div_1_r.
  - rewrite IH. destruct (decide (a + 1 <= b < a + 1 + Z.of_nat n)) as [Hin|Hout].
    + rewrite decide_True by lia. rewrite Z.div_div by lia. f_equal. f_equal.
      rewrite <- Z.pow_succ_r by lia. f_equal. lia.
    + rewrite decide_False by lia. done.
Qed.

Lemma rd8_st_out n m a v b :
  b < a \/ a + Z.of_nat n <= b -> rd8 (st n m a v) b = rd8 m b.
Proof. intros H. rewrite rd8_st, decide_False by lia. done. Qed.

Lemma ld_ext n m1 m2 a :
  (forall b, a <= b < a + Z.of_nat n -> rd8 m1 b = rd8 m2 b) ->
  ld n m1 a = ld n m2 a.
Proof.
  revert a. induction n as [|n IH]; intros a H; [done|]. cbn [ld].
  rewrite H by lia. rewrite (IH (a + 1)); [done|]. intros b Hb. apply H. lia.
Qed.

Lemma ld_st_out n k m a b v :
  b + Z.of_nat n <= a \/ a + Z.of_nat k <= b -> ld n (st k m a v) b = ld n m b.
Proof. intros H. apply ld_ext. intros c Hc. apply rd8_st_out. lia. Qed.

Lemma ld_wr8_out n m a b v :
  b + Z.of_nat n <= a \/ a + 1 <= b -> ld n (wr8 m a v) b = ld n m b.
Proof. intros H. apply ld_ext. intros c Hc. apply rd8_wr8_ne. lia. Qed.

Lemma ld_st_same n m a v : ld n (st n m a v) a = v mod 256 ^ Z.of_nat n.
Proof.
  revert a v. induction n as [|n IH]; intros a v; [by rewrite Z.mod_1_r|].
  cbn [ld st]. rewrite rd8_wr8_eq, ld_wr8_out by lia. rewrite IH.
  rewrite Nat2Z.inj_succ, Z.pow_succ_r by lia. unfold u8.
  change (2 ^ 8) with 256. rewrite Z.rem_mul_r by lia. lia.
Qed.

Lemma ld32_st32_same m a v : ld32 (st32 m a v) a = u32 v.
Proof. exact (ld_st_same 4 m a v). Qed.

(** Storing back the value just read changes nothing. *)
Lemma ld_digit n m a b :
  a <= b < a + Z.of_nat n -> u8 (ld n m a / 256 ^ (b - a)) = rd8 m b.
Proof.
  revert a b. induction n as [|n IH]; intros a b Hb; [lia|]. cbn [ld].
  pose proof (rd8_range m a). destruct (decide (a = b)) as [<-|Hne].
  - rewrite Z.sub_diag, Z.pow_0_r, Z.div_1_r. unfold u8. change (2 ^ 8) with 256.
    rewrite (Z.mul_comm 256), Z.mod_add, Z.mod_small by lia. done.
  - rewrite <- (IH (a + 1) b) by lia. f_equal.
    replace (b - a) with (Z.succ (b - (a + 1))) by lia.
    rewrite Z.pow_succ_r, <- Z.div_div by lia. f_equal.
    rewrite Z.add_comm, Z.mul_comm, Z.div_add_l, Z.div_small by lia. lia.
Qed.

Lemma st_ld_same n m a : mem_eq (st n m a (ld n m a)) m.
Proof.
  intros b. rewrite rd8_st. case_decide as Hb; [|done]. by apply ld_digit.
Qed.

Lemma st_st_same n m a v w : mem_eq (st n (st n m a v) a w) (st n m a w).
Proof. intros b. rewrite !rd8_st. by case_decide. Qed.

(** A store can be undone by storing the previous value. *)
Lemma st_restore n m a v : mem_eq (st n (st n m a v) a (ld n m a)) m.
Proof. rewrite st_st_same. apply st_ld_same. Qed.

Lemma rd8_fill n m a v b :
  rd8 (fill n m a v) b = if decide (a <= b < a + Z.of_nat n) then u8 v else rd8 m b.
Proof.
  revert m a. induction n as [|n IH]; intros m a.
  { simpl. rewrite decide_False; [done|lia]. }
  cbn [fill]. rewrite IH, rd8_wr8.
  destruct (decide (a = b)); repeat case_decide; (done || lia).
Qed.

#[global] Arguments ld : simpl never.
#[global] Arguments st : simpl never.
#[global] Arguments fill : simpl never.

#[export] Hint Rewrite rd8_wr8_eq ld32_st32_same : ml_mem.

(** ** C strings *)

(** The characters before the terminating NUL. *)
Fixpoint c_string (l : list Z) : list Z :=
  match l with
  | [] => []
  | c :: l => if c =? 0 then [] else c :: c_string l
  end.

Lemma c_string_app e l : Forall (fun c => c <> 0) e -> c_string (e ++ 0 :: l) = e.
Proof.
  induction 1 as [|c e Hc _ IH]; simpl; [done|]. rewrite (proj2 (Z.eqb_neq _ _) Hc). by rewrite IH.
Qed.

Lemma c_string_id e : Forall (fun c => c <> 0) e -> c_string e = e.
Proof. induction 1 as [|c e Hc _ IH]; simpl; [done|]. rewrite (proj2 (Z.eqb_neq _ _) Hc). by rewrite IH. Qed.
