(* ===== verification/CacheHacks.v ===== *)
(** * Cache lockdown ([src/src/cache_hacks.c])

    DIGIC 4/5 cameras patch ROM by locking segment 0 of the ARM946 caches and
    writing tags and words into it.  This file models the tag and data RAMs
    that the CP15 test registers address, the routines that read and write
    them, and what an instruction fetch or a data load sees through them. *)
From S2P Require Import Prelude.

(** ** Geometry *)

Inductive cache_type := TYPE_DCACHE | TYPE_ICACHE.

#[export] Instance cache_type_eq_dec : EqDecision cache_type.
Proof. solve_decision. Defined.

Definition CACHE_SIZE_BITS (t : cache_type) : Z := 13.
Definition CACHE_INDEX_BITS (t : cache_type) : Z := CACHE_SIZE_BITS t - 7.
Definition CACHE_INDEX_TAGOFFSET (t : cache_type) : Z := 5.
Definition CACHE_INDEX_BITMASK (t : cache_type) : Z := Z.shiftl 1 (CACHE_INDEX_BITS t) - 1.
Definition CACHE_INDEX_ADDRMASK (t : cache_type) : Z :=
  Z.shiftl (CACHE_INDEX_BITMASK t) (CACHE_INDEX_TAGOFFSET t).
Definition CACHE_TAG_BITS (t : cache_type) : Z := 27 - CACHE_INDEX_BITS t.
Definition CACHE_TAG_TAGOFFSET (t : cache_type) : Z := 5 + CACHE_INDEX_BITS t.
Definition CACHE_TAG_BITMASK (t : cache_type) : Z := Z.shiftl 1 (CACHE_TAG_BITS t) - 1.
Definition CACHE_TAG_ADDRMASK (t : cache_type) : Z :=
  Z.shiftl (CACHE_TAG_BITMASK t) (CACHE_TAG_TAGOFFSET t).
Definition CACHE_WORD_BITS (t : cache_type) : Z := 3.
Definition CACHE_WORD_TAGOFFSET (t : cache_type) : Z := 2.
Definition CACHE_WORD_BITMASK (t : cache_type) : Z := Z.shiftl 1 (CACHE_WORD_BITS t) - 1.
Definition CACHE_WORD_ADDRMASK (t : cache_type) : Z :=
  Z.shiftl (CACHE_WORD_BITMASK t) (CACHE_WORD_TAGOFFSET t).
Definition CACHE_SEGMENT_BITS (t : cache_type) : Z := 2.
Definition CACHE_SEGMENT_TAGOFFSET (t : cache_type) : Z := 30.
Definition CACHE_SEGMENT_BITMASK (t : cache_type) : Z := Z.shiftl 1 (CACHE_SEGMENT_BITS t) - 1.
Definition CACHE_SEGMENT_ADDRMASK (t : cache_type) : Z :=
  Z.shiftl (CACHE_SEGMENT_BITMASK t) (CACHE_SEGMENT_TAGOFFSET t).

(** Decoding of the CP15 cache type register, whose value is [cache_info]. *)
Definition cache_get_size (cache_info : Z) (type : cache_type) : Z :=
  let cache_info :=
    match type with TYPE_DCACHE => Z.shiftr cache_info 12 | TYPE_ICACHE => cache_info end in
  let size := Z.land (Z.shiftr cache_info 6) 0x0F in
  let absent := Z.land (Z.shiftr cache_info 2) 0x01 in
  if (size <? 3) || negb (absent =? 0) then 0 else size + 9.

(** ** Machine state *)

(** The tag RAM has one entry per segment and index, the data RAM one per
    segment, index and word. *)
Record cache := mk_cache { tag_ram : gmap Z Z; data_ram : gmap Z Z }.

Record machine := mk_machine {
  main_mem : memory;
  icache : cache;
  dcache : cache;
  icache_lockdown : Z;   (* CP15 c9,c0,1 *)
  dcache_lockdown : Z;   (* CP15 c9,c0,0 *)
}.

Definition get_cache (mc : machine) (type : cache_type) : cache :=
  match type with TYPE_ICACHE => icache mc | TYPE_DCACHE => dcache mc end.

Definition set_cache (mc : machine) (type : cache_type) (c : cache) : machine :=
  match type with
  | TYPE_ICACHE => mk_machine (main_mem mc) c (dcache mc) (icache_lockdown mc) (dcache_lockdown mc)
  | TYPE_DCACHE => mk_machine (main_mem mc) (icache mc) c (icache_lockdown mc) (dcache_lockdown mc)
  end.

Definition set_mem (mc : machine) (m : memory) : machine :=
  mk_machine m (icache mc) (dcache mc) (icache_lockdown mc) (dcache_lockdown mc).

Definition set_lockdown (mc : machine) (type : cache_type) (v : Z) : machine :=
  match type with
  | TYPE_ICACHE => mk_machine (main_mem mc) (icache mc) (dcache mc) v (dcache_lockdown mc)
  | TYPE_DCACHE => mk_machine (main_mem mc) (icache mc) (dcache mc) (icache_lockdown mc) v
  end.

(** CP15 c15 test accesses: the index register selects a line (and a word),
    then the tag or the word at that index is read or written. *)
Definition line_key (idx : Z) : Z :=
  Z.land idx (Z.lor (CACHE_SEGMENT_ADDRMASK TYPE_ICACHE) (CACHE_INDEX_ADDRMASK TYPE_ICACHE)).
Definition word_key (idx : Z) : Z :=
  Z.land idx (Z.lor (Z.lor (CACHE_SEGMENT_ADDRMASK TYPE_ICACHE) (CACHE_INDEX_ADDRMASK TYPE_ICACHE))
                    (CACHE_WORD_ADDRMASK TYPE_ICACHE)).

Definition write_tag (c : cache) (idx tag : Z) : cache :=
  mk_cache (<[line_key idx := tag]> (tag_ram c)) (data_ram c).
Definition write_word (c : cache) (idx data : Z) : cache :=
  mk_cache (tag_ram c) (<[word_key idx := data]> (data_ram c)).
Definition read_tag (c : cache) (idx : Z) : Z := default 0 (tag_ram c !! line_key idx).
Definition read_word (c : cache) (idx : Z) : Z := default 0 (data_ram c !! word_key idx).

(** ** What the processor sees *)

Definition TAG_INDEX_MASK (t : cache_type) : Z :=
  Z.lor (CACHE_TAG_ADDRMASK t) (CACHE_INDEX_ADDRMASK t).

(** An access to [a] hits a line of segment 0 when the line is valid (bit 4
    of the tag) and holds the address. *)
Definition hit (c : cache) (a : Z) : bool :=
  Z.land (read_tag c (Z.land a (CACHE_INDEX_ADDRMASK TYPE_ICACHE)))
         (Z.lor (TAG_INDEX_MASK TYPE_ICACHE) 0x10)
  =? Z.lor (Z.land a (TAG_INDEX_MASK TYPE_ICACHE)) 0x10.

Definition cached_word (c : cache) (a : Z) : Z :=
  read_word c (Z.land a (Z.lor (CACHE_INDEX_ADDRMASK TYPE_ICACHE)
                               (CACHE_WORD_ADDRMASK TYPE_ICACHE))).

(** RAM is mirrored, uncached, from 0x40000000 on ([mem_defs.h]). *)
Definition UNCACHEABLE (x : Z) : Z := Z.lor x (if x <? 0x40000000 then 0x40000000 else 0).
Definition CACHEABLE (x : Z) : Z := Z.land x (Z.lxor 0xFFFFFFFF 0x40000000).
Definition is_uncached (a : Z) : bool := (0x40000000 <=? a) && (a <? 0x80000000).
Definition phys (a : Z) : Z := if is_uncached a then a - 0x40000000 else a.

(** Data load of [n] bytes that lie in one word. *)
Definition ldr (n : nat) (mc : machine) (a : Z) : Z :=
  if negb (is_uncached a) && hit (dcache mc) a
  then Z.shiftr (cached_word (dcache mc) a) (8 * (a mod 4)) mod 256 ^ Z.of_nat n
  else ld n (main_mem mc) (phys a).

(** Data store of [n] bytes to RAM; the locked lines only hold ROM. *)
Definition str (n : nat) (mc : machine) (a v : Z) : machine :=
  set_mem mc (st n (main_mem mc) (phys a) v).

(** Instruction fetch of the word at [a]. *)
Definition ifetch (mc : machine) (a : Z) : Z :=
  if hit (icache mc) a then cached_word (icache mc) a else ld32 (main_mem mc) (phys a).

(** ** Routines *)

Definition cache_patch_single_word (mc : machine) (address data : Z) (type : cache_type) : machine :=
  let cache_seg_index_word :=
    Z.land address (Z.lor (CACHE_INDEX_ADDRMASK type) (CACHE_WORD_ADDRMASK type)) in
  let cache_tag_index :=
    Z.lor (Z.land address (Z.lor (CACHE_TAG_ADDRMASK type) (CACHE_INDEX_ADDRMASK type))) 0x10 in
  let c := get_cache mc type in
  set_cache mc type (write_word (write_tag c cache_seg_index_word cache_tag_index)
                                cache_seg_index_word data).

Definition cache_fetch_line (mc : machine) (address : Z) (type : cache_type) : machine :=
  let base := Z.land address (Z.lxor 0xFFFFFFFF 0x1F) in
  let temp_cacheline := map (fun pos => ldr 4 mc (base + 4 * pos)) (seqZ 0 8) in
  foldl (fun mc '(pos, w) => cache_patch_single_word mc (base + pos * 4) w type)
        mc (zip (seqZ 0 8) temp_cacheline).

(** The tag and the word at a segment, index and word. *)
Definition cache_get_content (mc : machine) (segment index word : Z) (type : cache_type) : Z * Z :=
  let cache_seg_index_word :=
    Z.lor (Z.lor (Z.shiftl (Z.land segment (CACHE_SEGMENT_BITMASK type)) (CACHE_SEGMENT_TAGOFFSET type))
                 (Z.shiftl (Z.land index (CACHE_INDEX_BITMASK type)) (CACHE_INDEX_TAGOFFSET type)))
          (Z.shiftl (Z.land word (CACHE_WORD_BITMASK type)) (CACHE_WORD_TAGOFFSET type)) in
  let c := get_cache mc type in
  (read_tag c cache_seg_index_word, read_word c cache_seg_index_word).

(** 1: free or unmodified, 2: already patched, 0: used by another line.  The
    second component is what is stored through [current_value]. *)
Definition cache_is_patchable (mc : machine) (address : Z) (type : cache_type) : Z * Z :=
  let '(stored_tag_index, stored_data) :=
    cache_get_content mc 0
      (Z.shiftr (Z.land address (CACHE_INDEX_ADDRMASK type)) (CACHE_INDEX_TAGOFFSET type))
      (Z.shiftr (Z.land address (CACHE_WORD_ADDRMASK type)) (CACHE_WORD_TAGOFFSET type)) type in
  if Z.land stored_tag_index 0x10 =? 0 then (1, 0xFFFFFFFF)
  else
    let tag_index_mask := Z.lor (CACHE_TAG_ADDRMASK type) (CACHE_INDEX_ADDRMASK type) in
    let cache_tag_index := Z.land address tag_index_mask in
    if Z.land stored_tag_index tag_index_mask =? cache_tag_index then
      if stored_data =? ldr 4 mc address then (1, stored_data) else (2, stored_data)
    else (0, stored_data).

Definition cache_get_cached (mc : machine) (address : Z) (type : cache_type) : bool :=
  let cache_seg_index_word :=
    Z.land address (Z.lor (CACHE_INDEX_ADDRMASK type) (CACHE_WORD_ADDRMASK type)) in
  let stored_tag_index := read_tag (get_cache mc type) cache_seg_index_word in
  let tag_index_valid_mask :=
    Z.lor (Z.lor (CACHE_TAG_ADDRMASK type) (CACHE_INDEX_ADDRMASK type)) 0x10 in
  let cache_tag_index := Z.lor (Z.land address tag_index_valid_mask) 0x10 in
  Z.land stored_tag_index tag_index_valid_mask =? cache_tag_index.

(** Set the tag of every index of segment 0 to an invalid one. *)
Definition invalidate_tags (c : cache) (count : nat) : cache :=
  foldl (fun c index => write_tag c (Z.shiftl index 5) (Z.shiftl index 5))
        c (seqZ 0 (Z.of_nat count)).

Definition index_count (t : cache_type) : nat := Z.to_nat (Z.shiftl 1 (CACHE_INDEX_BITS t)).

Definition icache_unlock (mc : machine) : machine :=
  set_lockdown (set_cache mc TYPE_ICACHE (invalidate_tags (icache mc) (index_count TYPE_ICACHE)))
               TYPE_ICACHE 0.

Definition dcache_unlock (mc : machine) : machine :=
  set_lockdown (set_cache mc TYPE_DCACHE (invalidate_tags (dcache mc) (index_count TYPE_ICACHE)))
               TYPE_DCACHE 0.

Definition icache_lock (mc : machine) : machine :=
  let mc := set_lockdown mc TYPE_ICACHE 1 in
  set_cache mc TYPE_ICACHE (invalidate_tags (icache mc) (index_count TYPE_ICACHE)).

Definition dcache_lock (mc : machine) : machine :=
  let mc := set_lockdown mc TYPE_DCACHE 1 in
  set_cache mc TYPE_DCACHE (invalidate_tags (dcache mc) (index_count TYPE_DCACHE)).

Definition cache_locked (mc : machine) : Z := icache_lockdown mc.
Definition cache_lock (mc : machine) : machine := dcache_lock (icache_lock mc).
Definition cache_unlock (mc : machine) : machine := dcache_unlock (icache_unlock mc).

Definition cache_fake (mc : machine) (address data : Z) (type : cache_type) : machine :=
  let mc := if cache_get_cached mc address type then mc else cache_fetch_line mc address type in
  cache_patch_single_word mc address data type.

Example cache_get_size_550D :
  (cache_get_size 0x0F112112 TYPE_ICACHE, cache_get_size 0x0F112112 TYPE_DCACHE) = (13, 13).
Proof. reflexivity. Qed.

(** ** Lemmas on addresses *)

(** The line of an address, its index, and its slot (index and word). *)
Definition line (a : Z) : Z := Z.land a 0xFFFFFFE0.
Definition index (a : Z) : Z := Z.land a 0x7E0.
Definition slot (a : Z) : Z := Z.land a 0x7FC.
Definition tag_at (c : cache) (a : Z) : Z := default 0 (tag_ram c !! index a).
Definition word_at (c : cache) (a : Z) : Z := default 0 (data_ram c !! slot a).
Definition aligned (a : Z) : Prop := 0 <= a < 2 ^ 32 /\ Z.land a 3 = 0.

#[export] Instance aligned_dec a : Decision (aligned a).
Proof. apply _. Defined.

(** What the locked segment answers for an address. *)
Definition clookup (c : cache) (a : Z) : option Z :=
  if hit c a then Some (cached_word c a) else None.

Lemma line_index a b : line a = line b -> index a = index b.
Proof.
  unfold line, index. intros H.
  change 0x7E0 with (Z.land 0xFFFFFFE0 0x7E0). rewrite !Z.land_assoc. congruence.
Qed.

Lemma slot_index a b : slot a = slot b -> index a = index b.
Proof.
  unfold slot, index. intros H.
  change 0x7E0 with (Z.land 0x7FC 0x7E0). rewrite !Z.land_assoc. congruence.
Qed.

Lemma line_slot_inj a b : aligned a -> aligned b -> line a = line b -> slot a = slot b -> a = b.
Proof.
  intros [Ha Ha3] [Hb Hb3] Hl Hs.
  assert (forall x, 0 <= x < 2 ^ 32 -> x = Z.lor (Z.lor (line x) (slot x)) (Z.land x 3)) as D.
  { intros x Hx. unfold line, slot. rewrite <- !Z.land_lor_distr_r.
    change (Z.lor (Z.lor 0xFFFFFFE0 0x7FC) 3) with (Z.ones 32).
    rewrite Z.land_ones, Z.mod_small by lia. done. }
  rewrite (D a Ha), (D b Hb). congruence.
Qed.

Lemma land_bit4 x : Z.land x 0x10 = 0 \/ Z.land x 0x10 = 0x10.
Proof.
  destruct (Z.testbit x 4) eqn:E; [right|left]; apply Z.bits_inj'; intros n Hn;
    rewrite Z.land_spec, ?Z.bits_0; change 0x10 with (2 ^ 4);
    rewrite Z.pow2_bits_eqb by lia;
    destruct (Z.eqb_spec 4 n) as [<-|]; rewrite ?E, ?andb_false_r; done.
Qed.

Lemma lor_valid_line a b : Z.lor (line a) 0x10 = Z.lor (line b) 0x10 -> line a = line b.
Proof.
  intros H. apply (f_equal (fun x => Z.land x 0xFFFFFFE0)) in H. revert H. unfold line.
  by rewrite !Z.land_lor_distr_l, <- !Z.land_assoc, !Z.lor_0_r.
Qed.

Lemma lor_valid_self a : Z.land (Z.lor (line a) 0x10) 0xFFFFFFF0 = Z.lor (line a) 0x10.
Proof. unfold line. by rewrite Z.land_lor_distr_l, <- Z.land_assoc. Qed.

(** ** The locked segment as a partial map *)

Lemma hit_tag c a : hit c a = (Z.land (tag_at c a) 0xFFFFFFF0 =? Z.lor (line a) 0x10).
Proof.
  unfold hit, read_tag, tag_at, line_key. by rewrite <- Z.land_assoc.
Qed.

Lemma hit_true c a :
  hit c a = true <-> Z.land (tag_at c a) 0x10 = 0x10 /\ Z.land (tag_at c a) 0xFFFFFFE0 = line a.
Proof.
  rewrite hit_tag, Z.eqb_eq. split.
  - intros H. split.
    + apply (f_equal (fun x => Z.land x 0x10)) in H. revert H. unfold line.
      rewrite Z.land_lor_distr_l, <- !Z.land_assoc.
      by rewrite (Z.land_0_r a : Z.land a (Z.land 0xFFFFFFE0 0x10) = 0).
    + apply (f_equal (fun x => Z.land x 0xFFFFFFE0)) in H. revert H. unfold line.
      by rewrite Z.land_lor_distr_l, <- !Z.land_assoc, Z.lor_0_r.
  - intros [H1 H2]. change 0xFFFFFFF0 with (Z.lor 0xFFFFFFE0 0x10).
    by rewrite Z.land_lor_distr_r, H1, H2.
Qed.

Lemma cached_word_at c a : cached_word c a = word_at c a.
Proof. unfold cached_word, read_word, word_at, word_key. by rewrite <- Z.land_assoc. Qed.

Lemma get_cached_hit mc a t : cache_get_cached mc a t = hit (get_cache mc t) a.
Proof.
  unfold cache_get_cached. rewrite hit_tag. unfold read_tag, tag_at, line_key, index.
  rewrite <- Z.land_assoc. f_equal. unfold line.
  change (Z.lor (Z.lor (CACHE_TAG_ADDRMASK t) (CACHE_INDEX_ADDRMASK t)) 0x10)
    with (Z.lor 0xFFFFFFE0 0x10).
  rewrite Z.land_lor_distr_r, <- Z.lor_assoc. f_equal.
  by destruct (land_bit4 a) as [->| ->].
Qed.

Lemma get_cache_set mc t c : get_cache (set_cache mc t c) t = c.
Proof. by destruct t. Qed.

Lemma get_cache_set_ne mc t t' c : t <> t' -> get_cache (set_cache mc t c) t' = get_cache mc t'.
Proof. by destruct t, t'. Qed.

Lemma patch_word_cache mc a d t :
  get_cache (cache_patch_single_word mc a d t) t =
  mk_cache (<[index a := Z.lor (line a) 0x10]> (tag_ram (get_cache mc t)))
           (<[slot a := d]> (data_ram (get_cache mc t))).
Proof.
  unfold cache_patch_single_word. rewrite get_cache_set.
  unfold write_word, write_tag, line_key, word_key. simpl. by rewrite <- !Z.land_assoc.
Qed.

Lemma patch_word_frame mc a d t :
  main_mem (cache_patch_single_word mc a d t) = main_mem mc /\
  icache_lockdown (cache_patch_single_word mc a d t) = icache_lockdown mc /\
  dcache_lockdown (cache_patch_single_word mc a d t) = dcache_lockdown mc /\
  forall t', t <> t' -> get_cache (cache_patch_single_word mc a d t) t' = get_cache mc t'.
Proof. destruct t; (repeat split; intros []; done). Qed.

(** Writing one word: the word is found; the rest of its line becomes
    visible; any other line of the same index is dropped. *)
Lemma clookup_patch_word mc a d t b :
  aligned a -> aligned b ->
  clookup (get_cache (cache_patch_single_word mc a d t) t) b =
  if decide (line a = line b) then
    Some (if decide (a = b) then d else word_at (get_cache mc t) b)
  else if decide (index a = index b) then None
  else clookup (get_cache mc t) b.
Proof.
  intros Ha Hb. unfold clookup. rewrite patch_word_cache.
  rewrite !hit_tag, !cached_word_at. unfold tag_at, word_at; simpl.
  destruct (decide (line a = line b)) as [Hl|Hl].
  - rewrite (line_index _ _ Hl), lookup_insert_eq. simpl.
    rewrite <- Hl, lor_valid_self, Z.eqb_refl. f_equal.
    destruct (decide (a = b)) as [->|Hne]; [by rewrite lookup_insert_eq|].
    rewrite lookup_insert_ne; [done|]. intros Hs. by apply Hne, line_slot_inj.
  - destruct (decide (index a = index b)) as [Hi|Hi].
    + rewrite Hi, lookup_insert_eq. simpl. rewrite lor_valid_self.
      rewrite (proj2 (Z.eqb_neq _ _)); [done|]. intros E. by apply Hl, lor_valid_line.
    + rewrite !lookup_insert_ne; [done| |done]. intros Hs. by apply Hi, slot_index.
Qed.

(** ** Fetching a line *)

Lemma line_arith x : 0 <= x < 2 ^ 32 -> line x = x - x mod 32.
Proof.
  intros Hx. unfold line. change 32 with (2 ^ 5). rewrite <- Z.land_ones by lia.
  enough (x = Z.land x 0xFFFFFFE0 + Z.land x (Z.ones 5)) by lia.
  rewrite <- Z.add_lor_land, <- Z.land_lor_distr_r.
  replace (Z.land (Z.land x 0xFFFFFFE0) (Z.land x (Z.ones 5))) with 0.
  2:{ rewrite (Z.land_comm x (Z.ones 5)), Z.land_assoc, <- (Z.land_assoc x).
      by rewrite (Z.land_0_r x : Z.land x (Z.land 0xFFFFFFE0 (Z.ones 5)) = 0). }
  change (Z.lor 0xFFFFFFE0 (Z.ones 5)) with (Z.ones 32).
  rewrite Z.land_ones, Z.mod_small by lia. lia.
Qed.

Lemma land3 x : Z.land x 3 = x mod 4.
Proof. exact (Z.land_ones x 2 ltac:(lia)). Qed.

Lemma line_word a pos : aligned a -> 0 <= pos < 8 ->
  aligned (line a + pos * 4) /\ line (line a + pos * 4) = line a.
Proof.
  intros [Ha _] Hp.
  assert (0 <= line a + pos * 4 < 2 ^ 32) as Hr.
  { rewrite line_arith by done. Z.div_mod_to_equations. lia. }
  unfold aligned. rewrite land3, (line_arith (line a + pos * 4)), line_arith by done.
  rewrite line_arith in Hr by done.
  repeat split; Z.div_mod_to_equations; lia.
Qed.

Lemma line_decomp a b : aligned b -> line a = line b ->
  exists pos, 0 <= pos < 8 /\ b = line a + pos * 4.
Proof.
  intros [Hb Hb3] ->. rewrite land3 in Hb3. exists (b mod 32 / 4).
  rewrite line_arith by done. split; Z.div_mod_to_equations; lia.
Qed.

Definition patch_words (mc : machine) (t : cache_type) (pw : list (Z * Z)) : machine :=
  foldl (fun mc '(x, w) => cache_patch_single_word mc x w t) mc pw.

Lemma patch_words_snoc mc t pw x w :
  patch_words mc t (pw ++ [(x, w)]) = cache_patch_single_word (patch_words mc t pw) x w t.
Proof. unfold patch_words. by rewrite foldl_app. Qed.

Lemma patch_words_frame mc t pw :
  main_mem (patch_words mc t pw) = main_mem mc /\
  icache_lockdown (patch_words mc t pw) = icache_lockdown mc /\
  dcache_lockdown (patch_words mc t pw) = dcache_lockdown mc /\
  forall t', t <> t' -> get_cache (patch_words mc t pw) t' = get_cache mc t'.
Proof.
  induction pw as [|[x w] pw IH] using rev_ind; [done|].
  rewrite patch_words_snoc. destruct IH as (E1 & E2 & E3 & E4).
  destruct (patch_word_frame (patch_words mc t pw) x w t) as (F1 & F2 & F3 & F4).
  rewrite F1, F2, F3. repeat split; try done. intros t' Ht. rewrite F4, E4; done.
Qed.

Lemma word_at_patch_word mc a d t b :
  word_at (get_cache (cache_patch_single_word mc a d t) t) b =
  if decide (slot a = slot b) then d else word_at (get_cache mc t) b.
Proof.
  rewrite patch_word_cache. unfold word_at; simpl. rewrite lookup_insert.
  by case_decide.
Qed.

(** Membership in a list extended at the end. *)
Ltac in_app := rewrite ?elem_of_app, ?list_elem_of_singleton; auto.

(** Words written to one line are all there at the end. *)
Lemma word_at_patch_words mc t pw L b w :
  NoDup pw.*1 -> (forall x v, (x, v) ∈ pw -> aligned x /\ line x = L) ->
  (b, w) ∈ pw -> word_at (get_cache (patch_words mc t pw) t) b = w.
Proof.
  induction pw as [|[x v] pw IH] using rev_ind; [by intros _ _ ?%elem_of_nil|].
  rewrite fmap_app, NoDup_app. intros (Hnd & Hdis & _) Hall Hin.
  rewrite patch_words_snoc, word_at_patch_word.
  destruct (Hall x v) as [Hax Hlx]; [in_app|].
  destruct (Hall b w) as [Hab Hlb]; [done|].
  apply elem_of_app in Hin as [Hin|Hin].
  - rewrite decide_False; [apply IH; [done|intros; apply (Hall x0 v0); in_app|done]|].
    intros Hs. assert (x = b) as -> by (apply line_slot_inj; congruence).
    apply (Hdis b); [|cbn; in_app]. apply list_elem_of_fmap. by exists (b, w).
  - apply list_elem_of_singleton in Hin. simplify_eq. by rewrite decide_True.
Qed.

(** The words a line fetch writes. *)
Definition fetch_words (mc : machine) (a : Z) : list (Z * Z) :=
  map (fun pos => (line a + pos * 4, ldr 4 mc (line a + pos * 4))) (seqZ 0 8).

Lemma fetch_line_words mc a t : cache_fetch_line mc a t = patch_words mc t (fetch_words mc a).
Proof. reflexivity. Qed.

Lemma fetch_words_elem mc a x v : aligned a ->
  (x, v) ∈ fetch_words mc a -> aligned x /\ line x = line a.
Proof.
  intros Ha (pos & [= -> ->] & Hpos%elem_of_seqZ)%list_elem_of_fmap.
  apply line_word; [done|lia].
Qed.

Lemma fetch_words_line mc a b : aligned b -> line a = line b ->
  (b, ldr 4 mc b) ∈ fetch_words mc a.
Proof.
  intros Hb Hl. destruct (line_decomp a b Hb Hl) as (pos & Hpos & ->).
  apply list_elem_of_fmap. exists pos. rewrite elem_of_seqZ. split; [done|lia].
Qed.

Lemma fetch_words_nodup mc a : NoDup (fetch_words mc a).*1.
Proof.
  unfold fetch_words. change (seqZ 0 8) with [0; 1; 2; 3; 4; 5; 6; 7].
  cbn [map fmap list_fmap fst].
  repeat (apply NoDup_cons; split; [rewrite ?elem_of_cons, ?elem_of_nil; lia|]).
  apply NoDup_nil_2.
Qed.

(** Writing words of the line of [a] makes exactly that line visible. *)
Lemma clookup_patch_words mc t pw a b :
  aligned b -> (forall x v, (x, v) ∈ pw -> aligned x /\ line x = line a) -> pw <> [] ->
  clookup (get_cache (patch_words mc t pw) t) b =
  if decide (line a = line b) then Some (word_at (get_cache (patch_words mc t pw) t) b)
  else if decide (index a = index b) then None else clookup (get_cache mc t) b.
Proof.
  intros Hb. induction pw as [|[x v] pw IH] using rev_ind; [done|]. intros H _.
  destruct (H x v) as [Hx Hlx]; [in_app|].
  rewrite patch_words_snoc, clookup_patch_word, word_at_patch_word, Hlx by done.
  destruct (decide (line a = line b)) as [Hl|Hl].
  - f_equal. destruct (decide (x = b)) as [->|Hne]; [by rewrite decide_True|].
    rewrite decide_False; [done|]. intros Hs. apply Hne, line_slot_inj; congruence.
  - rewrite (line_index x a) by done. case_decide; [done|].
    destruct (decide (pw = [])) as [->|]; [done|].
    apply IH; [intros y u Hy; apply (H y u); in_app|done].
Qed.

Lemma clookup_fetch_line mc a t b :
  aligned a -> aligned b ->
  clookup (get_cache (cache_fetch_line mc a t) t) b =
  if decide (line a = line b) then Some (ldr 4 mc b)
  else if decide (index a = index b) then None
  else clookup (get_cache mc t) b.
Proof.
  intros Ha Hb. rewrite fetch_line_words.
  pose proof (fetch_words_elem mc a) as Hall.
  rewrite (clookup_patch_words mc t _ a) by (done || eauto).
  case_decide as Hl; [|done]. f_equal.
  apply word_at_patch_words with (L := line a);
    [apply fetch_words_nodup|eauto|by apply fetch_words_line].
Qed.

(** ** Patchability and faking *)

Lemma shift_field x m k : 0 <= k ->
  Z.shiftl (Z.land (Z.shiftr (Z.land x (Z.shiftl m k)) k) m) k = Z.land x (Z.shiftl m k).
Proof.
  intros Hk. rewrite Z.shiftr_land, Z.shiftr_shiftl_l, Z.sub_diag, Z.shiftl_0_r by lia.
  rewrite <- Z.land_assoc, Z.land_diag, Z.shiftl_land, <- Z.ldiff_ones_r, Z.ldiff_land by lia.
  rewrite <- Z.land_assoc. f_equal. rewrite Z.land_comm, <- Z.ldiff_land.
  rewrite Z.ldiff_ones_r, Z.shiftr_shiftl_l, Z.sub_diag, Z.shiftl_0_r by lia. done.
Qed.

Lemma get_content_slot mc a t :
  cache_get_content mc 0
    (Z.shiftr (Z.land a (CACHE_INDEX_ADDRMASK t)) (CACHE_INDEX_TAGOFFSET t))
    (Z.shiftr (Z.land a (CACHE_WORD_ADDRMASK t)) (CACHE_WORD_TAGOFFSET t)) t =
  (tag_at (get_cache mc t) a, word_at (get_cache mc t) a).
Proof.
  unfold cache_get_content, CACHE_INDEX_ADDRMASK, CACHE_WORD_ADDRMASK.
  rewrite !shift_field by done. cbn [Z.land Z.shiftl]. rewrite Z.lor_0_l, <- Z.land_lor_distr_r.
  unfold read_tag, read_word, tag_at, word_at, line_key, word_key. by rewrite <- !Z.land_assoc.
Qed.

Lemma is_patchable_spec mc a t :
  cache_is_patchable mc a t =
  let c := get_cache mc t in
  if Z.land (tag_at c a) 0x10 =? 0 then (1, 0xFFFFFFFF)
  else (if hit c a then if cached_word c a =? ldr 4 mc a then 1 else 2 else 0, cached_word c a).
Proof.
  unfold cache_is_patchable. rewrite get_content_slot, cached_word_at. cbv zeta.
  destruct (Z.eqb_spec (Z.land (tag_at (get_cache mc t) a) 0x10) 0) as [|Hv]; [done|].
  change (Z.lor (CACHE_TAG_ADDRMASK t) (CACHE_INDEX_ADDRMASK t)) with 0xFFFFFFE0. fold (line a).
  destruct (land_bit4 (tag_at (get_cache mc t) a)) as [|Hb]; [done|].
  destruct (Z.eqb_spec (Z.land (tag_at (get_cache mc t) a) 0xFFFFFFE0) (line a)) as [Hl|Hl].
  - rewrite (proj2 (hit_true _ _) (conj Hb Hl)). by case_match.
  - destruct (hit (get_cache mc t) a) eqn:E; [|done]. by apply hit_true in E as [_ ?].
Qed.

(** A patchable address has no other address in its place. *)
Lemma patchable_no_alias mc a t b :
  fst (cache_is_patchable mc a t) <> 0 -> index a = index b -> line a <> line b ->
  clookup (get_cache mc t) b = None.
Proof.
  rewrite is_patchable_spec. cbv zeta. intros Hp Hi Hl. unfold clookup.
  destruct (hit (get_cache mc t) b) eqn:E; [|done].
  apply hit_true in E as [Hv Hlb]. unfold tag_at in *. rewrite <- Hi in Hv, Hlb.
  rewrite Hv in Hp. simpl in Hp. destruct (hit (get_cache mc t) a) eqn:E'; [|done].
  apply hit_true in E' as [_ Hla]. unfold tag_at in Hla. congruence.
Qed.

Lemma fake_frame mc a d t :
  main_mem (cache_fake mc a d t) = main_mem mc /\
  icache_lockdown (cache_fake mc a d t) = icache_lockdown mc /\
  dcache_lockdown (cache_fake mc a d t) = dcache_lockdown mc /\
  forall t', t <> t' -> get_cache (cache_fake mc a d t) t' = get_cache mc t'.
Proof.
  unfold cache_fake. destruct (cache_get_cached mc a t); [apply patch_word_frame|].
  rewrite fetch_line_words.
  destruct (patch_words_frame mc t (fetch_words mc a)) as (E1 & E2 & E3 & E4).
  destruct (patch_word_frame (patch_words mc t (fetch_words mc a)) a d t) as (F1 & F2 & F3 & F4).
  rewrite F1, F2, F3. repeat split; try done. intros t' Ht. rewrite F4, E4; done.
Qed.

Lemma tag_at_patch_words mc t pw a b :
  (forall x v, (x, v) ∈ pw -> line x = line a) ->
  tag_at (get_cache (patch_words mc t pw) t) b =
  if decide (pw <> [] /\ index a = index b) then Z.lor (line a) 0x10 else tag_at (get_cache mc t) b.
Proof.
  induction pw as [|[x v] pw IH] using rev_ind; intros H.
  { rewrite decide_False; [done|]. by intros []. }
  rewrite patch_words_snoc, patch_word_cache. unfold tag_at at 1. cbn [tag_ram].
  pose proof (H x v ltac:(in_app)) as Hx. rewrite Hx, (line_index x a Hx).
  destruct (decide (index a = index b)) as [Hi|Hi].
  - rewrite Hi, lookup_insert_eq, decide_True; [done|]. split; [by destruct pw|done].
  - rewrite lookup_insert_ne by done. rewrite decide_False by (by intros []).
    fold (tag_at (get_cache (patch_words mc t pw) t) b).
    rewrite IH; [|intros y w Hy; apply (H y w); in_app]. rewrite decide_False; [done|]. by intros [].
Qed.

Lemma tag_at_fake mc a d t b : aligned a ->
  tag_at (get_cache (cache_fake mc a d t) t) b =
  if decide (index a = index b) then Z.lor (line a) 0x10 else tag_at (get_cache mc t) b.
Proof.
  intros Ha. unfold cache_fake.
  assert (E : forall mc, tag_at (get_cache (cache_patch_single_word mc a d t) t) b =
    if decide (index a = index b) then Z.lor (line a) 0x10 else tag_at (get_cache mc t) b).
  { intros mc'. rewrite patch_word_cache. unfold tag_at; cbn [tag_ram]. rewrite lookup_insert.
    by case_decide. }
  rewrite E. case_decide as Hi; [done|]. destruct (cache_get_cached mc a t); [done|].
  rewrite fetch_line_words, (tag_at_patch_words mc t _ a).
  - rewrite decide_False; [done|]. by intros [].
  - intros x v Hx. by eapply fetch_words_elem.
Qed.

(** The locked segment after faking one word of a patchable address. *)
Lemma clookup_fake mc a d t b :
  aligned a -> aligned b -> fst (cache_is_patchable mc a t) <> 0 ->
  clookup (get_cache (cache_fake mc a d t) t) b =
  if decide (a = b) then Some d
  else if decide (line a = line b) then Some (default (ldr 4 mc b) (clookup (get_cache mc t) b))
  else clookup (get_cache mc t) b.
Proof.
  intros Ha Hb Hp. unfold cache_fake. rewrite get_cached_hit.
  destruct (hit (get_cache mc t) a) eqn:Eh.
  - rewrite clookup_patch_word by done. destruct (decide (line a = line b)) as [Hl|Hl].
    + case_decide; [done|]. unfold clookup. destruct (hit (get_cache mc t) b) eqn:E.
      * by rewrite cached_word_at.
      * revert Eh E. rewrite !hit_tag. unfold tag_at. by rewrite (line_index _ _ Hl), Hl => ->.
    + rewrite (decide_False (P := a = b)) by congruence. case_decide; [|done].
      symmetry. by apply (patchable_no_alias mc a).
  - pose proof (clookup_fetch_line mc a t b Ha Hb) as Hf.
    rewrite clookup_patch_word by done. revert Hf.
    destruct (decide (line a = line b)) as [Hl|Hl].
    + unfold clookup at 1. destruct (hit (get_cache (cache_fetch_line mc a t) t) b); [|done].
      rewrite cached_word_at. intros [= ->]. case_decide; [done|].
      unfold clookup. destruct (hit (get_cache mc t) b) eqn:E; [|done].
      revert Eh E. rewrite !hit_tag. unfold tag_at. by rewrite (line_index _ _ Hl), Hl => ->.
    + intros Hf. rewrite (decide_False (P := a = b)) by congruence. rewrite Hf.
      case_decide; [|done]. symmetry. by apply (patchable_no_alias mc a).
Qed.

(** ** Lock and unlock *)

Lemma line_key_shift i : 0 <= i < 64 -> line_key (Z.shiftl i 5) = Z.shiftl i 5.
Proof.
  intros Hi. assert (Hc : forallb (fun i => line_key (Z.shiftl i 5) =? Z.shiftl i 5) (seqZ 0 64) = true)
    by reflexivity.
  rewrite forallb_forall in Hc. apply Z.eqb_eq, Hc. apply list_elem_of_In, elem_of_seqZ. lia.
Qed.

Lemma index_shift a : exists i, 0 <= i < 64 /\ index a = Z.shiftl i 5.
Proof.
  exists (Z.land (Z.shiftr (index a) 5) 63). split.
  - change 63 with (Z.ones 6). rewrite Z.land_ones by lia. apply Z.mod_pos_bound. lia.
  - symmetry. exact (shift_field a 63 5 ltac:(lia)).
Qed.

Lemma tag_ram_invalidate l c k :
  (forall i, i ∈ l -> 0 <= i < 64) ->
  tag_ram (foldl (fun c i => write_tag c (Z.shiftl i 5) (Z.shiftl i 5)) c l) !! k =
  if decide (k ∈ (fun i => Z.shiftl i 5) <$> l) then Some k else tag_ram c !! k.
Proof.
  induction l as [|i l IH] using rev_ind; intros Hl; [done|].
  rewrite foldl_app. cbn [foldl]. unfold write_tag at 1; simpl.
  rewrite line_key_shift by (apply Hl; in_app).
  rewrite lookup_insert, IH by (intros; apply Hl; in_app).
  rewrite fmap_app. destruct (decide (Z.shiftl i 5 = k)) as [Heq|Hne].
  - rewrite decide_True; [by rewrite Heq|]. rewrite elem_of_app. right. subst k. cbn. in_app.
  - destruct (decide (k ∈ _ <$> l)) as [Hin|Hout].
    + by rewrite decide_True by (rewrite elem_of_app; auto).
    + rewrite decide_False; [done|]. rewrite elem_of_app. intros [?|Hs]; [done|].
      apply list_elem_of_singleton in Hs. congruence.
Qed.

(** After the tags are invalidated no line of segment 0 is valid. *)
Lemma tag_invalidate c t a : Z.land (tag_at (invalidate_tags c (index_count t)) a) 0x10 = 0.
Proof.
  unfold tag_at, invalidate_tags. change (Z.of_nat (index_count t)) with 64.
  destruct (index_shift a) as (i & Hi & Ei).
  rewrite tag_ram_invalidate by (intros ? ?%elem_of_seqZ; lia).
  rewrite decide_True.
  2:{ apply list_elem_of_fmap. exists i. split; [done|]. apply elem_of_seqZ. lia. }
  simpl. unfold index. rewrite <- Z.land_assoc. apply (Z.land_0_r a).
Qed.

Lemma hit_invalidate c t a : hit (invalidate_tags c (index_count t)) a = false.
Proof.
  destruct (hit _ a) eqn:E; [|done]. apply hit_true in E as [Hv _].
  by rewrite tag_invalidate in Hv.
Qed.

Lemma lock_no_hit mc t a : hit (get_cache (cache_lock mc) t) a = false.
Proof. destruct t; apply (hit_invalidate _ TYPE_ICACHE). Qed.

Lemma unlock_no_hit mc t a : hit (get_cache (cache_unlock mc) t) a = false.
Proof. destruct t; apply (hit_invalidate _ TYPE_ICACHE). Qed.

(** ** Properties *)

Lemma ldr_miss n mc a : hit (dcache mc) a = false -> ldr n mc a = ld n (main_mem mc) (phys a).
Proof. intros H. unfold ldr. by rewrite H, andb_false_r. Qed.

Lemma ifetch_clookup mc a :
  ifetch mc a = default (ld32 (main_mem mc) (phys a)) (clookup (get_cache mc TYPE_ICACHE) a).
Proof. unfold ifetch, clookup. simpl. by case_match. Qed.

Lemma ldr_clookup mc a : aligned a -> is_uncached a = false ->
  ldr 4 mc a = default (ld32 (main_mem mc) (phys a)) (u32 <$> clookup (get_cache mc TYPE_DCACHE) a).
Proof.
  intros [_ Ha] Hu. rewrite land3 in Ha. unfold ldr, clookup. rewrite Hu, Ha. simpl.
  case_match; [|done]. by rewrite Z.shiftr_0_r.
Qed.

Lemma ldr_range n mc a : 0 <= ldr n mc a < 256 ^ Z.of_nat n.
Proof. unfold ldr. case_match; [apply Z.mod_pos_bound; lia|apply ld_range]. Qed.

(** The instruction stream after faking one word of a patchable address. *)
Lemma fake_ifetch mc a d b :
  aligned a -> aligned b -> hit (dcache mc) a = false ->
  fst (cache_is_patchable mc a TYPE_ICACHE) <> 0 ->
  ifetch (cache_fake mc a d TYPE_ICACHE) b = if decide (a = b) then d else ifetch mc b.
Proof.
  intros Ha Hb Hd Hp. rewrite !ifetch_clookup.
  destruct (fake_frame mc a d TYPE_ICACHE) as (-> & _).
  rewrite (clookup_fake mc a d TYPE_ICACHE b) by done. case_decide; [done|].
  case_decide as Hl; [|done]. simpl. rewrite ldr_miss; [done|].
  revert Hd. rewrite !hit_tag. unfold tag_at. by rewrite (line_index _ _ Hl), Hl.
Qed.

(** faking a word of a patchable address through the locked instruction
    cache changes the instruction fetched at that address and at no other
    one, as long as the data cache does not hold a modified copy of the line. *)
Theorem cache_fake_icache_view mc a d b :
  aligned a -> aligned b -> hit (dcache mc) a = false ->
  fst (cache_is_patchable mc a TYPE_ICACHE) <> 0 ->
  ifetch (cache_fake mc a d TYPE_ICACHE) b = if decide (a = b) then d else ifetch mc b.
Proof. apply fake_ifetch. Qed.

Lemma cache_fake_icache_view_witness :
  ifetch (cache_fake (cache_lock (mk_machine ∅ (mk_cache ∅ ∅) (mk_cache ∅ ∅) 0 0))
            0xFF123404 0xEAFFFFFE TYPE_ICACHE) 0xFF123404 = 0xEAFFFFFE.
Proof.
  apply (cache_fake_icache_view (cache_lock (mk_machine ∅ (mk_cache ∅ ∅) (mk_cache ∅ ∅) 0 0))
           0xFF123404 0xEAFFFFFE 0xFF123404).
  - unfold aligned. split; [lia|reflexivity].
  - unfold aligned. split; [lia|reflexivity].
  - vm_compute. reflexivity.
  - vm_compute. discriminate.
Defined.

(** the same for data loads through the locked data cache. *)
Theorem cache_fake_dcache_view mc a d b :
  aligned a -> aligned b -> is_uncached a = false -> 0 <= d < 2 ^ 32 ->
  fst (cache_is_patchable mc a TYPE_DCACHE) <> 0 ->
  ldr 4 (cache_fake mc a d TYPE_DCACHE) b = if decide (a = b) then d else ldr 4 mc b.
Proof.
  intros Ha Hb Hu Hd Hp. pose proof (fake_frame mc a d TYPE_DCACHE) as (Em & _).
  destruct (is_uncached b) eqn:Hub.
  - rewrite decide_False by congruence. unfold ldr. by rewrite Hub, Em.
  - rewrite !ldr_clookup, Em by done.
    rewrite (clookup_fake mc a d TYPE_DCACHE b) by done.
    case_decide; [simpl; by rewrite u32_small|].
    case_decide; [|done]. pose proof (ldr_clookup mc b Hb Hub) as El.
    destruct (clookup (get_cache mc TYPE_DCACHE) b); simpl in *; [done|].
    rewrite El. apply u32_small, ld32_range.
Qed.

Lemma cache_fake_dcache_view_witness :
  ldr 4 (cache_fake (cache_lock (mk_machine ∅ (mk_cache ∅ ∅) (mk_cache ∅ ∅) 0 0))
           0xF8001230 0x1234 TYPE_DCACHE) 0xF8001230 = 0x1234.
Proof.
  apply (cache_fake_dcache_view (cache_lock (mk_machine ∅ (mk_cache ∅ ∅) (mk_cache ∅ ∅) 0 0))
           0xF8001230 0x1234 0xF8001230).
  - unfold aligned. split; [lia|reflexivity].
  - unfold aligned. split; [lia|reflexivity].
  - reflexivity.
  - lia.
  - vm_compute. discriminate.
Defined.
