(* ===== verification/Patch.v ===== *)
(** * Memory patching ([src/src/patch.c], [src/src/patch_cache.c])

    The patch manager of the DIGIC 4/5 build (the 70D): a registry of applied
    patches, RAM patches written to memory, ROM patches faked through the
    locked caches of [CacheHacks], and function hooks.  Interrupts are off
    during every operation ([cli]/[sei]), so each is one atomic step. *)
From S2P Require Import Prelude CacheHacks.

(** ** Data *)

Definition E_PATCH_OK : Z := 0.
Definition E_PATCH_UNKNOWN_ERROR : Z := 0x1.
Definition E_PATCH_ALREADY_PATCHED : Z := 0x2.
Definition E_PATCH_TOO_MANY_PATCHES : Z := 0x4.
Definition E_PATCH_OLD_VALUE_MISMATCH : Z := 0x8.
Definition E_PATCH_CACHE_COLLISION : Z := 0x10.
Definition E_PATCH_CACHE_ERROR : Z := 0x20.
Definition E_PATCH_REG_NOT_FOUND : Z := 0x40.
Definition E_PATCH_WRONG_CPU : Z := 0x80.
Definition E_PATCH_NO_SGI_HANDLER : Z := 0x100.
Definition E_PATCH_CPU1_SUSPEND_FAIL : Z := 0x200.
Definition E_PATCH_MMU_NOT_INIT : Z := 0x400.
Definition E_PATCH_BAD_MMU_PAGE : Z := 0x800.
Definition E_PATCH_CANNOT_MALLOC : Z := 0x1000.
Definition E_PATCH_MALFORMED : Z := 0x2000.
Definition E_PATCH_TOO_SMALL : Z := 0x4000.
Definition E_PATCH_BAD_ADDR : Z := 0x8000.
Definition E_UNPATCH_OK : Z := 0.
Definition E_UNPATCH_NOT_PATCHED : Z := 0x10000.
Definition E_UNPATCH_OVERWRITTEN : Z := 0x20000.
Definition E_UNPATCH_REG_NOT_FOUND : Z := 0x80000.

(** [STR_APPEND] to a [char[size]] buffer: [snprintf] truncates. *)
Definition STR_APPEND (size : nat) (orig s : string) : string :=
  (orig +:+ String.substring 0 (size - 1 - String.length orig) s)%string.

Definition error_names : list (Z * string) :=
  [(E_PATCH_UNKNOWN_ERROR, "UNKNOWN_ERROR,"); (E_PATCH_ALREADY_PATCHED, "ALREADY_PATCHED,");
   (E_PATCH_TOO_MANY_PATCHES, "TOO_MANY_PATCHES,"); (E_PATCH_OLD_VALUE_MISMATCH, "OLD_VAL_MISMATCH,");
   (E_PATCH_CACHE_COLLISION, "CACHE_COLLISION,"); (E_PATCH_CACHE_ERROR, "CACHE_ERROR,");
   (E_PATCH_REG_NOT_FOUND, "REG_NOT_FOUND,"); (E_PATCH_WRONG_CPU, "WRONG_CPU,");
   (E_PATCH_NO_SGI_HANDLER, "NO_SGI_HANDLER,"); (E_PATCH_CPU1_SUSPEND_FAIL, "CPU1_SUSPEND_FAIL,");
   (E_PATCH_MMU_NOT_INIT, "MMU_NOT_INIT,"); (E_PATCH_BAD_MMU_PAGE, "BAD_MMU_PAGE,");
   (E_PATCH_CANNOT_MALLOC, "CANNOT_MALLOC,"); (E_PATCH_MALFORMED, "MALFORMED,");
   (E_PATCH_TOO_SMALL, "TOO_SMALL,"); (E_PATCH_BAD_ADDR, "BAD_ADDR,");
   (E_UNPATCH_NOT_PATCHED, "NOT_PATCHED,"); (E_UNPATCH_OVERWRITTEN, "OVERWRITTEN,");
   (E_UNPATCH_REG_NOT_FOUND, "REG_NOT_FOUND,")]%string.

Definition error_msg (err : Z) : string :=
  let msg := foldl (fun msg '(flag, name) =>
                      if Z.land err flag =? 0 then msg else STR_APPEND 128 msg name)
                   EmptyString error_names in
  String.substring 0 (String.length msg - 1) msg.

Definition MAX_PATCHES : nat := 32.
Definition MAX_FUNCTION_HOOKS : nat := 32.

(** [struct patch]; the unions [old_values]/[old_value] and
    [new_values]/[new_value] are one 32-bit field each. *)
Record patch := mk_patch {
  addr : Z;
  old_value : Z;
  new_value : Z;
  size : Z;
  description : Z;
  is_instruction : bool;
}.

#[export] Instance patch_eq_dec : EqDecision patch.
Proof. solve_decision. Defined.

Definition null_patch : patch := mk_patch 0 0 0 0 0 false.

Definition set_addr (p : patch) (a : Z) : patch :=
  mk_patch a (old_value p) (new_value p) (size p) (description p) (is_instruction p).

(** The globals: the machine, the patch array and its fill level. *)
Record pstate := mk_pstate {
  mach : machine;
  patches_global : list patch;
  num_patches : nat;
}.

Definition with_mach (s : pstate) (mc : machine) : pstate :=
  mk_pstate mc (patches_global s) (num_patches s).
Definition with_patches (s : pstate) (l : list patch) (n : nat) : pstate :=
  mk_pstate (mach s) l n.

Definition IS_ROM_PTR (val : Z) : bool := 0xF0000000 <? val.

(** ** Reading and writing words *)

Definition read_value (mc : machine) (a : Z) (is_instr : bool) : Z :=
  let '(r, cached_value) := cache_is_patchable mc a TYPE_ICACHE in
  if is_instr && IS_ROM_PTR a && negb (cache_locked mc =? 0) && (r =? 2) then cached_value
  else
    let a := if is_instr then UNCACHEABLE a else a in
    if Z.land a 3 =? 0 then ldr 4 mc a
    else if Z.land a 3 =? 2 then ldr 2 mc a
    else ldr 1 mc a.

Definition write_value (mc : machine) (a v : Z) : machine :=
  if Z.land a 3 =? 0 then str 4 mc a v
  else if Z.land a 3 =? 2 then str 2 mc a v
  else str 1 mc a v.

Definition is_patch_still_applied (mc : machine) (p : patch) : bool :=
  let current := read_value mc (addr p) (is_instruction p) in
  let patched := if 4 <? size p then ldr 4 mc (new_value p) else new_value p in
  current =? patched.

Definition set_cache_lock_state (mc : machine) (lock : bool) : machine :=
  if lock then if cache_locked mc =? 0 then cache_lock mc else mc
  else cache_unlock mc.

Definition patch_cache_type (is_instr : bool) : cache_type :=
  if is_instr then TYPE_ICACHE else TYPE_DCACHE.

(** Returns the error, the patch (its address may be replaced by the
    uncacheable alias) and the machine. *)
Definition apply_patch (mc : machine) (p : patch) : Z * patch * machine :=
  if negb (size p =? 4) then (E_PATCH_MALFORMED, p, mc)
  else if IS_ROM_PTR (addr p) then
    let mc := set_cache_lock_state mc true in
    let type := patch_cache_type (is_instruction p) in
    if negb (fst (cache_is_patchable mc (addr p) type) =? 0) then
      let mc := cache_fake mc (addr p) (new_value p) type in
      if negb (read_value mc (addr p) (is_instruction p) =? new_value p)
      then (E_PATCH_CACHE_ERROR, p, mc)
      else (E_PATCH_OK, p, mc)
    else (E_PATCH_CACHE_COLLISION, p, mc)
  else
    let p := if is_instruction p then set_addr p (UNCACHEABLE (addr p)) else p in
    (E_PATCH_OK, p, write_value mc (addr p) (new_value p)).

(** ** Keeping ROM patches alive *)

Definition reapply_cache_patch (mc : machine) (p : patch) : Z * machine :=
  let current := read_value mc (addr p) (is_instruction p) in
  let patched := new_value p in
  if negb (current =? patched) then
    let mc := cache_fake mc (addr p) patched (patch_cache_type (is_instruction p)) in
    if negb (read_value mc (addr p) (is_instruction p) =? patched)
    then (E_PATCH_CACHE_ERROR, mc)
    else (E_PATCH_OK, mc)
  else (E_PATCH_OK, mc).

(** The patches registered so far. *)
Definition active (s : pstate) : list patch := take (num_patches s) (patches_global s).

Definition reapply_if_rom (st : Z * machine) (p : patch) : Z * machine :=
  let '(err, mc) := st in
  if IS_ROM_PTR (addr p) then
    let '(e, mc) := reapply_cache_patch mc p in (Z.lor err e, mc)
  else (err, mc).

Definition _reapply_cache_patches (s : pstate) : Z * machine :=
  foldl reapply_if_rom (0, mach s) (active s).

(** The cache flushes themselves leave the modelled memory view unchanged. *)
Definition _sync_locked_caches (s : pstate) (also_data : bool) : Z * pstate :=
  let locked := negb (cache_locked (mach s) =? 0) in
  let s := if locked then with_mach s (cache_unlock (mach s)) else s in
  if locked then
    let s := with_mach s (cache_lock (mach s)) in
    let '(err, mc) := _reapply_cache_patches s in (err, with_mach s mc)
  else (0, s).

Definition sync_caches (s : pstate) : pstate := snd (_sync_locked_caches s true).

Definition check_cache_lock_still_needed (s : pstate) : pstate :=
  if cache_locked (mach s) =? 0 then s
  else
    let rom_patches := existsb (fun p => IS_ROM_PTR (addr p)) (active s) in
    if rom_patches then s else with_mach s (set_cache_lock_state (mach s) false).

(** ** Function hooks *)

Section Hooks.

(** Link-time address of the [function_hooks] array. *)
Variable function_hooks : Z.

(** Fields of [union function_hook_code], 16 words per hook. *)
Definition hook_at (i : nat) : Z := function_hooks + 64 * Z.of_nat i.
Definition hook_reloc_insn (hook : Z) : Z := hook + 44.
Definition hook_jump_back (hook : Z) : Z := hook + 48.
Definition hook_addr (hook : Z) : Z := hook + 52.
Definition hook_fixup (hook : Z) : Z := hook + 56.

(** Zero the hooks installed at [a]. *)
Definition clear_hooks (mc : machine) (a : Z) : machine :=
  foldl (fun mc i =>
           if ldr 4 mc (hook_addr (hook_at i)) =? a
           then set_mem mc (fill 64 (main_mem mc) (phys (hook_at i)) 0) else mc)
        mc (seq 0 MAX_FUNCTION_HOOKS).

(** ** Removing a patch *)

(** Shift the entries after [i] down by one, up to [n]. *)
Definition shift_patches (l : list patch) (i n : nat) : list patch :=
  foldl (fun l j => <[(j - 1)%nat := nth j l null_patch]> l) l (seq (i + 1) (n - (i + 1))).

Definition find_patch (s : pstate) (a : Z) : option nat :=
  fst <$> list_find (fun p => addr p = a) (active s).

(** The tail of [_unpatch_memory]: unlock and re-apply the remaining ROM
    patches, or flush for a RAM instruction. *)
Definition unpatch_resync (s : pstate) (_addr : Z) (p : patch) : Z * pstate :=
  if IS_ROM_PTR _addr then
    let s := with_mach s (cache_lock (cache_unlock (mach s))) in
    let '(err, mc) := _reapply_cache_patches s in (err, with_mach s mc)
  else if is_instruction p then _sync_locked_caches s false
  else (E_UNPATCH_OK, s).

Definition _unpatch_memory (s : pstate) (_addr : Z) : Z * pstate :=
  match find_patch s _addr with
  | None => (E_UNPATCH_OK, s)
  | Some i =>
    let p := nth i (patches_global s) null_patch in
    if negb (size p =? 4) then (E_PATCH_MALFORMED, s)
    else if negb (is_patch_still_applied (mach s) p) then (E_UNPATCH_OVERWRITTEN, s)
    else
      let '(err, mc) :=
        if negb (IS_ROM_PTR _addr) then
          let patch := mk_patch (addr p) (new_value p) (old_value p) (size p)
                                (description p) (is_instruction p) in
          let '(err, _, mc) := apply_patch (mach s) patch in (err, mc)
        else (E_UNPATCH_OK, mach s) in
      let s := with_mach s mc in
      if negb (err =? 0) then (err, s)
      else
        let s := with_patches s (shift_patches (patches_global s) i (num_patches s))
                              (num_patches s - 1) in
        let s := with_mach s (clear_hooks (mach s) _addr) in
        (* [p] still points to slot [i], which now holds the next patch *)
        let p := nth i (patches_global s) null_patch in
        let '(err, s) := unpatch_resync s _addr p in
        (err, check_cache_lock_still_needed s)
  end.

Definition unpatch_memory (s : pstate) (_addr : Z) : Z * pstate := _unpatch_memory s _addr.

(** ** Applying patches *)

(** One iteration of the loop of [apply_patches]: whether it jumps to [end],
    the error, the caller's patch after the call and the new state. *)
Definition apply_one (s : pstate) (p : patch) : bool * Z * patch * pstate :=
  if negb (size p =? 4) then (true, E_PATCH_UNKNOWN_ERROR, p, s)
  else if existsb (fun q => addr q =? addr p) (active s)
  then (true, E_PATCH_ALREADY_PATCHED, p, s)
  else if (MAX_PATCHES <=? num_patches s)%nat then (true, E_PATCH_TOO_MANY_PATCHES, p, s)
  else
    (* fill metadata *)
    let stale := nth (num_patches s) (patches_global s) null_patch in
    let new_patch := mk_patch (addr p) (old_value stale) (new_value p) (size p)
                              (description p) (is_instruction p) in
    let s := with_patches s (<[num_patches s := new_patch]> (patches_global s)) (num_patches s) in
    (* are we patching the right thing? *)
    let old := read_value (mach s) (addr new_patch) (is_instruction new_patch) in
    if negb (old =? old_value p) then (true, E_PATCH_OLD_VALUE_MISMATCH, p, s)
    else
      let new_patch := mk_patch (addr p) old (new_value p) (size p) (description p) (is_instruction p) in
      let s := with_patches s (<[num_patches s := new_patch]> (patches_global s)) (num_patches s) in
      let '(err, p, mc) := apply_patch (mach s) p in
      let s := with_mach s mc in
      if negb (err =? 0) then (true, err, p, s)
      else
        let '(err, s) :=
          if is_instruction p && negb (IS_ROM_PTR (addr p))
          then _sync_locked_caches s false else (err, s) in
        (false, err, p, with_patches s (patches_global s) (num_patches s + 1)).

Fixpoint apply_loop (s : pstate) (err : Z) (patches : list patch) : Z * list patch * pstate :=
  match patches with
  | [] => (err, [], s)
  | p :: rest =>
    let '(stop, err, p, s) := apply_one s p in
    if stop then (err, p :: rest, s)
    else let '(err, rest, s) := apply_loop s err rest in (err, p :: rest, s)
  end.

(** Returns the error and the state, and the caller's array as it is left. *)
Definition apply_patches (s : pstate) (patches : list patch) : Z * list patch * pstate :=
  let '(err, patches, s) := apply_loop s E_PATCH_OK patches in
  let s := if negb (err =? 0)
           then foldl (fun s p => snd (unpatch_memory s (addr p))) s patches else s in
  (err, patches, s).

(** ** Hooks of the MMU cameras *)

(** [struct function_hook_patch]; [orig_content] is the address of the array. *)
Record function_hook_patch := mk_function_hook_patch {
  patch_addr : Z;
  orig_content : Z;
  target_function_addr : Z;
  f_description : Z;
}.

(** The eight bytes of the hook: [ldr.w pc, [pc, #0 or #2]] and the target. *)
Definition hook_bytes (f : function_hook_patch) : list Z :=
  [0xdf; 0xf8; if Z.land (patch_addr f) 2 =? 0 then 0 else 2; 0xf0;
   u8 (Z.land (target_function_addr f) 0xff);
   u8 (Z.land (Z.shiftr (target_function_addr f) 8) 0xff);
   u8 (Z.land (Z.shiftr (target_function_addr f) 16) 0xff);
   u8 (Z.land (Z.shiftr (target_function_addr f) 24) 0xff)].

(** [None] stands for a NULL argument; a NULL [hook_mem_out] is 0. *)
Definition convert_f_patch_to_patch (m : memory) (f_patch_in : option function_hook_patch)
    (patch_out : bool) (hook_mem_out : Z) : Z * option patch * memory :=
  match f_patch_in with
  | Some f =>
    if negb patch_out || (hook_mem_out =? 0) then (-1, None, m)
    else
      let m := foldl (fun m '(i, b) => wr8 m (hook_mem_out + Z.of_nat i) b) m (imap pair (hook_bytes f)) in
      (0, Some (mk_patch (patch_addr f) (orig_content f) hook_mem_out 8 (f_description f) true), m)
  | None => (-1, None, m)
  end.

(** ** Installing a function hook *)

Definition REG_PC : Z := 15.
Definition LOAD_MASK : Z := 0x0C000000.
Definition LOAD_INSTR : Z := 0x04000000.

Definition B_INSTR (pc dest : Z) : Z :=
  Z.lor 0xEA000000 (Z.land (Z.shiftr (u32 (dest - pc - 8)) 2) 0x00FFFFFF).

Definition reloc_instr (mc : machine) (pc new_pc fixup : Z) : Z * machine :=
  let instr := ldr 4 mc pc in
  let load := Z.land instr LOAD_MASK in
  if load =? LOAD_INSTR then
    let reg_base := Z.land (Z.shiftr instr 16) 0xF in
    let offset := Z.land instr 0xFFF in
    if negb (reg_base =? REG_PC) then (instr, mc)
    else
      let offset := if Z.land instr (Z.shiftl 1 23) =? 0 then - offset else offset in
      let dest := u32 (pc + offset + 8) in
      let data := ldr 4 mc dest in
      let new_offset := s32 (fixup - new_pc - 8) in
      let new_instr := Z.lor (Z.lor (Z.shiftl 1 23) (Z.land instr (Z.lxor 0xFFFFFFFF 0xFFF)))
                             (Z.land new_offset 0xFFF) in
      (new_instr, str 4 mc fixup data)
  else (instr, mc).

Definition check_jump_range (pc dest : Z) : bool :=
  let offset := s32 (Z.shiftl (Z.land (B_INSTR pc dest) 0x00FFFFFF) 8) in
  let new_dest := u32 (Z.shiftr ((Z.shiftl (pc + 8) 6 + offset) mod 2 ^ 64) 6) in
  dest =? new_dest.

(** Store consecutive words. *)
Definition str_words (mc : machine) (a : Z) (ws : list Z) : machine :=
  foldl (fun mc '(i, w) => str 4 mc (a + 4 * Z.of_nat i) w) mc (imap pair ws).

Definition find_slot (mc : machine) : option nat :=
  fst <$> list_find (fun i => ldr 4 mc (hook_addr (hook_at i)) = 0) (seq 0 MAX_FUNCTION_HOOKS).

Definition patch_hook_function (s : pstate) (a orig_instr hook_function descr : Z) : Z * pstate :=
  match find_slot (mach s) with
  | None => (E_PATCH_TOO_MANY_PATCHES, s)
  | Some slot =>
    let hook := hook_at slot in
    if negb (check_jump_range (hook_reloc_insn hook) (u32 (a + 4))) ||
       negb (check_jump_range a hook)
    then (E_PATCH_UNKNOWN_ERROR, s)
    else
      let '(reloc, mc) := reloc_instr (mach s) a (hook_reloc_insn hook) (hook_fixup hook) in
      let code := [0xe92d5fff; 0xe10f0000; 0xe92d0001; 0xe28d0004; 0xe28d103c; 0xe59f2018;
                   0xe1a0e00f; 0xe59ff018; 0xe8bd0001; 0xe128f000; 0xe8bd5fff;
                   reloc; B_INSTR (hook_jump_back hook) (u32 (a + 4)); a;
                   ldr 4 mc (hook_fixup hook); hook_function] in
      let s := with_mach s (str_words mc hook code) in
      let s := sync_caches s in
      let patch := mk_patch a orig_instr (B_INSTR a hook) 4 descr true in
      let '(err, _, s) := apply_patches s [patch] in
      if negb (err =? 0)
      then (err, with_mach s (set_mem (mach s) (fill 64 (main_mem (mach s)) (phys hook) 0)))
      else (err, s)
  end.

End Hooks.

(** ** The registry invariant *)

(** The array keeps its 32 slots, the active patches have distinct addresses
    and are one word long. *)
Record registry_ok (s : pstate) : Prop := {
  reg_len : length (patches_global s) = MAX_PATCHES;
  reg_num : (num_patches s <= MAX_PATCHES)%nat;
  reg_nodup : NoDup (addr <$> active s);
  reg_size : Forall (fun p => size p = 4) (active s);
}.

Lemma shift_patches_lookup l i cnt k : (i + cnt < length l)%nat ->
  foldl (fun l j => <[(j - 1)%nat := nth j l null_patch]> l) l (seq (i + 1) cnt) !! k =
  if decide (i <= k < i + cnt)%nat then l !! S k else l !! k.
Proof.
  revert k. induction cnt as [|cnt IH]; intros k Hlen.
  { rewrite decide_False by lia. done. }
  rewrite seq_S, foldl_app. cbn [foldl].
  set (l' := foldl _ l _) in *.
  assert (Hl' : length l' = length l).
  { unfold l'. generalize (seq (i + 1) cnt). clear. intros js. revert l.
    induction js as [|j js IH]; intros l; [done|]. simpl. rewrite IH. apply length_insert. }
  rewrite list_lookup_insert.
  replace (i + 1 + cnt - 1)%nat with (i + cnt)%nat by lia.
  destruct (decide (i + cnt = k)%nat) as [<-|Hne].
  - rewrite !decide_True by lia. replace (i + 1 + cnt)%nat with (S (i + cnt)) by lia.
    rewrite nth_lookup, IH, decide_False by lia.
    destruct (lookup_lt_is_Some_2 l (S (i + cnt))) as [x Hx]; [lia|]. by rewrite Hx.
  - rewrite decide_False, IH by lia. destruct (decide (i <= k < i + cnt)%nat).
    + rewrite decide_True by lia. done.
    + rewrite decide_False by lia. done.
Qed.

Lemma length_shift_patches l i n : length (shift_patches l i n) = length l.
Proof.
  unfold shift_patches. generalize (seq (i + 1) (n - (i + 1))). intros js. revert l.
  induction js as [|j js IH]; intros l; [done|]. simpl. rewrite IH. apply length_insert.
Qed.

Lemma shift_patches_active l i n : (i < n <= length l)%nat ->
  take (n - 1) (shift_patches l i n) = delete i (take n l).
Proof.
  intros H. apply list_eq. intros k. unfold shift_patches.
  rewrite list_lookup_delete. destruct (decide (k < n - 1)%nat) as [Hk|Hk].
  - rewrite lookup_take_lt, shift_patches_lookup by lia.
    destruct (decide (k < i)%nat).
    + rewrite decide_False, lookup_take_lt by lia. done.
    + rewrite decide_True, lookup_take_lt by lia. done.
  - rewrite lookup_take_ge by lia. symmetry.
    case_decide; rewrite lookup_take_ge by lia; done.
Qed.

Lemma find_patch_Some s a i : find_patch s a = Some i ->
  exists p, active s !! i = Some p /\ addr p = a /\
            nth i (patches_global s) null_patch = p /\ (i < num_patches s)%nat.
Proof.
  unfold find_patch. intros H. apply fmap_Some in H as ([j p] & Hf & ->).
  apply list_find_Some in Hf as (Hl & Hp & _). exists p. simpl.
  assert (j < num_patches s)%nat.
  { apply lookup_lt_Some in Hl. unfold active in Hl. rewrite length_take in Hl. lia. }
  repeat split; try done. unfold active in Hl. rewrite lookup_take_lt in Hl by lia.
  by rewrite nth_lookup, Hl.
Qed.

(** Machine updates keep the registry. *)
Lemma registry_with_mach s mc : registry_ok s -> registry_ok (with_mach s mc).
Proof. by intros []. Qed.

Lemma sync_locked_registry s b : exists mc, snd (_sync_locked_caches s b) = with_mach s mc.
Proof.
  unfold _sync_locked_caches. destruct (negb _); [|by exists (mach s); destruct s].
  destruct (_reapply_cache_patches _) as [e mc]. by exists mc.
Qed.

Lemma check_lock_registry s : exists mc, check_cache_lock_still_needed s = with_mach s mc.
Proof.
  unfold check_cache_lock_still_needed.
  repeat case_match; first [by exists (mach s); destruct s | by eexists].
Qed.

Lemma unpatch_resync_registry s a p : exists mc, snd (unpatch_resync s a p) = with_mach s mc.
Proof.
  unfold unpatch_resync. destruct (IS_ROM_PTR a).
  - destruct (_reapply_cache_patches _) as [e mc]. by exists mc.
  - destruct (is_instruction p); [apply sync_locked_registry|by exists (mach s); destruct s].
Qed.

Create HintDb patch.
#[export] Hint Resolve registry_with_mach : patch.

(** Removing a patch either leaves the registry alone or deletes one entry. *)
Lemma unpatch_registry fh s a :
  (exists mc, snd (_unpatch_memory fh s a) = with_mach s mc) \/
  (exists i mc, find_patch s a = Some i /\
     snd (_unpatch_memory fh s a) =
       mk_pstate mc (shift_patches (patches_global s) i (num_patches s)) (num_patches s - 1)).
Proof.
  unfold _unpatch_memory. destruct (find_patch s a) as [i|]; [|left; by exists (mach s); destruct s].
  destruct (negb (size _ =? 4)); [left; by exists (mach s); destruct s|].
  destruct (negb (is_patch_still_applied _ _)); [left; by exists (mach s); destruct s|].
  destruct (if negb (IS_ROM_PTR a) then _ else _) as [err mc].
  destruct (negb (err =? 0)); [left; by exists mc|]. right.
  destruct (unpatch_resync _ _ _) as [err' s2] eqn:Er.
  apply (f_equal snd) in Er. simpl in Er. subst s2.
  destruct (unpatch_resync_registry (with_mach (with_patches (with_mach s mc)
    (shift_patches (patches_global s) i (num_patches s)) (num_patches s - 1))
    (clear_hooks fh mc a)) a
    (nth i (shift_patches (patches_global s) i (num_patches s)) null_patch)) as [mc' Hr].
  destruct (check_lock_registry (with_mach (with_mach (with_patches (with_mach s mc)
    (shift_patches (patches_global s) i (num_patches s)) (num_patches s - 1))
    (clear_hooks fh mc a)) mc')) as [mc'' Hc].
  exists i, mc''. split; [done|]. simpl in *. by rewrite Hr, Hc.
Qed.

Lemma registry_delete s i mc : registry_ok s -> (i < num_patches s)%nat ->
  registry_ok (mk_pstate mc (shift_patches (patches_global s) i (num_patches s)) (num_patches s - 1)).
Proof.
  intros [Hl Hn Hd Hs] Hi.
  assert (Ha : active (mk_pstate mc (shift_patches (patches_global s) i (num_patches s))
                         (num_patches s - 1)) = delete i (active s)).
  { unfold active; simpl. apply shift_patches_active. lia. }
  split; simpl.
  - by rewrite length_shift_patches.
  - lia.
  - rewrite Ha. eapply sublist_NoDup; [done|]. apply fmap_sublist, sublist_delete.
  - rewrite Ha. by apply Forall_delete.
Qed.

Lemma unpatch_registry_ok fh s a : registry_ok s -> registry_ok (snd (_unpatch_memory fh s a)).
Proof.
  intros H. destruct (unpatch_registry fh s a) as [[mc ->]|(i & mc & Hf & ->)]; [auto with patch|].
  destruct (find_patch_Some s a i Hf) as (p & _ & _ & _ & Hi). by apply registry_delete.
Qed.

Lemma active_insert_ge s l n p : n = num_patches s -> l = patches_global s ->
  active (with_patches s (<[n := p]> l) n) = active s.
Proof. intros -> ->. unfold active; simpl. apply take_insert_ge. lia. Qed.

(** Writing the slot after the active ones is invisible. *)
Lemma registry_insert s p : registry_ok s ->
  registry_ok (with_patches s (<[num_patches s := p]> (patches_global s)) (num_patches s)).
Proof.
  intros [Hl Hn Hd Hs]. split.
  - simpl. by rewrite length_insert.
  - done.
  - by rewrite active_insert_ge.
  - by rewrite active_insert_ge.
Qed.

Lemma apply_one_registry s p stop err p' s' :
  apply_one s p = (stop, err, p', s') -> registry_ok s ->
  registry_ok s' /\
  if stop then active s' = active s else active s' = active s ++ [p] /\ size p = 4.
Proof.
  intros H Hok. pose proof Hok as [Hl Hn Hd Hs]. unfold apply_one in H.
  destruct (negb (size p =? 4)) eqn:E1; [by simplify_eq|].
  destruct (existsb _ _) eqn:E2; [by simplify_eq|].
  destruct (MAX_PATCHES <=? num_patches s)%nat eqn:E3; [by simplify_eq|].
  apply Nat.leb_gt in E3. cbv zeta in H. simpl in H.
  set (old := read_value _ _ _) in H.
  set (np1 := mk_patch _ (old_value _) _ _ _ _) in H.
  destruct (negb (old =? old_value p)) eqn:E4.
  { simplify_eq. split; [by apply registry_insert|by apply active_insert_ge]. }
  to_prop. set (np := mk_patch _ old _ _ _ _) in H.
  assert (np = p) as Enp by (unfold np; rewrite E4; by destruct p).
  rewrite Enp in H. clearbody np old. subst np.
  assert (Hins : <[num_patches s := p]> (<[num_patches s := np1]> (patches_global s)) =
                 <[num_patches s := p]> (patches_global s)) by apply list_insert_insert_eq.
  rewrite Hins in H.
  set (s1 := with_patches s (<[num_patches s := p]> (patches_global s)) (num_patches s)) in H.
  assert (Hok1 : registry_ok s1) by (by apply registry_insert).
  assert (Ha1 : active s1 = active s) by (by apply active_insert_ge).
  destruct (apply_patch (mach s) p) as [[err1 p1] mc1].
  destruct (negb (err1 =? 0)).
  { simplify_eq. split; [by apply (registry_with_mach s1)|exact Ha1]. }
  match type of H with context [if ?b then _sync_locked_caches ?x ?y else ?z] =>
    assert (exists mc2, snd (if b then _sync_locked_caches x y else z) = with_mach s1 mc2) as [mc2 Hm2];
    [destruct b; [destruct (sync_locked_registry x y) as [m Hm]; exists m; exact Hm|by exists mc1]|
     destruct (if b then _sync_locked_caches x y else z) as [err2 s2]] end.
  simpl in Hm2. subst s2. simplify_eq.
  assert (Ha : active (with_patches (with_mach s1 mc2) (patches_global (with_mach s1 mc2))
                 (num_patches (with_mach s1 mc2) + 1)) = active s ++ [p]).
  { unfold active; simpl. rewrite Nat.add_1_r.
    rewrite (take_S_r _ _ p) by (apply list_lookup_insert_eq; lia).
    f_equal. apply take_insert_ge. lia. }
  split; [|by split]. split.
  - simpl. by rewrite length_insert.
  - simpl. lia.
  - rewrite Ha, fmap_app. apply NoDup_app. split_and!; [done| |apply NoDup_singleton].
    intros x Hx Hx2. simpl in Hx2. apply list_elem_of_singleton in Hx2. subst x.
    apply list_elem_of_fmap in Hx as (q & Hq & Hin).
    enough (existsb (fun q => addr q =? addr p) (active s) = true) by congruence.
    apply existsb_exists. exists q. split; [by apply list_elem_of_In|]. by apply Z.eqb_eq.
  - rewrite Ha. apply Forall_app. split; [done|]. by apply Forall_singleton.
Qed.

Lemma apply_loop_registry ps : forall s err err' ps' s',
  apply_loop s err ps = (err', ps', s') -> registry_ok s -> registry_ok s'.
Proof.
  induction ps as [|p ps IH]; intros s err err' ps' s' H Hok; simpl in H; [by simplify_eq|].
  destruct (apply_one s p) as [[[stop e] p1] s1] eqn:E.
  destruct (apply_one_registry _ _ _ _ _ _ E Hok) as [Hok1 _].
  destruct stop; [by simplify_eq|].
  destruct (apply_loop s1 e ps) as [[e2 r2] s2] eqn:E2. simplify_eq. by eapply IH.
Qed.

Lemma rollback_registry fh ps s : registry_ok s ->
  registry_ok (foldl (fun s p => snd (unpatch_memory fh s (addr p))) s ps).
Proof.
  revert s. induction ps as [|p ps IH]; intros s H; simpl; [done|].
  apply IH. by apply unpatch_registry_ok.
Qed.

Lemma apply_patches_registry fh s ps : registry_ok s -> registry_ok (snd (apply_patches fh s ps)).
Proof.
  intros H. unfold apply_patches.
  destruct (apply_loop s E_PATCH_OK ps) as [[e r] s1] eqn:E.
  pose proof (apply_loop_registry _ _ _ _ _ _ E H). simpl.
  case_match; [by apply rollback_registry|done].
Qed.

Lemma hook_registry fh s a o h d : registry_ok s ->
  registry_ok (snd (patch_hook_function fh s a o h d)).
Proof.
  intros H. unfold patch_hook_function. destruct (find_slot fh (mach s)) as [slot|]; [|done].
  destruct (_ || _); [done|]. destruct (reloc_instr _ _ _ _) as [r mc]. cbv zeta.
  match goal with |- context [sync_caches ?x] =>
    destruct (sync_locked_registry x true) as [mc' Hs]; unfold sync_caches; rewrite Hs end.
  match goal with |- context [apply_patches fh ?x ?y] =>
    pose proof (apply_patches_registry fh x y) as Ha; destruct (apply_patches fh x y) as [[e r'] s'] end.
  cbn [snd] in Ha. specialize (Ha (registry_with_mach _ _ (registry_with_mach _ _ H))).
  destruct (negb (e =? 0)); cbn [snd]; [apply registry_with_mach|]; exact Ha.
Qed.

(** The public operations, in any order. *)
Inductive patch_step (fh : Z) : pstate -> pstate -> Prop :=
  | step_apply s ps : patch_step fh s (snd (apply_patches fh s ps))
  | step_unpatch s a : patch_step fh s (snd (unpatch_memory fh s a))
  | step_hook s a o h d : patch_step fh s (snd (patch_hook_function fh s a o h d)).

Definition patch_init (mc : machine) : pstate :=
  mk_pstate mc (replicate MAX_PATCHES null_patch) 0.

(** C37: after any sequence of [apply_patches], [unpatch_memory] and
    [patch_hook_function] calls from the initial state, the registry holds at
    most 32 patches in its 32 slots, no address twice, each one word long. *)
Theorem patch_reachable_registry fh mc s :
  rtc (patch_step fh) (patch_init mc) s -> registry_ok s.
Proof.
  assert (registry_ok (patch_init mc)) as Hi.
  { split; simpl; [done|lia|apply NoDup_nil_2|by constructor]. }
  intros H. revert Hi. induction H as [|x y z Hstep _ IH]; [done|].
  intros Hx. apply IH. destruct Hstep; [by apply apply_patches_registry|by apply unpatch_registry_ok|
                             by apply hook_registry].
Qed.

Lemma patch_reachable_registry_witness :
  let mc := mk_machine ∅ (mk_cache ∅ ∅) (mk_cache ∅ ∅) 0 0 in
  registry_ok (snd (apply_patches 0x80000 (patch_init mc) [mk_patch 0x1000 0 7 4 0 false])).
Proof. eapply patch_reachable_registry. apply rtc_once. apply step_apply. Defined.
