(* ===== verification/PatchRam.v ===== *)
(** * RAM patches: all or none

    Properties of [apply_patches] and [unpatch_memory] on patches of RAM data
    words, and the two ways in which a failed call does not restore the state
    it started from. *)
From S2P Require Import Prelude CacheHacks Patch.

(** A one-word patch of an aligned RAM data word. *)
Record ram_data (p : patch) : Prop := {
  rd_data : is_instruction p = false;
  rd_size : size p = 4;
  rd_ram : 0 <= addr p < 0x40000000;
  rd_aligned : addr p mod 4 = 0;
  rd_new : 0 <= new_value p < 2 ^ 32;
}.

(** The locked data cache only holds ROM lines. *)
Definition rom_lines (mc : machine) : Prop :=
  forall a, hit (dcache mc) a = true -> 0xF0000000 <= a.

(** ** Sequences of word stores *)

Definition stores (A : list patch) (m : memory) : memory :=
  foldr (fun q m => st32 m (addr q) (new_value q)) m A.

Definition word_aligned (A : list patch) : Prop := Forall (fun q => addr q mod 4 = 0) A.

Lemma aligned_disjoint a b : a mod 4 = 0 -> b mod 4 = 0 -> a <> b -> a + 4 <= b \/ b + 4 <= a.
Proof. intros. Z.div_mod_to_equations. lia. Qed.

Lemma stores_ld_other A m a : word_aligned A -> a mod 4 = 0 -> a ∉ addr <$> A ->
  ld32 (stores A m) a = ld32 m a.
Proof.
  intros HA Ha. induction HA as [|q A Hq HA IH]; [done|]. rewrite fmap_cons, not_elem_of_cons.
  intros [Hne Hin]. cbn [stores foldr]. fold (stores A m).
  rewrite ld_st_out; [by apply IH|]. apply aligned_disjoint; done.
Qed.

Lemma stores_ld_new A m q : word_aligned A -> NoDup (addr <$> A) -> q ∈ A ->
  ld32 (stores A m) (addr q) = u32 (new_value q).
Proof.
  intros HA Hnd. induction HA as [|r A Hr HA IH]; [by intros ?%elem_of_nil|].
  rewrite fmap_cons in Hnd. apply NoDup_cons in Hnd as [Hnin Hnd].
  intros [->|Hin]%elem_of_cons; cbn [stores foldr]; fold (stores A m).
  - apply ld32_st32_same.
  - rewrite ld_st_out; [by apply IH|].
    apply aligned_disjoint; [by eapply Forall_forall in HA|done|].
    intros E. apply Hnin. rewrite <- E. by apply list_elem_of_fmap_2.
Qed.

Lemma stores_rd8_out A m b :
  (forall q, q ∈ A -> b < addr q \/ addr q + 4 <= b) -> rd8 (stores A m) b = rd8 m b.
Proof.
  induction A as [|q A IH]; intros H; [done|]. cbn [stores foldr]. fold (stores A m).
  rewrite rd8_st_out by (apply (H q); left). apply IH. intros r Hr. apply (H r). by right.
Qed.

#[export] Instance stores_proper A : Proper (mem_eq ==> mem_eq) (stores A).
Proof.
  intros m1 m2 H. induction A as [|q A IH]; [done|]. cbn [stores foldr].
  fold (stores A m1) (stores A m2). by rewrite IH.
Qed.

Lemma st_st_comm m a v b w : a + 4 <= b \/ b + 4 <= a ->
  mem_eq (st32 (st32 m a v) b w) (st32 (st32 m b w) a v).
Proof. intros H c. rewrite !rd8_st. repeat case_decide; (done || lia). Qed.

Lemma stores_snoc A p m : word_aligned A -> addr p mod 4 = 0 -> addr p ∉ addr <$> A ->
  mem_eq (st32 (stores A m) (addr p) (new_value p)) (stores (A ++ [p]) m).
Proof.
  intros HA Hp. induction HA as [|q A Hq HA IH]; [done|].
  rewrite fmap_cons, not_elem_of_cons. intros [Hne Hin].
  cbn [app stores foldr]. fold (stores A m) (stores (A ++ [p]) m).
  rewrite st_st_comm by (apply aligned_disjoint; done). by rewrite IH.
Qed.

(** ** Single operations on RAM data *)

Lemma ram_not_rom a : a < 0x40000000 -> IS_ROM_PTR a = false.
Proof. intros. unfold IS_ROM_PTR. apply Z.ltb_ge. lia. Qed.

Lemma ram_phys a : a < 0x40000000 -> phys a = a.
Proof. intros. unfold phys, is_uncached. by rewrite (proj2 (Z.leb_gt _ _)) by lia. Qed.

Lemma ram_ldr mc a : rom_lines mc -> a < 0x40000000 -> ldr 4 mc a = ld32 (main_mem mc) a.
Proof.
  intros H Ha. rewrite ldr_miss; [by rewrite ram_phys|].
  destruct (hit (dcache mc) a) eqn:E; [|done]. apply H in E. lia.
Qed.

Lemma ram_read mc p : rom_lines mc -> ram_data p ->
  read_value mc (addr p) (is_instruction p) = ld32 (main_mem mc) (addr p).
Proof.
  intros H [-> _ Hr Ha _]. unfold read_value.
  destruct (cache_is_patchable _ _ _). cbn [andb]. rewrite land3, Ha. cbv zeta iota.
  change (0 =? 0) with true. cbv iota. apply ram_ldr; [done|lia].
Qed.

Lemma ram_apply mc p : ram_data p ->
  apply_patch mc p = (E_PATCH_OK, p, set_mem mc (st32 (main_mem mc) (addr p) (new_value p))).
Proof.
  intros [Hi Hs Hr Ha _]. unfold apply_patch. rewrite Hs, ram_not_rom, Hi by lia. simpl.
  unfold write_value, str. rewrite land3, Ha, ram_phys by lia. done.
Qed.

Lemma clear_hooks_none fh mc a :
  (forall i, (i < MAX_FUNCTION_HOOKS)%nat -> ldr 4 mc (hook_addr (hook_at fh i)) <> a) ->
  clear_hooks fh mc a = mc.
Proof.
  intros H. unfold clear_hooks.
  assert (Hs : forall js, (forall i, i ∈ js -> (i < MAX_FUNCTION_HOOKS)%nat) ->
    foldl (fun mc i => if ldr 4 mc (hook_addr (hook_at fh i)) =? a
      then set_mem mc (fill 64 (main_mem mc) (phys (hook_at fh i)) 0) else mc) mc js = mc).
  { induction js as [|j js IH]; intros Hj; [done|]. cbn [foldl].
    rewrite (proj2 (Z.eqb_neq _ _)) by (apply H, Hj; left). apply IH. intros i Hi. apply Hj. by right. }
  apply Hs. intros i Hi. apply elem_of_seq in Hi. lia.
Qed.

(** ** The invariant of the loop and of the rollback *)

(** What the caller of [apply_patches] guarantees. *)
Record ram_ready (fh : Z) (s : pstate) (ps : list patch) : Prop := {
  rr_reg : registry_ok s;
  rr_data : Forall ram_data ps;
  rr_fresh : forall p, p ∈ ps -> addr p ∉ addr <$> active s;
  rr_lines : rom_lines (mach s);
  rr_hooks : 0 <= fh /\ fh + 64 * 32 <= 0x40000000;
  rr_hook_free : forall p i, p ∈ ps -> (i < MAX_FUNCTION_HOOKS)%nat ->
    ldr 4 (mach s) (hook_addr (hook_at fh i)) <> addr p;
  rr_hook_disj : forall p i, p ∈ ps -> (i < MAX_FUNCTION_HOOKS)%nat ->
    addr p + 4 <= hook_addr (hook_at fh i) \/ hook_addr (hook_at fh i) + 4 <= addr p;
}.

(** State [s] is [s0] with exactly the patches [A] applied on top. *)
Record applied (s0 s : pstate) (A : list patch) : Prop := {
  ap_reg : registry_ok s;
  ap_active : active s = active s0 ++ A;
  ap_lines : rom_lines (mach s);
  ap_mem : mem_eq (main_mem (mach s)) (stores A (main_mem (mach s0)));
  ap_old : forall q, q ∈ A -> old_value q = ld32 (main_mem (mach s0)) (addr q);
}.

Lemma stores_ld_out A m a : (forall q, q ∈ A -> addr q + 4 <= a \/ a + 4 <= addr q) ->
  ld32 (stores A m) a = ld32 m a.
Proof.
  induction A as [|q A IH]; intros H; [done|]. cbn [stores foldr]. fold (stores A m).
  rewrite ld_st_out by (destruct (H q); [left|lia|lia]). apply IH. intros r Hr. apply H. by right.
Qed.

Lemma applied_fresh s0 s A p : registry_ok s -> active s = active s0 ++ p :: A ->
  addr p ∉ addr <$> A /\ NoDup (addr <$> A).
Proof.
  intros [_ _ Hn _] Ha. rewrite Ha, fmap_app, fmap_cons in Hn.
  apply NoDup_app in Hn as (_ & _ & [? ?]%NoDup_cons). done.
Qed.

Lemma ram_word_aligned A : Forall ram_data A -> word_aligned A.
Proof. intros H. eapply Forall_impl; [exact H|]. by intros q []. Qed.

(** What one iteration does to the machine. *)
Lemma apply_one_mach s p stop e p' s' : ram_data p -> rom_lines (mach s) ->
  apply_one s p = (stop, e, p', s') ->
  p' = p /\
  if stop then e <> 0 /\ mach s' = mach s
  else e = 0 /\ old_value p = ld32 (main_mem (mach s)) (addr p) /\
       mach s' = set_mem (mach s) (st32 (main_mem (mach s)) (addr p) (new_value p)).
Proof.
  intros Hp Hl H. unfold apply_one in H.
  destruct (negb (size p =? 4)); [by simplify_eq|].
  destruct (existsb _ _); [by simplify_eq|].
  destruct (_ <=? _)%nat; [by simplify_eq|].
  cbv zeta in H. cbn [mach with_patches addr is_instruction] in H.
  rewrite ram_read in H by done.
  destruct (negb _) eqn:E; [by simplify_eq|]. to_prop.
  rewrite ram_apply in H by done. simpl in H. rewrite (rd_data p Hp) in H. simpl in H.
  by simplify_eq.
Qed.

Lemma rom_lines_set_mem mc m : rom_lines mc -> rom_lines (set_mem mc m).
Proof. done. Qed.

Lemma apply_one_ram s0 s A p stop e p' s' :
  applied s0 s A -> Forall ram_data A -> ram_data p ->
  apply_one s p = (stop, e, p', s') ->
  p' = p /\ if stop then e <> 0 /\ applied s0 s' A else e = 0 /\ applied s0 s' (A ++ [p]).
Proof.
  intros [Hr Ha Hl Hm Ho] HA Hp H.
  destruct (apply_one_mach _ _ _ _ _ _ Hp Hl H) as [-> Hmc].
  destruct (apply_one_registry _ _ _ _ _ _ H Hr) as [Hr' Ha'].
  split; [done|]. destruct stop.
  - destruct Hmc as [He Hmc]. split; [done|]. split; rewrite ?Hmc; congruence || done.
  - destruct Hmc as (-> & Hold & Hmc), Ha' as [Ha' _]. split; [done|].
    assert (Hfr : addr p ∉ addr <$> A).
    { destruct Hr' as [_ _ Hn _]. rewrite Ha', Ha, !fmap_app in Hn.
      apply NoDup_app in Hn as (_ & Hd & _). intros Hin.
      apply (Hd (addr p)); [|by left]. rewrite elem_of_app. by right. }
    assert (Hw : word_aligned A) by (by apply ram_word_aligned).
    destruct Hp as [_ _ _ Hal _].
    split; [done| |by rewrite Hmc| |].
    + by rewrite Ha', Ha, (assoc_L (++)).
    + rewrite Hmc. cbn [main_mem set_mem]. rewrite Hm. by apply stores_snoc.
    + intros q [Hq| ->%list_elem_of_singleton]%elem_of_app; [by apply Ho|].
      rewrite Hold, Hm. by apply stores_ld_other.
Qed.

Lemma apply_loop_ram s0 ps : forall s A e e' ps' s',
  applied s0 s A -> Forall ram_data A -> Forall ram_data ps ->
  apply_loop s e ps = (e', ps', s') ->
  ps' = ps /\ exists B, B `prefix_of` ps /\ applied s0 s' (A ++ B) /\ (e' = 0 -> B = ps).
Proof.
  induction ps as [|p ps IH]; intros s A e e' ps' s' Hs HA Hps H.
  { simpl in H. simplify_eq. split; [done|]. exists []. by rewrite app_nil_r. }
  apply Forall_cons in Hps as [Hp Hps]. simpl in H.
  destruct (apply_one s p) as [[[stop e1] p1] s1] eqn:E1.
  destruct (apply_one_ram _ _ _ _ _ _ _ _ Hs HA Hp E1) as [-> H1]. destruct stop.
  - destruct H1 as [He Hs1]. simplify_eq. split; [done|]. exists [].
    rewrite app_nil_r. split_and!; [apply prefix_nil|done|done].
  - destruct H1 as [-> Hs1]. destruct (apply_loop s1 0 ps) as [[e2 r2] s2] eqn:E2. simplify_eq.
    destruct (IH _ _ _ _ _ _ Hs1 (Forall_app_2 _ _ _ HA (Forall_cons_2 _ _ _ Hp (Forall_nil_2 _))) Hps E2)
      as (-> & B & HB & Hs2 & Hok).
    split; [done|]. exists (p :: B). rewrite <- (assoc_L (++)) in Hs2.
    split_and!; [by apply prefix_cons|done|by intros ->%Hok].
Qed.

(** ** Removing one applied patch *)

Lemma find_patch_active s i p : registry_ok s -> active s !! i = Some p ->
  find_patch s (addr p) = Some i.
Proof.
  intros Hr Hi. destruct (find_patch s (addr p)) as [j|] eqn:E.
  - destruct (find_patch_Some s _ _ E) as (q & Hq & Haq & _). f_equal.
    apply (NoDup_lookup (addr <$> active s) j i (addr p)); [apply Hr|rewrite list_lookup_fmap, Hq|
      rewrite list_lookup_fmap, Hi]; simpl; congruence.
  - exfalso. unfold find_patch in E. apply fmap_None, list_find_None in E.
    eapply Forall_lookup_1 in E; [|exact Hi]. done.
Qed.

Lemma find_patch_fresh s a : a ∉ addr <$> active s -> find_patch s a = None.
Proof.
  intros H. destruct (find_patch s a) as [i|] eqn:E; [|done].
  destruct (find_patch_Some s a i E) as (p & Hp & <- & _). exfalso. apply H.
  apply list_elem_of_fmap_2. by eapply list_elem_of_lookup_2.
Qed.

Lemma unlock_main_mem mc : main_mem (cache_unlock mc) = main_mem mc.
Proof. reflexivity. Qed.

Lemma unlock_rom_lines mc : rom_lines (cache_unlock mc).
Proof. intros a H. pose proof (unlock_no_hit mc TYPE_DCACHE a). simpl in *. congruence. Qed.

(** Releasing the lock keeps the registry, the memory and the ROM lines. *)
Lemma check_lock_ram s : rom_lines (mach s) ->
  exists mc, check_cache_lock_still_needed s = with_mach s mc /\
             main_mem mc = main_mem (mach s) /\ rom_lines mc.
Proof.
  intros H. unfold check_cache_lock_still_needed.
  repeat case_match; try (exists (mach s); by destruct s).
  exists (cache_unlock (mach s)). auto using unlock_rom_lines.
Qed.

(** The slot of the removed patch then holds another active one, or itself. *)
Lemma shifted_slot s i : (i < num_patches s <= length (patches_global s))%nat ->
  nth i (shift_patches (patches_global s) i (num_patches s)) null_patch ∈ drop i (active s).
Proof.
  intros H. rewrite nth_lookup. unfold shift_patches. rewrite shift_patches_lookup by lia.
  set (k := if decide (i <= i < i + (num_patches s - (i + 1)))%nat then S i else i).
  assert (Hk : (i <= k < num_patches s)%nat) by (unfold k; case_decide; lia).
  replace (if decide _ then _ else _) with (patches_global s !! k) by (unfold k; by case_decide).
  destruct (lookup_lt_is_Some_2 (patches_global s) k) as [q Hq]; [lia|]. rewrite Hq. simpl.
  apply (list_elem_of_lookup_2 _ (k - i)). rewrite lookup_drop. unfold active.
  rewrite lookup_take_lt by lia. by replace (i + (k - i))%nat with k by lia.
Qed.

(** [unpatch_memory] of a registered RAM data word, its effect in full. *)
Lemma unpatch_ram_data fh s i p :
  registry_ok s -> rom_lines (mach s) -> active s !! i = Some p -> ram_data p ->
  0 <= old_value p < 2 ^ 32 ->
  (forall q, q ∈ drop i (active s) -> is_instruction q = false) ->
  ld32 (main_mem (mach s)) (addr p) = new_value p ->
  let mc1 := set_mem (mach s) (st32 (main_mem (mach s)) (addr p) (old_value p)) in
  clear_hooks fh mc1 (addr p) = mc1 ->
  exists mc, _unpatch_memory fh s (addr p) =
      (E_UNPATCH_OK, mk_pstate mc (shift_patches (patches_global s) i (num_patches s)) (num_patches s - 1)) /\
    main_mem mc = main_mem mc1 /\ rom_lines mc.
Proof.
  intros Hr Hl Hi Hp Hold Hdata Hcur mc1 Hclear.
  pose proof (find_patch_active _ _ _ Hr Hi) as Hf.
  destruct (find_patch_Some _ _ _ Hf) as (p' & Hp' & _ & Hnth & Hlt).
  rewrite Hi in Hp'. injection Hp' as <-.
  unfold _unpatch_memory. rewrite Hf. cbv zeta. rewrite Hnth, (rd_size p Hp). cbn [Z.eqb Pos.eqb negb].
  unfold is_patch_still_applied. rewrite ram_read, Hcur, (rd_size p Hp) by done.
  change (4 <? 4) with false. cbv iota. rewrite Z.eqb_refl. cbn [negb].
  rewrite ram_not_rom by apply Hp. cbn [negb].
  rewrite ram_apply by (destruct Hp; by split). cbn [Z.eqb E_PATCH_OK negb addr new_value].
  change (negb (0 =? 0)) with false. cbv iota. cbn [mach with_mach with_patches].
  fold mc1. rewrite Hclear. cbn [with_mach with_patches mach patches_global num_patches].
  unfold unpatch_resync. rewrite ram_not_rom by apply Hp.
  rewrite (Hdata (nth i _ _)) by (apply shifted_slot; destruct Hr; lia). cbv iota.
  destruct (check_lock_ram (mk_pstate mc1 (shift_patches (patches_global s) i (num_patches s))
    (num_patches s - 1))) as (mc & Hc & Hmm & Hrl); [done|].
  exists mc. split; [|done]. exact (f_equal (pair E_UNPATCH_OK) Hc).
Qed.

(** ** The rollback *)

Section Rollback.
Context (fh : Z) (s0 : pstate) (ps : list patch) (Hready : ram_ready fh s0 ps).

(** With some of the patches applied, no hook is installed at their addresses. *)
Lemma hooks_clear mc A p : rom_lines mc -> (forall q, q ∈ A -> q ∈ ps) -> p ∈ ps ->
  mem_eq (main_mem mc) (stores A (main_mem (mach s0))) -> clear_hooks fh mc (addr p) = mc.
Proof.
  intros Hl HA Hp Hm. destruct Hready as [_ _ _ Hl0 [Hh1 Hh2] Hfree Hdisj].
  apply clear_hooks_none. intros i Hi E. apply (Hfree p i Hp Hi). rewrite <- E.
  assert (hook_addr (hook_at fh i) < 0x40000000).
  { unfold hook_addr, hook_at, MAX_FUNCTION_HOOKS in *. lia. }
  rewrite !ram_ldr, Hm by done. symmetry. apply stores_ld_out.
  intros q Hq. apply (Hdisj q i (HA q Hq) Hi).
Qed.

(** Unpatching the oldest applied patch. *)
Lemma unpatch_applied s p A : applied s0 s (p :: A) -> (forall q, q ∈ p :: A -> q ∈ ps) ->
  fst (unpatch_memory fh s (addr p)) = E_UNPATCH_OK /\
  applied s0 (snd (unpatch_memory fh s (addr p))) A.
Proof.
  intros [Hr Ha Hl Hm Ho] Hin. pose proof (rr_data _ _ _ Hready) as Hd.
  rewrite Forall_forall in Hd.
  assert (Hp : ram_data p) by (apply Hd, Hin; left).
  assert (Hw : word_aligned A).
  { apply ram_word_aligned, Forall_forall. intros q Hq. apply Hd, Hin. by right. }
  destruct (applied_fresh _ _ _ _ Hr Ha) as [Hfr Hnd].
  assert (Hold : old_value p = ld32 (main_mem (mach s0)) (addr p)) by (apply Ho; left).
  assert (Hm1 : mem_eq (st32 (main_mem (mach s)) (addr p) (old_value p)) (stores A (main_mem (mach s0)))).
  { rewrite Hm. cbn [stores foldr]. fold (stores A (main_mem (mach s0))).
    rewrite Hold, <- (stores_ld_other A _ (addr p)) by (done || apply Hp). apply st_restore. }
  assert (Hi : active s !! length (active s0) = Some p) by (rewrite Ha; by apply list_lookup_middle).
  unfold unpatch_memory. destruct (unpatch_ram_data fh s (length (active s0)) p) as (mc & -> & Hmc & Hrl); try done.
  - rewrite Hold. apply ld32_range.
  - intros q. rewrite Ha, drop_app_length. intros Hq. apply Hd, Hin, Hq.
  - rewrite Hm. cbn [stores foldr]. rewrite ld32_st32_same. apply Z.mod_small. apply Hp.
  - apply (hooks_clear _ A); [done| |by apply Hin; left|done]. intros q Hq. apply Hin. by right.
  - destruct (find_patch_Some _ _ _ (find_patch_active _ _ _ Hr Hi)) as (_ & _ & _ & _ & Hlt).
    split; [done|]. split; [by apply registry_delete| |done| |intros q Hq; apply Ho; by right].
    + unfold active at 1. cbn [snd patches_global num_patches].
      rewrite shift_patches_active by (destruct Hr; lia). fold (active s). rewrite Ha.
      by apply delete_middle.
    + cbn [snd mach]. by rewrite Hmc.
Qed.

(** Unpatching an address that is not registered does nothing. *)
Lemma unpatch_fresh s a : a ∉ addr <$> active s -> unpatch_memory fh s a = (E_UNPATCH_OK, s).
Proof. intros H. unfold unpatch_memory, _unpatch_memory. by rewrite find_patch_fresh. Qed.

Lemma rollback_applied qs : forall s A, A `prefix_of` qs -> (forall q, q ∈ qs -> q ∈ ps) ->
  applied s0 s A ->
  applied s0 (foldl (fun s p => snd (unpatch_memory fh s (addr p))) s qs) [].
Proof.
  induction qs as [|p qs IH]; intros s A Hpre Hin Hs.
  { by apply prefix_nil_inv in Hpre as ->. }
  cbn [foldl]. destruct A as [|q A].
  - rewrite unpatch_fresh; [|rewrite (ap_active _ _ _ Hs), app_nil_r; apply (rr_fresh _ _ _ Hready), Hin; left].
    apply (IH s []); [apply prefix_nil| |done]. intros q Hq. apply Hin. by right.
  - apply prefix_cons_inv_1 in Hpre as E. subst q. apply prefix_cons_inv_2 in Hpre.
    apply (IH _ A); [done|intros q Hq; apply Hin; by right|].
    apply unpatch_applied; [done|]. intros q [->|Hq]%elem_of_cons; [apply Hin; left|].
    destruct Hpre as [k ->]. apply Hin. right. rewrite elem_of_app. by left.
Qed.

Lemma applied_start : applied s0 s0 [].
Proof.
  destruct Hready as [Hr _ _ Hl _ _ _].
  split; [done|by rewrite app_nil_r|done|done|by intros q ?%elem_of_nil].
Qed.

Lemma apply_patches_applied err ps' s : apply_patches fh s0 ps = (err, ps', s) ->
  ps' = ps /\ applied s0 s (if err =? 0 then ps else []).
Proof.
  unfold apply_patches. destruct (apply_loop s0 E_PATCH_OK ps) as [[e r] s1] eqn:E.
  destruct (apply_loop_ram s0 ps _ [] _ _ _ _ applied_start (Forall_nil_2 _)
    (rr_data _ _ _ Hready) E) as (-> & B & HB & Hs1 & Hok).
  intros [= <- <- <-]. split; [done|]. destruct (Z.eqb_spec e 0) as [->|Hne]; cbn [negb].
  - by rewrite Hok in Hs1.
  - by apply (rollback_applied ps s1 B).
Qed.

End Rollback.

(** ** Properties *)

(** C15: [apply_patches] on RAM data words that are neither registered nor
    hooked is all or none.  On success the registry gains exactly the given
    patches and memory differs only in the patched words, which hold the new
    values; on any error the registry and every byte of memory are as
    before. *)
Theorem apply_patches_all_or_none fh s ps err ps' s' :
  ram_ready fh s ps -> apply_patches fh s ps = (err, ps', s') ->
  if err =? 0 then
    active s' = active s ++ ps /\
    (forall p, p ∈ ps -> ld32 (main_mem (mach s')) (addr p) = new_value p) /\
    (forall b, (forall p, p ∈ ps -> b < addr p \/ addr p + 4 <= b) ->
       rd8 (main_mem (mach s')) b = rd8 (main_mem (mach s)) b)
  else active s' = active s /\ mem_eq (main_mem (mach s')) (main_mem (mach s)).
Proof.
  intros Hready H. destruct (apply_patches_applied _ _ _ Hready _ _ _ H) as [_ [Hr Ha _ Hm _]].
  destruct (err =? 0); [|by rewrite app_nil_r in Ha]. split_and!; [done| |].
  - intros p Hp. pose proof (rr_data _ _ _ Hready) as Hd.
    rewrite Hm, stores_ld_new; [|by apply ram_word_aligned| |done].
    + rewrite Forall_forall in Hd. apply Z.mod_small, Hd, Hp.
    + destruct Hr as [_ _ Hn _]. rewrite Ha, fmap_app in Hn. by apply NoDup_app in Hn as (_ & _ & ?).
  - intros b Hb. rewrite (Hm b). by apply stores_rd8_out.
Qed.

(** A freshly booted machine with two data words to patch. *)
Definition boot_state : pstate :=
  patch_init (cache_unlock (mk_machine ∅ (mk_cache ∅ ∅) (mk_cache ∅ ∅) 0 0)).
Definition boot_patches : list patch :=
  [mk_patch 0x1000 0 7 4 0 false; mk_patch 0x2004 0 0xFFFFFFFF 4 0 false].

Lemma boot_hooks : forall i, (i < MAX_FUNCTION_HOOKS)%nat ->
  ldr 4 (mach boot_state) (hook_addr (hook_at 0x80000 i)) = 0.
Proof.
  assert (forallb (fun i => ldr 4 (mach boot_state) (hook_addr (hook_at 0x80000 i)) =? 0)
            (seq 0 MAX_FUNCTION_HOOKS) = true) as H by (vm_compute; reflexivity).
  rewrite forallb_forall in H. intros i Hi. apply Z.eqb_eq, H, in_seq. lia.
Qed.

Lemma boot_ready : ram_ready 0x80000 boot_state boot_patches.
Proof.
  assert (Hb : forall p, p ∈ boot_patches -> 0 < addr p < 0x10000).
  { intros p Hp. unfold boot_patches in Hp. rewrite !elem_of_cons, elem_of_nil in Hp. destruct Hp as [->|[->|[]]]; simpl; lia. }
  split.
  - split; [reflexivity|simpl; unfold MAX_PATCHES; lia|apply NoDup_nil_2|apply Forall_nil_2].
  - repeat constructor; simpl; lia.
  - intros p _ H. by apply elem_of_nil in H.
  - apply unlock_rom_lines.
  - lia.
  - intros p i Hp Hi. rewrite boot_hooks by done. specialize (Hb p Hp). lia.
  - intros p i Hp Hi. specialize (Hb p Hp). unfold hook_addr, hook_at. lia.
Qed.

Lemma apply_patches_all_or_none_witness :
  active (snd (apply_patches 0x80000 boot_state boot_patches)) = boot_patches.
Proof.
  destruct (apply_patches 0x80000 boot_state boot_patches) as [[e l] s] eqn:E.
  pose proof (apply_patches_all_or_none _ _ _ _ _ _ boot_ready E) as H.
  assert (e = 0) as -> by (apply (f_equal (fun x => fst (fst x))) in E; vm_compute in E; congruence).
  destruct H as [H _]. exact H.
Defined.

(** Unpatching a RAM data word that [apply_patches] has just patched
    succeeds and restores the registry and every byte of memory. *)
Theorem patch_unpatch_roundtrip fh s p ps' s' :
  ram_ready fh s [p] -> apply_patches fh s [p] = (E_PATCH_OK, ps', s') ->
  exists s'', unpatch_memory fh s' (addr p) = (E_UNPATCH_OK, s'') /\
    active s'' = active s /\ mem_eq (main_mem (mach s'')) (main_mem (mach s)).
Proof.
  intros Hready H. destruct (apply_patches_applied _ _ _ Hready _ _ _ H) as [_ Hap].
  cbn in Hap. destruct (unpatch_applied _ _ _ Hready _ _ _ Hap) as [He [_ Ha _ Hm _]]; [done|].
  rewrite app_nil_r in Ha. exists (snd (unpatch_memory fh s' (addr p))).
  split; [|by split]. rewrite <- He. apply surjective_pairing.
Qed.

Lemma boot_ready_one : ram_ready 0x80000 boot_state [mk_patch 0x1000 0 7 4 0 false].
Proof.
  destruct boot_ready as [H1 H2 H3 H4 H5 H6 H7].
  assert (Hin : forall p, p ∈ [mk_patch 0x1000 0 7 4 0 false] -> p ∈ boot_patches).
  { intros p ->%list_elem_of_singleton. left. }
  split; [done|by apply Forall_cons in H2 as [? _]; constructor|auto|done|done|auto|auto].
Qed.

Lemma patch_unpatch_roundtrip_witness :
  exists s' s'', apply_patches 0x80000 boot_state [mk_patch 0x1000 0 7 4 0 false]
      = (E_PATCH_OK, [mk_patch 0x1000 0 7 4 0 false], s') /\
    unpatch_memory 0x80000 s' 0x1000 = (E_UNPATCH_OK, s'') /\ active s'' = [].
Proof.
  destruct (apply_patches 0x80000 boot_state [mk_patch 0x1000 0 7 4 0 false]) as [[e l] s] eqn:E.
  assert (e = E_PATCH_OK /\ l = [mk_patch 0x1000 0 7 4 0 false]) as [-> ->].
  { apply (f_equal fst) in E. vm_compute in E. by injection E as <- <-. }
  destruct (patch_unpatch_roundtrip _ _ _ _ _ boot_ready_one E) as (s'' & Hu & Ha & _).
  exists s, s''. split; [done|]. split; [exact Hu|exact Ha].
Defined.

(** The error path of [apply_patches] does not tell its own patches from
    those registered before.  Once [p] is registered, any later call for the
    same address fails with [E_PATCH_ALREADY_PATCHED] and removes [p]. *)
Theorem failed_apply_removes_patch fh s p q ps' s' :
  ram_ready fh s [p] -> apply_patches fh s [p] = (E_PATCH_OK, ps', s') ->
  addr q = addr p -> size q = 4 ->
  exists s'', apply_patches fh s' [q] = (E_PATCH_ALREADY_PATCHED, [q], s'') /\
    active s'' = active s /\ mem_eq (main_mem (mach s'')) (main_mem (mach s)).
Proof.
  intros Hready H Haq Hsq. destruct (apply_patches_applied _ _ _ Hready _ _ _ H) as [_ Hap].
  cbn in Hap. destruct (unpatch_applied _ _ _ Hready _ _ _ Hap) as [_ [_ Ha _ Hm _]]; [done|].
  rewrite app_nil_r in Ha. exists (snd (unpatch_memory fh s' (addr q))). rewrite Haq.
  split; [|by split]. unfold apply_patches, apply_loop, apply_one. rewrite Hsq. cbn [Z.eqb Pos.eqb negb].
  rewrite (proj2 (existsb_exists _ _)).
  2:{ exists p. rewrite (ap_active _ _ _ Hap). split; [|by apply Z.eqb_eq].
      apply list_elem_of_In, elem_of_app. right. left. }
  cbn [foldl]. by rewrite Haq.
Qed.

Lemma failed_apply_removes_patch_witness :
  exists s' s'', snd (apply_patches 0x80000 boot_state [mk_patch 0x1000 0 7 4 0 false]) = s' /\
    apply_patches 0x80000 s' [mk_patch 0x1000 7 9 4 0 false]
      = (E_PATCH_ALREADY_PATCHED, [mk_patch 0x1000 7 9 4 0 false], s'') /\ active s'' = [].
Proof.
  destruct (apply_patches 0x80000 boot_state [mk_patch 0x1000 0 7 4 0 false]) as [[e l] s] eqn:E.
  assert (e = E_PATCH_OK) as -> by (apply (f_equal (fun x => fst (fst x))) in E; vm_compute in E; exact (eq_sym E)).
  destruct (failed_apply_removes_patch _ _ _ (mk_patch 0x1000 7 9 4 0 false) _ _
    boot_ready_one E eq_refl eq_refl) as (s'' & Hu & Ha & _).
  exists s, s''. split; [done|]. split; [exact Hu|exact Ha].
Defined.

(** a RAM instruction patch is not rolled back.  [apply_patch] replaces
    the caller's address by its uncacheable alias, which the rollback then
    does not find: after the failure of the second patch the first one is
    still registered and still in memory. *)
Theorem failed_apply_keeps_ram_instruction :
  let '(err, _, s) := apply_patches 0x80000 boot_state
    [mk_patch 0x1000 0 0xE1A00000 4 0 true; mk_patch 0x2000 1 2 4 0 false] in
  err = E_PATCH_OLD_VALUE_MISMATCH /\
  active s = [mk_patch 0x1000 0 0xE1A00000 4 0 true] /\
  ld32 (main_mem (mach s)) 0x1000 = 0xE1A00000.
Proof. vm_compute. auto. Qed.
