(* ===== verification/PatchRom.v ===== *)
(** * ROM patches: what the processor fetches

    ROM instructions are patched in the locked instruction cache.  The
    registry and the cache agree: after any sequence of operations the
    processor fetches the registered value at a patched address and the
    original instruction everywhere else.  The outcome of a patch of one
    instruction is decided by the registry and the instruction in ROM. *)
From S2P Require Import Prelude CacheHacks Patch PatchRam.

(** A one-word patch of an aligned ROM instruction. *)
Record rom_patch (p : patch) : Prop := {
  rp_instr : is_instruction p = true;
  rp_size : size p = 4;
  rp_rom : 0xF0000000 < addr p;
  rp_aligned : aligned (addr p);
}.

(** The locked caches show the patches [D] and nothing else. *)
Record view (mc : machine) (D : list patch) : Prop := {
  v_hit : forall q, q ∈ D -> clookup (icache mc) (addr q) = Some (new_value q);
  v_other : forall b, aligned b -> b ∉ addr <$> D -> ifetch mc b = ld32 (main_mem mc) (phys b);
  v_tags : forall b, Z.land (tag_at (icache mc) b) 0x10 <> 0 ->
    exists q, q ∈ D /\ index (addr q) = index b;
  v_dcache : forall b, hit (dcache mc) b = false;
}.

(** The patches of one cache index belong to one line. *)
Definition no_collision (p q : patch) : Prop :=
  index (addr p) = index (addr q) -> line (addr p) = line (addr q).

(** The patch changes the instruction that is in ROM. *)
Definition changes (m : memory) (p : patch) : Prop := ld32 m (addr p) <> new_value p.

Lemma rom_ptr p : rom_patch p -> IS_ROM_PTR (addr p) = true.
Proof. intros H. apply Z.ltb_lt, H. Qed.

Lemma rom_phys a : 0xF0000000 < a -> phys a = a.
Proof.
  intros. unfold phys, is_uncached. rewrite (proj2 (Z.ltb_ge _ _)) by lia. by rewrite andb_false_r.
Qed.

Lemma view_unlocked mc : view (cache_unlock mc) [].
Proof.
  split.
  - by intros q ?%elem_of_nil.
  - intros b _ _. unfold ifetch. by rewrite (unlock_no_hit mc TYPE_ICACHE).
  - intros b []. exact (tag_invalidate _ TYPE_ICACHE b).
  - intros b. exact (unlock_no_hit mc TYPE_DCACHE b).
Qed.

Lemma view_locked mc : view (cache_lock mc) [].
Proof.
  split.
  - by intros q ?%elem_of_nil.
  - intros b _ _. unfold ifetch. by rewrite (lock_no_hit mc TYPE_ICACHE).
  - intros b []. exact (tag_invalidate _ TYPE_ICACHE b).
  - intros b. exact (lock_no_hit mc TYPE_DCACHE b).
Qed.

(** Under a locked cache, reading a ROM instruction reads what is fetched. *)
Lemma read_value_ifetch mc a : cache_locked mc <> 0 -> (forall b, hit (dcache mc) b = false) ->
  0xF0000000 < a -> aligned a -> read_value mc a true = ifetch mc a.
Proof.
  intros Hl Hd Ha [_ Ha3]. unfold read_value. rewrite is_patchable_spec. cbv zeta.
  assert (Hm : ldr 4 mc a = ld32 (main_mem mc) a) by (rewrite ldr_miss, rom_phys; done).
  assert (IS_ROM_PTR a = true) as -> by (by apply Z.ltb_lt).
  rewrite (proj2 (Z.eqb_neq _ _) Hl).
  assert (UNCACHEABLE a = a) as ->.
  { unfold UNCACHEABLE. rewrite (proj2 (Z.ltb_ge _ _)) by lia. apply Z.lor_0_r. }
  rewrite Ha3, Hm. cbn [Z.eqb andb negb]. unfold ifetch. rewrite rom_phys by done.
  destruct (Z.eqb_spec (Z.land (tag_at (get_cache mc TYPE_ICACHE) a) 0x10) 0) as [Ht|Ht].
  - destruct (hit (icache mc) a) eqn:E; [|done].
    apply hit_true in E as [E _]. cbn [get_cache] in Ht. lia.
  - cbn [get_cache]. destruct (hit (icache mc) a); [|done].
    destruct (Z.eqb_spec (cached_word (icache mc) a) (ld32 (main_mem mc) a)); [done|]. done.
Qed.

(** Without the lock, it reads memory. *)
Lemma read_value_unlocked mc a : cache_locked mc = 0 -> (forall b, hit (dcache mc) b = false) ->
  0xF0000000 < a -> aligned a -> read_value mc a true = ld32 (main_mem mc) a.
Proof.
  intros Hl Hd Ha [_ Ha3]. unfold read_value. destruct (cache_is_patchable _ _ _).
  rewrite Hl. cbn [Z.eqb negb]. rewrite andb_false_r. cbn [andb].
  assert (UNCACHEABLE a = a) as ->.
  { unfold UNCACHEABLE. rewrite (proj2 (Z.ltb_ge _ _)) by lia. apply Z.lor_0_r. }
  rewrite Ha3. cbn [Z.eqb]. by rewrite ldr_miss, rom_phys.
Qed.

(** ** One more patch *)

Lemma view_patchable mc D p : view mc D -> (forall q, q ∈ D -> no_collision q p) ->
  fst (cache_is_patchable mc (addr p) TYPE_ICACHE) <> 0.
Proof.
  intros Hv Hc. rewrite is_patchable_spec. cbv zeta. cbn [get_cache].
  destruct (Z.eqb_spec (Z.land (tag_at (icache mc) (addr p)) 0x10) 0) as [|Ht]; [done|].
  destruct (v_tags _ _ Hv _ Ht) as (q & Hq & Hi). pose proof (Hc q Hq Hi) as Hl.
  pose proof (v_hit _ _ Hv q Hq) as Hh. unfold clookup in Hh.
  destruct (hit (icache mc) (addr q)) eqn:Eq; [|done].
  assert (hit (icache mc) (addr p) = true) as ->.
  { revert Eq. rewrite !hit_tag. unfold tag_at. by rewrite Hi, Hl. }
  simpl. by case_match.
Qed.

Lemma patchable_no_collision mc D p q : view mc D -> q ∈ D ->
  fst (cache_is_patchable mc (addr p) TYPE_ICACHE) <> 0 -> no_collision q p.
Proof.
  intros Hv Hq Hp Hi. destruct (decide (line (addr q) = line (addr p))) as [|Hne]; [done|].
  pose proof (v_hit _ _ Hv q Hq) as Hh. exfalso.
  pose proof (patchable_no_alias mc (addr p) TYPE_ICACHE (addr q) Hp (eq_sym Hi) (not_eq_sym Hne)) as Hn.
  cbn [get_cache] in Hn. congruence.
Qed.

Lemma view_fake mc D p : view mc D -> Forall rom_patch D -> rom_patch p -> addr p ∉ addr <$> D ->
  fst (cache_is_patchable mc (addr p) TYPE_ICACHE) <> 0 ->
  view (cache_fake mc (addr p) (new_value p) TYPE_ICACHE) (D ++ [p]).
Proof.
  intros [Hh Ho Ht Hd] HD Hp Hfr Hpa. pose proof (rp_aligned p Hp) as Hal.
  rewrite Forall_forall in HD.
  destruct (fake_frame mc (addr p) (new_value p) TYPE_ICACHE) as (Em & _ & _ & Ed). split.
  - intros q Hq. pose proof (clookup_fake mc (addr p) (new_value p) TYPE_ICACHE (addr q)) as Hc.
    cbn [get_cache] in Hc. apply elem_of_app in Hq as [Hq| ->%list_elem_of_singleton].
    + rewrite Hc by (done || apply HD, Hq). rewrite decide_False.
      * rewrite (Hh q Hq). clear Hc. by case_decide.
      * intros E. apply Hfr. rewrite E. by apply list_elem_of_fmap_2.
    + rewrite Hc by done. by rewrite decide_True.
  - intros b Hb Hnin. rewrite fmap_app, not_elem_of_app in Hnin. destruct Hnin as [Hn1 Hn2].
    rewrite fake_ifetch, Em, decide_False by (try done; intros <-; apply Hn2; left). by apply Ho.
  - intros b. pose proof (tag_at_fake mc (addr p) (new_value p) TYPE_ICACHE b Hal) as Htf.
    cbn [get_cache] in Htf. rewrite Htf. case_decide as Hi.
    + intros _. exists p. split; [|done]. apply elem_of_app. right. left.
    + intros Hb. destruct (Ht b Hb) as (q & Hq & Hqi). exists q. split; [|done].
      apply elem_of_app. by left.
  - intros b. specialize (Ed TYPE_DCACHE ltac:(done)). cbn [get_cache] in Ed. by rewrite Ed.
Qed.

Lemma view_ifetch mc D p : view mc D -> p ∈ D -> ifetch mc (addr p) = new_value p.
Proof. intros Hv Hp. rewrite ifetch_clookup. cbn [get_cache]. by rewrite (v_hit _ _ Hv p Hp). Qed.

(** ** Re-applying the registered patches *)

Lemma reapply_one mc D p : view mc D -> Forall rom_patch D -> rom_patch p -> cache_locked mc <> 0 ->
  addr p ∉ addr <$> D -> (forall q, q ∈ D -> no_collision q p) -> changes (main_mem mc) p ->
  reapply_cache_patch mc p = (E_PATCH_OK, cache_fake mc (addr p) (new_value p) TYPE_ICACHE).
Proof.
  intros Hv HD Hp Hl Hfr Hc Hch. unfold reapply_cache_patch. rewrite (rp_instr p Hp).
  pose proof (rp_aligned p Hp) as Hal. pose proof (rp_rom p Hp) as Hrom.
  rewrite read_value_ifetch by (try done; apply Hv).
  rewrite (v_other _ _ Hv), rom_phys by done.
  rewrite (proj2 (Z.eqb_neq _ _) Hch). cbn [negb patch_cache_type].
  pose proof (view_fake mc D p Hv HD Hp Hfr (view_patchable _ _ _ Hv Hc)) as Hv'.
  destruct (fake_frame mc (addr p) (new_value p) TYPE_ICACHE) as (_ & El & _).
  rewrite read_value_ifetch; [|unfold cache_locked; by rewrite El|apply Hv'|done|done].
  rewrite (view_ifetch _ _ p Hv') by (apply elem_of_app; right; left).
  by rewrite Z.eqb_refl.
Qed.

Lemma reapply_all l : forall mc D, view mc D -> cache_locked mc <> 0 ->
  Forall rom_patch (D ++ l) -> NoDup (addr <$> D ++ l) ->
  (forall q r, q ∈ D ++ l -> r ∈ D ++ l -> no_collision q r) ->
  Forall (changes (main_mem mc)) l ->
  exists mc', foldl reapply_if_rom (0, mc) l = (0, mc') /\
    view mc' (D ++ l) /\ main_mem mc' = main_mem mc /\ cache_locked mc' = cache_locked mc.
Proof.
  induction l as [|p l IH]; intros mc D Hv Hl Hrp Hnd Hnc Hch.
  { exists mc. by rewrite app_nil_r. }
  apply Forall_cons in Hch as [Hp Hch]. pose proof Hrp as [HD [Hpp _]%Forall_cons]%Forall_app.
  assert (Hfr : addr p ∉ addr <$> D).
  { rewrite fmap_app in Hnd. apply NoDup_app in Hnd as (_ & Hd & _). intros Hin.
    apply (Hd _ Hin). left. }
  assert (Hc : forall q, q ∈ D -> no_collision q p).
  { intros q Hq. apply Hnc; apply elem_of_app; [by left|right; left]. }
  cbn [foldl]. unfold reapply_if_rom at 2. rewrite rom_ptr by done. rewrite (reapply_one mc D p) by done. cbn [Z.lor E_PATCH_OK].
  destruct (fake_frame mc (addr p) (new_value p) TYPE_ICACHE) as (Em & El & _).
  destruct (IH (cache_fake mc (addr p) (new_value p) TYPE_ICACHE) (D ++ [p])) as (mc' & E & Hv' & Em' & El').
  - apply view_fake; try done. by apply (view_patchable _ D).
  - unfold cache_locked. by rewrite El.
  - by rewrite <- (assoc_L (++)).
  - by rewrite <- (assoc_L (++)).
  - by rewrite <- (assoc_L (++)).
  - by rewrite Em.
  - rewrite <- (assoc_L (++)) in Hv'. exists mc'. split_and!; [exact E|done|congruence|].
    rewrite El'. unfold cache_locked. congruence.
Qed.

(** ** The state invariant *)

Record rom_inv (s : pstate) : Prop := {
  ri_reg : registry_ok s;
  ri_rom : Forall rom_patch (active s);
  ri_nc : forall p q, p ∈ active s -> q ∈ active s -> no_collision p q;
  ri_changes : Forall (changes (main_mem (mach s))) (active s);
  ri_view : view (mach s) (active s);
  ri_lock : cache_locked (mach s) = 0 -> active s = [];
}.

Lemma no_collision_sym p q : no_collision p q -> no_collision q p.
Proof. unfold no_collision. intros H E. symmetry. by apply H. Qed.

(** Locking for a new patch keeps the view. *)
Lemma lock_view s : rom_inv s ->
  let mc := set_cache_lock_state (mach s) true in
  view mc (active s) /\ cache_locked mc <> 0 /\ main_mem mc = main_mem (mach s).
Proof.
  intros Hi mc. unfold mc, set_cache_lock_state.
  destruct (Z.eqb_spec (cache_locked (mach s)) 0) as [E|E].
  - rewrite (ri_lock _ Hi E). split; [apply view_locked|done].
  - split; [apply Hi|done].
Qed.

(** Reading the instruction that is to be patched gives the one in ROM. *)
Lemma read_unpatched s p : rom_inv s -> rom_patch p -> addr p ∉ addr <$> active s ->
  read_value (mach s) (addr p) true = ld32 (main_mem (mach s)) (addr p).
Proof.
  intros Hi [_ _ Hr Ha] Hfr. destruct (Z.eqb_spec (cache_locked (mach s)) 0) as [E|E].
  - apply read_value_unlocked; try done. apply (ri_view _ Hi).
  - rewrite read_value_ifetch; try done; [|apply (ri_view _ Hi)].
    by rewrite (v_other _ _ (ri_view _ Hi)), rom_phys.
Qed.

(** The outcome of applying one fresh ROM instruction patch. *)
Definition rom_outcome (s : pstate) (p : patch) : Z :=
  if (MAX_PATCHES <=? num_patches s)%nat then E_PATCH_TOO_MANY_PATCHES
  else if negb (ld32 (main_mem (mach s)) (addr p) =? old_value p) then E_PATCH_OLD_VALUE_MISMATCH
  else if forallb (fun q => negb (index (addr q) =? index (addr p)) ||
                            (line (addr q) =? line (addr p))) (active s)
  then E_PATCH_OK else E_PATCH_CACHE_COLLISION.

Lemma collision_dec D p :
  forallb (fun q => negb (index (addr q) =? index (addr p)) || (line (addr q) =? line (addr p))) D = true
  <-> forall q, q ∈ D -> no_collision q p.
Proof.
  rewrite forallb_forall. unfold no_collision. split; intros H q Hq.
  - intros E. apply list_elem_of_In, H in Hq. rewrite E, Z.eqb_refl in Hq. by apply Z.eqb_eq.
  - apply list_elem_of_In in Hq. specialize (H q Hq).
    destruct (Z.eqb_spec (index (addr q)) (index (addr p))) as [E|]; [|done].
    simpl. by apply Z.eqb_eq, H.
Qed.

Lemma apply_patch_rom mc D p : view mc D -> cache_locked mc <> 0 -> Forall rom_patch D ->
  rom_patch p -> addr p ∉ addr <$> D -> (forall q, q ∈ D -> no_collision q p) ->
  read_value (cache_fake mc (addr p) (new_value p) TYPE_ICACHE) (addr p) true = new_value p.
Proof.
  intros Hv Hl HD Hp Hfr Hc.
  pose proof (view_fake mc D p Hv HD Hp Hfr (view_patchable _ _ _ Hv Hc)) as Hv'.
  destruct (fake_frame mc (addr p) (new_value p) TYPE_ICACHE) as (_ & El & _).
  rewrite read_value_ifetch; [|unfold cache_locked; by rewrite El|apply Hv'|apply Hp|apply Hp].
  apply (view_ifetch _ _ p Hv'). apply elem_of_app. right. left.
Qed.

(** One iteration, its machine in full. *)
Lemma apply_one_rom_mach s p : rom_inv s -> rom_patch p -> addr p ∉ addr <$> active s ->
  exists s', apply_one s p = (negb (rom_outcome s p =? 0), rom_outcome s p, p, s') /\
    main_mem (mach s') = main_mem (mach s) /\
    (cache_locked (mach s') = 0 -> cache_locked (mach s) = 0 /\ rom_outcome s p <> 0) /\
    (rom_outcome s p = 0 -> (forall q, q ∈ active s -> no_collision q p) /\
       old_value p = ld32 (main_mem (mach s)) (addr p)) /\
    view (mach s') (if rom_outcome s p =? 0 then active s ++ [p] else active s).
Proof.
  intros Hi Hp Hfr. unfold apply_one, rom_outcome. rewrite (rp_size p Hp). cbn [Z.eqb Pos.eqb negb].
  assert (existsb (fun q => addr q =? addr p) (active s) = false) as ->.
  { apply not_true_iff_false. intros (q & Hq & E)%existsb_exists. apply Hfr.
    apply Z.eqb_eq in E. rewrite <- E. by apply list_elem_of_fmap_2, list_elem_of_In. }
  destruct (_ <=? _)%nat; [by eexists; split; [done|]; split_and!; try done; apply Hi|].
  cbv zeta. cbn [mach with_patches addr is_instruction]. rewrite (rp_instr p Hp).
  rewrite read_unpatched by done.
  destruct (Z.eqb_spec (ld32 (main_mem (mach s)) (addr p)) (old_value p)) as [Ho|Ho];
    cbn [negb]; [|by eexists; split; [done|]; split_and!; try done; apply Hi].
  destruct (lock_view s Hi) as (Hv & Hl & Hm). set (mc := set_cache_lock_state (mach s) true) in *.
  unfold apply_patch. rewrite (rp_size p Hp), rom_ptr, (rp_instr p Hp) by done.
  cbn [Z.eqb Pos.eqb negb patch_cache_type]. fold mc.
  destruct (forallb _ _) eqn:Ec.
  - pose proof (proj1 (collision_dec _ _) Ec) as Hc.
    pose proof (view_patchable _ _ _ Hv Hc) as Hpa. rewrite (proj2 (Z.eqb_neq _ _) Hpa). cbn [negb].
    rewrite (apply_patch_rom mc (active s)), Z.eqb_refl by (done || apply Hi).
    cbn [negb Z.eqb E_PATCH_OK]. rewrite (rp_instr p Hp), rom_ptr by done. cbn [andb negb].
    destruct (fake_frame mc (addr p) (new_value p) TYPE_ICACHE) as (Em & El & _).
    eexists. split; [reflexivity|]. cbn [mach with_mach with_patches]. split_and!.
    + congruence.
    + unfold cache_locked in *. by rewrite El.
    + done.
    + apply view_fake; try done. apply Hi.
  - assert (fst (cache_is_patchable mc (addr p) TYPE_ICACHE) = 0) as ->.
    { destruct (decide (fst (cache_is_patchable mc (addr p) TYPE_ICACHE) = 0)) as [|Hn]; [done|].
      exfalso. apply not_true_iff_false in Ec. apply Ec, collision_dec. intros q Hq.
      by apply (patchable_no_collision mc (active s)). }
    eexists. split; [reflexivity|]. cbn [mach with_mach with_patches]. by split_and!.
Qed.

Lemma apply_rom fh s p : rom_inv s -> rom_patch p -> addr p ∉ addr <$> active s ->
  old_value p <> new_value p ->
  exists s', apply_patches fh s [p] = (rom_outcome s p, [p], s') /\ rom_inv s' /\
    main_mem (mach s') = main_mem (mach s) /\
    active s' = if rom_outcome s p =? 0 then active s ++ [p] else active s.
Proof.
  intros Hi Hp Hfr Hch. destruct (apply_one_rom_mach s p Hi Hp Hfr) as (s' & E & Hm & Hl & Hok & Hv).
  destruct (apply_one_registry _ _ _ _ _ _ E (ri_reg _ Hi)) as [Hr Ha].
  exists s'. unfold apply_patches, apply_loop. rewrite E.
  destruct (Z.eqb_spec (rom_outcome s p) 0) as [E0|E0]; cbn [negb] in *.
  - destruct Ha as [Ha _], (Hok E0) as [Hc Ho]. split; [by rewrite E0|].
    split; [|done]. destruct Hi as [_ Hrom Hnc Hcs _ _]. split; rewrite ?Ha, ?Hm; try done.
    + apply Forall_app. split; [done|]. by apply Forall_singleton.
    + intros q r. rewrite !elem_of_app, !list_elem_of_singleton.
      intros [Hq| ->] [Hr'| ->]; [auto|auto|by apply no_collision_sym, Hc|by intros ?].
    + apply Forall_app. split; [done|]. apply Forall_singleton. unfold changes. congruence.
    + intros [_ []]%Hl. done.
  - rewrite (proj2 (Z.eqb_neq _ _) E0). cbn [negb foldl]. rewrite unpatch_fresh by (by rewrite Ha).
    split; [done|]. split; [|done].
    destruct Hi as [_ Hrom Hnc Hcs _ Hlk]. split; rewrite ?Ha, ?Hm; try done.
    intros [? _]%Hl. by apply Hlk.
Qed.

(** ** Removing a ROM patch *)

Lemma rom_still_applied s p : rom_inv s -> p ∈ active s ->
  is_patch_still_applied (mach s) p = true.
Proof.
  intros Hi Hp. pose proof (ri_rom _ Hi) as Hr. rewrite Forall_forall in Hr.
  destruct (Hr p Hp) as [Hin Hs Hrom Hal]. unfold is_patch_still_applied. rewrite Hin, Hs.
  change (4 <? 4) with false. cbv iota. apply Z.eqb_eq.
  rewrite read_value_ifetch; [by apply (view_ifetch _ (active s)); [apply Hi|]| |apply Hi|done|done].
  intros E. rewrite (ri_lock _ Hi E) in Hp. by apply elem_of_nil in Hp.
Qed.

(** The lock is released exactly when no patch is left. *)
Lemma check_lock_rom s : rom_inv s -> rom_inv (check_cache_lock_still_needed s) /\
  active (check_cache_lock_still_needed s) = active s /\
  main_mem (mach (check_cache_lock_still_needed s)) = main_mem (mach s).
Proof.
  intros Hi. unfold check_cache_lock_still_needed. destruct (_ =? 0); [done|].
  destruct (existsb _ _) eqn:E; [done|]. cbn [set_cache_lock_state].
  assert (Ha : active s = []).
  { pose proof (ri_rom _ Hi) as Hr. destruct (active s) as [|p l]; [done|].
    apply Forall_cons in Hr as [Hp _]. cbn [existsb] in E. by rewrite rom_ptr in E. }
  assert (Ha' : active (with_mach s (cache_unlock (mach s))) = []) by done.
  split; [|done]. split; rewrite ?Ha'.
  - apply registry_with_mach, Hi.
  - apply Forall_nil_2.
  - by intros p q ?%elem_of_nil.
  - apply Forall_nil_2.
  - apply view_unlocked.
  - done.
Qed.

Lemma elem_of_delete {A} (l : list A) i x : x ∈ delete i l -> x ∈ l.
Proof. rewrite delete_take_drop, elem_of_app. intros [H|H]; [by eapply subseteq_take|by eapply subseteq_drop]. Qed.

(** A state whose caches were just relocked, with the remaining patches. *)
Lemma relock_rom s i p : rom_inv s -> active s !! i = Some p ->
  let s1 := mk_pstate (cache_lock (cache_unlock (mach s)))
    (shift_patches (patches_global s) i (num_patches s)) (num_patches s - 1) in
  exists mc, _reapply_cache_patches s1 = (0, mc) /\ rom_inv (with_mach s1 mc) /\
    active (with_mach s1 mc) = delete i (active s) /\ main_mem mc = main_mem (mach s).
Proof.
  intros Hi Hp s1. pose proof (find_patch_active _ _ _ (ri_reg _ Hi) Hp) as Hf.
  destruct (find_patch_Some _ _ _ Hf) as (_ & _ & _ & _ & Hlt).
  assert (Hr1 : forall mc, registry_ok (with_mach s1 mc)).
  { intros mc. by apply registry_delete; [apply Hi|]. }
  assert (Ha : active s1 = delete i (active s)).
  { apply shift_patches_active. destruct (ri_reg _ Hi). lia. }
  assert (Hin : forall q, q ∈ active s1 -> q ∈ active s).
  { intros q. rewrite Ha. apply elem_of_delete. }
  destruct (reapply_all (active s1) (mach s1) []) as (mc & E & Hv & Hm & Hl).
  - apply view_locked.
  - done.
  - rewrite Ha. apply Forall_delete, Hi.
  - apply (reg_nodup _ (Hr1 (mach s))).
  - intros q r Hq Hr. by apply (ri_nc _ Hi); apply Hin.
  - rewrite Ha. apply Forall_delete, Hi.
  - exists mc. split; [exact E|]. split; [|by split].
    split; change (active (with_mach s1 mc)) with (active s1).
    + apply Hr1.
    + rewrite Ha. apply Forall_delete, Hi.
    + intros q r Hq Hr. by apply (ri_nc _ Hi); apply Hin.
    + cbn [mach with_mach]. rewrite Hm, Ha. apply Forall_delete, Hi.
    + exact Hv.
    + cbn [mach with_mach]. by rewrite Hl.
Qed.

Lemma unpatch_rom fh s i p : rom_inv s -> active s !! i = Some p ->
  (forall k, (k < MAX_FUNCTION_HOOKS)%nat -> ldr 4 (mach s) (hook_addr (hook_at fh k)) <> addr p) ->
  exists s', unpatch_memory fh s (addr p) = (E_UNPATCH_OK, s') /\ rom_inv s' /\
    active s' = delete i (active s) /\ main_mem (mach s') = main_mem (mach s).
Proof.
  intros Hi Hp Hh. pose proof (list_elem_of_lookup_2 _ _ _ Hp) as Hin.
  pose proof (find_patch_active _ _ _ (ri_reg _ Hi) Hp) as Hf.
  destruct (find_patch_Some _ _ _ Hf) as (p' & Hp' & _ & Hnth & _).
  rewrite Hp in Hp'. injection Hp' as <-.
  pose proof (ri_rom _ Hi) as Hr. rewrite Forall_forall in Hr. specialize (Hr p Hin).
  unfold unpatch_memory, _unpatch_memory. rewrite Hf. cbv zeta.
  rewrite Hnth, (rp_size p Hr), (rom_still_applied s p Hi Hin), rom_ptr by done.
  change (negb (4 =? 4)) with false. cbn [negb]. cbv iota.
  change (negb (E_UNPATCH_OK =? 0)) with false. cbv iota.
  cbn [mach with_mach with_patches patches_global num_patches]. rewrite clear_hooks_none by done.
  unfold unpatch_resync. rewrite rom_ptr by done.
  destruct (relock_rom s i p Hi Hp) as (mc & E & Hi' & Ha & Hm).
  cbv zeta in E. unfold with_mach, with_patches in *. cbn [mach patches_global num_patches] in *.
  rewrite E. destruct (check_lock_rom _ Hi') as (Hi2 & Ha2 & Hm2).
  eexists. split; [reflexivity|]. split; [exact Hi2|]. split; [by rewrite Ha2|]. by rewrite Hm2.
Qed.

(** ** Properties *)

(** Patching and unpatching ROM instructions, in any order: a patch must be
    new and change the instruction, and the removed one must not carry a
    function hook. *)
Inductive rom_step (fh : Z) : pstate -> pstate -> Prop :=
  | rom_apply s p : rom_patch p -> addr p ∉ addr <$> active s -> old_value p <> new_value p ->
      rom_step fh s (snd (apply_patches fh s [p]))
  | rom_unpatch s a :
      (forall k, (k < MAX_FUNCTION_HOOKS)%nat -> ldr 4 (mach s) (hook_addr (hook_at fh k)) <> a) ->
      rom_step fh s (snd (unpatch_memory fh s a)).

(** What the registry promises about the instruction at [a]. *)
Definition patched_instr (s : pstate) (m : memory) (a : Z) : Z :=
  match find_patch s a with
  | Some i => new_value (nth i (patches_global s) null_patch)
  | None => ld32 m (phys a)
  end.

Lemma rom_inv_init mc : rom_inv (patch_init (cache_unlock mc)).
Proof.
  split; try (apply Forall_nil_2).
  - split; simpl; [done|unfold MAX_PATCHES; lia|apply NoDup_nil_2|by constructor].
  - by intros p q ?%elem_of_nil.
  - apply view_unlocked.
  - done.
Qed.

Lemma rom_step_inv fh s s' : rom_step fh s s' -> rom_inv s ->
  rom_inv s' /\ main_mem (mach s') = main_mem (mach s).
Proof.
  intros Hs Hi. destruct Hs as [s p Hp Hfr Hch|s a Hh].
  - destruct (apply_rom fh s p Hi Hp Hfr Hch) as (s' & -> & Hi' & Hm & _). done.
  - destruct (find_patch s a) as [i|] eqn:E.
    + destruct (find_patch_Some _ _ _ E) as (p & Hp & <- & _).
      destruct (unpatch_rom fh s i p Hi Hp Hh) as (s' & -> & Hi' & _ & Hm). done.
    + unfold unpatch_memory, _unpatch_memory. by rewrite E.
Qed.

Lemma rom_inv_fetch s b : rom_inv s -> aligned b ->
  ifetch (mach s) b = patched_instr s (main_mem (mach s)) b.
Proof.
  intros Hi Hb. unfold patched_instr. destruct (find_patch s b) as [i|] eqn:E.
  - destruct (find_patch_Some _ _ _ E) as (p & Hp & <- & -> & _).
    apply (view_ifetch _ (active s)); [apply Hi|]. by eapply list_elem_of_lookup_2.
  - apply (v_other _ _ (ri_view _ Hi)); [done|]. intros Hin.
    apply list_elem_of_fmap in Hin as (p & -> & [i Hp]%list_elem_of_lookup_1).
    by rewrite (find_patch_active _ i p) in E by (done || apply Hi).
Qed.

(** C9: from boot, after any sequence of patching and unpatching ROM
    instructions (failed calls included), ROM and RAM are unchanged and every
    instruction fetch returns the value registered for its address, or the
    original instruction where none is registered: collisions between lines
    of one cache index never expose or hide a patch. *)
Theorem rom_patches_visible fh mc s b :
  rtc (rom_step fh) (patch_init (cache_unlock mc)) s -> aligned b ->
  main_mem (mach s) = main_mem mc /\ ifetch (mach s) b = patched_instr s (main_mem mc) b.
Proof.
  intros H Hb.
  enough (rom_inv s /\ main_mem (mach s) = main_mem mc) as [Hi Hm].
  { split; [done|]. rewrite <- Hm. by apply rom_inv_fetch. }
  assert (Hgen : forall s1 s2, rtc (rom_step fh) s1 s2 -> rom_inv s1 ->
            rom_inv s2 /\ main_mem (mach s2) = main_mem (mach s1)).
  { induction 1 as [|x y z Hxy _ IH]; intros Hx; [done|].
    destruct (rom_step_inv _ _ _ Hxy Hx) as [Hy <-]. auto. }
  exact (Hgen _ _ H (rom_inv_init mc)).
Qed.

Lemma rom_patches_visible_witness :
  let s := snd (apply_patches 0x80000 boot_state [mk_patch 0xFF123404 0 0xE1A00000 4 0 true]) in
  main_mem (mach s) = ∅ /\ ifetch (mach s) 0xFF123404 = patched_instr s ∅ 0xFF123404.
Proof.
  apply (rom_patches_visible 0x80000 (mk_machine ∅ (mk_cache ∅ ∅) (mk_cache ∅ ∅) 0 0)).
  - apply rtc_once. apply rom_apply; [|by intros ?%elem_of_nil|done].
    split; (done || (split; [lia|done])).
  - split; [lia|done].
Defined.

(** One call for one ROM instruction: the first check is for a registered patch. *)
Definition rom_result (s : pstate) (p : patch) : Z :=
  if existsb (fun q => addr q =? addr p) (active s) then E_PATCH_ALREADY_PATCHED else rom_outcome s p.

(** The patch registered for the address is removed by the error path. *)
Lemma apply_rom_again fh s i q p : rom_inv s -> size p = 4 -> active s !! i = Some q -> addr q = addr p ->
  (forall k, (k < MAX_FUNCTION_HOOKS)%nat -> ldr 4 (mach s) (hook_addr (hook_at fh k)) <> addr p) ->
  existsb (fun q => addr q =? addr p) (active s) = true /\
  exists s', apply_patches fh s [p] = (E_PATCH_ALREADY_PATCHED, [p], s') /\ active s' = delete i (active s).
Proof.
  intros Hi Hs Hq E Hh.
  assert (existsb (fun q => addr q =? addr p) (active s) = true) as Hex.
  { apply existsb_exists. exists q. split; [by eapply list_elem_of_In, list_elem_of_lookup_2|by apply Z.eqb_eq]. }
  rewrite <- E in Hh. destruct (unpatch_rom fh s i q Hi Hq Hh) as (s' & Eu & _ & Ha & _).
  split; [done|]. exists s'. split; [|done]. unfold apply_patches, apply_loop, apply_one. rewrite Hs, Hex.
  cbn [Z.eqb Pos.eqb negb E_PATCH_ALREADY_PATCHED foldl]. by rewrite <- E, Eu.
Qed.

Lemma apply_rom_fresh fh s p : rom_inv s -> rom_patch p -> addr p ∉ addr <$> active s ->
  exists s', apply_patches fh s [p] = (rom_outcome s p, [p], s') /\
    active s' = if rom_outcome s p =? 0 then active s ++ [p] else active s.
Proof.
  intros Hi Hp Hfr. destruct (apply_one_rom_mach s p Hi Hp Hfr) as (s' & E & _ & _ & Hok & _).
  destruct (apply_one_registry _ _ _ _ _ _ E (ri_reg _ Hi)) as [_ Ha].
  exists s'. unfold apply_patches, apply_loop. rewrite E.
  destruct (Z.eqb_spec (rom_outcome s p) 0) as [E0|E0]; cbn [negb] in *.
  - destruct Ha as [Ha _]. by rewrite E0.
  - rewrite (proj2 (Z.eqb_neq _ _) E0). cbn [negb foldl]. by rewrite unpatch_fresh by (by rewrite Ha).
Qed.

(** C36: the outcome of [apply_patches] for any one ROM instruction patch (word
    size, aligned, in ROM), in any state reached by patching new ROM
    instructions and unpatching, is decided by the registry and the instruction
    in ROM: already patched, full array, wrong original instruction, a
    registered patch on another line of the same cache index, or success.
    Success registers exactly this patch; an error leaves the registry as it
    was, except that the error for an address already patched removes the patch
    registered there (its address must not carry a function hook). *)
Theorem rom_apply_outcome fh mc s p :
  rtc (rom_step fh) (patch_init (cache_unlock mc)) s -> rom_patch p ->
  (addr p ∈ addr <$> active s ->
     forall k, (k < MAX_FUNCTION_HOOKS)%nat -> ldr 4 (mach s) (hook_addr (hook_at fh k)) <> addr p) ->
  exists s', apply_patches fh s [p] = (rom_result s p, [p], s') /\
    (addr p ∉ addr <$> active s -> active s' = if rom_result s p =? 0 then active s ++ [p] else active s) /\
    (forall i q, active s !! i = Some q -> addr q = addr p ->
       rom_result s p = E_PATCH_ALREADY_PATCHED /\ active s' = delete i (active s)).
Proof.
  intros H Hp Hh.
  assert (Hgen : forall s1 s2, rtc (rom_step fh) s1 s2 -> rom_inv s1 -> rom_inv s2).
  { induction 1 as [|x y z Hxy _ IH]; intros Hx; [done|].
    destruct (rom_step_inv _ _ _ Hxy Hx) as [Hy _]. auto. }
  pose proof (Hgen _ _ H (rom_inv_init mc)) as Hi. unfold rom_result.
  destruct (decide (addr p ∈ addr <$> active s)) as [Hin|Hfr].
  - pose proof (fun i q => apply_rom_again fh s i q p Hi (rp_size p Hp)) as Hag.
    apply list_elem_of_fmap in Hin as Hq. destruct Hq as (q & Eq & [i Hq]%list_elem_of_lookup_1).
    destruct (Hag i q Hq (eq_sym Eq) (Hh Hin)) as (Hex & s' & E & _). rewrite Hex.
    exists s'. split; [done|]. split; [done|]. intros j r Hr Er. split; [done|].
    destruct (Hag j r Hr Er (Hh Hin)) as (_ & s2 & E2 & Ha2). rewrite E in E2. by injection E2 as <-.
  - assert (existsb (fun q => addr q =? addr p) (active s) = false) as ->.
    { apply not_true_iff_false. intros (q & Hq & E)%existsb_exists. apply Hfr.
      apply Z.eqb_eq in E. rewrite <- E. by apply list_elem_of_fmap_2, list_elem_of_In. }
    destruct (apply_rom_fresh fh s p Hi Hp Hfr) as (s' & E & Ha). exists s'. split; [done|]. split; [done|].
    intros i q Hq Eq. destruct Hfr. rewrite <- Eq. apply list_elem_of_fmap_2. by eapply list_elem_of_lookup_2.
Qed.

(** A second patch for the same instruction is refused, and removes the first. *)
Lemma rom_apply_outcome_witness :
  let s := snd (apply_patches 0x80000 boot_state [mk_patch 0xFF123404 0 0xE1A00000 4 0 true]) in
  let p := mk_patch 0xFF123404 0 0xE3A00000 4 0 true in
  exists s', apply_patches 0x80000 s [p] = (E_PATCH_ALREADY_PATCHED, [p], s') /\ active s' = [].
Proof.
  intros s p.
  destruct (rom_apply_outcome 0x80000 (mk_machine ∅ (mk_cache ∅ ∅) (mk_cache ∅ ∅) 0 0) s p) as (s' & E & _ & Hd).
  - apply rtc_once. apply rom_apply; [|by intros ?%elem_of_nil|done].
    split; (done || (split; [lia|done])).
  - split; (done || (split; [lia|done])).
  - assert (forallb (fun k => negb (ldr 4 (mach s) (hook_addr (hook_at 0x80000 k)) =? 0xFF123404)) (seq 0 MAX_FUNCTION_HOOKS) = true) as F
      by (vm_compute; reflexivity).
    rewrite forallb_forall in F. intros _ k Hk. apply Z.eqb_neq, negb_true_iff, F, in_seq. lia.
  - exists s'. destruct (Hd 0%nat (mk_patch 0xFF123404 0 0xE1A00000 4 0 true)) as [Er Ha]; [vm_compute; reflexivity|reflexivity|].
    split; [rewrite <- Er; exact E|]. rewrite Ha. vm_compute. reflexivity.
Defined.
