(* ===== verification/PatchHook.v ===== *)
(** * Function hooks: branches and relocated instructions

    What the words written by [patch_hook_function] mean to the processor: the
    range check decides exactly which branches can be encoded, and a PC-relative
    load still loads the same word after relocation. *)
From S2P Require Import Prelude CacheHacks Patch PatchRam.

(** ** ARM semantics of the encodings used *)

(** Target of a [B]/[BL] instruction at [pc]: sign-extended word offset. *)
Definition branch_target (pc instr : Z) : Z :=
  let imm := Z.land instr 0x00FFFFFF in
  u32 (pc + 8 + 4 * (if imm <? 2 ^ 23 then imm else imm - 2 ^ 24)).

(** Address of a PC-relative [LDR] with an immediate offset. *)
Definition pc_load_address (pc instr : Z) : Z :=
  let offset := Z.land instr 0xFFF in
  u32 (pc + 8 + if Z.land instr (Z.shiftl 1 23) =? 0 then - offset else offset).

(** ** Branches *)

Lemma b_instr_imm pc dest :
  Z.land (B_INSTR pc dest) 0x00FFFFFF = u32 (dest - pc - 8) / 4 mod 2 ^ 24.
Proof.
  unfold B_INSTR. rewrite Z.land_lor_distr_l, <- Z.land_assoc.
  change (Z.land 0xEA000000 0x00FFFFFF) with 0. change (Z.land 0x00FFFFFF 0x00FFFFFF) with (Z.ones 24).
  rewrite Z.lor_0_l, Z.land_ones, Z.shiftr_div_pow2 by lia. done.
Qed.

Lemma check_jump_target pc dest : 0 <= pc < 2 ^ 32 ->
  check_jump_range pc dest = (dest =? branch_target pc (B_INSTR pc dest)).
Proof.
  intros Hpc. unfold check_jump_range, branch_target. rewrite b_instr_imm.
  set (imm := _ mod 2 ^ 24). assert (Hi : 0 <= imm < 2 ^ 24) by (apply Z.mod_pos_bound; lia).
  clearbody imm. f_equal. rewrite !Z.shiftl_mul_pow2, Z.shiftr_div_pow2 by lia.
  assert (s32 (imm * 2 ^ 8) = 256 * (if imm <? 2 ^ 23 then imm else imm - 2 ^ 24)) as ->.
  { unfold s32. destruct (Z.ltb_spec imm (2 ^ 23)).
    - rewrite Z.mod_small; lia.
    - rewrite <- (Z.mod_unique_pos _ (2 ^ 32) 1 (imm * 2 ^ 8 - 2 ^ 31)) by lia. lia. }
  set (w := if imm <? _ then _ else _). unfold u32.
  replace ((pc + 8) * 2 ^ 6 + 256 * w) with (2 ^ 6 * (pc + 8 + 4 * w)) by lia.
  change (2 ^ 64) with (2 ^ 6 * 2 ^ 58). rewrite Z.mul_mod_distr_l by lia.
  rewrite Z.mul_comm, Z.div_mul by lia.
  change (2 ^ 58) with (2 ^ 32 * 2 ^ 26). apply Z.mod_mod_divide. by exists (2 ^ 26).
Qed.

(** The 24-bit field holds every word offset within the range. *)
Lemma branch_imm off : - 2 ^ 25 <= off < 2 ^ 25 -> off mod 4 = 0 ->
  off = 4 * (if u32 off / 4 mod 2 ^ 24 <? 2 ^ 23 then u32 off / 4 mod 2 ^ 24
             else u32 off / 4 mod 2 ^ 24 - 2 ^ 24).
Proof.
  intros Ho Hm. unfold u32. destruct (Z.ltb_spec off 0) as [Hn|Hn].
  - rewrite <- (Z.mod_unique_pos off (2 ^ 32) (-1) (off + 2 ^ 32)) by lia.
    rewrite <- (Z.mod_unique_pos _ (2 ^ 24) (2 ^ 6 - 1) (off / 4 + 2 ^ 24)) by (Z.div_mod_to_equations; lia).
    case_match; to_prop; Z.div_mod_to_equations; lia.
  - rewrite (Z.mod_small off), (Z.mod_small (off / 4)) by (Z.div_mod_to_equations; lia).
    case_match; to_prop; Z.div_mod_to_equations; lia.
Qed.

(** [check_jump_range] accepts a jump exactly when the branch instruction
    written for it reaches its destination, which is the case exactly for
    word offsets within 32MB of the pipeline address. *)
Theorem check_jump_range_spec pc dest : 0 <= pc < 2 ^ 32 -> 0 <= dest < 2 ^ 32 ->
  check_jump_range pc dest = (dest =? branch_target pc (B_INSTR pc dest)) /\
  (check_jump_range pc dest = true <->
   exists off, - 2 ^ 25 <= off < 2 ^ 25 /\ off mod 4 = 0 /\ dest = u32 (pc + 8 + off)).
Proof.
  intros Hpc Hd. split; [by apply check_jump_target|].
  rewrite check_jump_target, Z.eqb_eq by done. unfold branch_target. rewrite b_instr_imm. split.
  - set (imm := _ mod 2 ^ 24). assert (Hi : 0 <= imm < 2 ^ 24) by (apply Z.mod_pos_bound; lia).
    intros E. eexists. split; [|split; [|exact E]].
    + destruct (Z.ltb_spec imm (2 ^ 23)); lia.
    + rewrite Z.mul_comm. by apply Z.mod_mul.
  - intros (off & Ho & Hm & ->).
    assert (E : u32 (u32 (pc + 8 + off) - pc - 8) = u32 off).
    { unfold u32. rewrite <- Z.sub_add_distr, Zminus_mod_idemp_l. f_equal. lia. }
    rewrite E. f_equal. f_equal. by apply branch_imm.
Qed.

Lemma check_jump_range_spec_witness :
  check_jump_range 0xFF0C0000 0xFE0C0008 = true.
Proof.
  apply (check_jump_range_spec 0xFF0C0000 0xFE0C0008); [lia|lia|].
  exists (- 2 ^ 24). split; [lia|split; reflexivity].
Defined.

(** ** Relocated loads *)

Definition is_pc_load (instr : Z) : bool :=
  (Z.land instr LOAD_MASK =? LOAD_INSTR) && (Z.land (Z.shiftr instr 16) 0xF =? REG_PC).

(** The offset field and the sign bit of the rewritten load. *)
Lemma reloc_fields instr k : 0 <= k < 4096 ->
  let new_instr := Z.lor (Z.lor (Z.shiftl 1 23) (Z.land instr (Z.lxor 0xFFFFFFFF 0xFFF))) (Z.land k 0xFFF) in
  Z.land new_instr 0xFFF = k /\ Z.land new_instr (Z.shiftl 1 23) <> 0 /\
  Z.land new_instr LOAD_MASK = Z.land instr LOAD_MASK /\
  Z.land (Z.shiftr new_instr 12) 0xFF = Z.land (Z.shiftr instr 12) 0xFF.
Proof.
  intros Hk. cbv zeta. change 0xFFF with (Z.ones 12).
  assert (Ek : Z.land k (Z.ones 12) = k) by (rewrite Z.land_ones, Z.mod_small; lia). rewrite Ek.
  assert (Hhi : forall n, 12 <= n -> Z.testbit k n = false).
  { intros n Hn. rewrite <- Ek, Z.land_spec, Z.ones_spec_high, andb_false_r by lia. done. }
  assert (Hand : forall m, Z.land m (Z.ones 12) = 0 -> Z.land k m = 0).
  { intros m Hm. by rewrite <- Ek, <- Z.land_assoc, (Z.land_comm (Z.ones 12)), Hm, Z.land_0_r. }
  rewrite !Z.shiftr_lor, !Z.land_lor_distr_l, <- !Z.land_assoc. split_and!.
  - rewrite Ek. change (Z.land (Z.lxor 0xFFFFFFFF (Z.ones 12)) (Z.ones 12)) with 0.
    by rewrite Z.land_0_r.
  - intros E. apply (f_equal (fun x => Z.testbit x 23)) in E. rewrite !Z.lor_spec in E. done.
  - rewrite (Hand LOAD_MASK), Z.lor_0_r by done.
    change (Z.land (Z.lxor 0xFFFFFFFF (Z.ones 12)) LOAD_MASK) with LOAD_MASK. done.
  - assert (Z.shiftr k 12 = 0) as -> by (rewrite Z.shiftr_div_pow2 by lia; apply Z.div_small; lia).
    rewrite Z.land_0_l, Z.lor_0_r, Z.shiftr_land, <- Z.land_assoc. done.
Qed.

(** Relocating a PC-relative load keeps what it loads.  The word it used
    to read is copied to the fixup slot, and the rewritten instruction, with the
    same opcode class, base and destination register, reads that slot from its
    new address.  Every other instruction is moved unchanged, without a
    memory access. *)
Theorem reloc_instr_preserves_load mc pc new_pc fixup :
  rom_lines mc -> 0 <= fixup < 0x40000000 - 4 -> 0 <= new_pc -> 0 <= fixup - new_pc - 8 < 4096 ->
  let instr := ldr 4 mc pc in
  let '(new_instr, mc') := reloc_instr mc pc new_pc fixup in
  if is_pc_load instr then
    Z.land new_instr LOAD_MASK = LOAD_INSTR /\
    Z.land (Z.shiftr new_instr 12) 0xFF = Z.land (Z.shiftr instr 12) 0xFF /\
    pc_load_address new_pc new_instr = fixup /\
    ldr 4 mc' (pc_load_address new_pc new_instr) = ldr 4 mc (pc_load_address pc instr)
  else new_instr = instr /\ mc' = mc.
Proof.
  intros Hl Hf Hn Ho instr. unfold reloc_instr, is_pc_load. fold instr.
  destruct (Z.eqb_spec (Z.land instr LOAD_MASK) LOAD_INSTR) as [El|]; [|done].
  destruct (Z.eqb_spec (Z.land (Z.shiftr instr 16) 0xF) REG_PC) as [Er|]; [|done].
  cbn [negb andb].
  assert (s32 (fixup - new_pc - 8) = fixup - new_pc - 8) as ->.
  { unfold s32. rewrite Z.mod_small; lia. }
  destruct (reloc_fields instr (fixup - new_pc - 8) Ho) as (Eoff & Eu & Eop & Erd).
  assert (Ea : pc_load_address new_pc
    (Z.lor (Z.lor (Z.shiftl 1 23) (Z.land instr (Z.lxor 0xFFFFFFFF 0xFFF)))
       (Z.land (fixup - new_pc - 8) 0xFFF)) = fixup).
  { unfold pc_load_address. rewrite Eoff, (proj2 (Z.eqb_neq _ _) Eu). rewrite u32_small; lia. }
  split_and!; [by rewrite Eop|done|done|]. rewrite Ea. unfold str.
  rewrite ram_ldr by (done || lia). cbn [main_mem set_mem]. rewrite ram_phys, ld32_st32_same by lia.
  rewrite u32_small by apply (ldr_range 4). f_equal. unfold pc_load_address. f_equal. case_match; lia.
Qed.

Lemma reloc_instr_preserves_load_witness :
  let mc := mk_machine (st32 (st32 ∅ 0x1000 0xE59F1010) 0x1018 0xCAFE) (mk_cache ∅ ∅) (mk_cache ∅ ∅) 0 0 in
  let '(new_instr, mc') := reloc_instr (cache_unlock mc) 0x1000 0x8002C 0x80038 in
  ldr 4 mc' (pc_load_address 0x8002C new_instr) = 0xCAFE.
Proof.
  pose proof (reloc_instr_preserves_load
    (cache_unlock (mk_machine (st32 (st32 ∅ 0x1000 0xE59F1010) 0x1018 0xCAFE) (mk_cache ∅ ∅) (mk_cache ∅ ∅) 0 0))
    0x1000 0x8002C 0x80038 (unlock_rom_lines _) ltac:(lia) ltac:(lia) ltac:(lia)) as H.
  cbv zeta in *. revert H. destruct (reloc_instr _ _ _ _) as [ni mc'].
  match goal with |- context [is_pc_load ?x] =>
    replace (is_pc_load x) with true by (vm_compute; reflexivity) end.
  intros (_ & _ & _ & H). rewrite H. vm_compute. reflexivity.
Defined.

(** the jump back from a hook is checked from the wrong word.  The range
    check uses the address of the relocated instruction, the branch sits one
    word later, so a hook is accepted whose jump back does not return to the
    hooked function. *)
Theorem hook_jump_back_out_of_range :
  let hook := 0x2000000 in let a := 0x0000030 in
  check_jump_range (hook_reloc_insn hook) (a + 4) = true /\
  check_jump_range a hook = true /\
  branch_target (hook_jump_back hook) (B_INSTR (hook_jump_back hook) (a + 4)) = 0x4000034.
Proof. vm_compute. auto. Qed.

(** ** Hooks of the MMU cameras *)

(** Base address of a Thumb literal load at [a]. *)
Definition thumb_pc_base (a : Z) : Z := a + 4 - (a + 4) mod 4.

Lemma u8_byte v k : 0 <= k -> u8 (Z.land (Z.shiftr v k) 0xff) = v / 2 ^ k mod 256.
Proof.
  intros Hk. change 0xff with (Z.ones 8). rewrite Z.land_ones, Z.shiftr_div_pow2 by lia.
  unfold u8. apply Z.mod_mod. lia.
Qed.

Lemma land_even2 k : Z.land (2 * k) 2 = 2 * (k mod 2).
Proof.
  change 2 with (Z.shiftl 1 1) at 2.
  replace (2 * k) with (Z.shiftl k 1) by (rewrite Z.shiftl_mul_pow2; lia).
  rewrite <- Z.shiftl_land, Z.shiftl_mul_pow2 by lia.
  change (Z.land k 1) with (Z.land k (Z.ones 1)). rewrite Z.land_ones by lia.
  change (2 ^ 1) with 2. lia.
Qed.

(** the eight hook bytes for a Thumb function, written at any even
    address, load the program counter from the word that follows the
    instruction, and that word is the hook target. *)
Theorem convert_f_patch_loads_target m f out :
  Z.even (patch_addr f) = true -> out <> 0 ->
  let '(err, p, m') := convert_f_patch_to_patch m (Some f) true out in
  err = 0 /\ (size <$> p) = Some 8 /\ (new_value <$> p) = Some out /\
  thumb_pc_base (patch_addr f) + rd8 m' (out + 2) = patch_addr f + 4 /\
  ld32 m' (out + 4) = u32 (target_function_addr f).
Proof.
  intros He Ho. unfold convert_f_patch_to_patch. rewrite (proj2 (Z.eqb_neq _ _) Ho).
  cbn [negb orb]. split_and!; try done; unfold hook_bytes; simpl.
  - rewrite !rd8_wr8. repeat (rewrite decide_False by lia). rewrite decide_True by lia.
    unfold thumb_pc_base. apply Z.even_spec in He as [k Hk]. rewrite Hk, land_even2.
    destruct (Z.eqb_spec (2 * (k mod 2)) 0); [change (u8 0) with 0|change (u8 2) with 2];
      Z.div_mod_to_equations; lia.
  - unfold ld. rewrite <- !Z.add_assoc. rewrite !rd8_wr8.
    repeat first [rewrite decide_False by lia | rewrite decide_True by lia].
    pose proof (u8_byte (target_function_addr f) 0 ltac:(lia)) as E0. rewrite Z.shiftr_0_r in E0.
    rewrite !u8_idemp, E0, !u8_byte by lia. unfold u32. change (2 ^ 0) with 1. rewrite Z.div_1_r.
    Z.div_mod_to_equations. lia.
Qed.

Lemma convert_f_patch_loads_target_witness :
  let '(_, _, m') := convert_f_patch_to_patch ∅ (Some (mk_function_hook_patch 0xE0123456 0 0x1CF001 0)) true 0x1000 in
  ld32 m' 0x1004 = 0x1CF001.
Proof.
  pose proof (convert_f_patch_loads_target ∅ (mk_function_hook_patch 0xE0123456 0 0x1CF001 0) 0x1000
    eq_refl ltac:(lia)) as H.
  destruct (convert_f_patch_to_patch _ _ _ _) as [[e p] m']. destruct H as (_ & _ & _ & _ & H). exact H.
Defined.
