(* ===== verification/Mmu.v ===== *)
(** * MMU tables of the DIGIC 7/8/X cameras ([src/src/mmu_utils.c])

    The translation tables that Magic Lantern edits to redirect ROM pages to
    RAM copies.  The first part is the hardware the code talks to, after the
    ARMv7 short-descriptor format the comments of [mmu_utils.c] describe: a
    table walk, a translation look-aside buffer per core, and byte access
    through both.  The second part has one definition per function of
    [mmu_utils.c].

    Tables live in RAM, which Canon's tables map one-to-one: a store to a table
    is a store to physical memory.  Only ROM addresses are translated; what the
    code reads through a possibly remapped address is read by a load function
    handed to the definition ([rd]).  Data and instruction caches are not
    modelled, so [dcache_clean] and the like have no effect. *)
From S2P Require Import Prelude.

(** ** Memory blocks *)

(** [memcpy] into physical memory from a list of bytes. *)
Fixpoint wrs (m : memory) (a : Z) (l : list Z) : memory :=
  match l with
  | [] => m
  | x :: l => wr8 (wrs m (a + 1) l) a x
  end.

(** [n] bytes from address [a] of a view [rd] of memory. *)
Definition rds (rd : Z -> Z) (a : Z) (n : nat) : list Z :=
  map (fun i => rd (a + Z.of_nat i)) (seq 0 n).

(** A little-endian load of [n] bytes through a view. *)
Fixpoint ldv (n : nat) (rd : Z -> Z) (a : Z) : Z :=
  match n with
  | O => 0
  | S n => rd a + 256 * ldv n rd (a + 1)
  end.

(** ** The hardware *)

Definition ROM_START : Z := 0xE0000000.

(** Physical address of a large-page or small-page descriptor. *)
Definition l2_page (e va : Z) : option Z :=
  if Z.land e 3 =? 1 then Some (Z.land e 0xffff0000 + Z.land va 0xffff)
  else if Z.testbit e 1 then Some (Z.land e 0xfffff000 + Z.land va 0xfff)
  else None.

(** Table walk for addresses of 32 MB upwards, from the main L1 table.  A
    supersection has address bits 32 to 35 at 20 and bits 36 to 39 at 5. *)
Definition walk (m : memory) (l1 va : Z) : option Z :=
  let e := ld32 m (l1 + 4 * Z.shiftr va 20) in
  if Z.land e 3 =? 2 then
    if Z.testbit e 18
    then Some (Z.land e 0xff000000 + Z.land va 0xffffff
               + 2 ^ 32 * Z.land (Z.shiftr e 20) 0xf + 2 ^ 36 * Z.land (Z.shiftr e 5) 0xf)
    else Some (Z.land e 0xfff00000 + Z.land va 0xfffff)
  else if Z.land e 3 =? 1 then
    l2_page (ld32 m (Z.land e 0xfffffc00 + 4 * Z.land (Z.shiftr va 12) 0xff)) va
  else None.

(** One core: its table registers and the translations it has cached, at the
    granularity of 4 kB. *)
Record core := mk_core {
  ttbr0 : Z;
  ttbr1 : Z;
  tlb : gmap Z Z;
}.

Definition translate (c : core) (m : memory) (va : Z) : option Z :=
  if va <? ROM_START then Some va
  else match tlb c !! Z.shiftr va 12 with
       | Some f => Some (Z.shiftl f 12 + Z.land va 0xfff)
       | None => walk m (ttbr1 c) va
       end.

(** A core may cache the translation of any page at any time. *)
Definition tlb_fill (c : core) (m : memory) (va : Z) : core :=
  match translate c m va with
  | Some pa => mk_core (ttbr0 c) (ttbr1 c) (<[Z.shiftr va 12 := Z.shiftr pa 12]> (tlb c))
  | None => c
  end.

(** The byte a core reads; an address without translation reads as 0 (the
    camera takes an exception). *)
Definition view (c : core) (m : memory) (va : Z) : Z :=
  match translate c m va with
  | Some pa => rd8 m pa
  | None => 0
  end.

(** A byte a core writes.  ROM itself cannot be written. *)
Definition vwr8 (c : core) (m : memory) (va v : Z) : memory :=
  match translate c m va with
  | Some pa => if pa <? ROM_START then wr8 m pa v else m
  | None => m
  end.

Fixpoint vwrs (c : core) (m : memory) (a : Z) (l : list Z) : memory :=
  match l with
  | [] => m
  | x :: l => vwrs c (vwr8 c m a x) (a + 1) l
  end.

(** The bytes of a 32-bit word. *)
Definition word_bytes (v : Z) : list Z :=
  [u8 v; u8 (v / 256); u8 (v / 65536); u8 (v / 16777216)].

(** ** [mmu_utils.h] *)

Definition L2_LARGEPAGE_MEMTYPE_MASK : Z := 0x700c.
Definition MMU_L1_TABLE_SIZE : Z := 0x4900.
Definition MMU_L1_TABLE_ALIGN : Z := 0x4000.
Definition MMU_L2_TABLE_SIZE : Z := 0x400.
Definition MMU_PAGE_SIZE : Z := 0x10000.
Definition MMU_SECTION_SIZE : Z := 0x100000.

Definition ROUND_UP (x s : Z) : Z := u32 (u32 (u32 (x + s) - 1) / s * s).
Definition ROUND_DOWN (x s : Z) : Z := Z.land x (u32 (Z.lnot (s - 1))).

(** ** [mmu_utils.c] *)

(** [memcpy_dryos] reads the source through the core's view. *)
Definition copy_mmu_tables_ex (rd : Z -> Z) (m : memory) (dst src : Z) (count : nat) : Z * memory :=
  if negb (Z.land dst 0x3fff =? 0) then (0xffffffff, m)
  else
    let m := wrs m dst (rds rd src count) in
    let m := st32 m (dst + 0x4800) (Z.lor (u32 (dst + 0x4000)) (Z.land (ld32 m (dst + 0x4800)) 0x3ff)) in
    let m := st32 m (dst + 0x4880) (Z.lor (u32 (dst + 0x4400)) (Z.land (ld32 m (dst + 0x4880)) 0x3ff)) in
    (0, m).

Definition get_l2_largepage_flags_from_l1_section (rd : Z -> Z) (addr l1tableaddr : Z) : Z :=
  if negb (Z.land l1tableaddr 0x3fff =? 0) then 0xffffffff
  else
    let addr := Z.land addr 0xfff00000 in
    if addr <? 0x2000000 then 0xffffffff
    else
      let sat := Z.shiftl (Z.shiftr addr 20) 2 in
      let val := ldv 4 rd (l1tableaddr + sat) in
      if negb (Z.land val 3 =? 2) then 0xffffffff
      else
        Z.lor (Z.lor (Z.lor (Z.lor (Z.shiftr (Z.land val 0x38000) 6)
                                   (Z.land val 0x7000))
                            (Z.shiftl (Z.land val 0x10) 11))
                     (Z.land val 0xc))
              (Z.shiftr (Z.land val 0xc00) 6).

(** The loop of [split_l1_supersection] with [cnt] entries to go. *)
Fixpoint split_loop (m : memory) (at_ : Z) (cnt : nat) (n sect : Z) : Z * memory :=
  match cnt with
  | O => (0, m)
  | S cnt =>
      let entry := at_ + n * 4 in
      let val := ld32 m entry in
      if negb (Z.land val 0x40003 =? 0x40002) then (-2, m)
      else split_loop (st32 m entry (Z.lor (Z.land val 0xfffbffff) sect)) at_ cnt (n + 1)
                      (u32 (sect + MMU_SECTION_SIZE))
  end.

Definition split_l1_supersection (m : memory) (addr l1tableaddr : Z) : Z * memory :=
  if negb (Z.land l1tableaddr 0x3fff =? 0) then (-1, m)
  else
    let addr := Z.land addr 0xff000000 in
    if addr <? 0x2000000 then (-3, m)
    else split_loop m (l1tableaddr + Z.shiftl (Z.shiftr addr 24) 6) 16 0 0.

Definition assign_l2_table_to_l1_section (m : memory) (addr l1tableaddr l2tableaddr : Z) : Z * memory :=
  if negb (Z.land l1tableaddr 0x3fff =? 0) || negb (Z.land l2tableaddr 0x3ff =? 0) then (-1, m)
  else
    let addr := Z.land addr 0xfff00000 in
    if addr <? 0x2000000 then (-1, m)
    else
      let entry := l1tableaddr + Z.shiftl (Z.shiftr addr 20) 2 in
      let val := ld32 m entry in
      if Z.land val 0x40003 =? 0x40002 then (-2, m)
      else (0, st32 m entry (Z.lor l2tableaddr 1)).

(** [for (m = 0; m < 16; m++) ((unsigned * )l2tableaddr)[m] = e], the inner
    loop of the two functions below. *)
Fixpoint put_entries (m : memory) (l2tableaddr : Z) (cnt : nat) (i e : Z) : memory :=
  match cnt with
  | O => m
  | S cnt => put_entries (st32 m (l2tableaddr + i * 4) e) l2tableaddr cnt (i + 1) e
  end.

Definition largepage_flags (flags : Z) : Z := Z.lor (Z.land flags 0xfffffffc) 1.

Fixpoint create_loop (m : memory) (addr l2tableaddr flags : Z) (cnt : nat) (n : Z) : memory :=
  match cnt with
  | O => m
  | S cnt =>
      create_loop (put_entries m l2tableaddr 16 0 (Z.lor (u32 (addr + n)) flags))
                  addr (l2tableaddr + 0x40) flags cnt (n + MMU_PAGE_SIZE)
  end.

Definition create_l2_table (m : memory) (addr l2tableaddr flags : Z) : Z * memory :=
  if negb (Z.land l2tableaddr 0x3ff =? 0) then (-1, m)
  else (0, create_loop m (Z.land addr 0xfff00000) l2tableaddr (largepage_flags flags) 16 0).

Definition replace_large_page_in_l2_table (m : memory) (addr replacement l2tableaddr flags : Z)
  : Z * memory :=
  if negb (Z.land l2tableaddr 0x3ff =? 0) || negb (Z.land addr 0xffff =? 0)
     || negb (Z.land replacement 0xffff =? 0) then (-1, m)
  else
    let flags := largepage_flags flags in
    let addr := Z.land (Z.shiftr addr 16) 0xf in
    (0, put_entries m (l2tableaddr + addr * 0x40) 16 0 (Z.lor replacement flags)).

Definition replace_rom_page (m : memory) (romaddr ramaddr l2addr flags : Z) : memory :=
  snd (replace_large_page_in_l2_table m romaddr ramaddr l2addr flags).

Definition replace_section_with_l2_table (m : memory) (romaddr l1addr l2addr flags : Z) : memory :=
  let m := snd (create_l2_table m romaddr l2addr flags) in
  snd (assign_l2_table_to_l1_section m romaddr l1addr l2addr).
