(* ===== verification/MmuTables.v ===== *)
(** * Lemmas on translation tables

    Which words each operation of [Mmu] changes and to what, and how the table
    walk reads them: flat (super)sections, and L2 tables of large pages. *)
From S2P Require Import Prelude Mmu.

(** ** Masks as arithmetic *)

Lemma land_hi k x : 0 <= k <= 32 -> 0 <= x < 2 ^ 32 ->
  Z.land x (2 ^ 32 - 2 ^ k) = x - x mod 2 ^ k.
Proof.
  intros Hk Hx. transitivity (Z.ldiff x (Z.ones k)).
  - replace (2 ^ 32 - 2 ^ k) with (Z.ldiff (Z.ones 32) (Z.ones k)).
    + rewrite !Z.ldiff_land, Z.land_assoc, Z.land_ones, Z.mod_small by lia. done.
    + rewrite Z.ldiff_ones_r by lia. rewrite Z.ones_equiv, Z.shiftl_mul_pow2, Z.shiftr_div_pow2 by lia.
      replace (2 ^ 32) with (2 ^ (32 - k) * 2 ^ k) by (rewrite <- Z.pow_add_r by lia; f_equal; lia).
      replace (Z.pred (2 ^ (32 - k) * 2 ^ k)) with ((2 ^ (32 - k) - 1) * 2 ^ k + (2 ^ k - 1)) by lia.
      rewrite Z.div_add_l, Z.div_small by lia. lia.
  - rewrite Z.ldiff_ones_r, Z.shiftl_mul_pow2, Z.shiftr_div_pow2 by lia.
    pose proof (Z.div_mod x (2 ^ k)). lia.
Qed.

Lemma land_lo k x : 0 <= k -> Z.land x (2 ^ k - 1) = x mod 2 ^ k.
Proof. intros Hk. rewrite <- Z.land_ones, Z.ones_equiv by done. by rewrite Z.sub_1_r. Qed.

Lemma lor_aligned k a b : 0 <= k -> a mod 2 ^ k = 0 -> 0 <= b < 2 ^ k -> Z.lor a b = a + b.
Proof.
  intros Hk Ha Hb. rewrite (Z.div_mod a (2 ^ k)), Ha, Z.add_0_r, Z.mul_comm by lia. by apply lor_add.
Qed.

(** ** Blocks *)

Lemma rd8_wrs m a l b :
  rd8 (wrs m a l) b =
  if decide (a <= b < a + Z.of_nat (length l)) then u8 (l !!! Z.to_nat (b - a)) else rd8 m b.
Proof.
  revert a. induction l as [|x l IH]; intros a; simpl.
  { rewrite decide_False; [done|lia]. }
  rewrite rd8_wr8. destruct (decide (a = b)) as [<-|Hne].
  - rewrite decide_True by lia. by rewrite Z.sub_diag.
  - rewrite IH. destruct (decide (a + 1 <= b < a + 1 + Z.of_nat (length l))).
    + rewrite decide_True by lia. replace (Z.to_nat (b - a)) with (S (Z.to_nat (b - (a + 1)))) by lia. done.
    + rewrite decide_False by lia. done.
Qed.

Lemma length_rds rd a n : length (rds rd a n) = n.
Proof. unfold rds. by rewrite length_map, length_seq. Qed.

Lemma rds_lookup rd a n i : (i < n)%nat -> rds rd a n !!! i = rd (a + Z.of_nat i).
Proof.
  intros Hi. unfold rds. apply list_lookup_total_correct. rewrite list_lookup_fmap.
  by rewrite lookup_seq_lt.
Qed.

Lemma rds_ext rd rd' a n :
  (forall b, a <= b < a + Z.of_nat n -> rd b = rd' b) -> rds rd a n = rds rd' a n.
Proof. intros H. unfold rds. apply map_ext_in. intros i Hi%in_seq. apply H. lia. Qed.

Lemma ldv_ld n m a : ldv n (rd8 m) a = ld n m a.
Proof. revert a. induction n as [|n IH]; intros a; [done|]. cbn [ldv ld]. by rewrite IH. Qed.

Lemma ldv_ext n rd rd' a :
  (forall b, a <= b < a + Z.of_nat n -> rd b = rd' b) -> ldv n rd a = ldv n rd' a.
Proof.
  revert a. induction n as [|n IH]; intros a H; [done|]. cbn [ldv].
  rewrite H by lia. f_equal. f_equal. apply IH. intros b Hb. apply H. lia.
Qed.

Lemma wrs_word m a v : mem_eq (wrs m a (word_bytes v)) (st32 m a v).
Proof.
  intros b. rewrite rd8_wrs, rd8_st. change (Z.of_nat (length (word_bytes v))) with 4. change (Z.of_nat 4) with 4.
  case_decide as Hb; [|done].
  assert (b - a = 0 \/ b - a = 1 \/ b - a = 2 \/ b - a = 3) as [E|[E|[E|E]]] by lia; rewrite E;
    rewrite <- (u8_idemp (v / _)), ?Z.pow_0_r, ?Z.div_1_r; reflexivity.
Qed.

(** ** What the operations change *)

(** [m'] differs from [m] at most on the addresses [lo] to [hi - 1]. *)
Definition frame (lo hi : Z) (m m' : memory) : Prop :=
  forall b, b < lo \/ hi <= b -> rd8 m' b = rd8 m b.

Lemma frame_refl lo hi m : frame lo hi m m.
Proof. by intros b _. Qed.

Lemma frame_compose lo hi m1 m2 m3 : frame lo hi m1 m2 -> frame lo hi m2 m3 -> frame lo hi m1 m3.
Proof. intros H1 H2 b Hb. rewrite H2, H1; done. Qed.

Lemma frame_widen lo hi lo' hi' m m' : lo' <= lo -> hi <= hi' -> frame lo hi m m' -> frame lo' hi' m m'.
Proof. intros H1 H2 H b Hb. apply H. lia. Qed.

Lemma frame_ld lo hi m m' n a :
  frame lo hi m m' -> a + Z.of_nat n <= lo \/ hi <= a -> ld n m' a = ld n m a.
Proof. intros H Ha. apply ld_ext. intros b Hb. apply H. lia. Qed.

Lemma st_frame n m a v : frame a (a + Z.of_nat n) m (st n m a v).
Proof. intros b Hb. apply rd8_st_out. lia. Qed.

Lemma wrs_frame m a l : frame a (a + Z.of_nat (length l)) m (wrs m a l).
Proof. intros b Hb. rewrite rd8_wrs, decide_False by lia. done. Qed.

#[export] Hint Resolve frame_refl st_frame wrs_frame : ml_mem.

Lemma put_entries_frame m t cnt i e :
  frame (t + i * 4) (t + (i + Z.of_nat cnt) * 4) m (put_entries m t cnt i e).
Proof.
  revert m i. induction cnt as [|cnt IH]; intros m i; [apply frame_refl|]. cbn [put_entries].
  eapply frame_compose; [|eapply frame_widen; [| |apply IH]; lia].
  eapply frame_widen; [| |apply (st_frame 4)]; lia.
Qed.

Lemma put_entries_ld m t cnt i e j :
  i <= j < i + Z.of_nat cnt -> ld32 (put_entries m t cnt i e) (t + j * 4) = u32 e.
Proof.
  revert m i. induction cnt as [|cnt IH]; intros m i Hj; [lia|]. cbn [put_entries].
  destruct (decide (i = j)) as [->|Hne]; [|apply IH; lia].
  rewrite (frame_ld _ _ _ _ 4 _ (put_entries_frame _ _ _ _ _)) by lia.
  apply ld32_st32_same.
Qed.

Lemma create_loop_frame m addr t flags cnt n :
  frame t (t + 0x40 * Z.of_nat cnt) m (create_loop m addr t flags cnt n).
Proof.
  revert m t n. induction cnt as [|cnt IH]; intros m t n; [apply frame_refl|]. cbn [create_loop].
  eapply frame_compose; [|eapply frame_widen; [| |apply IH]; lia].
  eapply frame_widen; [| |apply put_entries_frame]; lia.
Qed.

Lemma create_loop_ld m addr t flags cnt n p k :
  0 <= p < Z.of_nat cnt -> 0 <= k < 16 ->
  ld32 (create_loop m addr t flags cnt n) (t + (p * 16 + k) * 4)
  = u32 (Z.lor (u32 (addr + (n + p * MMU_PAGE_SIZE))) flags).
Proof.
  revert m t n p. induction cnt as [|cnt IH]; intros m t n p Hp Hk; [lia|]. cbn [create_loop].
  destruct (decide (p = 0)) as [->|Hne].
  - rewrite (frame_ld _ _ _ _ 4 _ (create_loop_frame _ _ _ _ _ _)) by lia.
    replace (t + (0 * 16 + k) * 4) with (t + k * 4) by lia.
    rewrite put_entries_ld by lia. by rewrite Z.mul_0_l, Z.add_0_r.
  - replace (t + (p * 16 + k) * 4) with (t + 0x40 + ((p - 1) * 16 + k) * 4) by lia.
    rewrite IH by lia. do 3 f_equal. unfold MMU_PAGE_SIZE. lia.
Qed.

(** ** Descriptors and the walk *)

(** The L1 descriptors that map section [s] (a megabyte) to itself. *)
Definition is_super (e : Z) : bool := Z.land e 0x40003 =? 0x40002.

Definition flat_super (e s : Z) : bool :=
  is_super e && (Z.land e 0xfff00000 =? s / 16 * 16 * 2 ^ 20) && (Z.land e 0x1e0 =? 0).

Definition flat_section (e s : Z) : bool :=
  (Z.land e 0x40003 =? 2) && (Z.land e 0xfff00000 =? s * 2 ^ 20).

Lemma flat_super_inv e s : flat_super e s = true ->
  Z.land e 0x40003 = 0x40002 /\ Z.land e 0xfff00000 = s / 16 * 16 * 2 ^ 20 /\ Z.land e 0x1e0 = 0.
Proof. unfold flat_super, is_super. rewrite !andb_true_iff, !Z.eqb_eq. tauto. Qed.

Lemma flat_section_inv e s : flat_section e s = true <->
  Z.land e 0x40003 = 2 /\ Z.land e 0xfff00000 = s * 2 ^ 20.
Proof. unfold flat_section. by rewrite andb_true_iff, !Z.eqb_eq. Qed.

Lemma land_u32 x b : 0 <= b < 2 ^ 32 -> Z.land (u32 x) b = Z.land x b.
Proof.
  intros Hb. unfold u32. rewrite <- Z.land_ones, <- Z.land_assoc by lia. f_equal.
  rewrite Z.land_comm, Z.land_ones, Z.mod_small by lia. done.
Qed.

Lemma land_sub e a b : Z.land a b = b -> Z.land (Z.land e a) b = Z.land e b.
Proof. intros H. by rewrite <- Z.land_assoc, H. Qed.

Lemma land_zero_mult n k b : 0 <= k -> 0 <= b < 2 ^ k -> Z.land (n * 2 ^ k) b = 0.
Proof.
  intros Hk Hb. pose proof (Z.add_lor_land (n * 2 ^ k) b) as H. rewrite lor_add in H by done. lia.
Qed.

Lemma walk_super m l1 va :
  0 <= va < 2 ^ 32 -> flat_super (ld32 m (l1 + 4 * (va / 2 ^ 20))) (va / 2 ^ 20) = true ->
  walk m l1 va = Some va.
Proof.
  intros Hva. unfold walk. rewrite Z.shiftr_div_pow2 by lia.
  pose proof (ld32_range m (l1 + 4 * (va / 2 ^ 20))) as He.
  set (e := ld32 m _) in *. intros (H1 & H2 & H3)%flat_super_inv.
  rewrite <- (land_sub e 0x40003 3), H1 by done. change (Z.land 0x40002 3 =? 2) with true. cbv iota.
  replace (Z.testbit e 18) with (Z.testbit (Z.land e 0x40003) 18)
    by (rewrite Z.land_spec; apply andb_true_r). rewrite H1. change (Z.testbit 0x40002 18) with true. cbv iota.
  pose proof H2 as H2'. rewrite (land_hi 20) in H2' by lia.
  assert (Z.land e 0xff000000 = va / 2 ^ 20 / 16 * 16 * 2 ^ 20) as ->.
  { rewrite <- (land_sub e 0xfff00000), H2 by done. rewrite (land_hi 24); [|lia|];
      Z.div_mod_to_equations; lia. }
  assert (Z.land (Z.shiftr e 20) 0xf = 0) as ->.
  { rewrite (land_lo 4), Z.shiftr_div_pow2 by lia. Z.div_mod_to_equations; lia. }
  rewrite (land_lo 24) by lia.
  replace (Z.land (Z.shiftr e 5) 15) with (Z.shiftr (Z.land e 0x1e0) 5) by (by rewrite Z.shiftr_land).
  rewrite H3. f_equal. change (Z.shiftr 0 5) with 0. Z.div_mod_to_equations; lia.
Qed.

Lemma walk_section m l1 va :
  0 <= va < 2 ^ 32 -> flat_section (ld32 m (l1 + 4 * (va / 2 ^ 20))) (va / 2 ^ 20) = true ->
  walk m l1 va = Some va.
Proof.
  intros Hva. unfold walk. rewrite Z.shiftr_div_pow2 by lia.
  set (e := ld32 m _) in *. intros [H1 H2]%flat_section_inv.
  rewrite <- (land_sub e 0x40003 3), H1 by done. change (Z.land 2 3 =? 2) with true. cbv iota.
  replace (Z.testbit e 18) with (Z.testbit (Z.land e 0x40003) 18)
    by (rewrite Z.land_spec; apply andb_true_r). rewrite H1. change (Z.testbit 2 18) with false. cbv iota.
  rewrite H2, (land_lo 20) by lia. f_equal. Z.div_mod_to_equations; lia.
Qed.

(** A large-page descriptor: base and attribute bits. *)
Definition largepage (base f : Z) : Prop :=
  0 <= base < 2 ^ 32 /\ base mod 2 ^ 16 = 0 /\ 0 <= f < 2 ^ 16 /\ f mod 4 = 1.

Lemma walk_l2 m l1 va l2 base f :
  0 <= va < 2 ^ 32 -> 0 <= l2 < 2 ^ 32 -> l2 mod 2 ^ 10 = 0 -> largepage base f ->
  ld32 m (l1 + 4 * (va / 2 ^ 20)) = l2 + 1 ->
  ld32 m (l2 + ((va / 2 ^ 16) mod 16 * 16 + (va / 2 ^ 12) mod 16) * 4) = base + f ->
  walk m l1 va = Some (base + va mod 2 ^ 16).
Proof.
  intros Hva Hl2 Hal (Hb & Hbal & Hf & Hf4) He He2. unfold walk. rewrite Z.shiftr_div_pow2, He by lia.
  rewrite (land_lo 2), (land_hi 10) by (Z.div_mod_to_equations; lia).
  replace ((l2 + 1) mod 2 ^ 2) with 1 by (Z.div_mod_to_equations; lia). change (1 =? 2) with false. change (1 =? 1) with true. cbv iota.
  rewrite (land_lo 8), Z.shiftr_div_pow2 by lia.
  replace (l2 + 1 - (l2 + 1) mod 2 ^ 10 + 4 * ((va / 2 ^ 12) mod 2 ^ 8))
    with (l2 + ((va / 2 ^ 16) mod 16 * 16 + (va / 2 ^ 12) mod 16) * 4)
    by (Z.div_mod_to_equations; lia).
  rewrite He2. unfold l2_page. rewrite (land_lo 2), (land_hi 16), (land_lo 16) by (Z.div_mod_to_equations; lia).
  replace ((base + f) mod 2 ^ 2) with 1 by (Z.div_mod_to_equations; lia). change (1 =? 1) with true. cbv iota.
  f_equal. Z.div_mod_to_equations; lia.
Qed.

(** Splitting turns a flat supersection descriptor into a flat section. *)
Lemma split_entry e s :
  0 <= s < 2 ^ 12 -> flat_super e s = true ->
  flat_section (u32 (Z.lor (Z.land e 0xfffbffff) (s mod 16 * 2 ^ 20))) s = true.
Proof.
  intros Hs (H1 & H2 & _)%flat_super_inv. apply flat_section_inv.
  rewrite !land_u32, !Z.land_lor_distr_l, (land_zero_mult _ 20), Z.lor_0_r by lia. split.
  - rewrite <- Z.land_assoc. change (Z.land 0xfffbffff 0x40003) with 3.
    rewrite <- (land_sub e 0x40003 3), H1 by done. done.
  - rewrite <- Z.land_assoc. change (Z.land 0xfffbffff 0xfff00000) with 0xfff00000. rewrite H2.
    rewrite (land_hi 20) by (Z.div_mod_to_equations; lia).
    rewrite (lor_aligned 24) by (Z.div_mod_to_equations; lia). Z.div_mod_to_equations; lia.
Qed.

Lemma split_loop_super m t cnt n :
  0 <= n -> n + Z.of_nat cnt = 16 ->
  (forall j, n <= j < 16 -> is_super (ld32 m (t + j * 4)) = true) ->
  exists m', split_loop m t cnt n (n * 2 ^ 20) = (0, m') /\
    frame (t + n * 4) (t + 16 * 4) m m' /\
    (forall j, n <= j < 16 ->
       ld32 m' (t + j * 4) = u32 (Z.lor (Z.land (ld32 m (t + j * 4)) 0xfffbffff) (j * 2 ^ 20))).
Proof.
  revert m n. induction cnt as [|cnt IH]; intros m n Hn Hc Hs.
  { exists m. split_and!; [done|apply frame_refl|lia]. }
  cbn [split_loop]. pose proof (Hs n ltac:(lia)) as Hn0. unfold is_super in Hn0. rewrite Hn0. cbn [negb].
  rewrite u32_small by (unfold MMU_SECTION_SIZE; lia).
  replace (n * 2 ^ 20 + MMU_SECTION_SIZE) with ((n + 1) * 2 ^ 20) by (unfold MMU_SECTION_SIZE; lia).
  set (m1 := st32 m _ _).
  assert (Hout : forall j, j <> n -> ld32 m1 (t + j * 4) = ld32 m (t + j * 4))
    by (intros j Hj; apply ld_st_out; lia).
  destruct (IH m1 (n + 1)) as (m' & -> & Hf & Hv); [lia|lia|intros j Hj; rewrite Hout by lia; apply Hs; lia|].
  exists m'. split_and!; [done|..].
  - eapply frame_compose; [|eapply frame_widen; [| |exact Hf]; lia].
    eapply frame_widen; [| |apply (st_frame 4)]; lia.
  - intros j Hj. destruct (decide (j = n)) as [->|Hne].
    + rewrite (frame_ld _ _ _ _ 4 _ Hf) by lia. apply ld32_st32_same.
    + rewrite Hv, Hout by lia. done.
Qed.

(** [split_l1_supersection] as seen by its callers: the sixteen entries of a
    group of supersections become sections, any other group is left alone. *)
Lemma split_super m addr l1 :
  0 <= addr < 2 ^ 32 -> 0x2000000 <= addr -> l1 mod 2 ^ 14 = 0 ->
  (forall n, 0 <= n < 16 -> is_super (ld32 m (l1 + (addr / 2 ^ 24 * 16 + n) * 4)) = true) ->
  exists m', split_l1_supersection m addr l1 = (0, m') /\
    frame (l1 + addr / 2 ^ 24 * 64) (l1 + addr / 2 ^ 24 * 64 + 64) m m' /\
    (forall n, 0 <= n < 16 ->
       ld32 m' (l1 + (addr / 2 ^ 24 * 16 + n) * 4)
       = u32 (Z.lor (Z.land (ld32 m (l1 + (addr / 2 ^ 24 * 16 + n) * 4)) 0xfffbffff) (n * 2 ^ 20))).
Proof.
  intros Ha Hlo Hl1 Hs. unfold split_l1_supersection.
  rewrite (land_lo 14), Hl1, (land_hi 24) by lia. cbn [Z.eqb negb].
  case_goal; to_prop; [Z.div_mod_to_equations; lia|].
  rewrite Z.shiftr_div_pow2, Z.shiftl_mul_pow2 by lia.
  replace ((addr - addr mod 2 ^ 24) / 2 ^ 24 * 2 ^ 6) with (addr / 2 ^ 24 * 64) by (Z.div_mod_to_equations; lia).
  assert (Hat : forall n, l1 + (addr / 2 ^ 24 * 16 + n) * 4 = l1 + addr / 2 ^ 24 * 64 + n * 4) by lia.
  destruct (split_loop_super m (l1 + addr / 2 ^ 24 * 64) 16 0) as (m' & He & Hf & Hv); [lia|lia| |].
  { intros j Hj. rewrite <- Hat. apply Hs. lia. }
  exists m'. split_and!; [exact He|eapply frame_widen; [| |exact Hf]; lia|].
  intros n Hn. rewrite Hat. apply Hv. lia.
Qed.

Lemma split_loop_stop m t cnt n sect :
  is_super (ld32 m (t + n * 4)) = false -> split_loop m t (S cnt) n sect = (-2, m).
Proof. unfold is_super. intros H. cbn [split_loop]. by rewrite H. Qed.

Lemma split_none m addr l1 :
  0 <= addr < 2 ^ 32 -> is_super (ld32 m (l1 + addr / 2 ^ 24 * 16 * 4)) = false ->
  snd (split_l1_supersection m addr l1) = m.
Proof.
  intros Ha Hs. unfold split_l1_supersection. rewrite (land_hi 24) by lia.
  repeat case_goal; try done. rewrite (split_loop_stop _ _ 15); [done|].
  rewrite Z.shiftr_div_pow2, Z.shiftl_mul_pow2, Z.mul_0_l, Z.add_0_r by lia.
  replace ((addr - addr mod 2 ^ 24) / 2 ^ 24 * 2 ^ 6) with (addr / 2 ^ 24 * 16 * 4) by (Z.div_mod_to_equations; lia).
  done.
Qed.

Lemma assign_ok m addr l1 l2 :
  0 <= addr < 2 ^ 32 -> 0x2000000 <= addr -> l1 mod 2 ^ 14 = 0 -> l2 mod 2 ^ 10 = 0 ->
  is_super (ld32 m (l1 + addr / 2 ^ 20 * 4)) = false ->
  assign_l2_table_to_l1_section m addr l1 l2 = (0, st32 m (l1 + addr / 2 ^ 20 * 4) (l2 + 1)).
Proof.
  intros Ha Hlo H1 H2 Hs. unfold assign_l2_table_to_l1_section.
  rewrite (land_lo 14), H1, (land_lo 10), H2, (land_hi 20) by lia. cbn [Z.eqb negb orb].
  case_goal; to_prop; [Z.div_mod_to_equations; lia|].
  rewrite Z.shiftr_div_pow2, Z.shiftl_mul_pow2 by lia.
  replace ((addr - addr mod 2 ^ 20) / 2 ^ 20 * 2 ^ 2) with (addr / 2 ^ 20 * 4) by (Z.div_mod_to_equations; lia).
  unfold is_super in Hs. rewrite Hs, (lor_aligned 10) by lia. done.
Qed.

Lemma largepage_flags_ok f : 0 <= f < 2 ^ 16 -> 0 <= largepage_flags f < 2 ^ 16 /\ largepage_flags f mod 4 = 1.
Proof.
  intros Hf. unfold largepage_flags. rewrite (land_hi 2), (lor_aligned 2) by (Z.div_mod_to_equations; lia).
  Z.div_mod_to_equations; lia.
Qed.

Lemma largepage_lor base f : largepage base f -> u32 (Z.lor base f) = base + f /\ Z.lor base f = base + f.
Proof.
  intros (Hb & Hal & Hf & _). rewrite (lor_aligned 16) by lia.
  rewrite u32_small; [done|]. Z.div_mod_to_equations; lia.
Qed.

(** A fresh L2 table maps its megabyte to itself. *)
Lemma create_ok m addr l2 f :
  0 <= addr < 2 ^ 32 -> l2 mod 2 ^ 10 = 0 -> 0 <= f < 2 ^ 16 ->
  exists m', create_l2_table m addr l2 f = (0, m') /\ frame l2 (l2 + 0x400) m m' /\
    (forall p k, 0 <= p < 16 -> 0 <= k < 16 ->
       ld32 m' (l2 + (p * 16 + k) * 4)
       = addr / 2 ^ 20 * 2 ^ 20 + p * 2 ^ 16 + largepage_flags f).
Proof.
  intros Ha H2 Hf. unfold create_l2_table. rewrite (land_lo 10), H2, (land_hi 20) by lia. cbn [Z.eqb negb].
  eexists. split; [done|]. split; [exact (create_loop_frame m _ l2 _ 16 0)|].
  intros p k Hp Hk. rewrite create_loop_ld by lia.
  destruct (largepage_flags_ok f Hf) as [Hl1 Hl2].
  replace (u32 (addr - addr mod 2 ^ 20 + (0 + p * MMU_PAGE_SIZE))) with (addr / 2 ^ 20 * 2 ^ 20 + p * 2 ^ 16).
  - apply largepage_lor. unfold largepage. Z.div_mod_to_equations; lia.
  - unfold MMU_PAGE_SIZE. rewrite u32_small; Z.div_mod_to_equations; lia.
Qed.

(** Replacing a page changes its sixteen descriptors and no other. *)
Lemma replace_page_ok m va pa l2 f :
  0 <= va < 2 ^ 32 -> va mod 2 ^ 16 = 0 -> 0 <= pa < 2 ^ 32 -> pa mod 2 ^ 16 = 0 -> l2 mod 2 ^ 10 = 0 ->
  0 <= f < 2 ^ 16 ->
  let p := (va / 2 ^ 16) mod 16 in
  let m' := replace_rom_page m va pa l2 f in
  frame (l2 + p * 0x40) (l2 + p * 0x40 + 0x40) m m' /\
  (forall k, 0 <= k < 16 -> ld32 m' (l2 + (p * 16 + k) * 4) = pa + largepage_flags f).
Proof.
  intros Hva Hval Hpa Hpal H2 Hf p m'. subst m'. unfold replace_rom_page, replace_large_page_in_l2_table.
  rewrite (land_lo 10), H2, !(land_lo 16), Hval, Hpal by lia. cbn [Z.eqb negb orb snd].
  rewrite (land_lo 4), Z.shiftr_div_pow2 by lia. change (2 ^ 4) with 16. fold p.
  destruct (largepage_flags_ok f Hf) as [Hl1 Hl2]. split.
  - eapply frame_widen; [| |apply put_entries_frame]; lia.
  - intros k Hk. replace (l2 + (p * 16 + k) * 4) with (l2 + p * 0x40 + k * 4) by lia.
    rewrite put_entries_ld by lia. apply largepage_lor. by unfold largepage.
Qed.
