(* ===== verification/Patch678.v ===== *)
(** * The patch manager of the DIGIC 6/7/8/X cameras ([src/src/patch.c])

    The code of [patch.c] as compiled for [CONFIG_DIGIC_678X]: patches of four
    or more bytes, function hooks of eight.  What depends on the camera is an
    interface, [PatchPort], with the functions [patch.c] calls and that
    [patch_mmu.c] (DIGIC 7/8/X) and [patch_d6.c] (DIGIC 6) each define; the
    model of each file is an instance.

    [PatchPortOk] is what the client needs from a port: it behaves like a flat
    memory in which every byte can be written.  The theorems of this file are
    proved against it. *)
From S2P Require Import Prelude CacheHacks Patch Mmu MmuTables.

(** ** Data *)

(** [struct patch].  The unions hold a word when [p_size] is 4 and a pointer
    ([None] is NULL) to that many bytes when it is larger. *)
Record mpatch := mk_mpatch {
  p_addr : Z;
  p_old_value : Z;
  p_new_value : Z;
  p_old_values : option (list Z);
  p_new_values : option (list Z);
  p_size : Z;
  p_description : Z;
  p_is_instruction : bool;
}.

#[export] Instance mpatch_eq_dec : EqDecision mpatch.
Proof. solve_decision. Defined.

Definition with_addr (p : mpatch) (a : Z) : mpatch :=
  mk_mpatch a (p_old_value p) (p_new_value p) (p_old_values p) (p_new_values p) (p_size p)
            (p_description p) (p_is_instruction p).

(** [p_size] bytes behind one of the pointers. *)
Definition pointed (p : mpatch) (o : option (list Z)) : list Z :=
  resize (Z.to_nat (p_size p)) 0 (default [] o).

(** [struct function_hook_patch] *)
Record function_hook_patch := mk_fhook {
  f_patch_addr : Z;
  f_orig_content : list Z;
  f_target_function_addr : Z;
  f_description : Z;
}.

(** ** The port *)

Class PatchPort (St : Type) := {
  (** the registry, [patches_global[0 .. num_patches - 1]] *)
  patches_global : St -> list mpatch;
  push_patch : St -> mpatch -> St;
  (** a byte as [memcmp] reads it *)
  read_byte : St -> Z -> Z;
  read_value : St -> Z -> bool -> Z;
  (** the error, the caller's patch (which it may change) and the state *)
  apply_patch : St -> mpatch -> Z * mpatch * St;
  unpatch_memory : St -> Z -> Z * St;
  (** whether [malloc] of that many bytes succeeds *)
  malloc : St -> Z -> bool * St;
  free : St -> St;
  IS_ROM_PTR : Z -> bool;
  CONFIG_DIGIC_VI : bool;
}.

(** The word [is_patch_still_applied] looks for: the first of the patch. *)
Definition patched_word (p : mpatch) : Z :=
  if 4 <? p_size p then ldv 4 (fun i => pointed p (p_new_values p) !!! Z.to_nat i) 0 else p_new_value p.

Section client.
Context `{PatchPort St}.

Definition is_patch_still_applied (s : St) (p : mpatch) : bool :=
  let current := read_value s (p_addr p) (p_is_instruction p) in
  let patched := patched_word p in
  current =? patched.

(** The metadata and the backup of one patch, and the checks on it: an error,
    or the entry for the registry. *)
Definition prepare_patch (s : St) (p : mpatch) : Z * mpatch * St :=
  if 4 <? p_size p then
    match p_new_values p, p_old_values p with
    | Some _, Some _ =>
        let '(ok, s) := malloc s (u32 (p_size p * 2)) in
        if negb ok then (E_PATCH_CANNOT_MALLOC, p, s)
        else if negb (bool_decide (pointed p (p_old_values p)
                                   = rds (read_byte s) (p_addr p) (Z.to_nat (p_size p))))
        then (E_PATCH_OLD_VALUE_MISMATCH, p, free s)
        else (E_PATCH_OK,
              mk_mpatch (p_addr p) 0 0 (Some (pointed p (p_old_values p)))
                        (Some (pointed p (p_new_values p))) (p_size p) (p_description p)
                        (p_is_instruction p), s)
    | _, _ => (E_PATCH_MALFORMED, p, s)
    end
  else
    let old := read_value s (p_addr p) (p_is_instruction p) in
    if negb (old =? p_old_value p) then (E_PATCH_OLD_VALUE_MISMATCH, p, s)
    else (E_PATCH_OK,
          mk_mpatch (p_addr p) old (p_new_value p) None None (p_size p) (p_description p)
                    (p_is_instruction p), s).

(** The body of the loop of [apply_patches]. *)
Definition apply_one (s : St) (p : mpatch) : Z * mpatch * St :=
  if p_size p <? 4 then (E_PATCH_UNKNOWN_ERROR, p, s)
  else if CONFIG_DIGIC_VI && IS_ROM_PTR (p_addr p) then (E_PATCH_BAD_ADDR, p, s)
  else if existsb (fun q => p_addr q =? p_addr p) (patches_global s) then (E_PATCH_ALREADY_PATCHED, p, s)
  else if (MAX_PATCHES <=? length (patches_global s))%nat then (E_PATCH_TOO_MANY_PATCHES, p, s)
  else
    let '(err, new_patch, s) := prepare_patch s p in
    if negb (err =? 0) then (err, p, s)
    else
      let '(err, p, s) := apply_patch s p in
      if negb (err =? 0) then (err, p, s) else (E_PATCH_OK, p, push_patch s new_patch).

(** The loop; the caller's array comes back as the port left it. *)
Fixpoint apply_loop (s : St) (patches : list mpatch) : Z * list mpatch * St :=
  match patches with
  | [] => (E_PATCH_OK, [], s)
  | p :: rest =>
      let '(err, p, s) := apply_one s p in
      if negb (err =? 0) then (err, p :: rest, s)
      else let '(err, rest, s) := apply_loop s rest in (err, p :: rest, s)
  end.

Definition unpatch_all (s : St) (patches : list mpatch) : St :=
  foldl (fun s p => snd (unpatch_memory s (p_addr p))) s patches.

Definition apply_patches (s : St) (patches : list mpatch) : Z * St :=
  let '(err, patches, s) := apply_loop s patches in
  if negb (err =? 0) then (err, unpatch_all s patches) else (err, s).
End client.

(** ** Function hooks *)

(** [ldr.w pc, [pc, #imm]] and the address it loads. *)
Definition hook_code (f : function_hook_patch) : list Z :=
  let t := f_target_function_addr f in
  [0xdf; 0xf8; if negb (Z.land (f_patch_addr f) 0x2 =? 0) then u8 (0x00 + 2) else 0x00; 0xf0;
   u8 (Z.land t 0xff); u8 (Z.land (Z.shiftr t 8) 0xff);
   u8 (Z.land (Z.shiftr t 16) 0xff); u8 (Z.land (Z.shiftr t 24) 0xff)].

(** The arguments are pointers, [None] is NULL. *)
Definition convert_f_patch_to_patch (f_patch_in : option function_hook_patch)
  (patch_out hook_mem_out : bool) : Z * option mpatch :=
  match f_patch_in with
  | Some f =>
      if negb patch_out || negb hook_mem_out then (-1, None)
      else (0, Some (mk_mpatch (f_patch_addr f) 0 0 (Some (f_orig_content f)) (Some (hook_code f)) 8
                               (f_description f) true))
  | None => (-1, None)
  end.

(** ** Flat memory *)

(** [memcpy] into a view. *)
Definition put (rd : Z -> Z) (a : Z) (l : list Z) : Z -> Z :=
  fun b => if decide (a <= b < a + Z.of_nat (length l)) then u8 (l !!! Z.to_nat (b - a)) else rd b.

Definition new_bytes (p : mpatch) : list Z :=
  if 4 <? p_size p then pointed p (p_new_values p) else word_bytes (p_new_value p).

Definition old_bytes (p : mpatch) : list Z :=
  if 4 <? p_size p then pointed p (p_old_values p) else word_bytes (p_old_value p).

(** The patches of [A] written over [rd], in order. *)
Definition overlay (A : list mpatch) (rd : Z -> Z) : Z -> Z :=
  foldl (fun rd p => put rd (p_addr p) (new_bytes p)) rd A.

(** The entry the registry keeps for an applied patch. *)
Definition reg_entry (p : mpatch) : mpatch :=
  if 4 <? p_size p then
    mk_mpatch (p_addr p) 0 0 (Some (pointed p (p_old_values p))) (Some (pointed p (p_new_values p)))
              (p_size p) (p_description p) (p_is_instruction p)
  else mk_mpatch (p_addr p) (p_old_value p) (p_new_value p) None None (p_size p) (p_description p)
                 (p_is_instruction p).

(** Values of their type. *)
Definition patch_wf (p : mpatch) : Prop :=
  0 <= p_new_value p < 2 ^ 32 /\ Forall (fun x => 0 <= x < 256) (default [] (p_new_values p)).

Definition apart (p q : mpatch) : Prop :=
  p_addr p + p_size p <= p_addr q \/ p_addr q + p_size q <= p_addr p.

(** ** What the client needs of a port *)

(** [port_dom] are the addresses that patches may touch, [port_ok] the patches
    the port is made for; [vis] is the memory the port presents. *)
Class PatchPortOk (St : Type) `{PatchPort St} := {
  port_inv : St -> Prop;
  port_dom : Z -> Prop;
  port_ok : mpatch -> Prop;
  port_ok_dom : forall p a, port_ok p -> p_addr p <= a < p_addr p + p_size p -> port_dom a;
  port_ok_entry : forall p, port_ok p -> port_ok (reg_entry p);
  port_byte : forall s a, 0 <= read_byte s a < 256;
  port_read : forall s p, port_inv s -> port_ok p -> 4 <= p_size p ->
    read_value s (p_addr p) (p_is_instruction p) = ldv 4 (read_byte s) (p_addr p);
  port_vi : forall p, port_ok p -> CONFIG_DIGIC_VI && IS_ROM_PTR (p_addr p) = false;
  (** an applied patch reads back, a refused one changes nothing *)
  port_apply : forall s p, port_inv s -> port_ok p -> patch_wf p -> 4 <= p_size p ->
    exists e s', apply_patch s p = (e, p, s') /\ port_inv s' /\ patches_global s' = patches_global s /\
      forall a, port_dom a ->
        read_byte s' a = if e =? 0 then put (read_byte s) (p_addr p) (new_bytes p) a else read_byte s a;
  port_push : forall s p e s', port_inv s -> port_ok p -> patch_wf p -> 4 <= p_size p ->
    apply_patch s p = (e, p, s') -> e = 0 ->
    let s'' := push_patch s' (reg_entry p) in
    port_inv s'' /\ patches_global s'' = patches_global s' ++ [reg_entry p] /\
    forall a, read_byte s'' a = read_byte s' a;
  (** removing a registered patch puts its backup back *)
  port_unpatch : forall s a, port_inv s ->
    match list_find (fun q => p_addr q = a) (patches_global s) with
    | None => unpatch_memory s a = (E_UNPATCH_OK, s)
    | Some (i, q) =>
        if is_patch_still_applied s q
        then exists s', unpatch_memory s a = (E_UNPATCH_OK, s') /\ port_inv s' /\
               patches_global s' = delete i (patches_global s) /\
               forall b, port_dom b -> read_byte s' b = put (read_byte s) a (old_bytes q) b
        else unpatch_memory s a = (E_UNPATCH_OVERWRITTEN, s)
    end;
  port_malloc : forall s n, port_inv s ->
    port_inv (snd (malloc s n)) /\ patches_global (snd (malloc s n)) = patches_global s /\
    forall a, read_byte (snd (malloc s n)) a = read_byte s a;
  port_free : forall s, port_inv s ->
    port_inv (free s) /\ patches_global (free s) = patches_global s /\
    forall a, read_byte (free s) a = read_byte s a;
}.

(** ** Lemmas on flat memory *)

Lemma put_out rd a l b : b < a \/ a + Z.of_nat (length l) <= b -> put rd a l b = rd b.
Proof. intros Hb. unfold put. by rewrite decide_False by lia. Qed.

Lemma put_in rd a l b : a <= b < a + Z.of_nat (length l) -> put rd a l b = u8 (l !!! Z.to_nat (b - a)).
Proof. intros Hb. unfold put. by rewrite decide_True by lia. Qed.

Lemma put_ext rd rd' a l b : rd b = rd' b -> put rd a l b = put rd' a l b.
Proof. intros E. unfold put. by case_decide. Qed.

(** Writing back what was there. *)
Lemma put_restore rd a l b : 0 <= rd b < 256 -> put (put rd a l) a (rds rd a (length l)) b = rd b.
Proof.
  intros Hrd. destruct (decide (a <= b < a + Z.of_nat (length l))) as [Hb|Hb].
  - rewrite put_in, rds_lookup by (rewrite ?length_rds; lia).
    replace (a + Z.of_nat (Z.to_nat (b - a))) with b by lia. by apply u8_small.
  - by rewrite !put_out by (rewrite ?length_rds; lia).
Qed.

Lemma length_pointed p o : length (pointed p o) = Z.to_nat (p_size p).
Proof. apply length_resize. Qed.

Lemma length_new_bytes p : 4 <= p_size p -> length (new_bytes p) = Z.to_nat (p_size p).
Proof.
  intros Hs. unfold new_bytes. case_goal; to_prop; [apply length_pointed|].
  replace (p_size p) with 4 by lia. done.
Qed.

Lemma length_old_bytes p : 4 <= p_size p -> length (old_bytes p) = Z.to_nat (p_size p).
Proof.
  intros Hs. unfold old_bytes. case_goal; to_prop; [apply length_pointed|].
  replace (p_size p) with 4 by lia. done.
Qed.

Lemma word_bytes_ldv v : 0 <= v < 2 ^ 32 -> ldv 4 (fun i => word_bytes v !!! Z.to_nat i) 0 = v.
Proof.
  intros Hv. change (ldv 4 _ 0) with
    (u8 v + 256 * (u8 (v / 256) + 256 * (u8 (v / 65536) + 256 * (u8 (v / 16777216) + 256 * 0)))).
  unfold u8. change (2 ^ 8) with 256. Z.div_mod_to_equations. lia.
Qed.

Lemma ldv_word_bytes rd a w : (forall b, 0 <= rd b < 256) -> ldv 4 rd a = w -> word_bytes w = rds rd a 4.
Proof.
  intros Hb <-. cbn [ldv]. rewrite Z.mul_0_r, Z.add_0_r.
  replace (a + 1 + 1 + 1) with (a + 3) by lia. replace (a + 1 + 1) with (a + 2) by lia.
  pose proof (Hb a). pose proof (Hb (a + 1)). pose proof (Hb (a + 2)). pose proof (Hb (a + 3)).
  unfold word_bytes, rds. cbn [seq map]. change (Z.of_nat 0) with 0. rewrite Z.add_0_r.
  change (Z.of_nat 1) with 1. change (Z.of_nat 2) with 2. change (Z.of_nat 3) with 3.
  unfold u8. change (2 ^ 8) with 256. repeat f_equal; Z.div_mod_to_equations; lia.
Qed.

Lemma overlay_cons p A rd : overlay (p :: A) rd = overlay A (put rd (p_addr p) (new_bytes p)).
Proof. done. Qed.

Lemma overlay_ext A rd rd' b : rd b = rd' b -> overlay A rd b = overlay A rd' b.
Proof.
  revert rd rd'. induction A as [|p A IH]; intros rd rd' E; [done|]. rewrite !overlay_cons. apply IH. by apply put_ext.
Qed.

Lemma overlay_snoc A p rd : overlay (A ++ [p]) rd = put (overlay A rd) (p_addr p) (new_bytes p).
Proof. unfold overlay. by rewrite foldl_app. Qed.

Lemma overlay_out A rd b :
  Forall (fun p => 4 <= p_size p) A ->
  Forall (fun p => b < p_addr p \/ p_addr p + p_size p <= b) A -> overlay A rd b = rd b.
Proof.
  intros HA H. revert rd. induction H as [|p A Hp _ IH]; intros rd; [done|]. rewrite overlay_cons.
  apply Forall_cons in HA as [Hs HA]. rewrite IH by done.
  apply put_out. rewrite length_new_bytes by done. lia.
Qed.

(** A patch apart from the others can be written last, or taken back. *)
Lemma overlay_undo A p rd b :
  4 <= p_size p -> Forall (fun q => 4 <= p_size q) A -> Forall (apart p) A -> 0 <= rd b < 256 ->
  put (overlay (p :: A) rd) (p_addr p) (rds rd (p_addr p) (length (new_bytes p))) b = overlay A rd b.
Proof.
  intros Hp HA Hd Hrd. rewrite overlay_cons.
  destruct (decide (p_addr p <= b < p_addr p + Z.of_nat (length (new_bytes p)))) as [Hb|Hb].
  - rewrite length_new_bytes in Hb by done. transitivity (rd b).
    + rewrite <- (put_restore rd (p_addr p) (new_bytes p) b) by done.
      by rewrite (put_in (overlay _ _)), (put_in (put _ _ _)) by (rewrite length_rds, length_new_bytes by done; lia).
    + symmetry. apply overlay_out; [done|].
      eapply Forall_impl; [exact Hd|]. intros q Hq. unfold apart in Hq. lia.
  - rewrite put_out by (rewrite length_rds; lia). apply overlay_ext. apply put_out. lia.
Qed.

Lemma new_bytes_first p rd :
  patch_wf p -> 4 <= p_size p ->
  ldv 4 (put rd (p_addr p) (new_bytes p)) (p_addr p)
  = patched_word p.
Proof.
  intros [Hv Hl] Hs. unfold patched_word. pose proof (length_new_bytes p Hs) as Hlen.
  assert (Hshift : forall n f g a, (forall i, 0 <= i < Z.of_nat n -> f (a + i) = g i) ->
            ldv n f a = ldv n g 0).
  { intros n f g a Hfg. assert (forall k b, (forall i, 0 <= i < Z.of_nat n -> f (b + i) = g (k + i)) ->
      ldv n f b = ldv n g k) as Hgen; [|by apply Hgen; intros; rewrite Hfg].
    clear. induction n as [|n IH]; intros k b Hi; [done|]. cbn [ldv].
    rewrite <- (Z.add_0_r b), Hi, (Z.add_0_r k) by lia. f_equal. f_equal. apply IH.
    intros i Hi'. rewrite <- !Z.add_assoc. apply Hi. lia. }
  transitivity (ldv 4 (fun i => new_bytes p !!! Z.to_nat i) 0).
  - apply Hshift. intros i Hi. change (Z.of_nat 4) with 4 in Hi. rewrite put_in by lia.
    replace (p_addr p + i - p_addr p) with i by lia. apply u8_small.
    unfold new_bytes. case_goal; to_prop.
    + apply (Forall_lookup_total_1 (fun x => 0 <= x < 256)).
      * apply Forall_resize; [lia|done].
      * rewrite length_pointed. lia.
    + assert (i = 0 \/ i = 1 \/ i = 2 \/ i = 3) as [E|[E|[E|E]]] by lia; rewrite E; apply u8_range.
  - unfold new_bytes. case_goal; [done|]. by apply word_bytes_ldv.
Qed.
