(* ===== verification/Patch678Props.v ===== *)
(** * All or none on the DIGIC 6/7/8/X cameras

    The contract [patch.c] states for [apply_patches], proved for every port
    that behaves like a flat memory ([PatchPortOk]), and what a function hook
    does when the processor reaches it. *)
From Stdlib Require Import List.
From S2P Require Import Prelude CacheHacks Patch Mmu MmuTables Patch678.

(** ** Registry entries *)

Lemma pointed_entry p o : pointed p (Some (pointed p o)) = pointed p o.
Proof. unfold pointed. cbn [default]. apply resize_all_alt. by rewrite length_resize. Qed.

Lemma entry_addr p : p_addr (reg_entry p) = p_addr p.
Proof. unfold reg_entry. by case_goal. Qed.

Lemma entry_size p : p_size (reg_entry p) = p_size p.
Proof. unfold reg_entry. by case_goal. Qed.

Lemma new_bytes_entry p : new_bytes (reg_entry p) = new_bytes p.
Proof.
  unfold new_bytes. rewrite entry_size. unfold reg_entry. case_goal; [|done].
  apply (pointed_entry p).
Qed.

Lemma old_bytes_entry p : old_bytes (reg_entry p) = old_bytes p.
Proof.
  unfold old_bytes. rewrite entry_size. unfold reg_entry. case_goal; [|done].
  apply (pointed_entry p).
Qed.

Lemma patch_wf_entry p : patch_wf p -> patch_wf (reg_entry p).
Proof.
  intros [Hv Hl]. unfold patch_wf, reg_entry. case_goal; cbn; [|split; [done|constructor]].
  split; [lia|]. apply Forall_resize; [lia|done].
Qed.

Section port.
Context `{HP : PatchPortOk St}.

(** The memory the port presents, where patches may go. *)
Definition sees (s : St) (v : Z -> Z) : Prop := forall a, port_dom a -> read_byte s a = v a.

Lemma sees_refl s : sees s (read_byte s).
Proof. by intros a _. Qed.

Lemma rds_sees s v p : port_ok p -> sees s v ->
  rds (read_byte s) (p_addr p) (Z.to_nat (p_size p)) = rds v (p_addr p) (Z.to_nat (p_size p)).
Proof. intros Hok Hs. apply rds_ext. intros b Hb. apply Hs. apply (port_ok_dom p); [done|lia]. Qed.

Lemma prepare_ok s p e q s' :
  port_inv s -> port_ok p -> 4 <= p_size p -> prepare_patch s p = (e, q, s') ->
  port_inv s' /\ patches_global s' = patches_global s /\ (forall a, read_byte s' a = read_byte s a) /\
  (e = 0 -> q = reg_entry p /\ old_bytes p = rds (read_byte s) (p_addr p) (Z.to_nat (p_size p))).
Proof.
  intros Hi Hok Hs. unfold prepare_patch, reg_entry, old_bytes. destruct (4 <? p_size p) eqn:E4.
  - destruct (p_new_values p) as [nv|] eqn:En; [|by intros [= <- <- <-]].
    destruct (p_old_values p) as [ov|] eqn:Eo; [|by intros [= <- <- <-]].
    destruct (port_malloc s (u32 (p_size p * 2)) Hi) as (Hi1 & Hr1 & Hb1).
    destruct (malloc s (u32 (p_size p * 2))) as [ok s1]. cbn [snd] in *.
    destruct ok; cbn [negb]; [|by intros [= <- <- <-]].
    case_bool_decide as Ho; cbn [negb].
    + intros [= <- <- <-]. split_and!; [done..|]. intros _. split; [done|].
      rewrite Ho. apply rds_ext. intros b _. apply Hb1.
    + intros [= <- <- <-]. destruct (port_free s1 Hi1) as (Hi2 & Hr2 & Hb2).
      split_and!; [done|congruence|intros a; by rewrite Hb2|done].
  - cbv zeta. rewrite !port_read by done. destruct (ldv 4 _ _ =? p_old_value p) eqn:Eq; cbn [negb]; intros [= <- <- <-];
      (split_and!; [done..|]); [|done].
    apply Z.eqb_eq in Eq. apply Z.ltb_ge in E4. intros _. split; [by f_equal|].
    replace (Z.to_nat (p_size p)) with 4%nat by lia. apply ldv_word_bytes; [apply port_byte|done].
Qed.

Lemma apply_one_ok s p :
  port_inv s -> port_ok p -> patch_wf p ->
  exists e s', apply_one s p = (e, p, s') /\ port_inv s' /\
    (e <> 0 -> patches_global s' = patches_global s /\ sees s' (read_byte s)) /\
    (e = 0 -> 4 <= p_size p /\ patches_global s' = patches_global s ++ [reg_entry p] /\
       old_bytes p = rds (read_byte s) (p_addr p) (Z.to_nat (p_size p)) /\
       sees s' (put (read_byte s) (p_addr p) (new_bytes p))).
Proof.
  intros Hi Hok Hwf. unfold apply_one. rewrite port_vi by done.
  case_goal; to_prop; [by eexists _, _; split_and!; eauto using sees_refl|].
  case_goal; [by eexists _, _; split_and!; eauto using sees_refl|].
  case_goal; [by eexists _, _; split_and!; eauto using sees_refl|].
  destruct (prepare_patch s p) as [[e q] s1] eqn:Ep.
  destruct (prepare_ok s p e q s1) as (Hi1 & Hr1 & Hb1 & Hq); [done..|].
  destruct (e =? 0) eqn:E0; cbn [negb]; to_prop.
  2:{ exists e, s1. split_and!; [done..| |done]. intros _. split; [done|]. by intros a _. }
  destruct (Hq E0) as [-> Hold].
  destruct (port_apply s1 p) as (e2 & s2 & Ea & Hi2 & Hr2 & Hb2); [done..|].
  rewrite Ea. destruct (e2 =? 0) eqn:E2; cbn [negb]; to_prop.
  - destruct (port_push s1 p e2 s2) as (Hi3 & Hr3 & Hb3); [done..|].
    exists E_PATCH_OK, (push_patch s2 (reg_entry p)). split_and!; [done..|].
    intros _. split_and!; [done|congruence|done|].
    intros a Ha. rewrite Hb3, Hb2 by done. apply put_ext, Hb1.
  - exists e2, s2. split_and!; [done..| |done]. intros _. split; [congruence|].
    intros a Ha. by rewrite Hb2.
Qed.

(** What the loop leaves: a prefix of the batch applied, with its backups. *)
Lemma apply_loop_ok s ps :
  port_inv s -> Forall port_ok ps -> Forall patch_wf ps -> ForallOrdPairs apart ps ->
  exists e A B s', ps = A ++ B /\ apply_loop s ps = (e, ps, s') /\ port_inv s' /\ (e = 0 -> B = []) /\
    Forall (fun p => 4 <= p_size p) A /\ patches_global s' = patches_global s ++ map reg_entry A /\
    Forall (fun p => old_bytes p = rds (read_byte s) (p_addr p) (Z.to_nat (p_size p))) A /\
    sees s' (overlay A (read_byte s)).
Proof.
  revert s. induction ps as [|p ps IH]; intros s Hi Hok Hwf Hap.
  { exists 0, [], [], s. split_and!; try done. by rewrite app_nil_r. }
  apply Forall_cons in Hok as [Hok Hoks]. apply Forall_cons in Hwf as [Hwf Hwfs].
  inversion Hap as [|? ? Hp Hap' E]; subst. cbn [apply_loop].
  destruct (apply_one_ok s p) as (e & s1 & -> & Hi1 & Hne & Heq); [done..|].
  destruct (e =? 0) eqn:E0; cbn [negb]; to_prop.
  2:{ destruct (Hne E0) as [Hr Hb]. exists e, [], (p :: ps), s1.
      split_and!; try done. by rewrite app_nil_r. }
  destruct (Heq E0) as (Hs & Hr & Hold & Hb).
  destruct (IH s1) as (e2 & A & B & s2 & -> & El & Hi2 & HB & HsA & Hr2 & HoA & Hb2); [done..|].
  rewrite El. exists e2, (p :: A), B, s2. apply Forall_app in Hp as [HpA _].
  apply Forall_app in Hoks as [HokA _]. split_and!; [done|done|done|done|by constructor| | |].
  - rewrite Hr2, Hr, <- app_assoc. done.
  - constructor; [done|]. apply Forall_forall. intros q Hq.
    rewrite Forall_forall in HoA, HpA, HokA, HsA. rewrite HoA by done. apply rds_ext. intros b Hb'.
    rewrite Hb by (apply (port_ok_dom q); [by apply HokA|specialize (HsA q Hq); lia]).
    specialize (HpA q Hq). specialize (HsA q Hq). unfold apart in HpA. cbn in HsA.
    apply put_out. rewrite length_new_bytes by done. lia.
  - intros a Ha. rewrite Hb2, overlay_cons by done. apply overlay_ext. by apply Hb.
Qed.

(** A registered patch that nothing overwrote is still applied. *)
Lemma still_applied s p A v :
  port_inv s -> port_ok p -> patch_wf p -> 4 <= p_size p ->
  Forall (fun q => 4 <= p_size q) A -> Forall (apart p) A -> sees s (overlay (p :: A) v) ->
  is_patch_still_applied s (reg_entry p) = true.
Proof.
  intros Hi Hok Hwf Hs HsA Hap Hsee. unfold is_patch_still_applied.
  rewrite port_read; [|done|by apply port_ok_entry|by rewrite entry_size].
  apply Z.eqb_eq. rewrite entry_addr.
  transitivity (ldv 4 (put v (p_addr p) (new_bytes p)) (p_addr p)).
  - apply ldv_ext. intros b Hb. change (Z.of_nat 4) with 4 in Hb.
    rewrite Hsee, overlay_cons by (apply (port_ok_dom p); [done|lia]).
    apply overlay_out; [done|]. eapply Forall_impl; [exact Hap|]. intros q Hq. unfold apart in Hq. lia.
  - rewrite <- entry_addr, <- new_bytes_entry.
    apply new_bytes_first; [by apply patch_wf_entry|by rewrite entry_size].
Qed.

Lemma list_find_entry R p l :
  p_addr p ∉ p_addr <$> R ->
  list_find (fun q => p_addr q = p_addr p) (R ++ reg_entry p :: l) = Some (length R, reg_entry p).
Proof.
  intros Hn. apply list_find_Some. split_and!.
  - by rewrite lookup_app_r, Nat.sub_diag by lia.
  - apply entry_addr.
  - intros j q Hj Hlt E. rewrite lookup_app_l in Hj by done.
    apply Hn. rewrite <- E. apply list_elem_of_fmap_2, list_elem_of_lookup. by exists j.
Qed.

(** Taking back an applied batch, in the order it was applied. *)
Lemma unpatch_all_applied R A s v :
  (forall b, 0 <= v b < 256) -> port_inv s ->
  Forall port_ok A -> Forall patch_wf A -> ForallOrdPairs apart A -> Forall (fun p => 4 <= p_size p) A ->
  Forall (fun p => old_bytes p = rds v (p_addr p) (Z.to_nat (p_size p))) A ->
  Forall (fun p => p_addr p ∉ p_addr <$> R) A ->
  patches_global s = R ++ map reg_entry A -> sees s (overlay A v) ->
  let s' := unpatch_all s A in port_inv s' /\ patches_global s' = R /\ sees s' v.
Proof.
  intros Hv. revert s. induction A as [|p A IH]; intros s Hi Hok Hwf Hap Hs Hold HR Hreg Hsee.
  { cbn. split_and!; [done|by rewrite Hreg, app_nil_r|done]. }
  apply Forall_cons in Hok as [Hokp Hok]. apply Forall_cons in Hwf as [Hwfp Hwf].
  apply Forall_cons in Hs as [Hsp Hs]. apply Forall_cons in Hold as [Holdp Hold].
  apply Forall_cons in HR as [HRp HR]. inversion Hap as [|? ? Hapx Hap' E]; subst.
  cbn [unpatch_all foldl]. pose proof (port_unpatch s (p_addr p) Hi) as Hun.
  rewrite Hreg in Hun. cbn [map] in Hun. rewrite list_find_entry in Hun by done.
  rewrite (still_applied s p A v) in Hun by done. destruct Hun as (s1 & -> & Hi1 & Hr1 & Hb1).
  cbn [snd]. apply (IH s1); try done.
  - rewrite Hr1, delete_middle. done.
  - intros b Hb. rewrite Hb1, old_bytes_entry, Holdp, <- length_new_bytes by done.
    rewrite <- (overlay_undo A p v b) by done. apply put_ext. by apply Hsee.
Qed.

Lemma unpatch_all_absent s B :
  port_inv s -> Forall (fun p => p_addr p ∉ p_addr <$> patches_global s) B -> unpatch_all s B = s.
Proof.
  intros Hi HB. induction HB as [|p B Hp _ IH]; [done|]. cbn [unpatch_all foldl].
  pose proof (port_unpatch s (p_addr p) Hi) as Hun.
  destruct (list_find _ _) as [[i q]|] eqn:Ef.
  - exfalso. apply Hp. apply list_find_Some in Ef as (Hl & <- & _).
    apply list_elem_of_fmap_2, list_elem_of_lookup. by exists i.
  - rewrite Hun. exact IH.
Qed.

(** A batch for [apply_patches]: patches the port is made for, with values of
    their type, apart from each other, at addresses that are not patched yet. *)
Record batch_ok (s : St) (ps : list mpatch) : Prop := {
  bo_ok : Forall port_ok ps;
  bo_wf : Forall patch_wf ps;
  bo_apart : ForallOrdPairs apart ps;
  bo_fresh : Forall (fun p => p_addr p ∉ p_addr <$> patches_global s) ps;
}.

Lemma apply_patches_ok s ps :
  port_inv s -> batch_ok s ps ->
  exists e s', apply_patches s ps = (e, s') /\ port_inv s' /\
    (e = 0 -> Forall (fun p => 4 <= p_size p) ps /\
              patches_global s' = patches_global s ++ map reg_entry ps /\
              Forall (fun p => old_bytes p = rds (read_byte s) (p_addr p) (Z.to_nat (p_size p))) ps /\
              sees s' (overlay ps (read_byte s))) /\
    (e <> 0 -> patches_global s' = patches_global s /\ sees s' (read_byte s)).
Proof.
  intros Hi [Hok Hwf Hap Hfr]. unfold apply_patches.
  destruct (apply_loop_ok s ps) as (e & A & B & s1 & E & -> & Hi1 & HB & HsA & Hr & Hold & Hsee); [done..|].
  destruct (e =? 0) eqn:E0; cbn [negb]; to_prop.
  { rewrite HB, app_nil_r in E by done. subst ps. exists e, s1. split_and!; try done. }
  exists e. rewrite E in *. unfold unpatch_all. rewrite foldl_app. fold (unpatch_all (St:=St) s1 A).
  apply Forall_app in Hok as [HokA _], Hwf as [HwfA _], Hfr as [HfrA HfrB].
  assert (HapA : ForallOrdPairs apart A).
  { clear -Hap. induction A as [|p A IH]; [constructor|]. inversion Hap as [|? ? H1 H2]; subst.
    constructor; [by apply Forall_app in H1 as [H1 _]|by apply IH]. }
  destruct (unpatch_all_applied (patches_global s) A s1 (read_byte s)) as (Hi2 & Hr2 & Hs2);
    [apply port_byte|done..|].
  exists (unpatch_all s1 A). split; [|split_and!; [done|done|done]].
  f_equal. apply unpatch_all_absent; [done|]. by rewrite Hr2.
Qed.
End port.

(** ** Function hooks *)

(** The processor in Thumb state at [pc]: the literal load
    [ldr.w pc, [pc, #imm12]] is decoded, and the address it jumps to. *)
Definition thumb_ldr_pc (rd : Z -> Z) (pc : Z) : option Z :=
  let h1 := ldv 2 rd pc in
  let h2 := ldv 2 rd (pc + 2) in
  if (h1 =? 0xF8DF) && (Z.shiftr h2 12 =? 0xF)
  then Some (ldv 4 rd (Z.land (pc + 4) (Z.lnot 3) + Z.land h2 0xFFF))
  else None.

Lemma put_at rd a l k : 0 <= k < Z.of_nat (length l) -> put rd a l (a + k) = u8 (l !!! Z.to_nat k).
Proof. intros Hk. rewrite put_in by lia. by replace (a + k - a) with k by lia. Qed.

Lemma put_bytes8 rd a b0 b1 b2 b3 b4 b5 b6 b7 :
  let v := put rd a [b0; b1; b2; b3; b4; b5; b6; b7] in
  v a = u8 b0 /\ v (a + 1) = u8 b1 /\ v (a + 2) = u8 b2 /\ v (a + 2 + 1) = u8 b3 /\
  ldv 4 v (a + 4) = u8 b4 + 256 * (u8 b5 + 256 * (u8 b6 + 256 * u8 b7)).
Proof.
  intros v. assert (Hv : forall k, 0 <= k < 8 -> v (a + k) = u8 ([b0; b1; b2; b3; b4; b5; b6; b7] !!! Z.to_nat k))
    by (intros k Hk; by apply put_at).
  cbn [ldv]. replace (a + 4 + 1 + 1 + 1) with (a + 7) by lia. replace (a + 4 + 1 + 1) with (a + 6) by lia.
  replace (a + 4 + 1) with (a + 5) by lia. replace (a + 2 + 1) with (a + 3) by lia.
  rewrite !Hv, Z.mul_0_r, Z.add_0_r by lia. split_and!; try done.
  rewrite <- (Z.add_0_r a), Hv by lia. done.
Qed.

Lemma target_bytes t : 0 <= t < 2 ^ 32 ->
  u8 (u8 (Z.land t 0xff)) + 256 * (u8 (u8 (Z.land (Z.shiftr t 8) 0xff))
   + 256 * (u8 (u8 (Z.land (Z.shiftr t 16) 0xff)) + 256 * u8 (u8 (Z.land (Z.shiftr t 24) 0xff)))) = t.
Proof.
  intros Ht. rewrite !u8_idemp, !(land_lo 8), !Z.shiftr_div_pow2 by lia.
  unfold u8. Z.div_mod_to_equations; lia.
Qed.

Lemma hook_code_jumps f rd :
  f_patch_addr f mod 2 = 0 -> 0 <= f_target_function_addr f < 2 ^ 32 ->
  thumb_ldr_pc (put rd (f_patch_addr f) (hook_code f)) (f_patch_addr f) = Some (f_target_function_addr f).
Proof.
  intros Ha Ht. set (a := f_patch_addr f) in *. unfold hook_code. fold a.
  set (imm := if negb (Z.land a 2 =? 0) then u8 (0 + 2) else 0).
  set (t := f_target_function_addr f) in *.
  destruct (put_bytes8 rd a 0xdf 0xf8 imm 0xf0 (u8 (Z.land t 0xff)) (u8 (Z.land (Z.shiftr t 8) 0xff))
              (u8 (Z.land (Z.shiftr t 16) 0xff)) (u8 (Z.land (Z.shiftr t 24) 0xff))) as (H0 & H1 & H2 & H3 & H4).
  set (v := put rd a _) in *. unfold thumb_ldr_pc.
  assert (Himm : imm = a mod 4).
  { subst imm. replace (Z.land a 2) with (a mod 4).
    - destruct (a mod 4 =? 0) eqn:E; cbn [negb]; to_prop; [done|].
      change (u8 (0 + 2)) with 2. Z.div_mod_to_equations; lia.
    - rewrite <- (land_lo 2) by lia. apply Z.bits_inj'. intros n Hn. rewrite !Z.land_spec.
      destruct (decide (n = 0)) as [->|].
      + rewrite Z.bit0_odd, Zodd_mod, Ha. done.
      + f_equal. destruct (decide (n = 1)) as [->|]; [done|].
        change (2 ^ 2 - 1) with 3. rewrite (Z.bits_above_log2 3 n), (Z.bits_above_log2 2 n); [done|lia|cbn; lia|lia|cbn; lia]. }
  assert (0 <= imm < 4) by (rewrite Himm; apply Z.mod_pos_bound; lia).
  assert (ldv 2 v a = 0xF8DF) as -> by (cbn [ldv]; by rewrite H0, H1).
  assert (ldv 2 v (a + 2) = imm + 256 * (0xf0 + 256 * 0)) as ->
    by (cbn [ldv]; rewrite H2, H3, u8_small by lia; done).
  rewrite Z.shiftr_div_pow2, (land_lo 12) by lia.
  replace ((imm + 256 * (0xf0 + 256 * 0)) / 2 ^ 12) with 0xF by (Z.div_mod_to_equations; lia).
  change ((0xF8DF =? 0xF8DF) && (0xF =? 0xF)) with true. cbv iota. f_equal.
  replace (Z.land (a + 4) (Z.lnot 3) + _) with (a + 4); [by rewrite H4, target_bytes|].
  change 3 with (Z.ones 2). rewrite <- Z.ldiff_land, Z.ldiff_ones_r, Z.shiftl_mul_pow2, Z.shiftr_div_pow2 by lia.
  rewrite Himm. Z.div_mod_to_equations; lia.
Qed.
