(* ===== verification/PatchMmu.v ===== *)
(** * Patching through the MMU ([src/src/patch_mmu.c])

    The patch port of the DIGIC 7/8/X cameras.  A ROM patch copies its 64 kB
    page to RAM once, redirects the page in the translation tables and edits
    the copy; a RAM patch is written in place.  The state has physical memory,
    the two cores, the bookkeeping of tables and pages, and the registry.

    The bookkeeping structures are records; [MmuLayout] shows where
    [calc_mmu_globals] puts them in memory and when that is clear of the tables
    and pages.  Each operation runs with interrupts off on core 0 while core 1
    waits ([Cpu] has that protocol), so it is one step. *)
From S2P Require Import Prelude CacheHacks Patch Mmu MmuTables Patch678.

(** ** The camera *)

(** Constants of [consts.h] and the Makefile of a camera. *)
Class Platform := {
  MAIN_FIRMWARE_ADDR : Z;
  CANON_ORIG_MMU_TABLE_ADDR : Z;
}.

(** DryOS functions.  [change_mmu_tables] sets the table registers of the
    calling core; [can_malloc] says whether the [n]-th allocation succeeds. *)
Class Dryos := {
  change_mmu_tables : core -> Z -> Z -> Z -> core;
  can_malloc : nat -> Z -> bool;
}.

(** "update TTBRs (this DryOS function also triggers TLBIALL)" *)
Class DryosOk `{Dryos} := {
  change_mmu_tables_spec : forall c t0 t1 cpu_id,
    change_mmu_tables c t0 t1 cpu_id = mk_core t0 t1 ∅;
}.

(** ** Data *)

(** [struct mmu_L2_page_info]; NULL is 0. *)
Record mmu_L2_page_info := mk_info {
  phys_mem : list Z;
  L2_table : Z;
  virt_page_mapped : Z;
  in_use : Z;
}.

(** [struct mmu_config]: the pointer [L2_tables] and the array it points to. *)
Record mmu_config := mk_conf {
  L1_table : Z;
  max_L2_tables : Z;
  L2_tables_ptr : Z;
  L2_tables : list mmu_L2_page_info;
  max_64k_pages_remapped : Z;
  phys_mem_pages : Z;
}.

Definition sizeof_mmu_L2_page_info : Z := 76.

Definition with_infos (c : mmu_config) (l : list mmu_L2_page_info) : mmu_config :=
  mk_conf (L1_table c) (max_L2_tables c) (L2_tables_ptr c) l (max_64k_pages_remapped c) (phys_mem_pages c).

Record mstate := mk_mstate {
  pmem : memory;
  core0 : core;
  core1 : core;
  is_cpu1_ready : bool;
  global_mmu_conf : mmu_config;
  backing_page_index : Z;
  mmu_globals_initialised : bool;
  registry : list mpatch;
  mallocs : nat;   (* allocations made so far *)
  buffers : Z;     (* allocations not freed *)
}.

Definition set_pmem (s : mstate) (m : memory) : mstate :=
  mk_mstate m (core0 s) (core1 s) (is_cpu1_ready s) (global_mmu_conf s) (backing_page_index s)
            (mmu_globals_initialised s) (registry s) (mallocs s) (buffers s).
Definition set_cores (s : mstate) (c0 c1 : core) : mstate :=
  mk_mstate (pmem s) c0 c1 (is_cpu1_ready s) (global_mmu_conf s) (backing_page_index s)
            (mmu_globals_initialised s) (registry s) (mallocs s) (buffers s).
Definition set_infos (s : mstate) (l : list mmu_L2_page_info) : mstate :=
  mk_mstate (pmem s) (core0 s) (core1 s) (is_cpu1_ready s) (with_infos (global_mmu_conf s) l)
            (backing_page_index s) (mmu_globals_initialised s) (registry s) (mallocs s) (buffers s).
Definition set_backing (s : mstate) (i : Z) : mstate :=
  mk_mstate (pmem s) (core0 s) (core1 s) (is_cpu1_ready s) (global_mmu_conf s) i
            (mmu_globals_initialised s) (registry s) (mallocs s) (buffers s).
Definition set_registry (s : mstate) (l : list mpatch) : mstate :=
  mk_mstate (pmem s) (core0 s) (core1 s) (is_cpu1_ready s) (global_mmu_conf s) (backing_page_index s)
            (mmu_globals_initialised s) l (mallocs s) (buffers s).
Definition set_heap (s : mstate) (n : nat) (b : Z) : mstate :=
  mk_mstate (pmem s) (core0 s) (core1 s) (is_cpu1_ready s) (global_mmu_conf s) (backing_page_index s)
            (mmu_globals_initialised s) (registry s) n b.

Definition set_ready (s : mstate) (b : bool) : mstate :=
  mk_mstate (pmem s) (core0 s) (core1 s) b (global_mmu_conf s) (backing_page_index s)
            (mmu_globals_initialised s) (registry s) (mallocs s) (buffers s).

(** The core that runs the code, [get_cpu_id]. *)
Definition this_core (s : mstate) (cpu_id : Z) : core := if cpu_id =? 0 then core0 s else core1 s.

(** [IS_ROM_PTR] for [CONFIG_DIGIC_78X] ([mem.h]) *)
Definition IS_ROM_PTR_78X (val : Z) : bool := 0xE0000000 <? val.

Section port.
Context `{Platform} `{Dryos}.

(** ** Finding a page for a patch *)

Definition page_slot (a : Z) : nat := Z.to_nat (Z.shiftr (Z.land a 0x000f0000) 16).

(** [L2_page] is an index into the array.  Returns 0 or -1. *)
Definition assign_64k_to_L2_table (s : mstate) (p : mpatch) (L2_page : nat) : Z * mstate :=
  let conf := global_mmu_conf s in
  let i := page_slot (p_addr p) in
  match L2_tables conf !! L2_page with
  | None => (-1, s)
  | Some info =>
      if phys_mem info !!! i =? 0 then
        if max_64k_pages_remapped conf <=? backing_page_index s then (-1, s)
        else
          let page := u32 (phys_mem_pages conf + MMU_PAGE_SIZE * backing_page_index s) in
          let src := Z.land (p_addr p) 0xffff0000 in
          let info' := mk_info (<[i := page]> (phys_mem info)) (L2_table info)
                               (virt_page_mapped info) (in_use info) in
          let s := set_infos s (<[L2_page := info']> (L2_tables conf)) in
          let s := set_pmem s (wrs (pmem s) page (rds (view (core0 s) (pmem s)) src (Z.to_nat MMU_PAGE_SIZE))) in
          (0, set_backing s (u32 (backing_page_index s + 1)))
      else (0, s)
  end.

(** The loop of [find_L2_for_patch]: the table that holds the section, or the
    last unused one the loop has met. *)
Fixpoint find_L2_loop (infos : list mmu_L2_page_info) (a : Z) (i : nat) (unused_page : option nat)
  : nat + option nat :=
  match i with
  | O => inr unused_page
  | S j =>
      match infos !! j with
      | None => inr unused_page
      | Some info =>
          if (virt_page_mapped info =? Z.land a 0xfff00000) && negb (in_use info =? 0) then inl j
          else find_L2_loop infos a j (if in_use info =? 0 then Some j else unused_page)
      end
  end.

Definition set_virt (s : mstate) (j : nat) (a : Z) : mstate :=
  set_infos s (alter (fun i => mk_info (phys_mem i) (L2_table i) a (in_use i)) j
                     (L2_tables (global_mmu_conf s))).

Definition find_L2_for_patch (s : mstate) (p : mpatch) : option nat * mstate :=
  let num_pages := Z.to_nat (max_L2_tables (global_mmu_conf s)) in
  if (num_pages =? 0)%nat then (None, s)
  else if u32 (Z.land (p_addr p) 0xffff0000 + MMU_PAGE_SIZE) <? u32 (p_addr p + p_size p) then (None, s)
  else
    match find_L2_loop (L2_tables (global_mmu_conf s)) (p_addr p) num_pages None with
    | inl j =>
        let '(r, s) := assign_64k_to_L2_table s p j in
        if r =? 0 then (Some j, s) else (None, s)
    | inr None => (None, s)
    | inr (Some j) =>
        let '(r, s) := assign_64k_to_L2_table s p j in
        if r =? 0 then (Some j, set_virt s j (Z.land (p_addr p) 0xfff00000)) else (None, s)
    end.

(** ** Applying *)

(** ROM permissions with the memory type of RAM. *)
Definition patch_flags (rd : Z -> Z) : Z :=
  let rom_base_addr := Z.land MAIN_FIRMWARE_ADDR 0xff000000 in
  let flags_rom := get_l2_largepage_flags_from_l1_section rd rom_base_addr CANON_ORIG_MMU_TABLE_ADDR in
  let flags_ram := get_l2_largepage_flags_from_l1_section rd 0x10000000 CANON_ORIG_MMU_TABLE_ADDR in
  let flags_new := Z.land flags_rom (u32 (Z.lnot L2_LARGEPAGE_MEMTYPE_MASK)) in
  Z.lor flags_new (Z.land flags_ram L2_LARGEPAGE_MEMTYPE_MASK).

(** The table edits and the edit of the page copy. *)
Definition edit_tables (s : mstate) (p : mpatch) (j : nat) (flags_new : Z) : mstate :=
  let conf := global_mmu_conf s in
  match L2_tables conf !! j with
  | None => s
  | Some target_page =>
      let aligned_patch_addr := Z.land (p_addr p) 0xffff0000 in
      let m := snd (split_l1_supersection (pmem s) (p_addr p) (L1_table conf)) in
      let m := if in_use target_page =? 0
               then replace_section_with_l2_table m (p_addr p) (L1_table conf) (L2_table target_page) flags_new
               else m in
      let info := mk_info (phys_mem target_page) (L2_table target_page) (virt_page_mapped target_page)
                          (if in_use target_page =? 0 then 1 else in_use target_page) in
      let page := phys_mem target_page !!! page_slot (p_addr p) in
      let m := replace_rom_page m aligned_patch_addr page (L2_table target_page) flags_new in
      let dst := page + Z.land (p_addr p) 0xffff in
      let m := if 4 <? p_size p then wrs m dst (pointed p (p_new_values p))
               else if p_size p =? 4 then st32 m dst (p_new_value p) else m in
      set_pmem (set_infos s (<[j := info]> (L2_tables conf))) m
  end.

Definition apply_data_patch (s : mstate) (p : mpatch) : Z * mstate :=
  let flags_new := patch_flags (view (core0 s) (pmem s)) in
  match find_L2_for_patch s p with
  | (None, s) => (E_PATCH_BAD_MMU_PAGE, s)
  | (Some j, s) =>
      if p_size p <? 4 then (E_PATCH_TOO_SMALL, s)
      else (0, edit_tables s p j flags_new)
  end.

(** A core takes our tables, [change_mmu_tables] with the arguments that
    [patch_memory_rom] and [busy_wait_cpu1_then_update_mmu] compute. *)
Definition take_tables (s : mstate) (c : core) (cpu_id : Z) : core :=
  let cpu_mmu_offset := MMU_L1_TABLE_SIZE - 0x100 + cpu_id * 0x80 in
  change_mmu_tables c (L1_table (global_mmu_conf s) + cpu_mmu_offset) (L1_table (global_mmu_conf s)) cpu_id.

Definition change_mmu_tables_wrapper (s : mstate) (cpu_id : Z) : mstate :=
  if cpu_id =? 0 then set_cores s (take_tables s (core0 s) cpu_id) (core1 s)
  else set_cores s (core0 s) (take_tables s (core1 s) cpu_id).

(** The task that tells core 0 that core 1 runs ([init.c]). *)
Definition cpu1_ready (s : mstate) : mstate := set_ready s true.

(** [busy_wait_cpu1_then_update_mmu] runs on core 1 until
    [wake_cpu1_busy_wait] returns. *)
Definition patch_memory_rom (s : mstate) (cpu_id : Z) (p : mpatch) : Z * mstate :=
  if negb (cpu_id =? 0) then (E_PATCH_WRONG_CPU, s)
  else if negb (mmu_globals_initialised s) then (E_PATCH_MMU_NOT_INIT, s)
  else if p_size p <? 4 then (E_PATCH_TOO_SMALL, s)
  else
    let '(err, s) := apply_data_patch s p in
    let s := set_cores s (take_tables s (core0 s) 0) (core1 s) in
    let s := if is_cpu1_ready s then set_cores s (core0 s) (take_tables s (core1 s) 1) else s in
    (err, s).

Definition patch_memory_ram (s : mstate) (cpu_id : Z) (p : mpatch) : Z * mstate :=
  if negb (cpu_id =? 0) then (E_PATCH_WRONG_CPU, s)
  else if p_size p <? 4 then (E_PATCH_TOO_SMALL, s)
  else
    let l := if 4 <? p_size p then pointed p (p_new_values p) else word_bytes (p_new_value p) in
    (E_PATCH_OK, set_pmem s (vwrs (core0 s) (pmem s) (p_addr p) l)).

Definition mmu_apply_patch (s : mstate) (cpu_id : Z) (p : mpatch) : Z * mstate :=
  if IS_ROM_PTR_78X (p_addr p) then patch_memory_rom s cpu_id p else patch_memory_ram s cpu_id p.

(** ** Removing *)

(** The loop of [find_phys_mem]: the first table of the section, or the last
    table there is. *)
Fixpoint find_phys_loop (infos : list mmu_L2_page_info) (a : Z) (cur : option mmu_L2_page_info)
  : option mmu_L2_page_info :=
  match infos with
  | [] => cur
  | info :: rest => if virt_page_mapped info =? a then Some info else find_phys_loop rest a (Some info)
  end.

(** NULL is 0. *)
Definition find_phys_mem (s : mstate) (virtual_addr : Z) : Z :=
  if negb (IS_ROM_PTR_78X virtual_addr) then virtual_addr
  else
    let conf := global_mmu_conf s in
    match find_phys_loop (take (Z.to_nat (max_L2_tables conf)) (L2_tables conf))
                         (Z.land virtual_addr 0xfff00000) None with
    | None => 0
    | Some info =>
        let page := phys_mem info !!! page_slot virtual_addr in
        if page =? 0 then 0 else page + Z.land virtual_addr 0x0000ffff
    end.

Definition mmu_read_value (s : mstate) (cpu_id a : Z) : Z :=
  ldv 4 (view (this_core s cpu_id) (pmem s)) a.

Definition mmu_still_applied (s : mstate) (cpu_id : Z) (p : mpatch) : bool :=
  mmu_read_value s cpu_id (p_addr p) =? patched_word p.

Definition _unpatch_memory (s : mstate) (cpu_id _addr : Z) : Z * mstate :=
  match list_find (fun q => p_addr q = _addr) (registry s) with
  | None => (E_UNPATCH_OK, s)
  | Some (i, p) =>
      if negb (mmu_still_applied s cpu_id p) then (E_UNPATCH_OVERWRITTEN, s)
      else
        let phys_mem := find_phys_mem s _addr in
        if phys_mem =? 0 then (E_UNPATCH_NOT_PATCHED, s)
        else
          let c := this_core s cpu_id in
          let '(err, s) :=
            if 4 <? p_size p then
              (E_UNPATCH_OK, set_heap (set_pmem s (vwrs c (pmem s) phys_mem (pointed p (p_old_values p))))
                                      (mallocs s) (buffers s - 1))
            else if p_size p =? 4 then
              (E_UNPATCH_OK, set_pmem s (vwrs c (pmem s) phys_mem (word_bytes (p_old_value p))))
            else (E_PATCH_TOO_SMALL, s) in
          (err, set_registry s (delete i (registry s)))
  end.

(** ** The port, on core 0 *)

#[export] Instance mmu_port : PatchPort mstate := {|
  patches_global := registry;
  push_patch s p := set_registry s (registry s ++ [p]);
  read_byte s := view (core0 s) (pmem s);
  read_value s a _ := mmu_read_value s 0 a;
  apply_patch s p := let '(err, s) := mmu_apply_patch s 0 p in (err, p, s);
  unpatch_memory s a := _unpatch_memory s 0 a;
  malloc s n := (can_malloc (mallocs s) n,
                 set_heap s (S (mallocs s)) (if can_malloc (mallocs s) n then buffers s + 1 else buffers s));
  free s := set_heap s (mallocs s) (buffers s - 1);
  IS_ROM_PTR := IS_ROM_PTR_78X;
  CONFIG_DIGIC_VI := false;
|}.
End port.
