(* ===== verification/MmuInv.v ===== *)
(** * The invariant of the remapping tables

    What the L1 table, the L2 tables and the bookkeeping of [PatchMmu] agree
    on, and that each step of a ROM patch keeps it: copying a page, splitting a
    supersection, giving a section its L2 table, redirecting a page. *)
From S2P Require Import Prelude CacheHacks Patch Mmu MmuTables Patch678 PatchMmu.

(** ** Geometry *)

(** Where the tables and pages are; no operation on patches changes it. *)
Record geometry := mk_geo {
  g_L1 : Z;
  g_L2 : list Z;
  g_infos : Z;
  g_pages : Z;
  g_max : Z;
}.

Definition geometry_of (c : mmu_config) : geometry :=
  mk_geo (L1_table c) (L2_table <$> L2_tables c) (L2_tables_ptr c) (phys_mem_pages c) (max_64k_pages_remapped c).

Definition clear (a n b k : Z) : Prop := a + n <= b \/ b + k <= a.

Record geo_ok (g : geometry) : Prop := {
  go_L1 : g_L1 g mod 2 ^ 14 = 0 /\ 0 <= g_L1 g /\ g_L1 g + MMU_L1_TABLE_SIZE <= ROM_START;
  go_pages : g_pages g mod 2 ^ 16 = 0 /\ 0 < g_pages g /\ 0 <= g_max g /\
             g_pages g + MMU_PAGE_SIZE * g_max g <= ROM_START;
  go_L1_pages : clear (g_L1 g) MMU_L1_TABLE_SIZE (g_pages g) (MMU_PAGE_SIZE * g_max g);
  go_length : Z.of_nat (length (g_L2 g)) = g_max g;
  go_L2 : forall j t, g_L2 g !! j = Some t ->
    t mod 2 ^ 10 = 0 /\ 0 <= t /\ t + MMU_L2_TABLE_SIZE <= ROM_START /\
    clear t MMU_L2_TABLE_SIZE (g_L1 g) MMU_L1_TABLE_SIZE /\
    clear t MMU_L2_TABLE_SIZE (g_pages g) (MMU_PAGE_SIZE * g_max g);
  go_infos : 0 <= g_infos g /\ g_infos g + sizeof_mmu_L2_page_info * g_max g <= ROM_START /\
    clear (g_infos g) (sizeof_mmu_L2_page_info * g_max g) (g_L1 g) MMU_L1_TABLE_SIZE /\
    clear (g_infos g) (sizeof_mmu_L2_page_info * g_max g) (g_pages g) (MMU_PAGE_SIZE * g_max g) /\
    forall j t, g_L2 g !! j = Some t ->
      clear (g_infos g) (sizeof_mmu_L2_page_info * g_max g) t MMU_L2_TABLE_SIZE;
  go_L2_apart : forall j j' t t', g_L2 g !! j = Some t -> g_L2 g !! j' = Some t' -> j <> j' ->
    clear t MMU_L2_TABLE_SIZE t' MMU_L2_TABLE_SIZE;
}.

(** The memory that belongs to the remapping. *)
Definition in_area (g : geometry) (a : Z) : Prop :=
  g_L1 g <= a < g_L1 g + MMU_L1_TABLE_SIZE \/
  g_pages g <= a < g_pages g + MMU_PAGE_SIZE * g_max g \/
  (exists j t, g_L2 g !! j = Some t /\ t <= a < t + MMU_L2_TABLE_SIZE) \/
  g_infos g <= a < g_infos g + sizeof_mmu_L2_page_info * g_max g.

(** ** Tables *)

Definition used (i : mmu_L2_page_info) : Prop := in_use i <> 0.

(** The physical page behind slot [p] of a table. *)
Definition slot_base (i : mmu_L2_page_info) (p : Z) : Z :=
  let page := phys_mem i !!! Z.to_nat p in
  if page =? 0 then virt_page_mapped i + p * 2 ^ 16 else page.

Definition rom_section (s : Z) : Prop := 0xE00 <= s < 0x1000.

Record tabs (l1 : Z) (m : memory) (infos : list mmu_L2_page_info) : Prop := {
  t_l1 : forall j i, infos !! j = Some i -> used i ->
    ld32 m (l1 + virt_page_mapped i / 2 ^ 20 * 4) = L2_table i + 1;
  t_l2 : forall j i p k, infos !! j = Some i -> used i -> 0 <= p < 16 -> 0 <= k < 16 ->
    exists f, largepage (slot_base i p) f /\ ld32 m (L2_table i + (p * 16 + k) * 4) = slot_base i p + f;
  t_flat : forall s, rom_section s ->
    (forall j i, infos !! j = Some i -> used i -> virt_page_mapped i <> s * 2 ^ 20) ->
    flat_section (ld32 m (l1 + s * 4)) s = true \/ flat_super (ld32 m (l1 + s * 4)) s = true;
  t_group : forall s n, rom_section s -> 0 <= n < 16 -> is_super (ld32 m (l1 + s * 4)) = true ->
    is_super (ld32 m (l1 + (s / 16 * 16 + n) * 4)) = true;
}.

(** Bookkeeping: which section each table serves, and which pages are out. *)
Record book (g : geometry) (infos : list mmu_L2_page_info) (backing : Z) : Prop := {
  b_L2 : L2_table <$> infos = g_L2 g;
  b_length : forall j i, infos !! j = Some i -> length (phys_mem i) = 16%nat;
  b_backing : 0 <= backing <= g_max g;
  b_virt : forall j i, infos !! j = Some i -> used i ->
    exists s, rom_section s /\ virt_page_mapped i = s * 2 ^ 20;
  b_unused : forall j i, infos !! j = Some i -> ~ used i ->
    virt_page_mapped i = 0 /\ forall p, (p < 16)%nat -> phys_mem i !!! p = 0;
  b_virt_inj : forall j j' i i', infos !! j = Some i -> infos !! j' = Some i' -> used i -> used i' ->
    virt_page_mapped i = virt_page_mapped i' -> j = j';
  b_page : forall j i p, infos !! j = Some i -> (p < 16)%nat -> phys_mem i !!! p <> 0 ->
    exists k, 0 <= k < backing /\ phys_mem i !!! p = g_pages g + MMU_PAGE_SIZE * k;
  b_page_inj : forall j j' i i' p p', infos !! j = Some i -> infos !! j' = Some i' ->
    (p < 16)%nat -> (p' < 16)%nat -> phys_mem i !!! p <> 0 ->
    phys_mem i !!! p = phys_mem i' !!! p' -> j = j' /\ p = p';
}.

(** ** Translation as the bookkeeping has it *)

(** The table that serves the section of [a]. *)
Definition serves (infos : list mmu_L2_page_info) (a : Z) (j : nat) (i : mmu_L2_page_info) : Prop :=
  infos !! j = Some i /\ used i /\ virt_page_mapped i = a / 2 ^ 20 * 2 ^ 20.

Definition slot (a : Z) : nat := Z.to_nat ((a / 2 ^ 16) mod 16).

#[export] Instance serves_dec v i : Decision (used i /\ virt_page_mapped i = v).
Proof. unfold used. solve_decision. Defined.

Definition page_at (infos : list mmu_L2_page_info) (a : Z) : Z :=
  match list_find (fun i => used i /\ virt_page_mapped i = a / 2 ^ 20 * 2 ^ 20) infos with
  | Some (_, i) => phys_mem i !!! slot a
  | None => 0
  end.

Definition xlat (infos : list mmu_L2_page_info) (a : Z) : Z :=
  if page_at infos a =? 0 then a else page_at infos a + a mod 2 ^ 16.

Lemma serves_or_not infos a :
  (exists j i, serves infos a j i) \/ (forall j i, infos !! j = Some i -> used i -> virt_page_mapped i <> a / 2 ^ 20 * 2 ^ 20).
Proof.
  destruct (list_find (fun i => used i /\ virt_page_mapped i = a / 2 ^ 20 * 2 ^ 20) infos) as [[j i]|] eqn:E.
  - apply list_find_Some in E as (Hl & [Hu Hv] & _). left. by exists j, i.
  - apply list_find_None in E. right. intros j i Hl Hu Hv.
    rewrite Forall_lookup in E. exact (E j i Hl (conj Hu Hv)).
Qed.

Lemma page_at_serves g infos backing a j i :
  book g infos backing -> serves infos a j i -> page_at infos a = phys_mem i !!! slot a.
Proof.
  intros Hb (Hl & Hu & Hv). unfold page_at.
  destruct (list_find _ infos) as [[j' i']|] eqn:E.
  - apply list_find_Some in E as (Hl' & [Hu' Hv'] & _).
    assert (j' = j) as -> by (eapply (b_virt_inj _ _ _ Hb j' j); eauto; congruence). congruence.
  - apply list_find_None in E. rewrite Forall_lookup in E. exfalso. exact (E j i Hl (conj Hu Hv)).
Qed.

Lemma page_at_none infos a :
  (forall j i, infos !! j = Some i -> used i -> virt_page_mapped i <> a / 2 ^ 20 * 2 ^ 20) ->
  page_at infos a = 0.
Proof.
  intros Hn. unfold page_at. destruct (list_find _ infos) as [[j i]|] eqn:E; [|done].
  apply list_find_Some in E as (Hl & [Hu Hv] & _). by destruct (Hn j i Hl Hu).
Qed.

Lemma slot_lt a : (slot a < 16)%nat.
Proof. unfold slot. pose proof (Z.mod_pos_bound (a / 2 ^ 16) 16). lia. Qed.

Lemma rom_section_of a : ROM_START <= a < 2 ^ 32 -> rom_section (a / 2 ^ 20).
Proof. unfold ROM_START, rom_section. intros Ha. Z.div_mod_to_equations; lia. Qed.

(** The tables translate a ROM address the way the bookkeeping says. *)
Lemma tabs_walk g m infos backing a :
  geo_ok g -> book g infos backing -> tabs (g_L1 g) m infos -> ROM_START <= a < 2 ^ 32 ->
  walk m (g_L1 g) a = Some (xlat infos a).
Proof.
  intros Hg Hb Ht Ha. assert (Ha' : 0 <= a < 2 ^ 32) by (unfold ROM_START in Ha; lia).
  destruct (serves_or_not infos a) as [(j & i & Hs)|Hn].
  - pose proof Hs as (Hl & Hu & Hv). unfold xlat. rewrite (page_at_serves g infos backing a j i) by done.
    set (p := (a / 2 ^ 16) mod 16). set (k := (a / 2 ^ 12) mod 16).
    assert (Hp : 0 <= p < 16) by (apply Z.mod_pos_bound; lia).
    assert (Hk : 0 <= k < 16) by (apply Z.mod_pos_bound; lia).
    destruct (t_l2 _ _ _ Ht j i p k) as (f & Hf & Hld); [done..|].
    assert (Ht2 : g_L2 g !! j = Some (L2_table i)) by (rewrite <- (b_L2 _ _ _ Hb), list_lookup_fmap, Hl; done).
    destruct (go_L2 _ Hg j _ Ht2) as (Hal & Hlo & Hhi & _).
    rewrite (walk_l2 m (g_L1 g) a (L2_table i) (slot_base i p) f); [|done| |done|done| |exact Hld].
    + f_equal. unfold slot_base, slot. fold p. case_goal; to_prop; [|done].
      rewrite Hv. subst p. Z.div_mod_to_equations; lia.
    + unfold ROM_START, MMU_L2_TABLE_SIZE in *. lia.
    + rewrite <- (t_l1 _ _ _ Ht j i Hl Hu), Hv. f_equal. Z.div_mod_to_equations; lia.
  - unfold xlat. rewrite page_at_none by done. cbn [Z.eqb].
    pose proof (rom_section_of a Ha) as Hs.
    rewrite Z.mul_comm in Hn. destruct (t_flat _ _ _ Ht (a / 2 ^ 20) Hs) as [Hf|Hf].
    + intros j i Hl Hu. rewrite Z.mul_comm. by apply (Hn j).
    + apply walk_section; [done|]. by rewrite Z.mul_comm.
    + apply walk_super; [done|]. by rewrite Z.mul_comm.
Qed.

(** ** Steps that keep the tables *)

Lemma geo_L2 g infos backing j i :
  geo_ok g -> book g infos backing -> infos !! j = Some i ->
  g_L2 g !! j = Some (L2_table i) /\ L2_table i mod 2 ^ 10 = 0 /\ 0 <= L2_table i /\
  L2_table i + MMU_L2_TABLE_SIZE <= ROM_START /\
  clear (L2_table i) MMU_L2_TABLE_SIZE (g_L1 g) MMU_L1_TABLE_SIZE /\
  clear (L2_table i) MMU_L2_TABLE_SIZE (g_pages g) (MMU_PAGE_SIZE * g_max g).
Proof.
  intros Hg Hb Hl.
  assert (Ht2 : g_L2 g !! j = Some (L2_table i)) by (rewrite <- (b_L2 _ _ _ Hb), list_lookup_fmap, Hl; done).
  split; [done|]. by apply (go_L2 _ Hg j).
Qed.

(** Words outside the changed range. *)
Lemma tabs_ext l1 m m' infos :
  (forall s, rom_section s -> ld32 m' (l1 + s * 4) = ld32 m (l1 + s * 4)) ->
  (forall j i p k, infos !! j = Some i -> used i -> 0 <= p < 16 -> 0 <= k < 16 ->
     ld32 m' (L2_table i + (p * 16 + k) * 4) = ld32 m (L2_table i + (p * 16 + k) * 4)) ->
  (forall j i, infos !! j = Some i -> used i -> exists s, rom_section s /\ virt_page_mapped i = s * 2 ^ 20) ->
  tabs l1 m infos -> tabs l1 m' infos.
Proof.
  intros H1 H2 Hv Ht. split.
  - intros j i Hl Hu. destruct (Hv j i Hl Hu) as (s & Hs & E).
    rewrite <- (t_l1 _ _ _ Ht j i Hl Hu), E. replace (s * 2 ^ 20 / 2 ^ 20) with s by (Z.div_mod_to_equations; lia).
    by apply H1.
  - intros j i p k Hl Hu Hp Hk. rewrite (H2 j) by done. by apply (t_l2 _ _ _ Ht j).
  - intros s Hs Hn. rewrite H1 by done. by apply (t_flat _ _ _ Ht).
  - intros s n Hs Hn. rewrite (H1 s), (H1 (s / 16 * 16 + n)); [by apply (t_group _ _ _ Ht)| |done].
    unfold rom_section in *. Z.div_mod_to_equations; lia.
Qed.

Lemma tabs_frame g m m' infos backing lo hi :
  geo_ok g -> book g infos backing -> frame lo hi m m' ->
  clear lo (hi - lo) (g_L1 g) MMU_L1_TABLE_SIZE ->
  (forall j i, infos !! j = Some i -> used i -> clear lo (hi - lo) (L2_table i) MMU_L2_TABLE_SIZE) ->
  tabs (g_L1 g) m infos -> tabs (g_L1 g) m' infos.
Proof.
  intros Hg Hb Hf H1 H2. apply tabs_ext; [| |apply (b_virt _ _ _ Hb)].
  - intros s Hs. apply (frame_ld lo hi m m' 4); [done|].
    unfold rom_section, clear, MMU_L1_TABLE_SIZE in *. lia.
  - intros j i p k Hl Hu Hp Hk. apply (frame_ld lo hi m m' 4); [done|].
    specialize (H2 j i Hl Hu). unfold clear, MMU_L2_TABLE_SIZE in *. lia.
Qed.

Lemma flat_section_not_super e s : flat_section e s = true -> is_super e = false.
Proof. intros [H _]%flat_section_inv. unfold is_super. by rewrite H. Qed.

Lemma l2_not_super t : t mod 2 ^ 10 = 0 -> is_super (t + 1) = false.
Proof.
  intros Ht. unfold is_super. apply Z.eqb_neq. intros E.
  assert (H : Z.land (t + 1) 3 = 2) by (by rewrite <- (land_sub (t + 1) 0x40003), E by done).
  rewrite (land_lo 2) in H by lia. Z.div_mod_to_equations; lia.
Qed.

(** A used table's section is not a supersection. *)
Lemma tabs_used_not_super g m infos backing j i :
  geo_ok g -> book g infos backing -> tabs (g_L1 g) m infos -> infos !! j = Some i -> used i ->
  is_super (ld32 m (g_L1 g + virt_page_mapped i / 2 ^ 20 * 4)) = false.
Proof.
  intros Hg Hb Ht Hl Hu. rewrite (t_l1 _ _ _ Ht j i Hl Hu). apply l2_not_super.
  by destruct (geo_L2 g infos backing j i) as (_ & ? & _).
Qed.

(** In a group of supersections no section has a table. *)
Lemma tabs_super_flat g m infos backing s :
  geo_ok g -> book g infos backing -> tabs (g_L1 g) m infos -> rom_section s ->
  is_super (ld32 m (g_L1 g + s * 4)) = true -> flat_super (ld32 m (g_L1 g + s * 4)) s = true.
Proof.
  intros Hg Hb Ht Hs Hsup. destruct (t_flat _ _ _ Ht s Hs) as [Hf|Hf]; [|exfalso|done].
  - intros j i Hl Hu Hv. pose proof (tabs_used_not_super g m infos backing j i Hg Hb Ht Hl Hu) as Hn.
    rewrite Hv in Hn. replace (s * 2 ^ 20 / 2 ^ 20) with s in Hn by (Z.div_mod_to_equations; lia). congruence.
  - apply flat_section_not_super in Hf. congruence.
Qed.

(** Splitting a group of supersections: its entries become flat sections. *)
Lemma split_group g m infos backing a :
  geo_ok g -> book g infos backing -> tabs (g_L1 g) m infos -> ROM_START <= a < 2 ^ 32 ->
  is_super (ld32 m (g_L1 g + a / 2 ^ 24 * 16 * 4)) = true ->
  let m' := snd (split_l1_supersection m a (g_L1 g)) in
  frame (g_L1 g) (g_L1 g + MMU_L1_TABLE_SIZE) m m' /\
  (forall s, s / 16 <> a / 2 ^ 24 -> ld32 m' (g_L1 g + s * 4) = ld32 m (g_L1 g + s * 4)) /\
  (forall s, s / 16 = a / 2 ^ 24 -> is_super (ld32 m (g_L1 g + s * 4)) = true /\
                                   flat_section (ld32 m' (g_L1 g + s * 4)) s = true).
Proof.
  intros Hg Hb Ht Ha E0. destruct (go_L1 _ Hg) as (Hal & Hlo & Hhi).
  unfold ROM_START in Ha. set (gr := a / 2 ^ 24) in *.
  assert (Hgr : 0xE0 <= gr < 0x100) by (subst gr; Z.div_mod_to_equations; lia).
  assert (Hsup : forall n, 0 <= n < 16 -> is_super (ld32 m (g_L1 g + (gr * 16 + n) * 4)) = true).
  { intros n Hn. replace (gr * 16 + n) with (gr * 16 / 16 * 16 + n) by (Z.div_mod_to_equations; lia).
    apply (t_group _ _ _ Ht); [unfold rom_section; lia|done|done]. }
  destruct (split_super m a (g_L1 g)) as (m' & E & Hf & Hv); [lia|lia|done|exact Hsup|].
  rewrite E. cbn [snd]. fold gr in Hf, Hv. split_and!.
  - eapply frame_widen; [| |exact Hf]; unfold MMU_L1_TABLE_SIZE; lia.
  - intros s Hne. apply (frame_ld _ _ _ _ 4 _ Hf). Z.div_mod_to_equations; lia.
  - intros s Es. assert (Hn : 0 <= s mod 16 < 16) by (apply Z.mod_pos_bound; lia).
    assert (Hs : s = gr * 16 + s mod 16) by (Z.div_mod_to_equations; lia).
    rewrite Hs, Hv by done. split; [by apply Hsup|]. rewrite <- Hs.
    apply split_entry; [lia|]. apply (tabs_super_flat g m infos backing); try done.
    + unfold rom_section; lia.
    + rewrite Hs. by apply Hsup.
Qed.

Lemma tabs_split g m infos backing a :
  geo_ok g -> book g infos backing -> tabs (g_L1 g) m infos -> ROM_START <= a < 2 ^ 32 ->
  let m' := snd (split_l1_supersection m a (g_L1 g)) in
  frame (g_L1 g) (g_L1 g + MMU_L1_TABLE_SIZE) m m' /\ tabs (g_L1 g) m' infos /\
  is_super (ld32 m' (g_L1 g + a / 2 ^ 20 * 4)) = false.
Proof.
  intros Hg Hb Ht Ha. assert (Hgs : a / 2 ^ 20 / 16 = a / 2 ^ 24) by (Z.div_mod_to_equations; lia).
  destruct (is_super (ld32 m (g_L1 g + a / 2 ^ 24 * 16 * 4))) eqn:E0.
  - pose proof (split_group g m infos backing a Hg Hb Ht Ha E0) as (Hf & Hold & Hin).
    set (m' := snd _) in *. intros m1. subst m1.
    split; [done|]. split; [|by apply flat_section_not_super with (a / 2 ^ 20), Hin].
    split.
    + intros j i Hl Hu. rewrite <- (t_l1 _ _ _ Ht j i Hl Hu). apply Hold. intros Eg.
      pose proof (tabs_used_not_super g m infos backing j i Hg Hb Ht Hl Hu) as Hns.
      rewrite (proj1 (Hin _ Eg)) in Hns. done.
    + intros j i p k Hl Hu Hp Hk. destruct (geo_L2 g infos backing j i Hg Hb Hl) as (_ & _ & _ & _ & Hc & _).
      rewrite (frame_ld _ _ _ _ 4 _ Hf) by (unfold clear, MMU_L1_TABLE_SIZE, MMU_L2_TABLE_SIZE in *; lia).
      by apply (t_l2 _ _ _ Ht j).
    + intros s Hs Hn. destruct (decide (s / 16 = a / 2 ^ 24)) as [Eg|Eg]; [left; by apply Hin|].
      rewrite Hold by done. by apply (t_flat _ _ _ Ht).
    + intros s n Hs Hn Hsu. destruct (decide (s / 16 = a / 2 ^ 24)) as [Eg|Eg].
      * rewrite (flat_section_not_super _ s) in Hsu by (by apply Hin). done.
      * rewrite Hold in Hsu by done. rewrite Hold; [by apply (t_group _ _ _ Ht)|].
        Z.div_mod_to_equations; lia.
  - intros m'. subst m'. rewrite split_none by (done || (unfold ROM_START in Ha; lia)).
    split; [apply frame_refl|]. split; [done|]. apply not_true_iff_false. intros Hs.
    pose proof (t_group _ _ _ Ht (a / 2 ^ 20) 0 (rom_section_of a Ha)) as Hgrp.
    rewrite Hgs, Z.add_0_r in Hgrp. rewrite Hgrp in E0; [done|lia|done].
Qed.

Lemma lookup_upd (infos : list mmu_L2_page_info) (j : nat) i (j' : nat) x :
  (j < length infos)%nat -> <[j := i]> infos !! j' = Some x -> (j' = j /\ x = i) \/ (j' <> j /\ infos !! j' = Some x).
Proof.
  intros Hj. rewrite list_lookup_insert_Some. intros [(-> & <- & _)|(Hne & Hl)]; [left|right]; done.
Qed.

(** A section gets a fresh L2 table. *)
Lemma tabs_section g m infos backing a j i f :
  geo_ok g -> book g infos backing -> tabs (g_L1 g) m infos -> ROM_START <= a < 2 ^ 32 ->
  infos !! j = Some i -> ~ used i -> 0 <= f < 2 ^ 16 ->
  (forall j i, infos !! j = Some i -> used i -> virt_page_mapped i <> a / 2 ^ 20 * 2 ^ 20) ->
  is_super (ld32 m (g_L1 g + a / 2 ^ 20 * 4)) = false ->
  let m' := replace_section_with_l2_table m a (g_L1 g) (L2_table i) f in
  (forall b, ~ (g_L1 g <= b < g_L1 g + MMU_L1_TABLE_SIZE) ->
             ~ (L2_table i <= b < L2_table i + MMU_L2_TABLE_SIZE) -> rd8 m' b = rd8 m b) /\
  tabs (g_L1 g) m' (<[j := mk_info (phys_mem i) (L2_table i) (a / 2 ^ 20 * 2 ^ 20) 1]> infos).
Proof.
  intros Hg Hb Ht Ha Hl Hnu Hf Hns Hsup. destruct (go_L1 _ Hg) as (Hal & Hlo & Hhi).
  destruct (geo_L2 g infos backing j i Hg Hb Hl) as (Hg2 & Hal2 & _ & _ & Hc1 & _).
  pose proof (lookup_lt_Some _ _ _ Hl) as Hlt.
  pose proof (rom_section_of a Ha) as Hsec. set (s := a / 2 ^ 20) in *.
  assert (Ha2 : 0 <= a < 2 ^ 32) by (unfold ROM_START in Ha; lia).
  unfold replace_section_with_l2_table.
  destruct (create_ok m a (L2_table i) f Ha2 Hal2 Hf) as (m1 & E1 & Hf1 & Hv1). rewrite E1. cbn [snd].
  assert (HL1 : forall n, rom_section n -> ld32 m1 (g_L1 g + n * 4) = ld32 m (g_L1 g + n * 4)).
  { intros n Hn. apply (frame_ld _ _ _ _ 4 _ Hf1).
    unfold rom_section, clear, MMU_L1_TABLE_SIZE, MMU_L2_TABLE_SIZE in *. lia. }
  rewrite (assign_ok m1 a (g_L1 g) (L2_table i)); [|done|unfold ROM_START in Ha; lia|done|done|by rewrite HL1].
  fold s. cbn [snd]. set (m2 := st32 m1 _ _).
  assert (Hf2 : frame (g_L1 g + s * 4) (g_L1 g + s * 4 + 4) m1 m2) by apply (st_frame 4).
  assert (HL1' : forall n, rom_section n -> n <> s -> ld32 m2 (g_L1 g + n * 4) = ld32 m (g_L1 g + n * 4)).
  { intros n Hn Hne. rewrite (frame_ld _ _ _ _ 4 _ Hf2) by lia. by apply HL1. }
  assert (Hnew : ld32 m2 (g_L1 g + s * 4) = L2_table i + 1).
  { unfold m2. rewrite ld32_st32_same. apply u32_small.
    destruct (geo_L2 g infos backing j i Hg Hb Hl) as (_ & _ & H0 & H1 & _).
    unfold ROM_START, MMU_L2_TABLE_SIZE in *. lia. }
  split.
  { intros b Hb1 Hb2. rewrite Hf2, Hf1; [done|..];
      unfold rom_section, MMU_L1_TABLE_SIZE, MMU_L2_TABLE_SIZE in *; lia. }
  split.
  - intros j' x [[-> ->]|[Hne Hx]]%lookup_upd Hu; [| |done]; cbn [virt_page_mapped L2_table].
    + replace (s * 2 ^ 20 / 2 ^ 20) with s by (Z.div_mod_to_equations; lia). exact Hnew.
    + destruct (b_virt _ _ _ Hb j' x Hx Hu) as (n & Hn & En). rewrite <- (t_l1 _ _ _ Ht j' x Hx Hu), En.
      replace (n * 2 ^ 20 / 2 ^ 20) with n by (Z.div_mod_to_equations; lia).
      apply HL1'; [done|]. intros ->. by apply (Hns j' x).
  - intros j' x p k [[-> ->]|[Hne Hx]]%lookup_upd Hu Hp Hk; [| |done]; cbn [L2_table].
    + exists (largepage_flags f). destruct (largepage_flags_ok f Hf) as [Hlf1 Hlf2].
      assert (Eb : slot_base (mk_info (phys_mem i) (L2_table i) (s * 2 ^ 20) 1) p = s * 2 ^ 20 + p * 2 ^ 16).
      { unfold slot_base. cbn [phys_mem virt_page_mapped].
        by rewrite (proj2 (b_unused _ _ _ Hb j i Hl Hnu)) by lia. }
      rewrite Eb. split.
      * unfold largepage, rom_section in *. Z.div_mod_to_equations; lia.
      * rewrite (frame_ld _ _ _ _ 4 _ Hf2).
        2:{ unfold rom_section, clear, MMU_L1_TABLE_SIZE, MMU_L2_TABLE_SIZE in *. lia. }
        rewrite Hv1 by done. subst s. lia.
    + destruct (geo_L2 g infos backing j' x Hg Hb Hx) as (Hg2' & _ & _ & _ & Hc1' & _).
      pose proof (go_L2_apart _ Hg j j' _ _ Hg2 Hg2' ltac:(done)) as Hap.
      rewrite (frame_ld _ _ _ _ 4 _ Hf2), (frame_ld _ _ _ _ 4 _ Hf1);
        [by apply (t_l2 _ _ _ Ht j')|..];
        unfold rom_section, clear, MMU_L1_TABLE_SIZE, MMU_L2_TABLE_SIZE in *; lia.
  - intros n Hn Hnone. assert (n <> s).
    { intros ->. apply (Hnone j (mk_info (phys_mem i) (L2_table i) (s * 2 ^ 20) 1)); [|done|done].
      by apply list_lookup_insert_eq. }
    rewrite HL1' by done. apply (t_flat _ _ _ Ht); [done|]. intros j' x Hx Hu. apply (Hnone j'); [|done].
    rewrite list_lookup_insert_ne; [done|]. intros <-. rewrite Hl in Hx. injection Hx as ->. done.
  - intros n q Hn Hq Hsu. destruct (decide (n = s)) as [->|Hne].
    { rewrite Hnew, l2_not_super in Hsu by done. done. }
    rewrite HL1' in Hsu by done. pose proof (t_group _ _ _ Ht n q Hn Hq Hsu) as Hq'.
    destruct (decide (n / 16 * 16 + q = s)) as [E|E]; [rewrite E in Hq'; congruence|].
    rewrite HL1'; [done|unfold rom_section in *; Z.div_mod_to_equations; lia|done].
Qed.

(** A page of a section with a table is redirected. *)
Lemma tabs_page g m infos backing a j i page f :
  geo_ok g -> book g infos backing -> tabs (g_L1 g) m infos -> ROM_START <= a < 2 ^ 32 ->
  serves infos a j i -> 0 <= f < 2 ^ 16 -> page mod 2 ^ 16 = 0 -> 0 < page < 2 ^ 32 ->
  let m' := replace_rom_page m (a - a mod 2 ^ 16) page (L2_table i) f in
  frame (L2_table i) (L2_table i + MMU_L2_TABLE_SIZE) m m' /\
  tabs (g_L1 g) m' (<[j := mk_info (<[slot a := page]> (phys_mem i)) (L2_table i) (virt_page_mapped i) (in_use i)]> infos).
Proof.
  intros Hg Hb Ht Ha (Hl & Hu & Hv) Hf Hpal Hp m'. subst m'.
  destruct (geo_L2 g infos backing j i Hg Hb Hl) as (Hg2 & Hal2 & _ & _ & Hc1 & _).
  pose proof (lookup_lt_Some _ _ _ Hl) as Hlt. pose proof (b_length _ _ _ Hb j i Hl) as Hlen.
  assert (Ha2 : 0 <= a < 2 ^ 32) by (unfold ROM_START in Ha; lia).
  set (q := (a / 2 ^ 16) mod 16). assert (Hq : 0 <= q < 16) by (apply Z.mod_pos_bound; lia).
  destruct (replace_page_ok m (a - a mod 2 ^ 16) page (L2_table i) f) as [Hfr Hv1];
    [Z.div_mod_to_equations; lia..|lia|done|done|done|].
  replace (((a - a mod 2 ^ 16) / 2 ^ 16) mod 16) with q in * by (subst q; Z.div_mod_to_equations; lia).
  set (m' := replace_rom_page _ _ _ _ _) in *.
  assert (Hfr2 : frame (L2_table i) (L2_table i + MMU_L2_TABLE_SIZE) m m')
    by (eapply frame_widen; [| |exact Hfr]; unfold MMU_L2_TABLE_SIZE; lia).
  split; [done|]. destruct (largepage_flags_ok f Hf) as [Hlf1 Hlf2].
  assert (HL1 : forall n, rom_section n -> ld32 m' (g_L1 g + n * 4) = ld32 m (g_L1 g + n * 4)).
  { intros n Hn. apply (frame_ld _ _ _ _ 4 _ Hfr2).
    unfold rom_section, clear, MMU_L1_TABLE_SIZE, MMU_L2_TABLE_SIZE in *. lia. }
  set (i' := mk_info _ _ _ _).
  assert (Hcase : forall j' x, <[j := i']> infos !! j' = Some x -> used x ->
            exists y, infos !! j' = Some y /\ used y /\ L2_table x = L2_table y /\
                      virt_page_mapped x = virt_page_mapped y).
  { intros j' x [[-> ->]|[Hne Hx]]%lookup_upd Hux; [exists i|exists x|done]; done. }
  split.
  - intros j' x Hx Hux. destruct (Hcase j' x Hx Hux) as (y & Hy & Huy & -> & ->).
    destruct (b_virt _ _ _ Hb j' y Hy Huy) as (n & Hn & En).
    rewrite <- (t_l1 _ _ _ Ht j' y Hy Huy), En.
    replace (n * 2 ^ 20 / 2 ^ 20) with n by (Z.div_mod_to_equations; lia). by apply HL1.
  - intros j' x p k [[-> ->]|[Hne Hx]]%lookup_upd Hux Hp' Hk; [| |done].
    + unfold i', slot_base. cbn [phys_mem virt_page_mapped L2_table]. unfold slot. fold q.
      destruct (decide (p = q)) as [->|Hpq].
      * rewrite list_lookup_total_insert_eq by lia. rewrite (proj2 (Z.eqb_neq page 0)) by lia.
        exists (largepage_flags f). split; [by split; [lia|]|by apply Hv1].
      * rewrite list_lookup_total_insert_ne by lia.
        rewrite (frame_ld _ _ _ _ 4 _ Hfr) by lia. by apply (t_l2 _ _ _ Ht j i).
    + destruct (geo_L2 g infos backing j' x Hg Hb Hx) as (Hg2' & _).
      pose proof (go_L2_apart _ Hg j j' _ _ Hg2 Hg2' ltac:(done)) as Hap.
      rewrite (frame_ld _ _ _ _ 4 _ Hfr2); [by apply (t_l2 _ _ _ Ht j')|].
      unfold clear, MMU_L2_TABLE_SIZE in *; lia.
  - intros n Hn Hnone. rewrite HL1 by done. apply (t_flat _ _ _ Ht); [done|]. intros j' x Hx Hux.
    destruct (decide (j' = j)) as [->|Hne].
    + rewrite Hl in Hx. injection Hx as <-. apply (Hnone j i'); [|done]. by apply list_lookup_insert_eq.
    + apply (Hnone j'); [|done]. by rewrite list_lookup_insert_ne.
  - intros n k Hn Hk. rewrite (HL1 n) by done.
    rewrite (HL1 (n / 16 * 16 + k)); [by apply (t_group _ _ _ Ht)|].
    unfold rom_section in *. Z.div_mod_to_equations; lia.
Qed.

(** ** Steps that keep the bookkeeping *)

(** The table found for an address: the one that serves its section, or an
    unused one when there is none. *)
Definition chosen (infos : list mmu_L2_page_info) (a : Z) (j : nat) (i : mmu_L2_page_info) : Prop :=
  serves infos a j i \/
  (infos !! j = Some i /\ ~ used i /\
   forall j i, infos !! j = Some i -> used i -> virt_page_mapped i <> a / 2 ^ 20 * 2 ^ 20).

Definition use_info (i : mmu_L2_page_info) (a : Z) : mmu_L2_page_info :=
  mk_info (phys_mem i) (L2_table i) (a / 2 ^ 20 * 2 ^ 20) (if in_use i =? 0 then 1 else in_use i).

Definition page_info (i : mmu_L2_page_info) (a page : Z) : mmu_L2_page_info :=
  mk_info (<[slot a := page]> (phys_mem i)) (L2_table i) (virt_page_mapped i) (in_use i).

Lemma use_info_serves infos a j i :
  chosen infos a j i -> serves (<[j := use_info i a]> infos) a j (use_info i a).
Proof.
  assert (Hu : used (use_info i a)) by (unfold used, use_info; cbn; case_goal; to_prop; lia).
  intros [(Hl & _ & _)|(Hl & _ & _)]; (split; [|done]);
    apply list_lookup_insert_eq; by apply lookup_lt_Some in Hl.
Qed.

(** Taking a table that already serves the section changes nothing. *)
Lemma use_info_id infos a j i : serves infos a j i -> <[j := use_info i a]> infos = infos.
Proof.
  intros (Hl & Hu & Hv). apply list_insert_id. rewrite Hl. f_equal. unfold use_info.
  rewrite (proj2 (Z.eqb_neq _ _) Hu), <- Hv. by destruct i.
Qed.

Lemma book_use g infos backing a j i :
  book g infos backing -> ROM_START <= a < 2 ^ 32 -> chosen infos a j i ->
  book g (<[j := use_info i a]> infos) backing.
Proof.
  intros Hb Ha [Hs|(Hl & Hnu & Hn)]; [by rewrite use_info_id|].
  pose proof (lookup_lt_Some _ _ _ Hl) as Hlt. destruct (b_unused _ _ _ Hb j i Hl Hnu) as [Hv0 Hp0].
  split.
  - rewrite <- (b_L2 _ _ _ Hb), list_fmap_insert. apply list_insert_id. by rewrite list_lookup_fmap, Hl.
  - intros j' x [[-> ->]|[_ Hx]]%lookup_upd; [|by apply (b_length _ _ _ Hb j')|done].
    by apply (b_length _ _ _ Hb j i).
  - apply (b_backing _ _ _ Hb).
  - intros j' x [[-> ->]|[_ Hx]]%lookup_upd Hu; [| |done].
    + exists (a / 2 ^ 20). split; [by apply rom_section_of|done].
    + by apply (b_virt _ _ _ Hb j').
  - intros j' x [[-> ->]|[_ Hx]]%lookup_upd Hu; [|by apply (b_unused _ _ _ Hb j')|done].
    destruct Hu. unfold used, use_info. cbn. case_goal; to_prop; lia.
  - intros j1 j2 x1 x2 [[-> ->]|[H1 Hx1]]%lookup_upd [[-> ->]|[H2 Hx2]]%lookup_upd Hu1 Hu2 E; try done.
    + by destruct (Hn j2 x2 Hx2 Hu2).
    + by destruct (Hn j1 x1 Hx1 Hu1).
    + by apply (b_virt_inj _ _ _ Hb j1 j2 x1 x2).
  - intros j' x p [[-> ->]|[_ Hx]]%lookup_upd Hp Hnz; [| |done].
    + by destruct Hnz; apply Hp0.
    + by apply (b_page _ _ _ Hb j').
  - intros j1 j2 x1 x2 p1 p2 [[-> ->]|[H1 Hx1]]%lookup_upd [[-> ->]|[H2 Hx2]]%lookup_upd Hp1 Hp2 Hnz E;
      cbn [use_info phys_mem] in *; try done.
    + by destruct Hnz; apply Hp0.
    + by destruct Hnz; apply Hp0.
    + destruct Hnz. rewrite E. by apply Hp0.
    + by apply (b_page_inj _ _ _ Hb j1 j2 x1 x2).
Qed.

(** A page already there, or the next of the pool. *)
Definition next_page (g : geometry) (i : mmu_L2_page_info) (a backing page backing' : Z) : Prop :=
  (page <> 0 /\ page = phys_mem i !!! slot a /\ backing' = backing) \/
  (phys_mem i !!! slot a = 0 /\ backing < g_max g /\
   page = g_pages g + MMU_PAGE_SIZE * backing /\ backing' = backing + 1).

Lemma book_page g infos backing a j i page backing' :
  geo_ok g -> book g infos backing -> serves infos a j i -> next_page g i a backing page backing' ->
  book g (<[j := page_info i a page]> infos) backing'.
Proof.
  intros Hg Hb (Hl & Hu & Hv) [(Hnz & -> & ->)|(Hz & Hlt & -> & ->)].
  { replace (<[j := _]> infos) with infos; [done|]. symmetry. apply list_insert_id. rewrite Hl. f_equal.
    unfold page_info. rewrite list_insert_id; [by destruct i|]. apply list_lookup_lookup_total_lt.
    rewrite (b_length _ _ _ Hb j i Hl). apply slot_lt. }
  pose proof (lookup_lt_Some _ _ _ Hl) as Hj. pose proof (b_length _ _ _ Hb j i Hl) as Hlen.
  pose proof (slot_lt a) as Hsl. destruct (go_pages _ Hg) as (_ & Hpp & _).
  pose proof (b_backing _ _ _ Hb) as Hbk. set (page := g_pages g + _).
  assert (Hold : forall j' x p, infos !! j' = Some x -> (p < 16)%nat -> phys_mem x !!! p <> page).
  { intros j' x p Hx Hp E. destruct (b_page _ _ _ Hb j' x p Hx Hp) as (k & Hk & Ek).
    - rewrite E. subst page. unfold MMU_PAGE_SIZE. lia.
    - rewrite E in Ek. subst page. unfold MMU_PAGE_SIZE in *. lia. }
  split.
  - rewrite <- (b_L2 _ _ _ Hb), list_fmap_insert. apply list_insert_id. by rewrite list_lookup_fmap, Hl.
  - intros j' x [[-> ->]|[_ Hx]]%lookup_upd; [|by apply (b_length _ _ _ Hb j')|done].
    unfold page_info. cbn. by rewrite length_insert.
  - lia.
  - intros j' x [[-> ->]|[_ Hx]]%lookup_upd Hux; [by apply (b_virt _ _ _ Hb j i)|by apply (b_virt _ _ _ Hb j')|done].
  - intros j' x [[-> ->]|[_ Hx]]%lookup_upd Hux; [done|by apply (b_unused _ _ _ Hb j')|done].
  - intros j1 j2 x1 x2 [[-> ->]|[H1 Hx1]]%lookup_upd [[-> ->]|[H2 Hx2]]%lookup_upd Hu1 Hu2 E; try done.
    + by apply (b_virt_inj _ _ _ Hb j j2 i x2).
    + by apply (b_virt_inj _ _ _ Hb j1 j x1 i).
    + by apply (b_virt_inj _ _ _ Hb j1 j2 x1 x2).
  - assert (Hmono : forall j' x p, infos !! j' = Some x -> (p < 16)%nat -> phys_mem x !!! p <> 0 ->
      exists k, 0 <= k < backing + 1 /\ phys_mem x !!! p = g_pages g + MMU_PAGE_SIZE * k).
    { intros j' x p Hx Hp Hnz. destruct (b_page _ _ _ Hb j' x p Hx Hp Hnz) as (k & Hk & E).
      exists k. split; [lia|done]. }
    intros j' x p [[-> ->]|[_ Hx]]%lookup_upd Hp Hnz; [| |done]; [|by apply (Hmono j')].
    unfold page_info in *. cbn [phys_mem] in *. destruct (decide (p = slot a)) as [->|Hne].
    + exists backing. rewrite list_lookup_total_insert_eq by lia. split; [lia|done].
    + rewrite list_lookup_total_insert_ne in * by done. by apply (Hmono j i).
  - assert (Hpi : forall p, (p < 16)%nat -> phys_mem (page_info i a page) !!! p
             = if decide (p = slot a) then page else phys_mem i !!! p).
    { intros p Hp. unfold page_info. cbn [phys_mem]. case_decide as E.
      - subst p. by rewrite list_lookup_total_insert_eq by lia.
      - by rewrite list_lookup_total_insert_ne by done. }
    intros j1 j2 x1 x2 p1 p2 [[-> ->]|[H1 Hx1]]%lookup_upd [[-> ->]|[H2 Hx2]]%lookup_upd Hp1 Hp2; try done;
      rewrite ?Hpi by done; repeat case_decide; subst; intros Hnz E; try done.
    + by destruct (Hold j i p2 Hl Hp2).
    + by destruct (Hold j i p1 Hl Hp1).
    + by apply (b_page_inj _ _ _ Hb j j i i).
    + by destruct (Hold j2 x2 p2 Hx2 Hp2).
    + by apply (b_page_inj _ _ _ Hb j j2 i x2).
    + by destruct (Hold j1 x1 p1 Hx1 Hp1).
    + by apply (b_page_inj _ _ _ Hb j1 j x1 i).
    + by apply (b_page_inj _ _ _ Hb j1 j2 x1 x2).
Qed.
