(* ===== verification/MmuRom.v ===== *)
(** * A ROM patch, step by step

    [apply_data_patch] as one lemma: a refused patch leaves everything as it
    was; an accepted one keeps the tables consistent and changes what the
    tables show by exactly the bytes of the patch. *)
From S2P Require Import Prelude CacheHacks Patch Mmu MmuTables Patch678 PatchMmu MmuInv.

(** ** Masks of addresses *)

Lemma mask_section a : 0 <= a < 2 ^ 32 -> Z.land a 0xfff00000 = a / 2 ^ 20 * 2 ^ 20.
Proof. intros Ha. rewrite (land_hi 20) by lia. Z.div_mod_to_equations; lia. Qed.

Lemma mask_page a : 0 <= a < 2 ^ 32 -> Z.land a 0xffff0000 = a - a mod 2 ^ 16.
Proof. intros Ha. by rewrite (land_hi 16) by lia. Qed.

Lemma page_slot_eq a : page_slot a = slot a.
Proof.
  unfold page_slot, slot. f_equal. rewrite Z.shiftr_land, Z.shiftr_div_pow2 by lia.
  change (Z.shiftr 0xf0000 16) with (2 ^ 4 - 1). by apply land_lo.
Qed.

(** ** The table edits *)

Lemma use_info_used i a : used i -> virt_page_mapped i = a / 2 ^ 20 * 2 ^ 20 -> use_info i a = i.
Proof.
  intros Hu Hv. unfold use_info. rewrite (proj2 (Z.eqb_neq _ _) Hu), <- Hv. by destruct i.
Qed.

Lemma unused_0 i : ~ used i -> in_use i = 0.
Proof. unfold used. lia. Qed.

(** Memory outside the L1 table and one L2 table. *)
Definition same_but (l1 l2 : Z) (m m' : memory) : Prop :=
  forall b, ~ (l1 <= b < l1 + MMU_L1_TABLE_SIZE) -> ~ (l2 <= b < l2 + MMU_L2_TABLE_SIZE) ->
            rd8 m' b = rd8 m b.

Lemma tabs_redirect g m infos backing a j i page f :
  geo_ok g -> book g infos backing -> tabs (g_L1 g) m infos -> ROM_START <= a < 2 ^ 32 ->
  chosen infos a j i -> 0 <= f < 2 ^ 16 -> page mod 2 ^ 16 = 0 -> 0 < page < 2 ^ 32 ->
  let m := snd (split_l1_supersection m a (g_L1 g)) in
  let m := if in_use i =? 0 then replace_section_with_l2_table m a (g_L1 g) (L2_table i) f else m in
  tabs (g_L1 g) (replace_rom_page m (a - a mod 2 ^ 16) page (L2_table i) f)
       (<[j := page_info (use_info i a) a page]> infos).
Proof.
  intros Hg Hb Ht Ha Hc Hf Hpal Hp. pose proof (tabs_split g m infos backing a Hg Hb Ht Ha) as (_ & Ht2 & Hns).
  set (m2 := snd _) in *. cbv zeta.
  pose proof (use_info_serves infos a j i Hc) as Hs. pose proof (book_use g infos backing a j i Hb Ha Hc) as Hb3.
  rewrite <- (list_insert_insert_eq infos j (page_info (use_info i a) a page) (use_info i a)).
  assert (Ht3 : tabs (g_L1 g)
    (if in_use i =? 0 then replace_section_with_l2_table m2 a (g_L1 g) (L2_table i) f else m2)
    (<[j := use_info i a]> infos)).
  { destruct Hc as [Hs'|(Hl & Hnu & Hn)].
    - rewrite use_info_id by done. destruct Hs' as (Hl & Hu & Hv). by rewrite (proj2 (Z.eqb_neq _ _) Hu).
    - unfold use_info. rewrite (unused_0 i Hnu). cbn [Z.eqb]. by eapply tabs_section. }
  by destruct (tabs_page g _ _ backing a j (use_info i a) page f Hg Hb3 Ht3 Ha Hs Hf Hpal Hp).
Qed.

Lemma redirect_same g m infos backing a j i page f :
  geo_ok g -> book g infos backing -> tabs (g_L1 g) m infos -> ROM_START <= a < 2 ^ 32 ->
  chosen infos a j i -> 0 <= f < 2 ^ 16 -> page mod 2 ^ 16 = 0 -> 0 < page < 2 ^ 32 ->
  let m2 := snd (split_l1_supersection m a (g_L1 g)) in
  let m3 := if in_use i =? 0 then replace_section_with_l2_table m2 a (g_L1 g) (L2_table i) f else m2 in
  same_but (g_L1 g) (L2_table i) m (replace_rom_page m3 (a - a mod 2 ^ 16) page (L2_table i) f).
Proof.
  intros Hg Hb Ht Ha Hc Hf Hpal Hp. pose proof (tabs_split g m infos backing a Hg Hb Ht Ha) as (Hf2 & Ht2 & Hns).
  set (m2 := snd _) in *. intros m2'. subst m2'. cbv zeta.
  assert (Hl : infos !! j = Some i) by (by destruct Hc as [(Hl & _)|(Hl & _)]).
  destruct (geo_L2 g infos backing j i Hg Hb Hl) as (_ & Hal2 & _).
  assert (H3 : same_but (g_L1 g) (L2_table i) m2
    (if in_use i =? 0 then replace_section_with_l2_table m2 a (g_L1 g) (L2_table i) f else m2)).
  { destruct Hc as [(_ & Hu & _)|(_ & Hnu & Hn)].
    - by rewrite (proj2 (Z.eqb_neq _ _) Hu).
    - rewrite (unused_0 i Hnu). cbn [Z.eqb]. intros b Hb1 Hb2. by eapply tabs_section. }
  intros b Hb1 Hb2. unfold ROM_START in Ha.
  set (m3 := if in_use i =? 0 then replace_section_with_l2_table m2 a (g_L1 g) (L2_table i) f else m2) in *.
  destruct (replace_page_ok m3 (a - a mod 2 ^ 16) page (L2_table i) f) as [Hfr _];
    [Z.div_mod_to_equations; lia..|lia|done|done|done|].
  rewrite Hfr, H3, Hf2; [done|unfold MMU_L1_TABLE_SIZE in *; lia|done|done|].
  assert (0 <= ((a - a mod 2 ^ 16) / 2 ^ 16) mod 16 < 16) by (apply Z.mod_pos_bound; lia).
  unfold MMU_L2_TABLE_SIZE in Hb2. lia.
Qed.

(** ** What the tables show *)

(** The byte at a ROM address, through the tables. *)
Definition shows (m : memory) (infos : list mmu_L2_page_info) (a : Z) : Z := rd8 m (xlat infos a).

Definition same_page (a b : Z) : Prop := a / 2 ^ 16 = b / 2 ^ 16.

#[export] Instance same_page_dec a b : Decision (same_page a b).
Proof. unfold same_page. solve_decision. Defined.

Lemma same_page_slot a b : same_page a b -> slot a = slot b /\ a / 2 ^ 20 = b / 2 ^ 20.
Proof. unfold same_page, slot. intros E. rewrite E. split; [done|]. Z.div_mod_to_equations; lia. Qed.

Lemma slot_section_page a b : 0 <= a -> 0 <= b -> slot a = slot b -> a / 2 ^ 20 = b / 2 ^ 20 -> same_page a b.
Proof. unfold slot, same_page. intros. Z.div_mod_to_equations; lia. Qed.

(** After the redirection the page is in the table, other pages are as before. *)
Lemma page_at_redirect g infos backing backing' a j i page b :
  geo_ok g -> book g infos backing -> ROM_START <= a < 2 ^ 32 -> ROM_START <= b < 2 ^ 32 ->
  chosen infos a j i -> next_page g (use_info i a) a backing page backing' ->
  page_at (<[j := page_info (use_info i a) a page]> infos) b
  = if decide (same_page a b) then page else page_at infos b.
Proof.
  intros Hg Hb Ha Hbr Hc Hn. unfold ROM_START in *.
  pose proof (use_info_serves infos a j i Hc) as Hs. pose proof (book_use g infos backing a j i Hb Ha Hc) as Hb3.
  pose proof (book_page g _ backing a j _ page backing' Hg Hb3 Hs Hn) as Hb4.
  rewrite list_insert_insert_eq in Hb4. set (infos' := <[j := page_info (use_info i a) a page]> infos) in *.
  assert (Hl : infos !! j = Some i) by (by destruct Hc as [(Hl & _)|(Hl & _)]).
  pose proof (lookup_lt_Some _ _ _ Hl) as Hlt. pose proof (b_length _ _ _ Hb j i Hl) as Hlen.
  assert (Hj : infos' !! j = Some (page_info (use_info i a) a page)) by (by apply list_lookup_insert_eq).
  assert (Hu : used (page_info (use_info i a) a page)) by (destruct Hs as (_ & Hu & _); exact Hu).
  destruct (decide (a / 2 ^ 20 = b / 2 ^ 20)) as [Es|Es].
  - rewrite (page_at_serves g infos' backing' b j (page_info (use_info i a) a page)); [|done|].
    2:{ split; [done|]. split; [done|]. cbn. by rewrite Es. }
    cbn [phys_mem page_info use_info]. pose proof (slot_lt a) as Hsl. case_decide as Hp.
    + rewrite <- (proj1 (same_page_slot a b Hp)). by rewrite list_lookup_total_insert_eq by lia.
    + rewrite list_lookup_total_insert_ne by (intros E; apply Hp; apply slot_section_page; [lia..|done|done]).
      destruct Hc as [Hsv|(_ & Hnu & Hnone)].
      * symmetry. apply (page_at_serves g infos backing b j i); [done|].
        destruct Hsv as (_ & Hui & Hvi). split; [done|]. split; [done|]. by rewrite Hvi, Es.
      * rewrite (page_at_none infos b) by (intros j' x; rewrite <- Es; apply Hnone).
        apply (b_unused _ _ _ Hb j i); [done|done|apply slot_lt].
  - rewrite decide_False by (intros E; apply Es; by apply same_page_slot).
    destruct (serves_or_not infos b) as [(jb & ib & Hsb)|Hnb].
    + rewrite (page_at_serves g infos backing b jb ib) by done.
      apply (page_at_serves g infos' backing' b jb ib); [done|].
      destruct Hsb as (Hlb & Hub & Hvb). split; [|done]. unfold infos'. rewrite list_lookup_insert_ne; [done|].
      intros <-. destruct Hc as [(_ & _ & Hvi)|(_ & Hnu & _)]; rewrite Hl in Hlb; injection Hlb as <-;
        [Z.div_mod_to_equations; lia|done].
    + rewrite (page_at_none infos b) by done. apply page_at_none. intros j' x Hx Hux.
      apply lookup_upd in Hx as [[-> ->]|[_ Hx]]; [| |done].
      * cbn. intros E. apply Es. Z.div_mod_to_equations; lia.
      * by apply (Hnb j').
Qed.

(** Pages of the pool. *)
Definition pool (g : geometry) (page : Z) : Prop :=
  exists k, 0 <= k < g_max g /\ page = g_pages g + MMU_PAGE_SIZE * k.

Lemma pool_ok g page : geo_ok g -> pool g page ->
  page mod 2 ^ 16 = 0 /\ 0 < page < 2 ^ 32 /\ page + 2 ^ 16 <= ROM_START /\
  clear page (2 ^ 16) (g_L1 g) MMU_L1_TABLE_SIZE /\
  (forall j t, g_L2 g !! j = Some t -> clear page (2 ^ 16) t MMU_L2_TABLE_SIZE).
Proof.
  intros Hg (k & Hk & ->). destruct (go_pages _ Hg) as (Hal & Hlo & _ & Hhi). pose proof (go_L1_pages _ Hg) as Hc.
  unfold clear, ROM_START, MMU_PAGE_SIZE in *. split_and!; [Z.div_mod_to_equations; lia|lia|lia|lia|lia|].
  intros j t Ht. destruct (go_L2 _ Hg j t Ht) as (_ & _ & _ & _ & Hc2). unfold clear, MMU_PAGE_SIZE in Hc2. lia.
Qed.

Lemma pool_apart g page page' : pool g page -> pool g page' -> page <> page' -> clear page (2 ^ 16) page' (2 ^ 16).
Proof. intros (k & Hk & ->) (k' & Hk' & ->) Hne. unfold clear, MMU_PAGE_SIZE in *. lia. Qed.

Lemma pool_area g page b : pool g page -> page <= b < page + 2 ^ 16 -> in_area g b.
Proof. intros (k & Hk & ->) Hb. right. left. unfold MMU_PAGE_SIZE in *. lia. Qed.

(** An address translates to itself or to a page of the pool. *)
Lemma page_at_pool g infos backing a : book g infos backing -> page_at infos a = 0 \/ pool g (page_at infos a).
Proof.
  intros Hb. destruct (serves_or_not infos a) as [(j & i & Hs)|Hn]; [|left; by apply page_at_none].
  rewrite (page_at_serves g infos backing a j i) by done.
  destruct (decide (phys_mem i !!! slot a = 0)) as [E|E]; [by left|right].
  destruct Hs as (Hl & _). pose proof (b_backing _ _ _ Hb).
  destruct (b_page _ _ _ Hb j i (slot a) Hl (slot_lt a) E) as (k & Hk & Ek). exists k. split; [lia|done].
Qed.

Lemma rom_not_in_area g b : geo_ok g -> ROM_START <= b -> ~ in_area g b.
Proof.
  intros Hg Hr [H|[H|[(j' & t & Ht2 & H)|H]]].
  - destruct (go_L1 _ Hg) as (_ & _ & ?). lia.
  - destruct (go_pages _ Hg) as (_ & _ & _ & ?). lia.
  - destruct (go_L2 _ Hg j' t Ht2) as (_ & _ & ? & _). lia.
  - destruct (go_infos _ Hg) as (_ & ? & _). lia.
Qed.


Section redirect.
Variables (g : geometry) (m : memory) (infos : list mmu_L2_page_info) (backing backing' a : Z)
  (j : nat) (i : mmu_L2_page_info) (page : Z).
Hypotheses (Hg : geo_ok g) (Hb : book g infos backing) (Ht : tabs (g_L1 g) m infos)
  (Ha : ROM_START <= a < 2 ^ 32) (Hc : chosen infos a j i)
  (Hn : next_page g (use_info i a) a backing page backing').

Lemma chosen_lookup : infos !! j = Some i.
Proof. by destruct Hc as [(Hl & _)|(Hl & _)]. Qed.

Lemma next_pool : pool g page.
Proof.
  destruct Hn as [(Hnz & E & _)|(_ & Hlt & E & _)].
  - destruct (b_page _ _ _ Hb j i (slot a) chosen_lookup (slot_lt a)) as (k & Hk & Ek).
    { unfold use_info in E. cbn in E. by rewrite <- E. }
    pose proof (b_backing _ _ _ Hb). exists k. split; [lia|]. by rewrite <- Ek.
  - pose proof (b_backing _ _ _ Hb). by exists backing; split; [lia|].
Qed.

(** Before: the page is the one already there, or the address is not remapped. *)
Lemma page_at_before :
  page_at infos a = phys_mem i !!! slot a.
Proof.
  destruct Hc as [Hs|(Hl & Hnu & Hnone)]; [by apply (page_at_serves g infos backing a j i)|].
  rewrite (page_at_none infos a) by done. symmetry. apply (b_unused _ _ _ Hb j i); [done|done|apply slot_lt].
Qed.

Lemma page_at_same b : same_page a b -> page_at infos b = page_at infos a.
Proof.
  intros Hp. destruct (same_page_slot a b Hp) as [Es Ed]. unfold page_at. by rewrite Es, Ed.
Qed.

(** No other page of the ROM is behind this one. *)
Lemma page_at_other b :
  ROM_START <= b < 2 ^ 32 -> ~ same_page a b -> page_at infos b <> page.
Proof.
  intros Hbr Hp E. destruct (serves_or_not infos b) as [(jb & ib & Hsb)|Hnb].
  2:{ rewrite page_at_none in E by done. destruct (pool_ok g page Hg next_pool) as (_ & ? & _). lia. }
  rewrite (page_at_serves g infos backing b jb ib) in E by done. destruct Hsb as (Hlb & Hub & Hvb).
  assert (Hnz : page <> 0) by (destruct (pool_ok g page Hg next_pool) as (_ & ? & _); lia).
  destruct Hn as [(_ & E2 & _)|(_ & Hlt & E2 & _)]; cbn [use_info phys_mem] in E2.
  - destruct (b_page_inj _ _ _ Hb j jb i ib (slot a) (slot b)) as [<- Es];
      [apply chosen_lookup|done|apply slot_lt|apply slot_lt|by rewrite <- E2|congruence|].
    pose proof chosen_lookup as Hl. rewrite Hl in Hlb. injection Hlb as <-.
    destruct Hc as [(_ & _ & Hva)|(_ & Hnu & _)]; [|done].
    apply Hp. unfold ROM_START in *. apply slot_section_page; [lia|lia|done|].
    rewrite Hva in Hvb. Z.div_mod_to_equations; lia.
  - destruct (b_page _ _ _ Hb jb ib (slot b) Hlb (slot_lt b)) as (k & Hk & Ek); [by rewrite E|].
    rewrite E, E2 in Ek. unfold MMU_PAGE_SIZE in Ek. lia.
Qed.

Definition new_infos : list mmu_L2_page_info := <[j := page_info (use_info i a) a page]> infos.

Lemma book_new : book g new_infos backing'.
Proof.
  pose proof (book_page g _ backing a j _ page backing' Hg (book_use g infos backing a j i Hb Ha Hc)
                (use_info_serves infos a j i Hc) Hn) as H.
  by rewrite list_insert_insert_eq in H.
Qed.

(** The memory after the table edits and the edit of the page. *)
Variables (m1 m4 m5 : memory) (l : list Z) (f : Z).
Hypothesis Hm1 : frame page (page + 2 ^ 16) m m1.
Hypothesis Hm4 : same_but (g_L1 g) (L2_table i) m1 m4.
Hypothesis Hm5 : mem_eq m5 (wrs m4 (page + a mod 2 ^ 16) l).
Hypothesis Hl : a mod 2 ^ 16 + Z.of_nat (length l) <= 2 ^ 16.
Hypothesis Hcopy : forall b, same_page a b -> rd8 m1 (page + b mod 2 ^ 16) = shows m infos b.

Lemma in_tables b : ~ in_area g b ->
  ~ (g_L1 g <= b < g_L1 g + MMU_L1_TABLE_SIZE) /\ ~ (L2_table i <= b < L2_table i + MMU_L2_TABLE_SIZE).
Proof.
  destruct (geo_L2 g infos backing j i Hg Hb chosen_lookup) as (Hg2 & _).
  unfold in_area. intros Hn'. split; intros Hb'; apply Hn'; [by left|right; right; left; eauto].
Qed.

Lemma page_frame : frame page (page + 2 ^ 16) m4 m5.
Proof.
  intros b Hb'. rewrite Hm5. apply wrs_frame.
  assert (0 <= a mod 2 ^ 16 < 2 ^ 16) by (apply Z.mod_pos_bound; lia). lia.
Qed.

Lemma outside_same b : ~ in_area g b -> rd8 m5 b = rd8 m b.
Proof.
  intros Hb'. destruct (in_tables b Hb') as [H1 H2].
  assert (Hp : b < page \/ page + 2 ^ 16 <= b).
  { destruct (decide (page <= b < page + 2 ^ 16)); [|lia]. destruct Hb'. apply (pool_area g page); [apply next_pool|done]. }
  rewrite page_frame, Hm4, Hm1; done.
Qed.

Lemma other_page_same page' b :
  pool g page' -> page' <> page -> page' <= b < page' + 2 ^ 16 -> rd8 m5 b = rd8 m b.
Proof.
  intros Hp Hne Hb'. destruct (pool_ok g page' Hg Hp) as (_ & _ & _ & Hc1 & Hc2).
  pose proof (pool_apart g page' page Hp next_pool Hne) as Hc3.
  destruct (geo_L2 g infos backing j i Hg Hb chosen_lookup) as (Hg2 & _). specialize (Hc2 j _ Hg2).
  unfold clear in *. rewrite page_frame, Hm4, Hm1; [done|lia|lia|lia|lia].
Qed.

(** The ROM the tables show changes by the bytes of the patch. *)
Lemma shows_new b :
  ROM_START <= b < 2 ^ 32 -> shows m5 new_infos b = put (shows m infos) a l b.
Proof.
  intros Hbr. unfold shows at 1. unfold xlat, new_infos.
  rewrite (page_at_redirect g infos backing backing' a j i page b) by done.
  destruct (pool_ok g page Hg next_pool) as (Hpal & Hp0 & _ & Hc1 & Hc2).
  case_decide as Hp.
  - rewrite (proj2 (Z.eqb_neq page 0)) by lia. rewrite Hm5, rd8_wrs. unfold put.
    unfold same_page, ROM_START in *.
    destruct (decide (a <= b < a + Z.of_nat (length l))) as [Hin|Hout].
    + rewrite decide_True by (Z.div_mod_to_equations; lia). do 2 f_equal. Z.div_mod_to_equations; lia.
    + rewrite decide_False by (Z.div_mod_to_equations; lia).
      destruct (geo_L2 g infos backing j i Hg Hb chosen_lookup) as (Hg2 & _). specialize (Hc2 j _ Hg2).
      assert (0 <= b mod 2 ^ 16 < 2 ^ 16) by (apply Z.mod_pos_bound; lia).
      unfold clear in *. rewrite Hm4 by lia. by apply Hcopy.
  - rewrite put_out by (unfold same_page, ROM_START in *; Z.div_mod_to_equations; lia).
    unfold shows, xlat. pose proof (page_at_other b Hbr Hp) as Hne.
    destruct (page_at_pool g infos backing b Hb) as [E|Hpool].
    + rewrite E. cbn [Z.eqb]. apply outside_same. apply rom_not_in_area; [done|lia].
    + destruct (pool_ok g _ Hg Hpool) as (_ & Hpb & _). rewrite (proj2 (Z.eqb_neq _ 0)) by lia.
      apply (other_page_same (page_at infos b)); [done|done|].
      assert (0 <= b mod 2 ^ 16 < 2 ^ 16) by (apply Z.mod_pos_bound; lia). lia.
Qed.
End redirect.

(** ** Finding a table *)

Definition unserved (infos : list mmu_L2_page_info) (a : Z) : Prop :=
  forall j i, infos !! j = Some i -> used i -> virt_page_mapped i <> a / 2 ^ 20 * 2 ^ 20.

Lemma find_loop_ok infos a n acc :
  0 <= a < 2 ^ 32 -> (n <= length infos)%nat ->
  (forall j i, (n <= j)%nat -> infos !! j = Some i -> used i -> virt_page_mapped i <> a / 2 ^ 20 * 2 ^ 20) ->
  (forall k, acc = Some k -> exists i, infos !! k = Some i /\ ~ used i) ->
  (acc = None -> forall j i, (n <= j)%nat -> infos !! j = Some i -> used i) ->
  match find_L2_loop infos a n acc with
  | inl j => exists i, serves infos a j i
  | inr (Some j) => exists i, infos !! j = Some i /\ ~ used i /\ unserved infos a
  | inr None => unserved infos a /\ forall j i, infos !! j = Some i -> used i
  end.
Proof.
  intros Ha. revert acc. induction n as [|n IH]; intros acc Hn Hge Hacc Hnone.
  - cbn [find_L2_loop]. assert (Hus : unserved infos a) by (intros j i Hl; apply (Hge j i); [lia|done]).
    destruct acc as [k|].
    + destruct (Hacc k eq_refl) as (i & Hl & Hu). by exists i.
    + split; [done|]. intros j i Hl. apply (Hnone eq_refl j i); [lia|done].
  - cbn [find_L2_loop]. destruct (infos !! n) as [i|] eqn:El.
    2:{ apply lookup_ge_None in El. lia. }
    rewrite mask_section by done.
    destruct (virt_page_mapped i =? a / 2 ^ 20 * 2 ^ 20) eqn:Ev; cbn [andb].
    + destruct (in_use i =? 0) eqn:Eu; cbn [negb]; to_prop.
      * apply IH; [lia|..].
        -- intros j x Hj Hx Hux. destruct (decide (j = n)) as [->|]; [|by apply (Hge j); [lia|..]].
           rewrite El in Hx. injection Hx as <-. done.
        -- intros k [= <-]. exists i. split; [done|]. unfold used. lia.
        -- done.
      * exists i. split; [done|]. split; [unfold used; lia|lia].
    + to_prop. apply IH; [lia|..].
      * intros j x Hj Hx Hux. destruct (decide (j = n)) as [->|]; [|by apply (Hge j); [lia|..]].
        rewrite El in Hx. by injection Hx as <-.
      * intros k. case_goal; to_prop; [intros [= <-]|by apply Hacc]. exists i. split; [done|]. unfold used. lia.
      * case_goal; to_prop; [done|]. intros Ea j x Hj Hx. destruct (decide (j = n)) as [->|].
        -- rewrite El in Hx. injection Hx as <-. unfold used. lia.
        -- by apply (Hnone Ea j); [lia|].
Qed.

(** A table in use has at least one page. *)
Definition busy (infos : list mmu_L2_page_info) : Prop :=
  forall j i, infos !! j = Some i -> used i -> exists p, (p < 16)%nat /\ phys_mem i !!! p <> 0.

Definition some_page (i : mmu_L2_page_info) : Z := default 0 (head (filter (.≠ 0) (phys_mem i))).

Lemma some_page_ok g infos backing j i :
  book g infos backing -> busy infos -> infos !! j = Some i -> used i ->
  exists p, (p < 16)%nat /\ phys_mem i !!! p = some_page i /\ some_page i <> 0.
Proof.
  intros Hb Hbu Hl Hu. destruct (Hbu j i Hl Hu) as (p & Hp & Hnz).
  pose proof (b_length _ _ _ Hb j i Hl) as Hlen.
  assert (Hin : phys_mem i !!! p ∈ filter (.≠ 0) (phys_mem i)).
  { apply list_elem_of_filter. split; [done|]. apply list_elem_of_lookup_total. exists p. split; [lia|done]. }
  unfold some_page. destruct (filter _ _) as [|x l] eqn:Ef; [by apply elem_of_nil in Hin|]. cbn [head default].
  assert (Hx : x ∈ filter (.≠ 0) (phys_mem i)) by (rewrite Ef; left).
  apply list_elem_of_filter in Hx as [Hx0 Hx]. apply list_elem_of_lookup_total in Hx as (q & Hq & E).
  exists q. split; [lia|]. done.
Qed.

(** When every table is in use the pool is empty. *)
Lemma all_used_exhausted g infos backing :
  geo_ok g -> book g infos backing -> busy infos -> (forall j i, infos !! j = Some i -> used i) ->
  backing = g_max g.
Proof.
  intros Hg Hb Hbu Hall. pose proof (b_backing _ _ _ Hb) as Hbk.
  assert (Hlen : Z.of_nat (length infos) = g_max g).
  { rewrite <- (go_length _ Hg), <- (b_L2 _ _ _ Hb). by rewrite length_fmap. }
  set (ks := (fun k => g_pages g + MMU_PAGE_SIZE * k) <$> seqZ 0 backing).
  assert (Hsub : some_page <$> infos ⊆+ ks).
  { apply NoDup_submseteq.
    - apply NoDup_alt. intros j j' x (i & -> & Hi)%list_lookup_fmap_Some (i' & E & Hi')%list_lookup_fmap_Some.
      destruct (some_page_ok g infos backing j i) as (p & Hp & Ep & Hnz); [done|done|done|by eapply Hall|].
      destruct (some_page_ok g infos backing j' i') as (p' & Hp' & Ep' & _); [done|done|done|by eapply Hall|].
      eapply (b_page_inj _ _ _ Hb j j' i i' p p'); congruence || done.
    - intros x (i & -> & (j & Hi)%list_elem_of_lookup)%list_elem_of_fmap.
      destruct (some_page_ok g infos backing j i) as (p & Hp & Ep & Hnz); [done|done|done|by eapply Hall|].
      destruct (b_page _ _ _ Hb j i p Hi Hp) as (k & Hk & E); [by rewrite Ep|].
      rewrite <- Ep, E. apply list_elem_of_fmap. exists k. split; [done|]. apply elem_of_seqZ. lia. }
  apply submseteq_length in Hsub. unfold ks in Hsub. rewrite !length_fmap, length_seqZ in Hsub. lia.
Qed.
