(* ===== verification/MmuApply.v ===== *)
(** * [apply_data_patch] on the whole state

    The invariant of the patch state that does not involve the cores, and what
    [apply_data_patch] does to it: it refuses exactly the patches that leave
    their 64 kB page or for which no page is left, and changes nothing then. *)
From S2P Require Import Prelude CacheHacks Patch Mmu MmuTables Patch678 PatchMmu MmuInv MmuRom.

Definition infos_of (s : mstate) : list mmu_L2_page_info := L2_tables (global_mmu_conf s).

(** Tables, bookkeeping and ROM of a state. *)
Record mem_inv (g : geometry) (rom : Z -> Z) (s : mstate) : Prop := {
  mi_geo : geometry_of (global_mmu_conf s) = g;
  mi_max : max_L2_tables (global_mmu_conf s) = g_max g;
  mi_book : book g (infos_of s) (backing_page_index s);
  mi_busy : busy (infos_of s);
  mi_tabs : tabs (g_L1 g) (pmem s) (infos_of s);
  mi_rom : forall b, ROM_START <= b -> rd8 (pmem s) b = rom b;
}.

(** The state with new tables. *)
Definition retabled (s : mstate) (m : memory) (infos : list mmu_L2_page_info) (backing : Z) : mstate :=
  mk_mstate m (core0 s) (core1 s) (is_cpu1_ready s) (with_infos (global_mmu_conf s) infos) backing
            (mmu_globals_initialised s) (registry s) (mallocs s) (buffers s).

(** Composed state updates as one state. *)
Ltac state_eq :=
  unfold set_backing, set_pmem, set_infos, set_cores, set_virt, retabled;
  cbn [pmem core0 core1 is_cpu1_ready global_mmu_conf backing_page_index mmu_globals_initialised
       registry mallocs buffers].

(** A ROM patch as [find_L2_for_patch] means it. *)
Record rom_patch (p : mpatch) : Prop := {
  rp_rom : ROM_START < p_addr p;
  rp_size : 4 <= p_size p <= MMU_PAGE_SIZE;
  rp_end : p_addr p + p_size p <= 2 ^ 32;
}.

(** The check on the page boundary. *)
Definition spans (p : mpatch) : bool :=
  u32 (Z.land (p_addr p) 0xffff0000 + MMU_PAGE_SIZE) <? u32 (p_addr p + p_size p).

Lemma rom_patch_addr p : rom_patch p -> ROM_START <= p_addr p < 2 ^ 32.
Proof. intros [H1 H2 H3]. unfold ROM_START in *. lia. Qed.

(** It refuses patches that cross a boundary, and in the last page of the
    address space those that do not end with it. *)
Lemma spans_iff p : rom_patch p ->
  spans p = true <-> 2 ^ 16 < p_addr p mod 2 ^ 16 + p_size p \/
                     (0xFFFF0000 <= p_addr p /\ p_addr p + p_size p < 2 ^ 32).
Proof.
  intros Hr. pose proof (rom_patch_addr p Hr) as Ha. destruct Hr as [_ Hs He].
  unfold spans, MMU_PAGE_SIZE, ROM_START, u32 in *. rewrite mask_page, Z.ltb_lt by lia.
  Z.div_mod_to_equations; lia.
Qed.

Lemma not_spans p : rom_patch p -> spans p = false -> p_addr p mod 2 ^ 16 + p_size p <= 2 ^ 16.
Proof. intros Hr Hs. apply not_true_iff_false in Hs. rewrite spans_iff in Hs by done. lia. Qed.

Lemma alter_insert {A} (f : A -> A) (l : list A) j x : alter f j (<[j := x]> l) = <[j := f x]> l.
Proof. revert j. induction l as [|y l IH]; intros [|j]; try done. cbn. f_equal. apply IH. Qed.

Section apply.
Context `{Platform} `{Dryos}.
Variables (g : geometry) (rom : Z -> Z).
Hypothesis Hg : geo_ok g.

(** What [find_L2_for_patch] finds: a table, a page, and the copy of the ROM
    page when the page is fresh. *)
Record found (s s1 : mstate) (a : Z) (j : nat) (i : mmu_L2_page_info) (page backing' : Z) : Prop := {
  fo_chosen : chosen (infos_of s) a j i;
  fo_next : next_page g (use_info i a) a (backing_page_index s) page backing';
  fo_state : exists m1, s1 = retabled s m1 (<[j := mk_info (<[slot a := page]> (phys_mem i)) (L2_table i)
                                        (a / 2 ^ 20 * 2 ^ 20) (in_use i)]> (infos_of s)) backing' /\
    m1 = (if phys_mem i !!! slot a =? 0
          then wrs (pmem s) page (rds (view (core0 s) (pmem s)) (a - a mod 2 ^ 16) (Z.to_nat MMU_PAGE_SIZE))
          else pmem s);
}.

Lemma retabled_id s : retabled s (pmem s) (infos_of s) (backing_page_index s) = s.
Proof. unfold retabled, with_infos, infos_of. destruct s as [? ? ? ? [] ? ? ? ? ?]. done. Qed.

Lemma assign_ok_found s p j i :
  mem_inv g rom s -> rom_patch p -> chosen (infos_of s) (p_addr p) j i ->
  (assign_64k_to_L2_table s p j = (-1, s) /\
   phys_mem i !!! slot (p_addr p) = 0 /\ backing_page_index s = g_max g) \/
  (exists page backing' s1, assign_64k_to_L2_table s p j = (0, s1) /\
     next_page g (use_info i (p_addr p)) (p_addr p) (backing_page_index s) page backing' /\
     s1 = retabled s (if phys_mem i !!! slot (p_addr p) =? 0
          then wrs (pmem s) page (rds (view (core0 s) (pmem s)) (p_addr p - p_addr p mod 2 ^ 16) (Z.to_nat MMU_PAGE_SIZE))
          else pmem s)
       (<[j := mk_info (<[slot (p_addr p) := page]> (phys_mem i)) (L2_table i) (virt_page_mapped i) (in_use i)]>
          (infos_of s)) backing').
Proof.
  intros Hi Hr Hc. pose proof (rom_patch_addr p Hr) as Ha. set (a := p_addr p) in *.
  pose proof (mi_book _ _ _ Hi) as Hb. pose proof (b_backing _ _ _ Hb) as Hbk.
  pose proof (chosen_lookup _ _ _ _ Hc) as Hl. pose proof (b_length _ _ _ Hb j i Hl) as Hlen.
  pose proof (mi_geo _ _ _ Hi) as Eg. destruct (go_pages _ Hg) as (_ & Hpp & _ & Hpe).
  assert (Emax : max_64k_pages_remapped (global_mmu_conf s) = g_max g) by (by rewrite <- Eg).
  assert (Epp : phys_mem_pages (global_mmu_conf s) = g_pages g) by (by rewrite <- Eg).
  unfold assign_64k_to_L2_table. fold a (infos_of s). rewrite Hl, page_slot_eq, Emax, Epp.
  destruct (phys_mem i !!! slot a =? 0) eqn:Ep; to_prop.
  - destruct (g_max g <=? backing_page_index s) eqn:Em; to_prop; [left; split_and!; [done|done|lia]|].
    right. exists (g_pages g + MMU_PAGE_SIZE * backing_page_index s), (backing_page_index s + 1).
    eexists. split; [reflexivity|]. split; [right; split_and!; [done|lia|done|done]|].
    unfold ROM_START, MMU_PAGE_SIZE in *. rewrite (mask_page a) by lia.
    state_eq. rewrite !u32_small by lia. reflexivity.
  - right. exists (phys_mem i !!! slot a), (backing_page_index s), s. split; [done|].
    split; [left; split_and!; done|].
    rewrite (list_insert_id (phys_mem i)) by (apply list_lookup_lookup_total_lt; rewrite Hlen; apply slot_lt).
    rewrite list_insert_id by (by rewrite Hl; destruct i). by rewrite retabled_id.
Qed.

Lemma find_L2_ok s p :
  mem_inv g rom s -> rom_patch p ->
  (find_L2_for_patch s p = (None, s) /\
   (spans p = true \/ (page_at (infos_of s) (p_addr p) = 0 /\ backing_page_index s = g_max g))) \/
  (exists j i page backing' s1, find_L2_for_patch s p = (Some j, s1) /\ spans p = false /\
     found s s1 (p_addr p) j i page backing').
Proof.
  intros Hi Hr. pose proof (rom_patch_addr p Hr) as Ha. set (a := p_addr p) in *.
  pose proof (mi_book _ _ _ Hi) as Hb. pose proof (b_backing _ _ _ Hb) as Hbk.
  assert (Hlen : length (infos_of s) = Z.to_nat (g_max g)).
  { apply Nat2Z.inj. rewrite Z2Nat.id by lia. rewrite <- (go_length _ Hg), <- (b_L2 _ _ _ Hb). by rewrite length_fmap. }
  unfold find_L2_for_patch. rewrite (mi_max _ _ _ Hi). fold a (infos_of s).
  destruct (Z.to_nat (g_max g) =? 0)%nat eqn:E0.
  { apply Nat.eqb_eq in E0. left. split; [done|]. right. split; [|lia].
    apply page_at_none. intros j i Hl. apply lookup_lt_Some in Hl. lia. }
  change (u32 (Z.land a 0xffff0000 + MMU_PAGE_SIZE) <? u32 (a + p_size p)) with (spans p).
  destruct (spans p) eqn:Esp; [left; by split; [|left]|].
  assert (Hge : forall j i, (Z.to_nat (g_max g) <= j)%nat -> infos_of s !! j = Some i -> False).
  { intros j i Hj Hl. apply lookup_lt_Some in Hl. lia. }
  unshelve epose proof (find_loop_ok (infos_of s) a (Z.to_nat (g_max g)) None _ _ _ _ _) as Hloop;
    [unfold ROM_START in Ha; lia|lia|by intros j i Hj Hl; destruct (Hge j i Hj Hl)|done
    |by intros _ j i Hj Hl; destruct (Hge j i Hj Hl)|].
  destruct (find_L2_loop (infos_of s) a _ None) as [j|[j|]].
  - destruct Hloop as (i & Hs). assert (Hc : chosen (infos_of s) a j i) by (by left).
    destruct (assign_ok_found s p j i Hi Hr Hc) as [(-> & Hz & Hm)|(page & bk & s1 & -> & Hn & Es)].
    + left. split; [done|]. right. split; [|done]. by rewrite (page_at_before g _ _ _ j i Hb Hc).
    + right. exists j, i, page, bk, s1. split; [done|]. split; [done|]. split; [done|done|].
      eexists. split; [|reflexivity]. destruct Hs as (_ & _ & Hv). rewrite Es. fold a. by rewrite Hv.
  - destruct Hloop as (i & Hl & Hnu & Hus). assert (Hc : chosen (infos_of s) a j i) by (right; done).
    destruct (assign_ok_found s p j i Hi Hr Hc) as [(-> & Hz & Hm)|(page & bk & s1 & -> & Hn & Es)].
    + left. split; [done|]. right. split; [|done]. by rewrite (page_at_before g _ _ _ j i Hb Hc).
    + right. exists j, i, page, bk. eexists. split; [reflexivity|]. split; [done|]. split; [done|done|].
      eexists. split; [|reflexivity]. rewrite Es. unfold set_virt, set_infos, retabled. cbn.
      rewrite mask_section by (unfold ROM_START in Ha; lia). f_equal. f_equal.
      by rewrite alter_insert.
  - destruct Hloop as [Hus Hall]. left. split; [done|]. right. split; [by apply page_at_none|].
    by apply (all_used_exhausted g (infos_of s)); [|done|apply (mi_busy _ _ _ Hi)|].
Qed.

(** The edits on a found table. *)
Definition edited (m1 : memory) (p : mpatch) (i : mmu_L2_page_info) (page f : Z) : memory :=
  let a := p_addr p in
  let m := snd (split_l1_supersection m1 a (g_L1 g)) in
  let m := if in_use i =? 0 then replace_section_with_l2_table m a (g_L1 g) (L2_table i) f else m in
  let m := replace_rom_page m (a - a mod 2 ^ 16) page (L2_table i) f in
  if 4 <? p_size p then wrs m (page + a mod 2 ^ 16) (pointed p (p_new_values p))
  else st32 m (page + a mod 2 ^ 16) (p_new_value p).

Lemma edit_tables_found s s1 p j i page backing' f :
  mem_inv g rom s -> rom_patch p -> found s s1 (p_addr p) j i page backing' ->
  edit_tables s1 p j f
  = retabled s (edited (pmem s1) p i page f) (new_infos (infos_of s) (p_addr p) j i page) backing'.
Proof.
  intros Hi Hr [Hc _ (m1 & -> & _)]. pose proof (rom_patch_addr p Hr) as Ha. destruct Hr as [_ Hs _].
  pose proof (mi_book _ _ _ Hi) as Hb. pose proof (chosen_lookup _ _ _ _ Hc) as Hl.
  pose proof (lookup_lt_Some _ _ _ Hl) as Hlt. pose proof (b_length _ _ _ Hb j i Hl) as Hlen.
  assert (El1 : L1_table (global_mmu_conf s) = g_L1 g) by (by rewrite <- (mi_geo _ _ _ Hi)).
  unfold edit_tables. state_eq. cbn [with_infos L2_tables L1_table].
  rewrite list_lookup_insert_eq by done. cbn [in_use L2_table phys_mem virt_page_mapped].
  unfold ROM_START in Ha. rewrite page_slot_eq, mask_page, El1, (land_lo 16) by lia.
  rewrite list_lookup_total_insert_eq by (rewrite Hlen; apply slot_lt).
  rewrite list_insert_insert_eq. unfold edited, new_infos, page_info, use_info.
  cbn [in_use L2_table phys_mem virt_page_mapped].
  destruct (4 <? p_size p) eqn:E4; [done|]. to_prop. by rewrite (proj2 (Z.eqb_eq (p_size p) 4)) by lia.
Qed.

(** The copy of the ROM page shows what the tables showed. *)
Lemma copy_shows s s1 a j i page backing' b :
  mem_inv g rom s -> ROM_START <= a < 2 ^ 32 -> found s s1 a j i page backing' ->
  (page_at (infos_of s) a = 0 -> forall b, same_page a b -> view (core0 s) (pmem s) b = rd8 (pmem s) b) ->
  same_page a b -> rd8 (pmem s1) (page + b mod 2 ^ 16) = shows (pmem s) (infos_of s) b.
Proof.
  intros Hi Ha [Hc Hn (m1 & -> & ->)] Hv Hp. pose proof (mi_book _ _ _ Hi) as Hb. cbn [retabled pmem].
  pose proof (page_at_before g _ _ a j i Hb Hc) as Hpa.
  unfold shows, xlat. rewrite (page_at_same (infos_of s) a b Hp), Hpa.
  destruct (phys_mem i !!! slot a =? 0) eqn:E; to_prop.
  - rewrite rd8_wrs, length_rds, Z2Nat.id by (unfold MMU_PAGE_SIZE; lia).
    assert (Hm : 0 <= b mod 2 ^ 16 < 2 ^ 16) by (apply Z.mod_pos_bound; lia).
    rewrite decide_True by (unfold MMU_PAGE_SIZE; lia).
    rewrite rds_lookup by (unfold MMU_PAGE_SIZE; lia).
    replace (a - a mod 2 ^ 16 + _) with b by (unfold same_page in Hp; Z.div_mod_to_equations; lia).
    rewrite Hv by (congruence || done). apply u8_small, rd8_range.
  - destruct Hn as [(_ & -> & _)|(Hz & _)]; [done|]. cbn in Hz. done.
Qed.

Lemma found_frame s s1 a j i page backing' :
  found s s1 a j i page backing' -> frame page (page + 2 ^ 16) (pmem s) (pmem s1).
Proof.
  intros [_ _ (m1 & -> & ->)]. cbn [retabled pmem]. case_goal; [|apply frame_refl].
  eapply frame_widen; [| |apply wrs_frame]; [lia|]. rewrite length_rds. unfold MMU_PAGE_SIZE. lia.
Qed.

Lemma edited_bytes m1 p i page f :
  mem_eq (edited m1 p i page f)
    (wrs (replace_rom_page
            (if in_use i =? 0
             then replace_section_with_l2_table (snd (split_l1_supersection m1 (p_addr p) (g_L1 g))) (p_addr p)
                    (g_L1 g) (L2_table i) f
             else snd (split_l1_supersection m1 (p_addr p) (g_L1 g)))
            (p_addr p - p_addr p mod 2 ^ 16) page (L2_table i) f)
         (page + p_addr p mod 2 ^ 16) (new_bytes p)).
Proof. unfold edited, new_bytes. destruct (4 <? p_size p); [done|]. symmetry. apply wrs_word. Qed.

(** An accepted patch: the invariant holds again, memory that is not ours is
    as it was, and the ROM changed by the bytes of the patch. *)
Lemma edited_ok s s1 p j i page backing' f :
  mem_inv g rom s -> rom_patch p -> spans p = false -> found s s1 (p_addr p) j i page backing' ->
  0 <= f < 2 ^ 16 ->
  (page_at (infos_of s) (p_addr p) = 0 ->
     forall b, same_page (p_addr p) b -> view (core0 s) (pmem s) b = rd8 (pmem s) b) ->
  let m' := edited (pmem s1) p i page f in
  let infos' := new_infos (infos_of s) (p_addr p) j i page in
  book g infos' backing' /\ tabs (g_L1 g) m' infos' /\
  (forall b, ~ in_area g b -> rd8 m' b = rd8 (pmem s) b) /\
  (forall b, ROM_START <= b < 2 ^ 32 ->
     shows m' infos' b = put (shows (pmem s) (infos_of s)) (p_addr p) (new_bytes p) b) /\
  (forall b, ROM_START <= b < 2 ^ 32 ->
     page_at infos' b = if decide (same_page (p_addr p) b) then page else page_at (infos_of s) b).
Proof.
  intros Hi Hr Hsp Hfo Hf Hv. pose proof (rom_patch_addr p Hr) as Ha.
  pose proof (mi_book _ _ _ Hi) as Hb. pose proof (mi_tabs _ _ _ Hi) as Ht.
  pose proof (found_frame _ _ _ _ _ _ _ Hfo) as Hfr.
  pose proof (fun b => copy_shows s s1 (p_addr p) j i page backing' b Hi Ha Hfo Hv) as Hcopy.
  destruct Hfo as [Hc Hn _]. pose proof (next_pool g _ _ backing' _ j i page Hb Hc Hn) as Hpool.
  destruct (pool_ok g page Hg Hpool) as (Hpal & Hp0 & _ & Hc1 & Hc2).
  assert (Hcl : forall j' x, infos_of s !! j' = Some x -> clear page (2 ^ 16) (L2_table x) MMU_L2_TABLE_SIZE).
  { intros j' x Hx. destruct (geo_L2 g _ _ j' x Hg Hb Hx) as (Hg2 & _). by apply (Hc2 j'). }
  assert (Ht1 : tabs (g_L1 g) (pmem s1) (infos_of s)).
  { eapply (tabs_frame g (pmem s) (pmem s1) _ (backing_page_index s) page (page + 2 ^ 16)); try done.
    - by replace (page + 2 ^ 16 - page) with (2 ^ 16) by lia.
    - intros j' x Hx _. replace (page + 2 ^ 16 - page) with (2 ^ 16) by lia. by apply (Hcl j'). }
  pose proof (tabs_redirect g _ _ _ _ j i page f Hg Hb Ht1 Ha Hc Hf Hpal Hp0) as Ht4.
  pose proof (redirect_same g _ _ _ _ j i page f Hg Hb Ht1 Ha Hc Hf Hpal Hp0) as Hsame.
  cbv zeta in Ht4, Hsame. pose proof (edited_bytes (pmem s1) p i page f) as Hm5.
  set (m4 := replace_rom_page _ _ _ _ _) in *.
  set (m5 := edited (pmem s1) p i page f) in *.
  assert (Hlen : p_addr p mod 2 ^ 16 + Z.of_nat (length (new_bytes p)) <= 2 ^ 16).
  { pose proof (not_spans p Hr Hsp). destruct Hr as [_ Hs _]. rewrite length_new_bytes by lia. lia. }
  pose proof (book_new g _ _ backing' _ j i page Hg Hb Ha Hc Hn) as Hb'.
  cbv zeta. split_and!; [done| | | |].
  - eapply (tabs_frame g m4 m5 _ backing' page (page + 2 ^ 16)); try done.
    + exact (page_frame (p_addr p) page m4 m5 (new_bytes p) Hm5 Hlen).
    + by replace (page + 2 ^ 16 - page) with (2 ^ 16) by lia.
    + intros j' x Hx _. replace (page + 2 ^ 16 - page) with (2 ^ 16) by lia.
      destruct (geo_L2 g _ _ j' x Hg Hb' Hx) as (Hg2 & _). by apply (Hc2 j').
  - intros b Hnb. by eapply (outside_same g (pmem s) (infos_of s) _ backing' (p_addr p) j i page).
  - intros b Hbr. by eapply (shows_new g (pmem s) (infos_of s) _ backing' (p_addr p) j i page).
  - intros b Hbr. by apply (page_at_redirect g _ (backing_page_index s) backing').
Qed.

Lemma busy_new infos backing backing' a j i page :
  book g infos backing -> busy infos -> chosen infos a j i ->
  next_page g (use_info i a) a backing page backing' -> busy (new_infos infos a j i page).
Proof.
  intros Hb Hbu Hc Hn j' x Hx Hu. pose proof (chosen_lookup _ _ _ _ Hc) as Hl.
  apply lookup_upd in Hx as [[-> ->]|[_ Hx]]; [|by apply (Hbu j')|by apply lookup_lt_Some in Hl].
  exists (slot a). split; [apply slot_lt|]. cbn. rewrite list_lookup_total_insert_eq.
  - pose proof (next_pool g infos backing backing' a j i page Hb Hc Hn) as Hp.
    destruct (pool_ok g page Hg Hp) as (_ & ? & _). lia.
  - rewrite (b_length _ _ _ Hb j i Hl). apply slot_lt.
Qed.

Lemma apply_data_ok s p :
  mem_inv g rom s -> rom_patch p -> 0 <= patch_flags (view (core0 s) (pmem s)) < 2 ^ 16 ->
  (page_at (infos_of s) (p_addr p) = 0 ->
     forall b, same_page (p_addr p) b -> view (core0 s) (pmem s) b = rd8 (pmem s) b) ->
  (apply_data_patch s p = (E_PATCH_BAD_MMU_PAGE, s) /\
   (spans p = true \/ (page_at (infos_of s) (p_addr p) = 0 /\ backing_page_index s = g_max g))) \/
  (spans p = false /\ exists m' infos' backing',
     apply_data_patch s p = (0, retabled s m' infos' backing') /\
     mem_inv g rom (retabled s m' infos' backing') /\
     (forall b, ~ in_area g b -> rd8 m' b = rd8 (pmem s) b) /\
     (forall b, ROM_START <= b < 2 ^ 32 ->
        shows m' infos' b = put (shows (pmem s) (infos_of s)) (p_addr p) (new_bytes p) b) /\
     (forall b, ROM_START <= b < 2 ^ 32 ->
        page_at infos' b <> 0 <-> same_page (p_addr p) b \/ page_at (infos_of s) b <> 0) /\
     (forall b, ROM_START <= b < 2 ^ 32 ->
        page_at (infos_of s) b <> 0 -> page_at infos' b = page_at (infos_of s) b) /\
     backing' = backing_page_index s + (if page_at (infos_of s) (p_addr p) =? 0 then 1 else 0)).
Proof.
  intros Hi Hr Hf Hv. unfold apply_data_patch.
  destruct (find_L2_ok s p Hi Hr) as [(-> & Href)|(j & i & page & bk & s1 & -> & Hsp & Hfo)]; [by left|].
  right. split; [done|]. pose proof (rp_size _ Hr) as Hs. rewrite (proj2 (Z.ltb_ge _ _)) by lia.
  pose proof (rom_patch_addr p Hr) as Ha.
  rewrite (edit_tables_found s s1 p j i page bk) by done.
  destruct (edited_ok s s1 p j i page bk _ Hi Hr Hsp Hfo Hf Hv) as (Hb & Ht & Hout & Hsh & Hpg).
  eexists _, _, bk. split; [reflexivity|]. destruct Hfo as [Hc Hn _].
  pose proof (next_pool g _ _ bk _ j i page (mi_book _ _ _ Hi) Hc Hn) as Hpool.
  destruct (pool_ok g page Hg Hpool) as (_ & Hp0 & _).
  split_and!; [|done|done| | |].
  - destruct Hi as [H1 H2 H3 H4 H5 H6]. split; cbn; try done.
    + rewrite <- H1. unfold geometry_of. cbn. f_equal. rewrite (b_L2 _ _ _ Hb), <- H1. done.
    + by apply (busy_new _ (backing_page_index s) bk).
    + intros b Hbr. rewrite Hout; [by apply H6|]. apply rom_not_in_area; [exact Hg|exact Hbr].
  - intros b Hbr. rewrite Hpg by done. case_decide; [split; [by left|lia]|].
    split; [by right|by intros [?|?]].
  - intros b Hbr Hnz. rewrite Hpg by done. case_decide as Hp; [|done]. rewrite (page_at_same _ _ _ Hp) in Hnz |- *.
    rewrite (page_at_before g _ _ _ j i (mi_book _ _ _ Hi) Hc) in Hnz |- *.
    by destruct Hn as [(_ & E & _)|(Hz & _)]; cbn in *.
  - rewrite (page_at_before g _ _ _ j i (mi_book _ _ _ Hi) Hc).
    destruct Hn as [(Hnz & E & ->)|(Hz & _ & _ & ->)]; cbn in *.
    + rewrite <- E, (proj2 (Z.eqb_neq _ _)) by done. lia.
    + by rewrite Hz.
Qed.
End apply.
