(* ===== verification/MmuCore.v ===== *)
(** * Cores, Canon's tables and page attributes

    What a core sees through its translation buffer and its tables, what is
    assumed of the tables Canon ships in ROM, and the attributes of the pages
    Magic Lantern maps. *)
From S2P Require Import Prelude CacheHacks Patch Mmu MmuTables Patch678 PatchMmu MmuInv MmuRom MmuApply.

(** ** Cores *)

(** A core on table [tab] whose cached translations agree with it. *)
Definition core_on (tab : Z) (m : memory) (c : core) : Prop :=
  ttbr1 c = tab /\
  forall pg f, tlb c !! pg = Some f -> 0xE0000 <= pg < 2 ^ 20 ->
    forall o, 0 <= o < 2 ^ 12 -> walk m tab (pg * 2 ^ 12 + o) = Some (f * 2 ^ 12 + o).

(** Descriptors translate whole 4 kB pages. *)
Lemma l2_page_offset e va pa o :
  0 <= e < 2 ^ 32 -> 0 <= va < 2 ^ 32 -> 0 <= o < 2 ^ 12 -> l2_page e va = Some pa ->
  l2_page e (va / 2 ^ 12 * 2 ^ 12 + o) = Some (pa / 2 ^ 12 * 2 ^ 12 + o).
Proof.
  intros He Hva Ho. unfold l2_page.
  rewrite !(land_hi 16), !(land_hi 12), !(land_lo 16), !(land_lo 12) by lia.
  case_goal; [|case_goal; [|done]]; intros [= <-]; f_equal; Z.div_mod_to_equations; lia.
Qed.

Lemma walk_offset m l1 va pa o :
  0 <= va < 2 ^ 32 -> 0 <= o < 2 ^ 12 -> walk m l1 va = Some pa ->
  walk m l1 (va / 2 ^ 12 * 2 ^ 12 + o) = Some (pa / 2 ^ 12 * 2 ^ 12 + o).
Proof.
  intros Hva Ho. unfold walk. rewrite !(Z.shiftr_div_pow2 _ 20) by lia.
  replace ((va / 2 ^ 12 * 2 ^ 12 + o) / 2 ^ 20) with (va / 2 ^ 20) by (Z.div_mod_to_equations; lia).
  pose proof (ld32_range m (l1 + 4 * (va / 2 ^ 20))) as He. set (e := ld32 m _) in *.
  replace (Z.shiftr (va / 2 ^ 12 * 2 ^ 12 + o) 12) with (Z.shiftr va 12)
    by (rewrite !Z.shiftr_div_pow2 by lia; Z.div_mod_to_equations; lia).
  rewrite !(land_hi 24), !(land_hi 20), !(land_lo 24), !(land_lo 20) by lia.
  repeat case_goal; try done.
  - intros [= <-]. f_equal. Z.div_mod_to_equations; lia.
  - intros [= <-]. f_equal. Z.div_mod_to_equations; lia.
  - apply l2_page_offset; [apply ld32_range|done|done].
Qed.

Lemma core_translate tab m c a x :
  core_on tab m c -> ROM_START <= a < 2 ^ 32 -> walk m tab a = Some x -> translate c m a = Some x.
Proof.
  intros [Ht Hc] Ha Hw. unfold translate. rewrite (proj2 (Z.ltb_ge _ _)) by lia.
  unfold ROM_START in Ha. rewrite Z.shiftr_div_pow2 by lia.
  destruct (tlb c !! (a / 2 ^ 12)) as [f|] eqn:E; [|by rewrite Ht].
  rewrite <- Hw. rewrite Z.shiftl_mul_pow2, (land_lo 12) by lia. symmetry.
  rewrite <- (Hc _ f E) by (Z.div_mod_to_equations; lia). f_equal. Z.div_mod_to_equations; lia.
Qed.

Lemma core_view tab m c a x :
  core_on tab m c -> ROM_START <= a < 2 ^ 32 -> walk m tab a = Some x -> view c m a = rd8 m x.
Proof. intros Hc Ha Hw. unfold view. by rewrite (core_translate tab m c a x). Qed.

Lemma ram_view c m a : a < ROM_START -> view c m a = rd8 m a.
Proof. intros Ha. unfold view, translate. by rewrite (proj2 (Z.ltb_lt _ _)). Qed.

Lemma view_byte c m a : 0 <= view c m a < 256.
Proof. unfold view. destruct (translate _ _ _); [apply rd8_range|lia]. Qed.

Lemma core_on_flushed tab m t0 : core_on tab m (mk_core t0 tab ∅).
Proof. split; [done|]. intros pg f. cbn. by rewrite lookup_empty. Qed.

(** Caching a translation at any time keeps a core consistent. *)
Lemma core_on_fill tab m c a : 0 <= a < 2 ^ 32 -> core_on tab m c -> core_on tab m (tlb_fill c m a).
Proof.
  intros Ha Hc. unfold tlb_fill. destruct (translate c m a) as [pa|] eqn:Et; [|done].
  destruct Hc as [Ht Hc]. split; [done|]. intros pg f. cbn [tlb]. rewrite !Z.shiftr_div_pow2 by lia.
  intros [[<- <-]|[_ Hl]]%lookup_insert_Some Hpg o Ho; [|by apply Hc].
  unfold translate in Et. rewrite (proj2 (Z.ltb_ge _ _)) in Et
    by (unfold ROM_START; Z.div_mod_to_equations; lia).
  rewrite Z.shiftr_div_pow2 in Et by lia. destruct (tlb c !! (a / 2 ^ 12)) as [f|] eqn:E.
  - injection Et as <-. rewrite (Hc _ f E) by lia. rewrite Z.shiftl_mul_pow2, (land_lo 12) by lia.
    f_equal. Z.div_mod_to_equations; lia.
  - rewrite Ht in Et. by apply walk_offset.
Qed.

(** A change of memory that keeps the translations keeps the core. *)
Lemma core_on_ext tab m m' c :
  (forall a, ROM_START <= a < 2 ^ 32 -> walk m' tab a = walk m tab a) -> core_on tab m c -> core_on tab m' c.
Proof.
  intros Hw [Ht Hc]. split; [done|]. intros pg f Hl Hpg o Ho.
  rewrite Hw by (unfold ROM_START; lia). by apply Hc.
Qed.

(** A core on table [tab] that may have missed changes to it: a translation it
    has cached agrees with the table, or is the one of a ROM page that was not
    remapped yet. *)
Definition core_lags (tab : Z) (m : memory) (c : core) : Prop :=
  ttbr1 c = tab /\
  forall pg f, tlb c !! pg = Some f -> 0xE0000 <= pg < 2 ^ 20 ->
    f = pg \/ forall o, 0 <= o < 2 ^ 12 -> walk m tab (pg * 2 ^ 12 + o) = Some (f * 2 ^ 12 + o).

Lemma core_on_lags tab m c : core_on tab m c -> core_lags tab m c.
Proof. intros [Ht Hc]. split; [done|]. intros pg f Hl Hpg. right. by apply Hc. Qed.

Lemma core_lags_view tab m c a x :
  core_lags tab m c -> ROM_START <= a < 2 ^ 32 -> walk m tab a = Some x -> view c m a = rd8 m x \/ view c m a = rd8 m a.
Proof.
  intros [Ht Hc] Ha Hw. unfold view, translate. rewrite (proj2 (Z.ltb_ge _ _)) by lia.
  unfold ROM_START in Ha. rewrite Z.shiftr_div_pow2 by lia.
  destruct (tlb c !! (a / 2 ^ 12)) as [f|] eqn:E; [|rewrite Ht, Hw; by left].
  rewrite Z.shiftl_mul_pow2, (land_lo 12) by lia.
  destruct (Hc _ f E) as [->|Hf]; [Z.div_mod_to_equations; lia| |].
  - right. f_equal. Z.div_mod_to_equations; lia.
  - left. specialize (Hf (a mod 2 ^ 12) ltac:(Z.div_mod_to_equations; lia)).
    replace (a / 2 ^ 12 * 2 ^ 12 + a mod 2 ^ 12) with a in Hf by (Z.div_mod_to_equations; lia). congruence.
Qed.

Lemma core_lags_fill tab m c a : 0 <= a < 2 ^ 32 -> core_lags tab m c -> core_lags tab m (tlb_fill c m a).
Proof.
  intros Ha Hc. unfold tlb_fill. destruct (translate c m a) as [pa|] eqn:Et; [|done].
  destruct Hc as [Ht Hc]. split; [done|]. intros pg f. cbn [tlb]. rewrite !Z.shiftr_div_pow2 by lia.
  intros [[<- <-]|[_ Hl]]%lookup_insert_Some Hpg; [|by apply Hc].
  unfold translate in Et. rewrite (proj2 (Z.ltb_ge _ _)) in Et
    by (unfold ROM_START; Z.div_mod_to_equations; lia).
  rewrite Z.shiftr_div_pow2 in Et by lia. destruct (tlb c !! (a / 2 ^ 12)) as [f|] eqn:E.
  - injection Et as <-. rewrite Z.shiftl_mul_pow2, (land_lo 12) by lia.
    replace ((f * 2 ^ 12 + a mod 2 ^ 12) / 2 ^ 12) with f by (Z.div_mod_to_equations; lia). by apply Hc.
  - rewrite Ht in Et. right. intros o Ho. by apply walk_offset.
Qed.

(** Only pages that were mapped to themselves change. *)
Lemma core_lags_ext tab m m' c :
  (forall a, ROM_START <= a < 2 ^ 32 -> walk m' tab a = walk m tab a \/ walk m tab a = Some a) ->
  core_lags tab m c -> core_lags tab m' c.
Proof.
  intros Hw [Ht Hc]. split; [done|]. intros pg f Hl Hpg. destruct (decide (f = pg)) as [->|Hne]; [by left|].
  right. intros o Ho. destruct (Hc pg f Hl Hpg) as [->|Hf]; [done|].
  destruct (Hw (pg * 2 ^ 12 + o)) as [->|E]; [unfold ROM_START; lia|by apply Hf|].
  rewrite Hf in E by done. injection E. lia.
Qed.

(** ** Canon's tables *)

Section canon.
Context `{Platform}.

Definition canon_entry (rom : Z -> Z) (s : Z) : Z := ldv 4 rom (CANON_ORIG_MMU_TABLE_ADDR + s * 4).

(** The tables in ROM, as the comments of [mmu_utils.c] and the code of
    [patch_mmu.c] rely on them: aligned, the ROM mapped to itself by sections
    or whole supersections, the RAM at 0x10000000 by either. *)
Record canon_ok (rom : Z -> Z) : Prop := {
  co_byte : forall b, 0 <= rom b < 256;
  co_at : CANON_ORIG_MMU_TABLE_ADDR mod 2 ^ 14 = 0 /\ ROM_START <= CANON_ORIG_MMU_TABLE_ADDR /\
          CANON_ORIG_MMU_TABLE_ADDR + MMU_L1_TABLE_SIZE <= 2 ^ 32;
  co_fw : ROM_START <= MAIN_FIRMWARE_ADDR < 2 ^ 32;
  co_flat : forall s, rom_section s ->
    flat_section (canon_entry rom s) s = true \/ flat_super (canon_entry rom s) s = true;
  co_group : forall s n, rom_section s -> 0 <= n < 16 -> is_super (canon_entry rom s) = true ->
    is_super (canon_entry rom (s / 16 * 16 + n)) = true;
  co_ram : Z.land (canon_entry rom 0x100) 3 = 2;
}.

Variable rom : Z -> Z.
Hypothesis Hco : canon_ok rom.

Lemma canon_entry_mem m s :
  (forall b, ROM_START <= b -> rd8 m b = rom b) -> 0 <= s < 0x1000 ->
  ld32 m (CANON_ORIG_MMU_TABLE_ADDR + s * 4) = canon_entry rom s.
Proof.
  intros Hr Hs. unfold canon_entry. rewrite <- ldv_ld. apply ldv_ext. intros b Hb. apply Hr.
  destruct (co_at _ Hco) as (_ & H1 & _). lia.
Qed.

(** On Canon's tables the ROM shows itself. *)
Lemma canon_walk m a :
  (forall b, ROM_START <= b -> rd8 m b = rom b) -> ROM_START <= a < 2 ^ 32 ->
  walk m CANON_ORIG_MMU_TABLE_ADDR a = Some a.
Proof.
  intros Hr Ha. pose proof (rom_section_of a Ha) as Hs.
  assert (E : ld32 m (CANON_ORIG_MMU_TABLE_ADDR + 4 * (a / 2 ^ 20)) = canon_entry rom (a / 2 ^ 20)).
  { rewrite Z.mul_comm. apply canon_entry_mem; [done|]. unfold rom_section in Hs. lia. }
  unfold ROM_START in Ha. destruct (co_flat _ Hco _ Hs) as [Hf|Hf].
  - apply walk_section; [lia|]. by rewrite E.
  - apply walk_super; [lia|]. by rewrite E.
Qed.

(** ** Attributes *)

Lemma flags_range val :
  Z.land (Z.lor (Z.lor (Z.lor (Z.lor (Z.shiftr (Z.land val 0x38000) 6) (Z.land val 0x7000))
                              (Z.shiftl (Z.land val 0x10) 11)) (Z.land val 0xc))
                (Z.shiftr (Z.land val 0xc00) 6)) (2 ^ 16 - 1)
  = Z.lor (Z.lor (Z.lor (Z.lor (Z.shiftr (Z.land val 0x38000) 6) (Z.land val 0x7000))
                        (Z.shiftl (Z.land val 0x10) 11)) (Z.land val 0xc))
          (Z.shiftr (Z.land val 0xc00) 6).
Proof. rewrite !Z.land_lor_distr_l, !Z.shiftr_land, Z.shiftl_land, <- !Z.land_assoc. reflexivity. Qed.

(** Reading the flags of a (super)section of Canon's table. *)
Lemma get_flags_ok rd a :
  (forall b, CANON_ORIG_MMU_TABLE_ADDR <= b < CANON_ORIG_MMU_TABLE_ADDR + MMU_L1_TABLE_SIZE -> rd b = rom b) ->
  0x2000000 <= a < 2 ^ 32 -> Z.land (canon_entry rom (a / 2 ^ 20)) 3 = 2 ->
  get_l2_largepage_flags_from_l1_section rd a CANON_ORIG_MMU_TABLE_ADDR
  = let val := canon_entry rom (a / 2 ^ 20) in
    Z.lor (Z.lor (Z.lor (Z.lor (Z.shiftr (Z.land val 0x38000) 6) (Z.land val 0x7000))
                        (Z.shiftl (Z.land val 0x10) 11)) (Z.land val 0xc))
          (Z.shiftr (Z.land val 0xc00) 6).
Proof.
  intros Hrd Ha H2. destruct (co_at _ Hco) as (Hal & Hlo & Hhi). unfold get_l2_largepage_flags_from_l1_section.
  rewrite (land_lo 14), Hal, mask_section by lia. cbn [Z.eqb negb].
  rewrite (proj2 (Z.ltb_ge _ _)) by (Z.div_mod_to_equations; lia).
  rewrite Z.shiftr_div_pow2, Z.shiftl_mul_pow2 by lia.
  assert (E : ldv 4 rd (CANON_ORIG_MMU_TABLE_ADDR + a / 2 ^ 20 * 2 ^ 20 / 2 ^ 20 * 2 ^ 2) = canon_entry rom (a / 2 ^ 20)).
  { unfold canon_entry. replace (a / 2 ^ 20 * 2 ^ 20 / 2 ^ 20 * 2 ^ 2) with (a / 2 ^ 20 * 4) by (Z.div_mod_to_equations; lia).
    apply ldv_ext. intros b Hb. apply Hrd. unfold MMU_L1_TABLE_SIZE. Z.div_mod_to_equations; lia. }
  rewrite E, H2. done.
Qed.

Definition rom_entry : Z := canon_entry rom (MAIN_FIRMWARE_ADDR / 2 ^ 24 * 16).
Definition ram_entry : Z := canon_entry rom 0x100.

Lemma flat_type e s : flat_section e s = true \/ flat_super e s = true -> Z.land e 3 = 2.
Proof.
  intros [[E _]%flat_section_inv|(E & _)%flat_super_inv]; by rewrite <- (land_sub e 0x40003), E.
Qed.

Lemma rom_entry_type : Z.land rom_entry 3 = 2.
Proof.
  apply flat_type with (MAIN_FIRMWARE_ADDR / 2 ^ 24 * 16). apply (co_flat _ Hco).
  pose proof (co_fw _ Hco) as Hf. unfold ROM_START, rom_section in *. Z.div_mod_to_equations; lia.
Qed.

(** The flags of a section in the format of a large page. *)
Definition section_flags (val : Z) : Z :=
  Z.lor (Z.lor (Z.lor (Z.lor (Z.shiftr (Z.land val 0x38000) 6) (Z.land val 0x7000))
                      (Z.shiftl (Z.land val 0x10) 11)) (Z.land val 0xc))
        (Z.shiftr (Z.land val 0xc00) 6).

Lemma patch_flags_eq rd :
  (forall b, CANON_ORIG_MMU_TABLE_ADDR <= b < CANON_ORIG_MMU_TABLE_ADDR + MMU_L1_TABLE_SIZE -> rd b = rom b) ->
  patch_flags rd
  = Z.lor (Z.land (section_flags rom_entry) (u32 (Z.lnot L2_LARGEPAGE_MEMTYPE_MASK)))
          (Z.land (section_flags ram_entry) L2_LARGEPAGE_MEMTYPE_MASK).
Proof.
  intros Hrd. pose proof (co_fw _ Hco) as Hf. unfold ROM_START in Hf.
  assert (E : Z.land MAIN_FIRMWARE_ADDR 0xff000000 / 2 ^ 20 = MAIN_FIRMWARE_ADDR / 2 ^ 24 * 16).
  { rewrite (land_hi 24) by lia. Z.div_mod_to_equations; lia. }
  unfold patch_flags. rewrite (get_flags_ok rd (Z.land MAIN_FIRMWARE_ADDR 0xff000000)), E; [|done| |].
  - rewrite (get_flags_ok rd 0x10000000); [done|done|lia|apply (co_ram _ Hco)].
  - rewrite (land_hi 24) by lia. Z.div_mod_to_equations; lia.
  - rewrite E. apply rom_entry_type.
Qed.

Lemma patch_flags_ok rd :
  (forall b, CANON_ORIG_MMU_TABLE_ADDR <= b < CANON_ORIG_MMU_TABLE_ADDR + MMU_L1_TABLE_SIZE -> rd b = rom b) ->
  0 <= patch_flags rd < 2 ^ 16.
Proof.
  intros Hrd. rewrite patch_flags_eq by done.
  assert (E : Z.land (Z.lor (Z.land (section_flags rom_entry) (u32 (Z.lnot L2_LARGEPAGE_MEMTYPE_MASK)))
          (Z.land (section_flags ram_entry) L2_LARGEPAGE_MEMTYPE_MASK)) (2 ^ 16 - 1)
    = Z.lor (Z.land (section_flags rom_entry) (u32 (Z.lnot L2_LARGEPAGE_MEMTYPE_MASK)))
          (Z.land (section_flags ram_entry) L2_LARGEPAGE_MEMTYPE_MASK)).
  { rewrite Z.land_lor_distr_l, <- !Z.land_assoc.
    rewrite (Z.land_comm (u32 _)), (Z.land_comm L2_LARGEPAGE_MEMTYPE_MASK), !Z.land_assoc.
    unfold section_flags. by rewrite !flags_range. }
  rewrite <- E, land_lo by lia. apply Z.mod_pos_bound. lia.
Qed.
End canon.

(** Access permissions (AP, APX, execute-never, shareable, not-global) and
    memory type (TEX, C, B) of a section and of a large page. *)
Definition section_access (e : Z) : list bool := map (Z.testbit e) [10; 11; 15; 4; 16; 17].
Definition section_memtype (e : Z) : list bool := map (Z.testbit e) [12; 13; 14; 3; 2].
Definition largepage_access (e : Z) : list bool := map (Z.testbit e) [4; 5; 9; 15; 10; 11].
Definition largepage_memtype (e : Z) : list bool := map (Z.testbit e) [12; 13; 14; 3; 2].

Ltac const_bits :=
  repeat match goal with
  | |- context [Z.testbit (Zpos ?c) ?k] =>
      let b := eval vm_compute in (Z.testbit (Zpos c) k) in change (Z.testbit (Zpos c) k) with b
  end.

Lemma page_bits base f n : base mod 2 ^ 16 = 0 -> 0 <= f < 2 ^ 16 -> 0 <= n < 16 ->
  Z.testbit (base + f) n = Z.testbit f n.
Proof.
  intros Hb Hf Hn. rewrite <- (Z.mod_pow2_bits_low (base + f) 16 n) by lia. f_equal.
  Z.div_mod_to_equations; lia.
Qed.

Lemma attributes_of_flags er ea :
  let f := largepage_flags
    (Z.lor (Z.land (section_flags er) (u32 (Z.lnot L2_LARGEPAGE_MEMTYPE_MASK)))
           (Z.land (section_flags ea) L2_LARGEPAGE_MEMTYPE_MASK)) in
  largepage_access f = section_access er /\ largepage_memtype f = section_memtype ea.
Proof.
  unfold largepage_flags, section_flags, largepage_access, section_access, largepage_memtype, section_memtype.
  change (u32 (Z.lnot L2_LARGEPAGE_MEMTYPE_MASK)) with 0xffff8ff3. unfold L2_LARGEPAGE_MEMTYPE_MASK.
  cbn [map]. split; repeat (apply (f_equal2 (@cons bool)); [|try reflexivity]); rewrite ?Z.lor_spec, ?Z.land_spec, ?Z.lor_spec, ?Z.land_spec,
    ?Z.lor_spec, ?Z.shiftr_spec, ?Z.shiftl_spec, ?Z.land_spec by lia; const_bits;
    rewrite ?andb_false_r, ?andb_true_r, ?orb_false_r, ?orb_false_l; reflexivity.
Qed.
