(* ===== verification/MmuPort.v ===== *)
(** * The MMU port behaves like a flat memory

    The invariant of the whole patch state, and that [PatchMmu] provides what
    [Patch678.PatchPortOk] asks of a port: with its page copies, L2 tables and
    translation buffers, ROM is memory that can be written. *)
From S2P Require Import Prelude CacheHacks Patch Mmu MmuTables Patch678 Patch678Props PatchMmu MmuInv MmuRom MmuApply MmuCore.

Section port.
Context `{Platform} `{HD : Dryos} `{HDok : !DryosOk}.
Variables (g : geometry) (rom : Z -> Z).
Hypothesis Hg : geo_ok g.
Hypothesis Hco : canon_ok rom.

(** Patches the port is made for: RAM outside the tables and pages, or ROM
    outside Canon's tables. *)
Definition mmu_ok (p : mpatch) : Prop :=
  (0 < p_addr p /\ p_addr p + p_size p <= ROM_START /\
   forall b, p_addr p <= b < p_addr p + p_size p -> ~ in_area g b) \/
  (ROM_START < p_addr p /\ p_size p <= MMU_PAGE_SIZE /\ p_addr p + p_size p <= 2 ^ 32 /\
   clear (p_addr p) (p_size p) CANON_ORIG_MMU_TABLE_ADDR MMU_L1_TABLE_SIZE).

(** The addresses of the port. *)
Definition mmu_dom (a : Z) : Prop := (0 <= a < ROM_START /\ ~ in_area g a) \/ ROM_START <= a < 2 ^ 32.

(** A registered patch; one of ROM has its page. *)
Definition reg_ok (infos : list mmu_L2_page_info) (p : mpatch) : Prop :=
  mmu_ok p /\ 4 <= p_size p /\
  (ROM_START < p_addr p -> p_addr p mod 2 ^ 16 + p_size p <= 2 ^ 16 /\ page_at infos (p_addr p) <> 0).

Record mmu_inv (s : mstate) : Prop := {
  mv_mem : mem_inv g rom s;
  mv_init : mmu_globals_initialised s = true;
  mv_core0 : core_on (g_L1 g) (pmem s) (core0 s);
  mv_core1 : core_on CANON_ORIG_MMU_TABLE_ADDR (pmem s) (core1 s) \/
             core_lags (g_L1 g) (pmem s) (core1 s);
  mv_canon : forall b, CANON_ORIG_MMU_TABLE_ADDR <= b < CANON_ORIG_MMU_TABLE_ADDR + MMU_L1_TABLE_SIZE ->
    shows (pmem s) (infos_of s) b = rom b;
  mv_reg : Forall (reg_ok (infos_of s)) (registry s);
}.

(** ** What a core sees *)

Lemma inv_walk s a : mem_inv g rom s -> ROM_START <= a < 2 ^ 32 ->
  walk (pmem s) (g_L1 g) a = Some (xlat (infos_of s) a).
Proof.
  intros Hi Ha. eapply tabs_walk; [exact Hg|apply (mi_book _ _ _ Hi)|apply (mi_tabs _ _ _ Hi)|exact Ha].
Qed.

Lemma view_shows s c a : mem_inv g rom s -> core_on (g_L1 g) (pmem s) c -> ROM_START <= a < 2 ^ 32 ->
  view c (pmem s) a = shows (pmem s) (infos_of s) a.
Proof. intros Hi Hc Ha. eapply core_view; [exact Hc|exact Ha|by apply inv_walk]. Qed.

Lemma view_canon s c a : mem_inv g rom s -> core_on CANON_ORIG_MMU_TABLE_ADDR (pmem s) c ->
  ROM_START <= a < 2 ^ 32 -> view c (pmem s) a = rom a.
Proof.
  intros Hi Hc Ha. rewrite (core_view _ _ _ _ a Hc Ha); [apply (mi_rom _ _ _ Hi); lia|].
  apply (canon_walk rom Hco); [apply (mi_rom _ _ _ Hi)|done].
Qed.

Lemma shows_unmapped s a : mem_inv g rom s -> ROM_START <= a -> page_at (infos_of s) a = 0 ->
  shows (pmem s) (infos_of s) a = rom a.
Proof. intros Hi Ha E. unfold shows, xlat. rewrite E. cbn [Z.eqb]. by apply (mi_rom _ _ _ Hi). Qed.

(** Cores that agree with their tables still do when the tables do not change. *)
Lemma cores_kept s s' c :
  mem_inv g rom s -> mem_inv g rom s' -> infos_of s' = infos_of s ->
  (core_on (g_L1 g) (pmem s) c -> core_on (g_L1 g) (pmem s') c) /\
  (core_on CANON_ORIG_MMU_TABLE_ADDR (pmem s) c -> core_on CANON_ORIG_MMU_TABLE_ADDR (pmem s') c).
Proof.
  intros Hi Hi' E. split; apply core_on_ext; intros a Ha.
  - by rewrite !inv_walk, E by done.
  - by rewrite !(canon_walk rom Hco) by (done || apply (mi_rom _ _ _ Hi) || apply (mi_rom _ _ _ Hi')).
Qed.

(** A core that has missed changes still only has when more pages are mapped. *)
Lemma lags_kept s s' c :
  mem_inv g rom s -> mem_inv g rom s' ->
  (forall a, ROM_START <= a < 2 ^ 32 -> page_at (infos_of s) a <> 0 -> page_at (infos_of s') a = page_at (infos_of s) a) ->
  core_lags (g_L1 g) (pmem s) c -> core_lags (g_L1 g) (pmem s') c.
Proof.
  intros Hi Hi' E. apply core_lags_ext. intros a Ha. rewrite !inv_walk by done. unfold xlat.
  destruct (decide (page_at (infos_of s) a = 0)) as [->|Hn]; [by right|]. left. by rewrite E.
Qed.

Lemma core1_kept s s' c :
  mem_inv g rom s -> mem_inv g rom s' -> infos_of s' = infos_of s ->
  core_on CANON_ORIG_MMU_TABLE_ADDR (pmem s) c \/ core_lags (g_L1 g) (pmem s) c ->
  core_on CANON_ORIG_MMU_TABLE_ADDR (pmem s') c \/ core_lags (g_L1 g) (pmem s') c.
Proof.
  intros Hi Hi' E [Hc|Hc]; [left; by apply (cores_kept s s' c)|right].
  apply (lags_kept s); try done. intros a _ _. by rewrite E.
Qed.

Lemma canon_kept s s' c :
  mem_inv g rom s -> mem_inv g rom s' ->
  core_on CANON_ORIG_MMU_TABLE_ADDR (pmem s) c -> core_on CANON_ORIG_MMU_TABLE_ADDR (pmem s') c.
Proof.
  intros Hi Hi'. apply core_on_ext. intros a Ha.
  by rewrite !(canon_walk rom Hco) by (done || apply (mi_rom _ _ _ Hi) || apply (mi_rom _ _ _ Hi')).
Qed.

(** ** Writes that leave the tables alone *)

(** Where a ROM address is read from. *)
Lemma xlat_place s a : mem_inv g rom s -> ROM_START <= a < 2 ^ 32 ->
  ROM_START <= xlat (infos_of s) a \/ in_area g (xlat (infos_of s) a).
Proof.
  intros Hi Ha. unfold xlat. destruct (page_at_pool g _ _ a (mi_book _ _ _ Hi)) as [E|Hp].
  - rewrite E. cbn [Z.eqb]. left. lia.
  - destruct (pool_ok g _ Hg Hp) as (_ & H0 & _). rewrite (proj2 (Z.eqb_neq _ _)) by lia. right.
    apply (pool_area g _ _ Hp). pose proof (Z.mod_pos_bound a (2 ^ 16)). lia.
Qed.

Lemma mem_inv_outside s m' :
  mem_inv g rom s -> (forall b, in_area g b \/ ROM_START <= b -> rd8 m' b = rd8 (pmem s) b) ->
  mem_inv g rom (set_pmem s m').
Proof.
  intros Hi Hm. destruct Hi as [H1 H2 H3 H4 H5 H6]. split; try done.
  - eapply tabs_ext; [| |apply (b_virt _ _ _ H3)|exact H5]; cbn [set_pmem pmem].
    + intros n Hn. apply ld_ext. intros b Hb. apply Hm. left. left.
      unfold rom_section, MMU_L1_TABLE_SIZE in *. lia.
    + intros j i p k Hl Hu Hp Hk. apply ld_ext. intros b Hb. apply Hm. left. right. right. left.
      destruct (geo_L2 g _ _ j i Hg H3 Hl) as (Hg2 & _). exists j, (L2_table i). split; [done|].
      unfold MMU_L2_TABLE_SIZE. lia.
  - intros b Hb. cbn [set_pmem pmem]. rewrite Hm by (by right). by apply H6.
Qed.

Lemma ram_write_inv s m' :
  mmu_inv s -> (forall b, in_area g b \/ ROM_START <= b -> rd8 m' b = rd8 (pmem s) b) ->
  mmu_inv (set_pmem s m') /\ forall b, ROM_START <= b < 2 ^ 32 -> view (core0 s) m' b = view (core0 s) (pmem s) b.
Proof.
  intros Hv Hm. pose proof (mv_mem _ Hv) as Hi. pose proof (mem_inv_outside s m' Hi Hm) as Hi'.
  assert (Hsh : forall b, ROM_START <= b < 2 ^ 32 -> shows m' (infos_of s) b = shows (pmem s) (infos_of s) b).
  { intros b Hb. apply Hm. destruct (xlat_place s b Hi Hb); [by right|by left]. }
  assert (Hc0 : core_on (g_L1 g) m' (core0 s)).
  { apply (cores_kept s (set_pmem s m') (core0 s) Hi Hi' eq_refl), (mv_core0 _ Hv). }
  split.
  - split; [done|apply (mv_init _ Hv)|done| | |apply (mv_reg _ Hv)].
    + by apply (core1_kept s (set_pmem s m') (core1 s) Hi Hi' eq_refl), (mv_core1 _ Hv).
    + intros b Hb. destruct (co_at _ Hco) as (_ & Hlo & Hhi). cbn. fold (infos_of s).
      rewrite Hsh by lia. by apply (mv_canon _ Hv).
  - intros b Hb. transitivity (shows m' (infos_of s) b); [exact (view_shows (set_pmem s m') (core0 s) b Hi' Hc0 Hb)|].
    rewrite (view_shows s (core0 s) b Hi (mv_core0 _ Hv) Hb). by apply Hsh.
Qed.

(** A store to RAM through a core. *)
Lemma vwrs_ram c m a l :
  0 <= a -> a + Z.of_nat (length l) <= ROM_START -> mem_eq (vwrs c m a l) (wrs m a l).
Proof.
  revert m a. induction l as [|x l IH]; intros m a Ha Hl; [done|]. cbn [length] in Hl.
  cbn [vwrs]. intros b. rewrite IH by lia. rewrite rd8_wrs. unfold vwr8, translate.
  rewrite (proj2 (Z.ltb_lt a ROM_START)) by lia. cbv iota. rewrite (proj2 (Z.ltb_lt a ROM_START)) by lia.
  cbn [wrs]. rewrite !rd8_wr8, rd8_wrs. repeat case_decide; done || lia.
Qed.

(** ** Applying a patch *)

(** The cores after [patch_memory_rom]. *)
Definition retaken (s : mstate) : mstate :=
  let s := set_cores s (take_tables s (core0 s) 0) (core1 s) in
  if is_cpu1_ready s then set_cores s (core0 s) (take_tables s (core1 s) 1) else s.

Lemma taken_core s c n : mem_inv g rom s -> core_on (g_L1 g) (pmem s) (take_tables s c n).
Proof.
  intros Hi. unfold take_tables. rewrite change_mmu_tables_spec.
  replace (L1_table (global_mmu_conf s)) with (g_L1 g) by (by rewrite <- (mi_geo _ _ _ Hi)).
  apply core_on_flushed.
Qed.

Lemma retaken_inv s :
  mem_inv g rom s -> mmu_globals_initialised s = true ->
  core_on CANON_ORIG_MMU_TABLE_ADDR (pmem s) (core1 s) \/ core_lags (g_L1 g) (pmem s) (core1 s) ->
  (forall b, CANON_ORIG_MMU_TABLE_ADDR <= b < CANON_ORIG_MMU_TABLE_ADDR + MMU_L1_TABLE_SIZE ->
     shows (pmem s) (infos_of s) b = rom b) ->
  Forall (reg_ok (infos_of s)) (registry s) -> mmu_inv (retaken s).
Proof.
  intros Hi Hin Hc1 Hca Hre. pose proof (taken_core s (core0 s) 0 Hi) as H0.
  assert (Hmi : mem_inv g rom (retaken s)).
  { unfold retaken. cbn [is_cpu1_ready set_cores]. by destruct Hi; case_goal; split. }
  unfold retaken in *. cbn [is_cpu1_ready set_cores] in *. destruct (is_cpu1_ready s) eqn:Er.
  - split; try done. right. exact (core_on_lags _ _ _ (taken_core s (core1 s) 1 Hi)).
  - by split.
Qed.

Lemma retaken_view s a :
  mem_inv g rom s -> ROM_START <= a < 2 ^ 32 -> view (core0 (retaken s)) (pmem s) a = shows (pmem s) (infos_of s) a.
Proof.
  intros Hi Ha. unfold retaken. cbn [is_cpu1_ready set_cores]. case_goal; cbn [core0 set_cores];
    apply view_shows; try done; by apply taken_core.
Qed.

Lemma patch_rom_eq s p :
  mmu_globals_initialised s = true -> 4 <= p_size p ->
  patch_memory_rom s 0 p = (fst (apply_data_patch s p), retaken (snd (apply_data_patch s p))).
Proof.
  intros Hin Hs. unfold patch_memory_rom. rewrite Hin, (proj2 (Z.ltb_ge _ _)) by lia. cbn [negb Z.eqb].
  destruct (apply_data_patch s p). done.
Qed.

(** What [apply_data_patch] needs holds in every state of the invariant. *)
Lemma inv_flags s : mmu_inv s -> 0 <= patch_flags (view (core0 s) (pmem s)) < 2 ^ 16.
Proof.
  intros Hv. apply (patch_flags_ok rom Hco). intros b Hb. destruct (co_at _ Hco) as (_ & Hlo & Hhi).
  rewrite (view_shows s) by (apply (mv_mem _ Hv) || apply (mv_core0 _ Hv) || lia). by apply (mv_canon _ Hv).
Qed.

Lemma inv_copy s a : mmu_inv s -> ROM_START <= a < 2 ^ 32 -> page_at (infos_of s) a = 0 ->
  forall b, same_page a b -> view (core0 s) (pmem s) b = rd8 (pmem s) b.
Proof.
  intros Hv Ha E b Hp. pose proof (mv_mem _ Hv) as Hi.
  assert (Hb : ROM_START <= b < 2 ^ 32) by (unfold same_page, ROM_START in *; Z.div_mod_to_equations; lia).
  rewrite (view_shows s) by (done || apply (mv_core0 _ Hv)). unfold shows, xlat.
  by rewrite (page_at_same _ a b Hp), E.
Qed.

Lemma rom_patch_of p : mmu_ok p -> 4 <= p_size p -> ROM_START < p_addr p -> rom_patch p.
Proof. intros [(_ & He & _)|(_ & Hs & He & _)] H4 Hr; [lia|]. split; [done|lia|done]. Qed.

(** A ROM patch: refused without effect, or visible to core 0. *)
Lemma patch_rom_ok s p :
  mmu_inv s -> mmu_ok p -> 4 <= p_size p -> ROM_START < p_addr p ->
  let e := fst (patch_memory_rom s 0 p) in
  let s' := snd (patch_memory_rom s 0 p) in
  mmu_inv s' /\ registry s' = registry s /\
  (forall a, mmu_dom a -> view (core0 s') (pmem s') a
     = if e =? 0 then put (view (core0 s) (pmem s)) (p_addr p) (new_bytes p) a else view (core0 s) (pmem s) a) /\
  (e = 0 -> spans p = false /\
     (page_at (infos_of s) (p_addr p) = 0 -> backing_page_index s < g_max g) /\
     (forall b, ROM_START <= b < 2 ^ 32 ->
        page_at (infos_of s') b <> 0 <-> same_page (p_addr p) b \/ page_at (infos_of s) b <> 0) /\
     backing_page_index s' = backing_page_index s + (if page_at (infos_of s) (p_addr p) =? 0 then 1 else 0)) /\
  (e <> 0 -> e = E_PATCH_BAD_MMU_PAGE /\
     (spans p = true \/ (page_at (infos_of s) (p_addr p) = 0 /\ backing_page_index s = g_max g)) /\
     infos_of s' = infos_of s /\ backing_page_index s' = backing_page_index s).
Proof.
  intros Hv Hok H4 Hr. pose proof (mv_mem _ Hv) as Hi. pose proof (rom_patch_of p Hok H4 Hr) as Hrp.
  pose proof (rom_patch_addr p Hrp) as Ha.
  rewrite patch_rom_eq by (done || apply (mv_init _ Hv)). cbn [fst snd].
  destruct (apply_data_ok g rom Hg s p Hi Hrp (inv_flags s Hv) (inv_copy s _ Hv Ha))
    as [(-> & Href)|(Hsp & m' & infos' & bk & -> & Hi' & Hout & Hsh & Hpg & Hkp & Hbk)]; cbn [fst snd].
  - assert (Hv' : mmu_inv (retaken s)).
    { apply retaken_inv; [done|apply (mv_init _ Hv)|apply (mv_core1 _ Hv)|apply (mv_canon _ Hv)|apply (mv_reg _ Hv)]. }
    assert (Em : pmem (retaken s) = pmem s) by (unfold retaken; by case_goal).
    split; [done|]. split; [unfold retaken; by case_goal|].
    split; [|by split; [|unfold retaken; case_goal]].
    intros a [[Hra _]|Hra]; rewrite Em.
    + change (E_PATCH_BAD_MMU_PAGE =? 0) with false. cbv iota. by rewrite !ram_view by lia.
    + change (E_PATCH_BAD_MMU_PAGE =? 0) with false. cbv iota.
      rewrite retaken_view by done. symmetry. apply view_shows; [done|apply (mv_core0 _ Hv)|done].
  - set (s1 := retabled s m' infos' bk) in *.
    assert (Em : pmem (retaken s1) = m') by (unfold retaken; by case_goal).
    assert (Ei : infos_of (retaken s1) = infos') by (unfold retaken; by case_goal).
    assert (Hv' : mmu_inv (retaken s1)).
    { apply retaken_inv; [done|apply (mv_init _ Hv)| | |].
      - destruct (mv_core1 _ Hv) as [Hc|Hc]; [left; by apply (canon_kept s s1)|right; by apply (lags_kept s s1)].
      - intros b Hb. destruct (co_at _ Hco) as (_ & Hlo & Hhi). cbn. rewrite Hsh by lia.
        destruct Hok as [(_ & He & _)|(_ & _ & _ & Hc)]; [lia|].
        rewrite put_out; [by apply (mv_canon _ Hv)|]. rewrite length_new_bytes by done. unfold clear in Hc. lia.
      - apply (Forall_impl _ _ _ (mv_reg _ Hv)). intros q (Hq & Hs & Hqr). split; [done|]. split; [done|].
        intros Hrq. destruct (Hqr Hrq) as [H1 H2]. split; [done|]. apply Hpg; [|by right].
        pose proof (rom_patch_addr q (rom_patch_of q Hq Hs Hrq)). lia. }
    split; [done|]. split; [unfold retaken; by case_goal|]. split; [|split; [|done]].
    + cbn [Z.eqb]. intros a [[Hra Hna]|Hra]; rewrite Em.
      * rewrite !ram_view, Hout by (done || lia). rewrite put_out by lia. by rewrite ram_view by lia.
      * transitivity (shows m' infos' a); [exact (retaken_view s1 a Hi' Hra)|]. rewrite Hsh by done.
        apply put_ext. symmetry. apply view_shows; [done|apply (mv_core0 _ Hv)|done].
    + intros _. rewrite Ei. split; [done|]. split; [|split; [done|by unfold retaken; case_goal]].
      intros E. pose proof (b_backing _ _ _ (mi_book _ _ _ Hi')) as Hle. cbn in Hle.
      rewrite Hbk, E in Hle. cbn [Z.eqb] in Hle. lia.
Qed.

(** A write to RAM outside the tables. *)
Lemma ram_store_ok s c a l :
  mmu_inv s -> 0 <= a -> a + Z.of_nat (length l) <= ROM_START ->
  (forall b, a <= b < a + Z.of_nat (length l) -> ~ in_area g b) ->
  let m' := vwrs c (pmem s) a l in
  mmu_inv (set_pmem s m') /\
  forall b, mmu_dom b -> view (core0 s) m' b = put (view (core0 s) (pmem s)) a l b.
Proof.
  intros Hv Ha Hl Har m'. pose proof (vwrs_ram c (pmem s) a l Ha Hl) as Hm.
  destruct (ram_write_inv s m' Hv) as [Hv' Hrom].
  { intros b Hb. unfold m'. rewrite Hm. apply wrs_frame.
    destruct (decide (a <= b < a + Z.of_nat (length l))) as [Hin|]; [|lia].
    destruct Hb as [Hb|Hb]; [by destruct (Har b Hin)|lia]. }
  split; [done|]. intros b [[Hb Hna]|Hb].
  - rewrite ram_view by lia. unfold m'. rewrite Hm, rd8_wrs. unfold put. by rewrite ram_view by lia.
  - rewrite Hrom by done. symmetry. apply put_out. lia.
Qed.

Lemma patch_ram_ok s p :
  mmu_inv s -> mmu_ok p -> 4 <= p_size p -> p_addr p <= ROM_START ->
  patch_memory_ram s 0 p = (0, set_pmem s (vwrs (core0 s) (pmem s) (p_addr p) (new_bytes p))) /\
  mmu_inv (set_pmem s (vwrs (core0 s) (pmem s) (p_addr p) (new_bytes p))) /\
  forall b, mmu_dom b -> view (core0 s) (vwrs (core0 s) (pmem s) (p_addr p) (new_bytes p)) b
                       = put (view (core0 s) (pmem s)) (p_addr p) (new_bytes p) b.
Proof.
  intros Hv Hok H4 Hr. split.
  - unfold patch_memory_ram. by rewrite (proj2 (Z.ltb_ge (p_size p) 4)) by lia.
  - destruct Hok as [(Ha & He & Har)|(Ha & _)]; [|lia]. pose proof (length_new_bytes p H4) as Hlen.
    apply ram_store_ok; [done|lia|lia|]. intros b Hb. apply Har. lia.
Qed.

(** ** Removing a patch *)

Lemma find_phys_loop_ok infos a cur j i :
  infos !! j = Some i -> virt_page_mapped i = a ->
  (forall j' i', infos !! j' = Some i' -> virt_page_mapped i' = a -> j' = j) ->
  find_phys_loop infos a cur = Some i.
Proof.
  revert cur j. induction infos as [|x infos IH]; intros cur j Hl Hv Hu; [done|]. cbn [find_phys_loop].
  destruct (virt_page_mapped x =? a) eqn:E; to_prop.
  - pose proof (Hu 0%nat x eq_refl E) as <-. by injection Hl as ->.
  - destruct j as [|j]; [injection Hl as ->; done|]. apply (IH _ j); [done|done|].
    intros j' i' Hl' Hv'. pose proof (Hu (S j') i' Hl' Hv'). lia.
Qed.

(** The page of a remapped address. *)
Lemma page_at_nonzero s a : mem_inv g rom s -> page_at (infos_of s) a <> 0 ->
  exists j i, serves (infos_of s) a j i /\ page_at (infos_of s) a = phys_mem i !!! slot a.
Proof.
  intros Hi Hnz. destruct (serves_or_not (infos_of s) a) as [(j & i & Hs)|Hn].
  - exists j, i. split; [done|]. by apply (page_at_serves g _ (backing_page_index s) a j), Hs; apply (mi_book _ _ _ Hi).
  - by rewrite page_at_none in Hnz.
Qed.

Lemma find_phys_mem_rom s a :
  mem_inv g rom s -> ROM_START < a < 2 ^ 32 -> page_at (infos_of s) a <> 0 ->
  find_phys_mem s a = page_at (infos_of s) a + a mod 2 ^ 16.
Proof.
  intros Hi Ha Hnz. pose proof (mi_book _ _ _ Hi) as Hb.
  destruct (page_at_nonzero s a Hi Hnz) as (j & i & (Hl & Hu & Hv) & E).
  unfold find_phys_mem, IS_ROM_PTR_78X. unfold ROM_START in Ha.
  rewrite (proj2 (Z.ltb_lt _ _)) by lia. cbn [negb]. rewrite (mi_max _ _ _ Hi). fold (infos_of s).
  rewrite take_ge.
  2:{ rewrite <- (go_length _ Hg), <- (b_L2 _ _ _ Hb), length_fmap, Nat2Z.id. done. }
  rewrite mask_section by lia. rewrite (find_phys_loop_ok _ _ _ j i Hl Hv).
  - rewrite page_slot_eq, <- E. rewrite (proj2 (Z.eqb_neq _ _) Hnz), (land_lo 16) by lia. done.
  - intros j' i' Hl' Hv'. destruct (decide (used i')) as [Hu'|Hu'].
    + apply (b_virt_inj _ _ _ Hb j' j i' i); [done|done|done|done|congruence].
    + destruct (b_unused _ _ _ Hb j' i' Hl' Hu') as [E0 _]. rewrite E0 in Hv'. Z.div_mod_to_equations; lia.
Qed.

(** Writing to the copy of a ROM page. *)
Lemma page_store_ok s a l :
  mmu_inv s -> ROM_START < a < 2 ^ 32 -> page_at (infos_of s) a <> 0 ->
  a mod 2 ^ 16 + Z.of_nat (length l) <= 2 ^ 16 ->
  (0 < Z.of_nat (length l) -> clear a (Z.of_nat (length l)) CANON_ORIG_MMU_TABLE_ADDR MMU_L1_TABLE_SIZE) ->
  let m' := vwrs (core0 s) (pmem s) (page_at (infos_of s) a + a mod 2 ^ 16) l in
  mmu_inv (set_pmem s m') /\
  forall b, mmu_dom b -> view (core0 s) m' b = put (view (core0 s) (pmem s)) a l b.
Proof.
  intros Hv Ha Hnz Hl Hcl m'. pose proof (mv_mem _ Hv) as Hi. pose proof (mi_book _ _ _ Hi) as Hb.
  destruct (page_at_nonzero s a Hi Hnz) as (j & i & Hs & Ep). pose proof Hs as (Hlk & Hu & Hvi).
  set (page := page_at (infos_of s) a) in *. assert (Ha' : ROM_START <= a < 2 ^ 32) by lia.
  assert (Hc : chosen (infos_of s) a j i) by (by left).
  assert (Hn : next_page g (use_info i a) a (backing_page_index s) page (backing_page_index s)).
  { left. by rewrite use_info_used. }
  assert (Enew : new_infos (infos_of s) a j i page = infos_of s).
  { unfold new_infos. rewrite use_info_used by done. apply list_insert_id. rewrite Hlk. f_equal.
    unfold page_info. rewrite Ep, list_insert_id; [by destruct i|]. apply list_lookup_lookup_total_lt.
    rewrite (b_length _ _ _ Hb j i Hlk). apply slot_lt. }
  pose proof (next_pool g _ _ _ _ j i page Hb Hc Hn) as Hpool.
  destruct (pool_ok g page Hg Hpool) as (_ & Hp0 & Hpe & Hc1 & Hc2).
  assert (Hoff : 0 <= a mod 2 ^ 16 < 2 ^ 16) by (apply Z.mod_pos_bound; lia).
  pose proof (vwrs_ram (core0 s) (pmem s) (page + a mod 2 ^ 16) l ltac:(lia) ltac:(lia)) as Hm.
  change (vwrs (core0 s) (pmem s) (page + a mod 2 ^ 16) l) with m' in Hm.
  assert (Hsb : same_but (g_L1 g) (L2_table i) (pmem s) (pmem s)) by done.
  assert (Hcopy : forall b, same_page a b -> rd8 (pmem s) (page + b mod 2 ^ 16) = shows (pmem s) (infos_of s) b).
  { intros b Hp. unfold shows, xlat. rewrite (page_at_same _ a b Hp). fold page.
    by rewrite (proj2 (Z.eqb_neq page 0)). }
  pose proof (page_frame a page (pmem s) m' l Hm Hl) as Hpf.
  assert (Hout : forall b, ~ in_area g b -> rd8 m' b = rd8 (pmem s) b).
  { exact (outside_same g (pmem s) (infos_of s) _ _ a j i page Hg Hb Hc Hn (pmem s) (pmem s) m' l
             (frame_refl _ _ _) Hsb Hm Hl). }
  assert (Hi' : mem_inv g rom (set_pmem s m')).
  { destruct Hi as [H1 H2 H3 H4 H5 H6]. split; try done.
    - eapply (tabs_frame g (pmem s) m' _ (backing_page_index s) page (page + 2 ^ 16)); try done.
      + by replace (page + 2 ^ 16 - page) with (2 ^ 16) by lia.
      + intros j' x Hx _. replace (page + 2 ^ 16 - page) with (2 ^ 16) by lia.
        destruct (geo_L2 g _ _ j' x Hg Hb Hx) as (Hg2 & _). by apply (Hc2 j').
    - intros b Hbr. cbn [set_pmem pmem]. rewrite Hout; [by apply H6|]. by apply rom_not_in_area. }
  assert (Hsh : forall b, ROM_START <= b < 2 ^ 32 ->
            shows m' (infos_of s) b = put (shows (pmem s) (infos_of s)) a l b).
  { intros b Hbr. rewrite <- Enew at 1.
    exact (shows_new g (pmem s) (infos_of s) _ _ a j i page Hg Hb Ha' Hc Hn (pmem s) (pmem s) m' l
             (frame_refl _ _ _) Hsb Hm Hl Hcopy b Hbr). }
  pose proof (cores_kept s (set_pmem s m') (core0 s) Hi Hi' eq_refl) as [Hk _].
  pose proof (Hk (mv_core0 _ Hv)) as Hc0. split.
  - split; [done|apply (mv_init _ Hv)|done| | |apply (mv_reg _ Hv)].
    + by apply (core1_kept s (set_pmem s m') (core1 s) Hi Hi' eq_refl), (mv_core1 _ Hv).
    + intros b Hb'. destruct (co_at _ Hco) as (_ & Hlo & Hhi). cbn. fold (infos_of s). rewrite Hsh by lia.
      rewrite put_out; [by apply (mv_canon _ Hv)|]. unfold clear in Hcl. lia.
  - intros b [[Hb' Hna]|Hb'].
    + rewrite ram_view, Hout by (done || lia). rewrite put_out by lia. by rewrite ram_view by lia.
    + transitivity (shows m' (infos_of s) b); [exact (view_shows (set_pmem s m') (core0 s) b Hi' Hc0 Hb')|].
      rewrite Hsh by done. apply put_ext. symmetry. apply view_shows; [done|apply (mv_core0 _ Hv)|done].
Qed.

(** ** The interface *)

Lemma inv_registry s l : mmu_inv s -> Forall (reg_ok (infos_of s)) l -> mmu_inv (set_registry s l).
Proof. intros [[? ? ? ? ? ?] ? ? ? ? ?] Hl. by split. Qed.

Lemma inv_heap s n b : mmu_inv s -> mmu_inv (set_heap s n b).
Proof. intros [[? ? ? ? ? ?] ? ? ? ? ?]. by split. Qed.

Lemma mmu_ok_dom p a : mmu_ok p -> p_addr p <= a < p_addr p + p_size p -> mmu_dom a.
Proof.
  intros [(H0 & He & Har)|(H0 & _ & He & _)] Ha; [left|right].
  - split; [lia|]. by apply Har.
  - unfold ROM_START in *. lia.
Qed.

Lemma mmu_ok_entry p : mmu_ok p -> mmu_ok (reg_entry p).
Proof. unfold mmu_ok. by rewrite entry_addr, entry_size. Qed.

Lemma is_rom_ptr a : IS_ROM_PTR_78X a = (ROM_START <? a).
Proof. done. Qed.

Lemma mmu_apply_ok s p :
  mmu_inv s -> mmu_ok p -> 4 <= p_size p ->
  exists e s', mmu_apply_patch s 0 p = (e, s') /\ mmu_inv s' /\ registry s' = registry s /\
    (forall a, mmu_dom a -> view (core0 s') (pmem s') a
       = if e =? 0 then put (view (core0 s) (pmem s)) (p_addr p) (new_bytes p) a else view (core0 s) (pmem s) a) /\
    (e = 0 -> reg_ok (infos_of s') (reg_entry p)).
Proof.
  intros Hv Hok H4. unfold mmu_apply_patch. rewrite is_rom_ptr.
  destruct (ROM_START <? p_addr p) eqn:Er; to_prop.
  - pose proof (patch_rom_ok s p Hv Hok H4 Er) as (Hv' & Hr & Hd & Hz & _).
    destruct (patch_memory_rom s 0 p) as [e s']. cbn [fst snd] in *. exists e, s'.
    split_and!; [done..|]. intros E. destruct (Hz E) as (Hsp & _ & Hpg & _). unfold reg_ok. rewrite entry_addr, entry_size.
    split; [by apply mmu_ok_entry|]. split; [done|]. intros _.
    pose proof (rom_patch_of p Hok H4 Er) as Hrp. split; [by apply not_spans|].
    apply Hpg; [by apply rom_patch_addr|by left].
  - destruct (patch_ram_ok s p Hv Hok H4 Er) as (-> & Hv' & Hd). eexists _, _. split; [done|].
    split_and!; [done|done|done|]. intros _. unfold reg_ok. rewrite entry_addr, entry_size.
    split; [by apply mmu_ok_entry|]. split; [done|]. lia.
Qed.

(** The write of [_unpatch_memory]. *)
Lemma unpatch_store s q :
  mmu_inv s -> reg_ok (infos_of s) q ->
  let m' := vwrs (core0 s) (pmem s) (find_phys_mem s (p_addr q)) (old_bytes q) in
  find_phys_mem s (p_addr q) <> 0 /\ mmu_inv (set_pmem s m') /\
  forall b, mmu_dom b -> view (core0 s) m' b = put (view (core0 s) (pmem s)) (p_addr q) (old_bytes q) b.
Proof.
  intros Hv (Hok & H4 & Hrom). pose proof (length_old_bytes q H4) as Hlen. pose proof (mv_mem _ Hv) as Hi.
  destruct (ROM_START <? p_addr q) eqn:Er; to_prop.
  - destruct (Hrom Er) as [Hsp Hnz]. pose proof (rom_patch_of q Hok H4 Er) as Hrp.
    pose proof (rom_patch_addr q Hrp) as Ha. rewrite find_phys_mem_rom by (done || lia).
    destruct (page_at_pool g _ _ (p_addr q) (mi_book _ _ _ Hi)) as [E|Hp]; [done|].
    destruct (pool_ok g _ Hg Hp) as (_ & H0 & _).
    split; [pose proof (Z.mod_pos_bound (p_addr q) (2 ^ 16)); lia|].
    apply page_store_ok; [done|lia|done|lia|]. intros _.
    destruct Hok as [(_ & He & _)|(_ & _ & _ & Hc)]; [lia|]. by rewrite Hlen, Z2Nat.id by lia.
  - destruct Hok as [(H0 & He & Har)|(Hx & _)]; [|lia].
    assert (E : find_phys_mem s (p_addr q) = p_addr q).
    { unfold find_phys_mem. rewrite is_rom_ptr. by rewrite (proj2 (Z.ltb_ge _ _)). }
    rewrite E. split; [lia|]. apply ram_store_ok; [done|lia|lia|]. intros b Hb. apply Har. lia.
Qed.

Lemma mmu_unpatch_ok s a :
  mmu_inv s ->
  match list_find (fun q => p_addr q = a) (registry s) with
  | None => _unpatch_memory s 0 a = (E_UNPATCH_OK, s)
  | Some (i, q) =>
      if mmu_still_applied s 0 q
      then exists s', _unpatch_memory s 0 a = (E_UNPATCH_OK, s') /\ mmu_inv s' /\
             registry s' = delete i (registry s) /\
             forall b, mmu_dom b ->
               view (core0 s') (pmem s') b = put (view (core0 s) (pmem s)) a (old_bytes q) b
      else _unpatch_memory s 0 a = (E_UNPATCH_OVERWRITTEN, s)
  end.
Proof.
  intros Hv. unfold _unpatch_memory. destruct (list_find _ _) as [[i q]|] eqn:Ef; [|done].
  apply list_find_Some in Ef as (Hl & <- & _).
  destruct (mmu_still_applied s 0 q); cbn [negb]; [|done].
  pose proof (mv_reg _ Hv) as Hreg. rewrite Forall_lookup in Hreg. pose proof (Hreg i q Hl) as Hq.
  destruct (unpatch_store s q Hv Hq) as (Hnz & Hv' & Hd). rewrite (proj2 (Z.eqb_neq _ _) Hnz).
  destruct Hq as (_ & H4 & _). unfold old_bytes in *. change (this_core s 0) with (core0 s).
  assert (Hdel : Forall (reg_ok (infos_of s)) (delete i (registry s))) by (apply Forall_delete, (mv_reg _ Hv)).
  destruct (4 <? p_size q) eqn:E4; to_prop.
  - eexists. split; [reflexivity|]. split; [|done]. apply inv_registry; [by apply inv_heap|done].
  - rewrite (proj2 (Z.eqb_eq (p_size q) 4)) by lia.
    eexists. split; [reflexivity|]. split; [|done]. by apply inv_registry.
Qed.

(** [PatchMmu] is a port that behaves like a flat memory. *)
Definition mmu_port_ok : PatchPortOk mstate.
Proof.
  refine {| port_inv := mmu_inv; port_dom := mmu_dom; port_ok := mmu_ok |}.
  - exact mmu_ok_dom.
  - exact mmu_ok_entry.
  - intros s a. apply view_byte.
  - done.
  - done.
  - intros s p Hv Hok _ H4. destruct (mmu_apply_ok s p Hv Hok H4) as (e & s' & E & Hv' & Hr & Hd & _).
    exists e, s'. cbn. rewrite E. by split_and!.
  - intros s p e s' Hv Hok _ H4 E He. destruct (mmu_apply_ok s p Hv Hok H4) as (e1 & s1 & E1 & Hv' & Hr & Hd & Hz).
    cbn in E. rewrite E1 in E. injection E as <- <-. split; [|by split].
    apply inv_registry; [done|]. apply Forall_app. split; [apply (mv_reg _ Hv')|].
    apply Forall_singleton. by apply Hz.
  - exact mmu_unpatch_ok.
  - intros s n Hv. split; [|by split]. by apply inv_heap.
  - intros s Hv. split; [|by split]. by apply inv_heap.
Defined.
End port.
