(* ===== verification/PatchSim.v ===== *)
(** * Simulation between patch ports

    Two ports whose operations keep a relation and return the same results
    give the same results to [patch.c]: what is proved of the client on one
    holds on the other.  [MmuSpec] uses this to show that the MMU port is a
    flat memory with a budget of pages. *)
From S2P Require Import Prelude CacheHacks Patch Mmu MmuTables Patch678.

Section sim.
Context `{P1 : PatchPort S1} `{P2 : PatchPort S2}.

(** [ok] are the patches the relation is about. *)
Class PortSim (R : S1 -> S2 -> Prop) (ok : mpatch -> Prop) := {
  ps_config : CONFIG_DIGIC_VI (PatchPort := P1) = CONFIG_DIGIC_VI (PatchPort := P2);
  ps_is_rom : forall a, IS_ROM_PTR (PatchPort := P1) a = IS_ROM_PTR (PatchPort := P2) a;
  ps_registry : forall s t, R s t -> patches_global s = patches_global t;
  ps_bytes : forall s t p, R s t -> ok p -> 4 <= p_size p ->
    rds (read_byte s) (p_addr p) (Z.to_nat (p_size p)) = rds (read_byte t) (p_addr p) (Z.to_nat (p_size p));
  ps_value : forall s t p, R s t -> ok p -> 4 <= p_size p ->
    read_value s (p_addr p) (p_is_instruction p) = read_value t (p_addr p) (p_is_instruction p);
  ps_apply : forall s t p, R s t -> ok p -> 4 <= p_size p ->
    exists e s' t', apply_patch s p = (e, p, s') /\ apply_patch t p = (e, p, t') /\ R s' t' /\
      (e = 0 -> R (push_patch s' (reg_entry p)) (push_patch t' (reg_entry p)));
  ps_unpatch : forall s t a, R s t ->
    fst (unpatch_memory s a) = fst (unpatch_memory t a) /\ R (snd (unpatch_memory s a)) (snd (unpatch_memory t a));
  ps_malloc : forall s t n, R s t ->
    fst (malloc s n) = fst (malloc t n) /\ R (snd (malloc s n)) (snd (malloc t n));
  ps_free : forall s t, R s t -> R (free s) (free t);
}.

Context (R : S1 -> S2 -> Prop) (ok : mpatch -> Prop) `{HR : !PortSim R ok}.

(** The entry that is registered depends on the patch alone. *)
Lemma prepare_entry `{PatchPort St} (s : St) p e q s' :
  prepare_patch s p = (e, q, s') -> e = 0 -> q = reg_entry p.
Proof.
  unfold prepare_patch, reg_entry. intros E He. destruct (4 <? p_size p) eqn:E4.
  - destruct (p_new_values p) as [nv|]; [|by injection E as <- <- <-].
    destruct (p_old_values p) as [ov|]; [|by injection E as <- <- <-].
    destruct (malloc s _) as [[] s1]; cbn [negb] in E; [|by injection E as <- <- <-].
    case_bool_decide; cbn [negb] in E; by injection E as <- <- <-.
  - destruct (_ =? _) eqn:Eo in E; cbn [negb] in E; [|by injection E as <- <- <-].
    apply Z.eqb_eq in Eo. injection E as <- <- <-. by rewrite Eo.
Qed.

Lemma prepare_sim s t p :
  R s t -> ok p -> 4 <= p_size p ->
  fst (fst (prepare_patch s p)) = fst (fst (prepare_patch t p)) /\
  R (snd (prepare_patch s p)) (snd (prepare_patch t p)).
Proof.
  intros Hr Hok Hs. unfold prepare_patch. destruct (4 <? p_size p).
  - destruct (p_new_values p) as [nv|]; [|done]. destruct (p_old_values p) as [ov|]; [|done].
    destruct (ps_malloc s t (u32 (p_size p * 2)) Hr) as [Em Hr1].
    destruct (malloc s _) as [b s1], (malloc t _) as [b' t1]. cbn [fst snd] in *. subst b'.
    destruct b; cbn [negb]; [|done]. rewrite (ps_bytes s1 t1 p) by done.
    case_bool_decide; cbn [negb fst snd]; [done|]. split; [done|]. by apply ps_free.
  - cbv zeta. rewrite (ps_value s t p) by done. by case_goal.
Qed.

Lemma apply_one_sim s t p :
  R s t -> ok p ->
  exists e s' t', apply_one s p = (e, p, s') /\ apply_one t p = (e, p, t') /\ R s' t'.
Proof.
  intros Hr Hok. unfold apply_one. rewrite ps_config, ps_is_rom, (ps_registry s t Hr).
  case_goal; to_prop; [by eexists _, _, _|]. case_goal; [by eexists _, _, _|].
  case_goal; [by eexists _, _, _|]. case_goal; [by eexists _, _, _|].
  destruct (prepare_sim s t p) as [E Hr1]; [done|done|lia|].
  destruct (prepare_patch s p) as [[e q] s1] eqn:E1, (prepare_patch t p) as [[e' q'] t1] eqn:E2.
  cbn [fst snd] in *. subst e'. destruct (e =? 0) eqn:E0; cbn [negb]; to_prop; [|by eexists _, _, _].
  rewrite (prepare_entry s p e q s1 E1 E0), (prepare_entry t p e q' t1 E2 E0).
  destruct (ps_apply s1 t1 p) as (e2 & s2 & t2 & -> & -> & Hr2 & Hp); [done|done|lia|].
  destruct (e2 =? 0) eqn:Ez; cbn [negb]; to_prop; [|by eexists _, _, _].
  eexists _, _, _. split; [done|]. split; [done|]. by apply Hp.
Qed.

Lemma apply_loop_sim s t ps :
  R s t -> Forall ok ps ->
  exists e s' t', apply_loop s ps = (e, ps, s') /\ apply_loop t ps = (e, ps, t') /\ R s' t'.
Proof.
  intros Hr Hok. revert s t Hr. induction Hok as [|p ps Hp _ IH]; intros s t Hr; [by eexists _, _, _|].
  cbn [apply_loop]. destruct (apply_one_sim s t p Hr Hp) as (e & s1 & t1 & -> & -> & Hr1).
  destruct (e =? 0); cbn [negb]; [|by eexists _, _, _].
  destruct (IH s1 t1 Hr1) as (e2 & s2 & t2 & -> & -> & Hr2). by eexists _, _, _.
Qed.

Lemma unpatch_all_sim s t ps : R s t -> R (unpatch_all s ps) (unpatch_all t ps).
Proof.
  revert s t. induction ps as [|p ps IH]; intros s t Hr; [done|]. cbn. apply IH.
  exact (proj2 (ps_unpatch s t (p_addr p) Hr)).
Qed.

Lemma apply_patches_sim s t ps :
  R s t -> Forall ok ps ->
  fst (apply_patches s ps) = fst (apply_patches t ps) /\ R (snd (apply_patches s ps)) (snd (apply_patches t ps)).
Proof.
  intros Hr Hok. unfold apply_patches. destruct (apply_loop_sim s t ps Hr Hok) as (e & s1 & t1 & -> & -> & Hr1).
  case_goal; cbn [fst snd]; [|done]. split; [done|]. by apply unpatch_all_sim.
Qed.
End sim.
