(* ===== verification/MmuSpec.v ===== *)
(** * The specification of MMU patching, and the refinement

    What [patch_mmu.c] promises its callers: a flat memory, ROM included, in
    which patches are written and taken back, with a budget of 64 kB pages.
    The specification has no tables, no translation buffers and no copies.  Of
    core 1 it says whether it reads the original ROM, the flat memory, or the
    flat memory without pages that are new.
    The theorem at the end runs programs of patch operations on both. *)
From S2P Require Import Prelude CacheHacks Patch Mmu MmuTables Patch678 Patch678Props PatchSim PatchMmu MmuInv MmuRom MmuApply MmuCore MmuPort.

(** ** The specification *)

(** What core 1 sees of the ROM: Canon's tables, the tables with all changes, or
    the tables with changes it has not been told of. *)
Inductive core1_view := Original | Current | Lagging.

Record flat := mk_flat {
  f_mem : Z -> Z;
  f_registry : list mpatch;
  f_pages : gset Z;     (* ROM pages that were patched at some time *)
  f_max : Z;            (* how many there may be *)
  f_mallocs : nat;
  f_buffers : Z;
  f_core1 : core1_view;
  f_ready : bool;       (* core 0 has been told that core 1 runs *)
}.

Definition set_f_mem (f : flat) (m : Z -> Z) : flat :=
  mk_flat m (f_registry f) (f_pages f) (f_max f) (f_mallocs f) (f_buffers f) (f_core1 f) (f_ready f).
Definition set_f_registry (f : flat) (l : list mpatch) : flat :=
  mk_flat (f_mem f) l (f_pages f) (f_max f) (f_mallocs f) (f_buffers f) (f_core1 f) (f_ready f).
Definition set_f_pages (f : flat) (P : gset Z) : flat :=
  mk_flat (f_mem f) (f_registry f) P (f_max f) (f_mallocs f) (f_buffers f) (f_core1 f) (f_ready f).
Definition set_f_heap (f : flat) (n : nat) (b : Z) : flat :=
  mk_flat (f_mem f) (f_registry f) (f_pages f) (f_max f) n b (f_core1 f) (f_ready f).
Definition set_f_core1 (f : flat) (v : core1_view) (ready : bool) : flat :=
  mk_flat (f_mem f) (f_registry f) (f_pages f) (f_max f) (f_mallocs f) (f_buffers f) v ready.

(** Patches that leave their page; in the last page of the address space also
    those that do not end with it. *)
Definition leaves_page (p : mpatch) : bool :=
  (2 ^ 16 <? p_addr p mod 2 ^ 16 + p_size p)
  || ((0xFFFF0000 <=? p_addr p) && (p_addr p + p_size p <? 2 ^ 32)).

Definition flat_patch (f : flat) (p : mpatch) : Z * flat :=
  let written := put (f_mem f) (p_addr p) (new_bytes p) in
  let page := p_addr p / 2 ^ 16 in
  if ROM_START <? p_addr p then
    if leaves_page p || (bool_decide (page ∉ f_pages f) && (f_max f <=? Z.of_nat (base.size (f_pages f))))
    then (E_PATCH_BAD_MMU_PAGE, f)
    else (0, set_f_pages (set_f_mem f written) ({[page]} ∪ f_pages f))
  else (0, set_f_mem f written).

(** A patch to ROM brings core 1 up to date when it is known to run; when it is
    not, core 1 misses pages that are new. *)
Definition core1_after (f f' : flat) : core1_view :=
  if f_ready f then Current
  else if bool_decide (f_pages f' = f_pages f) then f_core1 f
  else match f_core1 f with Original => Original | _ => Lagging end.

Definition flat_apply (f : flat) (p : mpatch) : Z * flat :=
  let '(e, f') := flat_patch f p in
  (e, if ROM_START <? p_addr p then set_f_core1 f' (core1_after f f') (f_ready f) else f').

Definition flat_unpatch (f : flat) (a : Z) : Z * flat :=
  match list_find (fun q => p_addr q = a) (f_registry f) with
  | None => (E_UNPATCH_OK, f)
  | Some (i, q) =>
      if ldv 4 (f_mem f) (p_addr q) =? patched_word q
      then (E_UNPATCH_OK,
            set_f_heap (set_f_registry (set_f_mem f (put (f_mem f) a (old_bytes q))) (delete i (f_registry f)))
                       (f_mallocs f) (if 4 <? p_size q then f_buffers f - 1 else f_buffers f))
      else (E_UNPATCH_OVERWRITTEN, f)
  end.

#[export] Instance flat_port `{Dryos} : PatchPort flat := {|
  patches_global := f_registry;
  push_patch f p := set_f_registry f (f_registry f ++ [p]);
  read_byte f := f_mem f;
  read_value f a _ := ldv 4 (f_mem f) a;
  apply_patch f p := let '(e, f) := flat_apply f p in (e, p, f);
  unpatch_memory f a := flat_unpatch f a;
  malloc f n := (can_malloc (f_mallocs f) n,
                 set_f_heap f (S (f_mallocs f)) (if can_malloc (f_mallocs f) n then f_buffers f + 1 else f_buffers f));
  free f := set_f_heap f (f_mallocs f) (f_buffers f - 1);
  IS_ROM_PTR := IS_ROM_PTR_78X;
  CONFIG_DIGIC_VI := false;
|}.

(** ** The relation *)

Section refine.
Context `{Platform} `{HD : Dryos} `{HDok : !DryosOk}.
Variables (g : geometry) (rom : Z -> Z).
Hypothesis Hg : geo_ok g.
Hypothesis Hco : canon_ok rom.

Definition core1_on (m : memory) (c : core) (v : core1_view) : Prop :=
  match v with
  | Original => core_on CANON_ORIG_MMU_TABLE_ADDR m c
  | Current => core_on (g_L1 g) m c
  | Lagging => core_lags (g_L1 g) m c
  end.

Record refines (s : mstate) (f : flat) : Prop := {
  rf_inv : mmu_inv g rom s;
  rf_mem : forall a, mmu_dom g a -> view (core0 s) (pmem s) a = f_mem f a;
  rf_registry : registry s = f_registry f;
  rf_pages : forall a, ROM_START <= a < 2 ^ 32 -> page_at (infos_of s) a <> 0 <-> a / 2 ^ 16 ∈ f_pages f;
  rf_count : backing_page_index s = Z.of_nat (base.size (f_pages f));
  rf_max : f_max f = g_max g;
  rf_mallocs : mallocs s = f_mallocs f;
  rf_buffers : buffers s = f_buffers f;
  rf_core1 : core1_on (pmem s) (core1 s) (f_core1 f);
  rf_ready : is_cpu1_ready s = f_ready f;
}.

(** Operations that keep the tables. *)
Lemma core1_on_kept s s' c v :
  mem_inv g rom s -> mem_inv g rom s' -> infos_of s' = infos_of s ->
  core1_on (pmem s) c v -> core1_on (pmem s') c v.
Proof.
  intros Hi Hi' E. destruct v; cbn; try by apply (cores_kept g rom Hg Hco s s' c).
  apply (lags_kept g rom Hg s); try done. intros a _ _. by rewrite E.
Qed.

Lemma core1_on_fill m c v a : 0 <= a < 2 ^ 32 -> core1_on m c v -> core1_on m (tlb_fill c m a) v.
Proof. intros Ha. destruct v; cbn; (by apply core_on_fill) || by apply core_lags_fill. Qed.

Lemma leaves_page_spans p : rom_patch p -> leaves_page p = spans p.
Proof.
  intros Hr. apply Bool.eq_iff_eq_true. rewrite spans_iff by done. unfold leaves_page.
  rewrite orb_true_iff, andb_true_iff, !Z.ltb_lt, Z.leb_le. done.
Qed.

(** The pages of the two sides. *)
Definition pages_agree (infos : list mmu_L2_page_info) (P : gset Z) : Prop :=
  forall a, ROM_START <= a < 2 ^ 32 -> page_at infos a <> 0 <-> a / 2 ^ 16 ∈ P.

Lemma pages_grow infos infos' P a :
  pages_agree infos P ->
  (forall b, ROM_START <= b < 2 ^ 32 -> page_at infos' b <> 0 <-> same_page a b \/ page_at infos b <> 0) ->
  pages_agree infos' ({[a / 2 ^ 16]} ∪ P).
Proof.
  intros HP Hn b Hb. rewrite Hn by done. rewrite elem_of_union, elem_of_singleton, (HP b) by done.
  unfold same_page. split; (intros [?|?]; [left|right]; done || lia).
Qed.

Lemma pages_count infos P a : pages_agree infos P -> ROM_START <= a < 2 ^ 32 ->
  Z.of_nat (base.size ({[a / 2 ^ 16]} ∪ P)) = Z.of_nat (base.size P) + (if page_at infos a =? 0 then 1 else 0).
Proof.
  intros HP Ha. destruct (page_at infos a =? 0) eqn:E0; to_prop.
  - rewrite size_union, size_singleton; [lia|]. apply disjoint_singleton_l. rewrite <- (HP a) by done. lia.
  - rewrite subseteq_union_1_L; [lia|]. apply singleton_subseteq_l. by apply (HP a).
Qed.

(** The outcome of a ROM patch on the flat side. *)
Lemma flat_patch_room f p infos :
  rom_patch p -> pages_agree infos (f_pages f) -> spans p = false ->
  (page_at infos (p_addr p) = 0 -> Z.of_nat (base.size (f_pages f)) < f_max f) ->
  flat_patch f p = (0, set_f_pages (set_f_mem f (put (f_mem f) (p_addr p) (new_bytes p)))
                                   ({[p_addr p / 2 ^ 16]} ∪ f_pages f)).
Proof.
  intros Hrp HP Hsp Hroom. pose proof (rom_patch_addr p Hrp) as Ha. pose proof (rp_rom _ Hrp) as Hrom.
  unfold flat_patch. rewrite (proj2 (Z.ltb_lt _ _)), leaves_page_spans, Hsp by done. cbn [orb].
  assert (bool_decide (p_addr p / 2 ^ 16 ∉ f_pages f) && (f_max f <=? Z.of_nat (base.size (f_pages f))) = false) as ->;
    [|done].
  apply andb_false_iff. destruct (decide (page_at infos (p_addr p) = 0)) as [E0|E0].
  - right. apply Z.leb_gt. by apply Hroom.
  - left. apply bool_decide_eq_false. intros Hn. apply Hn. by apply HP.
Qed.

Lemma flat_patch_full f p infos :
  rom_patch p -> pages_agree infos (f_pages f) ->
  spans p = true \/ (page_at infos (p_addr p) = 0 /\ f_max f <= Z.of_nat (base.size (f_pages f))) ->
  flat_patch f p = (E_PATCH_BAD_MMU_PAGE, f).
Proof.
  intros Hrp HP Hwhy. pose proof (rom_patch_addr p Hrp) as Ha. pose proof (rp_rom _ Hrp) as Hrom.
  unfold flat_patch. rewrite (proj2 (Z.ltb_lt _ _)), leaves_page_spans by done.
  destruct Hwhy as [->|[E0 Em]]; [done|]. rewrite (proj2 (Z.leb_le _ _)), andb_true_r by done.
  rewrite bool_decide_true; [by rewrite orb_true_r|]. rewrite <- (HP (p_addr p)) by done. lia.
Qed.

(** Core 1 over a ROM patch. *)
Lemma patch_rom_core1 s p v :
  mmu_inv g rom s -> mmu_ok g p -> 4 <= p_size p -> ROM_START < p_addr p -> core1_on (pmem s) (core1 s) v ->
  let s' := snd (patch_memory_rom s 0 p) in
  is_cpu1_ready s' = is_cpu1_ready s /\
  (is_cpu1_ready s = true -> core1_on (pmem s') (core1 s') Current) /\
  (is_cpu1_ready s = false ->
     (v <> Current -> core1_on (pmem s') (core1 s') v) /\ (v = Current -> core1_on (pmem s') (core1 s') Lagging) /\
     ((forall a, ROM_START <= a < 2 ^ 32 -> page_at (infos_of s') a <> 0 <-> page_at (infos_of s) a <> 0) ->
      core1_on (pmem s') (core1 s') v)).
Proof.
  intros Hv Hok H4 Hrom Hc. pose proof (mv_mem _ _ _ Hv) as Hi.
  pose proof (rom_patch_of g p Hok H4 Hrom) as Hrp. pose proof (rom_patch_addr p Hrp) as Ha.
  rewrite (patch_rom_eq s p) by (done || apply (mv_init _ _ _ Hv)). cbn [snd].
  assert (exists s1, snd (apply_data_patch s p) = s1 /\ mem_inv g rom s1 /\ core1 s1 = core1 s /\
            is_cpu1_ready s1 = is_cpu1_ready s /\
            forall b, ROM_START <= b < 2 ^ 32 -> page_at (infos_of s) b <> 0 -> page_at (infos_of s1) b = page_at (infos_of s) b)
    as (s1 & -> & Hi1 & E1 & Er & Hkp).
  { destruct (apply_data_ok g rom Hg s p Hi Hrp (inv_flags g rom Hg Hco s Hv) (inv_copy g rom Hg s _ Hv Ha))
      as [(-> & _)|(_ & m' & i' & bk & -> & Hi' & _ & _ & _ & Hkp & _)]; eexists; by split_and!. }
  assert (Hlag : core_lags (g_L1 g) (pmem s) (core1 s) -> core_lags (g_L1 g) (pmem s1) (core1 s))
    by (by apply (lags_kept g rom Hg s s1)).
  unfold retaken. cbn [is_cpu1_ready set_cores]. rewrite Er.
  destruct (is_cpu1_ready s) eqn:E; cbn [is_cpu1_ready set_cores core1 pmem]; (split; [done|]); split; try done; intros _.
  - exact (taken_core g rom s1 (core1 s1) 1 Hi1).
  - rewrite E1. split_and!.
    + destruct v; cbn in *; try done; intros _; [by apply (canon_kept g rom Hco s)|by apply Hlag].
    + intros ->. apply Hlag. by apply core_on_lags.
    + intros Hpg. destruct v; cbn in *; [by apply (canon_kept g rom Hco s)| |by apply Hlag].
      revert Hc. apply core_on_ext. intros a Hra. rewrite !(inv_walk g rom Hg) by done. unfold xlat.
      destruct (decide (page_at (infos_of s) a = 0)) as [E0|E0]; [|by rewrite Hkp].
      destruct (decide (page_at (infos_of s1) a = 0)) as [->|E0']; [by rewrite E0|]. by apply Hpg in E0'.
Qed.

Lemma patch_rom_heap s p : mmu_inv g rom s -> mmu_ok g p -> 4 <= p_size p -> ROM_START < p_addr p ->
  mallocs (snd (patch_memory_rom s 0 p)) = mallocs s /\ buffers (snd (patch_memory_rom s 0 p)) = buffers s.
Proof.
  intros Hv Hok H4 Hrom. pose proof (rom_patch_of g p Hok H4 Hrom) as Hrp. pose proof (rom_patch_addr p Hrp) as Ha.
  rewrite (patch_rom_eq s p) by (done || apply (mv_init _ _ _ Hv)). cbn [snd]. unfold retaken.
  destruct (apply_data_ok g rom Hg s p (mv_mem _ _ _ Hv) Hrp (inv_flags g rom Hg Hco s Hv)
              (inv_copy g rom Hg s _ Hv Ha)) as [(-> & _)|(_ & m' & i' & bk & -> & _)]; by case_goal.
Qed.

(** Core 1 on the two sides. *)
Lemma refine_core1 s f p f' :
  refines s f -> mmu_ok g p -> 4 <= p_size p -> ROM_START < p_addr p ->
  let s' := snd (patch_memory_rom s 0 p) in
  pages_agree (infos_of s') (f_pages f') ->
  core1_on (pmem s') (core1 s') (core1_after f f') /\ is_cpu1_ready s' = f_ready f.
Proof.
  intros Hr Hok H4 Hrom s' HP.
  destruct (patch_rom_core1 s p (f_core1 f) (rf_inv _ _ Hr) Hok H4 Hrom (rf_core1 _ _ Hr)) as (E & Ht & Hf).
  fold s' in E, Ht, Hf. rewrite (rf_ready _ _ Hr) in *. split; [|done]. unfold core1_after.
  destruct (f_ready f); [by apply Ht|]. destruct (Hf eq_refl) as (H1 & H2 & H3). case_bool_decide as Ep.
  - apply H3. intros a Ha. rewrite (HP a Ha), Ep. symmetry. by apply (rf_pages _ _ Hr).
  - destruct (f_core1 f); [by apply H1|by apply H2|by apply H1].
Qed.

Lemma refine_rom s f p :
  refines s f -> mmu_ok g p -> 4 <= p_size p -> ROM_START < p_addr p ->
  fst (patch_memory_rom s 0 p) = fst (flat_apply f p) /\
  refines (snd (patch_memory_rom s 0 p)) (snd (flat_apply f p)).
Proof.
  intros Hr Hok H4 Hrom. pose proof Hr as [Hv Hm Hreg Hpg Hcnt Hmax Hma Hbu _ _].
  pose proof (rom_patch_of g p Hok H4 Hrom) as Hrp. pose proof (rom_patch_addr p Hrp) as Ha.
  pose proof (patch_rom_ok g rom Hg Hco s p Hv Hok H4 Hrom) as (Hv' & Hr' & Hd & Hz & Hnz).
  destruct (patch_rom_heap s p Hv Hok H4 Hrom) as (Hma' & Hbu').
  pose proof (fun f' => refine_core1 s f p f' Hr Hok H4 Hrom) as Hc1. cbv zeta in Hc1.
  unfold flat_apply. rewrite (proj2 (Z.ltb_lt _ _) Hrom).
  destruct (patch_memory_rom s 0 p) as [e s']. cbn [fst snd] in *.
  destruct (decide (e = 0)) as [E|E].
  - destruct (Hz E) as (Hsp & Hroom & Hpg' & Hbk). subst e. cbn [Z.eqb] in *.
    rewrite (flat_patch_room f p (infos_of s)) by (done || rewrite Hmax, <- Hcnt; done). cbn [fst snd]. split; [done|].
    assert (HP : pages_agree (infos_of s') ({[p_addr p / 2 ^ 16]} ∪ f_pages f)) by (by apply (pages_grow (infos_of s))).
    destruct (Hc1 (set_f_pages (set_f_mem f (put (f_mem f) (p_addr p) (new_bytes p))) _) HP) as [Hc Hrd].
    split; try done; cbn [f_mem f_registry f_pages f_max f_mallocs f_buffers set_f_pages set_f_mem set_f_core1]; try congruence.
    + intros a Hda. rewrite Hd by done. apply put_ext. by apply Hm.
    + rewrite (pages_count (infos_of s)), <- Hcnt by done. done.
  - destruct (Hnz E) as (-> & Hwhy & Ei & Eb).
    rewrite (flat_patch_full f p (infos_of s)) by (done || rewrite Hmax, <- Hcnt; intuition lia).
    cbn [fst snd]. split; [done|].
    assert (HP : pages_agree (infos_of s') (f_pages f)) by (intros a Har; rewrite Ei; by apply Hpg).
    destruct (Hc1 f HP) as [Hc Hrd]. split; try done; cbn; try congruence.
    intros a Hda. rewrite Hd by done. by apply Hm.
Qed.

(** States that differ in registry or heap only. *)
Lemma refines_heap s f n b : refines s f -> refines (set_heap s n b) (set_f_heap f n b).
Proof. intros [Hv ? ? ? ? ? ? ? ? ?]. split; try done. by apply inv_heap. Qed.

Lemma refine_apply s f p :
  refines s f -> mmu_ok g p -> 4 <= p_size p ->
  exists e s' f', mmu_apply_patch s 0 p = (e, s') /\ flat_apply f p = (e, f') /\ refines s' f' /\
    (e = 0 -> refines (set_registry s' (registry s' ++ [reg_entry p]))
                      (set_f_registry f' (f_registry f' ++ [reg_entry p]))).
Proof.
  intros Hr Hok H4. pose proof (rf_inv _ _ Hr) as Hv.
  assert (Hstep : fst (mmu_apply_patch s 0 p) = fst (flat_apply f p) /\
                  refines (snd (mmu_apply_patch s 0 p)) (snd (flat_apply f p))).
  { unfold mmu_apply_patch. rewrite is_rom_ptr. destruct (ROM_START <? p_addr p) eqn:Er; to_prop.
    - by apply refine_rom.
    - destruct (patch_ram_ok g rom Hg Hco s p Hv Hok H4 Er) as (-> & Hv' & Hd).
      unfold flat_apply, flat_patch. rewrite (proj2 (Z.ltb_ge _ _)) by lia. cbn [fst snd]. split; [done|].
      destruct Hr as [_ Hm ? ? ? ? ? ? Hc ?]. split; try done.
      + intros a Ha. cbn. rewrite Hd by done. apply put_ext. by apply Hm.
      + revert Hc. by apply (core1_on_kept s _ (core1 s) _ (mv_mem _ _ _ Hv) (mv_mem _ _ _ Hv')). }
  destruct (mmu_apply_ok g rom Hg Hco s p Hv Hok H4) as (e & s' & E & Hv' & _ & _ & Hz).
  rewrite E in *. destruct (flat_apply f p) as [e' f']. cbn [fst snd] in Hstep. destruct Hstep as [<- Hr'].
  exists e, s', f'. split_and!; [done|done|done|]. intros Ee. destruct Hr' as [_ ? Hreg ? ? ? ? ? ? ?].
  split; try done; [|cbn; by rewrite Hreg].
  apply inv_registry; [done|]. apply Forall_app. split; [apply (mv_reg _ _ _ Hv')|].
  apply Forall_singleton. by apply Hz.
Qed.

Lemma refine_value s f p :
  refines s f -> mmu_ok g p -> 4 <= p_size p -> mmu_read_value s 0 (p_addr p) = ldv 4 (f_mem f) (p_addr p).
Proof.
  intros Hr Hok H4. unfold mmu_read_value. change (this_core s 0) with (core0 s). apply ldv_ext.
  intros b Hb. change (Z.of_nat 4) with 4 in Hb. apply (rf_mem _ _ Hr). apply (mmu_ok_dom g p); [done|lia].
Qed.

Lemma refine_unpatch s f a :
  refines s f ->
  fst (_unpatch_memory s 0 a) = fst (flat_unpatch f a) /\
  refines (snd (_unpatch_memory s 0 a)) (snd (flat_unpatch f a)).
Proof.
  intros Hr. pose proof Hr as [Hv Hm Hreg Hpg Hcnt Hmax Hma Hbu Hc1 Hrd].
  unfold _unpatch_memory, flat_unpatch. rewrite <- Hreg.
  destruct (list_find _ (registry s)) as [[i q]|] eqn:Ef; [|done].
  apply list_find_Some in Ef as (Hl & Eq & _).
  pose proof (mv_reg _ _ _ Hv) as Hrg. rewrite Forall_lookup in Hrg. pose proof (Hrg i q Hl) as Hq.
  pose proof Hq as (Hok & H4 & _). unfold mmu_still_applied. rewrite (refine_value s f q) by done.
  destruct (_ =? patched_word q); cbn [negb]; [|done].
  destruct (unpatch_store g rom Hg Hco s q Hv Hq) as (Hnz & Hv' & Hd). rewrite Eq in Hnz, Hv', Hd.
  rewrite (proj2 (Z.eqb_neq _ _) Hnz). change (this_core s 0) with (core0 s).
  assert (Hdel : Forall (reg_ok g (infos_of s)) (delete i (registry s))) by (apply Forall_delete, (mv_reg _ _ _ Hv)).
  assert (Hmem : forall b, mmu_dom g b ->
    view (core0 s) (vwrs (core0 s) (pmem s) (find_phys_mem s a) (old_bytes q)) b = put (f_mem f) a (old_bytes q) b).
  { intros b Hb. rewrite Hd by done. apply put_ext. by apply Hm. }
  assert (Hc1' : core1_on (vwrs (core0 s) (pmem s) (find_phys_mem s a) (old_bytes q)) (core1 s) (f_core1 f))
    by exact (core1_on_kept s _ _ _ (mv_mem _ _ _ Hv) (mv_mem _ _ _ Hv') eq_refl Hc1).
  unfold old_bytes in *. destruct (4 <? p_size q) eqn:E4; to_prop.
  - cbn [fst snd]. split; [done|]. split; cbn; try done; [|congruence].
    apply inv_registry; [by apply inv_heap|done].
  - rewrite (proj2 (Z.eqb_eq (p_size q) 4)) by lia. cbn [fst snd]. split; [done|].
    split; cbn; try done. by apply inv_registry.
Qed.

#[local] Instance mmu_sim : PortSim refines (mmu_ok g).
Proof.
  split; try done.
  - intros s f Hr. apply (rf_registry _ _ Hr).
  - intros s f p Hr Hok H4. apply rds_ext. intros b Hb. apply (rf_mem _ _ Hr).
    apply (mmu_ok_dom g p); [done|lia].
  - intros s f p Hr Hok H4. by apply refine_value.
  - intros s f p Hr Hok H4. destruct (refine_apply s f p Hr Hok H4) as (e & s' & f' & E1 & E2 & Hr' & Hp).
    exists e, s', f'. cbn. rewrite E1, E2. done.
  - intros s f a Hr. by apply refine_unpatch.
  - intros s f n Hr. cbn. rewrite (rf_mallocs _ _ Hr), (rf_buffers _ _ Hr). split; [done|].
    by apply refines_heap.
  - intros s f Hr. cbn. rewrite (rf_mallocs _ _ Hr), (rf_buffers _ _ Hr). by apply refines_heap.
Qed.
End refine.

(** ** Programs *)

(** Operations of the patch interface on core 0, stores of either core to RAM,
    the translation buffers filling at any time, and core 1 coming up in two
    steps, each at any time: [init1_task_wrapper] takes the tables on core 1, and
    [cpu1_ready] tells core 0. *)
Inductive mmu_op :=
  | OApply (ps : list mpatch)
  | OUnpatch (a : Z)
  | OStore (cpu a : Z) (l : list Z)
  | OFill (cpu a : Z)
  | OCpu1Tables
  | OCpu1Ready.

Section programs.
Context `{Platform} `{HD : Dryos}.

Definition mmu_exec (s : mstate) (o : mmu_op) : Z * mstate :=
  match o with
  | OApply ps => apply_patches s ps
  | OUnpatch a => unpatch_memory s a
  | OStore cpu a l => (0, set_pmem s (vwrs (this_core s cpu) (pmem s) a l))
  | OFill cpu a =>
      (0, if cpu =? 0 then set_cores s (tlb_fill (core0 s) (pmem s) a) (core1 s)
          else set_cores s (core0 s) (tlb_fill (core1 s) (pmem s) a))
  | OCpu1Tables => (0, change_mmu_tables_wrapper s 1)
  | OCpu1Ready => (0, cpu1_ready s)
  end.

Definition flat_exec (f : flat) (o : mmu_op) : Z * flat :=
  match o with
  | OApply ps => apply_patches f ps
  | OUnpatch a => unpatch_memory f a
  | OStore _ a l => (0, set_f_mem f (put (f_mem f) a l))
  | OFill _ _ => (0, f)
  | OCpu1Tables => (0, set_f_core1 f Current (f_ready f))
  | OCpu1Ready => (0, set_f_core1 f (f_core1 f) true)
  end.

Fixpoint run {S} (exec : S -> mmu_op -> Z * S) (s : S) (prog : list mmu_op) : list Z * S :=
  match prog with
  | [] => ([], s)
  | o :: prog => let '(r, s) := exec s o in let '(rs, s) := run exec s prog in (r :: rs, s)
  end.

Definition op_ok (g : geometry) (o : mmu_op) : Prop :=
  match o with
  | OApply ps => Forall (mmu_ok g) ps
  | OUnpatch _ => True
  | OStore _ a l => 0 <= a /\ a + Z.of_nat (length l) <= ROM_START /\
                    forall b, a <= b < a + Z.of_nat (length l) -> ~ in_area g b
  | OFill _ a => 0 <= a < 2 ^ 32
  | OCpu1Tables | OCpu1Ready => True
  end.

Context `{HDok : !DryosOk}.
Variables (g : geometry) (rom : Z -> Z).
Hypothesis Hg : geo_ok g.
Hypothesis Hco : canon_ok rom.

Lemma inv_fill s cpu a :
  mmu_inv g rom s -> 0 <= a < 2 ^ 32 ->
  let s' := if cpu =? 0 then set_cores s (tlb_fill (core0 s) (pmem s) a) (core1 s)
            else set_cores s (core0 s) (tlb_fill (core1 s) (pmem s) a) in
  mmu_inv g rom s' /\ forall b, mmu_dom g b -> view (core0 s') (pmem s') b = view (core0 s) (pmem s) b.
Proof.
  intros Hv Ha. pose proof (mv_mem _ _ _ Hv) as Hi.
  pose proof (core_on_fill _ _ _ a Ha (mv_core0 _ _ _ Hv)) as Hc0.
  destruct (cpu =? 0).
  - split.
    + destruct Hv as [[] ? ? ? ? ?]. split; try done.
    + intros b [[Hb _]|Hb]; cbn [set_cores core0 pmem]; [by rewrite !ram_view by lia|].
      rewrite !(view_shows g rom Hg s) by (done || apply (mv_core0 _ _ _ Hv)). done.
  - split; [|done]. destruct Hv as [[] ? ? Hc ? ?]. split; try done.
    destruct Hc as [Hc|Hc]; [left; by apply core_on_fill|right; by apply core_lags_fill].
Qed.

Lemma inv_cpu1_tables s : mmu_inv g rom s -> mmu_inv g rom (change_mmu_tables_wrapper s 1).
Proof.
  intros [Hi ? ? ? ? ?]. pose proof (taken_core g rom s (core1 s) 1 Hi) as Hc. destruct Hi. split; try done.
  right. by apply core_on_lags.
Qed.

Lemma refine_step s f o :
  refines g rom s f -> op_ok g o ->
  fst (mmu_exec s o) = fst (flat_exec f o) /\ refines g rom (snd (mmu_exec s o)) (snd (flat_exec f o)).
Proof.
  intros Hr Ho. destruct o as [ps|a|cpu a l|cpu a| |]; cbn [mmu_exec flat_exec op_ok] in *.
  - pose proof (mmu_sim g rom Hg Hco). by apply apply_patches_sim with (ok := mmu_ok g).
  - by apply refine_unpatch.
  - destruct Ho as (Ha & Hl & Har). destruct (ram_store_ok g rom Hg Hco s (this_core s cpu) a l (rf_inv _ _ _ _ Hr) Ha Hl Har)
      as [Hv' Hd]. cbn [fst snd]. split; [done|]. destruct Hr as [Hv Hm ? ? ? ? ? ? Hc ?]. split; try done.
    + intros b Hb. cbn. rewrite Hd by done. apply put_ext. by apply Hm.
    + exact (core1_on_kept g rom Hg Hco s _ _ _ (mv_mem _ _ _ Hv) (mv_mem _ _ _ Hv') eq_refl Hc).
  - destruct (inv_fill s cpu a (rf_inv _ _ _ _ Hr) Ho) as [Hv' Hd]. cbn [fst snd]. split; [done|].
    destruct Hr as [_ Hm ? ? ? ? ? ? Hc ?]. split; try done; try (by destruct (cpu =? 0)).
    + intros b Hb. rewrite Hd by done. by apply Hm.
    + destruct (cpu =? 0); [done|]. by apply core1_on_fill.
  - cbn [fst snd]. split; [done|]. destruct Hr as [Hv ? ? ? ? ? ? ? ? ?]. split; try done.
    + by apply inv_cpu1_tables.
    + exact (taken_core g rom s (core1 s) 1 (mv_mem _ _ _ Hv)).
  - cbn [fst snd]. split; [done|]. destruct Hr as [[[] ? ? ? ? ?] ? ? ? ? ? ? ? ? ?]. by split.
Qed.

Lemma refine_run s f prog :
  refines g rom s f -> Forall (op_ok g) prog ->
  fst (run mmu_exec s prog) = fst (run flat_exec f prog) /\
  refines g rom (snd (run mmu_exec s prog)) (snd (run flat_exec f prog)).
Proof.
  intros Hr Hp. revert s f Hr. induction Hp as [|o prog Ho _ IH]; intros s f Hr; [done|]. cbn [run].
  destruct (refine_step s f o Hr Ho) as [E1 Hr1].
  destruct (mmu_exec s o) as [r s1], (flat_exec f o) as [r' f1]. cbn [fst snd] in *. subst r'.
  destruct (IH s1 f1 Hr1) as [E2 Hr2].
  destruct (run mmu_exec s1 prog) as [rs s2], (run flat_exec f1 prog) as [rs' f2]. cbn [fst snd] in *.
  by subst rs'.
Qed.
End programs.
