(* ===== verification/MmuLayout.v ===== *)
(** * Where the tables go ([calc_mmu_globals] of [src/src/patch_mmu.c])

    The arithmetic that places the L1 table, the L2 tables, the bookkeeping
    structures and the page pool in a region of RAM, at 32 bits, with its loop
    over the number of pages.  When the region is filled from its end the
    result fits and nothing overlaps; two ways in which it does not are shown
    at the end. *)
From S2P Require Import Prelude CacheHacks Patch Mmu MmuTables Patch678 PatchMmu MmuInv MmuRom.

(** ** The code *)

(** The fields of [global_mmu_conf] as numbers, and the local [L2_tables]. *)
Record calc := mk_calc {
  c_L1 : Z;
  c_max_L2 : Z;
  c_infos : Z;
  c_max_64k : Z;
  c_pages : Z;
  c_L2_tables : Z;
}.

Definition zero_calc : calc := mk_calc 0 0 0 0 0 0.

Definition min_required_space : Z :=
  MMU_PAGE_SIZE + MMU_L1_TABLE_SIZE + 0x300 + MMU_L2_TABLE_SIZE + sizeof_mmu_L2_page_info.

(** One round of the loop, filling forwards.  [sizeof(MMU_L2_TABLE_SIZE)] is
    the size of an [int]. *)
Definition try_forwards (c : calc) (aligned_start end_addr num : Z) : bool * calc :=
  let pages := aligned_start in
  let l1 := u32 (aligned_start + MMU_PAGE_SIZE * num) in
  let L1_table_end := u32 (l1 + MMU_L1_TABLE_SIZE) in
  let L2_tables := ROUND_UP L1_table_end MMU_L2_TABLE_SIZE in
  let L2_tables_end := u32 (L2_tables + 4 * num) in
  let L2_info_start :=
    if u32 (sizeof_mmu_L2_page_info * num) <? u32 (L2_tables - L1_table_end)
    then L1_table_end else L2_tables_end in
  let L2_info_end := u32 (L2_info_start + sizeof_mmu_L2_page_info * num) in
  ((L2_info_end <=? end_addr) && (L2_tables_end <=? end_addr),
   mk_calc l1 num L2_info_start num pages L2_tables).

(** One round, filling backwards; [goto cont] keeps what was stored so far. *)
Definition try_backwards (c : calc) (start_addr aligned_end num : Z) : bool * calc :=
  let c := mk_calc (c_L1 c) num (c_infos c) num (c_pages c) (c_L2_tables c) in
  let phys_mem_start := u32 (aligned_end - MMU_PAGE_SIZE * num) in
  if phys_mem_start <? start_addr then (false, c)
  else
    let L2_tables := u32 (phys_mem_start - MMU_L2_TABLE_SIZE * num) in
    let c := mk_calc (c_L1 c) num (c_infos c) num phys_mem_start L2_tables in
    if L2_tables <? start_addr then (false, c)
    else
      let l1 := ROUND_DOWN (u32 (L2_tables - MMU_L1_TABLE_SIZE)) MMU_L1_TABLE_ALIGN in
      let c := mk_calc l1 num (c_infos c) num phys_mem_start L2_tables in
      if l1 <? start_addr then (false, c)
      else
        let L1_table_end := u32 (l1 + MMU_L1_TABLE_SIZE) in
        let L2_info_start :=
          if u32 (sizeof_mmu_L2_page_info * num) <? u32 (L2_tables - L1_table_end)
          then L1_table_end else u32 (l1 - sizeof_mmu_L2_page_info * num) in
        if L2_info_start <? start_addr then (false, c)
        else (true, mk_calc l1 num L2_info_start num phys_mem_start L2_tables).

(** [while (!reqs_met && num_64k_pages > 0)] *)
Fixpoint calc_loop (try : calc -> Z -> bool * calc) (num : nat) (c : calc) : calc :=
  match num with
  | O => c
  | S n => let '(reqs_met, c) := try c (Z.of_nat num) in if reqs_met then c else calc_loop try n c
  end.

(** The structures of the last loop of the function. *)
Definition init_info (t : Z) : mmu_L2_page_info := mk_info (replicate 16 0) t 0 0.

Definition init_infos (L2_tables : Z) (n : nat) : list mmu_L2_page_info :=
  map (fun i => init_info (u32 (L2_tables + Z.of_nat i * MMU_L2_TABLE_SIZE))) (seq 0 n).

Definition conf_of (c : calc) : mmu_config :=
  mk_conf (c_L1 c) (c_max_L2 c) (c_infos c) (init_infos (c_L2_tables c) (Z.to_nat (c_max_L2 c)))
          (c_max_64k c) (c_pages c).

Definition calc_mmu_globals (start_addr size_ : Z) : Z * calc :=
  if size_ <? min_required_space then (-1, zero_calc)
  else
    let start_adjust := MMU_PAGE_SIZE - Z.land start_addr (MMU_PAGE_SIZE - 1) in
    let start_adjust := if start_adjust =? MMU_PAGE_SIZE then 0 else start_adjust in
    let end_addr := u32 (start_addr + size_) in
    let end_adjust := Z.land end_addr (MMU_PAGE_SIZE - 1) in
    let aligned_end := Z.land end_addr (u32 (Z.lnot (MMU_PAGE_SIZE - 1))) in
    let fill_forwards := negb (end_adjust <? start_adjust) in
    let aligned_start := u32 (start_addr + start_adjust) in
    let aligned_space := if fill_forwards then u32 (end_addr - start_addr - start_adjust)
                         else u32 (aligned_end - start_addr) in
    if aligned_space <? min_required_space then (-2, zero_calc)
    else
      let try := if fill_forwards then fun c num => try_forwards c aligned_start end_addr num
                 else fun c num => try_backwards c start_addr aligned_end num in
      let c := calc_loop try (Z.to_nat (aligned_space / MMU_PAGE_SIZE)) zero_calc in
      if c_L2_tables c =? 0 then (-4, c) else (0, c).

(** ** Layouts that fit *)

(** Everything inside the region, nothing overlapping. *)
Record fits (start_addr end_addr : Z) (c : calc) : Prop := {
  fi_geo : geo_ok (geometry_of (conf_of c));
  fi_max : 0 < c_max_64k c /\ c_max_L2 c = c_max_64k c;
  fi_L1 : start_addr <= c_L1 c /\ c_L1 c + MMU_L1_TABLE_SIZE <= end_addr;
  fi_L2 : start_addr <= c_L2_tables c /\ c_L2_tables c + MMU_L2_TABLE_SIZE * c_max_64k c <= end_addr;
  fi_infos : start_addr <= c_infos c /\ c_infos c + sizeof_mmu_L2_page_info * c_max_64k c <= end_addr;
  fi_pages : start_addr <= c_pages c /\ c_pages c + MMU_PAGE_SIZE * c_max_64k c <= end_addr;
}.

Lemma init_infos_L2 t n j x :
  0 <= t -> t + MMU_L2_TABLE_SIZE * Z.of_nat n <= ROM_START -> (L2_table <$> init_infos t n) !! j = Some x ->
  (j < n)%nat /\ x = t + Z.of_nat j * MMU_L2_TABLE_SIZE.
Proof.
  intros Ht Hn. unfold init_infos. rewrite list_lookup_fmap. intros Hx. apply fmap_Some in Hx as (i & Hl & ->).
  rewrite list_lookup_fmap in Hl. apply fmap_Some in Hl as (k & Hk & ->). apply lookup_seq in Hk as [-> Hlt].
  split; [done|]. cbn. unfold ROM_START, MMU_L2_TABLE_SIZE in *. apply u32_small. lia.
Qed.

Lemma length_init_infos t n : length (init_infos t n) = n.
Proof. unfold init_infos. by rewrite length_map, length_seq. Qed.

(** What makes a calculated layout a geometry. *)
Lemma calc_geo c :
  c_max_L2 c = c_max_64k c -> 0 < c_max_64k c ->
  c_L1 c mod 2 ^ 14 = 0 -> 0 <= c_L1 c -> c_L1 c + MMU_L1_TABLE_SIZE <= ROM_START ->
  c_pages c mod 2 ^ 16 = 0 -> 0 < c_pages c -> c_pages c + MMU_PAGE_SIZE * c_max_64k c <= ROM_START ->
  c_L2_tables c mod 2 ^ 10 = 0 -> 0 <= c_L2_tables c ->
  c_L2_tables c + MMU_L2_TABLE_SIZE * c_max_64k c <= ROM_START ->
  0 <= c_infos c -> c_infos c + sizeof_mmu_L2_page_info * c_max_64k c <= ROM_START ->
  clear (c_L1 c) MMU_L1_TABLE_SIZE (c_pages c) (MMU_PAGE_SIZE * c_max_64k c) ->
  clear (c_L2_tables c) (MMU_L2_TABLE_SIZE * c_max_64k c) (c_L1 c) MMU_L1_TABLE_SIZE ->
  clear (c_L2_tables c) (MMU_L2_TABLE_SIZE * c_max_64k c) (c_pages c) (MMU_PAGE_SIZE * c_max_64k c) ->
  clear (c_infos c) (sizeof_mmu_L2_page_info * c_max_64k c) (c_L1 c) MMU_L1_TABLE_SIZE ->
  clear (c_infos c) (sizeof_mmu_L2_page_info * c_max_64k c) (c_pages c) (MMU_PAGE_SIZE * c_max_64k c) ->
  clear (c_infos c) (sizeof_mmu_L2_page_info * c_max_64k c) (c_L2_tables c) (MMU_L2_TABLE_SIZE * c_max_64k c) ->
  geo_ok (geometry_of (conf_of c)).
Proof.
  intros Hm Hpos. intros.
  assert (Hn : c_L2_tables c + MMU_L2_TABLE_SIZE * Z.of_nat (Z.to_nat (c_max_L2 c)) <= ROM_START)
    by (by rewrite Z2Nat.id, Hm by lia).
  split; cbn [geometry_of conf_of g_L1 g_L2 g_infos g_pages g_max L1_table L2_tables L2_tables_ptr
              phys_mem_pages max_64k_pages_remapped].
  - done.
  - split_and!; done || lia.
  - done.
  - rewrite length_fmap, length_init_infos. lia.
  - intros j t [Hj ->]%init_infos_L2; [|done..]. unfold clear, MMU_L2_TABLE_SIZE in *.
    split_and!; [Z.div_mod_to_equations; lia|nia|nia|nia|nia].
  - split_and!; [done|done|done|done|]. intros j t [Hj ->]%init_infos_L2; [|done..].
    unfold clear, MMU_L2_TABLE_SIZE in *. nia.
  - intros j j' t t' [Hj ->]%init_infos_L2 [Hj' ->]%init_infos_L2 Hne; [|done..].
    unfold clear, MMU_L2_TABLE_SIZE. lia.
Qed.

Lemma round_down_L1 x : 0 <= x < 2 ^ 32 -> ROUND_DOWN x MMU_L1_TABLE_ALIGN = x - x mod 2 ^ 14.
Proof.
  intros Hx. unfold ROUND_DOWN. change (u32 (Z.lnot (MMU_L1_TABLE_ALIGN - 1))) with 0xffffc000.
  by rewrite (land_hi 14) by lia.
Qed.

Lemma backwards_fits c start_addr aligned_end num c' :
  0x50000 <= start_addr -> aligned_end <= ROM_START -> aligned_end mod 2 ^ 16 = 0 ->
  0 < num <= 256 -> start_addr + MMU_PAGE_SIZE * num <= aligned_end ->
  try_backwards c start_addr aligned_end num = (true, c') -> fits start_addr aligned_end c'.
Proof.
  intros Hs He Hal Hn Hsp. unfold try_backwards.
  unfold MMU_PAGE_SIZE, MMU_L2_TABLE_SIZE, MMU_L1_TABLE_SIZE, sizeof_mmu_L2_page_info, ROM_START in *.
  rewrite (u32_small (aligned_end - _)) by lia. rewrite (proj2 (Z.ltb_ge _ _)) by lia.
  rewrite (u32_small (aligned_end - _ - 0x400 * num)) by lia.
  set (l2 := aligned_end - _ - 0x400 * num). case_goal; to_prop; [done|].
  rewrite (u32_small (l2 - _)) by lia. rewrite round_down_L1 by lia.
  set (l1 := l2 - 0x4900 - (l2 - 0x4900) mod 2 ^ 14).
  assert (Hl1 : l1 mod 2 ^ 14 = 0 /\ l1 + 0x4900 <= l2 /\ l2 < l1 + 0x8900) by (subst l1; Z.div_mod_to_equations; lia).
  assert (Hl2 : l2 mod 2 ^ 10 = 0) by (subst l2; Z.div_mod_to_equations; lia).
  case_goal; to_prop; [done|]. rewrite (u32_small (l1 + _)), (u32_small (l2 - _)), (u32_small (76 * num)) by lia.
  set (info := if 76 * num <? l2 - (l1 + 0x4900) then l1 + 0x4900 else u32 (l1 - 76 * num)).
  assert (Hi : (l1 + 0x4900 <= info /\ info + 76 * num <= l2) \/ (info + 76 * num = l1 /\ 0 <= info)).
  { subst info. case_goal; to_prop; [left; lia|right]. rewrite u32_small; lia. }
  case_goal; to_prop; [done|]. intros [= <-].
  split; cbn [c_L1 c_max_L2 c_infos c_max_64k c_pages c_L2_tables];
    unfold MMU_PAGE_SIZE, MMU_L2_TABLE_SIZE, MMU_L1_TABLE_SIZE, sizeof_mmu_L2_page_info; try lia.
  apply calc_geo; cbn [c_L1 c_max_L2 c_infos c_max_64k c_pages c_L2_tables];
    unfold clear, ROM_START, MMU_PAGE_SIZE, MMU_L2_TABLE_SIZE, MMU_L1_TABLE_SIZE, sizeof_mmu_L2_page_info;
    try lia; Z.div_mod_to_equations; lia.
Qed.

(** One page always fits in 0x18000 bytes. *)
Lemma backwards_one c start_addr aligned_end :
  0x50000 <= start_addr -> aligned_end <= ROM_START -> aligned_end mod 2 ^ 16 = 0 ->
  start_addr + 0x18000 <= aligned_end -> fst (try_backwards c start_addr aligned_end 1) = true.
Proof.
  intros Hs He Hal Hsp. unfold try_backwards.
  unfold MMU_PAGE_SIZE, MMU_L2_TABLE_SIZE, MMU_L1_TABLE_SIZE, sizeof_mmu_L2_page_info, ROM_START in *.
  rewrite (u32_small (aligned_end - _)) by lia. rewrite (proj2 (Z.ltb_ge _ _)) by lia.
  rewrite (u32_small (aligned_end - _ - _)) by lia. rewrite (proj2 (Z.ltb_ge _ _)) by lia.
  rewrite (u32_small (aligned_end - _ - _ - _)) by lia. rewrite round_down_L1 by lia.
  replace ((aligned_end - 65536 * 1 - 1024 * 1 - 18688) mod 2 ^ 14) with 0x3300 by (Z.div_mod_to_equations; lia).
  rewrite (proj2 (Z.ltb_ge _ _)) by lia. rewrite !u32_small by (rewrite ?u32_small by lia; lia).
  rewrite (proj2 (Z.ltb_lt (76 * 1) _)) by lia. rewrite (proj2 (Z.ltb_ge _ _)) by lia. done.
Qed.

Lemma backwards_loop start_addr aligned_end n c :
  0x50000 <= start_addr -> aligned_end <= ROM_START -> aligned_end mod 2 ^ 16 = 0 ->
  start_addr + 0x18000 <= aligned_end -> (0 < n <= 256)%nat ->
  start_addr + MMU_PAGE_SIZE * Z.of_nat n <= aligned_end ->
  fits start_addr aligned_end (calc_loop (fun c num => try_backwards c start_addr aligned_end num) n c).
Proof.
  intros Hs He Hal H1. revert c. induction n as [|n IH]; intros c Hn Hsp; [lia|]. cbn [calc_loop].
  destruct (try_backwards c start_addr aligned_end (Z.of_nat (S n))) as [[] c'] eqn:E.
  - eapply backwards_fits; [..|exact E]; done || lia.
  - destruct (decide (n = 0%nat)) as [->|Hne].
    + pose proof (backwards_one c start_addr aligned_end Hs He Hal H1) as Hone.
      change (Z.of_nat 1) with 1 in E. rewrite E in Hone. done.
    + apply IH; [lia|]. unfold MMU_PAGE_SIZE in *. lia.
Qed.

Lemma calc_backwards start_addr size_ :
  0x50000 <= start_addr -> 0 <= size_ <= 2 ^ 24 -> start_addr + size_ <= ROM_START ->
  start_addr mod 2 ^ 16 <> 0 -> (start_addr + size_) mod 2 ^ 16 + start_addr mod 2 ^ 16 < 2 ^ 16 ->
  0x18000 <= size_ - (start_addr + size_) mod 2 ^ 16 ->
  exists c, calc_mmu_globals start_addr size_ = (0, c) /\ fits start_addr (start_addr + size_) c.
Proof.
  intros Hs Hsz He Hsa Hadj H18. unfold calc_mmu_globals, min_required_space.
  unfold MMU_PAGE_SIZE, MMU_L2_TABLE_SIZE, MMU_L1_TABLE_SIZE, sizeof_mmu_L2_page_info, ROM_START in *.
  assert (Hm : 0 <= (start_addr + size_) mod 2 ^ 16 < 2 ^ 16) by (apply Z.mod_pos_bound; lia).
  assert (Hm' : 0 <= start_addr mod 2 ^ 16 < 2 ^ 16) by (apply Z.mod_pos_bound; lia).
  rewrite (proj2 (Z.ltb_ge size_ _)) by lia. rewrite (u32_small (start_addr + size_)) by lia.
  change (0x10000 - 1) with (2 ^ 16 - 1). rewrite !land_lo by lia.
  rewrite (proj2 (Z.eqb_neq (0x10000 - _) _)) by lia. rewrite (proj2 (Z.ltb_lt _ (0x10000 - _))) by lia.
  cbn [negb]. change (u32 (Z.lnot (2 ^ 16 - 1))) with (2 ^ 32 - 2 ^ 16). rewrite land_hi by lia.
  set (aend := start_addr + size_ - (start_addr + size_) mod 2 ^ 16).
  rewrite (u32_small (aend - start_addr)) by lia. rewrite (proj2 (Z.ltb_ge _ _)) by lia.
  assert (Hfit : fits start_addr aend (calc_loop (fun c num => try_backwards c start_addr aend num)
                   (Z.to_nat ((aend - start_addr) / 0x10000)) zero_calc)).
  { apply backwards_loop; unfold MMU_PAGE_SIZE, ROM_START; try lia.
    - subst aend. Z.div_mod_to_equations; lia.
    - Z.div_mod_to_equations; lia.
    - rewrite Z2Nat.id by (Z.div_mod_to_equations; lia). Z.div_mod_to_equations; lia. }
  set (c := calc_loop _ _ _) in *. destruct Hfit as [H1 H2 H3 H4 H5 H6].
  rewrite (proj2 (Z.eqb_neq _ _)) by lia. exists c. split; [done|]. split; try done; lia.
Qed.

(** ** Filling forwards *)

Lemma forwards_fits c aligned_start end_addr num :
  0 < aligned_start -> aligned_start mod 2 ^ 16 = 0 -> end_addr <= ROM_START -> 0 < num <= 10 ->
  aligned_start + MMU_PAGE_SIZE * num + 0x4c00 + MMU_L2_TABLE_SIZE * num <= end_addr ->
  exists c', try_forwards c aligned_start end_addr num = (true, c') /\ fits aligned_start end_addr c'.
Proof.
  intros Hs Hal He Hn Hroom. unfold try_forwards.
  unfold MMU_PAGE_SIZE, MMU_L2_TABLE_SIZE, MMU_L1_TABLE_SIZE, sizeof_mmu_L2_page_info, ROM_START in *.
  rewrite (u32_small (aligned_start + _)) by lia. set (l1 := aligned_start + 0x10000 * num) in *.
  rewrite (u32_small (l1 + _)) by lia.
  assert (Hru : ROUND_UP (l1 + 0x4900) 0x400 = l1 + 0x4c00).
  { unfold ROUND_UP. rewrite (u32_small (l1 + 0x4900 + _)), (u32_small (l1 + 0x4900 + _ - 1)) by lia.
    replace ((l1 + 0x4900 + 0x400 - 1) / 0x400) with ((l1 + 0x4c00) / 0x400) by (subst l1; Z.div_mod_to_equations; lia).
    rewrite u32_small; subst l1; Z.div_mod_to_equations; lia. }
  rewrite Hru. rewrite (u32_small (76 * num)), (u32_small (l1 + 0x4c00 - _)), (u32_small (l1 + 0x4c00 + _)) by lia.
  rewrite (proj2 (Z.ltb_lt (76 * num) _)) by lia. rewrite (u32_small (l1 + 0x4900 + _)) by lia.
  rewrite (proj2 (Z.leb_le _ end_addr)), (proj2 (Z.leb_le _ end_addr)) by lia. cbn [andb].
  eexists. split; [reflexivity|].
  split; cbn [c_L1 c_max_L2 c_infos c_max_64k c_pages c_L2_tables];
    unfold MMU_PAGE_SIZE, MMU_L2_TABLE_SIZE, MMU_L1_TABLE_SIZE, sizeof_mmu_L2_page_info; try lia.
  apply calc_geo; cbn [c_L1 c_max_L2 c_infos c_max_64k c_pages c_L2_tables];
    unfold clear, ROM_START, MMU_PAGE_SIZE, MMU_L2_TABLE_SIZE, MMU_L1_TABLE_SIZE, sizeof_mmu_L2_page_info;
    try lia; subst l1; Z.div_mod_to_equations; lia.
Qed.

(** [generic_mmu_space] is the smallest region, aligned to a page. *)
Lemma calc_generic start_addr :
  0 < start_addr -> start_addr mod 2 ^ 16 = 0 -> start_addr + min_required_space <= ROM_START ->
  exists c, calc_mmu_globals start_addr min_required_space = (0, c) /\
            fits start_addr (start_addr + min_required_space) c.
Proof.
  intros Hs Hal He. change min_required_space with 0x1504c in *. unfold ROM_START in *.
  unfold calc_mmu_globals. change min_required_space with 0x1504c. change (0x1504c <? 0x1504c) with false. cbv iota.
  change (MMU_PAGE_SIZE - 1) with (2 ^ 16 - 1). rewrite !(land_lo 16) by lia. rewrite Hal.
  change (MMU_PAGE_SIZE - 0 =? MMU_PAGE_SIZE) with true. cbv iota.
  rewrite (u32_small (start_addr + 0x1504c)) by lia.
  replace ((start_addr + 0x1504c) mod 2 ^ 16) with 0x504c by (Z.div_mod_to_equations; lia).
  change (negb (0x504c <? 0)) with true. cbv iota. rewrite Z.add_0_r, Z.sub_0_r.
  replace (start_addr + 0x1504c - start_addr) with 0x1504c by lia. rewrite (u32_small start_addr) by lia.
  change (u32 0x1504c <? 0x1504c) with false. cbv iota.
  change (Z.to_nat (u32 0x1504c / MMU_PAGE_SIZE)) with 1%nat. cbn [calc_loop]. change (Z.of_nat 1) with 1.
  destruct (forwards_fits zero_calc start_addr (start_addr + 0x1504c) 1) as (c & -> & Hf);
    [lia|done|unfold ROM_START; lia|lia|unfold MMU_PAGE_SIZE, MMU_L2_TABLE_SIZE; lia|].
  destruct Hf as [H1 H2 H3 H4 H5 H6]. rewrite (proj2 (Z.eqb_neq _ _)) by lia. exists c. split; [done|]. by split.
Qed.

(** C28: The layout of the MMU structures fits its region and nothing
    overlaps, for two kinds of region below ROM, at 0x50000 or above and of at
    most 16 MB: a 64 kB-aligned one of exactly the minimal size, as reserved
    in the binary; and one with an unaligned start, whose offsets of start and
    end within 64 kB add up to less than 64 kB and which has 0x18000 bytes
    before its last 64 kB boundary, as the AllocMem region is, which is filled
    from its end. The L1 table, the L2 tables, the bookkeeping structures and
    the page pool are then inside the region, aligned as the MMU needs them,
    and pairwise disjoint. *)
Theorem mmu_layout_fits start_addr size_ :
  0x50000 <= start_addr -> 0 <= size_ <= 2 ^ 24 -> start_addr + size_ <= ROM_START ->
  (start_addr mod 2 ^ 16 = 0 /\ size_ = min_required_space) \/
  (start_addr mod 2 ^ 16 <> 0 /\ (start_addr + size_) mod 2 ^ 16 + start_addr mod 2 ^ 16 < 2 ^ 16 /\
   0x18000 <= size_ - (start_addr + size_) mod 2 ^ 16) ->
  exists c, calc_mmu_globals start_addr size_ = (0, c) /\ fits start_addr (start_addr + size_) c.
Proof.
  intros Hs Hsz He [[Hal ->]|(Hal & Hadj & H18)].
  - apply calc_generic; [lia|done|done].
  - by apply calc_backwards.
Qed.

(** The AllocMem region of the 200D. *)
Lemma mmu_layout_fits_witness :
  exists c, calc_mmu_globals 0x46c000 0x64000 = (0, c) /\ fits 0x46c000 (0x46c000 + 0x64000) c.
Proof.
  apply (mmu_layout_fits 0x46c000 0x64000); [lia|lia|unfold ROM_START; lia|].
  right. split_and!; vm_compute; congruence.
Defined.

(** Three regions for which [calc_mmu_globals] reports success although the
    layout is wrong.  Filled forwards with eleven pages, the bookkeeping
    structures start inside the first L2 table; with two pages, the L2 tables
    can run past the end of the region, because their size is taken as
    [sizeof(MMU_L2_TABLE_SIZE)], four bytes; and when no number of pages fits,
    the loop ends with the L1 table placed before the region. *)
Theorem mmu_layout_flaws :
  (let '(r, c) := calc_mmu_globals 0x100000 0xb5000 in
   r = 0 /\ c_max_64k c = 11 /\ c_L2_tables c <= c_infos c < c_L2_tables c + MMU_L2_TABLE_SIZE) /\
  (let '(r, c) := calc_mmu_globals 0x100000 0x24d00 in
   r = 0 /\ c_max_64k c = 2 /\ 0x100000 + 0x24d00 < c_L2_tables c + MMU_L2_TABLE_SIZE * c_max_64k c) /\
  (let '(r, c) := calc_mmu_globals 0x46af00 0x15100 in
   r = 0 /\ c_L1 c < 0x46af00).
Proof. vm_compute. repeat split; congruence. Qed.
