(* ===== verification/Cpu.v ===== *)
(** * The two cores ([src/src/cpu.c], [src/src/dryos_rpc.c], [src/src/sgi.c])

    Core 0 asks core 1 to wait before it edits tables or code, and wakes it
    afterwards.  Each C function is the sequence of its accesses to shared
    memory and of its DryOS calls; the two cores interleave at every one of
    them.  The request goes through [_request_RPC] of DryOS, which interrupts
    core 1 to call [do_RPC] until the request is cleared.  The functions test
    that they run on the core they are for; here they do.  [take_semaphore] with
    timeout 0 waits, and [_request_RPC] accepts the request.

    What core 0 does in between ([Critical]), the change of translation tables
    and the tasks of core 1 are functions on an abstract memory. *)
From S2P Require Import Prelude.

(** ** Instructions *)

Inductive rpc_func := F_busy_wait_cpu1 | F_busy_wait_cpu1_then_update_mmu.

#[export] Instance rpc_func_eq_dec : EqDecision rpc_func.
Proof. solve_decision. Defined.

(** [w] names a [struct busy_wait] on the stack of core 0, [k] an edit. *)
Inductive instr :=
  | AllocWait (w : nat)              (* struct busy_wait wait = {0, 0} *)
  | FreeWait (w : nat)               (* its scope ends *)
  | TakeSem                          (* take_semaphore(RPC_sem, 0) *)
  | GiveSem                          (* give_semaphore(RPC_sem) *)
  | StoreFunc (f : option rpc_func)  (* RPC_args.RPC_func = f *)
  | StoreArg (w : option nat)        (* RPC_args.RPC_arg = w *)
  | RequestRPC                       (* _request_RPC(do_RPC, &RPC_args) *)
  | ClearRPC                         (* clear_RPC_request() *)
  | CallRPC                          (* a->RPC_func(a->RPC_arg) *)
  | StoreWaiting (w : nat) (v : Z)   (* wait->waiting = v *)
  | StoreWake (w : nat) (v : Z)      (* wait->wake = v *)
  | WhileNotWaiting (w : nat)        (* while (wait->waiting == 0) *)
  | WhileWaiting (w : nat)           (* while (wait->waiting != 0) *)
  | WhileNotWake (w : nat)           (* while (wait->wake == 0) *)
  | Critical (k : nat)               (* the edit *)
  | ChangeTables.                    (* change_mmu_tables on core 1 *)

(** ** The functions *)

Definition busy_wait_cpu1 (w : nat) : list instr :=
  [StoreWaiting w 1; WhileNotWake w; StoreWaiting w 0].

Definition busy_wait_cpu1_then_update_mmu (w : nat) : list instr :=
  [StoreWaiting w 1; WhileNotWake w; ChangeTables; StoreWaiting w 0].

Definition call (f : rpc_func) (w : nat) : list instr :=
  match f with
  | F_busy_wait_cpu1 => busy_wait_cpu1 w
  | F_busy_wait_cpu1_then_update_mmu => busy_wait_cpu1_then_update_mmu w
  end.

Definition do_RPC : list instr := [CallRPC; ClearRPC; StoreFunc None; StoreArg None; GiveSem].

Definition request_RPC (f : rpc_func) (w : nat) : list instr :=
  [TakeSem; StoreFunc (Some f); StoreArg (Some w); RequestRPC].

Definition wait_for_cpu1_busy_wait (w : nat) : list instr :=
  request_RPC F_busy_wait_cpu1 w ++ [WhileNotWaiting w].

Definition wait_for_cpu1_busy_wait_update_mmu (w : nat) : list instr :=
  request_RPC F_busy_wait_cpu1_then_update_mmu w ++ [WhileNotWaiting w].

Definition wake_cpu1_busy_wait (w : nat) : list instr :=
  [StoreWake w 1; WhileWaiting w; StoreWake w 0].

(** [patch_memory_rom] and [patch_memory_ram] as core 0 runs them when core 1
    is up: [update] tells which. *)
Definition patch_memory (update : bool) (k : nat) : list instr :=
  AllocWait k ::
  (if update then wait_for_cpu1_busy_wait_update_mmu k else wait_for_cpu1_busy_wait k)
  ++ Critical k :: wake_cpu1_busy_wait k ++ [FreeWait k].

(** The patches of a boot, in order. *)
Fixpoint patches_from (k : nat) (ops : list bool) : list instr :=
  match ops with
  | [] => []
  | u :: ops => patch_memory u k ++ patches_from (S k) ops
  end.

(** ** The machine *)

Section machine.
Context {M : Type}.
Variables (crit : nat -> M -> M) (take1 : M -> M) (task : nat -> M -> M).

(** What happened, in order: edits of core 0 and tasks of core 1. *)
Inductive event := EOp (k : nat) | ETask (n : nat).

Record shared := mk_shared {
  live : option nat;        (* the struct busy_wait that exists *)
  waiting : Z;
  wake : Z;
  sem : bool;               (* RPC_sem can be taken *)
  rpc_f : option rpc_func;
  rpc_arg : option nat;
  pending : bool;           (* a request DryOS delivers to core 1 *)
  mem : M;
  log : list event;
  fault : bool;             (* a pointer to a dead struct was used *)
}.

Definition set_wait (s : shared) (l : option nat) (w k : Z) : shared :=
  mk_shared l w k (sem s) (rpc_f s) (rpc_arg s) (pending s) (mem s) (log s) (fault s).
Definition set_rpc (s : shared) (b : bool) (f : option rpc_func) (a : option nat) (p : bool) : shared :=
  mk_shared (live s) (waiting s) (wake s) b f a p (mem s) (log s) (fault s).
Definition set_mem (s : shared) (m : M) (l : list event) : shared :=
  mk_shared (live s) (waiting s) (wake s) (sem s) (rpc_f s) (rpc_arg s) (pending s) m l (fault s).
Definition set_fault (s : shared) : shared :=
  mk_shared (live s) (waiting s) (wake s) (sem s) (rpc_f s) (rpc_arg s) (pending s) (mem s) (log s) true.

(** An access through a pointer to [w]. *)
Definition access (s : shared) (w : nat) (k : shared * list instr) : option (shared * list instr) :=
  if bool_decide (live s = Some w) then Some k else Some (set_fault s, []).

(** One turn of a loop that reads [w]. *)
Definition spin (s : shared) (w : nat) (again : bool) : option (shared * list instr) :=
  if bool_decide (live s = Some w) then (if again then None else Some (s, [])) else Some (set_fault s, []).

(** One instruction: the shared state and the code it calls; [None] while it
    has to wait. *)
Definition exec (s : shared) (i : instr) : option (shared * list instr) :=
  match i with
  | AllocWait w => Some (set_wait s (Some w) 0 0, [])
  | FreeWait w => Some (set_wait s None (waiting s) (wake s), [])
  | TakeSem => if sem s then Some (set_rpc s false (rpc_f s) (rpc_arg s) (pending s), []) else None
  | GiveSem => Some (set_rpc s true (rpc_f s) (rpc_arg s) (pending s), [])
  | StoreFunc f => Some (set_rpc s (sem s) f (rpc_arg s) (pending s), [])
  | StoreArg w => Some (set_rpc s (sem s) (rpc_f s) w (pending s), [])
  | RequestRPC => Some (set_rpc s (sem s) (rpc_f s) (rpc_arg s) true, [])
  | ClearRPC => Some (set_rpc s (sem s) (rpc_f s) (rpc_arg s) false, [])
  | CallRPC => match rpc_f s, rpc_arg s with
               | Some f, Some w => Some (s, call f w)
               | _, _ => Some (set_fault s, [])
               end
  | StoreWaiting w v => access s w (set_wait s (live s) v (wake s), [])
  | StoreWake w v => access s w (set_wait s (live s) (waiting s) v, [])
  | WhileNotWaiting w => spin s w (waiting s =? 0)
  | WhileWaiting w => spin s w (negb (waiting s =? 0))
  | WhileNotWake w => spin s w (wake s =? 0)
  | Critical k => Some (set_mem s (crit k (mem s)) (log s ++ [EOp k]), [])
  | ChangeTables => Some (set_mem s (take1 (mem s)) (log s), [])
  end.

Record machine := mk_machine {
  sh : shared;
  code0 : list instr;   (* what core 0 has still to do *)
  code1 : list instr;   (* the rest of the RPC on core 1, [] in its tasks *)
}.

(** Either core makes its next access; DryOS delivers a pending request to a
    core 1 that is in its tasks; a task of core 1 does something. *)
Inductive step : machine -> machine -> Prop :=
  | step_core0 s i c c1 s' extra :
      exec s i = Some (s', extra) -> step (mk_machine s (i :: c) c1) (mk_machine s' (extra ++ c) c1)
  | step_core1 s i c c0 s' extra :
      exec s i = Some (s', extra) -> step (mk_machine s c0 (i :: c)) (mk_machine s' c0 (extra ++ c))
  | step_rpc s c0 :
      pending s = true -> step (mk_machine s c0 []) (mk_machine s c0 do_RPC)
  | step_task s c0 n :
      step (mk_machine s c0 []) (mk_machine (set_mem s (task n (mem s)) (log s ++ [ETask n])) c0 []).

Definition steps : machine -> machine -> Prop := rtc step.

(** Nothing requested, the semaphore free. *)
Definition start (m : M) (ops : list bool) : machine :=
  mk_machine (mk_shared None 0 0 true None None false m [] false) (patches_from 0 ops) [].

(** The events one after the other: an edit with a table update is both. *)
Definition run_event (ops : list bool) (m : M) (e : event) : M :=
  match e with
  | EOp k => if nth k ops false then take1 (crit k m) else crit k m
  | ETask n => task n m
  end.

Definition run_events (ops : list bool) (m : M) (l : list event) : M := foldl (run_event ops) m l.
End machine.

Arguments shared : clear implicits.
Arguments machine : clear implicits.

(** ** Suspending core 1 *)

(** [suspended i] is what the [i]-th look at [cpu1_suspended] finds; the loop
    sleeps 10 ms in between. *)
Fixpoint wait_loop (suspended : nat -> bool) (i fuel : nat) (timeout : Z) : Z :=
  match fuel with
  | O => timeout
  | S fuel => if negb (suspended i) && (0 <? timeout)
              then wait_loop suspended (S i) fuel (s32 (timeout - 10)) else timeout
  end.

Definition wait_for_cpu1_to_suspend (suspended : nat -> bool) (timeout : Z) : Z :=
  let timeout := wait_loop suspended 0 (Z.to_nat timeout + 1) timeout in
  if timeout <? 0 then -1 else 0.

(** ** Software interrupts *)

(** The pointers of [sgi_handlers], NULL is 0: the largest index up to [i] that
    passes the test, or -1. *)
Fixpoint scan_down (test : Z -> bool) (sgi_handlers : list Z) (i : nat) : Z :=
  if test (sgi_handlers !!! i) then Z.of_nat i
  else match i with O => -1 | S i => scan_down test sgi_handlers i end.

(** The result and the table; [None] is a store to [sgi_handlers[-1]]. *)
Definition register_sgi_handler (sgi_handlers : list Z) (handler_func : Z) : Z * option (list Z) :=
  let i := scan_down (fun h => h =? handler_func) sgi_handlers 9 in
  if 0 <=? i then (i, Some sgi_handlers)
  else
    let i := scan_down (fun h => h =? 0) sgi_handlers 9 in
    let table := if i <? 0 then None else Some (<[Z.to_nat i := handler_func]> sgi_handlers) in
    (if 0 <? i then i else -1, table).
