(* ===== verification/CpuProps.v ===== *)
(** * The handshake of the cores is atomic and does not deadlock

    An invariant of every reachable state of the two cores, by induction on
    the steps.  It gives mutual exclusion, that no pointer to a dead structure
    is used, that an edit is one atomic event between the tasks of core 1, and
    that core 0 can always finish. *)
From S2P Require Import Prelude Cpu.

Section machine.
Context {M : Type}.
Variables (crit : nat -> M -> M) (take1 : M -> M) (task : nat -> M -> M) (m0 : M) (ops : list bool).

Abbreviation shared := (shared M).
Abbreviation machine := (machine M).
Abbreviation exec := (exec crit take1).
Abbreviation step := (step crit take1 task).
Abbreviation run_events := (run_events crit take1 task ops m0).

(** ** Code by position *)

Definition fn (u : bool) : rpc_func := if u then F_busy_wait_cpu1_then_update_mmu else F_busy_wait_cpu1.

Definition after (k : nat) : list instr := patches_from (S k) (drop (S k) ops).

Definition tail1 : list instr := [ClearRPC; StoreFunc None; StoreArg None; GiveSem].

(** Core 1 in the wait loop, and what it does when woken. *)
Definition woken (u : bool) (k : nat) : list instr :=
  (if u then [ChangeTables] else []) ++ StoreWaiting k 0 :: tail1.

Lemma patches_at k u :
  ops !! k = Some u ->
  patches_from k (drop k ops)
  = AllocWait k :: TakeSem :: StoreFunc (Some (fn u)) :: StoreArg (Some k) :: RequestRPC :: WhileNotWaiting k
    :: Critical k :: StoreWake k 1 :: WhileWaiting k :: StoreWake k 0 :: FreeWait k :: after k.
Proof. intros Hk. rewrite (drop_S ops u k Hk). unfold after. by destruct u. Qed.

Lemma patches_end k : ops !! k = None -> patches_from k (drop k ops) = [].
Proof. intros Hk. rewrite drop_ge; [done|]. by apply lookup_ge_None. Qed.

(** ** The invariant *)

(** Core 1 is not in the wait loop any more, or not yet. *)
Inductive apart1 (s : shared) : list instr -> Prop :=
  | AP_task : sem s = true -> pending s = false -> apart1 s []
  | AP_clear : sem s = false -> apart1 s tail1
  | AP_func : sem s = false -> pending s = false -> apart1 s [StoreFunc None; StoreArg None; GiveSem]
  | AP_arg : sem s = false -> pending s = false -> apart1 s [StoreArg None; GiveSem]
  | AP_give : sem s = false -> pending s = false -> apart1 s [GiveSem].

(** The request is under way. *)
Inductive coming (s : shared) (u : bool) (k : nat) : list instr -> Prop :=
  | CO_task : waiting s = 0 -> coming s u k []
  | CO_call : waiting s = 0 -> coming s u k do_RPC
  | CO_wait : waiting s = 0 -> coming s u k (StoreWaiting k 1 :: WhileNotWake k :: woken u k)
  | CO_loop : waiting s = 1 -> coming s u k (WhileNotWake k :: woken u k).

(** Core 1 leaves the loop. *)
Inductive leaving (s : shared) (u : bool) (k : nat) : list instr -> Prop :=
  | LE_loop : waiting s = 1 -> leaving s u k (WhileNotWake k :: woken u k)
  | LE_take : waiting s = 1 -> u = true -> leaving s u k (ChangeTables :: StoreWaiting k 0 :: tail1).

Definition mem_ok (s : shared) : Prop := mem s = run_events (log s).

(** The update of core 1 is still owed. *)
Definition mem_owed (u : bool) (s : shared) : Prop :=
  (if u then take1 (mem s) else mem s) = run_events (log s).

Definition held (s : shared) (k : nat) : Prop := live s = Some k /\ wake s = 0 /\ sem s = false.
Definition quiet (s : shared) : Prop := waiting s = 0 /\ wake s = 0.

Inductive phase (s : shared) (c1 : list instr) : list instr -> Prop :=
  | P_start k : mem_ok s -> apart1 s c1 -> phase s c1 (patches_from k (drop k ops))
  | P_take k u : ops !! k = Some u -> mem_ok s -> apart1 s c1 -> live s = Some k -> quiet s ->
      phase s c1 (TakeSem :: StoreFunc (Some (fn u)) :: StoreArg (Some k) :: RequestRPC :: WhileNotWaiting k
                  :: Critical k :: StoreWake k 1 :: WhileWaiting k :: StoreWake k 0 :: FreeWait k :: after k)
  | P_func k u : ops !! k = Some u -> mem_ok s -> c1 = [] -> held s k -> waiting s = 0 -> pending s = false ->
      phase s c1 (StoreFunc (Some (fn u)) :: StoreArg (Some k) :: RequestRPC :: WhileNotWaiting k
                  :: Critical k :: StoreWake k 1 :: WhileWaiting k :: StoreWake k 0 :: FreeWait k :: after k)
  | P_arg k u : ops !! k = Some u -> mem_ok s -> c1 = [] -> held s k -> waiting s = 0 -> pending s = false ->
      rpc_f s = Some (fn u) ->
      phase s c1 (StoreArg (Some k) :: RequestRPC :: WhileNotWaiting k
                  :: Critical k :: StoreWake k 1 :: WhileWaiting k :: StoreWake k 0 :: FreeWait k :: after k)
  | P_req k u : ops !! k = Some u -> mem_ok s -> c1 = [] -> held s k -> waiting s = 0 -> pending s = false ->
      rpc_f s = Some (fn u) -> rpc_arg s = Some k ->
      phase s c1 (RequestRPC :: WhileNotWaiting k
                  :: Critical k :: StoreWake k 1 :: WhileWaiting k :: StoreWake k 0 :: FreeWait k :: after k)
  | P_wait k u : ops !! k = Some u -> mem_ok s -> coming s u k c1 -> held s k -> pending s = true ->
      rpc_f s = Some (fn u) -> rpc_arg s = Some k ->
      phase s c1 (WhileNotWaiting k
                  :: Critical k :: StoreWake k 1 :: WhileWaiting k :: StoreWake k 0 :: FreeWait k :: after k)
  | P_crit k u : ops !! k = Some u -> mem_ok s -> c1 = WhileNotWake k :: woken u k -> held s k -> waiting s = 1 ->
      phase s c1 (Critical k :: StoreWake k 1 :: WhileWaiting k :: StoreWake k 0 :: FreeWait k :: after k)
  | P_wake k u : ops !! k = Some u -> mem_owed u s -> c1 = WhileNotWake k :: woken u k -> held s k -> waiting s = 1 ->
      phase s c1 (StoreWake k 1 :: WhileWaiting k :: StoreWake k 0 :: FreeWait k :: after k)
  | P_leave k u : ops !! k = Some u -> mem_owed u s -> leaving s u k c1 -> live s = Some k -> wake s = 1 ->
      sem s = false ->
      phase s c1 (WhileWaiting k :: StoreWake k 0 :: FreeWait k :: after k)
  | P_left k : mem_ok s -> c1 = StoreWaiting k 0 :: tail1 -> waiting s = 1 -> live s = Some k -> sem s = false ->
      phase s c1 (WhileWaiting k :: StoreWake k 0 :: FreeWait k :: after k)
  | P_gone k : mem_ok s -> apart1 s c1 -> waiting s = 0 -> live s = Some k ->
      phase s c1 (WhileWaiting k :: StoreWake k 0 :: FreeWait k :: after k)
  | P_reset k : mem_ok s -> apart1 s c1 -> live s = Some k ->
      phase s c1 (StoreWake k 0 :: FreeWait k :: after k)
  | P_free k : mem_ok s -> apart1 s c1 ->
      phase s c1 (FreeWait k :: after k).

Definition inv (x : machine) : Prop := fault (sh x) = false /\ phase (sh x) (code1 x) (code0 x).

Lemma inv_start : inv (start m0 ops).
Proof. split; [done|]. apply (P_start _ _ 0); [done|]. by apply AP_task. Qed.

(** ** Events *)

Lemma run_events_snoc l e : run_events (l ++ [e]) = run_event crit take1 task ops (run_events l) e.
Proof. unfold run_events. by rewrite foldl_app. Qed.

Lemma mem_ok_task s n : mem_ok s -> mem_ok (set_mem s (task n (mem s)) (log s ++ [ETask n])).
Proof. unfold mem_ok. cbn [mem log set_mem]. intros ->. by rewrite run_events_snoc. Qed.

Lemma mem_owed_crit s k u : ops !! k = Some u -> mem_ok s ->
  mem_owed u (set_mem s (crit k (mem s)) (log s ++ [EOp k])).
Proof.
  unfold mem_ok, mem_owed. cbn [mem log set_mem]. intros Hk ->. rewrite run_events_snoc. cbn [run_event].
  rewrite (nth_lookup_Some ops k false u Hk). by destruct u.
Qed.

(** Core 1 on its way out makes a step of its own. *)
Lemma apart1_step s i c s' extra :
  exec s i = Some (s', extra) -> apart1 s (i :: c) ->
  apart1 s' (extra ++ c) /\ mem s' = mem s /\ log s' = log s /\ live s' = live s /\ waiting s' = waiting s /\
  wake s' = wake s /\ fault s' = fault s.
Proof.
  intros E H. inversion H; subst; cbn in E; injection E as <- <-; cbn; (split; [|done]);
    [by apply AP_func|by apply AP_arg|by apply AP_give|by apply AP_task].
Qed.

Lemma apart1_ext s s' c1 : sem s' = sem s -> pending s' = pending s -> apart1 s c1 -> apart1 s' c1.
Proof.
  intros Es Ep H. inversion H; subst; [apply AP_task|apply AP_clear|apply AP_func|apply AP_arg|apply AP_give]; congruence.
Qed.

(** ** The steps keep it *)

Lemma access_live (s : shared) w r x : live s = Some w -> access s w r = Some x -> x = r.
Proof. intros Hl. unfold access. rewrite bool_decide_true by done. by intros [= <-]. Qed.

Lemma spin_live (s : shared) w b x : live s = Some w -> spin s w b = Some x -> b = false /\ x = (s, []).
Proof. intros Hl. unfold spin. rewrite bool_decide_true by done. by destruct b; intros [= <-]. Qed.

(** The struct of the current edit is live when either core uses it. *)
Ltac use_live H :=
  apply access_live in H; [|assumption]; injection H as -> ->.
Ltac use_spin H W :=
  apply spin_live in H; [|assumption]; destruct H as [W H]; injection H as -> ->; to_prop.

Lemma core0_step s i c c1 s' extra :
  fault s = false -> phase s c1 (i :: c) -> exec s i = Some (s', extra) ->
  fault s' = false /\ phase s' c1 (extra ++ c).
Proof.
  intros Hf H E. inversion H as [k Hm Ha Ec|k u Hk Hm Ha Hl Hq|k u Hk Hm -> (Hl & Hwk & Hs) Hw Hp
    |k u Hk Hm -> (Hl & Hwk & Hs) Hw Hp Hrf|k u Hk Hm -> (Hl & Hwk & Hs) Hw Hp Hrf Hra
    |k u Hk Hm Hco (Hl & Hwk & Hs) Hp Hrf Hra|k u Hk Hm -> (Hl & Hwk & Hs) Hw|k u Hk Hm -> (Hl & Hwk & Hs) Hw
    |k u Hk Hm Hle Hl Hwk Hs|k Hm -> Hw Hl Hs|k Hm Ha Hw Hl|k Hm Ha Hl|k Hm Ha]; subst.
  - destruct (ops !! k) as [u|] eqn:Ek; [|by rewrite patches_end in Ec].
    rewrite (patches_at k u Ek) in Ec. injection Ec as <- <-. cbn in E. injection E as <- <-.
    split; [done|]. apply (P_take _ _ k u); try done. by apply (apart1_ext s).
  - cbn in E. destruct (sem s) eqn:Es; [|done]. injection E as <- <-. split; [done|].
    inversion Ha; subst; try congruence. destruct Hq. by apply (P_func _ _ k u).
  - cbn in E. injection E as <- <-. split; [done|]. by apply (P_arg _ _ k u).
  - cbn in E. injection E as <- <-. split; [done|]. by apply (P_req _ _ k u).
  - cbn in E. injection E as <- <-. split; [done|]. apply (P_wait _ _ k u); try done. by apply CO_task.
  - cbn in E. use_spin E Ew. split; [done|].
    inversion Hco; subst; try congruence. by apply (P_crit _ _ k u).
  - cbn in E. injection E as <- <-. split; [done|]. apply (P_wake _ _ k u); try done. by apply mem_owed_crit.
  - cbn in E. use_live E. split; [done|]. apply (P_leave _ _ k u); try done. by apply LE_loop.
  - cbn in E. use_spin E Ew. inversion Hle; congruence.
  - cbn in E. use_spin E Ew. congruence.
  - cbn in E. use_spin E Ew. split; [done|]. by apply P_reset.
  - cbn in E. use_live E. split; [done|]. apply P_free; [done|]. by apply (apart1_ext s).
  - cbn in E. injection E as <- <-. split; [done|]. apply (P_start _ _ (S k)); [done|]. by apply (apart1_ext s).
Qed.

Lemma core1_step s i c c0 s' extra :
  fault s = false -> phase s (i :: c) c0 -> exec s i = Some (s', extra) ->
  fault s' = false /\ phase s' (extra ++ c) c0.
Proof.
  intros Hf H E. inversion H as [k Hm Ha Ec|k u Hk Hm Ha Hl Hq|k u Hk Hm Hc|k u Hk Hm Hc|k u Hk Hm Hc
    |k u Hk Hm Hco (Hl & Hwk & Hs) Hp Hrf Hra|k u Hk Hm [= -> ->] (Hl & Hwk & Hs) Hw|k u Hk Hm [= -> ->] (Hl & Hwk & Hs) Hw
    |k u Hk Hm Hle Hl Hwk Hs|k Hm [= -> ->] Hw Hl Hs|k Hm Ha Hw Hl|k Hm Ha Hl|k Hm Ha]; subst; try done.
  - destruct (apart1_step _ _ _ _ _ E Ha) as (Ha' & Em & El & _ & _ & _ & Ef). split; [congruence|].
    apply P_start; [|done]. unfold mem_ok. by rewrite Em, El.
  - destruct (apart1_step _ _ _ _ _ E Ha) as (Ha' & Em & El & Elv & Ew & Ek & Ef). split; [congruence|].
    apply (P_take _ _ k u); [done|unfold mem_ok; by rewrite Em, El|done|congruence|].
    unfold quiet in *. by rewrite Ew, Ek.
  - inversion Hco as [Hw|Hw|Hw|Hw]; subst; cbn in E.
    + rewrite Hrf, Hra in E. injection E as <- <-. split; [done|]. apply (P_wait _ _ k u); try done.
      destruct u; by apply CO_wait.
    + use_live E. split; [done|]. apply (P_wait _ _ k u); try done. by apply CO_loop.
    + use_spin E Ew. congruence.
  - cbn in E. use_spin E Ew. congruence.
  - cbn in E. use_spin E Ew. congruence.
  - inversion Hle as [Hw|Hw Hu]; subst; cbn in E.
    + use_spin E Ew. split; [done|]. destruct u.
      * apply (P_leave _ _ k true); try done. by apply LE_take.
      * by apply P_left.
    + injection E as <- <-. split; [done|]. by apply P_left.
  - cbn in E. use_live E. split; [done|]. apply P_gone; try done. by apply AP_clear.
  - destruct (apart1_step _ _ _ _ _ E Ha) as (Ha' & Em & El & Elv & Ew & Ek & Ef). split; [congruence|].
    apply P_gone; [unfold mem_ok; by rewrite Em, El|done|congruence|congruence].
  - destruct (apart1_step _ _ _ _ _ E Ha) as (Ha' & Em & El & Elv & Ew & Ek & Ef). split; [congruence|].
    apply P_reset; [unfold mem_ok; by rewrite Em, El|done|congruence].
  - destruct (apart1_step _ _ _ _ _ E Ha) as (Ha' & Em & El & Elv & Ew & Ek & Ef). split; [congruence|].
    apply P_free; [unfold mem_ok; by rewrite Em, El|done].
Qed.

Lemma rpc_step s c0 : pending s = true -> phase s [] c0 -> phase s do_RPC c0.
Proof.
  intros Hp H.
  assert (Hna : ~ apart1 s []) by (intros Ha; inversion Ha; congruence).
  inversion H as [ | | | | |k u Hk Hm Hco Hh Hp' Hrf Hra| | |k u Hk Hm Hle| | | | ]; subst; try done; try congruence.
  - apply (P_wait _ _ k u); try done. inversion Hco; subst. by apply CO_call.
  - inversion Hle.
Qed.

Lemma task_step s c0 n : phase s [] c0 -> phase (set_mem s (task n (mem s)) (log s ++ [ETask n])) [] c0.
Proof.
  intros H. assert (Hap : apart1 s [] -> apart1 (set_mem s (task n (mem s)) (log s ++ [ETask n])) [])
    by (by apply apart1_ext).
  inversion H as [k Hm Ha Ec|k u Hk Hm Ha Hl Hq|k u Hk Hm Hc|k u Hk Hm Hc|k u Hk Hm Hc
    |k u Hk Hm Hco Hh Hp Hrf Hra|k u Hk Hm Hc|k u Hk Hm Hc|k u Hk Hm Hle Hl Hwk Hs|k Hm Hc|k Hm Ha Hw Hl|k Hm Ha Hl|k Hm Ha];
    subst; try done; try pose proof (mem_ok_task s n Hm) as Hm'.
  - apply P_start; auto.
  - apply (P_take _ _ k u); auto.
  - by apply (P_func _ _ k u).
  - by apply (P_arg _ _ k u).
  - by apply (P_req _ _ k u).
  - apply (P_wait _ _ k u); try done. inversion Hco; subst. by apply CO_task.
  - inversion Hle.
  - apply P_gone; auto.
  - apply P_reset; auto.
  - apply P_free; auto.
Qed.

Lemma inv_step x y : inv x -> step x y -> inv y.
Proof.
  intros [Hf H] Hs. destruct Hs; cbn [sh code0 code1] in *; unfold inv; cbn [sh code0 code1].
  - by eapply core0_step.
  - by eapply core1_step.
  - split; [done|]. by apply rpc_step.
  - split; [done|]. by apply task_step.
Qed.

Lemma reachable_inv x : steps crit take1 task (start m0 ops) x -> inv x.
Proof.
  intros Hs. assert (Hg : forall y x, steps crit take1 task y x -> inv y -> inv x).
  { intros y z Hr. induction Hr as [|y z w Hyz _ IH]; [done|]. intros Hy. apply IH. by eapply inv_step. }
  apply (Hg _ _ Hs), inv_start.
Qed.

(** ** Every edit once, in order *)

Definition edit_of (i : instr) : option nat := match i with Critical k => Some k | _ => None end.
Definition op_of (e : event) : option nat := match e with EOp k => Some k | ETask _ => None end.

Definition edits (x : machine) : list nat := omap op_of (log (sh x)) ++ omap edit_of (code0 x).

Lemma exec_edits s i s' extra :
  exec s i = Some (s', extra) ->
  omap edit_of extra = [] /\ omap op_of (log s') = omap op_of (log s) ++ omap edit_of [i].
Proof.
  assert (Hacc : forall w r, r.2 = [] -> log (r.1) = log s -> access s w r = Some (s', extra) ->
            omap edit_of extra = [] /\ omap op_of (log s') = omap op_of (log s) ++ []).
  { intros w [r1 r2] Hr Hl. cbn in Hr, Hl. unfold access. rewrite app_nil_r.
    case_bool_decide; intros [= <- <-]; [by rewrite Hr, Hl|done]. }
  assert (Hspin : forall w b, spin s w b = Some (s', extra) ->
            omap edit_of extra = [] /\ omap op_of (log s') = omap op_of (log s) ++ []).
  { intros w b. unfold spin. rewrite app_nil_r. case_bool_decide; [destruct b|]; by intros [= <- <-]. }
  destruct i; cbn; try (intros [= <- <-]; cbn; by rewrite ?app_nil_r); try (by apply Hacc).
  - case_goal; [|done]. intros [= <- <-]. cbn. by rewrite app_nil_r.
  - destruct (rpc_f s) as [[]|], (rpc_arg s); intros [= <- <-]; cbn; by rewrite app_nil_r.
  - by apply Hspin.
  - by apply Hspin.
  - by apply Hspin.
  - intros [= <- <-]. cbn. by rewrite omap_app.
Qed.

Lemma edits_step x y : step x y -> omap edit_of (code1 x) = [] ->
  edits y = edits x /\ omap edit_of (code1 y) = [].
Proof.
  intros Hs. destruct Hs as [s i c c1 s' extra E|s i c c0 s' extra E|s c0 Hp|s c0 n]; unfold edits;
    cbn [sh code0 code1].
  - intros H1. destruct (exec_edits _ _ _ _ E) as [Hx Hl]. split; [|done].
    rewrite Hl, omap_app, Hx. cbn. destruct (edit_of i); by rewrite ?app_nil_r, <- ?app_assoc.
  - intros H1. destruct (exec_edits _ _ _ _ E) as [Hx Hl]. cbn in H1.
    destruct (edit_of i) eqn:Ei; [done|]. rewrite Hl, omap_app, Hx, H1. cbn. rewrite Ei. by rewrite app_nil_r.
  - done.
  - intros _. cbn. split; [|done]. rewrite omap_app. cbn. by rewrite app_nil_r.
Qed.

Lemma edits_patches k l : omap edit_of (patches_from k l) = seq k (length l).
Proof. revert k. induction l as [|u l IH]; intros k; [done|]. destruct u; cbn; by rewrite IH. Qed.

Lemma reachable_edits x : steps crit take1 task (start m0 ops) x -> edits x = seq 0 (length ops).
Proof.
  intros Hs. assert (Hg : forall y x, steps crit take1 task y x -> omap edit_of (code1 y) = [] -> edits x = edits y).
  { intros y z Hr. induction Hr as [|y z w Hyz _ IH]; [done|]. intros Hy.
    destruct (edits_step y z Hyz Hy) as [E1 E2]. rewrite IH by done. done. }
  rewrite (Hg _ _ Hs eq_refl). unfold edits. cbn. apply edits_patches.
Qed.

(** ** Progress *)

(** What core 1 still has to do before core 0 can go on. *)
Definition cost_of (p : bool) (c : list instr) : nat :=
  match c with
  | [] => if p then 12 else 0
  | CallRPC :: _ => 11
  | c => length c
  end.

Definition cost1 (x : machine) : nat := cost_of (pending (sh x)) (code1 x).

Definition cost (x : machine) : nat := (100 * length (code0 x) + cost1 x)%nat.

Lemma cost_nil p : (cost_of p [] <= 12)%nat.
Proof. destruct p; cbn; lia. Qed.

Lemma cost_apart s c1 : apart1 s c1 -> (cost_of (pending s) c1 <= 12)%nat.
Proof. intros Ha. inversion Ha; subst; cbn; try lia. by case_goal; lia. Qed.

Lemma cost1_bound x : inv x -> (cost1 x <= 12)%nat.
Proof.
  intros [_ H]. unfold cost1. destruct x as [s c0 c1]. cbn [sh code0 code1] in *.
  inversion H as [ | | | | |k u Hk Hm Hco|k u Hk|k u Hk|k u Hk Hm Hle| | | | ]; subst;
    auto using cost_apart, cost_nil.
  - inversion Hco; subst; [apply cost_nil|destruct u; cbn; lia..].
  - destruct u; cbn; lia.
  - destruct u; cbn; lia.
  - inversion Hle; subst; [destruct u|]; cbn; lia.
  - cbn. lia.
Qed.

Lemma access_ok (s : shared) w r : live s = Some w -> access s w r = Some r.
Proof. intros Hl. unfold access. by rewrite bool_decide_true. Qed.

Lemma spin_ok (s : shared) w : live s = Some w -> spin s w false = Some (s, []).
Proof. intros Hl. unfold spin. by rewrite bool_decide_true. Qed.

(** A step that brings core 0 nearer to its end. *)
Definition pays (x : machine) : Prop := exists y, step x y /\ (cost y < cost x)%nat.

Lemma pays_core0 s i c c1 s' :
  inv (mk_machine s (i :: c) c1) -> exec s i = Some (s', []) -> pays (mk_machine s (i :: c) c1).
Proof.
  intros Hi E. pose proof (step_core0 crit take1 task s i c c1 s' [] E) as Hst.
  exists (mk_machine s' c c1). split; [done|].
  pose proof (cost1_bound _ (inv_step _ _ Hi Hst)) as Hb. unfold cost. cbn [code0 length app] in *. lia.
Qed.

Lemma pays_core1 s i c c0 s' :
  i <> CallRPC -> c <> [] \/ pending s = false -> (forall c', c <> CallRPC :: c') ->
  exec s i = Some (s', []) -> pending s' = pending s \/ c <> [] -> pays (mk_machine s c0 (i :: c)).
Proof.
  intros Hi Hc Hnc E Hp. exists (mk_machine s' c0 c). split; [exact (step_core1 crit take1 task s i c c0 s' [] E)|].
  unfold cost, cost1, cost_of. cbn [code0 code1 sh].
  destruct i; try done; destruct c as [|[] c]; cbn [length]; try lia; try (by destruct (Hnc c));
    destruct Hc as [?|Hc]; try done; destruct Hp as [Hp|?]; try done; rewrite Hp, Hc; lia.
Qed.

Lemma pays_apart s c0 c1 : apart1 s c1 -> c1 <> [] -> pays (mk_machine s c0 c1).
Proof.
  intros Ha Hc1. inversion Ha; subst; try done.
  - eapply pays_core1; [done|by left|done|done|by right].
  - eapply pays_core1; [done|by left|done|done|by right].
  - eapply pays_core1; [done|by left|done|done|by right].
  - eapply pays_core1; [done|by right|done|done|by left].
Qed.

Lemma progress x : inv x -> code0 x <> [] -> pays x.
Proof.
  intros Hi Hne. pose proof Hi as [Hf H]. destruct x as [s c0 c1]. cbn [sh code0 code1] in *.
  inversion H as [k Hm Ha Ec|k u Hk Hm Ha Hl Hq|k u Hk Hm Hc|k u Hk Hm Hc|k u Hk Hm Hc
    |k u Hk Hm Hco (Hl & Hwk & Hs) Hp Hrf Hra|k u Hk Hm Hc (Hl & Hwk & Hs)|k u Hk Hm Hc (Hl & Hwk & Hs)
    |k u Hk Hm Hle Hl Hwk Hs|k Hm Hc Hw Hl|k Hm Ha Hw Hl|k Hm Ha Hl|k Hm Ha]; subst.
  - destruct (ops !! k) as [u|] eqn:Ek; [|by rewrite patches_end in Hne].
    rewrite (patches_at k u Ek) in *. by eapply pays_core0.
  - destruct (decide (c1 = [])) as [->|Hc1]; [|by apply pays_apart]. inversion Ha as [Hs Hp| | | | ].
    eapply pays_core0; [done|]. cbn. by rewrite Hs.
  - by eapply pays_core0.
  - by eapply pays_core0.
  - by eapply pays_core0.
  - inversion Hco as [Hw|Hw|Hw|Hw]; subst.
    + eexists. split; [by apply step_rpc|]. unfold cost, cost1. cbn [code0 code1 sh do_RPC cost_of]. rewrite Hp. lia.
    + eexists. split; [eapply step_core1; cbn; by rewrite Hrf, Hra|].
      unfold cost, cost1. cbn [code0 code1 sh]. destruct u; cbn; lia.
    + eapply pays_core1; [done|by left|done|by apply access_ok|by right].
    + eapply pays_core0; [done|]. cbn. rewrite Hw. by apply spin_ok.
  - by eapply pays_core0.
  - eapply pays_core0; [done|]. by apply access_ok.
  - inversion Hle as [Hw|Hw Hu]; subst.
    + eapply pays_core1; [done|left; by destruct u|by destruct u| |by left].
      cbn. rewrite Hwk. by apply spin_ok.
    + by eapply pays_core1; [done|left|done|done|left].
  - eapply pays_core1; [done|by left|done|by apply access_ok|by right].
  - eapply pays_core0; [done|]. cbn. rewrite Hw. by apply spin_ok.
  - eapply pays_core0; [done|]. by apply access_ok.
  - by eapply pays_core0.
Qed.

Lemma can_finish x : inv x -> exists y, steps crit take1 task x y /\ code0 y = [].
Proof.
  remember (cost x) as n eqn:En. revert x En. induction (lt_wf n) as [n _ IH]. intros x En Hi.
  destruct (decide (code0 x = [])) as [E|E]; [exists x; split; [apply rtc_refl|done]|].
  destruct (progress x Hi E) as (y & Hs & Hlt). subst n.
  destruct (IH (cost y) Hlt y eq_refl (inv_step x y Hi Hs)) as (z & Hz & Ez).
  exists z. split; [by eapply rtc_l|done].
Qed.

(** Core 1 is in the loop when core 0 edits. *)
Lemma critical_excludes x k c :
  inv x -> code0 x = Critical k :: c -> exists c', code1 x = WhileNotWake k :: c' /\ wake (sh x) = 0.
Proof.
  intros [_ H] E. rewrite E in H. inversion H as [j Hm Ha Ec| | | | | |j u Hk Hm Hc (_ & Hw & _)| | | | | | ]; subst.
  - destruct (ops !! j) as [u|] eqn:Ej; [by rewrite (patches_at j u Ej) in Ec|by rewrite patches_end in Ec].
  - eauto.
Qed.

(** Outside the RPC the memory is the result of whole events. *)
Lemma settled x : inv x -> code0 x = [] \/ code1 x = [] -> mem_ok (sh x).
Proof.
  intros [_ H] E. inversion H as [ | | | | | | |k u Hk Hm Hc| k u Hk Hm Hle| | | | ]; try done;
    destruct E as [E|E]; try congruence.
  rewrite E in Hle. inversion Hle.
Qed.
End machine.

(** ** The handshake *)

(** C7: For every list of edits and every interleaving of the two cores: no
    pointer to a dead [struct busy_wait] is used; while core 0 edits, core 1
    stands in its wait loop; whenever core 1 is in its tasks, or core 0 has
    finished, memory is the result of the logged edits and tasks one after the
    other, an edit that changes tables and its update of core 1 as one event;
    and every edit is made once, in order. *)
Theorem handshake_atomic {M : Type} (crit : nat -> M -> M) (take1 : M -> M) (task : nat -> M -> M) (m0 : M)
    (ops : list bool) (x : machine M) :
  steps crit take1 task (start m0 ops) x ->
  fault (sh x) = false /\
  (forall k c, code0 x = Critical k :: c -> exists c', code1 x = WhileNotWake k :: c' /\ wake (sh x) = 0) /\
  (code0 x = [] \/ code1 x = [] -> mem (sh x) = run_events crit take1 task ops m0 (log (sh x))) /\
  omap op_of (log (sh x)) ++ omap edit_of (code0 x) = seq 0 (length ops).
Proof.
  intros Hs. pose proof (reachable_inv crit take1 task m0 ops x Hs) as Hi.
  split; [apply Hi|]. split; [intros k c; by apply (critical_excludes crit take1 task m0 ops)|].
  split; [by apply settled|]. by apply (reachable_edits crit take1 task m0).
Qed.

(** C29: No interleaving of the two cores deadlocks: from every reachable state
    core 0 can still finish all its edits. *)
Theorem handshake_live {M : Type} (crit : nat -> M -> M) (take1 : M -> M) (task : nat -> M -> M) (m0 : M)
    (ops : list bool) (x : machine M) :
  steps crit take1 task (start m0 ops) x ->
  exists y, steps crit take1 task x y /\ code0 y = [] /\
    omap op_of (log (sh y)) = seq 0 (length ops) /\ mem (sh y) = run_events crit take1 task ops m0 (log (sh y)).
Proof.
  intros Hs. pose proof (reachable_inv crit take1 task m0 ops x Hs) as Hi.
  destruct (can_finish crit take1 task m0 ops x Hi) as (y & Hy & Ey). exists y. split; [done|]. split; [done|].
  assert (Hsy : steps crit take1 task (start m0 ops) y) by (by etrans).
  split; [|apply (settled crit take1 task m0 ops); [by apply reachable_inv|by left]].
  pose proof (reachable_edits crit take1 task m0 ops y Hsy) as He. unfold edits in He. rewrite Ey, app_nil_r in He. done.
Qed.

(** A task of core 1, then core 0 takes the semaphore. *)
Lemma two_steps (m : Z) ops :
  steps (fun _ x => x + 1) (fun x => 2 * x) (fun n x => x + Z.of_nat n) (start m (true :: ops))
    (mk_machine (mk_shared (Some 0%nat) 0 0 false None None false (m + 7) [ETask 7] false)
       (drop 2 (patches_from 0 (true :: ops))) []).
Proof.
  eapply rtc_l; [apply (step_task _ _ _ _ _ 7)|]. eapply rtc_l; [by apply step_core0|].
  eapply rtc_l; [by apply step_core0|]. apply rtc_refl.
Qed.

Lemma handshake_atomic_witness :
  omap edit_of (drop 2 (patches_from 0 [true; false])) = [0; 1]%nat.
Proof.
  exact (proj2 (proj2 (proj2 (handshake_atomic _ _ _ 5 [true; false] _ (two_steps 5 [false]))))).
Defined.

Lemma handshake_live_witness :
  exists y, steps (fun _ x => x + 1) (fun x => 2 * x) (fun n x => x + Z.of_nat n)
    (mk_machine (mk_shared (Some 0%nat) 0 0 false None None false (5 + 7) [ETask 7] false)
       (drop 2 (patches_from 0 [true; false])) []) y /\ code0 y = [].
Proof.
  destruct (handshake_live _ _ _ 5 [true; false] _ (two_steps 5 [false])) as (y & Hy & Ey & _). by exists y.
Defined.

(** ** Registering an interrupt *)

Lemma scan_down_spec test l i :
  (exists j : nat, scan_down test l i = Z.of_nat j /\ (j <= i)%nat /\ test (l !!! j) = true /\
     forall k : nat, (j < k <= i)%nat -> test (l !!! k) = false) \/
  (scan_down test l i = -1 /\ forall k : nat, (k <= i)%nat -> test (l !!! k) = false).
Proof.
  induction i as [|i IH]; cbn [scan_down]; destruct (test (l !!! _)) eqn:Et.
  - left. exists 0%nat. repeat split; [lia|done|lia].
  - right. split; [done|]. intros k Hk. by replace k with 0%nat by lia.
  - left. exists (S i). repeat split; [lia|done|lia].
  - destruct IH as [(j & E & Hj & Ht & Hf)|(E & Hf)].
    + left. exists j. repeat split; [done|lia|done|]. intros k Hk.
      destruct (decide (k = S i)) as [->|]; [done|]. apply Hf. lia.
    + right. split; [done|]. intros k Hk. destruct (decide (k = S i)) as [->|]; [done|]. apply Hf. lia.
Qed.

(** Registering a handler for a software interrupt: a handler that is
    installed keeps its number and the table; otherwise the highest free slot
    below 10 gets the handler and no other slot changes, and the number is
    returned except for slot 0, which is used but reported as an error; with no
    free slot the error is returned after a store below the table. *)
Theorem sgi_registration (sgi_handlers : list Z) (handler_func : Z) :
  let '(r, table) := register_sgi_handler sgi_handlers handler_func in
  (exists i : nat, (i < 10)%nat /\ sgi_handlers !!! i = handler_func /\ r = Z.of_nat i /\ table = Some sgi_handlers) \/
  ((forall i : nat, (i < 10)%nat -> sgi_handlers !!! i <> handler_func) /\
   ((exists i : nat, (i < 10)%nat /\ sgi_handlers !!! i = 0 /\
       (forall k : nat, (i < k < 10)%nat -> sgi_handlers !!! k <> 0) /\
       table = Some (<[i := handler_func]> sgi_handlers) /\ r = (if decide (i = 0%nat) then -1 else Z.of_nat i)) \/
    ((forall k : nat, (k < 10)%nat -> sgi_handlers !!! k <> 0) /\ table = None /\ r = -1))).
Proof.
  unfold register_sgi_handler.
  destruct (scan_down_spec (fun h => h =? handler_func) sgi_handlers 9) as [(i & -> & Hi & Ht & _)|(-> & Hf)].
  - rewrite (proj2 (Z.leb_le 0 (Z.of_nat i))) by lia. left. exists i. to_prop. repeat split; [lia|done].
  - change (0 <=? -1) with false. cbv iota. right. split.
    { intros i Hi. specialize (Hf i ltac:(lia)). by to_prop. }
    destruct (scan_down_spec (fun h => h =? 0) sgi_handlers 9) as [(i & -> & Hi & Ht & Hn)|(-> & Hn)].
    + left. exists i. rewrite (proj2 (Z.ltb_ge (Z.of_nat i) 0)), Nat2Z.id by lia. to_prop. split; [lia|]. split; [done|].
      split; [intros k Hk; specialize (Hn k ltac:(lia)); by to_prop|]. split; [done|].
      destruct (decide _); case_goal; lia.
    + right. split; [intros k Hk; specialize (Hn k ltac:(lia)); by to_prop|done].
Qed.

(** ** Waiting for core 1 to suspend *)

(** Core 1 never suspends: the call reports it unless the timeout is a
    multiple of 10. *)
Lemma wait_loop_never n fuel timeout : (0 <= timeout < 2147483648) -> (Z.to_nat timeout < fuel)%nat ->
  wait_loop (fun _ => false) n fuel timeout = - ((- timeout) mod 10).
Proof.
  revert n timeout. induction fuel as [|fuel IH]; intros n timeout Ht Hf; [lia|]. cbn [wait_loop negb andb].
  destruct (decide (timeout = 0)) as [->|]; [done|]. rewrite (proj2 (Z.ltb_lt 0 timeout)) by lia. rewrite s32_small by lia.
  destruct (decide (10 <= timeout)) as [H10|H10].
  - rewrite IH by lia. f_equal. replace (- (timeout - 10)) with (- timeout + 1 * 10) by lia. by rewrite Z.mod_add.
  - destruct fuel as [|fuel]; [lia|]. cbn [wait_loop negb andb]. rewrite (proj2 (Z.ltb_ge 0 (timeout - 10))) by lia.
    rewrite <- (Z.mod_unique (- timeout) 10 (-1) (10 - timeout)); lia.
Qed.

(** Without core 1 the call gives up, but it reports the failure only when the
    timeout is not a multiple of its 10 ms naps. *)
Lemma suspend_timeout timeout : 0 <= timeout < 2 ^ 31 ->
  wait_for_cpu1_to_suspend (fun _ => false) timeout = if timeout mod 10 =? 0 then 0 else -1.
Proof.
  intros Ht. unfold wait_for_cpu1_to_suspend. rewrite wait_loop_never by lia.
  destruct (decide (timeout mod 10 = 0)) as [E|E].
  - rewrite Z.mod_opp_l_z, E by lia. done.
  - rewrite Z.mod_opp_l_nz by lia. pose proof (Z.mod_pos_bound timeout 10).
    rewrite (proj2 (Z.eqb_neq _ _) E). case_goal; lia.
Qed.
