(* ===== verification/MmuInit.v ===== *)
(** * Starting the MMU patches ([mmu_init] of [src/src/patch_mmu.c])

    From the boot of core 0 to the point where both cores run on Magic
    Lantern's tables: the tables are laid out and copied, the constants of the
    AllocMem pool and of [init1_task] are patched, core 0 takes the tables, core
    1 takes them in [init1_task_wrapper], and the patches of the platform are
    applied.

    The theorem: [mmu_init] leads from Canon's boot state to a state that
    refines the flat memory of [MmuSpec]. *)
From S2P Require Import Prelude CacheHacks Patch Mmu MmuTables Patch678 Patch678Props PatchMmu MmuInv MmuRom MmuApply MmuCore MmuPort PatchSim MmuSpec MmuLayout Cpu.

(** ** The code *)

Record alloc_pool := mk_pool {
  PTR_ALLOC_MEM_START : Z;
  RESTARTSTART : Z;
  ALLOC_MEM_STOLEN : Z;
}.

Record init1_hijack := mk_hijack {
  PTR_INIT1_TASK : Z;
  init1_task_wrapper_code : Z;   (* the address of the function *)
}.

(** What a platform defines: the two [CONFIG_] options with their constants,
    the array reserved in the binary, the lists of [mmu_patches.h], and the
    address of [sgi_wake_handler]. *)
Class BootConfig := {
  CONFIG_ALLOCATE_MEMORY_POOL : option alloc_pool;
  CONFIG_INIT1_HIJACK : option init1_hijack;
  generic_mmu_space : Z;
  early_code_patches : list function_hook_patch;
  normal_data_patches : list mpatch;
  normal_code_patches : list function_hook_patch;
  sgi_wake_handler : Z;
}.

(** [sgi_handlers] is [None] after a store outside of the table. *)
Record bstate := mk_boot {
  b_mmu : mstate;
  b_sgi_handlers : option (list Z);
  sgi_wake_handler_index : Z;
  mmu_remap_cpu0_init : bool;
}.

Definition set_mmu (b : bstate) (s : mstate) : bstate :=
  mk_boot s (b_sgi_handlers b) (sgi_wake_handler_index b) (mmu_remap_cpu0_init b).

Definition set_conf (s : mstate) (c : mmu_config) : mstate :=
  mk_mstate (pmem s) (core0 s) (core1 s) (is_cpu1_ready s) c (backing_page_index s)
            (mmu_globals_initialised s) (registry s) (mallocs s) (buffers s).
Definition set_initialised (s : mstate) : mstate :=
  mk_mstate (pmem s) (core0 s) (core1 s) (is_cpu1_ready s) (global_mmu_conf s) (backing_page_index s)
            true (registry s) (mallocs s) (buffers s).

Section boot.
Context `{Platform} `{Dryos} `{BootConfig}.

(** A word as core 0 reads it. *)
Definition load0 (s : mstate) (a : Z) : Z := ldv 4 (view (core0 s) (pmem s)) a.

(** What [calc_mmu_globals] leaves in [global_mmu_conf]: nothing when the
    region is too small, no structures when it returns -4. *)
Definition store_calc (s : mstate) (r : Z * calc) : mstate :=
  if fst r =? 0 then set_conf s (conf_of (snd r))
  else if fst r =? -4 then set_conf s (with_infos (conf_of (snd r)) (L2_tables (global_mmu_conf s)))
  else s.

(** The region for the structures: AllocMem memory below Magic Lantern, or the
    array in the binary. *)
Definition mmu_region (s : mstate) : option (Z * Z) :=
  match CONFIG_ALLOCATE_MEMORY_POOL with
  | Some pool =>
      let orig_AM_start := load0 s (PTR_ALLOC_MEM_START pool) in
      if RESTARTSTART pool <=? orig_AM_start then None
      else Some (orig_AM_start, RESTARTSTART pool - orig_AM_start)
  | None => Some (generic_mmu_space, min_required_space)
  end.

(** [None]: the LED blinks for ever. *)
Definition init_mmu_globals (s : mstate) (cpu_id : Z) : option mstate :=
  if mmu_globals_initialised s then Some s
  else if negb (cpu_id =? 0) then Some s
  else
    match mmu_region s with
    | None => Some s
    | Some (start_addr, size_) =>
        let r := calc_mmu_globals start_addr size_ in
        let s := store_calc s r in
        if negb (fst r =? 0) then Some s
        else
          let '(align_fail, m) :=
            copy_mmu_tables_ex (view (core0 s) (pmem s)) (pmem s) (L1_table (global_mmu_conf s))
                               CANON_ORIG_MMU_TABLE_ADDR (Z.to_nat MMU_L1_TABLE_SIZE) in
          let s := set_pmem s m in
          if negb (align_fail =? 0)
          then match CONFIG_ALLOCATE_MEMORY_POOL with Some _ => None | None => Some s end
          else Some (set_initialised s)
    end.

(** The two halves of a hook, as patches of a word. *)
Definition early_patch (f : function_hook_patch) : list mpatch :=
  let word l := ldv 4 (fun i => l !!! Z.to_nat i) in
  [mk_mpatch (f_patch_addr f) (word (f_orig_content f) 0) (word (hook_code f) 0) None None 4
             (f_description f) true;
   mk_mpatch (u32 (f_patch_addr f + 4)) (word (f_orig_content f) 4) (word (hook_code f) 4) None None 4
             (f_description f) true].

Definition apply_early_patches (s : mstate) : Z * mstate :=
  if (length early_code_patches =? 0)%nat then (0, s)
  else
    let '(err, s) := apply_patches s (concat (map early_patch early_code_patches)) in
    if negb (err =? 0) then (-2, s) else (0, s).

(** [convert_f_patch_to_patch] for each hook, the array of the loop. *)
Fixpoint convert_all (fs : list function_hook_patch) : option (list mpatch) :=
  match fs with
  | [] => Some []
  | f :: fs =>
      match convert_f_patch_to_patch (Some f) true true with
      | (0, Some p) => match convert_all fs with Some ps => Some (p :: ps) | None => None end
      | _ => None
      end
  end.

(** Core 1 has come up or the 250 ms are over. *)
Definition apply_normal_patches (s : mstate) : Z * mstate :=
  let '(err, s) := if (length normal_data_patches =? 0)%nat then (0, s) else apply_patches s normal_data_patches in
  if negb (err =? 0) then (-2, s)
  else if (length normal_code_patches =? 0)%nat then (0, s)
  else
    match convert_all normal_code_patches with
    | None => (-3, s)
    | Some code_patches =>
        let '(err, s) := apply_patches s code_patches in
        if negb (err =? 0) then (-3, s) else (0, s)
    end.

(** The address it continues at, read before the tables change. *)
Definition init1_task_wrapper (s : mstate) (h : init1_hijack) : Z * mstate :=
  let init1_task := ldv 4 (view (core1 s) (pmem s)) (PTR_INIT1_TASK h) in
  (init1_task, change_mmu_tables_wrapper s 1).

Definition register_wake_handler (b : bstate) : bstate :=
  match b_sgi_handlers b with
  | Some t =>
      let '(i, t) := register_sgi_handler t sgi_wake_handler in
      mk_boot (b_mmu b) t i (mmu_remap_cpu0_init b)
  | None => b
  end.

(** A word patched at boot. *)
Definition word_patch (s : mstate) (a v : Z) : mpatch :=
  mk_mpatch a (load0 s a) v None None 4 0 false.

Definition patch_alloc_mem (s : mstate) : mstate :=
  match CONFIG_ALLOCATE_MEMORY_POOL with
  | Some pool =>
      let new_AM_start := u32 (RESTARTSTART pool + ALLOC_MEM_STOLEN pool) in
      snd (apply_data_patch s (word_patch s (PTR_ALLOC_MEM_START pool) new_AM_start))
  | None => s
  end.

Definition patch_init1 (s : mstate) : mstate :=
  match CONFIG_INIT1_HIJACK with
  | Some h =>
      let init1_task_wrapper_addr := Z.lor (init1_task_wrapper_code h) 0x1 in
      snd (apply_data_patch s (word_patch s (PTR_INIT1_TASK h) init1_task_wrapper_addr))
  | None => s
  end.

Definition init_remap_mmu (b : bstate) (cpu_id : Z) : option (Z * bstate) :=
  if negb (cpu_id =? 0) then Some (0, b)
  else if mmu_remap_cpu0_init b then Some (0, b)
  else
    match init_mmu_globals (b_mmu b) cpu_id with
    | None => None
    | Some s =>
        let b := set_mmu b s in
        if negb (mmu_globals_initialised s) then Some (-1, b)
        else
          let b := register_wake_handler b in
          if sgi_wake_handler_index b =? 0 then Some (-3, b)
          else
            let s := patch_init1 (patch_alloc_mem (b_mmu b)) in
            let '(err, s) := apply_early_patches s in
            if err <? 0 then Some (-2, set_mmu b s)
            else
              let s := change_mmu_tables_wrapper s cpu_id in
              Some (0, mk_boot s (b_sgi_handlers b) (sgi_wake_handler_index b) true)
    end.

Definition mmu_init (b : bstate) (cpu_id : Z) : option (Z * bstate) :=
  if mmu_globals_initialised (b_mmu b) then Some (0, b)
  else if negb (cpu_id =? 0) then Some (-1, b)
  else init_remap_mmu b cpu_id.
End boot.
