(* ===== verification/MmuBoot.v ===== *)
(** * Booting establishes the refinement

    From Canon's state at boot, [mmu_init] returns 0 and leaves a state that
    refines the flat memory with the boot patches applied. *)
From S2P Require Import Prelude CacheHacks Patch Mmu MmuTables Patch678 Patch678Props PatchMmu MmuInv MmuRom MmuApply MmuCore MmuPort PatchSim MmuSpec MmuLayout Cpu CpuProps MmuInit.

(** ** Copying Canon's tables *)

Lemma copy_ok rd m dst src :
  dst mod 2 ^ 14 = 0 -> exists m', copy_mmu_tables_ex rd m dst src (Z.to_nat MMU_L1_TABLE_SIZE) = (0, m') /\
    frame dst (dst + MMU_L1_TABLE_SIZE) m m' /\
    forall k, 0 <= k < 0x4800 -> rd8 m' (dst + k) = u8 (rd (src + k)).
Proof.
  intros Hal. unfold copy_mmu_tables_ex. rewrite (land_lo 14), Hal by lia. cbn [Z.eqb negb].
  set (m1 := wrs m dst _).
  assert (H1 : frame dst (dst + MMU_L1_TABLE_SIZE) m m1).
  { eapply frame_widen; [| |apply wrs_frame]; [lia|]. rewrite length_rds. unfold MMU_L1_TABLE_SIZE. lia. }
  eexists. split; [reflexivity|]. split.
  - eapply frame_compose; [exact H1|]. eapply frame_compose; [|eapply frame_widen; [| |apply st_frame]].
    + eapply frame_widen; [| |apply st_frame]; unfold MMU_L1_TABLE_SIZE; lia.
    + lia.
    + unfold MMU_L1_TABLE_SIZE. lia.
  - intros k Hk. rewrite !rd8_st_out by lia. subst m1. rewrite rd8_wrs, length_rds.
    rewrite decide_True by (unfold MMU_L1_TABLE_SIZE; lia). rewrite rds_lookup by (unfold MMU_L1_TABLE_SIZE; lia).
    do 2 f_equal. lia.
Qed.

(** ** Structures that are not in use yet *)

Lemma init_infos_lookup t n j i : init_infos t n !! j = Some i -> exists a, i = init_info a.
Proof. unfold init_infos. rewrite list_lookup_fmap. intros (k & _ & ->)%fmap_Some. by eexists. Qed.

Lemma init_unused t n j i : init_infos t n !! j = Some i -> ~ used i.
Proof. intros (a & ->)%init_infos_lookup Hu. by apply Hu. Qed.

Lemma init_info_page p : (p < 16)%nat -> replicate 16 0 !!! p = 0.
Proof. intros Hp. apply list_lookup_total_correct. by apply lookup_replicate_2. Qed.

Lemma init_book g t n : 0 <= g_max g -> L2_table <$> init_infos t n = g_L2 g -> book g (init_infos t n) 0.
Proof.
  intros Hmx E. split; try done.
  - intros j i (a & ->)%init_infos_lookup. done.
  - intros j i Hl Hu. by destruct (init_unused t n j i Hl).
  - intros j i (a & ->)%init_infos_lookup _. split; [done|]. intros p Hp. by apply init_info_page.
  - intros j j' i i' Hl _ Hu. by destruct (init_unused t n j i Hl).
  - intros j i p (a & ->)%init_infos_lookup Hp Hne. by destruct Hne; apply init_info_page.
  - intros j j' i i' p p' (a & ->)%init_infos_lookup _ Hp _ Hne. by destruct Hne; apply init_info_page.
Qed.

Lemma init_page_at t n a : page_at (init_infos t n) a = 0.
Proof. apply page_at_none. intros j i Hl Hu. by destruct (init_unused t n j i Hl). Qed.

Lemma init_shows m t n a : shows m (init_infos t n) a = rd8 m a.
Proof. unfold shows, xlat. by rewrite init_page_at. Qed.

Section boot.
Context `{Platform} `{HD : Dryos} `{HDok : !DryosOk} `{HB : BootConfig}.
Variable (rom : Z -> Z).
Hypothesis Hco : canon_ok rom.

(** The copy maps the ROM as Canon's tables do. *)
Lemma copied_tabs m l1 t n :
  (forall k, 0 <= k < 0x4800 -> rd8 m (l1 + k) = rom (CANON_ORIG_MMU_TABLE_ADDR + k)) ->
  tabs l1 m (init_infos t n).
Proof.
  intros Hm.
  assert (He : forall s, rom_section s -> ld32 m (l1 + s * 4) = canon_entry rom s).
  { intros s Hs. unfold canon_entry. rewrite <- ldv_ld. unfold rom_section in Hs.
    cbn [ldv]. rewrite <- !Z.add_assoc, !Hm by lia. done. }
  split.
  - intros j i Hl Hu. by destruct (init_unused t n j i Hl).
  - intros j i p k Hl Hu. by destruct (init_unused t n j i Hl).
  - intros s Hs _. rewrite He by done. by apply (co_flat _ Hco).
  - intros s k Hs Hk Hsu. rewrite He in Hsu by done. rewrite He; [by apply (co_group _ Hco)|].
    unfold rom_section in *. Z.div_mod_to_equations; lia.
Qed.

(** ** The state before and during [mmu_init] *)

(** Both cores on Canon's tables, nothing patched. *)
Record cold (s : mstate) : Prop := {
  cd_init : mmu_globals_initialised s = false;
  cd_rom : forall b, ROM_START <= b -> rd8 (pmem s) b = rom b;
  cd_core0 : core_on CANON_ORIG_MMU_TABLE_ADDR (pmem s) (core0 s);
  cd_core1 : core_on CANON_ORIG_MMU_TABLE_ADDR (pmem s) (core1 s);
  cd_backing : backing_page_index s = 0;
  cd_registry : registry s = [];
}.

(** The flat memory at boot. *)
Definition cold_flat (g : geometry) (s : mstate) : flat :=
  mk_flat (rd8 (pmem s)) [] ∅ (g_max g) (mallocs s) (buffers s) Original (is_cpu1_ready s).

(** The tables exist but no core is on them. *)
Record booting (g : geometry) (s : mstate) (f : flat) : Prop := {
  bt_mem : mem_inv g rom s;
  bt_init : mmu_globals_initialised s = true;
  bt_core0 : core_on CANON_ORIG_MMU_TABLE_ADDR (pmem s) (core0 s);
  bt_core1 : core_on CANON_ORIG_MMU_TABLE_ADDR (pmem s) (core1 s);
  bt_shows : forall a, ROM_START <= a < 2 ^ 32 -> shows (pmem s) (infos_of s) a = f_mem f a;
  bt_ram : forall a, 0 <= a < ROM_START -> ~ in_area g a -> rd8 (pmem s) a = f_mem f a;
  bt_canon : forall b, CANON_ORIG_MMU_TABLE_ADDR <= b < CANON_ORIG_MMU_TABLE_ADDR + MMU_L1_TABLE_SIZE ->
    shows (pmem s) (infos_of s) b = rom b;
  bt_registry : registry s = [] /\ f_registry f = [];
  bt_pages : pages_agree (infos_of s) (f_pages f);
  bt_count : backing_page_index s = Z.of_nat (base.size (f_pages f));
  bt_max : f_max f = g_max g;
  bt_heap : mallocs s = f_mallocs f /\ buffers s = f_buffers f;
  bt_view : f_core1 f = Original /\ is_cpu1_ready s = f_ready f;
}.

Lemma cold_view s a : cold s -> ROM_START <= a < 2 ^ 32 -> view (core0 s) (pmem s) a = rom a.
Proof.
  intros Hc Ha. rewrite (core_view _ _ _ _ a (cd_core0 _ Hc) Ha); [apply (cd_rom _ Hc); lia|].
  apply (canon_walk rom Hco); [apply (cd_rom _ Hc)|done].
Qed.

Lemma init_globals_ok s start_addr size_ c end_addr :
  cold s -> mmu_region s = Some (start_addr, size_) -> calc_mmu_globals start_addr size_ = (0, c) ->
  fits start_addr end_addr c ->
  exists s', init_mmu_globals s 0 = Some s' /\ mmu_globals_initialised s' = true /\
    booting (geometry_of (conf_of c)) s' (cold_flat (geometry_of (conf_of c)) s).
Proof.
  intros Hc Hre Hca Hfi. pose proof (fi_geo _ _ _ Hfi) as Hg. destruct (fi_max _ _ _ Hfi) as [Hpos Hmx].
  unfold init_mmu_globals. rewrite (cd_init _ Hc), Hre, Hca. cbn [Z.eqb negb fst snd store_calc].
  set (s1 := set_conf s (conf_of c)). destruct (go_L1 _ Hg) as (Hal & Hlo & Hhi). cbn [geometry_of g_L1] in *.
  destruct (copy_ok (view (core0 s) (pmem s)) (pmem s) (L1_table (conf_of c)) CANON_ORIG_MMU_TABLE_ADDR Hal)
    as (m' & E & Hfr & Hcp).
  change (L1_table (global_mmu_conf s1)) with (L1_table (conf_of c)). unfold store_calc. cbn [Z.eqb fst snd].
  fold s1. change (pmem s1) with (pmem s). change (core0 s1) with (core0 s).
  change (L1_table (global_mmu_conf s1)) with (L1_table (conf_of c)). rewrite E. cbn [Z.eqb negb].
  eexists. split; [reflexivity|]. split; [done|].
  destruct (co_at _ Hco) as (_ & Hclo & Hchi). unfold MMU_L1_TABLE_SIZE in Hchi.
  assert (Hrom : forall b, ROM_START <= b -> rd8 m' b = rom b).
  { intros b Hb. rewrite (Hfr b) by lia. by apply (cd_rom _ Hc). }
  assert (Hwk : forall c0, core_on CANON_ORIG_MMU_TABLE_ADDR (pmem s) c0 -> core_on CANON_ORIG_MMU_TABLE_ADDR m' c0).
  { intros c0. apply core_on_ext. intros a Ha.
    rewrite !(canon_walk rom Hco); try done. apply (cd_rom _ Hc). }
  split; cbn; try done.
  - split; cbn; try done.
    + rewrite (cd_backing _ Hc). apply init_book; [cbn; lia|done].
    + intros j i Hl Hu. by destruct (init_unused _ _ j i Hl).
    + apply copied_tabs. intros k Hk. transitivity (u8 (view (core0 s) (pmem s) (CANON_ORIG_MMU_TABLE_ADDR + k))); [exact (Hcp k Hk)|].
      rewrite (cold_view s) by (done || lia). apply u8_small, (co_byte _ Hco).
  - apply Hwk, (cd_core0 _ Hc).
  - apply Hwk, (cd_core1 _ Hc).
  - intros a Ha. unfold infos_of. cbn. rewrite init_shows, (Hrom a) by lia. symmetry. apply (cd_rom _ Hc). lia.
  - intros a Ha Hna. apply Hfr. destruct (decide (L1_table (conf_of c) <= a < L1_table (conf_of c) + MMU_L1_TABLE_SIZE));
      [|cbn in *; lia]. destruct Hna. by left.
  - intros b Hb. unfold infos_of. cbn. rewrite init_shows. apply Hrom. lia.
  - split; [|done]. apply (cd_registry _ Hc).
  - intros a Ha. unfold infos_of. cbn. rewrite init_page_at. set_solver.
  - rewrite (cd_backing _ Hc). done.
Qed.

(** ** The boot patches *)

Lemma booting_flags g s f : booting g s f -> 0 <= patch_flags (view (core0 s) (pmem s)) < 2 ^ 16.
Proof.
  intros Hb. apply (patch_flags_ok rom Hco). intros b Hr. destruct (co_at _ Hco) as (_ & Hlo & Hhi).
  apply (view_canon g rom Hco s); [apply (bt_mem _ _ _ Hb)|apply (bt_core0 _ _ _ Hb)|lia].
Qed.

(** [apply_data_patch] while core 0 is still on Canon's tables. *)
Lemma booting_patch g s f p :
  geo_ok g -> booting g s f -> mmu_ok g p -> 4 <= p_size p -> ROM_START < p_addr p ->
  booting g (snd (apply_data_patch s p)) (snd (flat_patch f p)).
Proof.
  intros Hg Hb Hok H4 Hr. pose proof Hb as [Hi Hin Hc0 Hc1 Hsh Hram Hca Hreg Hpg Hcnt Hmax Hheap Hview].
  pose proof (rom_patch_of g p Hok H4 Hr) as Hrp. pose proof (rom_patch_addr p Hrp) as Ha.
  assert (Hcopy : page_at (infos_of s) (p_addr p) = 0 ->
            forall b, same_page (p_addr p) b -> view (core0 s) (pmem s) b = rd8 (pmem s) b).
  { intros _ b Hp. assert (Hbr : ROM_START <= b < 2 ^ 32) by (unfold same_page, ROM_START in *; Z.div_mod_to_equations; lia).
    rewrite (view_canon g rom Hco s (core0 s) b Hi Hc0 Hbr). symmetry. apply (mi_rom _ _ _ Hi). lia. }
  destruct (apply_data_ok g rom Hg s p Hi Hrp (booting_flags g s f Hb) Hcopy)
    as [(-> & Hwhy)|(Hsp & m' & infos' & bk & -> & Hi' & Hout & Hsh' & Hpg' & _ & Hbk)].
  - rewrite (flat_patch_full f p (infos_of s)) by (done || rewrite Hmax, <- Hcnt; intuition lia). done.
  - assert (Hwk : forall c, core_on CANON_ORIG_MMU_TABLE_ADDR (pmem s) c -> core_on CANON_ORIG_MMU_TABLE_ADDR m' c)
      by (intros c; by apply (canon_kept g rom Hco s _ c Hi Hi')).
    pose proof (b_backing _ _ _ (mi_book _ _ _ Hi')) as Hle. cbn [retabled backing_page_index] in Hle.
    rewrite (flat_patch_room f p (infos_of s)); [|done|done|done|].
    2:{ intros E. rewrite E in Hbk. cbn [Z.eqb] in Hbk. lia. }
    cbn [snd]. split; try done; cbn [f_mem f_registry f_pages f_max f_mallocs f_buffers set_f_pages set_f_mem].
    + by apply Hwk.
    + by apply Hwk.
    + intros a Hra. etransitivity; [by apply Hsh'|]. apply put_ext. by apply Hsh.
    + intros a Hra Hna. cbn [retabled pmem]. rewrite Hout by done. rewrite put_out by lia. by apply Hram.
    + intros b Hbr. destruct (co_at _ Hco) as (_ & Hlo & Hhi).
      etransitivity; [apply Hsh'; lia|]. destruct Hok as [(_ & He & _)|(_ & _ & _ & Hcl)]; [lia|].
      rewrite put_out; [by apply Hca|]. rewrite length_new_bytes by done. unfold clear in Hcl. lia.
    + by apply (pages_grow (infos_of s)).
    + rewrite (pages_count (infos_of s)), <- Hcnt by done. done.
Qed.

(** Core 0 takes the tables. *)
Lemma booting_take g s f : geo_ok g -> booting g s f -> refines g rom (change_mmu_tables_wrapper s 0) f.
Proof.
  intros Hg [Hi Hin Hc0 Hc1 Hsh Hram Hca [Hr Hr'] Hpg Hcnt Hmax [Hm Hbu] [Hv1 Hv2]].
  pose proof (taken_core g rom s (core0 s) 0 Hi) as Ht. unfold change_mmu_tables_wrapper. cbn [Z.eqb].
  assert (Hi' : mem_inv g rom (set_cores s (take_tables s (core0 s) 0) (core1 s))) by (by destruct Hi; split).
  split; cbn; try done; [|intros a [[Ha Hna]|Ha]|congruence|by rewrite Hv1].
  - split; try done; [by left|]. cbn. by rewrite Hr.
  - rewrite ram_view by lia. by apply Hram.
  - rewrite <- Hsh by done. by apply (view_shows g rom Hg (set_cores s (take_tables s (core0 s) 0) (core1 s))).
Qed.

(** The words patched at boot. *)
Definition boot_words : list (Z * Z) :=
  match CONFIG_ALLOCATE_MEMORY_POOL with
  | Some pool => [(PTR_ALLOC_MEM_START pool, u32 (RESTARTSTART pool + ALLOC_MEM_STOLEN pool))]
  | None => []
  end ++
  match CONFIG_INIT1_HIJACK with
  | Some h => [(PTR_INIT1_TASK h, Z.lor (init1_task_wrapper_code h) 0x1)]
  | None => []
  end.

Definition plain_word (w : Z * Z) : mpatch := mk_mpatch (fst w) 0 (snd w) None None 4 0 false.

Definition boot_flat (f : flat) : flat := foldl (fun f w => snd (flat_patch f (plain_word w))) f boot_words.

Lemma booting_words g s f :
  geo_ok g -> booting g s f -> Forall (fun w => ROM_START < fst w /\ mmu_ok g (plain_word w)) boot_words ->
  booting g (patch_init1 (patch_alloc_mem s)) (boot_flat f).
Proof.
  intros Hg Hb Hw. unfold boot_flat, boot_words, patch_init1, patch_alloc_mem in *.
  assert (Hstep : forall s f a v, booting g s f -> ROM_START < a -> mmu_ok g (plain_word (a, v)) ->
            booting g (snd (apply_data_patch s (word_patch s a v))) (snd (flat_patch f (plain_word (a, v))))).
  { intros s1 f1 a v Hb1 Ha Hok. exact (booting_patch g s1 f1 (word_patch s1 a v) Hg Hb1 Hok ltac:(cbn; lia) Ha). }
  apply Forall_app in Hw as [Hw1 Hw2]. rewrite foldl_app.
  assert (H1 : booting g (match CONFIG_ALLOCATE_MEMORY_POOL with
      | Some pool => snd (apply_data_patch s (word_patch s (PTR_ALLOC_MEM_START pool)
                                                          (u32 (RESTARTSTART pool + ALLOC_MEM_STOLEN pool))))
      | None => s end) (foldl (fun f w => snd (flat_patch f (plain_word w))) f
        match CONFIG_ALLOCATE_MEMORY_POOL with
        | Some pool => [(PTR_ALLOC_MEM_START pool, u32 (RESTARTSTART pool + ALLOC_MEM_STOLEN pool))]
        | None => [] end)).
  { destruct CONFIG_ALLOCATE_MEMORY_POOL as [pool|]; [|done]. apply Forall_singleton in Hw1 as [Ha Hok].
    by apply Hstep. }
  destruct CONFIG_INIT1_HIJACK as [h|]; [|done]. apply Forall_singleton in Hw2 as [Ha Hok]. by apply Hstep.
Qed.

(** ** [mmu_init] *)

Lemma mmu_init_ok b start_addr size_ c end_addr t :
  cold (b_mmu b) -> mmu_remap_cpu0_init b = false ->
  b_sgi_handlers b = Some t -> fst (register_sgi_handler t sgi_wake_handler) <> 0 ->
  early_code_patches = [] ->
  mmu_region (b_mmu b) = Some (start_addr, size_) -> calc_mmu_globals start_addr size_ = (0, c) ->
  fits start_addr end_addr c ->
  let g := geometry_of (conf_of c) in
  Forall (fun w => ROM_START < fst w /\ mmu_ok g (plain_word w)) boot_words ->
  exists b', mmu_init b 0 = Some (0, b') /\ refines g rom (b_mmu b') (boot_flat (cold_flat g (b_mmu b))) /\
    core_on CANON_ORIG_MMU_TABLE_ADDR (pmem (b_mmu b')) (core1 (b_mmu b')).
Proof.
  intros Hc Hrm Hs Hix He Hre Hca Hfi g Hw. pose proof (fi_geo _ _ _ Hfi : geo_ok g) as Hg.
  destruct (init_globals_ok (b_mmu b) start_addr size_ c end_addr Hc Hre Hca Hfi) as (s & Ei & Hin & Hb).
  pose proof (booting_words g s _ Hg Hb Hw) as Hb2.
  unfold mmu_init, init_remap_mmu. rewrite (cd_init _ Hc), Hrm, Ei. cbn [Z.eqb negb]. rewrite Hin. cbn [negb].
  unfold register_wake_handler. cbn [set_mmu b_sgi_handlers]. rewrite Hs.
  destruct (register_sgi_handler t sgi_wake_handler) as [i t'] eqn:Er. cbn [fst] in Hix.
  cbn [sgi_wake_handler_index b_mmu set_mmu]. rewrite (proj2 (Z.eqb_neq i 0) Hix).
  unfold apply_early_patches. rewrite He. cbn [length Nat.eqb]. change (0 <? 0) with false. cbv iota.
  eexists. split; [reflexivity|]. cbn [b_mmu]. split; [by apply booting_take|].
  apply (bt_core1 _ _ _ Hb2).
Qed.
End boot.
