(* ===== verification/MmuTheorems.v ===== *)
(** * What MMU patching guarantees

    The theorems about [patch_mmu.c], [mmu_utils.c] and the DIGIC 7/8/X part of
    [patch.c], from the boot of the camera on. *)
From S2P Require Import Prelude CacheHacks Patch Mmu MmuTables Patch678 Patch678Props PatchMmu MmuInv MmuRom MmuApply MmuCore MmuPort PatchSim MmuSpec MmuLayout Cpu MmuInit MmuBoot.

(** ** Patches that are apart *)

Lemma overlay_in A rd p b :
  ForallOrdPairs apart A -> Forall (fun q => 4 <= p_size q) A -> p ∈ A ->
  p_addr p <= b < p_addr p + p_size p -> overlay A rd b = put rd (p_addr p) (new_bytes p) b.
Proof.
  intros Hap. revert rd. induction Hap as [|q A Hq Hap IH]; intros rd Hs Hp Hb; [by apply not_elem_of_nil in Hp|].
  apply Forall_cons in Hs as [Hs1 Hs2]. rewrite overlay_cons. apply elem_of_cons in Hp as [->|Hp].
  - apply overlay_out; [done|]. eapply Forall_impl; [exact Hq|]. intros r Hr. unfold apart in Hr. lia.
  - rewrite IH by done. assert (Hps : 4 <= p_size p) by (rewrite Forall_forall in Hs2; auto).
    rewrite !(put_in _ (p_addr p)) by (rewrite length_new_bytes by done; lia). done.
Qed.

Lemma overlay_app A B rd : overlay (A ++ B) rd = overlay B (overlay A rd).
Proof. unfold overlay. by rewrite foldl_app. Qed.

Lemma ordpairs_app {A} (R : A -> A -> Prop) l1 l2 :
  ForallOrdPairs R (l1 ++ l2) ->
  ForallOrdPairs R l1 /\ ForallOrdPairs R l2 /\ forall x y, x ∈ l1 -> y ∈ l2 -> R x y.
Proof.
  induction l1 as [|a l1 IH]; cbn.
  - intros H. split; [constructor|]. split; [done|]. by intros x y Hx%not_elem_of_nil.
  - intros H. inversion H as [|? ? Ha Hl]; subst. destruct (IH Hl) as (H1 & H2 & H3).
    apply Forall_app in Ha as [Ha1 Ha2]. split; [by constructor|]. split; [done|].
    intros x y [->|Hx]%elem_of_cons Hy; [|by apply H3]. rewrite Forall_forall in Ha2. by apply Ha2.
Qed.

Lemma thumb_ldr_pc_ext rd rd' pc : (forall b, rd b = rd' b) -> thumb_ldr_pc rd pc = thumb_ldr_pc rd' pc.
Proof.
  intros E. unfold thumb_ldr_pc.
  rewrite !(ldv_ext 2 rd rd') by (intros; apply E). by rewrite !(ldv_ext 4 rd rd') by (intros; apply E).
Qed.

Section theorems.
Context `{Platform} `{HD : Dryos} `{HDok : !DryosOk}.

(** ** Booting *)

(** A camera that is ready for [mmu_init]: Canon's tables in ROM, both cores on
    them, a table of interrupt handlers, a region for the structures whose
    layout [c] fits, and constants to patch that lie in ROM. *)
Record boot_ok `{BootConfig} (rom : Z -> Z) (b : bstate) (c : calc) : Prop := {
  bk_canon : canon_ok rom;
  bk_cold : cold rom (b_mmu b);
  bk_first : mmu_remap_cpu0_init b = false;
  bk_sgi : exists t, b_sgi_handlers b = Some t /\ fst (register_sgi_handler t sgi_wake_handler) <> 0;
  bk_early : early_code_patches = [];
  bk_region : exists start_addr size_ end_addr, mmu_region (b_mmu b) = Some (start_addr, size_) /\
    calc_mmu_globals start_addr size_ = (0, c) /\ fits start_addr end_addr c;
  bk_words : Forall (fun w => ROM_START < fst w /\ mmu_ok (geometry_of (conf_of c)) (plain_word w)) boot_words;
}.

Lemma booted `{BootConfig} rom b c :
  boot_ok rom b c ->
  let g := geometry_of (conf_of c) in
  geo_ok g /\
  exists b', mmu_init b 0 = Some (0, b') /\ refines g rom (b_mmu b') (boot_flat (cold_flat g (b_mmu b))) /\
    core_on CANON_ORIG_MMU_TABLE_ADDR (pmem (b_mmu b')) (core1 (b_mmu b')).
Proof.
  intros [Hc Hcold Hf (t & Ht & Hi) He (st & sz & en & Hr & Hca & Hfi) Hw] g.
  split; [exact (fi_geo _ _ _ Hfi)|]. by apply (mmu_init_ok rom Hc b st sz c en t).
Qed.

(** What core 1 reads at an address: in RAM what is there, in ROM the original
    on Canon's tables, the flat memory when it is up to date, and one of the two
    when it has missed a change of the tables. *)
Definition core1_reads (rom : Z -> Z) (f : flat) (a v : Z) : Prop :=
  if a <? ROM_START then v = f_mem f a
  else match f_core1 f with
       | Original => v = rom a
       | Current => v = f_mem f a
       | Lagging => v = f_mem f a \/ v = rom a
       end.

Lemma refines_core1 g rom s f a :
  geo_ok g -> canon_ok rom -> refines g rom s f -> mmu_dom g a ->
  core1_reads rom f a (view (core1 s) (pmem s) a).
Proof.
  intros Hg Hco Hr Ha. pose proof (rf_inv _ _ _ _ Hr) as Hv. pose proof (mv_mem _ _ _ Hv) as Hi.
  pose proof (rf_core1 _ _ _ _ Hr) as Hc. unfold core1_reads. rewrite <- (rf_mem _ _ _ _ Hr a Ha).
  destruct Ha as [[Ha Hna]|Ha].
  - rewrite (proj2 (Z.ltb_lt _ _)) by lia. by rewrite !ram_view by lia.
  - rewrite (proj2 (Z.ltb_ge _ _)) by lia. rewrite (view_shows g rom Hg s (core0 s)) by (done || apply (mv_core0 _ _ _ Hv)).
    destruct (f_core1 f); cbn [core1_on] in Hc; [by apply (view_canon g rom Hco s)|by apply (view_shows g rom Hg s)|].
    rewrite <- (mi_rom _ _ _ Hi a) by lia. unfold shows.
    by apply (core_lags_view (g_L1 g)); [| |apply (inv_walk g rom Hg)].
Qed.


(** ** Batches *)

(** C14: On the MMU cameras, in every state that satisfies the invariant of
    the tables and the registry, a batch of patches that do not overlap, at
    addresses that have no registered patch, to RAM outside the tables and
    pages or (of at most 64 kB) to ROM outside Canon's tables, is applied
    completely or not at all. With result 0 core 0 reads every patch over what
    it read before, in RAM or in ROM, all old values were as the batch says,
    and the registry lists the batch; with an error core 0 reads what it read
    before and the registry is unchanged. *)
Theorem mmu_apply_patches_all_or_none (g : geometry) (rom : Z -> Z) (s : mstate) (ps : list mpatch) :
  geo_ok g -> canon_ok rom -> mmu_inv g rom s ->
  Forall (mmu_ok g) ps -> Forall patch_wf ps -> ForallOrdPairs apart ps ->
  Forall (fun p => p_addr p ∉ p_addr <$> registry s) ps ->
  let '(err, s') := apply_patches s ps in
  mmu_inv g rom s' /\
  (err = 0 -> registry s' = registry s ++ map reg_entry ps /\
     Forall (fun p => old_bytes p = rds (view (core0 s) (pmem s)) (p_addr p) (Z.to_nat (p_size p))) ps /\
     forall a, mmu_dom g a -> view (core0 s') (pmem s') a = overlay ps (view (core0 s) (pmem s)) a) /\
  (err <> 0 -> registry s' = registry s /\
     forall a, mmu_dom g a -> view (core0 s') (pmem s') a = view (core0 s) (pmem s) a).
Proof.
  intros Hg Hco Hv Hok Hwf Hap Hfr.
  destruct (@apply_patches_ok mstate mmu_port (mmu_port_ok g rom Hg Hco) s ps) as (e & s' & -> & Hv' & Hz & Hnz);
    [done|by split|].
  split; [done|]. split; [|done]. intros E. by destruct (Hz E) as (_ & ? & ? & ?).
Qed.

(** ** The patches of the platform *)

(** The patch [convert_f_patch_to_patch] makes of a hook. *)
Definition hook_patch (f : function_hook_patch) : mpatch :=
  mk_mpatch (f_patch_addr f) 0 0 (Some (f_orig_content f)) (Some (hook_code f)) 8 (f_description f) true.

Lemma convert_all_hooks fs : convert_all fs = Some (map hook_patch fs).
Proof. induction fs as [|f fs IH]; [done|]. cbn [convert_all convert_f_patch_to_patch negb orb]. by rewrite IH. Qed.

Lemma hook_new_bytes f : new_bytes (hook_patch f) = hook_code f.
Proof. done. Qed.

(** A hook among the patches of a batch. *)
Lemma hook_jumps A f v rd :
  ForallOrdPairs apart A -> Forall (fun q => 4 <= p_size q) A -> hook_patch f ∈ A ->
  f_patch_addr f mod 2 = 0 -> 0 <= f_target_function_addr f < 2 ^ 32 ->
  (forall b, f_patch_addr f <= b < f_patch_addr f + 8 -> v b = overlay A rd b) ->
  thumb_ldr_pc v (f_patch_addr f) = Some (f_target_function_addr f).
Proof.
  intros Hap Hs Hf Hev Ht Hv. rewrite <- (hook_code_jumps f v Hev Ht). apply thumb_ldr_pc_ext. intros b.
  destruct (decide (f_patch_addr f <= b < f_patch_addr f + 8)) as [Hb|Hb].
  - rewrite Hv by done. rewrite (overlay_in A rd (hook_patch f)) by done. rewrite hook_new_bytes. cbn [p_addr hook_patch].
    by rewrite !put_in by (cbn; lia).
  - rewrite put_out; [done|]. cbn. lia.
Qed.

(** Addresses stay fresh when patches apart from them are registered. *)
Lemma fresh_after s ps qs :
  Forall (fun p => p_addr p ∉ p_addr <$> registry s) qs -> Forall (fun p => 4 <= p_size p) ps ->
  Forall (fun p => 4 <= p_size p) qs -> (forall p q, p ∈ ps -> q ∈ qs -> apart p q) ->
  forall s', registry s' = registry s ++ map reg_entry ps -> Forall (fun p => p_addr p ∉ p_addr <$> registry s') qs.
Proof.
  intros Hfr Hps Hqs Hap s' ->. rewrite Forall_forall in Hfr, Hps, Hqs |- *. intros q Hq.
  rewrite fmap_app, elem_of_app. intros [Hr|Hr]; [by apply (Hfr q Hq)|].
  apply list_elem_of_fmap in Hr as (e & Ee & He). apply list_elem_of_fmap in He as (p & -> & Hp).
  rewrite entry_addr in Ee. specialize (Hap p q Hp Hq). specialize (Hps p Hp). specialize (Hqs q Hq).
  unfold apart in Hap. lia.
Qed.

(** An empty list is a batch like any other. *)
Lemma apply_normal_eq `{BootConfig} s :
  apply_normal_patches s
  = let '(err, s) := apply_patches s normal_data_patches in
    if negb (err =? 0) then (-2, s)
    else let '(err, s) := apply_patches s (map hook_patch normal_code_patches) in
         if negb (err =? 0) then (-3, s) else (0, s).
Proof.
  unfold apply_normal_patches. rewrite convert_all_hooks.
  destruct normal_data_patches; cbn [length Nat.eqb]; [cbn [apply_patches apply_loop]|];
    (destruct normal_code_patches; cbn [length Nat.eqb map]; [|done]);
    [done|]. destruct (apply_patches s _) as [err s1]. by destruct (err =? 0).
Qed.

(** C22: [apply_normal_patches] applies the patches that a platform lists.  It
    returns 0 when core 0 reads all of them, and then a call of each hooked
    function continues at the hook's target; -2 when nothing was changed; -3
    when the data patches were applied and no hook was. *)
Theorem normal_patches_applied `{BootConfig} (g : geometry) (rom : Z -> Z) (s : mstate) :
  let ps := normal_data_patches ++ map hook_patch normal_code_patches in
  geo_ok g -> canon_ok rom -> mmu_inv g rom s ->
  Forall (mmu_ok g) ps -> Forall patch_wf ps -> ForallOrdPairs apart ps ->
  Forall (fun p => p_addr p ∉ p_addr <$> registry s) ps ->
  let '(err, s') := apply_normal_patches s in
  mmu_inv g rom s' /\
  ((err = 0 /\ (forall a, mmu_dom g a -> view (core0 s') (pmem s') a = overlay ps (view (core0 s) (pmem s)) a) /\
    forall f, f ∈ normal_code_patches -> f_patch_addr f mod 2 = 0 -> 0 <= f_target_function_addr f < 2 ^ 32 ->
      thumb_ldr_pc (view (core0 s') (pmem s')) (f_patch_addr f) = Some (f_target_function_addr f)) \/
   (err = -2 /\ forall a, mmu_dom g a -> view (core0 s') (pmem s') a = view (core0 s) (pmem s) a) \/
   (err = -3 /\ forall a, mmu_dom g a -> view (core0 s') (pmem s') a
                  = overlay normal_data_patches (view (core0 s) (pmem s)) a)).
Proof.
  intros ps Hg Hco Hv Hok Hwf Hap Hfr. subst ps. rewrite apply_normal_eq.
  apply Forall_app in Hok as [Hok1 Hok2], Hwf as [Hwf1 Hwf2], Hfr as [Hfr1 Hfr2].
  pose proof Hap as Hall. apply ordpairs_app in Hap as (Hap1 & Hap2 & Hcross).
  assert (H8 : Forall (fun p => 4 <= p_size p) (map hook_patch normal_code_patches)).
  { apply Forall_fmap, Forall_true. intros f. cbn. lia. }
  pose proof (@apply_patches_ok mstate mmu_port (mmu_port_ok g rom Hg Hco)) as Happly.
  destruct (Happly s normal_data_patches) as (e & s1 & -> & Hv1 & Hz & Hnz); [done|by split|].
  destruct (e =? 0) eqn:Ee; cbn [negb]; to_prop.
  2:{ split; [done|]. right. left. split; [done|]. by apply Hnz. }
  destruct (Hz Ee) as (Hs1 & Hr1 & _ & Hd1).
  destruct (Happly s1 (map hook_patch normal_code_patches)) as (e2 & s2 & -> & Hv2 & Hz2 & Hnz2); [done| |].
  { split; [done|done|done|]. by apply (fresh_after s normal_data_patches). }
  assert (Hover : forall a, mmu_dom g a -> view (core0 s1) (pmem s1) a = overlay normal_data_patches (view (core0 s) (pmem s)) a)
    by exact Hd1.
  destruct (e2 =? 0) eqn:Ee2; cbn [negb]; to_prop.
  - destruct (Hz2 Ee2) as (_ & _ & _ & Hd2). split; [done|]. left. split; [done|].
    assert (Hd : forall a, mmu_dom g a -> view (core0 s2) (pmem s2) a
        = overlay (normal_data_patches ++ map hook_patch normal_code_patches) (view (core0 s) (pmem s)) a).
    { intros a Ha. rewrite overlay_app. etransitivity; [by apply Hd2|]. apply overlay_ext. by apply Hover. }
    split; [exact Hd|]. intros f Hf Hev Ht. assert (Hin : hook_patch f ∈ map hook_patch normal_code_patches) by (by apply list_elem_of_fmap_2).
    apply (hook_jumps (normal_data_patches ++ map hook_patch normal_code_patches) f _ (view (core0 s) (pmem s)));
      [done|by apply Forall_app|apply elem_of_app; by right|done|done|].
    intros b Hb. apply Hd. rewrite Forall_forall in Hok2. by apply (mmu_ok_dom g (hook_patch f) b); [apply Hok2|].
  - split; [done|]. right. right. split; [done|]. intros a Ha.
    etransitivity; [by apply Hnz2|]. by apply Hover.
Qed.

(** ** Core 1 *)

(** A boot word in the flat memory. *)
Lemma flat_patch_word f w :
  ROM_START < fst w -> leaves_page (plain_word w) = false -> Z.of_nat (base.size (f_pages f)) < f_max f ->
  let f' := snd (flat_patch f (plain_word w)) in
  f_mem f' = put (f_mem f) (fst w) (word_bytes (snd w)) /\ f_max f' = f_max f /\
  Z.of_nat (base.size (f_pages f')) <= Z.of_nat (base.size (f_pages f)) + 1.
Proof.
  intros Hr Hl Hp. unfold flat_patch. rewrite Hl. cbn [plain_word p_addr orb].
  rewrite (proj2 (Z.ltb_lt _ _) Hr), (proj2 (Z.leb_gt _ _)), andb_false_r by lia. cbn [snd f_mem f_max f_pages set_f_pages set_f_mem].
  split; [done|]. split; [done|]. pose proof (size_union_alt {[fst w / 2 ^ 16]} (f_pages f)) as E.
  rewrite E, size_singleton. pose proof (subseteq_size (f_pages f ∖ {[fst w / 2 ^ 16]}) (f_pages f)). set_solver by lia.
Qed.

Lemma flat_words ws f :
  Forall (fun w => ROM_START < fst w /\ leaves_page (plain_word w) = false) ws ->
  Z.of_nat (base.size (f_pages f)) + Z.of_nat (length ws) <= f_max f ->
  f_mem (foldl (fun f w => snd (flat_patch f (plain_word w))) f ws) = overlay (map plain_word ws) (f_mem f).
Proof.
  intros Hw. revert f. induction Hw as [|w ws [Hr Hl] _ IH]; intros f Hs; [done|]. cbn [foldl map length] in *.
  destruct (flat_patch_word f w Hr Hl) as (Em & Ex & Es); [lia|]. rewrite IH, Em by lia. done.
Qed.

(** C23: After [mmu_init] core 0 reads the patched constants: the start of the
    AllocMem pool behind Magic Lantern, and the wrapper in the place of
    [init1_task].  The wrapper, which core 1 runs on Canon's tables, finds the
    address of Canon's [init1_task] to continue at, and takes the new tables:
    from then on core 1 reads what core 0 reads. *)
Theorem mmu_boot_hands_over `{BootConfig} (rom : Z -> Z) (b : bstate) (c : calc) (h : init1_hijack) :
  let g := geometry_of (conf_of c) in
  boot_ok rom b c -> CONFIG_INIT1_HIJACK = Some h ->
  Forall (fun w => leaves_page (plain_word w) = false /\ 0 <= snd w < 2 ^ 32) boot_words ->
  ForallOrdPairs apart (map plain_word boot_words) -> Z.of_nat (length boot_words) <= g_max g ->
  exists b', mmu_init b 0 = Some (0, b') /\
    Forall (fun w => ldv 4 (view (core0 (b_mmu b')) (pmem (b_mmu b'))) (fst w) = snd w) boot_words /\
    let '(init1_task, s) := init1_task_wrapper (b_mmu b') h in
    init1_task = ldv 4 rom (PTR_INIT1_TASK h) /\
    forall a, mmu_dom g a -> view (core1 s) (pmem s) a = view (core0 s) (pmem s) a.
Proof.
  intros g Hb Hh Hw Hap Hmx. destruct (booted rom b c Hb) as (Hg & b' & E & Hr & Hc1). exists b'. split; [done|].
  pose proof (bk_canon _ _ _ Hb) as Hco. pose proof (bk_words _ _ _ Hb) as Hok. fold g in Hok.
  pose proof (rf_inv _ _ _ _ Hr) as Hv. split; [|unfold init1_task_wrapper; split].
  - rewrite Forall_forall in Hok, Hw |- *. intros w Hin. destruct (Hok w Hin) as [Hrom Hmok], (Hw w Hin) as [Hlp Hval].
    assert (Hwf : patch_wf (plain_word w)) by (split; [done|apply Forall_nil_2]).
    etransitivity; [|exact (new_bytes_first (plain_word w) (rd8 (pmem (b_mmu b))) Hwf ltac:(cbn; lia))].
    apply ldv_ext. intros x Hx. change (fst w <= x < fst w + 4) in Hx.
    rewrite (rf_mem _ _ _ _ Hr) by (apply (mmu_ok_dom g (plain_word w)); [done|cbn; lia]).
    unfold boot_flat. rewrite flat_words; [|apply Forall_forall; intros v Hin'; split; [by apply Hok|by apply Hw]|cbn; rewrite size_empty; exact Hmx].
    apply overlay_in; [done|apply Forall_fmap, Forall_true; intros; cbn; lia|by apply list_elem_of_fmap_2|cbn; lia].
  - apply ldv_ext. intros x Hx. change (Z.of_nat 4) with 4 in Hx.
    apply (view_canon g rom Hco (b_mmu b')); [apply (mv_mem _ _ _ Hv)|done|].
    assert (Hin : (PTR_INIT1_TASK h, Z.lor (init1_task_wrapper_code h) 1) ∈ boot_words).
    { unfold boot_words. rewrite Hh. apply elem_of_app. right. by apply list_elem_of_singleton. }
    rewrite Forall_forall in Hok. destruct (Hok _ Hin) as [Hrom [(_ & He & _)|(_ & _ & He & _)]];
      cbn [fst plain_word p_addr p_size] in *; lia.
  - intros a Ha.
    destruct (refine_step g rom Hg Hco (b_mmu b') _ OCpu1Tables Hr I) as [_ Hup]. cbn [mmu_exec flat_exec snd] in Hup.
    pose proof (refines_core1 g rom _ _ a Hg Hco Hup Ha) as H1. unfold core1_reads in H1. cbn [set_f_core1 f_core1] in H1.
    rewrite (rf_mem _ _ _ _ Hup a Ha). by case_hyp H1.
Qed.

(** ** Attributes *)

(** C40: With Canon's tables in ROM mapping the ROM to itself and the RAM, as
    [canon_ok] says, a 64 kB-aligned ROM page, a 64 kB-aligned RAM page and an
    L2 table aligned to 1 kB: each of the 16 entries that [replace_rom_page]
    writes with the flags of [patch_flags] translates every address of the
    page to the RAM copy, with the access permissions of the ROM section (AP,
    APX, execute-never, shareable, not-global) and the memory type of RAM
    (TEX, C, B). *)
Theorem patched_page_attributes (rom rd : Z -> Z) (m : memory) (romaddr ramaddr l2 k : Z) :
  canon_ok rom ->
  (forall b, CANON_ORIG_MMU_TABLE_ADDR <= b < CANON_ORIG_MMU_TABLE_ADDR + MMU_L1_TABLE_SIZE -> rd b = rom b) ->
  0 <= romaddr < 2 ^ 32 -> romaddr mod 2 ^ 16 = 0 ->
  0 <= ramaddr -> ramaddr + 2 ^ 16 <= 2 ^ 32 -> ramaddr mod 2 ^ 16 = 0 -> l2 mod 2 ^ 10 = 0 -> 0 <= k < 16 ->
  let m' := replace_rom_page m romaddr ramaddr l2 (patch_flags rd) in
  let e := ld32 m' (l2 + ((romaddr / 2 ^ 16) mod 16 * 16 + k) * 4) in
  largepage_access e = section_access (rom_entry rom) /\
  largepage_memtype e = section_memtype (ram_entry rom) /\
  forall va, l2_page e va = Some (ramaddr + Z.land va 0xffff).
Proof.
  intros Hco Hrd Hro Hroa Hra Hra2 Hraa Hl2 Hk m' e.
  pose proof (patch_flags_ok rom Hco rd Hrd) as Hf. destruct (largepage_flags_ok _ Hf) as [Hlf Hl4].
  destruct (replace_page_ok m romaddr ramaddr l2 (patch_flags rd)) as [_ He]; [done|done|lia|done|done|done|].
  specialize (He k Hk). fold m' in He. fold e in He. rewrite He.
  pose proof (attributes_of_flags (rom_entry rom) (ram_entry rom)) as [Hacc Htyp].
  rewrite <- (patch_flags_eq rom Hco rd Hrd) in Hacc, Htyp. rewrite <- Hacc, <- Htyp.
  assert (Hbit : forall l, Forall (fun n => 0 <= n < 16) l ->
            map (Z.testbit (ramaddr + largepage_flags (patch_flags rd))) l = map (Z.testbit (largepage_flags (patch_flags rd))) l).
  { intros l Hl. apply map_ext_Forall. eapply Forall_impl; [exact Hl|]. intros n Hn. by apply page_bits. }
  split; [apply Hbit; repeat constructor; lia|]. split; [apply Hbit; repeat constructor; lia|].
  intros va. unfold l2_page. rewrite (land_lo 2), (land_hi 16) by (Z.div_mod_to_equations; lia).
  replace ((ramaddr + _) mod 2 ^ 2) with 1 by (Z.div_mod_to_equations; lia). change (1 =? 1) with true. cbv iota.
  f_equal. f_equal. Z.div_mod_to_equations; lia.
Qed.
End theorems.
