(* ===== verification/MmuWitness.v ===== *)
(** * A camera with an MMU

    The constants of the 200D ([platform/200D.101]), with Canon's L1 table as
    sections that map every megabyte to itself.  The theorems of [MmuTheorems]
    apply to it. *)
From S2P Require Import Prelude CacheHacks Patch Mmu MmuTables Patch678 Patch678Props PatchMmu MmuInv MmuRom MmuApply MmuCore MmuPort PatchSim MmuSpec MmuLayout Cpu MmuInit MmuBoot MmuTheorems.

(** ** The platform *)

#[local] Instance ex_platform : Platform := {|
  MAIN_FIRMWARE_ADDR := 0xE0040000;
  CANON_ORIG_MMU_TABLE_ADDR := 0xE0000000;
|}.

#[local] Instance ex_dryos : Dryos := {|
  change_mmu_tables c t0 t1 cpu_id := mk_core t0 t1 ∅;
  can_malloc n x := true;
|}.

#[local] Instance ex_dryos_ok : DryosOk.
Proof. split. reflexivity. Qed.

Definition ex_hijack : init1_hijack := mk_hijack 0xe00403a8 0x4d1000.

(** A data patch of one word and a hook, both in ROM that holds zeros. *)
Definition ex_data : mpatch := mk_mpatch 0xe0500000 0 5 None None 4 0 false.
Definition ex_hook : function_hook_patch := mk_fhook 0xf0000102 (replicate 8 0) 0x4d2001 0.

#[local] Instance ex_config : BootConfig := {|
  CONFIG_ALLOCATE_MEMORY_POOL := Some (mk_pool 0xe00412c8 0x4d0000 0x80000);
  CONFIG_INIT1_HIJACK := Some ex_hijack;
  generic_mmu_space := 0;
  early_code_patches := [];
  normal_data_patches := [ex_data];
  normal_code_patches := [ex_hook];
  sgi_wake_handler := 0x4d3001;
|}.

(** ** Memory *)

(** The descriptor of megabyte [s]: a section with full access, cacheable. *)
Definition ex_entry (s : Z) : Z := s * 2 ^ 20 + 0xc0e.

Definition ex_byte (b : Z) : Z :=
  let k := b - 0xE0000000 in ex_entry (k / 4) / 256 ^ (k mod 4).

Definition ex_mem : memory :=
  st32 (wrs ∅ 0xE0000000 (rds ex_byte 0xE0000000 (Z.to_nat MMU_L1_TABLE_SIZE))) 0xe00412c8 0x46c000.

Definition ex_rom : Z -> Z := rd8 ex_mem.

Definition ex_core : core := mk_core 0 0xE0000000 ∅.

Definition ex_boot : bstate :=
  mk_boot (mk_mstate ex_mem ex_core ex_core false (mk_conf 0 0 0 [] 0 0) 0 false [] 0 0)
          (Some (replicate 16 0)) 0 false.

(** The layout in the AllocMem region. *)
Definition ex_calc : calc := mk_calc 0x478000 5 0x47c900 5 0x480000 0x47ec00.
Definition ex_geo : geometry := geometry_of (conf_of ex_calc).

Lemma ex_rom_table k : 0 <= k < 0x4000 -> ex_rom (0xE0000000 + k) = u8 (ex_byte (0xE0000000 + k)).
Proof.
  intros Hk. unfold ex_rom, ex_mem. rewrite rd8_st_out by (change (Z.of_nat 4) with 4; lia).
  rewrite rd8_wrs, length_rds. unfold MMU_L1_TABLE_SIZE. rewrite decide_True, rds_lookup by lia. do 2 f_equal. lia.
Qed.

Lemma ex_rom_eq b : rd8 ex_mem b = ex_rom b.
Proof. exact eq_refl. Qed.

Lemma ex_pool_word : ld32 ex_mem 0xe00412c8 = 0x46c000.
Proof. apply ld32_st32_same. Qed.

#[local] Opaque ex_rom ex_mem.

Lemma ex_entry_byte s k : 0 <= s < 0x1000 -> 0 <= k < 4 ->
  ex_rom (0xE0000000 + s * 4 + k) = u8 (ex_entry s / 256 ^ k).
Proof.
  intros Hs Hk. rewrite <- Z.add_assoc, ex_rom_table by lia. unfold ex_byte.
  replace (0xE0000000 + (s * 4 + k) - 0xE0000000) with (k + s * 4) by lia.
  replace ((k + s * 4) / 4) with s by (Z.div_mod_to_equations; lia).
  replace ((k + s * 4) mod 4) with k by (Z.div_mod_to_equations; lia). done.
Qed.

Lemma ex_canon_entry s : 0 <= s < 0x1000 -> canon_entry ex_rom s = ex_entry s.
Proof.
  intros Hs. unfold canon_entry. change CANON_ORIG_MMU_TABLE_ADDR with 0xE0000000. cbn [ldv].
  pose proof (ex_entry_byte s 0 Hs ltac:(lia)) as H0. pose proof (ex_entry_byte s 1 Hs ltac:(lia)) as H1.
  pose proof (ex_entry_byte s 2 Hs ltac:(lia)) as H2. pose proof (ex_entry_byte s 3 Hs ltac:(lia)) as H3.
  set (a := 0xE0000000 + s * 4) in *. rewrite Z.add_0_r in H0.
  replace (a + 1 + 1 + 1) with (a + 3) by lia. replace (a + 1 + 1) with (a + 2) by lia.
  rewrite H0, H1, H2, H3. unfold ex_entry, u8.
  change (256 ^ 0) with 1. change (256 ^ 1) with 256. change (256 ^ 2) with 65536.
  change (256 ^ 3) with 16777216. change (2 ^ 8) with 256. change (2 ^ 20) with 1048576.
  clear -Hs. Z.div_mod_to_equations; lia.
Qed.

Lemma ex_entry_flat s : 0 <= s < 0x1000 -> flat_section (ex_entry s) s = true.
Proof.
  intros Hs. apply flat_section_inv. unfold ex_entry. split.
  - rewrite <- (lor_add s 0xc0e 20), Z.land_lor_distr_l, (land_zero_mult s 20 0x40003) by lia. done.
  - rewrite (land_hi 20) by lia. Z.div_mod_to_equations; lia.
Qed.

Lemma ex_canon : canon_ok ex_rom.
Proof.
  split.
  - intros b. rewrite <- ex_rom_eq. apply rd8_range.
  - split_and!; vm_compute; congruence.
  - split; vm_compute; congruence.
  - intros s Hs. left. unfold rom_section in Hs. rewrite ex_canon_entry by lia. apply ex_entry_flat. lia.
  - intros s n Hs _. unfold rom_section in Hs. rewrite ex_canon_entry by lia.
    rewrite (flat_section_not_super _ s) by (apply ex_entry_flat; lia). discriminate 1.
  - rewrite ex_canon_entry by lia. done.
Qed.

Lemma ex_cold : cold ex_rom (b_mmu ex_boot).
Proof.
  split.
  - exact eq_refl.
  - intros b _. exact (ex_rom_eq b).
  - apply core_on_flushed.
  - apply core_on_flushed.
  - exact eq_refl.
  - exact eq_refl.
Qed.

Lemma ex_region : mmu_region (b_mmu ex_boot) = Some (0x46c000, 0x64000).
Proof.
  unfold mmu_region. cbn [CONFIG_ALLOCATE_MEMORY_POOL ex_config PTR_ALLOC_MEM_START RESTARTSTART].
  assert (load0 (b_mmu ex_boot) 0xe00412c8 = 0x46c000) as ->; [|done].
  unfold load0. rewrite (ldv_ext 4 _ ex_rom).
  - rewrite (ldv_ext 4 _ (rd8 ex_mem)) by (intros; symmetry; apply ex_rom_eq). rewrite ldv_ld. exact ex_pool_word.
  - intros b Hb. change (Z.of_nat 4) with 4 in Hb. apply (cold_view ex_rom ex_canon (b_mmu ex_boot) b ex_cold).
    unfold ROM_START. lia.
Qed.

Lemma ex_layout : calc_mmu_globals 0x46c000 0x64000 = (0, ex_calc) /\ fits 0x46c000 0x4d0000 ex_calc.
Proof.
  assert (E : calc_mmu_globals 0x46c000 0x64000 = (0, ex_calc)) by (vm_compute; reflexivity).
  destruct (calc_backwards 0x46c000 0x64000) as (c & Ec & Hf);
    [lia|lia|unfold ROM_START; lia|vm_compute; congruence..|].
  rewrite E in Ec. injection Ec as <-. by split.
Qed.

Lemma ex_geo_ok : geo_ok ex_geo.
Proof. exact (fi_geo _ _ _ (proj2 ex_layout)). Qed.


Lemma ex_mmu_ok p :
  ROM_START < p_addr p -> p_size p <= MMU_PAGE_SIZE -> p_addr p + p_size p <= 2 ^ 32 -> 0xe0004900 <= p_addr p ->
  mmu_ok ex_geo p.
Proof. intros H1 H2 H3 H4. right. split_and!; try done. right. exact H4. Qed.

Lemma ex_boot_ok : boot_ok ex_rom ex_boot ex_calc.
Proof.
  split.
  - exact ex_canon.
  - exact ex_cold.
  - done.
  - eexists. split; [reflexivity|]. vm_compute. congruence.
  - done.
  - exists 0x46c000, 0x64000, 0x4d0000. split; [exact ex_region|exact ex_layout].
  - change boot_words with [(0xe00412c8, u32 (0x4d0000 + 0x80000)); (0xe00403a8, Z.lor 0x4d1000 0x1)].
    apply Forall_cons. split; [split; [done|]|apply Forall_singleton; split; [done|]];
      apply ex_mmu_ok; unfold ROM_START, MMU_PAGE_SIZE; cbn [plain_word p_addr p_size fst]; lia.
Qed.

(** ** Witnesses *)



Lemma boot_flat_registry f : f_registry (boot_flat f) = f_registry f.
Proof.
  unfold boot_flat. generalize boot_words. intros ws. revert f. induction ws as [|w ws IH]; intros f; [done|].
  cbn [foldl]. rewrite IH. unfold flat_patch. by repeat case_goal.
Qed.

(** The state after [mmu_init]. *)
Lemma ex_booted : exists s, mmu_inv ex_geo ex_rom s /\ registry s = [] /\
  exists b', mmu_init ex_boot 0 = Some (0, b') /\ b_mmu b' = s.
Proof.
  destruct (booted ex_rom ex_boot ex_calc ex_boot_ok) as (_ & b' & E & Hr & _). exists (b_mmu b').
  split; [exact (rf_inv _ _ _ _ Hr)|]. split; [|exists b'; exact (conj E eq_refl)].
  rewrite (rf_registry _ _ _ _ Hr). apply boot_flat_registry.
Qed.

Lemma ex_ps_ok : Forall (mmu_ok ex_geo) [ex_data; hook_patch ex_hook].
Proof.
  apply Forall_cons. split; [|apply Forall_singleton];
    apply ex_mmu_ok; unfold ROM_START, MMU_PAGE_SIZE; cbn [ex_data hook_patch ex_hook f_patch_addr p_addr p_size]; lia.
Qed.

Lemma ex_ps_wf : Forall patch_wf [ex_data; hook_patch ex_hook].
Proof.
  apply Forall_cons. split; [split; [cbn; lia|apply Forall_nil_2]|]. apply Forall_singleton.
  split; [cbn; lia|]. cbn. repeat constructor; vm_compute; congruence.
Qed.

Lemma ex_ps_apart : ForallOrdPairs apart [ex_data; hook_patch ex_hook].
Proof.
  constructor; [apply Forall_singleton; left; cbn; lia|]. constructor; [apply Forall_nil_2|constructor].
Qed.

Lemma mmu_apply_patches_all_or_none_witness :
  exists s, mmu_inv ex_geo ex_rom s /\
  let '(err, s') := apply_patches s [ex_data; hook_patch ex_hook] in
  mmu_inv ex_geo ex_rom s' /\ (err <> 0 -> registry s' = []).
Proof.
  destruct ex_booted as (s & Hv & Hr & _). exists s. split; [exact Hv|].
  assert (Hfr : Forall (fun p => p_addr p ∉ p_addr <$> registry s) [ex_data; hook_patch ex_hook]).
  { rewrite Hr. apply Forall_true. intros p. apply not_elem_of_nil. }
  pose proof (mmu_apply_patches_all_or_none ex_geo ex_rom s [ex_data; hook_patch ex_hook]
                ex_geo_ok ex_canon Hv ex_ps_ok ex_ps_wf ex_ps_apart Hfr) as H.
  destruct (apply_patches s [ex_data; hook_patch ex_hook]) as [err s']. destruct H as (H1 & _ & H3).
  split; [exact H1|]. intros E. rewrite <- Hr. exact (proj1 (H3 E)).
Defined.

Lemma normal_patches_applied_witness :
  exists s, mmu_inv ex_geo ex_rom s /\
  let '(err, s') := apply_normal_patches s in
  err = 0 -> thumb_ldr_pc (view (core0 s') (pmem s')) 0xf0000102 = Some 0x4d2001.
Proof.
  destruct ex_booted as (s & Hv & Hr & _). exists s. split; [exact Hv|].
  assert (Hfr : Forall (fun p => p_addr p ∉ p_addr <$> registry s) [ex_data; hook_patch ex_hook]).
  { rewrite Hr. apply Forall_true. intros p. apply not_elem_of_nil. }
  pose proof (normal_patches_applied ex_geo ex_rom s ex_geo_ok ex_canon Hv ex_ps_ok ex_ps_wf ex_ps_apart Hfr) as H.
  destruct (apply_normal_patches s) as [err s']. destruct H as (_ & [(_ & _ & H)|[(E & _)|(E & _)]]); intros Ee; [|lia|lia].
  apply (H ex_hook); [apply list_elem_of_here|reflexivity|cbn; lia].
Defined.

Lemma mmu_boot_hands_over_witness :
  exists b', mmu_init ex_boot 0 = Some (0, b') /\
    ldv 4 (view (core0 (b_mmu b')) (pmem (b_mmu b'))) 0xe00403a8 = 0x4d1001 /\
    fst (init1_task_wrapper (b_mmu b') ex_hijack) = ldv 4 ex_rom 0xe00403a8.
Proof.
  assert (H1 : Forall (fun w => leaves_page (plain_word w) = false /\ 0 <= snd w < 2 ^ 32) boot_words)
    by (repeat (apply Forall_cons; split; [split; [reflexivity|vm_compute; split; congruence]|]); apply Forall_nil_2).
  assert (H2 : ForallOrdPairs apart (map plain_word boot_words)).
  { constructor; [apply Forall_singleton; right; cbn; lia|]. constructor; [apply Forall_nil_2|constructor]. }
  assert (H3 : Z.of_nat (length boot_words) <= g_max ex_geo) by (cbn; lia).
  destruct (mmu_boot_hands_over ex_rom ex_boot ex_calc ex_hijack ex_boot_ok eq_refl H1 H2 H3) as (b' & E & Hw & H).
  exists b'. split; [exact E|]. split.
  - rewrite Forall_forall in Hw. exact (Hw (0xe00403a8, 0x4d1001) ltac:(by right; left)).
  - exact (proj1 H).
Defined.

Lemma patched_page_attributes_witness :
  let e := ld32 (replace_rom_page ∅ 0xe0500000 0x480000 0x47ec00 (patch_flags ex_rom)) 0x47ec00 in
  largepage_access e = section_access (ex_entry 0xe00) /\ largepage_memtype e = section_memtype (ex_entry 0x100).
Proof.
  pose proof (patched_page_attributes ex_rom ex_rom ∅ 0xe0500000 0x480000 0x47ec00 0 ex_canon
                (fun b _ => eq_refl) ltac:(lia) eq_refl ltac:(lia) ltac:(lia) eq_refl eq_refl ltac:(lia)) as (H1 & H2 & _).
  unfold rom_entry, ram_entry in *. change (MAIN_FIRMWARE_ADDR / 2 ^ 24 * 16) with 0xe00 in H1.
  rewrite ex_canon_entry in H1 by lia. rewrite ex_canon_entry in H2 by lia.
  exact (conj H1 H2).
Defined.
