(* ===== verification/PatchD6.v ===== *)
(** * Patching on DIGIC 6 ([src/src/patch_d6.c])

    The patch port of the cameras without cache lockdown and without an MMU: RAM
    is written in place, through the uncacheable alias for instructions.  Each
    patch is followed by [_sync_caches], so caches are not modelled and the two
    aliases of a RAM address are the same byte.

    For data patches the port behaves like a flat memory, so the theorems about
    [patch.c] apply; for instructions [apply_patch] changes the address in the
    caller's array, and a failed batch is not undone. *)
From S2P Require Import Prelude CacheHacks Patch Mmu MmuTables Patch678 Patch678Props.

(** ** The code *)

Record d6state := mk_d6 {
  d_mem : memory;
  d_registry : list mpatch;
  d_mallocs : nat;
  d_buffers : Z;
}.

Definition d_set_mem (s : d6state) (m : memory) : d6state :=
  mk_d6 m (d_registry s) (d_mallocs s) (d_buffers s).
Definition d_set_registry (s : d6state) (l : list mpatch) : d6state :=
  mk_d6 (d_mem s) l (d_mallocs s) (d_buffers s).
Definition d_set_heap (s : d6state) (n : nat) (b : Z) : d6state :=
  mk_d6 (d_mem s) (d_registry s) n b.

(** A byte through either alias, and [memcpy] to an address. *)
Definition alias_rd (m : memory) (a : Z) : Z := rd8 m (phys a).

Fixpoint alias_wrs (m : memory) (a : Z) (l : list Z) : memory :=
  match l with
  | [] => m
  | x :: l => alias_wrs (wr8 m (phys a) x) (a + 1) l
  end.

(** [IS_ROM_PTR] for [CONFIG_DIGIC_VI] ([mem.h]) *)
Definition IS_ROM_PTR_VI (val : Z) : bool := 0xF0000000 <? val.

Definition d6_read_value (s : d6state) (a : Z) (is_instruction : bool) : Z :=
  ldv 4 (alias_rd (d_mem s)) (if is_instruction then UNCACHEABLE a else a).

Definition d6_patch_memory_ram (s : d6state) (p : mpatch) : Z * d6state :=
  if p_size p <? 4 then (E_PATCH_TOO_SMALL, s)
  else
    let l := if 4 <? p_size p then pointed p (p_new_values p) else word_bytes (p_new_value p) in
    (E_PATCH_OK, d_set_mem s (alias_wrs (d_mem s) (p_addr p) l)).

(** The caller's patch comes back with the address it was applied at. *)
Definition d6_apply_patch (s : d6state) (p : mpatch) : Z * mpatch * d6state :=
  let p := if p_is_instruction p then with_addr p (UNCACHEABLE (p_addr p)) else p in
  if IS_ROM_PTR_VI (p_addr p) then (E_PATCH_BAD_ADDR, p, s)
  else let '(err, s) := d6_patch_memory_ram s p in (err, p, s).

Definition d6_still_applied (s : d6state) (p : mpatch) : bool :=
  d6_read_value s (p_addr p) (p_is_instruction p) =? patched_word p.

Definition d6_unpatch_memory (s : d6state) (_addr : Z) : Z * d6state :=
  match list_find (fun q => p_addr q = _addr) (d_registry s) with
  | None => (E_UNPATCH_OK, s)
  | Some (i, p) =>
      if IS_ROM_PTR_VI _addr then (E_UNPATCH_OK, s)
      else if negb (d6_still_applied s p) then (E_UNPATCH_OVERWRITTEN, s)
      else
        let '(err, s) :=
          if 4 <? p_size p then
            (E_UNPATCH_OK, d_set_heap (d_set_mem s (alias_wrs (d_mem s) _addr (pointed p (p_old_values p))))
                                      (d_mallocs s) (d_buffers s - 1))
          else if p_size p =? 4 then
            (E_UNPATCH_OK, d_set_mem s (alias_wrs (d_mem s) _addr (word_bytes (p_old_value p))))
          else (E_PATCH_TOO_SMALL, s) in
        (err, d_set_registry s (delete i (d_registry s)))
  end.

(** [can_malloc] says whether the [n]-th allocation succeeds. *)
Definition d6_port (can_malloc : nat -> Z -> bool) : PatchPort d6state := {|
  patches_global := d_registry;
  push_patch s p := d_set_registry s (d_registry s ++ [p]);
  read_byte s := alias_rd (d_mem s);
  read_value := d6_read_value;
  apply_patch := d6_apply_patch;
  unpatch_memory := d6_unpatch_memory;
  malloc s n := (can_malloc (d_mallocs s) n,
                 d_set_heap s (S (d_mallocs s)) (if can_malloc (d_mallocs s) n then d_buffers s + 1 else d_buffers s));
  free s := d_set_heap s (d_mallocs s) (d_buffers s - 1);
  IS_ROM_PTR := IS_ROM_PTR_VI;
  CONFIG_DIGIC_VI := true;
|}.

(** ** The port as a flat memory *)

Definition d6_dom (a : Z) : Prop := 0 <= a < 0x40000000.

(** Data in RAM, by its cacheable address. *)
Definition d6_ok (p : mpatch) : Prop :=
  p_is_instruction p = false /\ 0 <= p_addr p < 0x40000000 /\ p_addr p + p_size p <= 0x40000000.

Definition d6_inv (s : d6state) : Prop := Forall (fun q => d6_ok q /\ 4 <= p_size q) (d_registry s).

Lemma phys_ram a : a < 0x40000000 -> phys a = a.
Proof. intros Ha. unfold phys, is_uncached. case_goal; to_prop; lia. Qed.

Lemma alias_ram m a : d6_dom a -> alias_rd m a = rd8 m a.
Proof. intros Ha. unfold alias_rd. rewrite phys_ram; [done|]. unfold d6_dom in Ha. lia. Qed.

Lemma alias_wrs_ram m a l b :
  0 <= a -> a + Z.of_nat (length l) <= 0x40000000 -> d6_dom b ->
  alias_rd (alias_wrs m a l) b = put (alias_rd m) a l b.
Proof.
  revert m a. induction l as [|x l IH]; intros m a Ha Hl Hb; cbn [alias_wrs length] in *.
  - rewrite put_out; [done|]. cbn. lia.
  - rewrite IH by (done || lia). rewrite phys_ram by lia. unfold put. cbn [length].
    destruct (decide (b = a)) as [->|Hne].
    + rewrite decide_False by lia. rewrite decide_True by lia. rewrite Z.sub_diag.
      rewrite alias_ram by done. by rewrite rd8_wr8_eq.
    + destruct (decide (a + 1 <= b < a + 1 + Z.of_nat (length l))).
      * rewrite decide_True by lia. replace (Z.to_nat (b - a)) with (S (Z.to_nat (b - (a + 1)))) by lia. done.
      * rewrite decide_False by lia. rewrite !alias_ram by done. by rewrite rd8_wr8_ne by done.
Qed.

Lemma d6_ok_entry p : d6_ok p -> d6_ok (reg_entry p).
Proof. intros (Hi & Ha & He). unfold d6_ok, reg_entry. by case_goal. Qed.

Lemma d6_not_rom p : d6_ok p -> IS_ROM_PTR_VI (p_addr p) = false.
Proof. intros (_ & Ha & _). unfold IS_ROM_PTR_VI. apply Z.ltb_ge. lia. Qed.

Lemma d6_apply_ok s p : d6_ok p -> 4 <= p_size p ->
  exists s', d6_apply_patch s p = (0, p, s') /\ d_registry s' = d_registry s /\
    forall a, d6_dom a -> alias_rd (d_mem s') a = put (alias_rd (d_mem s)) (p_addr p) (new_bytes p) a.
Proof.
  intros Hok H4. pose proof Hok as (Hi & Ha & He). unfold d6_apply_patch. rewrite Hi, d6_not_rom by done.
  unfold d6_patch_memory_ram. rewrite (proj2 (Z.ltb_ge _ _)) by lia. fold (new_bytes p).
  eexists. split; [reflexivity|]. split; [done|]. intros a Hd. cbn [d_mem d_set_mem].
  apply alias_wrs_ram; [lia|rewrite length_new_bytes by done; lia|done].
Qed.

Lemma d6_unpatch_ok s a : d6_inv s ->
  match list_find (fun q => p_addr q = a) (d_registry s) with
  | None => d6_unpatch_memory s a = (E_UNPATCH_OK, s)
  | Some (i, q) =>
      if d6_still_applied s q
      then exists s', d6_unpatch_memory s a = (E_UNPATCH_OK, s') /\ d6_inv s' /\
             d_registry s' = delete i (d_registry s) /\
             forall b, d6_dom b -> alias_rd (d_mem s') b = put (alias_rd (d_mem s)) a (old_bytes q) b
      else d6_unpatch_memory s a = (E_UNPATCH_OVERWRITTEN, s)
  end.
Proof.
  intros Hv. unfold d6_unpatch_memory. destruct (list_find _ (d_registry s)) as [[i q]|] eqn:Ef; [|done].
  apply list_find_Some in Ef as (Hl & Eq & _). unfold d6_inv in Hv. pose proof Hv as Hv'.
  rewrite Forall_lookup in Hv. destruct (Hv i q Hl) as [Hok H4]. rewrite <- Eq, d6_not_rom by done.
  destruct (d6_still_applied s q); cbn [negb]; [|done].
  assert (Hw : forall b, d6_dom b -> alias_rd (alias_wrs (d_mem s) (p_addr q) (old_bytes q)) b
                                     = put (alias_rd (d_mem s)) (p_addr q) (old_bytes q) b).
  { intros b Hb. destruct Hok as (_ & Ha & He). apply alias_wrs_ram; [lia|rewrite length_old_bytes by done; lia|done]. }
  unfold old_bytes in *. destruct (4 <? p_size q) eqn:E4; to_prop.
  - eexists. split; [reflexivity|]. split; [by apply Forall_delete|]. done.
  - rewrite (proj2 (Z.eqb_eq (p_size q) 4)) by lia.
    eexists. split; [reflexivity|]. split; [by apply Forall_delete|]. done.
Qed.

Definition d6_port_ok (can_malloc : nat -> Z -> bool) : @PatchPortOk d6state (d6_port can_malloc).
Proof.
  refine {| port_inv := d6_inv; port_dom := d6_dom; port_ok := d6_ok |}.
  - intros p a (_ & Ha & He) Hr. unfold d6_dom. lia.
  - apply d6_ok_entry.
  - intros s a. apply rd8_range.
  - intros s p _ (Hi & _) _. cbn. unfold d6_read_value. by rewrite Hi.
  - intros p Hok. cbn. by apply d6_not_rom.
  - intros s p Hv Hok _ H4. destruct (d6_apply_ok s p Hok H4) as (s' & E & Hr & Hd).
    exists 0, s'. cbn. unfold d6_inv in *. by rewrite Hr.
  - intros s p e s' Hv Hok _ H4 E _. destruct (d6_apply_ok s p Hok H4) as (s1 & E1 & Hr & _).
    cbn in E. rewrite E1 in E. injection E as _ <-. cbn. split; [|done]. unfold d6_inv in *. cbn. rewrite Hr.
    apply Forall_app. split; [done|]. apply Forall_singleton. split; [by apply d6_ok_entry|by rewrite entry_size].
  - intros s a Hv. by apply d6_unpatch_ok.
  - done.
  - done.
Defined.

(** C38: On DIGIC 6, while all registered patches are data patches to
    cacheable RAM of at least 4 bytes, a batch of data patches to cacheable
    RAM that do not overlap, at addresses that have no registered patch, is
    applied completely or not at all: with result 0 every patch is written
    over the memory before, every old value was checked, and the registry
    lists the patches; with an error memory and registry are as before. *)
Theorem d6_data_all_or_none (can_malloc : nat -> Z -> bool) (s : d6state) (ps : list mpatch) :
  d6_inv s -> Forall d6_ok ps -> Forall patch_wf ps -> ForallOrdPairs apart ps ->
  Forall (fun p => p_addr p ∉ p_addr <$> d_registry s) ps ->
  let '(err, s') := @apply_patches d6state (d6_port can_malloc) s ps in
  d6_inv s' /\
  (err = 0 -> d_registry s' = d_registry s ++ map reg_entry ps /\
     Forall (fun p => old_bytes p = rds (alias_rd (d_mem s)) (p_addr p) (Z.to_nat (p_size p))) ps /\
     forall a, d6_dom a -> alias_rd (d_mem s') a = overlay ps (alias_rd (d_mem s)) a) /\
  (err <> 0 -> d_registry s' = d_registry s /\
     forall a, d6_dom a -> alias_rd (d_mem s') a = alias_rd (d_mem s) a).
Proof.
  intros Hv Hok Hwf Hap Hfr.
  destruct (@apply_patches_ok d6state (d6_port can_malloc) (d6_port_ok can_malloc) s ps) as (e & s' & -> & Hv' & Hz & Hnz);
    [done|by split|].
  split; [done|]. split; [|done]. intros E. by destruct (Hz E) as (_ & ? & ? & ?).
Qed.

(** ** Instructions *)

Lemma uncacheable_ram a : 0 <= a < 0x40000000 -> UNCACHEABLE a = a + 0x40000000.
Proof.
  intros Ha. unfold UNCACHEABLE. rewrite (proj2 (Z.ltb_lt _ _)) by lia. rewrite Z.lor_comm.
  rewrite (lor_aligned 30) by (done || lia). lia.
Qed.

(** An instruction of RAM is written through the other alias. *)
Lemma alias_wrs_uncached m a l b :
  0 <= a -> a + Z.of_nat (length l) <= 0x40000000 -> d6_dom b ->
  alias_rd (alias_wrs m (a + 0x40000000) l) b = put (alias_rd m) a l b.
Proof.
  intros Ha Hl Hb. rewrite <- alias_wrs_ram by done. f_equal. clear Hb.
  revert m a Ha Hl. induction l as [|x l IH]; intros m a Ha Hl; [done|]. cbn [alias_wrs length] in *.
  replace (phys (a + 0x40000000)) with (phys a).
  - replace (a + 0x40000000 + 1) with (a + 1 + 0x40000000) by lia. apply IH; lia.
  - rewrite phys_ram by lia. unfold phys, is_uncached.
    rewrite (proj2 (Z.leb_le _ _)), (proj2 (Z.ltb_lt _ _)) by lia. cbn [andb]. lia.
Qed.

Lemma alias_rd_uncached m a : d6_dom a -> alias_rd m (a + 0x40000000) = alias_rd m a.
Proof.
  intros Ha. rewrite (alias_ram m a) by done. unfold d6_dom in Ha. unfold alias_rd, phys, is_uncached.
  rewrite (proj2 (Z.leb_le _ _)), (proj2 (Z.ltb_lt _ _)) by lia. cbn [andb]. f_equal. lia.
Qed.

Lemma ldv_uncached n m a : 0 <= a -> a + Z.of_nat n <= 0x40000000 ->
  ldv n (alias_rd m) (a + 0x40000000) = ldv n (alias_rd m) a.
Proof.
  revert a. induction n as [|n IH]; intros a Ha Hn; [done|]. cbn [ldv].
  rewrite alias_rd_uncached by (unfold d6_dom; lia). do 2 f_equal.
  replace (a + 0x40000000 + 1) with (a + 1 + 0x40000000) by lia. apply IH; lia.
Qed.

(** One instruction word, with an empty registry. *)
Lemma d6_apply_instruction can_malloc s p :
  p_is_instruction p = true -> p_size p = 4 -> 0 <= p_addr p -> p_addr p + 4 <= 0x40000000 ->
  d_registry s = [] -> ldv 4 (alias_rd (d_mem s)) (p_addr p) = p_old_value p ->
  apply_one (H := d6_port can_malloc) s p
  = (0, with_addr p (p_addr p + 0x40000000),
     d_set_registry (d_set_mem s (alias_wrs (d_mem s) (p_addr p + 0x40000000) (word_bytes (p_new_value p)))) [reg_entry p]).
Proof.
  intros Hi H4 Ha He Hr Hold.
  assert (Hun : UNCACHEABLE (p_addr p) = p_addr p + 0x40000000) by (apply uncacheable_ram; lia).
  assert (Hval : d6_read_value s (p_addr p) true = p_old_value p).
  { unfold d6_read_value. by rewrite Hun, <- Hold, ldv_uncached. }
  unfold apply_one, prepare_patch. cbn [patches_global d6_port CONFIG_DIGIC_VI IS_ROM_PTR read_value apply_patch push_patch andb].
  unfold IS_ROM_PTR_VI. rewrite Hr, H4, Hi, Hval, Z.eqb_refl. change (4 <? 4) with false. rewrite (proj2 (Z.ltb_ge _ (p_addr p))) by lia.
  cbn [existsb length Nat.leb negb andb fst snd MAX_PATCHES]. change (E_PATCH_OK =? 0) with true. cbn [negb].
  unfold d6_apply_patch, d6_patch_memory_ram, IS_ROM_PTR_VI. rewrite Hi, Hun. cbn [with_addr p_addr p_size p_new_value].
  rewrite H4. rewrite (proj2 (Z.ltb_ge _ (p_addr p + _))) by lia. change (4 <? 4) with false. cbv iota.
  change (E_PATCH_OK =? 0) with true. cbn [negb d_set_registry d_set_mem d_mem d_registry d_mallocs d_buffers]. rewrite Hr.
  unfold reg_entry. rewrite H4, Hi. reflexivity.
Qed.

Lemma d6_unpatch_absent s a : Forall (fun q => p_addr q <> a) (d_registry s) -> d6_unpatch_memory s a = (E_UNPATCH_OK, s).
Proof. intros Hn. unfold d6_unpatch_memory. by rewrite (proj2 (list_find_None _ _)). Qed.

(** A failed batch is not undone for instructions on DIGIC 6: a patch of one
    instruction word followed by one that is refused returns the error, but the
    word stays patched and registered, because [apply_patch] has replaced the
    address in the caller's array by its uncacheable alias, under which the
    registry does not find it. *)
Theorem d6_failed_batch_keeps_instruction (can_malloc : nat -> Z -> bool) (s : d6state) (p q : mpatch) :
  p_is_instruction p = true -> p_size p = 4 -> 0 <= p_addr p -> p_addr p + 4 <= 0x40000000 ->
  d_registry s = [] -> ldv 4 (alias_rd (d_mem s)) (p_addr p) = p_old_value p ->
  p_size q < 4 -> p_addr q <> p_addr p ->
  let '(err, s') := @apply_patches d6state (d6_port can_malloc) s [p; q] in
  err = E_PATCH_UNKNOWN_ERROR /\ d_registry s' = [reg_entry p] /\
  forall a, d6_dom a -> alias_rd (d_mem s') a = put (alias_rd (d_mem s)) (p_addr p) (new_bytes p) a.
Proof.
  intros Hi H4 Ha He Hr Hold Hq Hne. unfold apply_patches. cbn [apply_loop].
  rewrite d6_apply_instruction by done. cbn [Z.eqb negb].
  unfold apply_one. rewrite (proj2 (Z.ltb_lt _ _)) by done.
  change (E_PATCH_UNKNOWN_ERROR =? 0) with false. cbn [negb].
  unfold unpatch_all. cbn [foldl unpatch_memory d6_port with_addr p_addr].
  rewrite (d6_unpatch_absent _ (p_addr p + 0x40000000)) by (cbn; apply Forall_singleton; rewrite entry_addr; lia).
  cbn [snd]. rewrite d6_unpatch_absent by (cbn; apply Forall_singleton; rewrite entry_addr; done).
  cbn [snd]. split; [done|]. split; [done|]. intros a Hd. cbn [d_mem d_set_registry d_set_mem].
  unfold new_bytes. rewrite H4. by apply alias_wrs_uncached.
Qed.

(** A word at 0x1000 of a memory with 1 in it. *)
Definition d6_example (is_instruction : bool) : mpatch :=
  mk_mpatch 0x1000 1 2 None None 4 0 is_instruction.

Definition d6_example_state : d6state := mk_d6 (st32 ∅ 0x1000 1) [] 0 0.

Lemma d6_data_all_or_none_witness :
  let '(err, s') := @apply_patches d6state (d6_port (fun _ _ => true)) d6_example_state [d6_example false] in
  err = 0 /\ d_registry s' = [d6_example false].
Proof.
  pose proof (d6_data_all_or_none (fun _ _ => true) d6_example_state [d6_example false]) as Ht.
  assert (H1 : d6_inv d6_example_state) by apply Forall_nil_2.
  assert (H2 : Forall d6_ok [d6_example false]) by (apply Forall_singleton; unfold d6_ok; cbn; lia).
  assert (H3 : Forall patch_wf [d6_example false]) by (apply Forall_singleton; split; [cbn; lia|apply Forall_nil_2]).
  assert (H4 : ForallOrdPairs apart [d6_example false]) by (constructor; constructor).
  assert (H5 : Forall (fun p => p_addr p ∉ p_addr <$> d_registry d6_example_state) [d6_example false])
    by (apply Forall_singleton; apply not_elem_of_nil).
  specialize (Ht H1 H2 H3 H4 H5).
  assert (E : (fst (@apply_patches d6state (d6_port (fun _ _ => true)) d6_example_state [d6_example false])) = 0)
    by (vm_compute; reflexivity).
  destruct (@apply_patches d6state (d6_port (fun _ _ => true)) d6_example_state [d6_example false]) as [err s'].
  cbn [fst] in E. destruct Ht as (_ & Hz & _). split; [exact E|]. exact (proj1 (Hz E)).
Defined.

Lemma d6_failed_batch_keeps_instruction_witness :
  let '(err, s') := @apply_patches d6state (d6_port (fun _ _ => true)) d6_example_state
                      [d6_example true; mk_mpatch 0x2000 0 0 None None 2 0 false] in
  err = E_PATCH_UNKNOWN_ERROR /\ d_registry s' = [reg_entry (d6_example true)] /\
  forall a, d6_dom a -> alias_rd (d_mem s') a
            = put (alias_rd (d_mem d6_example_state)) 0x1000 (new_bytes (d6_example true)) a.
Proof.
  apply (d6_failed_batch_keeps_instruction (fun _ _ => true) d6_example_state (d6_example true)
           (mk_mpatch 0x2000 0 0 None None 2 0 false)); try (vm_compute; congruence).
Defined.
