(* ===== verification/Reloc.v ===== *)
(** * Relocation of ARM code ([src/src/reloc.c])

    [reloc] copies a function of the firmware to RAM and rewrites what depends
    on the program counter: branches out of the function get a new offset, a
    load or an address computation that refers to something outside goes through
    one of 16 words in front of the copy.  The build for the camera is modelled
    ([__ARM__]); the messages are not. *)
From S2P Require Import Prelude.

Definition REG_PC : Z := 15.
Definition LOAD_MASK : Z := 0x0C000000.
Definition LOAD_INSTR : Z := 0x04000000.
Definition BRANCH_MASK : Z := 0x0F000000.
Definition BRANCH_LINK : Z := 0x0B000000.
Definition BRANCH_INSTR : Z := 0x0A000000.
Definition BRANCH_OFFSET : Z := 0x00FFFFFF.
Definition ADD_MASK : Z := 0x0DE00000.
Definition ADD_INSTR : Z := 0x00800000.

Section reloc.
(** [mem] of the code: what is added to an address of the image. *)
Context (mem_base func_offset func_end : Z).

Definition word (m : memory) (a : Z) : Z := ld32 m (u32 (mem_base + a)).

Definition inside (dest : Z) : bool := (func_offset <=? dest) && (dest <? func_end).

Definition is_branch (instr : Z) : bool :=
  (Z.land instr BRANCH_MASK =? BRANCH_LINK) || (Z.land instr BRANCH_MASK =? BRANCH_INSTR).

(** Destination of a branch at [pc]. *)
Definition branch_dest (pc instr : Z) : Z :=
  let offset := Z.land instr BRANCH_OFFSET in
  let offset := if negb (Z.land offset 0x00800000 =? 0) then Z.lor offset 0xFF000000 else offset in
  u32 (pc + u32 (Z.shiftl offset 2) + 8).

(** The branch as it is written at [new_pc]; [None] when it cannot reach. *)
Definition fix_branch (pc new_pc instr : Z) : option Z :=
  let new_jump := Z.shiftr (s32 (branch_dest pc instr - new_pc - 8)) 2 in
  if (0x00800000 <=? new_jump) || (new_jump <=? - 0x00800000) then None
  else Some (Z.lor (Z.land instr 0xFF000000) (Z.land new_jump BRANCH_OFFSET)).

Definition is_add (instr : Z) : bool := Z.land instr ADD_MASK =? ADD_INSTR.

(** The sum an [add] with an immediate makes. *)
Definition add_dest (pc instr : Z) : Z :=
  let shift := Z.shiftl (Z.land (Z.shiftr instr 8) 0xF) 1 in
  let imm := Z.land instr 0xFF in
  let offset := Z.shiftr imm shift in
  let offset := if 8 <? shift then Z.lor offset (u32 (Z.shiftl imm (32 - shift))) else offset in
  u32 (pc + 8 + offset).

Definition reg_base (instr : Z) : Z := Z.land (Z.shiftr instr 16) 0xF.
Definition reg_dest (instr : Z) : Z := Z.land (Z.shiftr instr 12) 0xF.

(** The sign bit and the distance from an instruction to its fixup word. *)
Definition fixup_offset (fixups new_pc : Z) : Z :=
  let new_offset := s32 (fixups - new_pc - 8) in
  if new_offset <? 0 then Z.land (- new_offset) 0xFFF
  else Z.lor (Z.shiftl 1 23) (Z.land new_offset 0xFFF).

Definition load_dest (pc instr : Z) : Z :=
  let offset := Z.land instr 0xFFF in
  let offset := if Z.land instr (Z.shiftl 1 23) =? 0 then - offset else offset in
  u32 (pc + offset + 8).

(** One turn of the loop: the memory and [fixups]. *)
Definition reloc_one (m : memory) (fixups pc new_pc : Z) : memory * Z :=
  let instr := word m pc in
  let m := st32 m new_pc instr in
  if is_branch instr then
    if inside (branch_dest pc instr) then (m, fixups)
    else match fix_branch pc new_pc instr with
         | None => (m, fixups)
         | Some new_instr => (st32 m new_pc new_instr, fixups)
         end
  else if is_add instr then
    if negb (reg_base instr =? REG_PC) then (m, fixups)
    else if reg_dest instr =? REG_PC then (m, fixups)
    else if Z.land instr (Z.shiftl 1 25) =? 0 then (m, fixups)
    else
      let dest := add_dest pc instr in
      if inside dest then (m, fixups)
      else
        let new_instr := Z.lor (Z.lor (Z.land instr 0xF000F000) 0x051F0000) (fixup_offset fixups new_pc) in
        (st32 (st32 m fixups dest) new_pc new_instr, u32 (fixups + 4))
  else if Z.land instr LOAD_MASK =? LOAD_INSTR then
    if negb (reg_base instr =? REG_PC) then (m, fixups)
    else
      let dest := load_dest pc instr in
      if inside dest then (m, fixups)
      else
        let data := word m dest in
        let new_instr := Z.lor (Z.land instr 0xFF7FF000) (fixup_offset fixups new_pc) in
        (st32 (st32 m fixups data) new_pc new_instr, u32 (fixups + 4))
  else (m, fixups).

Fixpoint reloc_loop (fuel : nat) (m : memory) (fixups pc new_pc : Z) : option (memory * Z) :=
  match fuel with
  | O => None
  | S fuel =>
      if pc <? func_end then
        let '(m, fixups) := reloc_one m fixups pc new_pc in
        reloc_loop fuel m fixups (u32 (pc + 4)) (u32 (new_pc + 4))
      else Some (m, fixups)
  end.
End reloc.

(** The entry point of the copy and the memory; [None] when it does not return,
    because the fixups ran into the copy. *)
Definition reloc (fuel : nat) (m : memory) (buf load_addr func_offset func_end new_pc : Z) : option (Z * memory) :=
  let mem_base := u32 (buf - load_addr) in
  let entry := u32 (new_pc + 64) in
  match reloc_loop mem_base func_offset func_end fuel m new_pc func_offset entry with
  | None => None
  | Some (m, fixups) => if s32 entry - s32 fixups <? 0 then None else Some (entry, m)
  end.
