(* ===== verification/RelocProps.v ===== *)
(** * What relocated code means

    The meaning of the instructions that depend on the program counter is given
    by the ARM architecture: a branch goes to an address, [add rd, pc, #imm] and
    [ldr rd, \[pc, #imm\]] give a register a value.  A relocated instruction must
    mean the same, with the addresses inside the function moved along.  Other
    words that read the program counter ([reads_pc]) mean something that depends
    on where they are; the rest are plain. *)
From S2P Require Import Prelude Reloc.

(** ** ARM semantics *)

Definition sext24 (imm : Z) : Z := if imm <? 2 ^ 23 then imm else imm - 2 ^ 24.

Definition arm_branch (pc instr : Z) : Z := u32 (pc + 8 + 4 * sext24 (Z.land instr 0x00FFFFFF)).

(** An immediate operand: eight bits rotated right by an even amount. *)
Definition arm_imm (instr : Z) : Z :=
  let rot := 2 * Z.land (Z.shiftr instr 8) 0xF in
  let imm := Z.land instr 0xFF in
  Z.lor (Z.shiftr imm rot) (u32 (Z.shiftl imm (32 - rot))).

Definition arm_load (pc instr : Z) : Z :=
  let offset := Z.land instr 0xFFF in
  u32 (pc + 8 + if Z.land instr (Z.shiftl 1 23) =? 0 then - offset else offset).

Definition cond (instr : Z) : Z := Z.shiftr instr 28.

(** [add rd, pc, #imm] and [ldr rd, \[pc, #imm\]]. *)
Definition is_adr (instr : Z) : bool := Z.land instr 0x0FFF0000 =? 0x028F0000.
Definition is_ldr (instr : Z) : bool := Z.land instr 0x0F7F0000 =? 0x051F0000.

(** *** Words that read the program counter in any other way

    The fields that can name register 15 as a source, by the class of the word
    (bits 27 to 25).  The test errs on the side of caution: it also holds of
    words for which the architecture leaves the use of register 15 open, and of
    [blx] and [swi], which put their own address into [lr]. *)
Definition names_pc (w pos : Z) : bool := Z.land (Z.shiftr w pos) 0xF =? REG_PC.
Definition fits (w mask value : Z) : bool := Z.land w mask =? value.
Definition any_pc (w : Z) : bool := names_pc w 0 || names_pc w 8 || names_pc w 12 || names_pc w 16.

(** Class 0: [bx], [clz], [msr] and [mrs] have ones where others have a base;
    the other words of that group and the multiplications use all four fields,
    the halfword loads and stores two or four, data processing two or three. *)
Definition reads_pc_register (w : Z) : bool :=
  if fits w 0x0FFFFFF0 0x012FFF10 || fits w 0x0FFF0FF0 0x016F0F10 || fits w 0x0FB0FFF0 0x0120F000 then names_pc w 0
  else if fits w 0x0FBF0FFF 0x010F0000 then false
  else if fits w 0x01900000 0x01000000 then any_pc w
  else if fits w 0x00000090 0x00000090 then
    if fits w 0x00000060 0 || fits w 0x00400000 0 then any_pc w else names_pc w 12 || names_pc w 16
  else if fits w 0x00000010 0 then names_pc w 0 || names_pc w 16
  else names_pc w 0 || names_pc w 8 || names_pc w 16.

(** A store also reads the register in the place of the destination. *)
Definition stores_pc (w : Z) : bool := fits w (Z.shiftl 1 20) 0 && names_pc w 12.

Definition reads_pc (w : Z) : bool :=
  match Z.land (Z.shiftr w 25) 7 with
  | 0 => reads_pc_register w
  | 1 => negb (fits w 0x0FB00000 0x03000000 || fits w 0x0FB0F000 0x0320F000) && names_pc w 16
  | 2 => names_pc w 16 || stores_pc w
  | 3 => if fits w 0x00000010 0 then names_pc w 0 || names_pc w 16 || stores_pc w else any_pc w
  | 4 => names_pc w 16 || (fits w (Z.shiftl 1 20) 0 && Z.testbit w 15)
  | 6 => names_pc w 16 || (fits w 0x0FE00000 0x0C400000 && names_pc w 12)
  | 7 => Z.testbit w 24 || (Z.testbit w 4 && stores_pc w)
  | _ => true
  end.

(** What a word does: go to an address, give a register a value, compute with
    the program counter, or something that does not depend on where it is. *)
Inductive effect :=
  | Goto (op dest : Z)
  | Give (cond rd value : Z)
  | Reads (pc instr : Z)
  | Plain (instr : Z).

Definition meaning (rd : Z -> Z) (pc instr : Z) : effect :=
  if is_branch instr then Goto (Z.shiftr instr 24) (arm_branch pc instr)
  else if is_adr instr then Give (cond instr) (reg_dest instr) (u32 (pc + 8 + arm_imm instr))
  else if is_ldr instr then Give (cond instr) (reg_dest instr) (rd (arm_load pc instr))
  else if reads_pc instr then Reads pc instr
  else Plain instr.

(** [add r0, pc, r1], [sub r0, pc, #8], [mov r0, pc], [ldrh r0, \[pc, #4\]],
    [ldrd r0, \[pc\]], [ldrb r0, \[pc, #4\]], [str pc, \[sp, #-4\]!] and
    [stmdb sp!, {r4, pc}] read the program counter; [mov r0, r1], [bx lr],
    [push {r4, lr}], [pop {r4, pc}], [mrs r0, cpsr], [msr cpsr_c, r0],
    [strh r1, \[r2, #15\]], [mul r0, r1, r2] and [mcr p15, 0, r0, c7, c10, 4]
    do not. *)
Lemma reads_pc_examples :
  forallb reads_pc [0xE08F0001; 0xE24F0008; 0xE1A0000F; 0xE1DF00B4; 0xE1CF00D0; 0xE5DF0004; 0xE52DF004; 0xE92D8010]
  && forallb (fun w => negb (reads_pc w))
       [0xE1A00001; 0xE12FFF1E; 0xE92D4010; 0xE8BD8010; 0xE10F0000; 0xE121F000; 0xE1C210BF; 0xE0000291; 0xEE070F9A]
  = true.
Proof. reflexivity. Qed.

(** ** Fields of the words written *)

Lemma land_field k n M : 0 <= n -> 0 <= k < 2 ^ n -> Z.land M (Z.ones n) = 0 -> Z.land k M = 0.
Proof.
  intros Hn Hk HM. rewrite <- (Z.mod_small k (2 ^ n)) by lia. rewrite <- Z.land_ones by lia.
  by rewrite <- Z.land_assoc, (Z.land_comm (Z.ones n)), HM, Z.land_0_r.
Qed.

Lemma shiftr_field k n s : 0 <= n <= s -> 0 <= k < 2 ^ n -> Z.shiftr k s = 0.
Proof.
  intros Hn Hk. rewrite Z.shiftr_div_pow2 by lia. apply Z.div_small.
  pose proof (Z.pow_le_mono_r 2 n s). lia.
Qed.

(** A mask on a word made of a masked word, a constant and a small field. *)
Lemma land_word w A B k n M : 0 <= n -> 0 <= k < 2 ^ n -> Z.land M (Z.ones n) = 0 ->
  Z.land (Z.lor (Z.lor (Z.land w A) B) k) M = Z.lor (Z.land w (Z.land A M)) (Z.land B M).
Proof.
  intros Hn Hk HM. rewrite !Z.land_lor_distr_l, (land_field k n M), Z.lor_0_r by done.
  by rewrite <- Z.land_assoc.
Qed.

Lemma shiftr_word w A B k n s : 0 <= n <= s -> 0 <= k < 2 ^ n ->
  Z.shiftr (Z.lor (Z.lor (Z.land w A) B) k) s
  = Z.lor (Z.land (Z.shiftr w s) (Z.shiftr A s)) (Z.shiftr B s).
Proof.
  intros Hn Hk. rewrite !Z.shiftr_lor, (shiftr_field k n s), Z.lor_0_r by done.
  by rewrite Z.shiftr_land.
Qed.

Lemma low_word w A B k n : 0 <= n -> 0 <= k < 2 ^ n ->
  Z.land A (Z.ones n) = 0 -> Z.land B (Z.ones n) = 0 ->
  Z.land (Z.lor (Z.lor (Z.land w A) B) k) (Z.ones n) = k.
Proof.
  intros Hn Hk HA HB. rewrite !Z.land_lor_distr_l, <- Z.land_assoc, HA, HB, Z.land_0_r.
  by rewrite !Z.lor_0_l, Z.land_ones, Z.mod_small by lia.
Qed.

Lemma word_word w A B k : 0 <= A < 2 ^ 32 -> 0 <= B < 2 ^ 32 -> 0 <= k < 2 ^ 32 ->
  let new_instr := Z.lor (Z.lor (Z.land w A) B) k in u32 new_instr = new_instr.
Proof.
  intros HA HB Hk. cbv zeta. unfold u32. rewrite <- Z.land_ones by lia.
  rewrite !Z.land_lor_distr_l, <- Z.land_assoc, !Z.land_ones by lia.
  by rewrite !Z.mod_small by done.
Qed.

(** ** Branches *)

Lemma sext24_bit imm : 0 <= imm < 2 ^ 24 ->
  (Z.land imm 0x00800000 =? 0) = (imm <? 2 ^ 23).
Proof.
  intros Hi. change 0x00800000 with (2 ^ 23).
  destruct (Z.ltb_spec imm (2 ^ 23)).
  - apply Z.eqb_eq. apply (land_field imm 23); [lia..|reflexivity].
  - apply Z.eqb_neq. intros E. apply (f_equal (fun x => Z.testbit x 23)) in E.
    rewrite Z.land_spec, Z.pow2_bits_true, andb_true_r, Z.bits_0 in E by lia.
    rewrite Z.testbit_false, <- (Z.div_unique imm (2 ^ 23) 1 (imm - 2 ^ 23)) in E by lia. done.
Qed.

Lemma branch_dest_arm pc instr : branch_dest pc instr = arm_branch pc instr.
Proof.
  unfold branch_dest, arm_branch, BRANCH_OFFSET, sext24.
  set (imm := Z.land instr 0x00FFFFFF).
  assert (0 <= imm < 2 ^ 24) as Hi.
  { unfold imm. change 0x00FFFFFF with (Z.ones 24). rewrite Z.land_ones by lia. apply Z.mod_pos_bound. lia. }
  rewrite sext24_bit by done. unfold u32.
  destruct (Z.ltb_spec imm (2 ^ 23)); cbn [negb].
  - rewrite Z.shiftl_mul_pow2 by lia. rewrite (Z.mod_small (imm * 2 ^ 2)) by lia. f_equal. lia.
  - rewrite Z.lor_comm. change 0xFF000000 with (0xFF * 2 ^ 24). rewrite lor_add by lia.
    rewrite Z.shiftl_mul_pow2 by lia.
    rewrite <- Z.add_assoc, (Z.add_comm _ 8), Z.add_assoc.
    rewrite Zplus_mod_idemp_r.
    replace (pc + 8 + (0xFF * 2 ^ 24 + imm) * 2 ^ 2) with (pc + 8 + 4 * (imm - 2 ^ 24) + 4 * 2 ^ 32) by lia.
    by rewrite Z_mod_plus_full.
Qed.

Lemma sext24_mod j : - 2 ^ 23 <= j < 2 ^ 23 -> sext24 (j mod 2 ^ 24) = j.
Proof.
  intros Hj. unfold sext24. destruct (Z.ltb_spec j 0).
  - rewrite <- (Z.mod_unique_pos j (2 ^ 24) (-1) (j + 2 ^ 24)) by lia.
    destruct (Z.ltb_spec (j + 2 ^ 24) (2 ^ 23)); lia.
  - rewrite Z.mod_small by lia. destruct (Z.ltb_spec j (2 ^ 23)); lia.
Qed.

(** A branch that can be rewritten keeps its operation and its destination. *)
Lemma fix_branch_meaning pc new_pc instr new_instr :
  0 <= instr < 2 ^ 32 -> pc mod 4 = 0 -> new_pc mod 4 = 0 ->
  fix_branch pc new_pc instr = Some new_instr ->
  u32 new_instr = new_instr /\ Z.shiftr new_instr 24 = Z.shiftr instr 24
  /\ is_branch new_instr = is_branch instr
  /\ arm_branch new_pc new_instr = arm_branch pc instr.
Proof.
  intros Hi Hpc Hn. unfold fix_branch. rewrite branch_dest_arm.
  set (d := arm_branch pc instr). set (x := s32 (d - new_pc - 8)).
  case_goal; [done|]. intros [= <-]. to_prop.
  rewrite Z.shiftr_div_pow2 in * by lia. set (j := x / 2 ^ 2) in *.
  unfold BRANCH_OFFSET. change 0x00FFFFFF with (Z.ones 24). rewrite (Z.land_ones j) by lia.
  set (k := j mod 2 ^ 24). assert (0 <= k < 2 ^ 24) as Hk by (apply Z.mod_pos_bound; lia).
  assert (Z.lor (Z.land instr 0xFF000000) k = Z.lor (Z.lor (Z.land instr 0xFF000000) 0) k) as ->
    by (by rewrite Z.lor_0_r).
  assert (4 * j = x) as Hj.
  { assert (x mod 4 = 0) as Hx; [|unfold j; change (2 ^ 2) with 4; Z.div_mod_to_equations; lia].
    unfold x, d, arm_branch, s32, u32. Z.div_mod_to_equations. lia. }
  split_and!.
  - apply word_word; lia.
  - rewrite (shiftr_word _ _ _ _ 24) by lia. rewrite Z.lor_0_r.
    change (Z.shiftr 0xFF000000 24) with (Z.ones 8). rewrite Z.land_ones by lia. apply Z.mod_small.
    rewrite Z.shiftr_div_pow2 by lia. Z.div_mod_to_equations. lia.
  - unfold is_branch, BRANCH_MASK. rewrite (land_word _ _ _ _ 24) by (lia || reflexivity). by rewrite Z.lor_0_r.
  - unfold arm_branch at 1. change 0x00FFFFFF with (Z.ones 24).
    rewrite low_word by (lia || reflexivity). unfold k. rewrite sext24_mod by lia. rewrite Hj.
    unfold x, s32, u32. rewrite <- (Z.mod_small d (2 ^ 32)) at 2 by apply u32_range.
    Z.div_mod_to_equations. lia.
Qed.

(** ** Words that go through a fixup *)

(** The copy lies behind its fixup words, less than a page away. *)
Lemma fixup_offset_back fixups new_pc : 0 <= fixups <= new_pc -> new_pc + 8 - fixups < 4096 ->
  fixup_offset fixups new_pc = new_pc + 8 - fixups.
Proof.
  intros Hf Hd. unfold fixup_offset. rewrite s32_small by lia.
  destruct (Z.ltb_spec (fixups - new_pc - 8) 0); [|lia].
  change 0xFFF with (Z.ones 12). rewrite Z.land_ones, Z.mod_small by lia. lia.
Qed.

(** However far away it is, the distance is cut to twelve bits. *)
Lemma fixup_offset_range fixups new_pc : 0 <= fixups <= new_pc -> new_pc + 8 < 2 ^ 31 ->
  0 <= fixup_offset fixups new_pc < 4096.
Proof.
  intros Hf Hd. unfold fixup_offset. rewrite s32_small by lia.
  destruct (Z.ltb_spec (fixups - new_pc - 8) 0); [|lia].
  change 0xFFF with (Z.ones 12). rewrite Z.land_ones by lia. apply Z.mod_pos_bound. lia.
Qed.

(** Any word with the fields of [ldr rd, \[pc, #-k\]] means the load of its slot. *)
Lemma slot_meaning rd w A B fixups new_pc :
  let k := new_pc + 8 - fixups in
  let new_instr := Z.lor (Z.lor (Z.land w A) B) k in
  0 <= fixups <= new_pc -> fixups < 2 ^ 32 -> k < 4096 -> 0 <= A < 2 ^ 32 -> 0 <= B < 2 ^ 32 ->
  Z.land A 0x00800FFF = 0 -> Z.land B 0x00800FFF = 0 ->
  Z.land new_instr 0x0F7F0000 = 0x051F0000 ->
  meaning rd new_pc new_instr = Give (cond new_instr) (reg_dest new_instr) (rd fixups).
Proof.
  intros k new_instr Hf Hb Hk HA HB ZA ZB Hi.
  assert (0 <= k < 2 ^ 12) as Hk12 by (unfold k in *; lia).
  assert (forall M, Z.land 0x0F7F0000 M = M -> Z.land new_instr M = Z.land 0x051F0000 M) as Sub.
  { intros M HM. rewrite <- HM at 1. by rewrite Z.land_assoc, Hi. }
  assert (forall X, Z.land X 0x00800FFF = 0 -> Z.land X 0xFFF = 0 /\ Z.land X (Z.shiftl 1 23) = 0) as Z2.
  { intros X HX. split.
    - change 0xFFF with (Z.land 0x00800FFF 0xFFF). by rewrite Z.land_assoc, HX.
    - change (Z.shiftl 1 23) with (Z.land 0x00800FFF (Z.shiftl 1 23)). by rewrite Z.land_assoc, HX. }
  destruct (Z2 A ZA) as [A1 A2], (Z2 B ZB) as [B1 B2].
  unfold meaning, is_branch, BRANCH_MASK. rewrite (Sub 0x0F000000) by reflexivity. cbn [orb].
  assert (is_adr new_instr = false) as ->.
  { unfold is_adr. apply Z.eqb_neq. intros E. apply (f_equal (fun x => Z.land x 0x0F000000)) in E.
    rewrite <- Z.land_assoc in E. change (Z.land 0x0FFF0000 0x0F000000) with 0x0F000000 in E.
    rewrite Sub in E by reflexivity. done. }
  unfold is_ldr. rewrite Hi. cbn. f_equal. f_equal. unfold arm_load.
  change 0xFFF with (Z.ones 12) in *. unfold new_instr at 2. rewrite low_word by (lia || done).
  unfold new_instr. rewrite (land_word _ _ _ _ 12) by (lia || done).
  rewrite A2, B2, Z.land_0_r. change (Z.lor 0 0 =? 0) with true. cbv iota.
  replace (new_pc + 8 + - k) with fixups by (unfold k; lia). apply u32_small. lia.
Qed.

Lemma reg_dest_word w A B k : 0 <= k < 2 ^ 12 ->
  Z.land (Z.shiftr A 12) 0xF = 0xF -> Z.land (Z.shiftr B 12) 0xF = 0 ->
  reg_dest (Z.lor (Z.lor (Z.land w A) B) k) = reg_dest w.
Proof.
  intros Hk HA HB. unfold reg_dest. rewrite (shiftr_word _ _ _ _ 12) by lia.
  by rewrite Z.land_lor_distr_l, <- Z.land_assoc, HA, HB, Z.lor_0_r.
Qed.

Lemma cond_word w A B k : 0 <= w < 2 ^ 32 -> 0 <= k < 2 ^ 12 ->
  Z.shiftr A 28 = 0xF -> Z.shiftr B 28 = 0 ->
  cond (Z.lor (Z.lor (Z.land w A) B) k) = cond w.
Proof.
  intros Hw Hk HA HB. unfold cond. rewrite (shiftr_word _ _ _ _ 12), HA, HB, Z.lor_0_r by lia.
  change 0xF with (Z.ones 4). rewrite Z.land_ones by lia. apply Z.mod_small.
  rewrite Z.shiftr_div_pow2 by lia. Z.div_mod_to_equations. lia.
Qed.

(** ** [add] *)

(** The rotations the code computes as the processor does. *)
Definition rot_ok (instr : Z) : bool := (Z.land (Z.shiftr instr 8) 0xF =? 0) || (4 <? Z.land (Z.shiftr instr 8) 0xF)
  || (Z.land instr 0xFF mod 2 ^ (2 * Z.land (Z.shiftr instr 8) 0xF) =? 0).

Lemma add_dest_arm pc instr : rot_ok instr = true -> add_dest pc instr = u32 (pc + 8 + arm_imm instr).
Proof.
  unfold rot_ok, add_dest, arm_imm. set (r := Z.land (Z.shiftr instr 8) 0xF). set (imm := Z.land instr 0xFF).
  assert (0 <= r < 16) as Hr.
  { unfold r. change 0xF with (Z.ones 4). rewrite Z.land_ones by lia. apply Z.mod_pos_bound. lia. }
  assert (0 <= imm < 256) as Hi.
  { unfold imm. change 0xFF with (Z.ones 8). rewrite Z.land_ones by lia. apply Z.mod_pos_bound. lia. }
  rewrite (Z.shiftl_mul_pow2 r 1) by lia. replace (r * 2 ^ 1) with (2 * r) by lia.
  intros H. destruct (Z.ltb_spec 8 (2 * r)); [done|].
  assert (u32 (Z.shiftl imm (32 - 2 * r)) = 0) as ->; [|by rewrite Z.lor_0_r].
  unfold u32. rewrite Z.shiftl_mul_pow2 by lia.
  assert (imm mod 2 ^ (2 * r) = 0) as Hm.
  { apply orb_prop in H as [H|H]; [apply orb_prop in H as [H|H]|]; to_prop; [|lia|done].
    rewrite H. apply Z.mod_1_r. }
  apply Z.mod_divide in Hm as [q ->]; [|pose proof (Z.pow_pos_nonneg 2 (2 * r)); lia].
  rewrite <- Z.mul_assoc, <- Z.pow_add_r by lia.
  replace (2 * r + (32 - 2 * r)) with 32 by lia. apply Z.mod_mul. lia.
Qed.
