(* ===== verification/RelocTheorems.v ===== *)
(** * Correctness of [reloc]

    [reloc] returns exactly when the function needs at most 16 fixup words, it
    writes nowhere but in its buffer, and every instruction it supports means in
    the copy what it meant in the firmware. *)
From S2P Require Import Prelude Reloc RelocProps.

Section move.
Context (mem_base func_offset func_end : Z).
#[local] Abbreviation word := (word mem_base).
#[local] Abbreviation inside := (inside func_offset func_end).

(** The instructions that take a fixup word, and what it holds. *)
Definition needs_slot (pc w : Z) : bool :=
  if is_branch w then false
  else if is_add w then
    (reg_base w =? REG_PC) && negb (reg_dest w =? REG_PC) && negb (Z.land w (Z.shiftl 1 25) =? 0)
    && negb (inside (add_dest pc w))
  else (Z.land w LOAD_MASK =? LOAD_INSTR) && (reg_base w =? REG_PC) && negb (inside (load_dest pc w)).

Definition slot_value (m : memory) (pc w : Z) : Z :=
  if is_add w then add_dest pc w else word m (load_dest pc w).

(** The word [reloc] leaves at [new_pc]. *)
Definition new_word (pc new_pc fixups w : Z) : Z :=
  if is_branch w then
    if inside (branch_dest pc w) then w else default w (fix_branch pc new_pc w)
  else if needs_slot pc w then
    if is_add w then Z.lor (Z.lor (Z.land w 0xF000F000) 0x051F0000) (fixup_offset fixups new_pc)
    else Z.lor (Z.land w 0xFF7FF000) (fixup_offset fixups new_pc)
  else w.

(** What one turn does: the fixup word, if any, then the word of the copy. *)
Lemma reloc_one_spec m fixups pc new_pc : fixups + 4 <= new_pc ->
  let w := word m pc in
  let r := reloc_one mem_base func_offset func_end m fixups pc new_pc in
  r.2 = (if needs_slot pc w then u32 (fixups + 4) else fixups)
  /\ mem_eq r.1
       (st32 (if needs_slot pc w then st32 m fixups (slot_value (st32 m new_pc w) pc w) else m)
             new_pc (new_word pc new_pc fixups w)).
Proof.
  intros Hsep w r.
  assert (forall d v, mem_eq (st32 (st32 (st32 m new_pc w) fixups d) new_pc v) (st32 (st32 m fixups d) new_pc v)) as Hcom.
  { intros d v b. rewrite !rd8_st. repeat case_decide; try done; lia. }
  unfold r, reloc_one, new_word, needs_slot, slot_value. fold w.
  destruct (is_branch w).
  { destruct (inside _); [done|]. destruct (fix_branch _ _ _); cbn; split; try done. apply st_st_same. }
  destruct (is_add w).
  - destruct (reg_base w =? REG_PC); [|done]. destruct (reg_dest w =? REG_PC); [done|].
    destruct (Z.land w (Z.shiftl 1 25) =? 0); [done|]. destruct (inside _); [done|]. by split; [|apply Hcom].
  - destruct (Z.land w LOAD_MASK =? LOAD_INSTR); [|done]. destruct (reg_base w =? REG_PC); [|done].
    destruct (inside _); [done|]. by split; [|apply Hcom].
Qed.
End move.

(** ** The loop *)

(** A function of [n] words at [start] in an image that starts [mem_base] away,
    and a buffer at [dst]: aligned, in range, and apart from whatever a load of
    the function can reach. *)
Record placed (mem_base start : Z) (n : nat) (dst : Z) : Prop := {
  placed_start : start mod 4 = 0;
  placed_low : 4096 <= start;
  placed_high : start + 4 * Z.of_nat n + 4104 <= 2 ^ 32;
  placed_dst : dst mod 4 = 0;
  placed_ram : 0 <= dst /\ dst + 64 + 4 * Z.of_nat n + 8 < 2 ^ 31;
  placed_apart : forall a, start - 4096 <= a < start + 4 * Z.of_nat n + 4104 ->
    u32 (mem_base + a) + 4 <= dst \/ dst + 64 + 4 * Z.of_nat n <= u32 (mem_base + a);
}.

Section loop.
Context (mem_base start : Z) (n : nat) (dst : Z) (m0 : memory) (P : placed mem_base start n dst).
#[local] Abbreviation word := (word mem_base).
#[local] Abbreviation func_end := (start + 4 * Z.of_nat n).
#[local] Abbreviation entry := (dst + 64).
#[local] Abbreviation old i := (start + 4 * Z.of_nat i).
#[local] Abbreviation new i := (dst + 64 + 4 * Z.of_nat i).
#[local] Abbreviation instr i := (word m0 (start + 4 * Z.of_nat i)).
#[local] Abbreviation needs i := (needs_slot start func_end (start + 4 * Z.of_nat i) (word m0 (start + 4 * Z.of_nat i))).

(** Fixup words taken by the first [k] instructions. *)
Fixpoint slots (k : nat) : nat :=
  match k with
  | O => 0
  | S k => slots k + (if needs k then 1 else 0)
  end.

Lemma slots_le k : (slots k <= k)%nat.
Proof using. induction k as [|k IH]; cbn; [done|]. destruct (needs k); lia. Qed.

Lemma slots_mono i k : (i <= k)%nat -> (slots i <= slots k)%nat.
Proof using. induction 1; cbn; [done|]. destruct (needs _); lia. Qed.

Lemma slots_lt i k : (i < k)%nat -> needs i = true -> (slots i < slots k)%nat.
Proof using.
  intros Hi Hn. pose proof (slots_mono (S i) k ltac:(lia)) as H. cbn in H. rewrite Hn in H. lia.
Qed.

(** The memory and [fixups] after [k] turns. *)
Fixpoint after (k : nat) : memory * Z :=
  match k with
  | O => (m0, dst)
  | S k => reloc_one mem_base start func_end (after k).1 (after k).2 (old k) (new k)
  end.

(** The image is not touched while only the buffer is. *)
Definition elsewhere (m : memory) : Prop :=
  forall b, b < dst \/ dst + 64 + 4 * Z.of_nat n <= b -> rd8 m b = rd8 m0 b.

Lemma elsewhere_word m a : elsewhere m -> start - 4096 <= a < func_end + 4104 -> word m a = word m0 a.
Proof using P.
  intros E Ha. apply ld_ext. intros b Hb. apply E.
  pose proof (placed_apart _ _ _ _ P a Ha). lia.
Qed.

Lemma elsewhere_st m a v : elsewhere m -> dst <= a -> a + 4 <= dst + 64 + 4 * Z.of_nat n -> elsewhere (st32 m a v).
Proof using. intros E H1 H2 b Hb. rewrite rd8_st_out by lia. by apply E. Qed.

Lemma load_dest_reach i w : (i < n)%nat -> start - 4096 <= load_dest (old i) w < func_end + 4104.
Proof using P.
  intros Hi. unfold load_dest. pose proof (placed_low _ _ _ _ P). pose proof (placed_high _ _ _ _ P).
  assert (0 <= Z.land w 0xFFF < 4096).
  { change 0xFFF with (Z.ones 12). rewrite Z.land_ones by lia. apply Z.mod_pos_bound. lia. }
  rewrite u32_small by (case_match; lia). case_match; lia.
Qed.

(** One turn, read in the original image. *)
Lemma after_S k : (k < n)%nat -> elsewhere (after k).1 -> (after k).2 = dst + 4 * Z.of_nat (slots k) ->
  (after (S k)).2 = dst + 4 * Z.of_nat (slots (S k))
  /\ mem_eq (after (S k)).1
       (st32 (if needs k then st32 (after k).1 (dst + 4 * Z.of_nat (slots k))
                                (slot_value mem_base m0 (old k) (instr k)) else (after k).1)
             (new k) (new_word start func_end (old k) (new k) (dst + 4 * Z.of_nat (slots k)) (instr k))).
Proof using P.
  intros Hk E F. pose proof (slots_le k). pose proof (placed_ram _ _ _ _ P).
  pose proof (reloc_one_spec mem_base start func_end (after k).1 (after k).2 (old k) (new k)) as S1.
  cbv zeta in S1. rewrite F, (elsewhere_word (after k).1 (old k) E) in S1 by lia.
  destruct S1 as [S1 S2]; [lia|]. cbn [after slots]. rewrite F. split.
  - rewrite S1. destruct (needs k); [rewrite u32_small|]; lia.
  - rewrite S2. destruct (needs k); [|done].
    assert (slot_value mem_base (st32 (after k).1 (new k) (instr k)) (old k) (instr k)
            = slot_value mem_base m0 (old k) (instr k)) as ->; [|done].
    unfold slot_value. destruct (is_add (instr k)); [done|].
    apply elsewhere_word; [apply elsewhere_st; [done|lia..]|by apply load_dest_reach].
Qed.

Lemma after_frame k : (k <= n)%nat ->
  elsewhere (after k).1 /\ (after k).2 = dst + 4 * Z.of_nat (slots k).
Proof using P.
  induction k as [|k IH]; intros Hk; [by split; [|cbn; lia]|].
  destruct IH as [E F]; [lia|]. destruct (after_S k) as [F' M]; [lia|done..|]. split; [|done].
  pose proof (slots_le k). intros b Hb. rewrite M.
  apply elsewhere_st; [|lia..|done]. destruct (needs k); [apply elsewhere_st; [done|lia..]|done].
Qed.

(** The words of the copy, and the fixups, as long as these fit. *)
Lemma after_words k i : (k <= n)%nat -> (slots k <= 16)%nat -> (i < k)%nat ->
  ld32 (after k).1 (new i) = u32 (new_word start func_end (old i) (new i) (dst + 4 * Z.of_nat (slots i)) (instr i))
  /\ (needs i = true ->
      ld32 (after k).1 (dst + 4 * Z.of_nat (slots i)) = u32 (slot_value mem_base m0 (old i) (instr i))).
Proof using P.
  induction k as [|k IH]; intros Hk Hs Hi; [lia|].
  pose proof (slots_mono k (S k) ltac:(lia)).
  destruct (after_frame k) as [E F]; [lia|]. destruct (after_S k) as [_ M]; [lia|done..|].
  destruct (decide (i = k)) as [->|Hne].
  - split; [rewrite M; apply ld32_st32_same|]. intros Hn.
    pose proof (slots_lt k (S k) ltac:(lia) Hn).
    rewrite M, Hn, ld_st_out by lia. apply ld32_st32_same.
  - destruct IH as [I1 I2]; [lia..|].
    assert (needs k = true -> (slots k < 16)%nat) as Hlt
      by (intros Hn; pose proof (slots_lt k (S k) ltac:(lia) Hn); lia).
    split.
    + rewrite M, ld_st_out by lia. destruct (needs k); [|done].
      specialize (Hlt eq_refl). rewrite ld_st_out by lia. done.
    + intros Hn. pose proof (slots_lt i k ltac:(lia) Hn). rewrite M, ld_st_out by lia.
      destruct (needs k); [|by apply I2]. rewrite ld_st_out by lia. by apply I2.
Qed.

(** The loop makes [n] turns. *)
Lemma loop_after fuel k : (k <= n)%nat -> (n - k < fuel)%nat ->
  reloc_loop mem_base start func_end fuel (after k).1 (after k).2 (old k) (new k) = Some (after n).
Proof using P.
  pose proof (placed_high _ _ _ _ P). pose proof (placed_ram _ _ _ _ P). pose proof (placed_low _ _ _ _ P).
  revert k. induction fuel as [|fuel IH]; intros k Hk Hf; [lia|]. cbn [reloc_loop].
  destruct (Z.ltb_spec (old k) func_end).
  - destruct (reloc_one _ _ _ _ _ _ _) as [m f] eqn:E.
    rewrite !u32_small by lia. replace (old k + 4) with (old (S k)) by lia. replace (new k + 4) with (new (S k)) by lia.
    specialize (IH (S k) ltac:(lia) ltac:(lia)). cbn [after] in IH. by rewrite E in IH.
  - assert (k = n) as -> by lia. by destruct (after n).
Qed.
End loop.

(** ** Classes of instructions *)

Lemma sub_mask w M V M' : Z.land w M = V -> Z.land M M' = M' -> Z.land w M' = Z.land V M'.
Proof. intros <- HM. rewrite <- Z.land_assoc. by rewrite HM. Qed.

Lemma reg_base_mask w M V : Z.land w M = V -> Z.land M 0x000F0000 = 0x000F0000 ->
  reg_base w = Z.land (Z.shiftr V 16) 0xF.
Proof.
  intros <- HM. unfold reg_base. rewrite Z.shiftr_land, <- Z.land_assoc.
  assert (Z.land (Z.shiftr M 16) 0xF = 0xF) as ->; [|done].
  change 0xF with (Z.shiftr 0x000F0000 16) at 2. rewrite <- HM, Z.shiftr_land. done.
Qed.

Lemma adr_class w : is_adr w = true ->
  is_branch w = false /\ is_add w = true /\ reg_base w = REG_PC /\ (Z.land w (Z.shiftl 1 25) =? 0) = false.
Proof.
  unfold is_adr. intros H%Z.eqb_eq. unfold is_branch, is_add, BRANCH_MASK, ADD_MASK.
  rewrite (reg_base_mask _ _ _ H) by reflexivity.
  rewrite (sub_mask _ _ _ 0x0F000000 H), (sub_mask _ _ _ 0x0DE00000 H), (sub_mask _ _ _ (Z.shiftl 1 25) H) by reflexivity.
  done.
Qed.

Lemma ldr_class w : is_ldr w = true ->
  is_branch w = false /\ is_adr w = false /\ is_add w = false /\ Z.land w LOAD_MASK = LOAD_INSTR /\ reg_base w = REG_PC.
Proof.
  unfold is_ldr. intros H%Z.eqb_eq. split_and!.
  - unfold is_branch, BRANCH_MASK. by rewrite (sub_mask _ _ _ 0x0F000000 H) by reflexivity.
  - destruct (is_adr w) eqn:E; [|done]. unfold is_adr in E. apply Z.eqb_eq in E.
    pose proof (sub_mask _ _ _ 0x0F000000 E eq_refl) as H1.
    rewrite (sub_mask _ _ _ 0x0F000000 H) in H1 by reflexivity. done.
  - destruct (is_add w) eqn:E; [|done]. unfold is_add in E. apply Z.eqb_eq in E.
    pose proof (sub_mask _ _ _ 0x0C000000 E eq_refl) as H1.
    rewrite (sub_mask _ _ _ 0x0C000000 H) in H1 by reflexivity. done.
  - unfold LOAD_MASK. by rewrite (sub_mask _ _ _ 0x0C000000 H) by reflexivity.
  - by rewrite (reg_base_mask _ _ _ H) by reflexivity.
Qed.

(** ** Meaning *)

Section meaning.
Context (mem_base start : Z) (n : nat) (dst : Z) (m0 : memory) (P : placed mem_base start n dst).
#[local] Abbreviation word := (word mem_base).
#[local] Abbreviation func_end := (start + 4 * Z.of_nat n).
#[local] Abbreviation inside := (inside start func_end).
#[local] Abbreviation old i := (start + 4 * Z.of_nat i).
#[local] Abbreviation new i := (dst + 64 + 4 * Z.of_nat i).
#[local] Abbreviation instr i := (word m0 (start + 4 * Z.of_nat i)).
#[local] Abbreviation slots := (slots mem_base start n m0).

(** Where an address of the firmware is after the move. *)
Definition map_addr (a : Z) : Z := if inside a then a - start + (dst + 64) else a.

(** What the instruction should mean in the copy. *)
Definition moved (pc w : Z) : effect :=
  if is_branch w then Goto (Z.shiftr w 24) (map_addr (arm_branch pc w))
  else if is_adr w then Give (cond w) (reg_dest w) (map_addr (u32 (pc + 8 + arm_imm w)))
  else if is_ldr w then Give (cond w) (reg_dest w) (word m0 (arm_load pc w))
  else if reads_pc w then Reads pc w
  else Plain w.

(** The copy of this word is the word. *)
Definition verbatim (pc w : Z) : bool :=
  if is_branch w then inside (branch_dest pc w) else negb (needs_slot start func_end pc w).

(** The fixup word of the instruction at [pc] is in reach of a load in its
    copy. *)
Definition slot_reached (pc : Z) : bool :=
  pc - start + 72 - 4 * Z.of_nat (slots (Z.to_nat ((pc - start) / 4))) <? 4096.

(** The instructions [reloc] handles: conditional ones (the architecture gives
    the words with condition 15 other meanings), branches in reach, [add] with a
    destination other than the program counter and a rotation computed right,
    loads whose word, when it is inside, is not changed as if it were code, and
    words that do not read the program counter.  An [add] or a load that refers
    outside the function needs its fixup word in reach. *)
Definition supported (pc new_pc w : Z) : bool :=
  negb (cond w =? 15) &&
  if is_branch w then
    inside (branch_dest pc w) || match fix_branch pc new_pc w with Some _ => true | None => false end
  else if is_adr w then
    negb (reg_dest w =? REG_PC) && rot_ok w && (inside (u32 (pc + 8 + arm_imm w)) || slot_reached pc)
  else if is_ldr w then
    let a := arm_load pc w in
    if inside a then (a mod 4 =? 0) && verbatim a (word m0 a) else slot_reached pc
  else negb (reads_pc w) && negb (needs_slot start func_end pc w).

Lemma load_dest_arm pc w : load_dest pc w = arm_load pc w.
Proof using. unfold load_dest, arm_load. f_equal. lia. Qed.

(** A reference into the function moves with the instruction that makes it. *)
Lemma inside_moves i x : inside (u32 (old i + 8 + x)) = true -> u32 (new i + 8 + x) = map_addr (u32 (old i + 8 + x)).
Proof using P.
  intros Hin. unfold map_addr. rewrite Hin. unfold Reloc.inside in Hin. to_prop.
  pose proof (placed_ram _ _ _ _ P).
  rewrite <- (u32_small (u32 (old i + 8 + x) - start + (dst + 64))) by lia.
  unfold u32. rewrite <- Z.add_sub_swap, <- Z.add_sub_assoc, Zplus_mod_idemp_l. f_equal. lia.
Qed.

Lemma new_word_u32 i : (i < n)%nat -> (slots n <= 16)%nat ->
  let nw := new_word start func_end (old i) (new i) (dst + 4 * Z.of_nat (slots i)) (instr i) in u32 nw = nw.
Proof using P.
  intros Hi Hs. pose proof (ld32_range m0 (u32 (mem_base + old i))) as Hw. cbv zeta.
  unfold new_word, Reloc.word.
  pose proof (placed_ram _ _ _ _ P). pose proof (slots_mono mem_base start n m0 i n ltac:(lia)).
  pose proof (fixup_offset_range (dst + 4 * Z.of_nat (slots i)) (new i) ltac:(lia) ltac:(lia)) as Hk.
  case_goal.
  - case_goal; [by apply u32_small|].
    destruct (fix_branch _ _ _) as [nw|] eqn:E; cbn; [|by apply u32_small].
    apply fix_branch_meaning in E; [tauto|done|..].
    + pose proof (placed_start _ _ _ _ P). Z.div_mod_to_equations. lia.
    + pose proof (placed_dst _ _ _ _ P). Z.div_mod_to_equations. lia.
  - case_goal; [|by apply u32_small].
    case_goal; [apply word_word; lia|].
    rewrite <- (Z.lor_0_r (Z.land _ 0xFF7FF000)). apply word_word; lia.
Qed.

(** The four kinds, for a word [w] of the firmware at [old i]. *)
Section kinds.
Context (m : memory) (i : nat) (Hi : (i < n)%nat) (Hfit : (slots n <= 16)%nat).
(** The words of the copy that are as [reloc] left them: the instruction, and
    what it loads from inside the function. *)
Context (kept : nat -> Prop) (Hki : kept i) (Hkl : forall j, arm_load (old i) (instr i) = old j -> kept j).
Context (Hwords : forall j, (j < n)%nat -> kept j ->
  ld32 m (new j) = new_word start func_end (old j) (new j) (dst + 4 * Z.of_nat (slots j)) (instr j)).
Context (Hslots : forall j, (j < n)%nat -> needs_slot start func_end (old j) (instr j) = true ->
  ld32 m (dst + 4 * Z.of_nat (slots j)) = slot_value mem_base m0 (old j) (instr j)).

Lemma instr_range j : 0 <= instr j < 2 ^ 32.
Proof using. apply ld32_range. Qed.

Lemma slot_near : 0 <= dst + 4 * Z.of_nat (slots i) <= new i /\ new i < 2 ^ 31
  /\ (slot_reached (old i) = true -> new i + 8 - (dst + 4 * Z.of_nat (slots i)) < 4096).
Proof using P Hi Hfit.
  pose proof (placed_ram _ _ _ _ P). pose proof (slots_mono mem_base start n m0 i n ltac:(lia)).
  split_and!; [lia..|]. unfold slot_reached. replace (Z.to_nat ((old i - start) / 4)) with i by (Z.div_mod_to_equations; lia).
  intros Hk%Z.ltb_lt. lia.
Qed.

Lemma moved_branch : is_branch (instr i) = true -> supported (old i) (new i) (instr i) = true ->
  meaning (ld32 m) (new i) (ld32 m (new i)) = moved (old i) (instr i).
Proof using P Hi Hfit Hki Hwords.
  intros Hb Hs. rewrite Hwords by done. unfold moved, supported, new_word in Hs |- *. rewrite Hb in Hs |- *.
  rewrite branch_dest_arm in Hs |- *. to_prop.
  destruct (inside (arm_branch (old i) (instr i))) eqn:Hin.
  - unfold meaning. rewrite Hb. f_equal. revert Hin. unfold arm_branch.
    by apply inside_moves.
  - destruct (fix_branch (old i) (new i) (instr i)) as [nw|] eqn:E; [|done]. cbn.
    apply fix_branch_meaning in E as (_ & E1 & E2 & E3); [|apply instr_range|..].
    + unfold meaning, map_addr. by rewrite E2, Hb, E1, E3, Hin.
    + pose proof (placed_start _ _ _ _ P). Z.div_mod_to_equations. lia.
    + pose proof (placed_dst _ _ _ _ P). Z.div_mod_to_equations. lia.
Qed.

Lemma moved_adr : is_adr (instr i) = true -> supported (old i) (new i) (instr i) = true ->
  meaning (ld32 m) (new i) (ld32 m (new i)) = moved (old i) (instr i).
Proof using P Hi Hfit Hki Hkl Hwords Hslots.
  intros Ha Hs. pose proof (Hslots i Hi) as Hslot. rewrite Hwords by done.
  destruct (adr_class _ Ha) as (C1 & C2 & C3 & C4). destruct slot_near as (N1 & N2 & N3).
  unfold moved, supported, new_word, slot_value, needs_slot in Hs, Hslot |- *.
  rewrite C1, Ha in Hs. rewrite C1, C2, C3, C4 in Hslot |- *. rewrite Ha. to_prop.
  rewrite add_dest_arm in Hslot |- * by done.
  assert ((reg_dest (instr i) =? REG_PC) = false) as Hrd by (by apply Z.eqb_neq). rewrite Hrd in Hslot |- *.
  cbn [Z.eqb REG_PC Pos.eqb negb andb] in Hslot |- *.
  destruct (inside (u32 (old i + 8 + arm_imm (instr i)))) eqn:Hin; cbn [negb] in Hslot |- *.
  - unfold meaning. rewrite C1, Ha. f_equal. revert Hin. by apply inside_moves.
  - cbn [orb] in *. specialize (N3 ltac:(assumption)). rewrite fixup_offset_back by lia.
    rewrite slot_meaning; [|lia..|reflexivity|reflexivity|].
    + rewrite cond_word, reg_dest_word by (apply instr_range || lia || reflexivity).
      rewrite Hslot by done. unfold map_addr. by rewrite Hin.
    + rewrite (land_word _ _ _ _ 12) by (lia || reflexivity). by rewrite Z.land_0_r.
Qed.

Lemma moved_ldr : is_ldr (instr i) = true -> supported (old i) (new i) (instr i) = true ->
  meaning (ld32 m) (new i) (ld32 m (new i)) = moved (old i) (instr i).
Proof using P Hi Hfit Hki Hkl Hwords Hslots.
  intros Hl Hs. pose proof (Hslots i Hi) as Hslot. rewrite Hwords by done.
  destruct (ldr_class _ Hl) as (C1 & C2 & C3 & C4 & C5). destruct slot_near as (N1 & N2 & N3).
  unfold moved, supported, new_word, slot_value, needs_slot in Hs, Hslot |- *.
  rewrite C1, C2, Hl in Hs. rewrite C1, C3, C4, C5, load_dest_arm in Hslot |- *. rewrite C2, Hl. to_prop.
  cbn [Z.eqb LOAD_INSTR REG_PC Pos.eqb negb andb] in Hslot |- *.
  destruct (inside (arm_load (old i) (instr i))) eqn:Hin; cbn [negb orb] in *.
  - to_prop. unfold meaning. rewrite C1, C2, Hl. f_equal.
    assert (arm_load (new i) (instr i) = map_addr (arm_load (old i) (instr i))) as ->.
    { revert Hin. unfold arm_load. by apply inside_moves. }
    unfold map_addr. rewrite Hin. unfold Reloc.inside in Hin. to_prop.
    set (a := arm_load (old i) (instr i)) in *. pose proof (placed_start _ _ _ _ P).
    pose (j := Z.to_nat ((a - start) / 4)).
    assert (a = old j) as Ej by (unfold j; Z.div_mod_to_equations; lia).
    assert (j < n)%nat as Hj by lia.
    rewrite Ej. replace (old j - start + (dst + 64)) with (new j) by lia. rewrite Hwords by (done || by apply Hkl).
    unfold new_word. match goal with H : verbatim _ _ = true |- _ => unfold verbatim in H; rewrite Ej in H; revert H end.
    destruct (is_branch (instr j)); [by intros ->|]. by intros ->%negb_true_iff.
  - specialize (N3 ltac:(assumption)). rewrite fixup_offset_back by lia. rewrite <- (Z.lor_0_r (Z.land _ 0xFF7FF000)).
    rewrite slot_meaning; [|lia..|reflexivity|reflexivity|].
    + rewrite cond_word, reg_dest_word by (apply instr_range || lia || reflexivity). by rewrite Hslot.
    + rewrite (land_word _ _ _ _ 12) by (lia || reflexivity). rewrite Z.lor_0_r.
      unfold is_ldr in Hl. by apply Z.eqb_eq in Hl.
Qed.

Lemma moved_any : supported (old i) (new i) (instr i) = true ->
  meaning (ld32 m) (new i) (ld32 m (new i)) = moved (old i) (instr i).
Proof using P Hi Hfit Hki Hkl Hwords Hslots.
  intros Hs. destruct (is_branch (instr i)) eqn:Hb; [by apply moved_branch|].
  destruct (is_adr (instr i)) eqn:Ha; [by apply moved_adr|].
  destruct (is_ldr (instr i)) eqn:Hl; [by apply moved_ldr|].
  rewrite Hwords by done. unfold moved, supported, new_word, meaning in Hs |- *. rewrite Hb, Ha, Hl in Hs |- *. to_prop.
  match goal with H : reads_pc _ = false, H' : needs_slot _ _ _ _ = false |- _ => rewrite H', Hb, Ha, Hl, H end.
  done.
Qed.
End kinds.
End meaning.

(** What [reloc] leaves in its buffer. *)
Lemma reloc_result (fuel : nat) (m : memory) (buf load_addr start : Z) (n : nat) (dst : Z) :
  let mem_base := u32 (buf - load_addr) in
  let func_end := start + 4 * Z.of_nat n in
  let slot j := dst + 4 * Z.of_nat (slots mem_base start n m j) in
  let old j := start + 4 * Z.of_nat j in
  let instr j := word mem_base m (old j) in
  placed mem_base start n dst -> (n < fuel)%nat ->
  match reloc fuel m buf load_addr start func_end dst with
  | Some (entry, m') =>
      (slots mem_base start n m n <= 16)%nat /\ entry = dst + 64 /\ elsewhere n dst m m'
      /\ (forall j, (j < n)%nat -> ld32 m' (dst + 64 + 4 * Z.of_nat j)
            = new_word start func_end (old j) (dst + 64 + 4 * Z.of_nat j) (slot j) (instr j))
      /\ forall j, (j < n)%nat -> needs_slot start func_end (old j) (instr j) = true ->
            ld32 m' (slot j) = slot_value mem_base m (old j) (instr j)
  | None => (16 < slots mem_base start n m n)%nat
  end.
Proof.
  intros mem_base func_end slot old instr P Hf. pose proof (placed_ram _ _ _ _ P).
  unfold reloc. fold mem_base. rewrite (u32_small (dst + 64)) by lia.
  pose proof (loop_after mem_base start n dst m P fuel 0 ltac:(lia) ltac:(lia)) as L.
  cbn [after fst snd] in L. rewrite Z.mul_0_r, !Z.add_0_r in L. fold func_end in L. rewrite L.
  destruct (after_frame mem_base start n dst m P n) as [E F]; [done|].
  pose proof (slots_le mem_base start n m n).
  pose proof (after_words mem_base start n dst m P n) as W.
  destruct (after mem_base start n dst m n) as [m' f]. cbn [fst snd] in *. subst f.
  rewrite !s32_small by lia. case_goal; to_prop; [lia|].
  assert (slots mem_base start n m n <= 16)%nat as Hs by lia. split_and!; [done..| |].
  - intros j Hj. destruct (W j) as [-> _]; [done..|]. by apply new_word_u32.
  - intros j Hj Hn. destruct (W j) as [_ W2]; [done..|]. unfold slot. rewrite (W2 Hn). apply u32_small.
    unfold slot_value. case_goal; [apply u32_range|apply ld32_range].
Qed.

(** C8: [reloc] on a function and a buffer that are aligned, in range and
    apart from all that a load of the function can reach: it returns exactly
    when at most 16 instructions need a fixup word; it then returns the
    address behind these words, has written nowhere but in the buffer, and
    every instruction that is [supported] means in the copy what it meant in
    the firmware: a branch goes to the same place, or to the copy of that
    place when it is inside the function; [add rd, pc, #imm] gives the same
    address, moved when it is inside; a load relative to the program counter
    gives the same word; other words are the same and do not read the program
    counter. [supported] leaves out words with condition 15, branches out of
    reach, an [add] to the program counter or with a rotation computed wrong,
    loads of a word that is changed as if it were code, references whose fixup
    word is 4096 bytes away or more, and all other words that read the program
    counter. *)
Theorem reloc_keeps_meaning (fuel : nat) (m : memory) (buf load_addr start : Z) (n : nat) (dst : Z) :
  let mem_base := u32 (buf - load_addr) in
  let func_end := start + 4 * Z.of_nat n in
  placed mem_base start n dst -> (n < fuel)%nat ->
  match reloc fuel m buf load_addr start func_end dst with
  | Some (entry, m') =>
      (slots mem_base start n m n <= 16)%nat /\ entry = dst + 64 /\ elsewhere n dst m m'
      /\ forall i, (i < n)%nat ->
           let pc := start + 4 * Z.of_nat i in
           let new_pc := entry + 4 * Z.of_nat i in
           supported mem_base start n m pc new_pc (word mem_base m pc) = true ->
           meaning (ld32 m') new_pc (ld32 m' new_pc) = moved mem_base start n dst m pc (word mem_base m pc)
  | None => (16 < slots mem_base start n m n)%nat
  end.
Proof.
  intros mem_base func_end P Hf.
  pose proof (reloc_result fuel m buf load_addr start n dst P Hf) as R. cbv zeta in R.
  fold mem_base func_end in R. destruct (reloc _ _ _ _ _ _ _) as [[entry m']|]; [|done].
  destruct R as (Hs & -> & E & W & S). split_and!; [done..|]. intros i Hi pc new_pc Hsup.
  apply (moved_any mem_base start n dst m P m' i Hi Hs (fun _ => True)); auto.
Qed.
