(* ===== verification/Boot45.v ===== *)
(** * Startup on DIGIC 4 and 5 ([src/src/boot-d45-am.c])

    [copy_and_restart] runs a copy of the firmware's startup code in which the
    init task is replaced; [init_task_patched] prepares the function that task
    runs in the end: the firmware's own [init_task], moved to RAM with
    [CreateTaskMain], in which the start of the AllocateMemory pool is raised to
    leave room for the program.  The constants are those of the 70D.

    Memory is flat here: ROM, RAM and their caches agree after [sync_caches]. *)
From S2P Require Import Prelude Patch Reloc.

(** ** Constants of the 70D *)

Definition MAIN_FIRMWARE_ADDR : Z := 0xFF0C0000.
Definition RESTARTSTART : Z := 0x44C100.
Definition HIJACK_FIXBR_BZERO32 : Z := 0xFF0C1BB8.
Definition HIJACK_FIXBR_CREATE_ITASK : Z := 0xFF0C1C54.
Definition HIJACK_INSTR_MY_ITASK : Z := 0xFF0C1C6C.
Definition FIRMWARE_ENTRY_LEN : Z := 0x3000.
Definition ROM_ITASK_START : Z := 0xFF0C54CC.
Definition ROM_ITASK_END : Z := 0xFF0C5544.
Definition ROM_CREATETASK_MAIN_START : Z := 0xFF0C314C.
Definition ROM_CREATETASK_MAIN_END : Z := 0xFF0C317C.
Definition ROM_ALLOCMEM_END : Z := 0xFF0C3170.
Definition ROM_ALLOCMEM_INIT : Z := ROM_ALLOCMEM_END + 8.
Definition ROM_B_CREATETASK_MAIN : Z := ROM_ITASK_END - 4.
Definition MOV_R0_0x4E0000_INSTR : Z := 0xE3A0084E.

Definition BL_INSTR (pc dest : Z) : Z :=
  Z.lor 0xEB000000 (Z.land (Z.shiftr (u32 (dest - pc - 8)) 2) 0x00FFFFFF).

(** ** [copy_and_restart] *)

(** Words up to, not including, [_bss_end]. *)
Fixpoint zero_bss (n : nat) (m : memory) (bss bss_end : Z) : memory :=
  match n with
  | O => m
  | S n => if bss <? bss_end then zero_bss n (st32 m bss 0) (bss + 4) bss_end else m
  end.

(** [len] words, the first at the lowest address. *)
Fixpoint blob_memcpy (len : nat) (m : memory) (dest src : Z) : memory :=
  match len with
  | O => m
  | S len => blob_memcpy len (st32 m dest (ld32 m src)) (dest + 4) (src + 4)
  end.

Section restart.
(** Addresses the linker gives: the buffer of the copy, the limits of the bss
    segment, and the functions the copy calls. *)
Context (_reloc bss_start bss_end bzero32 create_init_task my_init_task : Z).

Definition INSTR (addr : Z) : Z := u32 (addr - MAIN_FIRMWARE_ADDR + _reloc).

Definition FIXUP_BRANCH (m : memory) (rom_addr dest_addr : Z) : memory :=
  st32 m (INSTR rom_addr) (BL_INSTR (INSTR rom_addr) dest_addr).

(** The memory and the address that is entered. *)
Definition copy_and_restart (m : memory) : memory * Z :=
  let m := zero_bss (Z.to_nat ((bss_end - bss_start) / 4 + 1)) m bss_start bss_end in
  let m := blob_memcpy (Z.to_nat (FIRMWARE_ENTRY_LEN / 4)) m _reloc MAIN_FIRMWARE_ADDR in
  let m := FIXUP_BRANCH m HIJACK_FIXBR_BZERO32 bzero32 in
  let m := FIXUP_BRANCH m HIJACK_FIXBR_CREATE_ITASK create_init_task in
  let m := st32 m (INSTR HIJACK_INSTR_MY_ITASK) my_init_task in
  (m, u32 (_reloc + 0xC)).
End restart.

(** ** [init_task_patched] *)

Inductive boot_outcome :=
  | Runs (new_init_task ml_reserved_mem : Z) (m : memory)
  | Refuses                   (* the loop "refuse to boot" *)
  | Hangs.                    (* [reloc] does not return *)

(** [fuel] is that of [reloc]; the buffers are the two static arrays. *)
Definition init_task_patched (fuel : nat) (m : memory) (init_task_reloc_buf CreateTaskMain_reloc_buf : Z) : boot_outcome :=
  match reloc fuel m 0 0 ROM_ITASK_START ROM_ITASK_END init_task_reloc_buf with
  | None => Hangs
  | Some (new_init_task, m) =>
      match reloc fuel m 0 0 ROM_CREATETASK_MAIN_START ROM_CREATETASK_MAIN_END CreateTaskMain_reloc_buf with
      | None => Hangs
      | Some (new_CreateTaskMain, m) =>
          let init_task_offset := u32 (new_init_task - init_task_reloc_buf - ROM_ITASK_START) in
          let CreateTaskMain_offset :=
            u32 (new_CreateTaskMain - CreateTaskMain_reloc_buf - ROM_CREATETASK_MAIN_START) in
          let addr_AllocMem_end := u32 (CreateTaskMain_reloc_buf + ROM_ALLOCMEM_END + CreateTaskMain_offset) in
          let addr_BL_AllocMem_init := u32 (CreateTaskMain_reloc_buf + ROM_ALLOCMEM_INIT + CreateTaskMain_offset) in
          let addr_B_CreateTaskMain := u32 (init_task_reloc_buf + ROM_B_CREATETASK_MAIN + init_task_offset) in
          if negb (Z.shiftr (ld32 m addr_BL_AllocMem_init) 24 =? Z.shiftr (BL_INSTR 0 0) 24)
             || negb (Z.shiftr (ld32 m addr_B_CreateTaskMain) 24 =? Z.shiftr (B_INSTR 0 0) 24)
          then Refuses
          else
            let m := st32 m (addr_AllocMem_end + 4) MOV_R0_0x4E0000_INSTR in
            let m := st32 m addr_BL_AllocMem_init (B_INSTR addr_BL_AllocMem_init ROM_ALLOCMEM_INIT) in
            let m := st32 m addr_B_CreateTaskMain (B_INSTR addr_B_CreateTaskMain new_CreateTaskMain) in
            Runs new_init_task (0x4E0000 - RESTARTSTART) m
      end
  end.
