(* ===== verification/Boot45Props.v ===== *)
(** * The 70D starts the patched firmware

    What the processor finds where [copy_and_restart] and [init_task_patched]
    wrote: the copy of the startup code calls the program's functions, and the
    relocated [init_task] goes on to a [CreateTaskMain] that starts the
    AllocateMemory pool behind the program and then returns to ROM. *)
From S2P Require Import Prelude Patch PatchHook Reloc RelocProps RelocTheorems Boot45.

(** ** Branches the program writes *)

(** [dest] is in reach of a branch at [pc]. *)
Definition in_reach (pc dest : Z) : Prop :=
  exists off, - 2 ^ 25 <= off < 2 ^ 25 /\ off mod 4 = 0 /\ dest = u32 (pc + 8 + off).

Definition branch_word (op pc dest : Z) : Z :=
  Z.lor (op * 2 ^ 24) (Z.land (Z.shiftr (u32 (dest - pc - 8)) 2) 0x00FFFFFF).

Lemma b_instr_word pc dest : B_INSTR pc dest = branch_word 0xEA pc dest.
Proof. done. Qed.

Lemma bl_instr_word pc dest : BL_INSTR pc dest = branch_word 0xEB pc dest.
Proof. done. Qed.

Lemma branch_word_meaning rd op pc dest : op = 0xEA \/ op = 0xEB -> in_reach pc dest ->
  let w := branch_word op pc dest in u32 w = w /\ meaning rd pc w = Goto op dest.
Proof.
  intros Hop (off & Ho & Hm & ->). cbv zeta. unfold branch_word.
  assert (u32 (u32 (pc + 8 + off) - pc - 8) = u32 off) as ->.
  { unfold u32. rewrite <- Z.sub_add_distr, Zminus_mod_idemp_l. f_equal. lia. }
  change 0x00FFFFFF with (Z.ones 24). rewrite Z.land_ones, Z.shiftr_div_pow2 by lia. change (2 ^ 2) with 4.
  set (k := u32 off / 4 mod 2 ^ 24). assert (0 <= k < 2 ^ 24) as Hk by (apply Z.mod_pos_bound; lia).
  assert (Z.lor (op * 2 ^ 24) k = Z.lor (Z.lor (Z.land 0 0) (op * 2 ^ 24)) k) as ->
    by (by rewrite Z.land_0_l, Z.lor_0_l).
  split; [apply word_word; lia|]. unfold meaning, is_branch.
  rewrite (land_word _ _ _ _ 24) by (lia || reflexivity). rewrite (shiftr_word _ _ _ _ 24) by lia.
  unfold arm_branch. change 0x00FFFFFF with (Z.ones 24).
  rewrite low_word by (lia || (destruct Hop as [->| ->]; reflexivity)).
  assert (4 * sext24 k = off) as ->.
  { symmetry. by apply branch_imm. }
  by destruct Hop as [->| ->].
Qed.

(** ** Two memories with the same image *)

Section ext.
Context (mem_base start : Z) (n : nat) (dst : Z) (m m1 : memory) (P : placed mem_base start n dst).
Context (Hw : forall a, start - 4096 <= a < start + 4 * Z.of_nat n + 4104 -> word mem_base m1 a = word mem_base m a).

Lemma slots_ext k : (k <= n)%nat -> slots mem_base start n m1 k = slots mem_base start n m k.
Proof using Hw.
  induction k as [|k IH]; intros Hk; [done|]. cbn [slots]. rewrite IH, Hw by lia. done.
Qed.

Lemma arm_load_reach i w : (i < n)%nat ->
  start - 4096 <= arm_load (start + 4 * Z.of_nat i) w < start + 4 * Z.of_nat n + 4104.
Proof using P. rewrite <- load_dest_arm. by apply (load_dest_reach mem_base start n dst P). Qed.

Lemma supported_ext i new_pc w : (i < n)%nat ->
  supported mem_base start n m1 (start + 4 * Z.of_nat i) new_pc w
  = supported mem_base start n m (start + 4 * Z.of_nat i) new_pc w.
Proof using P Hw.
  intros Hi. unfold supported, slot_reached. rewrite (Hw (arm_load _ w)) by (by apply arm_load_reach).
  by rewrite slots_ext by (Z.div_mod_to_equations; lia).
Qed.

Lemma moved_ext i w : (i < n)%nat ->
  moved mem_base start n dst m1 (start + 4 * Z.of_nat i) w = moved mem_base start n dst m (start + 4 * Z.of_nat i) w.
Proof using P Hw. intros Hi. unfold moved. by rewrite (Hw (arm_load _ w)) by (by apply arm_load_reach). Qed.
End ext.

(** ** The buffers *)

Definition init_len : nat := 30.
Definition main_len : nat := 12.

(** Two aligned buffers, apart, in the memory reserved for the program. *)
Definition boot_layout (b1 b2 : Z) : Prop :=
  b1 mod 4 = 0 /\ b2 mod 4 = 0 /\ RESTARTSTART <= b1 /\ RESTARTSTART <= b2
  /\ b1 + 64 + 4 * Z.of_nat init_len <= 0x4E0000 /\ b2 + 64 + 4 * Z.of_nat main_len <= 0x4E0000
  /\ (b1 + 64 + 4 * Z.of_nat init_len <= b2 \/ b2 + 64 + 4 * Z.of_nat main_len <= b1).

Lemma rom_placed start n b : start mod 4 = 0 -> 0xFF000000 <= start -> start + 4 * Z.of_nat n + 4104 <= 2 ^ 32 ->
  b mod 4 = 0 -> 0 <= b -> b + 64 + 4 * Z.of_nat n <= 0x4E0000 ->
  placed (u32 (0 - 0)) start n b.
Proof.
  intros. change (u32 (0 - 0)) with 0. constructor; try lia. intros a Ha. rewrite Z.add_0_l, u32_small by lia. lia.
Qed.

Lemma init_placed b1 b2 : boot_layout b1 b2 -> placed (u32 (0 - 0)) ROM_ITASK_START init_len b1.
Proof.
  unfold boot_layout, RESTARTSTART, init_len, main_len. intros. apply rom_placed; try done; unfold ROM_ITASK_START; lia.
Qed.

Lemma main_placed b1 b2 : boot_layout b1 b2 -> placed (u32 (0 - 0)) ROM_CREATETASK_MAIN_START main_len b2.
Proof.
  unfold boot_layout, RESTARTSTART, init_len, main_len. intros.
  apply rom_placed; try done; unfold ROM_CREATETASK_MAIN_START; lia.
Qed.

Lemma ram_to_rom a : a mod 4 = 0 -> RESTARTSTART <= a < 0x4E0000 -> in_reach a ROM_ALLOCMEM_INIT.
Proof.
  unfold RESTARTSTART. intros Hm Ha. exists (ROM_ALLOCMEM_INIT - 2 ^ 32 - a - 8).
  unfold ROM_ALLOCMEM_INIT, ROM_ALLOCMEM_END. split_and!; [lia..| |].
  - Z.div_mod_to_equations. lia.
  - unfold u32. replace (a + 8 + (0xFF0C3170 + 8 - 2 ^ 32 - a - 8)) with (0xFF0C3170 + 8 + -1 * 2 ^ 32) by lia.
    rewrite Z_mod_plus_full. reflexivity.
Qed.

Lemma ram_to_ram a b : a mod 4 = 0 -> b mod 4 = 0 -> 0 <= a < 0x4E0000 -> 0 <= b < 0x4E0000 -> in_reach a b.
Proof.
  intros Ha Hb ? ?. exists (b - a - 8). split_and!; [lia..| |].
  - Z.div_mod_to_equations. lia.
  - rewrite u32_small; lia.
Qed.

(** ** [init_task_patched] *)

(** The address the code computes for the copy of a ROM address. *)
Lemma copy_address b a s : 0 <= b + 64 + (a - s) < 2 ^ 32 ->
  u32 (b + a + u32 (b + 64 - b - s)) = b + 64 + (a - s).
Proof.
  intros Hr. rewrite <- (u32_small (b + 64 + (a - s))) by done. unfold u32. rewrite Zplus_mod_idemp_r. f_equal. lia.
Qed.

(** The operation of a branch is kept, whatever its destination. *)
Lemma new_word_op start func_end pc new_pc fixups w op : 0 <= w < 2 ^ 32 -> op = 0xEA \/ op = 0xEB ->
  pc mod 4 = 0 -> new_pc mod 4 = 0 -> Z.shiftr w 24 = op ->
  Z.shiftr (new_word start func_end pc new_pc fixups w) 24 = op.
Proof.
  intros Hw Hop Hp Hn Hs. assert (is_branch w = true) as Hb.
  { unfold is_branch, BRANCH_MASK. change 0x0F000000 with (Z.shiftl 0xF 24).
    assert (Z.land w (Z.shiftl 0xF 24) = Z.shiftl (Z.land (Z.shiftr w 24) 0xF) 24) as ->.
    { apply Z.bits_inj'. intros k Hk. rewrite Z.land_spec. destruct (decide (24 <= k)).
      - by rewrite !Z.shiftl_spec, Z.land_spec, Z.shiftr_spec, Z.sub_add by lia.
      - by rewrite !Z.shiftl_spec_low, andb_false_r by lia. }
    rewrite Hs. by destruct Hop as [->| ->]. }
  unfold new_word. rewrite Hb. case_goal; [done|].
  destruct (fix_branch pc new_pc w) as [nw|] eqn:E; [|done].
  apply fix_branch_meaning in E as (_ & E & _); [|done..]. cbn. by rewrite E.
Qed.

(** Every supported instruction of the copy means what it meant, apart from the
    words that were patched and the instructions that load one of them. *)
Definition copy_means (start : Z) (n : nat) (b : Z) (m m' : memory) (patched : list Z) : Prop :=
  forall i, (i < n)%nat ->
    let pc := start + 4 * Z.of_nat i in
    let new_pc := b + 64 + 4 * Z.of_nat i in
    let w := word 0 m pc in
    supported 0 start n m pc new_pc w = true -> pc ∉ patched -> arm_load pc w ∉ patched ->
    meaning (ld32 m') new_pc (ld32 m' new_pc) = moved 0 start n b m pc w.

(** The function was relocated from a memory [ms] with the same image, to [mr];
    [m'] has the copy but for the patched words. *)
Lemma copy_means_intro start n b m ms mr m' patched entry fuel :
  placed 0 start n b -> (n < fuel)%nat ->
  (forall a, start - 4096 <= a < start + 4 * Z.of_nat n + 4104 -> word 0 ms a = word 0 m a) ->
  reloc fuel ms 0 0 start (start + 4 * Z.of_nat n) b = Some (entry, mr) ->
  (forall j, (j < n)%nat -> start + 4 * Z.of_nat j ∉ patched ->
     ld32 m' (b + 64 + 4 * Z.of_nat j) = ld32 mr (b + 64 + 4 * Z.of_nat j)) ->
  (forall k, (k < 16)%nat -> ld32 m' (b + 4 * Z.of_nat k) = ld32 mr (b + 4 * Z.of_nat k)) ->
  copy_means start n b m m' patched.
Proof.
  intros P Hf Hw Hr Hcopy Hfix i Hi. cbv zeta. rewrite <- (Hw (start + 4 * Z.of_nat i)) by lia. intros Hsup Hpc Hld.
  pose proof (reloc_result fuel ms 0 0 start n b P Hf) as R. rewrite Hr in R. cbv zeta in R.
  change (u32 (0 - 0)) with 0 in R. destruct R as (Hs & _ & _ & W & S).
  rewrite <- (supported_ext 0 start n b m ms P Hw) in Hsup by done.
  rewrite <- (moved_ext 0 start n b m ms P Hw) by done.
  apply (moved_any 0 start n b ms P m' i Hi Hs (fun j => start + 4 * Z.of_nat j ∉ patched)); try done.
  - intros j Ej. by rewrite <- Ej.
  - intros j Hj Hk. rewrite Hcopy by done. by apply W.
  - intros j Hj Hn. pose proof (slots_lt 0 start n ms j n Hj Hn). rewrite Hfix by lia. by apply S.
Qed.

(** Memory outside both buffers. *)
Definition boot_frame (b1 b2 : Z) (m m' : memory) : Prop :=
  forall a, a < b1 \/ b1 + 64 + 4 * Z.of_nat init_len <= a ->
            a < b2 \/ b2 + 64 + 4 * Z.of_nat main_len <= a -> rd8 m' a = rd8 m a.

(** What the patched copies are to the processor. *)
Definition handed_over (b1 b2 : Z) (m m' : memory) : Prop :=
  let at_ a := meaning (ld32 m') a (ld32 m' a) in
  at_ (b1 + 64 + (ROM_B_CREATETASK_MAIN - ROM_ITASK_START)) = Goto 0xEA (b2 + 64)
  /\ at_ (b2 + 64 + (ROM_ALLOCMEM_INIT - ROM_CREATETASK_MAIN_START)) = Goto 0xEA ROM_ALLOCMEM_INIT
  /\ ld32 m' (b2 + 64 + (ROM_ALLOCMEM_END + 4 - ROM_CREATETASK_MAIN_START)) = MOV_R0_0x4E0000_INSTR
  /\ copy_means ROM_ITASK_START init_len b1 m m' [ROM_B_CREATETASK_MAIN]
  /\ copy_means ROM_CREATETASK_MAIN_START main_len b2 m m' [ROM_ALLOCMEM_END + 4; ROM_ALLOCMEM_INIT]
  /\ boot_frame b1 b2 m m'.

(** The three stores, on the two copies. *)
Definition boot_patches (b1 b2 : Z) (m : memory) : memory :=
  let bl := b2 + 64 + (ROM_ALLOCMEM_INIT - ROM_CREATETASK_MAIN_START) in
  let b := b1 + 64 + (ROM_B_CREATETASK_MAIN - ROM_ITASK_START) in
  st32 (st32 (st32 m (b2 + 64 + (ROM_ALLOCMEM_END + 4 - ROM_CREATETASK_MAIN_START)) MOV_R0_0x4E0000_INSTR)
             bl (B_INSTR bl ROM_ALLOCMEM_INIT)) b (B_INSTR b (b2 + 64)).

(** Distances inside the two functions. *)
Ltac boot_consts :=
  change (ROM_B_CREATETASK_MAIN - ROM_ITASK_START) with 116 in *;
  change (ROM_ALLOCMEM_INIT - ROM_CREATETASK_MAIN_START) with 44 in *;
  change (ROM_ALLOCMEM_END + 4 - ROM_CREATETASK_MAIN_START) with 40 in *;
  change (ROM_ALLOCMEM_END - ROM_CREATETASK_MAIN_START) with 36 in *;
  unfold boot_layout, RESTARTSTART, init_len, main_len in *.

Lemma patch_words_other b1 b2 m a : boot_layout b1 b2 ->
  a + 4 <= b1 + 180 \/ b1 + 184 <= a -> a + 4 <= b2 + 104 \/ b2 + 112 <= a ->
  ld32 (boot_patches b1 b2 m) a = ld32 m a.
Proof. intros L H1 H2. unfold boot_patches. boot_consts. rewrite !ld_st_out by lia. done. Qed.

Lemma patch_words_meaning b1 b2 m : boot_layout b1 b2 ->
  let m' := boot_patches b1 b2 m in
  let at_ a := meaning (ld32 m') a (ld32 m' a) in
  at_ (b1 + 180) = Goto 0xEA (b2 + 64) /\ at_ (b2 + 108) = Goto 0xEA ROM_ALLOCMEM_INIT
  /\ ld32 m' (b2 + 104) = MOV_R0_0x4E0000_INSTR.
Proof.
  intros L. cbv zeta. unfold boot_patches. boot_consts.
  replace (b1 + 64 + 116) with (b1 + 180) by lia. replace (b2 + 64 + 44) with (b2 + 108) by lia.
  replace (b2 + 64 + 40) with (b2 + 104) by lia.
  set (m' := st32 _ (b1 + 180) _).
  assert (in_reach (b1 + 180) (b2 + 64)) as R1 by (apply ram_to_ram; try lia; Z.div_mod_to_equations; lia).
  assert (in_reach (b2 + 108) ROM_ALLOCMEM_INIT) as R2
    by (apply ram_to_rom; unfold RESTARTSTART; try lia; Z.div_mod_to_equations; lia).
  destruct (branch_word_meaning (ld32 m') 0xEA _ _ (or_introl eq_refl) R1) as [U1 M1].
  destruct (branch_word_meaning (ld32 m') 0xEA _ _ (or_introl eq_refl) R2) as [U2 M2].
  assert (ld32 m' (b1 + 180) = branch_word 0xEA (b1 + 180) (b2 + 64)) as ->
    by (unfold m'; by rewrite ld32_st32_same).
  assert (ld32 m' (b2 + 108) = branch_word 0xEA (b2 + 108) ROM_ALLOCMEM_INIT) as ->
    by (unfold m'; rewrite ld_st_out by lia; by rewrite ld32_st32_same).
  split_and!; [done..|]. unfold m'. rewrite !ld_st_out by lia. by rewrite ld32_st32_same.
Qed.
