(* ===== verification/Boot45Theorems.v ===== *)
(** * Startup of the 70D: theorems and witnesses *)
From S2P Require Import Prelude Patch PatchHook Reloc RelocProps RelocTheorems Boot45 Boot45Props.

(** ** [init_task_patched] *)

Section handover.
Context (fuel : nat) (m : memory) (b1 b2 : Z) (L : boot_layout b1 b2) (Hf : (init_len < fuel)%nat).

Lemma image_kept start n b mr :
  placed 0 start n b -> elsewhere init_len b1 m mr -> 0xFF000000 <= start ->
  forall a, start - 4096 <= a < start + 4 * Z.of_nat n + 4104 -> word 0 mr a = word 0 m a.
Proof using L.
  clear Hf. intros P E Hs a Ha. apply ld_ext. intros c Hc. apply E. right.
  pose proof (placed_high _ _ _ _ P). rewrite Z.add_0_l, u32_small in Hc by lia.
  unfold boot_layout in L. unfold init_len in *. lia.
Qed.

Lemma handover_done e1 m1 e2 m2 :
  reloc fuel m 0 0 ROM_ITASK_START ROM_ITASK_END b1 = Some (e1, m1) ->
  reloc fuel m1 0 0 ROM_CREATETASK_MAIN_START ROM_CREATETASK_MAIN_END b2 = Some (e2, m2) ->
  handed_over b1 b2 m (boot_patches b1 b2 m2).
Proof using L Hf.
  intros R1 R2. pose proof (init_placed _ _ L) as P1. pose proof (main_placed _ _ L) as P2.
  change ROM_ITASK_END with (ROM_ITASK_START + 4 * Z.of_nat init_len) in R1.
  change ROM_CREATETASK_MAIN_END with (ROM_CREATETASK_MAIN_START + 4 * Z.of_nat main_len) in R2.
  pose proof (reloc_result fuel m 0 0 _ init_len b1 P1 Hf) as S1. rewrite R1 in S1.
  pose proof (reloc_result fuel m1 0 0 _ main_len b2 P2 ltac:(unfold init_len, main_len in *; lia)) as S2. rewrite R2 in S2.
  destruct S1 as (_ & _ & E1 & _), S2 as (_ & _ & E2 & _).
  pose proof (image_kept _ _ _ _ P2 E1 ltac:(unfold ROM_CREATETASK_MAIN_START; lia)) as I2.
  destruct (patch_words_meaning b1 b2 m2 L) as (M1 & M2 & M3).
  unfold handed_over. cbv zeta. pose proof L as L'. boot_consts. rewrite <- !Z.add_assoc.
  split_and!; [exact M1|exact M2|exact M3|..].
  - eapply (copy_means_intro _ _ _ m m m1 _ _ e1 fuel P1); try done.
    + intros j Hj Hp. rewrite patch_words_other; [|done| |lia].
      * apply ld_ext. intros c Hc. apply E2. unfold main_len. lia.
      * assert (j <> 29%nat) by (intros ->; apply Hp, list_elem_of_singleton; reflexivity). lia.
    + intros k Hk. rewrite patch_words_other by (done || lia).
      apply ld_ext. intros c Hc. apply E2. unfold main_len. lia.
  - eapply (copy_means_intro _ _ _ m m1 m2 _ _ e2 fuel P2); try done; [lia|..].
    + intros j Hj Hp. rewrite patch_words_other; [done|done|lia|].
      assert (j <> 10%nat) by (intros ->; apply Hp; left; reflexivity).
      assert (j <> 11%nat) by (intros ->; apply Hp; right; left; reflexivity). lia.
    + intros k Hk. by rewrite patch_words_other by (done || lia).
  - intros a H1 H2. unfold boot_patches. boot_consts. rewrite !rd8_st_out by lia.
    rewrite E2 by (unfold main_len; lia). apply E1. unfold init_len. lia.
Qed.

(** C5: startup on the 70D, for any contents of the firmware and two aligned
    buffers apart from each other in the reserved memory, ends in one of three
    ways. [init_task_patched] hangs only when one of the two functions needs
    more than 16 fixup words, and refuses only when one of the two words at
    the patched calls is not the branch it expects. Otherwise it returns the
    relocated [init_task], in which the branch to [CreateTaskMain] goes to the
    relocated [CreateTaskMain]; that one loads the new start of the pool and
    goes back to ROM at the call that makes the pool; every other instruction
    of both that is [supported] (see [reloc_keeps_meaning]) and does not load
    one of the three replaced words means what it meant; and nothing outside
    the two buffers has changed. *)
Theorem init_task_patched_boots :
  match init_task_patched fuel m b1 b2 with
  | Runs new_init_task ml_reserved_mem m' =>
      new_init_task = b1 + 64 /\ ml_reserved_mem = 0x4E0000 - RESTARTSTART /\ handed_over b1 b2 m m'
  | Refuses => Z.shiftr (word 0 m ROM_ALLOCMEM_INIT) 24 <> 0xEB \/ Z.shiftr (word 0 m ROM_B_CREATETASK_MAIN) 24 <> 0xEA
  | Hangs => (16 < slots 0 ROM_ITASK_START init_len m init_len)%nat
             \/ (16 < slots 0 ROM_CREATETASK_MAIN_START main_len m main_len)%nat
  end.
Proof using L Hf.
  pose proof (init_placed _ _ L) as P1. pose proof (main_placed _ _ L) as P2.
  assert (main_len < fuel)%nat as Hf2 by (unfold init_len, main_len in *; lia).
  pose proof handover_done as D.
  pose proof (reloc_result fuel m 0 0 _ init_len b1 P1 Hf) as S1.
  unfold init_task_patched.
  change ROM_ITASK_END with (ROM_ITASK_START + 4 * Z.of_nat init_len) in *.
  change ROM_CREATETASK_MAIN_END with (ROM_CREATETASK_MAIN_START + 4 * Z.of_nat main_len) in *.
  destruct (reloc fuel m _ _ _ _ _) as [[e1 m1]|]; [|by left]. destruct S1 as (_ & -> & E1 & W1 & _).
  pose proof (image_kept _ _ _ _ P2 E1 ltac:(unfold ROM_CREATETASK_MAIN_START; lia)) as I2.
  pose proof (reloc_result fuel m1 0 0 _ main_len b2 P2 Hf2) as S2.
  specialize (fun e2 m2 => D (b1 + 64) m1 e2 m2 eq_refl).
  destruct (reloc fuel m1 _ _ _ _ _) as [[e2 m2]|].
  2: { right. by rewrite <- (slots_ext _ _ _ m m1 I2). }
  destruct S2 as (_ & -> & E2 & W2 & _). specialize (D _ _ eq_refl).
  cbv zeta. rewrite !copy_address by (pose proof L; boot_consts; lia).
  replace (b2 + 64 + (ROM_ALLOCMEM_END - ROM_CREATETASK_MAIN_START) + 4)
    with (b2 + 64 + (ROM_ALLOCMEM_END + 4 - ROM_CREATETASK_MAIN_START)) by lia.
  case_goal; [|split; [done|]; split; [done|]; exact D].
  apply orb_prop in Heqb as [Hb|Hb]; apply negb_true_iff, Z.eqb_neq in Hb; [left|right]; intros Hop; apply Hb.
  - pose proof (W2 11%nat ltac:(unfold main_len; lia)) as W. cbn zeta in W.
    change (4 * Z.of_nat 11) with (ROM_ALLOCMEM_INIT - ROM_CREATETASK_MAIN_START) in W. rewrite W.
    change (u32 (0 - 0)) with 0. rewrite Zplus_minus, I2 by (unfold ROM_ALLOCMEM_INIT, ROM_ALLOCMEM_END, ROM_CREATETASK_MAIN_START, main_len; lia).
    apply new_word_op; [apply ld32_range|by right|done| |done]. unfold boot_layout in L. boot_consts. Z.div_mod_to_equations. lia.
  - pose proof (W1 29%nat ltac:(unfold init_len; lia)) as W. cbn zeta in W.
    change (4 * Z.of_nat 29) with (ROM_B_CREATETASK_MAIN - ROM_ITASK_START) in W.
    rewrite (ld_ext 4 m2 m1), W.
    + change (u32 (0 - 0)) with 0. rewrite Zplus_minus.
      apply new_word_op; [apply ld32_range|by left|done| |done]. unfold boot_layout in L. boot_consts. Z.div_mod_to_equations. lia.
    + intros c Hc. apply E2. pose proof L. boot_consts. lia.
Qed.
End handover.

(** ** [copy_and_restart] *)

Lemma zero_bss_spec n m bss bss_end : bss mod 4 = 0 -> bss_end mod 4 = 0 -> bss_end - bss < 4 * Z.of_nat n ->
  forall a, rd8 (zero_bss n m bss bss_end) a = if decide (bss <= a < bss_end) then 0 else rd8 m a.
Proof.
  revert m bss. induction n as [|n IH]; intros m bss Hb He Hn a; cbn [zero_bss].
  { rewrite decide_False by lia. done. }
  destruct (Z.ltb_spec bss bss_end); [|by rewrite decide_False by lia].
  assert (bss + 4 <= bss_end) by (Z.div_mod_to_equations; lia).
  rewrite IH by (lia || (Z.div_mod_to_equations; lia)). rewrite rd8_st. change (Z.of_nat 4) with 4.
  repeat case_decide; try done; lia.
Qed.

Lemma blob_memcpy_spec len m dest src :
  src + 4 * Z.of_nat len <= dest \/ dest + 4 * Z.of_nat len <= src ->
  let m' := blob_memcpy len m dest src in
  (forall i, (i < len)%nat -> ld32 m' (dest + 4 * Z.of_nat i) = ld32 m (src + 4 * Z.of_nat i))
  /\ forall a, a < dest \/ dest + 4 * Z.of_nat len <= a -> rd8 m' a = rd8 m a.
Proof.
  revert m dest src. induction len as [|len IH]; intros m dest src Hd; [by split; [lia|]|].
  cbn [blob_memcpy]. destruct (IH (st32 m dest (ld32 m src)) (dest + 4) (src + 4)) as [I1 I2]; [lia|]. split.
  - intros [|i] Hi.
    + rewrite Z.mul_0_r, !Z.add_0_r. rewrite (ld_ext 4 _ (st32 m dest (ld32 m src)));
        [|intros c Hc; apply I2; lia]. rewrite ld32_st32_same. apply u32_small, ld32_range.
    + replace (dest + 4 * Z.of_nat (S i)) with (dest + 4 + 4 * Z.of_nat i) by lia.
      replace (src + 4 * Z.of_nat (S i)) with (src + 4 + 4 * Z.of_nat i) by lia.
      rewrite I1 by lia. rewrite ld_st_out by lia. done.
  - intros a Ha. rewrite I2 by lia. apply rd8_st_out. lia.
Qed.

(** The copy is in the bss segment, which is in the reserved memory; the
    functions it calls are in reach. *)
Record restart_layout (_reloc bss_start bss_end bzero32 create_init_task : Z) : Prop := {
  rl_reloc : _reloc mod 4 = 0;
  rl_bss : bss_start mod 4 = 0 /\ bss_end mod 4 = 0;
  rl_inside : RESTARTSTART <= bss_start <= _reloc /\ _reloc + FIRMWARE_ENTRY_LEN <= bss_end <= 0x4E0000;
  rl_bzero32 : bzero32 mod 4 = 0 /\ 0 <= bzero32 < 0x4E0000;
  rl_create : create_init_task mod 4 = 0 /\ 0 <= create_init_task < 0x4E0000;
}.

Section restart.
Context (_reloc bss_start bss_end bzero32 create_init_task my_init_task : Z) (m : memory).
Context (L : restart_layout _reloc bss_start bss_end bzero32 create_init_task).

Lemma instr_address a : MAIN_FIRMWARE_ADDR <= a < MAIN_FIRMWARE_ADDR + FIRMWARE_ENTRY_LEN ->
  INSTR _reloc a = _reloc + (a - MAIN_FIRMWARE_ADDR).
Proof using L.
  intros Ha. unfold INSTR. destruct L. unfold FIRMWARE_ENTRY_LEN, RESTARTSTART in *. rewrite u32_small; lia.
Qed.

(** C31: the copy of the startup code is entered behind its signature; its two
    calls go to the program's [bzero32] and [create_init_task], its init task is
    the program's, all other words are those of the firmware; the rest of the
    bss segment is zero and the rest of memory as it was. *)
Theorem copy_and_restart_image :
  let '(m', entry) := copy_and_restart _reloc bss_start bss_end bzero32 create_init_task my_init_task m in
  let copy a := _reloc + (a - MAIN_FIRMWARE_ADDR) in
  let at_ a := meaning (ld32 m') (copy a) (ld32 m' (copy a)) in
  entry = copy (MAIN_FIRMWARE_ADDR + 0xC)
  /\ at_ HIJACK_FIXBR_BZERO32 = Goto 0xEB bzero32
  /\ at_ HIJACK_FIXBR_CREATE_ITASK = Goto 0xEB create_init_task
  /\ ld32 m' (copy HIJACK_INSTR_MY_ITASK) = u32 my_init_task
  /\ (forall i, 4 * Z.of_nat i < FIRMWARE_ENTRY_LEN ->
        let a := MAIN_FIRMWARE_ADDR + 4 * Z.of_nat i in
        a <> HIJACK_FIXBR_BZERO32 -> a <> HIJACK_FIXBR_CREATE_ITASK -> a <> HIJACK_INSTR_MY_ITASK ->
        ld32 m' (copy a) = ld32 m a)
  /\ (forall a, a < _reloc \/ _reloc + FIRMWARE_ENTRY_LEN <= a ->
        rd8 m' a = if decide (bss_start <= a < bss_end) then 0 else rd8 m a).
Proof using L.
  unfold copy_and_restart, FIXUP_BRANCH.
  rewrite !instr_address by (unfold HIJACK_FIXBR_BZERO32, HIJACK_FIXBR_CREATE_ITASK, HIJACK_INSTR_MY_ITASK,
    MAIN_FIRMWARE_ADDR, FIRMWARE_ENTRY_LEN; lia).
  pose proof (rl_inside _ _ _ _ _ L) as Hin. unfold RESTARTSTART, FIRMWARE_ENTRY_LEN in Hin |- *. pose proof (rl_bss _ _ _ _ _ L) as [Hb He].
  change (Z.to_nat (0x3000 / 4)) with (Z.to_nat 0xC00).
  set (m1 := zero_bss _ m bss_start bss_end). set (m2 := blob_memcpy _ m1 _reloc MAIN_FIRMWARE_ADDR).
  assert (forall a, rd8 m1 a = if decide (bss_start <= a < bss_end) then 0 else rd8 m a) as Z1.
  { apply zero_bss_spec; [done..|]. Z.div_mod_to_equations; lia. }
  destruct (blob_memcpy_spec (Z.to_nat 0xC00) m1 _reloc MAIN_FIRMWARE_ADDR) as [C1 C2];
    [unfold MAIN_FIRMWARE_ADDR; lia|].
  fold m2 in C1, C2. clearbody m1 m2.
  change (HIJACK_FIXBR_BZERO32 - MAIN_FIRMWARE_ADDR) with 0x1BB8.
  change (HIJACK_FIXBR_CREATE_ITASK - MAIN_FIRMWARE_ADDR) with 0x1C54.
  change (HIJACK_INSTR_MY_ITASK - MAIN_FIRMWARE_ADDR) with 0x1C6C.
  pose proof (rl_reloc _ _ _ _ _ L). destruct (rl_bzero32 _ _ _ _ _ L), (rl_create _ _ _ _ _ L).
  set (m' := st32 _ (_reloc + 0x1C6C) my_init_task).
  assert (in_reach (_reloc + 0x1BB8) bzero32) as R1 by (apply ram_to_ram; try lia; Z.div_mod_to_equations; lia).
  assert (in_reach (_reloc + 0x1C54) create_init_task) as R2 by (apply ram_to_ram; try lia; Z.div_mod_to_equations; lia).
  destruct (branch_word_meaning (ld32 m') 0xEB _ _ (or_intror eq_refl) R1) as [U1 M1].
  destruct (branch_word_meaning (ld32 m') 0xEB _ _ (or_intror eq_refl) R2) as [U2 M2].
  assert (ld32 m' (_reloc + 0x1BB8) = branch_word 0xEB (_reloc + 0x1BB8) bzero32) as ->
    by (unfold m'; rewrite !ld_st_out by lia; by rewrite ld32_st32_same).
  assert (ld32 m' (_reloc + 0x1C54) = branch_word 0xEB (_reloc + 0x1C54) create_init_task) as ->
    by (unfold m'; rewrite ld_st_out by lia; by rewrite ld32_st32_same).
  split_and!; [rewrite u32_small; lia|exact M1|exact M2|unfold m'; apply ld32_st32_same|..].
  - unfold HIJACK_FIXBR_BZERO32, HIJACK_FIXBR_CREATE_ITASK, HIJACK_INSTR_MY_ITASK, MAIN_FIRMWARE_ADDR in *.
    intros i Hi N1 N2 N3. unfold m'. rewrite !ld_st_out by lia. rewrite Z.add_simpl_l, C1 by lia.
    apply ld_ext. intros c Hc. rewrite Z1, decide_False by lia. done.
  - intros a Ha. unfold m'. rewrite !rd8_st_out by lia. rewrite C2 by lia. apply Z1.
Qed.
End restart.

(** ** Witnesses *)

(** [bl 0xFF0D0000], [add r0, pc, #0x400] and [ldr r1, \[pc, #0x100\]] in front
    of a constant outside. *)
Definition ex_code : memory :=
  st32 (st32 (st32 (st32 ∅ 0xFF0C0000 0xEB003FFE) 0xFF0C0004 0xE28F0B01) 0xFF0C0008 0xE59F1100) 0xFF0C0110 0xCAFE.

Lemma reloc_keeps_meaning_witness :
  exists m', reloc 4 ex_code 0 0 0xFF0C0000 0xFF0C000C 0x450000 = Some (0x450040, m')
    /\ meaning (ld32 m') 0x450040 (ld32 m' 0x450040) = Goto 0xEB 0xFF0D0000
    /\ meaning (ld32 m') 0x450044 (ld32 m' 0x450044) = Give 14 0 0xFF0C040C
    /\ meaning (ld32 m') 0x450048 (ld32 m' 0x450048) = Give 14 1 0xCAFE.
Proof.
  pose proof (reloc_keeps_meaning 4 ex_code 0 0 0xFF0C0000 3 0x450000) as T. cbv zeta in T.
  change (0xFF0C0000 + 4 * Z.of_nat 3) with 0xFF0C000C in T.
  assert (placed (u32 (0 - 0)) 0xFF0C0000 3 0x450000) as P by (apply rom_placed; (reflexivity || lia)).
  specialize (T P ltac:(lia)).
  destruct (reloc 4 ex_code 0 0 0xFF0C0000 0xFF0C000C 0x450000) as [[e m']|] eqn:E; [|apply Nat.ltb_lt in T; vm_compute in T; discriminate T].
  destruct T as (_ & -> & _ & T). exists m'. split; [reflexivity|].
  pose proof (T 0%nat ltac:(lia) ltac:(vm_compute; reflexivity)) as T0.
  pose proof (T 1%nat ltac:(lia) ltac:(vm_compute; reflexivity)) as T1.
  pose proof (T 2%nat ltac:(lia) ltac:(vm_compute; reflexivity)) as T2.
  split_and!; [etrans; [exact T0|]|etrans; [exact T1|]|etrans; [exact T2|]]; vm_compute; reflexivity.
Defined.

(** The two branches [init_task_patched] looks for. *)
Definition ex_firmware : memory :=
  st32 (st32 ∅ ROM_ALLOCMEM_INIT (BL_INSTR ROM_ALLOCMEM_INIT 0xFF0D0000))
       ROM_B_CREATETASK_MAIN (B_INSTR ROM_B_CREATETASK_MAIN ROM_CREATETASK_MAIN_START).

Lemma init_task_patched_boots_witness :
  exists m', init_task_patched 31 ex_firmware 0x450000 0x451000 = Runs 0x450040 0x93F00 m'
             /\ handed_over 0x450000 0x451000 ex_firmware m'.
Proof.
  assert (boot_layout 0x450000 0x451000) as L
    by (unfold boot_layout, RESTARTSTART, init_len, main_len; split_and!; (reflexivity || lia)).
  pose proof (init_task_patched_boots 31 ex_firmware 0x450000 0x451000 L ltac:(unfold init_len; lia)) as T.
  destruct (init_task_patched 31 ex_firmware 0x450000 0x451000) as [e r m'| |] eqn:E.
  - destruct T as (-> & -> & H). exists m'. split; [reflexivity|exact H].
  - exfalso. destruct T as [T|T]; vm_compute in T; by apply T.
  - exfalso. destruct T as [T|T]; apply Nat.ltb_lt in T; vm_compute in T; discriminate T.
Defined.

Lemma copy_and_restart_image_witness :
  let '(m', entry) := copy_and_restart 0x460000 0x460000 0x463000 0x450000 0x450100 0x450200 ∅ in
  entry = 0x46000C /\ meaning (ld32 m') 0x461BB8 (ld32 m' 0x461BB8) = Goto 0xEB 0x450000.
Proof.
  assert (restart_layout 0x460000 0x460000 0x463000 0x450000 0x450100) as L
    by (split; unfold RESTARTSTART, FIRMWARE_ENTRY_LEN; split_and?; (reflexivity || lia)).
  pose proof (copy_and_restart_image 0x460000 0x460000 0x463000 0x450000 0x450100 0x450200 ∅ L) as T.
  destruct (copy_and_restart _ _ _ _ _ _ _) as [m' entry]. destruct T as (-> & T & _). split; [reflexivity|exact T].
Defined.
