(* ===== verification/MemCheck.v ===== *)
(** * The memory manager ([src/src/mem.c])

    [__mem_malloc] chooses one of four memory pools, asks it for a block that is
    32 bytes larger, and surrounds the user's part with guard bytes and a
    header; [__mem_free] checks them before it returns the block.  The pools
    themselves (DryOS, and [exmem.c]) are the interface [Backend]. *)
From S2P Require Import Prelude CacheHacks.

(** ** Constants *)

Definition MEM_SEC_ZONE : Z := 16.
Definition MEMCHECK_ENTRIES : nat := 256.
Definition HISTORY_ENTRIES : Z := 1024.
Definition JUST_FREED : Z := 0xF12EEEED.
Definition UNTRACKED : Z := 0xFFFFFFFF.
Definition UNCACHEABLE_FLAG : Z := 0x8000.
Definition MEM_DMA : Z := 1.
Definition MEM_TEMPORARY : Z := 2.
Definition MEM_SRM : Z := 4.
Definition PTR_INVALID : Z := 0xFFFFFFFF.
Definition MALLOC_STRUCT_ADDR : Z := 0xAFBB8.
Definition INT_MAX : Z := 2 ^ 31 - 1.
Definition USHRT_MAX : Z := 65535.

Definition flag_set (flags f : Z) : bool := negb (Z.land flags f =? 0).

(** Memory through a pointer, which may be the uncacheable alias of RAM. *)
Definition peek8 (m : memory) (a : Z) : Z := rd8 m (phys (u32 a)).
Definition peek (n : nat) (m : memory) (a : Z) : Z := ld n m (phys (u32 a)).
Definition poke (n : nat) (m : memory) (a v : Z) : memory := st n m (phys (u32 a)) v.

(** ** The memory pools *)

Inductive alloc_fn := _malloc | _AllocateMemory | _alloc_dma_memory | _shoot_malloc | _srm_malloc.
Inductive free_fn := _free | _FreeMemory | _free_dma_memory | _shoot_free | _srm_free.
Inductive space_fn := fn_GetFreeMemForMalloc | fn_GetFreeMemForAllocateMemory
  | fn_GetMaxRegionForAllocateMemory | fn_shoot_get_free_space
  | fn_srm_get_free_space | fn_srm_get_max_region.

#[export] Instance alloc_fn_eq_dec : EqDecision alloc_fn.
Proof. solve_decision. Defined.
#[export] Instance free_fn_eq_dec : EqDecision free_fn.
Proof. solve_decision. Defined.

(** What the manager calls outside [mem.c]: allocation and release by each
    pool (which may touch memory of their own), the queries of free space, and
    the name of the running task. *)
Class Backend (W : Type) := {
  be_alloc : alloc_fn -> Z -> W -> memory -> Z * W * memory;
  be_free : free_fn -> Z -> W -> memory -> W * memory;
  GetMemoryInformation : W -> Z * Z;
  GetSizeOfMaxRegion : W -> Z * Z;
  _shoot_get_free_space : W -> Z;
  _srm_get_free_space : W -> Z;
  _srm_get_max_region : W -> Z;
  get_current_task_name : W -> Z;
}.

(** [struct mem_allocator] without its counters, which are [alloc_stats]. *)
Record mem_allocator := mk_mem_allocator {
  name : string;
  malloc : option alloc_fn;
  free : option free_fn;
  malloc_dma : option alloc_fn;
  free_dma : option free_fn;
  get_free_space : option space_fn;
  get_max_region : option space_fn;
  is_preferred_for_temporary_space : Z;
  preferred_min_alloc_size : Z;
  preferred_max_alloc_size : Z;
  preferred_free_space : Z;
  minimum_free_space : Z;
  minimum_alloc_size : Z;
  depends_on_malloc : bool;
  try_next_allocator : bool;
}.

Definition allocators : list mem_allocator := [
  mk_mem_allocator "malloc" (Some _malloc) (Some _free) None None
    (Some fn_GetFreeMemForMalloc) None 0
    0 (512 * 1024) (384 * 1024) (256 * 1024) 0 false false;
  mk_mem_allocator "AllocateMemory" (Some _AllocateMemory) (Some _FreeMemory)
    (Some _alloc_dma_memory) (Some _free_dma_memory)
    (Some fn_GetFreeMemForAllocateMemory) (Some fn_GetMaxRegionForAllocateMemory) 0
    0 (512 * 1024) (1024 * 1024 * 3 / 2) (512 * 1024) 0 false false;
  mk_mem_allocator "shoot_malloc" (Some _shoot_malloc) (Some _shoot_free)
    (Some _shoot_malloc) (Some _shoot_free)
    (Some fn_shoot_get_free_space) (Some fn_shoot_get_free_space) 1
    (512 * 1024) (20 * 1024 * 1024) 0 (256 * 1024) (64 * 1024) true true;
  mk_mem_allocator "srm_malloc" (Some _srm_malloc) (Some _srm_free)
    (Some _srm_malloc) (Some _srm_free)
    (Some fn_srm_get_free_space) (Some fn_srm_get_max_region) 2
    (20 * 1024 * 1024) 0 0 0 (1024 * 1024) false false
]%string.

Record alloc_stats := mk_alloc_stats { mem_used : Z; num_blocks : Z }.

(** A file name is the string itself, 0 pointers are the empty one. *)
Record memcheck_entry := mk_memcheck_entry {
  ptr : Z;
  file : list Z;
  failed : Z;
  line : Z;
  task_name : Z;
}.

Definition null_entry : memcheck_entry := mk_memcheck_entry 0 [] 0 0 0.

Record mstate (W : Type) := mk_mstate {
  mem : memory;
  world : W;
  stats : list alloc_stats;
  alloc_total : Z;
  alloc_total_with_memcheck : Z;
  alloc_total_peak_with_memcheck : Z;
  history : list Z;
  history_index : Z;
  memcheck_entries : list memcheck_entry;
  memcheck_bufpos : nat;
  last_error : Z;
}.
Arguments mk_mstate {W}.
Arguments mem {W}. Arguments world {W}. Arguments stats {W}. Arguments alloc_total {W}.
Arguments alloc_total_with_memcheck {W}. Arguments alloc_total_peak_with_memcheck {W}.
Arguments history {W}. Arguments history_index {W}. Arguments memcheck_entries {W}.
Arguments memcheck_bufpos {W}. Arguments last_error {W}.

(** ** File names and sizes *)

(** Offset of the last path component: walk back from the last character. *)
Fixpoint name_start (file : list Z) (fn : nat) : nat :=
  match fn with
  | O => O
  | S fn' => if nth fn' file 0 =? 47 then fn else name_start file fn'
  end.

Definition file_name_without_path (file : list Z) : list Z :=
  drop (name_start file (length file - 1)) file.

Definition kB : Z := 1024.
Definition MB : Z := 1024 * 1024.
Definition GB : Z := 1024 * 1024 * 1024.

(** The number and the unit that are printed: [(n, None, unit)] for an
    integer, [(n, Some d, unit)] for one decimal. *)
Definition format_memory_size (size : Z) : Z * option Z * string :=
  let tenths n u := (Z.quot n 10, Some (Z.rem n 10), u) in
  if 10 * GB <=? size then (s32 ((size + GB / 2) / GB), None, "GB")
  else if GB <=? size then tenths (s32 ((size * 10 + GB / 2) / GB)) "GB"
  else if 10 * MB <=? size then (s32 (u32 (s32 size + MB / 2) / MB), None, "MB")
  else if MB <=? size then tenths (s32 (u32 (s32 (s32 size * 10) + MB / 2) / MB)) "MB"
  else if 10 * kB <=? size then (s32 (u32 (s32 size + kB / 2) / kB), None, "kB")
  else if kB <=? size then tenths (s32 (u32 (s32 (s32 size * 10) + kB / 2) / kB)) "kB"
  else if 0 <? size then (s32 size, None, " B")
  else (0, None, "")%string.

(** ** The header in front of a block *)

Definition hdr_allocator (m : memory) (p : Z) : Z := peek 2 m p.
Definition hdr_flags (m : memory) (p : Z) : Z := peek 2 m (p + 2).
Definition hdr_length (m : memory) (p : Z) : Z := peek 4 m (p + 4).
Definition hdr_id (m : memory) (p : Z) : Z := peek 4 m (p + 8).
Definition sizeof_memcheck_hdr : Z := 12.

Section Manager.
Context {W : Type} `{Backend W}.

Definition set_mem (s : mstate W) (m : memory) : mstate W :=
  mk_mstate m (world s) (stats s) (alloc_total s) (alloc_total_with_memcheck s)
    (alloc_total_peak_with_memcheck s) (history s) (history_index s) (memcheck_entries s)
    (memcheck_bufpos s) (last_error s).
Definition set_backend (s : mstate W) (w : W) (m : memory) : mstate W :=
  mk_mstate m w (stats s) (alloc_total s) (alloc_total_with_memcheck s)
    (alloc_total_peak_with_memcheck s) (history s) (history_index s) (memcheck_entries s)
    (memcheck_bufpos s) (last_error s).
Definition set_entries (s : mstate W) (es : list memcheck_entry) (pos : nat) : mstate W :=
  mk_mstate (mem s) (world s) (stats s) (alloc_total s) (alloc_total_with_memcheck s)
    (alloc_total_peak_with_memcheck s) (history s) (history_index s) es pos (last_error s).
Definition set_last_error (s : mstate W) (e : Z) : mstate W :=
  mk_mstate (mem s) (world s) (stats s) (alloc_total s) (alloc_total_with_memcheck s)
    (alloc_total_peak_with_memcheck s) (history s) (history_index s) (memcheck_entries s)
    (memcheck_bufpos s) e.

(** ** Free space *)

Definition GetFreeMemForAllocateMemory (w : W) : Z := snd (GetMemoryInformation w).

Definition GetMaxRegionForAllocateMemory (w : W) : Z :=
  let '(err, size) := GetSizeOfMaxRegion w in if err =? 0 then size else 0.

(** [total_size_external - used_size] of the DryOS [malloc_status]. *)
Definition GetFreeMemForMalloc (m : memory) : Z :=
  s32 (ld32 m (MALLOC_STRUCT_ADDR + 8) - ld32 m (MALLOC_STRUCT_ADDR + 28)).

Definition query (f : space_fn) (s : mstate W) : Z :=
  match f with
  | fn_GetFreeMemForMalloc => GetFreeMemForMalloc (mem s)
  | fn_GetFreeMemForAllocateMemory => GetFreeMemForAllocateMemory (world s)
  | fn_GetMaxRegionForAllocateMemory => GetMaxRegionForAllocateMemory (world s)
  | fn_shoot_get_free_space => _shoot_get_free_space (world s)
  | fn_srm_get_free_space => _srm_get_free_space (world s)
  | fn_srm_get_max_region => _srm_get_max_region (world s)
  end.

(** ** Checking a block *)

Definition zone_bad (m : memory) (p : Z) (positions : list Z) : bool :=
  existsb (fun pos => negb (peek8 m (p + pos) =? 0xA5)) positions.

(** Bits: 2 underflow, 4 overflow, 8 wrong ID, 16 double free. *)
Definition check_flags (m : memory) (p entry : Z) : Z :=
  let f1 := if zone_bad m p (seqZ sizeof_memcheck_hdr (MEM_SEC_ZONE - sizeof_memcheck_hdr))
            then 2 else 0 in
  let f2 := if zone_bad m p (map (fun pos => s32 (MEM_SEC_ZONE + hdr_length m p + pos)) (seqZ 0 MEM_SEC_ZONE))
            then 4 else 0 in
  let id := hdr_id m p in
  let f3 := if id =? UNTRACKED then 0
            else if id =? JUST_FREED then 16
            else if negb (id =? entry) && negb (entry =? 0xFFFFFFFF) then 8
            else if Z.of_nat MEMCHECK_ENTRIES <=? id then 8
            else 0 in
  Z.lor (Z.lor f1 f2) f3.

Definition or_failed (e : memcheck_entry) (f : Z) : memcheck_entry :=
  mk_memcheck_entry (ptr e) (file e) (u16 (Z.lor (failed e) f)) (line e) (task_name e).

Definition memcheck_check (s : mstate W) (p entry : Z) : Z * mstate W :=
  let f := check_flags (mem s) p entry in
  let s := if negb (f =? 0) && (last_error s =? 0) then set_last_error s f else s in
  let s := if entry <? Z.of_nat MEMCHECK_ENTRIES
           then set_entries s (alter (fun e => or_failed e f) (Z.to_nat entry) (memcheck_entries s))
                            (memcheck_bufpos s)
           else s in
  (f, s).

Fixpoint get_failed_from (n : nat) (pos : nat) (s : mstate W) : Z * mstate W :=
  match n with
  | O => (0, s)
  | S n =>
    if ptr (nth pos (memcheck_entries s) null_entry) =? 0 then get_failed_from n (S pos) s
    else
      let '(_, s) := memcheck_check s (ptr (nth pos (memcheck_entries s) null_entry)) (Z.of_nat pos) in
      let f := failed (nth pos (memcheck_entries s) null_entry) in
      if f =? 0 then get_failed_from n (S pos) s else (f, s)
  end.

Definition memcheck_get_failed (s : mstate W) : Z * mstate W :=
  get_failed_from MEMCHECK_ENTRIES 0 s.

(** ** Tracking a block *)

(** The search for a free entry: the position where it stops, and whether it
    found one before the tries ran out. *)
Fixpoint find_entry (es : list memcheck_entry) (tries pos : nat) : bool * nat :=
  match tries with
  | O => (false, pos)
  | S tries =>
    if ptr (nth pos es null_entry) =? 0 then (true, pos)
    else
      let pos := ((pos + 1) mod MEMCHECK_ENTRIES)%nat in
      match tries with O => (false, pos) | _ => find_entry es tries pos end
  end.

Definition memcheck_add (s : mstate W) (p : Z) (file : list Z) (line : Z) : mstate W :=
  let '(found, pos) := find_entry (memcheck_entries s) MEMCHECK_ENTRIES (memcheck_bufpos s) in
  if found then
    let e := mk_memcheck_entry p (file_name_without_path file) 0 (u16 line)
                               (get_current_task_name (world s)) in
    set_mem (set_entries s (<[pos := e]> (memcheck_entries s)) pos)
            (poke 4 (mem s) (p + 8) (Z.of_nat pos))
  else set_mem (set_entries s (memcheck_entries s) pos) (poke 4 (mem s) (p + 8) UNTRACKED).

Definition memcheck_remove (s : mstate W) (p f : Z) : mstate W :=
  let buf_pos := hdr_id (mem s) p in
  let s := set_mem s (poke 4 (mem s) (p + 8) JUST_FREED) in
  if buf_pos =? UNTRACKED then s
  else if Z.of_nat MEMCHECK_ENTRIES <=? buf_pos then s
  else
    let pos := Z.to_nat buf_pos in
    let e := nth pos (memcheck_entries s) null_entry in
    if negb (f =? 0) || negb (ptr e =? p) then
      set_entries s (map (fun e => if ptr e =? p
                                   then mk_memcheck_entry PTR_INVALID (file e)
                                          (u16 (Z.lor (failed e) (Z.lor 1 f))) (line e) (task_name e)
                                   else e) (memcheck_entries s))
                  (memcheck_bufpos s)
    else
      set_entries s (<[pos := mk_memcheck_entry 0 [] 0 (line e) (task_name e)]> (memcheck_entries s))
                  (memcheck_bufpos s).

(** ** Allocating and freeing through a pool *)

(** Count a block of [len] user bytes ([sign] 1) or its release ([sign] -1)
    and append to the history; the peak only follows allocations. *)
Definition account (s : mstate W) (i : nat) (sign len : Z) : mstate W :=
  let with_hdr := s32 (alloc_total_with_memcheck s + sign * (len + 2 * MEM_SEC_ZONE)) in
  mk_mstate (mem s) (world s)
    (alter (fun st => mk_alloc_stats (s32 (mem_used st + sign * (len + 2 * MEM_SEC_ZONE)))
                                     (s32 (num_blocks st + sign))) i (stats s))
    (s32 (alloc_total s + sign * len)) with_hdr
    (if sign =? 1 then Z.max (alloc_total_peak_with_memcheck s) with_hdr
     else alloc_total_peak_with_memcheck s)
    (<[Z.to_nat (history_index s) := u16 (Z.min (Z.quot with_hdr 1024) USHRT_MAX)]> (history s))
    ((history_index s + 1) mod HISTORY_ENTRIES)
    (memcheck_entries s) (memcheck_bufpos s) (last_error s).

(** [None]: a call through a NULL function pointer. *)
Definition memcheck_malloc (s : mstate W) (len : Z) (file : list Z) (line : Z) (i : nat)
    (flags : Z) : option (Z * mstate W) :=
  a ← allocators !! i;
  f ← (if flag_set flags MEM_DMA then malloc_dma a else malloc a);
  let '(p, w, m) := be_alloc f (u32 (len + 2 * MEM_SEC_ZONE)) (world s) (mem s) in
  let s := set_backend s w m in
  if negb (Z.land p 1 =? 0) then Some (0, s)
  else if p =? 0 then Some (0, s)
  else
    (* fill the guard zones *)
    let m := foldl (fun m pos => poke 1 m (p + pos) 0xA5) m (seqZ 0 MEM_SEC_ZONE) in
    let first := u32 (len + MEM_SEC_ZONE) in
    let m := foldl (fun m pos => poke 1 m (p + pos) 0xA5) m
                   (seqZ first (u32 (len + 2 * MEM_SEC_ZONE) - first)) in
    let uncacheable_flag := if p =? UNCACHEABLE p then UNCACHEABLE_FLAG else 0 in
    let m := poke 4 m (p + 4) len in
    let m := poke 2 m p (Z.of_nat i) in
    let m := poke 2 m (p + 2) (Z.lor flags uncacheable_flag) in
    let s := memcheck_add (set_mem s m) p file line in
    Some (u32 (p + MEM_SEC_ZONE), account s i 1 len).

Definition memcheck_free (s : mstate W) (buf : Z) (i : nat) (flags : Z) : option (mstate W) :=
  let p := u32 (buf - MEM_SEC_ZONE) in
  let '(f, s) := memcheck_check s p 0xFFFFFFFF in
  let s := memcheck_remove s p f in
  if negb (f =? 0) then Some s
  else
    let len := s32 (hdr_length (mem s) p) in
    let s := account s i (-1) len in
    a ← allocators !! i;
    g ← (if flag_set flags MEM_DMA then free_dma a else free a);
    let '(w, m) := be_free g p (world s) (mem s) in
    Some (set_backend s w m).

(** ** Choosing a pool *)

(** The criteria of [search_for_allocator] for one pool, in its order. *)
Definition allocator_matches (s : mstate W) (a : mem_allocator)
    (size require_preferred_size require_preferred_free_space require_tmp : Z) (require_dma : bool) : bool :=
  let has_non_dma := if malloc a then true else false in
  let has_dma := if malloc_dma a then true else false in
  let preferred_for_tmp :=
    if is_preferred_for_temporary_space a =? 0 then -1 else is_preferred_for_temporary_space a in
  let preferred_min := preferred_min_alloc_size a in
  let preferred_max := if preferred_max_alloc_size a =? 0 then INT_MAX else preferred_max_alloc_size a in
  let free_space := match get_free_space a with Some f => query f s | None => 30 * 1024 * 1024 end in
  let left := s32 (s32 (free_space - size) - 1024) in
  let max_region := match get_max_region a with
                    | Some f => s32 (query f s - 1024) | None => Z.quot free_space 4 end in
  ((require_dma && has_dma) || (negb require_dma && has_non_dma)) &&
  ((require_tmp =? 0) || (require_tmp =? preferred_for_tmp)) &&
  (((require_preferred_size <=? 0) || ((preferred_min <=? size) && (size <=? preferred_max))) &&
   ((minimum_alloc_size a <=? size) || (require_preferred_size =? -1))) &&
  (((require_preferred_free_space <=? 0) || (preferred_free_space a <? left)) &&
   (((require_preferred_free_space =? -1) && (size <? Z.quot (minimum_free_space a) 64) &&
     (Z.quot (minimum_free_space a) 4 <? left)) ||
    (minimum_free_space a <? left))) &&
  (size <=? max_region) &&
  (negb (depends_on_malloc a) ||
   negb ((GetFreeMemForMalloc (mem s) <? 16 * 1024) ||
         (GetMaxRegionForAllocateMemory (world s) <? 16 * 1024))).

Definition search_for_allocator (s : mstate W)
    (size require_preferred_size require_preferred_free_space require_tmp : Z) (require_dma : bool) : option nat :=
  fst <$> list_find (fun a => allocator_matches s a size require_preferred_size
                        require_preferred_free_space require_tmp require_dma = true) allocators.

(** The searches of [choose_allocator], in order: preferred size, preferred
    free space, temporary preference. *)
Definition searches (prefers_tmp : Z) : list (Z * Z * Z) :=
  [(1, 1, prefers_tmp); (0, 1, prefers_tmp); (0, 0, prefers_tmp)] ++
  (if prefers_tmp =? 0 then [] else [(1, 1, 0); (0, 1, 0); (0, 0, 0)]) ++
  [(-1, -1, 0)].

Fixpoint first_found (s : mstate W) (size : Z) (needs_dma : bool) (l : list (Z * Z * Z)) : option nat :=
  match l with
  | [] => None
  | (rs, rf, rt) :: l =>
    match search_for_allocator s size rs rf rt needs_dma with
    | Some a => Some a
    | None => first_found s size needs_dma l
    end
  end.

Definition choose_allocator (s : mstate W) (size flags : Z) : option nat :=
  let needs_dma := flag_set flags MEM_DMA in
  let prefers_tmp := if flag_set flags MEM_TEMPORARY then 1
                     else if flag_set flags MEM_SRM then 2 else -1 in
  first_found s size needs_dma (searches prefers_tmp).

(** ** The public operations *)

Definition __mem_malloc (s : mstate W) (size flags : Z) (file : list Z) (line : Z) : option (Z * mstate W) :=
  let file := file_name_without_path file in
  match choose_allocator s (s32 size) flags with
  | Some i =>
    '(p, s) ← memcheck_malloc s size file line i flags;
    '(p, s) ← (if (p =? 0) && (if allocators !! i is Some a then try_next_allocator a else false)
               then memcheck_malloc s size file line (i + 1) flags else Some (p, s));
    Some (if p =? 0 then 0
          else if flag_set flags MEM_DMA then UNCACHEABLE p else CACHEABLE p, s)
  | None => Some (0, s)
  end.

Definition __mem_free (s : mstate W) (buf : Z) : option (mstate W) :=
  if buf =? 0 then Some s
  else
    let p := u32 (buf - MEM_SEC_ZONE) in
    let i := hdr_allocator (mem s) p in
    let flags := hdr_flags (mem s) p in
    let buf := if flag_set flags UNCACHEABLE_FLAG then UNCACHEABLE buf else CACHEABLE buf in
    if i <? Z.of_nat (length allocators) then memcheck_free s buf (Z.to_nat i) flags else Some s.

End Manager.

(** ** Aligned blocks *)

Record aligned_alloc := mk_aligned_alloc { start : Z; len : Z }.

Definition MAX_ALIGNED_ALLOCS : nat := 16.

Record astate (W : Type) := mk_astate {
  a_world : W;
  a_mem : memory;
  aligned_allocs : list aligned_alloc;
  alloc_count : Z;
}.
Arguments mk_astate {W}. Arguments a_world {W}. Arguments a_mem {W}.
Arguments aligned_allocs {W}. Arguments alloc_count {W}.

Section Aligned.
Context {W : Type} `{Backend W}.

(** [None]: no free slot, the store would be out of bounds. *)
Definition malloc_aligned (s : astate W) (l alignment : Z) : option (Z * astate W) :=
  if Z.of_nat MAX_ALIGNED_ALLOCS <=? alloc_count s then Some (0, s)
  else
    let '(raw_ptr, w, m) := be_alloc _malloc (u32 (l + alignment)) (a_world s) (a_mem s) in
    if raw_ptr =? 0 then Some (0, mk_astate w m (aligned_allocs s) (alloc_count s))
    else
      i ← (if match aligned_allocs s !! Z.to_nat (alloc_count s) with
              | Some a => start a =? 0 | None => false end
           then Some (Z.to_nat (alloc_count s))
           else fst <$> list_find (fun a => start a = 0) (aligned_allocs s));
      let s := mk_astate w m (<[i := mk_aligned_alloc raw_ptr l]> (aligned_allocs s))
                         (u32 (alloc_count s + 1)) in
      Some (if raw_ptr mod alignment =? 0 then raw_ptr
            else u32 (raw_ptr + (alignment - raw_ptr mod alignment)), s).

Definition free_aligned (s : astate W) (p : Z) : astate W :=
  match list_find (fun a => start a <= p /\ p < u32 (start a + len a)) (aligned_allocs s) with
  | Some (i, a) =>
    let '(w, m) := be_free _free (start a) (a_world s) (a_mem s) in
    mk_astate w m (<[i := mk_aligned_alloc 0 0]> (aligned_allocs s)) (u32 (alloc_count s - 1))
  | None => s
  end.

End Aligned.
