(* ===== verification/MemCheckProps.v ===== *)
(** * Properties of the memory manager

    The manager against any pools that keep their blocks apart: every block
    it hands out has an intact header and guard zones as long as clients write
    only inside their blocks, such a block can be freed, and what the checks
    detect when a client does not. *)
From S2P Require Import Prelude CacheHacks MemCheck.

(** ** What the pools promise *)

(** A block lies in RAM, or in its uncacheable mirror. *)
Definition in_ram (p n : Z) : Prop :=
  0 < p /\ 0 <= n /\ (p + n <= 0x40000000 \/ 0x40000000 < p /\ p + n <= 0x80000000).

Definition apart (p n q k : Z) : Prop := phys p + n <= phys q \/ phys q + k <= phys p.

(** The release function that belongs to an allocation function. *)
Definition free_of (f : alloc_fn) : free_fn :=
  match f with
  | _malloc => _free | _AllocateMemory => _FreeMemory | _alloc_dma_memory => _free_dma_memory
  | _shoot_malloc => _shoot_free | _srm_malloc => _srm_free
  end.

(** The bytes of the live blocks. *)
Definition owned (B : gmap Z (Z * alloc_fn)) (a : Z) : Prop :=
  exists p n f, B !! p = Some (n, f) /\ phys p <= a < phys p + n.

(** Documented behaviour of an allocator: a returned block is even-aligned RAM
    apart from the live ones, an odd or zero result is a failure, and neither
    operation changes the bytes of other live blocks. *)
Class BackendOk (W : Type) `{Backend W} := {
  blocks : W -> gmap Z (Z * alloc_fn);
  alloc_frame f n w m p w' m' : be_alloc f n w m = (p, w', m') ->
    forall a, owned (blocks w) a -> rd8 m' a = rd8 m a;
  alloc_fail f n w m p w' m' : be_alloc f n w m = (p, w', m') ->
    p = 0 \/ Z.land p 1 <> 0 -> blocks w' = blocks w;
  alloc_fresh f n w m p w' m' : be_alloc f n w m = (p, w', m') -> 0 <= n < 2 ^ 32 ->
    p <> 0 -> Z.land p 1 = 0 ->
    in_ram p n /\ blocks w' = <[p := (n, f)]> (blocks w) /\
    forall q k g, blocks w !! q = Some (k, g) -> apart p n q k;
  free_frame f p n w m w' m' : blocks w !! p = Some (n, f) ->
    be_free (free_of f) p w m = (w', m') ->
    blocks w' = delete p (blocks w) /\
    forall a, owned (delete p (blocks w)) a -> rd8 m' a = rd8 m a;
}.

(** ** Addresses inside a block *)

Lemma phys_low p : p < 0x40000000 -> phys p = p.
Proof. intros. unfold phys, is_uncached. by rewrite (proj2 (Z.leb_gt _ _)) by lia. Qed.

Lemma phys_high p : 0x40000000 <= p < 0x80000000 -> phys p = p - 0x40000000.
Proof.
  intros. unfold phys, is_uncached.
  by rewrite (proj2 (Z.leb_le _ _)), (proj2 (Z.ltb_lt _ _)) by lia.
Qed.

Lemma phys_off p n k : in_ram p n -> 0 <= k < n -> phys (u32 (p + k)) = phys p + k.
Proof.
  intros (H0 & Hn & [H1|H1]) Hk; rewrite u32_small by lia.
  - rewrite !phys_low by lia. done.
  - rewrite !phys_high by lia. lia.
Qed.

Lemma peek_off n m p k o : in_ram p n -> 0 <= o < n -> peek k m (p + o) = ld k m (phys p + o).
Proof. intros H Ho. unfold peek. by rewrite (phys_off p n). Qed.

Lemma peek8_off n m p o : in_ram p n -> 0 <= o < n -> peek8 m (p + o) = rd8 m (phys p + o).
Proof. intros H Ho. unfold peek8. by rewrite (phys_off p n). Qed.

Lemma poke_off n m p k o v : in_ram p n -> 0 <= o < n -> poke k m (p + o) v = st k m (phys p + o) v.
Proof. intros H Ho. unfold poke. by rewrite (phys_off p n). Qed.

Lemma peek_base n m p k : in_ram p n -> 0 < n -> peek k m p = ld k m (phys p).
Proof. intros H Hn. rewrite <- (Z.add_0_r p) at 1. by rewrite (peek_off n), Z.add_0_r by (done || lia). Qed.

Lemma poke_base n m p k v : in_ram p n -> 0 < n -> poke k m p v = st k m (phys p) v.
Proof. intros H Hn. rewrite <- (Z.add_0_r p) at 1. by rewrite (poke_off n), Z.add_0_r by (done || lia). Qed.

Lemma phys_range p n : in_ram p n -> 0 < n -> 0 <= phys p /\ phys p + n <= 0x40000000.
Proof. intros (H0 & Hn & [H1|H1]) ?; [rewrite phys_low by lia|rewrite phys_high by lia]; lia. Qed.

(** Guard bytes written one by one. *)
Lemma rd8_zone n p a cnt m b : in_ram p n -> 0 <= a -> a + cnt <= n ->
  rd8 (foldl (fun m pos => poke 1 m (p + pos) 0xA5) m (seqZ a cnt)) b =
  if decide (phys p + a <= b < phys p + a + cnt) then 0xA5 else rd8 m b.
Proof.
  intros Hr Ha Hn. destruct (decide (cnt <= 0)) as [Hc|Hc].
  { rewrite seqZ_nil by lia. simpl. rewrite decide_False; [done|lia]. }
  assert (exists c, cnt = Z.of_nat c) as [c ->] by (exists (Z.to_nat cnt); lia). clear Hc.
  rename c into cnt. induction cnt as [|cnt IH].
  { rewrite seqZ_nil by lia. simpl. rewrite decide_False; [done|lia]. }
  replace (Z.of_nat (S cnt)) with (Z.of_nat cnt + 1) in * by lia.
  rewrite seqZ_app, foldl_app by lia. cbn [foldl seqZ]. 
  change (seqZ (a + Z.of_nat cnt) 1) with [Z.of_nat 0 + (a + Z.of_nat cnt)].
  cbn [foldl]. rewrite Z.add_0_l, (poke_off n) by (done || lia).
  rewrite rd8_st, IH by lia. repeat case_decide; try lia; try done.
  replace (b - (phys p + (a + Z.of_nat cnt))) with 0 by lia. done.
Qed.

(** ** Blocks in the hands of clients *)

Record ublock := mk_ublock { raw : Z; blen : Z; pool : nat; bflags : Z }.

Definition user_ptr (b : ublock) : Z :=
  let p := u32 (raw b + MEM_SEC_ZONE) in
  if flag_set (bflags b) MEM_DMA then UNCACHEABLE p else CACHEABLE p.

Definition alloc_of (b : ublock) : option alloc_fn :=
  a ← allocators !! pool b; if flag_set (bflags b) MEM_DMA then malloc_dma a else malloc a.

Definition unc_flag (p : Z) : Z := if p =? UNCACHEABLE p then UNCACHEABLE_FLAG else 0.

(** The entry table knows a block under its ID, unless it ran out of room. *)
Definition tracked (es : list memcheck_entry) (p id : Z) : Prop :=
  id = UNTRACKED \/
  0 <= id < Z.of_nat MEMCHECK_ENTRIES /\ ptr (nth (Z.to_nat id) es null_entry) = p.

(** Header and guard zones of a block, by physical address. *)
Record block_ok (m : memory) (es : list memcheck_entry) (b : ublock) : Prop := {
  bo_pool : ld 2 m (phys (raw b)) = Z.of_nat (pool b);
  bo_flags : ld 2 m (phys (raw b) + 2) = Z.lor (bflags b) (unc_flag (raw b));
  bo_len : ld 4 m (phys (raw b) + 4) = blen b;
  bo_id : tracked es (raw b) (ld 4 m (phys (raw b) + 8));
  bo_under k : 12 <= k < 16 -> rd8 m (phys (raw b) + k) = 0xA5;
  bo_over k : 0 <= k < 16 -> rd8 m (phys (raw b) + 16 + blen b + k) = 0xA5;
}.

(** The parameters of a block. *)
Record block_wf (b : ublock) : Prop := {
  bw_flags : 0 <= bflags b < UNCACHEABLE_FLAG;
  bw_len : 0 <= blen b /\ blen b + 32 < 2 ^ 31;
  bw_ram : in_ram (raw b) (blen b + 32);
  bw_even : Z.land (raw b) 1 = 0;
}.

(** A block depends only on its own guard and header bytes. *)
Lemma block_ok_frame m m' es b : 0 <= blen b -> block_ok m es b ->
  (forall a, phys (raw b) <= a < phys (raw b) + 16 \/
             phys (raw b) + 16 + blen b <= a < phys (raw b) + 32 + blen b -> rd8 m' a = rd8 m a) ->
  block_ok m' es b.
Proof.
  intros Hl [H1 H2 H3 H4 H5 H6] Hf.
  assert (Hld : forall n o, 0 <= o -> o + Z.of_nat n <= 16 ->
    ld n m' (phys (raw b) + o) = ld n m (phys (raw b) + o)).
  { intros n o Ho Hn. apply ld_ext. intros a Ha. apply Hf. lia. }
  split.
  - pose proof (Hld 2%nat 0 ltac:(lia) ltac:(lia)) as E. rewrite !Z.add_0_r in E. by rewrite E.
  - by rewrite Hld by lia.
  - by rewrite Hld by lia.
  - by rewrite Hld by lia.
  - intros k Hk. rewrite Hf by lia. by apply H5.
  - intros k Hk. rewrite Hf by lia. by apply H6.
Qed.

Lemma unc_flag_range p : unc_flag p = 0 \/ unc_flag p = UNCACHEABLE_FLAG.
Proof. unfold unc_flag. case_match; auto. Qed.

(** Header flags: the client's flags plus bit 15. *)
Lemma flags_dma fl p : flag_set (Z.lor fl (unc_flag p)) MEM_DMA = flag_set fl MEM_DMA.
Proof.
  unfold flag_set. rewrite Z.land_lor_distr_l.
  destruct (unc_flag_range p) as [-> | ->]; change (Z.land _ MEM_DMA) with 0 at 2; by rewrite Z.lor_0_r.
Qed.

Lemma low_no_bit15 fl : 0 <= fl < UNCACHEABLE_FLAG -> Z.land fl UNCACHEABLE_FLAG = 0.
Proof.
  intros H. rewrite <- (Z.mod_small fl UNCACHEABLE_FLAG) by done.
  change UNCACHEABLE_FLAG with (2 ^ 15) at 1. rewrite <- Z.land_ones by lia.
  rewrite <- Z.land_assoc. apply Z.land_0_r.
Qed.

Lemma flags_unc fl p : 0 <= fl < UNCACHEABLE_FLAG ->
  flag_set (Z.lor fl (unc_flag p)) UNCACHEABLE_FLAG = (p =? UNCACHEABLE p).
Proof.
  intros H. unfold flag_set. rewrite Z.land_lor_distr_l, low_no_bit15, Z.lor_0_l by done.
  unfold unc_flag. by destruct (p =? UNCACHEABLE p).
Qed.

Lemma flags_u16 fl p : 0 <= fl < UNCACHEABLE_FLAG -> 0 <= Z.lor fl (unc_flag p) < 2 ^ 16.
Proof.
  intros H. split; [apply Z.lor_nonneg; destruct (unc_flag_range p) as [-> | ->]; split; unfold UNCACHEABLE_FLAG in *; lia|].
  destruct (unc_flag_range p) as [-> | ->]; [rewrite Z.lor_0_r; unfold UNCACHEABLE_FLAG in *; lia|].
  pose proof (Z.add_lor_land fl UNCACHEABLE_FLAG) as E. rewrite low_no_bit15 in E by done.
  unfold UNCACHEABLE_FLAG in *. lia.
Qed.

(** ** Aliases *)

Lemma uncacheable_low x : 0 <= x < 0x40000000 -> UNCACHEABLE x = x + 0x40000000.
Proof.
  intros H. unfold UNCACHEABLE. rewrite (proj2 (Z.ltb_lt _ _)) by lia.
  pose proof (Z.add_lor_land x 0x40000000) as E.
  assert (Z.land x 0x40000000 = 0) as Hz; [|lia].
  rewrite <- (Z.mod_small x (2 ^ 30)) by lia. rewrite <- Z.land_ones, <- Z.land_assoc by lia.
  apply Z.land_0_r.
Qed.

Lemma uncacheable_high x : 0x40000000 <= x -> UNCACHEABLE x = x.
Proof. intros H. unfold UNCACHEABLE. rewrite (proj2 (Z.ltb_ge _ _)) by lia. apply Z.lor_0_r. Qed.

Lemma cacheable_phys x : 0 <= x < 0x80000000 -> CACHEABLE x = phys x.
Proof.
  intros H. unfold CACHEABLE. change (Z.lxor 0xFFFFFFFF 0x40000000) with 0xBFFFFFFF.
  assert (Hl : forall y, 0 <= y < 0x40000000 -> Z.land y 0xBFFFFFFF = y).
  { intros y Hy. rewrite <- (Z.mod_small y (2 ^ 30)) at 1 by lia.
    rewrite <- Z.land_ones, <- Z.land_assoc by lia.
    change (Z.land (Z.ones 30) 0xBFFFFFFF) with (Z.ones 30). rewrite Z.land_ones, Z.mod_small; lia. }
  destruct (decide (x < 0x40000000)); [rewrite phys_low by lia; apply Hl; lia|].
  rewrite phys_high by lia.
  assert (x = Z.lor (x - 0x40000000) 0x40000000) as E.
  { pose proof (uncacheable_low (x - 0x40000000) ltac:(lia)) as E. unfold UNCACHEABLE in E.
    rewrite (proj2 (Z.ltb_lt _ _)) in E by lia. lia. }
  rewrite E at 1. rewrite Z.land_lor_distr_l, Hl by lia. apply Z.lor_0_r.
Qed.

Ltac phys_solve :=
  rewrite u32_small by lia;
  repeat first [rewrite phys_low by lia | rewrite phys_high by lia]; unfold in_ram; lia.

(** The three pointers to a block: the pool's, the client's, and the one
    [__mem_free] computes back. *)
Lemma user_ptr_facts b : block_wf b ->
  let u := user_ptr b in
  phys u = phys (raw b) + 16 /\ 16 < u < 0x80000000 /\
  phys (u32 (u - 16)) = phys (raw b) /\
  in_ram (u32 (u - 16)) (blen b + 32) /\
  (if raw b =? UNCACHEABLE (raw b) then UNCACHEABLE u else CACHEABLE u) = raw b + 16.
Proof.
  intros [_ [Hl1 Hl2] Hr _] u. destruct Hr as (H0 & Hn & Hr).
  unfold u, user_ptr, MEM_SEC_ZONE. rewrite (u32_small (raw b + 16)) by lia.
  destruct (flag_set (bflags b) MEM_DMA); destruct Hr as [Hr|Hr].
  - rewrite (uncacheable_low (raw b)), (uncacheable_low (raw b + 16)) by lia.
    rewrite (proj2 (Z.eqb_neq _ _)), cacheable_phys by lia. phys_solve.
  - rewrite (uncacheable_high (raw b)), (uncacheable_high (raw b + 16)), Z.eqb_refl by lia.
    rewrite uncacheable_high by lia. phys_solve.
  - rewrite (uncacheable_low (raw b)), cacheable_phys by lia.
    rewrite (proj2 (Z.eqb_neq _ _)), (phys_low (raw b + 16)), cacheable_phys by lia. phys_solve.
  - rewrite (uncacheable_high (raw b)), cacheable_phys, Z.eqb_refl by lia.
    rewrite (phys_high (raw b + 16)), uncacheable_low by lia. phys_solve.
Qed.

(** Every pool releases what it allocated. *)
Lemma allocators_matched i a : allocators !! i = Some a ->
  free a = free_of <$> malloc a /\ free_dma a = free_of <$> malloc_dma a.
Proof. intros H. do 4 (destruct i as [|i]; [by injection H as <-|]). done. Qed.

(** A guard zone is bad when one of its bytes is. *)
Lemma zone_bad_exists m p l k : k ∈ l -> peek8 m (p + k) <> 0xA5 -> zone_bad m p l = true.
Proof.
  intros Hk Hb. apply existsb_exists. exists k. split; [by apply list_elem_of_In|].
  by apply negb_true_iff, Z.eqb_neq.
Qed.

Lemma zone_bad_none m p l : (forall k, k ∈ l -> peek8 m (p + k) = 0xA5) -> zone_bad m p l = false.
Proof.
  intros Hz. apply not_true_iff_false. intros (k & Hk & E)%existsb_exists.
  apply list_elem_of_In, Hz in Hk. by rewrite Hk in E.
Qed.

(** What the ID alone contributes to the check. *)
Definition id_flags (id : Z) : Z :=
  if id =? UNTRACKED then 0 else if id =? JUST_FREED then 16
  else if Z.of_nat MEMCHECK_ENTRIES <=? id then 8 else 0.

Lemma check_flags_id m b : block_wf b -> ld 4 m (phys (raw b) + 4) = blen b ->
  (forall k, 12 <= k < 16 -> rd8 m (phys (raw b) + k) = 0xA5) ->
  (forall k, 0 <= k < 16 -> rd8 m (phys (raw b) + 16 + blen b + k) = 0xA5) ->
  check_flags m (raw b) 0xFFFFFFFF = id_flags (ld 4 m (phys (raw b) + 8)).
Proof.
  intros [_ [Hl1 Hl2] Hr _] Hlen Hu Ho. unfold check_flags.
  assert (zone_bad m (raw b) (seqZ sizeof_memcheck_hdr (MEM_SEC_ZONE - sizeof_memcheck_hdr)) = false) as ->.
  { apply zone_bad_none. intros k Hk%elem_of_seqZ. unfold sizeof_memcheck_hdr, MEM_SEC_ZONE in Hk.
    rewrite (peek8_off (blen b + 32)) by (done || lia). apply Hu. lia. }
  assert (Hh : hdr_length m (raw b) = blen b).
  { unfold hdr_length. by rewrite (peek_off (blen b + 32)) by (done || lia). }
  assert (zone_bad m (raw b) (map (fun pos => s32 (MEM_SEC_ZONE + hdr_length m (raw b) + pos))
            (seqZ 0 MEM_SEC_ZONE)) = false) as ->.
  { apply zone_bad_none. rewrite Hh. intros k (j & -> & Hj%elem_of_seqZ)%list_elem_of_fmap.
    unfold MEM_SEC_ZONE in *. rewrite s32_small, (peek8_off (blen b + 32)) by (done || lia).
    rewrite <- (Ho j) by lia. f_equal. lia. }
  unfold hdr_id. rewrite (peek_off (blen b + 32)) by (done || lia). unfold id_flags.
  rewrite Z.eqb_refl, andb_false_r. done.
Qed.

Lemma id_flags_tracked es p id : tracked es p id -> id_flags id = 0.
Proof.
  unfold id_flags. intros [-> |[Hid _]]; [done|].
  rewrite (proj2 (Z.eqb_neq _ UNTRACKED)) by (unfold UNTRACKED, MEMCHECK_ENTRIES in *; lia).
  rewrite (proj2 (Z.eqb_neq _ JUST_FREED)) by (unfold JUST_FREED, MEMCHECK_ENTRIES in *; lia).
  by rewrite (proj2 (Z.leb_gt _ _)) by lia.
Qed.

(** An intact block passes the check. *)
Lemma check_flags_ok m es b : block_wf b -> block_ok m es b ->
  check_flags m (raw b) 0xFFFFFFFF = 0.
Proof.
  intros Hw [_ _ Hlen Hid Hu Ho]. rewrite (check_flags_id m b) by done. by eapply id_flags_tracked.
Qed.

Section Heap.
Context {W : Type} `{BackendOk W}.

(** The blocks of the pools are apart; the entry table has its size; every
    block in the hands of a client is live, intact and known. *)
Record heap_ok (s : mstate W) (U : gmap Z ublock) : Prop := {
  ho_entries : length (memcheck_entries s) = MEMCHECK_ENTRIES;
  ho_pos : (memcheck_bufpos s < MEMCHECK_ENTRIES)%nat;
  ho_apart p n f q k g : blocks (world s) !! p = Some (n, f) -> blocks (world s) !! q = Some (k, g) ->
    p <> q -> apart p n q k;
  ho_user u b : U !! u = Some b -> u = user_ptr b /\ block_wf b;
  ho_ok u b : U !! u = Some b -> block_ok (mem s) (memcheck_entries s) b;
  ho_live u b : U !! u = Some b -> exists f, alloc_of b = Some f /\
    blocks (world s) !! raw b = Some (blen b + 32, f);
}.

(** Different clients have different blocks. *)
Lemma user_raw_inj (s : mstate W) U u v b c : heap_ok s U -> U !! u = Some b -> U !! v = Some c ->
  raw b = raw c -> u = v.
Proof.
  intros Hh Hb Hc E. destruct (ho_user _ _ Hh _ _ Hb) as [-> Hwb], (ho_user _ _ Hh _ _ Hc) as [-> Hwc].
  pose proof (ho_ok _ _ Hh _ _ Hb) as Hob. pose proof (ho_ok _ _ Hh _ _ Hc) as Hoc.
  unfold user_ptr. rewrite E.
  pose proof (bo_flags _ _ _ Hob) as F1. rewrite E, (bo_flags _ _ _ Hoc) in F1.
  rewrite <- (flags_dma (bflags b) (raw c)), <- (flags_dma (bflags c) (raw c)), F1. done.
Qed.

(** Removing an intact block from the entry table. *)
Lemma memcheck_remove_ok (s : mstate W) b : block_wf b -> block_ok (mem s) (memcheck_entries s) b ->
  length (memcheck_entries s) = MEMCHECK_ENTRIES ->
  exists es, memcheck_remove s (raw b) 0 =
    set_entries (set_mem s (st 4 (mem s) (phys (raw b) + 8) JUST_FREED)) es (memcheck_bufpos s) /\
    length es = MEMCHECK_ENTRIES /\
    forall q id, q <> raw b -> tracked (memcheck_entries s) q id -> q <> 0 -> tracked es q id.
Proof.
  intros Hw [_ _ _ Hid _ _] Hlen. pose proof (bw_ram _ Hw) as Hr. pose proof (bw_len _ Hw) as Hl.
  unfold memcheck_remove. rewrite (poke_off (blen b + 32)) by (done || lia).
  unfold hdr_id. rewrite (peek_off (blen b + 32)) by (done || lia).
  destruct Hid as [-> |[Hid Hp]].
  { exists (memcheck_entries s). by destruct s. }
  set (id := ld 4 (mem s) (phys (raw b) + 8)) in *.
  rewrite (proj2 (Z.eqb_neq _ UNTRACKED)) by (unfold UNTRACKED, MEMCHECK_ENTRIES in *; lia).
  rewrite (proj2 (Z.leb_gt _ _)) by lia. cbn [memcheck_entries set_mem].
  rewrite Hp, (Z.eqb_refl (raw b)). cbn [negb orb Z.eqb].
  eexists. split; [reflexivity|]. split; [by rewrite length_insert|].
  intros q id' Hne [->|[Hr' Hq]] Hq0; [by left|right]. split; [done|].
  rewrite nth_lookup, list_lookup_insert_ne; [by rewrite <- nth_lookup|].
  intros E. apply Z2Nat.inj in E; [|lia|lia]. subst id'. congruence.
Qed.

(** The heap without one block, after memory outside it was kept. *)
Lemma heap_ok_delete (s : mstate W) U u b es s1 : heap_ok s U -> U !! u = Some b ->
  length es = MEMCHECK_ENTRIES -> (memcheck_bufpos s1 < MEMCHECK_ENTRIES)%nat ->
  memcheck_entries s1 = es -> blocks (world s1) = delete (raw b) (blocks (world s)) ->
  (forall q id, q <> raw b -> tracked (memcheck_entries s) q id -> q <> 0 -> tracked es q id) ->
  (forall a, owned (delete (raw b) (blocks (world s))) a ->
     a < phys (raw b) \/ phys (raw b) + blen b + 32 <= a -> rd8 (mem s1) a = rd8 (mem s) a) ->
  heap_ok s1 (delete u U).
Proof.
  intros Hh Hb Hles Hpos Hes Hbl Htr Hmem.
  destruct (ho_live _ _ Hh _ _ Hb) as (f & _ & Hlive).
  assert (Hother : forall v c, delete u U !! v = Some c -> U !! v = Some c /\ raw c <> raw b).
  { intros v c Hc. apply lookup_delete_Some in Hc as [Hne Hc]. split; [done|].
    intros E. apply Hne. by eapply (user_raw_inj s U u v b c). }
  split.
  - by rewrite Hes.
  - done.
  - intros p n g q k h. rewrite Hbl, !lookup_delete_Some. intros [_ Hp] [_ Hq] Hne.
    by eapply (ho_apart _ _ Hh).
  - intros v c Hc. apply (ho_user _ _ Hh), (Hother v c Hc).
  - intros v c Hc. destruct (Hother v c Hc) as [Hc' Hne]. rewrite Hes.
    destruct (ho_user _ _ Hh _ _ Hc') as [_ Hwc]. pose proof (bw_len _ Hwc) as Hlc.
    pose proof (bw_ram _ Hwc) as (Hc0 & _ & _).
    destruct (ho_live _ _ Hh _ _ Hc') as (g & _ & Hlc').
    apply (block_ok_frame (mem s)); [lia| |].
    + destruct (ho_ok _ _ Hh _ _ Hc') as [? ? ? Hid ? ?]. split; try done. apply Htr; (done || lia).
    + intros a Ha. apply Hmem.
      * exists (raw c), (blen c + 32), g. rewrite lookup_delete_ne by done. split; [done|lia].
      * destruct (ho_apart _ _ Hh _ _ _ _ _ _ Hlive Hlc') as [?|?]; [congruence|lia|lia].
  - intros v c Hc. destruct (Hother v c Hc) as [Hc' Hne].
    destruct (ho_live _ _ Hh _ _ Hc') as (g & Hg & Hlc). exists g. split; [done|].
    by rewrite Hbl, lookup_delete_ne.
Qed.

(** Freeing an intact block through its pool. *)
Lemma memcheck_free_ok (s : mstate W) U u b : heap_ok s U -> U !! u = Some b ->
  exists f s1, alloc_of b = Some f /\
    memcheck_free s (raw b + 16) (pool b) (Z.lor (bflags b) (unc_flag (raw b))) = Some s1 /\
    last_error s1 = last_error s /\ blocks (world s1) = delete (raw b) (blocks (world s)) /\
    alloc_total s1 = s32 (alloc_total s - blen b) /\
    (forall a, owned (delete (raw b) (blocks (world s))) a -> rd8 (mem s1) a = rd8 (mem s) a) /\
    heap_ok s1 (delete u U).
Proof.
  intros Hh Hb. destruct (ho_user _ _ Hh _ _ Hb) as [Hu Hw].
  destruct (ho_live _ _ Hh _ _ Hb) as (f & Hf & Hlive).
  pose proof (ho_ok _ _ Hh _ _ Hb) as Hok. pose proof (bw_ram _ Hw) as Hr. pose proof (bw_len _ Hw) as Hl.
  pose proof Hr as (Hr0 & _ & _).
  assert (Ep : u32 (raw b + 16 - MEM_SEC_ZONE) = raw b).
  { unfold MEM_SEC_ZONE. rewrite u32_small; [lia|]. destruct Hr as (? & ? & [?|?]); lia. }
  exists f. unfold memcheck_free. rewrite Ep. unfold memcheck_check.
  rewrite (check_flags_ok _ _ _ Hw Hok). cbn [Z.eqb negb andb].
  destruct (memcheck_remove_ok s b Hw Hok (ho_entries _ _ Hh)) as (es & Hrem & Hles & Htr).
  rewrite (proj2 (Z.ltb_ge _ _)) by (unfold MEMCHECK_ENTRIES; lia). rewrite Hrem.
  destruct (allocators !! pool b) as [a|] eqn:Ea; [|unfold alloc_of in Hf; by rewrite Ea in Hf].
  cbn [mbind option_bind].
  assert (Hfree : (if flag_set (Z.lor (bflags b) (unc_flag (raw b))) MEM_DMA
                   then free_dma a else free a) = Some (free_of f)).
  { rewrite flags_dma. destruct (allocators_matched _ _ Ea) as [E1 E2].
    unfold alloc_of in Hf. rewrite Ea in Hf. cbn in Hf.
    destruct (flag_set _ _); [rewrite E2|rewrite E1]; by rewrite Hf. }
  rewrite Hfree. cbn [mbind option_bind].
  destruct (be_free (free_of f) (raw b) _ _) as [w' m'] eqn:Efree.
  destruct (free_frame f (raw b) _ _ _ w' m' Hlive Efree) as [Hbl Hfr].
  eexists. split; [done|]. split; [reflexivity|]. split; [done|]. split; [done|].
  split.
  { cbn [account alloc_total set_backend]. unfold hdr_length. cbn [mem set_entries set_mem].
    rewrite (peek_off (blen b + 32)), ld_st_out, (bo_len _ _ _ Hok) by (done || lia).
    by rewrite (s32_small (blen b)) by lia. }
  assert (Hmem : forall c, owned (delete (raw b) (blocks (world s))) c -> rd8 m' c = rd8 (mem s) c).
  { intros c Hc. rewrite Hfr by done. apply rd8_st_out.
    destruct Hc as (q & k & g & Hq & Hc). apply lookup_delete_Some in Hq as [Hne Hq].
    destruct (ho_apart _ _ Hh _ _ _ _ _ _ Hlive Hq); [done|lia|lia]. }
  split; [done|]. cbn [account set_backend]. apply (heap_ok_delete s U u b es); cbn; try done.
  - apply (ho_pos _ _ Hh).
  - intros c Hc _. by apply Hmem.
Qed.

(** [__mem_free] of a block in the hands of a client. *)
Lemma mem_free_ok (s : mstate W) U u b : heap_ok s U -> U !! u = Some b ->
  exists s1, __mem_free s u = Some s1 /\ last_error s1 = last_error s /\
    blocks (world s1) = delete (raw b) (blocks (world s)) /\
    alloc_total s1 = s32 (alloc_total s - blen b) /\
    (forall a, owned (delete (raw b) (blocks (world s))) a -> rd8 (mem s1) a = rd8 (mem s) a) /\
    heap_ok s1 (delete u U).
Proof.
  intros Hh Hb. destruct (memcheck_free_ok s U u b Hh Hb) as (f & s1 & Hf & Hfree & Hrest).
  exists s1. split; [|done]. destruct (ho_user _ _ Hh _ _ Hb) as [Hu Hw].
  pose proof (ho_ok _ _ Hh _ _ Hb) as Hok. pose proof (bw_len _ Hw) as Hl.
  destruct (user_ptr_facts b Hw) as (_ & Hur & Hp & Hram & Halias). rewrite <- Hu in *.
  unfold __mem_free. rewrite (proj2 (Z.eqb_neq u 0)) by lia. cbv zeta. unfold MEM_SEC_ZONE.
  assert (Hi : hdr_allocator (mem s) (u32 (u - 16)) = Z.of_nat (pool b)).
  { unfold hdr_allocator. rewrite (peek_base (blen b + 32)), Hp by (done || lia). apply Hok. }
  assert (Hfl : hdr_flags (mem s) (u32 (u - 16)) = Z.lor (bflags b) (unc_flag (raw b))).
  { unfold hdr_flags. rewrite (peek_off (blen b + 32)), Hp by (done || lia). apply Hok. }
  rewrite Hi, Hfl, flags_unc, Halias by apply Hw.
  rewrite (proj2 (Z.ltb_lt _ _)), Nat2Z.id; [done|].
  apply Nat2Z.inj_lt. apply (lookup_lt_is_Some_1 allocators).
  unfold alloc_of in Hf. destruct (allocators !! pool b); [by eexists|done].
Qed.

(** ** Allocating *)

Lemma find_entry_ok es tries pos found pos' : (pos < MEMCHECK_ENTRIES)%nat ->
  find_entry es tries pos = (found, pos') ->
  (pos' < MEMCHECK_ENTRIES)%nat /\ (found = true -> ptr (nth pos' es null_entry) = 0).
Proof.
  revert pos. induction tries as [|tries IH]; intros pos Hpos E; [by injection E as <- <-|].
  cbn [find_entry] in E. destruct (Z.eqb_spec (ptr (nth pos es null_entry)) 0); [by injection E as <- <-|].
  assert (Hm : ((pos + 1) mod MEMCHECK_ENTRIES < MEMCHECK_ENTRIES)%nat) by (apply Nat.mod_upper_bound; done).
  destruct tries; [by injection E as <- <-|]. by apply (IH _ Hm).
Qed.

Lemma memcheck_add_ok (s : mstate W) p fl ln n : in_ram p n -> 12 <= n ->
  length (memcheck_entries s) = MEMCHECK_ENTRIES -> (memcheck_bufpos s < MEMCHECK_ENTRIES)%nat ->
  exists es pos id, memcheck_add s p fl ln =
      set_mem (set_entries s es pos) (st 4 (mem s) (phys p + 8) id) /\
    length es = MEMCHECK_ENTRIES /\ (pos < MEMCHECK_ENTRIES)%nat /\
    0 <= id < 2 ^ 32 /\ tracked es p id /\
    forall q id', q <> 0 -> tracked (memcheck_entries s) q id' -> tracked es q id'.
Proof.
  intros Hr Hn Hlen Hpos. unfold memcheck_add.
  destruct (find_entry _ _ _) as [found pos] eqn:E.
  destruct (find_entry_ok _ _ _ _ _ Hpos E) as [Hpos' Hfree].
  rewrite !(poke_off n) by (done || lia). destruct found.
  - eexists _, pos, (Z.of_nat pos). split; [reflexivity|].
    split; [by rewrite length_insert|]. split; [done|].
    split; [unfold MEMCHECK_ENTRIES in *; lia|]. split.
    + right. split; [lia|]. rewrite Nat2Z.id, nth_lookup, list_lookup_insert_eq by lia. done.
    + intros q id' Hq [->|[Hr' Hp']]; [by left|right]. split; [done|].
      destruct (decide (pos = Z.to_nat id')) as [->|Hne].
      * specialize (Hfree eq_refl). congruence.
      * rewrite nth_lookup, list_lookup_insert_ne by done. by rewrite <- nth_lookup.
  - eexists _, pos, UNTRACKED. split; [reflexivity|]. split_and!; try done. by left.
Qed.

End Heap.

(** The memory of a new block. *)
Definition prepared (m : memory) (p len flags : Z) (i : nat) (id : Z) : memory :=
  let m := foldl (fun m pos => poke 1 m (p + pos) 0xA5) m (seqZ 0 MEM_SEC_ZONE) in
  let first := u32 (len + MEM_SEC_ZONE) in
  let m := foldl (fun m pos => poke 1 m (p + pos) 0xA5) m
                 (seqZ first (u32 (len + 2 * MEM_SEC_ZONE) - first)) in
  let m := poke 4 m (p + 4) len in
  let m := poke 2 m p (Z.of_nat i) in
  let m := poke 2 m (p + 2) (Z.lor flags (unc_flag p)) in
  st 4 m (phys p + 8) id.

Lemma prepared_ok m p len fl i id es : block_wf (mk_ublock p len i fl) -> (i < 4)%nat ->
  0 <= id < 2 ^ 32 -> tracked es p id ->
  block_ok (prepared m p len fl i id) es (mk_ublock p len i fl) /\
  forall a, a < phys p \/ phys p + len + 32 <= a -> rd8 (prepared m p len fl i id) a = rd8 m a.
Proof.
  intros [Hf [Hl1 Hl2] Hr _] Hi Hid Ht. cbn [raw blen bflags] in *. unfold prepared, MEM_SEC_ZONE.
  rewrite !(u32_small (len + _)) by lia. replace (len + 2 * 16 - (len + 16)) with 16 by lia.
  rewrite !(poke_off (len + 32)), !(poke_base (len + 32)) by (done || lia).
  pose proof (flags_u16 fl p Hf) as Hfl.
  assert (Hz1 := fun m b => rd8_zone (len + 32) p 0 16 m b Hr ltac:(lia) ltac:(lia)).
  assert (Hz2 := fun m b => rd8_zone (len + 32) p (len + 16) 16 m b Hr ltac:(lia) ltac:(lia)).
  split; [split; cbn [raw blen bflags pool]|].
  - rewrite !ld_st_out, ld_st_same by lia. apply Z.mod_small. lia.
  - rewrite ld_st_out, ld_st_same by lia. apply Z.mod_small. done.
  - rewrite !ld_st_out, ld_st_same by lia. apply Z.mod_small. lia.
  - rewrite ld_st_same, Z.mod_small by done. done.
  - intros k Hk. rewrite !rd8_st_out, Hz2, decide_False, Hz1, decide_True by lia. done.
  - intros k Hk. rewrite !rd8_st_out, Hz2, decide_True by lia. done.
  - intros a Ha. rewrite !rd8_st_out, Hz2, decide_False, Hz1, decide_False by lia. done.
Qed.

Section Malloc.
Context {W : Type} `{BackendOk W}.

(** The heap after the pool changed memory only outside the live blocks. *)
Lemma heap_ok_backend (s : mstate W) U w m : heap_ok s U -> blocks w = blocks (world s) ->
  (forall a, owned (blocks (world s)) a -> rd8 m a = rd8 (mem s) a) ->
  heap_ok (set_backend s w m) U.
Proof.
  intros Hh Hb Hm. split; cbn.
  - apply Hh.
  - apply Hh.
  - rewrite Hb. apply Hh.
  - apply Hh.
  - intros u b Hu. pose proof (bw_len _ (proj2 (ho_user _ _ Hh _ _ Hu))).
    apply (block_ok_frame (mem s)); [lia|by apply (ho_ok _ _ Hh u)|].
    destruct (ho_live _ _ Hh _ _ Hu) as (f & _ & Hl). intros a Ha. apply Hm.
    exists (raw b), (blen b + 32), f. split; [done|lia].
  - rewrite Hb. apply Hh.
Qed.

(** A fresh block has a fresh client pointer. *)
Lemma user_ptr_fresh (s : mstate W) U b f : heap_ok s U -> block_wf b ->
  (forall q k g, blocks (world s) !! q = Some (k, g) -> apart (raw b) (blen b + 32) q k) ->
  alloc_of b = Some f -> U !! user_ptr b = None.
Proof.
  intros Hh Hw Hap Hf. destruct (U !! user_ptr b) as [c|] eqn:E; [|done]. exfalso.
  destruct (ho_user _ _ Hh _ _ E) as [Hu Hwc]. destruct (ho_live _ _ Hh _ _ E) as (g & _ & Hl).
  destruct (user_ptr_facts b Hw) as (Hb & _), (user_ptr_facts c Hwc) as (Hc & _).
  rewrite <- Hu in Hc. pose proof (bw_len _ Hw). pose proof (bw_len _ Hwc).
  destruct (Hap _ _ _ Hl); lia.
Qed.

(** The heap with one more block. *)
Lemma heap_ok_insert (s s1 : mstate W) U b f : heap_ok s U -> block_wf b -> alloc_of b = Some f ->
  blocks (world s1) = <[raw b := (blen b + 32, f)]> (blocks (world s)) ->
  (forall q k g, blocks (world s) !! q = Some (k, g) -> apart (raw b) (blen b + 32) q k) ->
  length (memcheck_entries s1) = MEMCHECK_ENTRIES -> (memcheck_bufpos s1 < MEMCHECK_ENTRIES)%nat ->
  (forall q id, q <> 0 -> tracked (memcheck_entries s) q id -> tracked (memcheck_entries s1) q id) ->
  (forall a, owned (blocks (world s)) a -> rd8 (mem s1) a = rd8 (mem s) a) ->
  block_ok (mem s1) (memcheck_entries s1) b ->
  heap_ok s1 (<[user_ptr b := b]> U).
Proof.
  intros Hh Hw Hf Hbl Hap Hles Hpos Htr Hmem Hok.
  assert (Hsym : forall p n q k, apart p n q k -> apart q k p n) by (unfold apart; lia).
  assert (Hlive : forall u c, U !! u = Some c -> raw c <> raw b).
  { intros u c Hu E. destruct (ho_live _ _ Hh _ _ Hu) as (g & _ & Hl).
    pose proof (bw_len _ (proj2 (ho_user _ _ Hh _ _ Hu))). pose proof (bw_len _ Hw).
    destruct (Hap _ _ _ Hl) as [?|?]; rewrite E in *; lia. }
  split; try done.
  - intros p n g q k h. rewrite Hbl, !lookup_insert_Some.
    intros [[<- [= <- <-]]|[Hne Hp]] [[<- [= <- <-]]|[Hne' Hq]] Hpq; [done|by eapply Hap| |].
    + apply Hsym. by eapply Hap.
    + by eapply (ho_apart _ _ Hh).
  - intros u c [[<- <-]|[_ Hu]]%lookup_insert_Some; [done|by apply (ho_user _ _ Hh)].
  - intros u c [[<- <-]|[_ Hu]]%lookup_insert_Some; [done|].
    pose proof (proj2 (ho_user _ _ Hh _ _ Hu)) as Hwc. pose proof (bw_len _ Hwc).
    pose proof (bw_ram _ Hwc) as (Hc0 & _ & _).
    destruct (ho_live _ _ Hh _ _ Hu) as (g & _ & Hl).
    apply (block_ok_frame (mem s)); [lia| |].
    + destruct (ho_ok _ _ Hh _ _ Hu) as [? ? ? Hid ? ?]. split; try done. apply Htr; [lia|done].
    + intros a Ha. apply Hmem. exists (raw c), (blen c + 32), g. split; [done|lia].
  - intros u c [[<- <-]|[_ Hu]]%lookup_insert_Some.
    + exists f. split; [done|]. rewrite Hbl. apply lookup_insert_eq.
    + destruct (ho_live _ _ Hh _ _ Hu) as (g & Hg & Hl). exists g. split; [done|].
      rewrite Hbl, lookup_insert_ne; [done|]. intros E. by apply (Hlive _ _ Hu).
Qed.

Lemma memcheck_malloc_ok (s : mstate W) U len fl ln i flags f : heap_ok s U ->
  0 <= len -> len + 32 < 2 ^ 31 -> 0 <= flags < UNCACHEABLE_FLAG ->
  alloc_of (mk_ublock 0 len i flags) = Some f ->
  exists p s1, memcheck_malloc s len fl ln i flags = Some (p, s1) /\ last_error s1 = last_error s /\
    (forall a, owned (blocks (world s)) a -> rd8 (mem s1) a = rd8 (mem s) a) /\
    (p = 0 /\ heap_ok s1 U /\ blocks (world s1) = blocks (world s) \/
     exists b, p = u32 (raw b + MEM_SEC_ZONE) /\ p <> 0 /\ blen b = len /\ bflags b = flags /\
       U !! user_ptr b = None /\ heap_ok s1 (<[user_ptr b := b]> U)).
Proof.
  intros Hh Hl1 Hl2 Hfl Hf. pose proof Hf as Hf'. unfold alloc_of in Hf'. cbn [pool bflags] in Hf'.
  unfold memcheck_malloc. destruct (allocators !! i) as [a|] eqn:Ea; [|done].
  cbn [mbind option_bind] in *. rewrite Hf'. cbn [mbind option_bind].
  assert (Hi : (i < 4)%nat) by (by apply lookup_lt_Some in Ea).
  unfold MEM_SEC_ZONE at 1. change (2 * 16) with 32. rewrite (u32_small (len + 32)) by lia.
  destruct (be_alloc f (len + 32) (world s) (mem s)) as [[p w] m] eqn:E.
  pose proof (alloc_frame _ _ _ _ _ _ _ E) as Hframe.
  destruct (Z.eqb_spec (Z.land p 1) 0) as [He|He]; cbn [negb].
  2:{ pose proof (alloc_fail _ _ _ _ _ _ _ E (or_intror He)) as Hb.
      eexists 0, _. split; [reflexivity|]. split; [done|]. split; [done|]. left. split_and!; [done| |done].
      by apply heap_ok_backend. }
  destruct (Z.eqb_spec p 0) as [->|Hp].
  { pose proof (alloc_fail _ _ _ _ _ _ _ E (or_introl eq_refl)) as Hb.
    eexists 0, _. split; [reflexivity|]. split; [done|]. split; [done|]. left. split_and!; [done| |done].
    by apply heap_ok_backend. }
  destruct (alloc_fresh _ _ _ _ _ _ _ E ltac:(lia) Hp He) as (Hr & Hb & Hap).
  set (b := mk_ublock p len i flags). assert (Hw : block_wf b) by (by split).
  match goal with |- context [memcheck_add ?x p fl ln] =>
    destruct (memcheck_add_ok x p fl ln (len + 32) Hr ltac:(lia) (ho_entries _ _ Hh) (ho_pos _ _ Hh))
      as (es & pos & id & -> & Hles & Hpos & Hid & Ht & Htr) end.
  assert (Hf2 : alloc_of b = Some f) by exact Hf.
  destruct (prepared_ok m p len flags i id es Hw Hi Hid Ht) as [Hbo Hout].
  assert (Hmem : forall a, owned (blocks (world s)) a ->
    rd8 (prepared m p len flags i id) a = rd8 (mem s) a).
  { intros c Hc. etrans; [apply (Hout c)|by apply Hframe].
    destruct Hc as (q & k & g & Hq & Hc). destruct (Hap _ _ _ Hq); lia. }
  eexists _, _. split; [reflexivity|]. split; [done|]. split; [done|]. right. exists b.
  split; [done|]. split.
  { cbn [raw b]. unfold MEM_SEC_ZONE. destruct Hr as (? & ? & [?|?]); rewrite u32_small; lia. }
  split; [done|]. split; [done|].
  split; [by eapply user_ptr_fresh|].
  by apply (heap_ok_insert s _ U b f).
Qed.

End Malloc.

(** ** The choice of a pool *)

Section Choose.
Context {W : Type} `{Backend W}.

Lemma search_spec (s : mstate W) size rs rf rt dma :
  match search_for_allocator s size rs rf rt dma with
  | Some i => exists a, allocators !! i = Some a /\ allocator_matches s a size rs rf rt dma = true /\
      forall j b, (j < i)%nat -> allocators !! j = Some b -> allocator_matches s b size rs rf rt dma = false
  | None => forall i a, allocators !! i = Some a -> allocator_matches s a size rs rf rt dma = false
  end.
Proof.
  unfold search_for_allocator. destruct (list_find _ allocators) as [[i a]|] eqn:E; cbn [fmap option_fmap option_map fst].
  - apply list_find_Some in E as (Hi & Hm & Hlt). exists a. split_and!; [done|done|].
    intros j b Hj Hb. apply not_true_iff_false. by apply (Hlt j b Hb).
  - intros i a Ha. apply list_find_None in E. apply not_true_iff_false.
    by apply (Forall_lookup_1 _ _ _ _ E Ha).
Qed.

Lemma first_found_spec (s : mstate W) size dma l :
  match first_found s size dma l with
  | Some i => exists rs rf rt a, (rs, rf, rt) ∈ l /\ allocators !! i = Some a /\
      allocator_matches s a size rs rf rt dma = true
  | None => forall rs rf rt i a, (rs, rf, rt) ∈ l -> allocators !! i = Some a ->
      allocator_matches s a size rs rf rt dma = false
  end.
Proof.
  induction l as [|[[rs rf] rt] l IH]; cbn [first_found].
  { by intros rs rf rt i a ?%elem_of_nil. }
  pose proof (search_spec s size rs rf rt dma) as Hs.
  destruct (search_for_allocator s size rs rf rt dma) as [i|].
  - destruct Hs as (a & Ha & Hm & _). exists rs, rf, rt, a. split; [left|done].
  - destruct (first_found s size dma l) as [i|].
    + destruct IH as (rs' & rf' & rt' & a & Hin & Ha). exists rs', rf', rt', a. split; [by right|done].
    + intros rs' rf' rt' i a [[= -> -> ->]|Hin]%elem_of_cons Ha; [by eapply Hs|by eapply IH].
Qed.

Lemma matches_fn (s : mstate W) a size rs rf rt dma : allocator_matches s a size rs rf rt dma = true ->
  exists f, (if dma then malloc_dma a else malloc a) = Some f.
Proof.
  unfold allocator_matches. cbv zeta. intros Hm. do 5 (apply andb_prop in Hm as [Hm _]).
  destruct dma; cbn [negb andb orb] in Hm; [destruct (malloc_dma a)|destruct (malloc a)];
    try discriminate; eauto.
Qed.

(** The chosen pool can serve the request, and so can its successor if it is
    the one that delegates. *)
Lemma choose_alloc_of (s : mstate W) size flags i : choose_allocator s size flags = Some i ->
  (exists f, forall len, alloc_of (mk_ublock 0 len i flags) = Some f) /\
  ((if allocators !! i is Some a then try_next_allocator a else false) = true ->
   exists f, forall len, alloc_of (mk_ublock 0 len (i + 1) flags) = Some f).
Proof.
  unfold choose_allocator. intros E.
  pose proof (first_found_spec s size (flag_set flags MEM_DMA)
    (searches (if flag_set flags MEM_TEMPORARY then 1 else if flag_set flags MEM_SRM then 2 else -1))) as Hs.
  rewrite E in Hs. destruct Hs as (rs & rf & rt & a & _ & Ha & Hm).
  split.
  - destruct (matches_fn _ _ _ _ _ _ _ Hm) as [f Hf]. exists f. intros len.
    unfold alloc_of. cbn [pool bflags]. by rewrite Ha.
  - rewrite Ha. intros Ht. destruct i as [|[|[|[|i]]]]; try (injection Ha as <-; discriminate); [|done].
    exists _srm_malloc. intros len. unfold alloc_of. cbn. by destruct (flag_set flags MEM_DMA).
Qed.

End Choose.

Section Client.
Context {W : Type} `{BackendOk W}.

Lemma mem_malloc_ok (s : mstate W) U size flags fl ln : heap_ok s U ->
  0 <= size -> size + 32 < 2 ^ 31 -> 0 <= flags < UNCACHEABLE_FLAG ->
  exists u s1, __mem_malloc s size flags fl ln = Some (u, s1) /\ last_error s1 = last_error s /\
    (forall a, owned (blocks (world s)) a -> rd8 (mem s1) a = rd8 (mem s) a) /\
    (u = 0 /\ heap_ok s1 U \/
     exists b, u = user_ptr b /\ u <> 0 /\ blen b = size /\ U !! u = None /\ heap_ok s1 (<[u := b]> U)).
Proof.
  intros Hh Hs1 Hs2 Hfl. unfold __mem_malloc. rewrite s32_small by lia.
  destruct (choose_allocator s size flags) as [i|] eqn:Ec; [|exists 0, s; auto 10].
  destruct (choose_alloc_of _ _ _ _ Ec) as [[f Hf] Hnext].
  assert (Hdone : forall p s1, (exists b, p = u32 (raw b + MEM_SEC_ZONE) /\ p <> 0 /\ blen b = size /\
      bflags b = flags /\ U !! user_ptr b = None /\ heap_ok s1 (<[user_ptr b := b]> U)) ->
    let u := if p =? 0 then 0 else if flag_set flags MEM_DMA then UNCACHEABLE p else CACHEABLE p in
    exists b, u = user_ptr b /\ u <> 0 /\ blen b = size /\ U !! u = None /\ heap_ok s1 (<[u := b]> U)).
  { intros p s1 (b & -> & Hp & Hb & Hbf & Hu & Hok) u. exists b.
    assert (u = user_ptr b) as Eu.
    { unfold u, user_ptr. rewrite (proj2 (Z.eqb_neq _ _) Hp), Hbf. done. }
    rewrite Eu. split_and!; try done.
    destruct (ho_user _ _ Hok (user_ptr b) b) as [_ Hw]; [apply lookup_insert_eq|].
    destruct (user_ptr_facts b Hw) as (_ & ? & _). lia. }
  destruct (memcheck_malloc_ok s U size (file_name_without_path fl) ln i flags f)
    as (p & s1 & -> & He & Hfr & Hc); try done. cbn [mbind option_bind].
  destruct Hc as [(-> & Hok & Hbl)|Hb].
  - change (0 =? 0) with true. cbn [andb].
    destruct (if allocators !! i is Some a then try_next_allocator a else false).
    + destruct (Hnext eq_refl) as [g Hg].
      destruct (memcheck_malloc_ok s1 U size (file_name_without_path fl) ln (i + 1) flags g)
        as (p & s2 & -> & He2 & Hfr2 & Hc); try done. cbn [mbind option_bind].
      eexists _, s2. split; [reflexivity|]. split; [congruence|].
      split; [intros a Ha; rewrite Hfr2 by (by rewrite Hbl); auto|].
      destruct Hc as [(-> & Hok2 & _)|Hb]; [left; done|right; by apply Hdone].
    + cbn [mbind option_bind]. eexists _, s1. split; [reflexivity|]. split; [done|]. split; [done|]. by left.
  - pose proof Hb as (b & _ & Hp & _). rewrite (proj2 (Z.eqb_neq p 0) Hp). cbn [andb mbind option_bind].
    eexists _, s1. split; [reflexivity|]. split; [done|]. split; [done|]. right.
    exact (Hdone p s1 Hb).
Qed.

(** A client writes a byte of its block. *)
Lemma user_write_ok (s : mstate W) U u b k v : heap_ok s U -> U !! u = Some b -> 0 <= k < blen b ->
  heap_ok (set_mem s (poke 1 (mem s) (u + k) v)) U.
Proof.
  intros Hh Hu Hk. destruct (ho_user _ _ Hh _ _ Hu) as [Eu Hw].
  destruct (user_ptr_facts b Hw) as (_ & Hur & Hp & Hram & _). rewrite <- Eu in *.
  assert (Hpoke : poke 1 (mem s) (u + k) v = st 1 (mem s) (phys (raw b) + 16 + k) v).
  { assert (u + k = u32 (u - 16) + (16 + k)) as -> by (rewrite u32_small; lia).
    rewrite (poke_off (blen b + 32)), Hp, Z.add_assoc by (done || lia). done. }
  rewrite Hpoke. destruct (ho_live _ _ Hh _ _ Hu) as (f & _ & Hl).
  split; try apply Hh. intros v' c Hc. cbn [mem set_mem].
  pose proof (proj2 (ho_user _ _ Hh _ _ Hc)) as Hwc. pose proof (bw_len _ Hwc).
  destruct (ho_live _ _ Hh _ _ Hc) as (g & _ & Hlc).
  apply (block_ok_frame (mem s)); [lia|by apply (ho_ok _ _ Hh v')|].
  intros a Ha. apply rd8_st_out. destruct (decide (raw b = raw c)) as [E|E].
  - rewrite (user_raw_inj s U _ _ _ _ Hh Hu Hc E) in Hu. rewrite Hc in Hu. injection Hu as ->. lia.
  - destruct (ho_apart _ _ Hh _ _ _ _ _ _ Hl Hlc E); lia.
Qed.

End Client.

(** ** Well-behaved clients *)

Section Steps.
Context {W : Type} `{BackendOk W}.

Definition mem_init (m : memory) (w : W) : mstate W :=
  mk_mstate m w (replicate 4 (mk_alloc_stats 0 0)) 0 0 0
    (replicate (Z.to_nat HISTORY_ENTRIES) 0) 0 (replicate MEMCHECK_ENTRIES null_entry) 0 0.

(** The clients hold the map from pointers to sizes: they allocate, free what
    they hold, and write bytes inside it. *)
Inductive mem_step : mstate W * gmap Z Z -> mstate W * gmap Z Z -> Prop :=
  | ms_malloc s C size flags fl ln u s' : 0 <= size -> size + 32 < 2 ^ 31 ->
      0 <= flags < UNCACHEABLE_FLAG -> __mem_malloc s size flags fl ln = Some (u, s') ->
      mem_step (s, C) (s', if u =? 0 then C else <[u := size]> C)
  | ms_free s C u n s' : C !! u = Some n -> __mem_free s u = Some s' ->
      mem_step (s, C) (s', delete u C)
  | ms_write s C u n k v : C !! u = Some n -> 0 <= k < n ->
      mem_step (s, C) (set_mem s (poke 1 (mem s) (u + k) v), C).

Definition clients_ok (sc : mstate W * gmap Z Z) : Prop :=
  last_error (fst sc) = 0 /\ exists U, heap_ok (fst sc) U /\ snd sc = blen <$> U.

Lemma clients_ok_init m w : blocks w = ∅ -> clients_ok (mem_init m w, ∅).
Proof.
  intros Hw. split; [done|]. exists ∅. split; [|by rewrite fmap_empty].
  split; try (cbn; intros *; by rewrite ?Hw, ?lookup_empty).
  cbn. unfold MEMCHECK_ENTRIES. lia.
Qed.

Lemma clients_ok_step sc sc' : mem_step sc sc' -> clients_ok sc -> clients_ok sc'.
Proof.
  intros Hs [He (U & Hh & HC)]. destruct Hs as [s C size flags fl ln u s' H1 H2 H3 Hm|s C u n s' Hu Hf|s C u n k v Hu Hk];
    cbn [fst snd] in *; subst C.
  - destruct (mem_malloc_ok s U size flags fl ln Hh H1 H2 H3) as (u' & s1 & E & El & _ & Hc).
    rewrite Hm in E. injection E as -> ->. split; [cbn; congruence|].
    destruct Hc as [[-> Hok]|(b & _ & Hu0 & Hb & _ & Hok)]; [by exists U|].
    exists (<[u' := b]> U). cbn [fst snd]. rewrite (proj2 (Z.eqb_neq _ _) Hu0), fmap_insert, Hb. done.
  - rewrite lookup_fmap in Hu. destruct (U !! u) as [b|] eqn:Eb; [|done].
    destruct (mem_free_ok s U u b Hh Eb) as (s1 & E & El & _ & _ & _ & Hok).
    rewrite Hf in E. injection E as ->. split; [cbn; congruence|].
    exists (delete u U). by rewrite fmap_delete.
  - rewrite lookup_fmap in Hu. destruct (U !! u) as [b|] eqn:Eb; [|done]. injection Hu as <-.
    split; [done|]. exists U. split; [by eapply user_write_ok|done].
Qed.

Lemma clients_ok_reach sc sc' : rtc mem_step sc sc' -> clients_ok sc -> clients_ok sc'.
Proof. induction 1 as [|x y z Hxy _ IH]; intros Hx; [done|]. by apply IH, (clients_ok_step x). Qed.

(** C1: take pools that hold no block at the start and keep their blocks apart,
    and clients that ask for less than 2^31 - 32 bytes with flags that leave bit
    15 free, free only blocks they hold, and write only inside them.  Then no run
    of allocations, frees and writes ever reports a memory error; every block
    held has its header (pool, flags, length, entry number) and both guard zones
    intact; every block held can be freed and every request of that kind is
    answered, without an error; and blocks of different clients do not overlap. *)
Theorem mem_clients_safe m w s C : blocks w = ∅ ->
  rtc mem_step (mem_init m w, ∅) (s, C) ->
  last_error s = 0 /\
  (forall u n, C !! u = Some n ->
     exists b, user_ptr b = u /\ blen b = n /\ block_ok (mem s) (memcheck_entries s) b) /\
  (forall u n, C !! u = Some n -> exists s', __mem_free s u = Some s' /\ last_error s' = 0) /\
  (forall size flags fl ln, 0 <= size -> size + 32 < 2 ^ 31 -> 0 <= flags < UNCACHEABLE_FLAG ->
     exists u s', __mem_malloc s size flags fl ln = Some (u, s') /\ last_error s' = 0) /\
  (forall u n v k, C !! u = Some n -> C !! v = Some k -> u <> v -> apart u n v k).
Proof.
  intros Hw Hr. destruct (clients_ok_reach _ _ Hr (clients_ok_init m w Hw)) as [He (U & Hh & HC)].
  cbn [fst snd] in *. subst C. split; [done|]. split; [|split; [|split]].
  - intros u n Hu. rewrite lookup_fmap in Hu. destruct (U !! u) as [b|] eqn:Eb; [|done]. injection Hu as <-.
    exists b. split; [symmetry; apply (ho_user _ _ Hh _ _ Eb)|]. split; [done|]. by apply (ho_ok _ _ Hh u).
  - intros u n Hu. rewrite lookup_fmap in Hu. destruct (U !! u) as [b|] eqn:Eb; [|done].
    destruct (mem_free_ok s U u b Hh Eb) as (s1 & E & El & _). exists s1. split; [done|congruence].
  - intros size flags fl ln H1 H2 H3.
    destruct (mem_malloc_ok s U size flags fl ln Hh H1 H2 H3) as (u & s1 & E & El & _).
    exists u, s1. split; [done|congruence].
  - intros u n v k Hu Hv Hne. rewrite lookup_fmap in Hu, Hv.
    destruct (U !! u) as [b|] eqn:Eb; [|done]. destruct (U !! v) as [c|] eqn:Ec; [|done].
    injection Hu as <-. injection Hv as <-.
    destruct (ho_user _ _ Hh _ _ Eb) as [-> Hwb], (ho_user _ _ Hh _ _ Ec) as [-> Hwc].
    destruct (ho_live _ _ Hh _ _ Eb) as (f & _ & Hf), (ho_live _ _ Hh _ _ Ec) as (g & _ & Hg).
    destruct (user_ptr_facts b Hwb) as (Hpb & _), (user_ptr_facts c Hwc) as (Hpc & _).
    assert (raw b <> raw c) by (intros E; apply Hne; by eapply (user_raw_inj s U)).
    unfold apart. rewrite Hpb, Hpc. destruct (ho_apart _ _ Hh _ _ _ _ _ _ Hf Hg); [done|lia|lia].
Qed.

(** Allocating and freeing other blocks never changes the contents of a
    block a client holds. *)
Theorem mem_contents_kept m w s C u n k : blocks w = ∅ ->
  rtc mem_step (mem_init m w, ∅) (s, C) -> C !! u = Some n -> 0 <= k < n ->
  (forall size flags fl ln p s', 0 <= size -> size + 32 < 2 ^ 31 -> 0 <= flags < UNCACHEABLE_FLAG ->
     __mem_malloc s size flags fl ln = Some (p, s') -> peek8 (mem s') (u + k) = peek8 (mem s) (u + k)) /\
  (forall v l s', v <> u -> C !! v = Some l -> __mem_free s v = Some s' ->
     peek8 (mem s') (u + k) = peek8 (mem s) (u + k)).
Proof.
  intros Hw Hr Hu Hk. destruct (clients_ok_reach _ _ Hr (clients_ok_init m w Hw)) as [He (U & Hh & HC)].
  cbn [fst snd] in *. subst C. rewrite lookup_fmap in Hu.
  destruct (U !! u) as [b|] eqn:Eb; [|done]. injection Hu as <-.
  destruct (ho_user _ _ Hh _ _ Eb) as [Eu Hwb]. destruct (ho_live _ _ Hh _ _ Eb) as (f & _ & Hf).
  destruct (user_ptr_facts b Hwb) as (_ & Hur & Hp & Hram & _). rewrite <- Eu in *.
  assert (Hpk : forall m, peek8 m (u + k) = rd8 m (phys (raw b) + (16 + k))).
  { intros m0. assert (u + k = u32 (u - 16) + (16 + k)) as -> by (rewrite u32_small; lia).
    by rewrite (peek8_off (blen b + 32)), Hp by (done || lia). }
  split.
  - intros size flags fl ln p s' H1 H2 H3 Hm. rewrite !Hpk.
    destruct (mem_malloc_ok s U size flags fl ln Hh H1 H2 H3) as (u' & s1 & E & _ & Hfr & _).
    rewrite Hm in E. injection E as -> ->. apply Hfr.
    exists (raw b), (blen b + 32), f. split; [done|lia].
  - intros v l s' Hne Hl Hfree. rewrite !Hpk. rewrite lookup_fmap in Hl.
    destruct (U !! v) as [c|] eqn:Ec; [|done].
    destruct (mem_free_ok s U v c Hh Ec) as (s1 & E & _ & _ & _ & Hfr & _).
    rewrite Hfree in E. injection E as ->. apply Hfr. exists (raw b), (blen b + 32), f.
    split; [|lia]. rewrite lookup_delete_ne; [done|]. intros Eq. apply Hne. by eapply (user_raw_inj s U).
Qed.

End Steps.

(** ** What the checks detect *)

(** One bad guard byte is reported as what it is. *)
Lemma check_flags_corrupt m es b o v : block_wf b -> block_ok m es b ->
  12 <= o < 16 \/ 16 + blen b <= o < 32 + blen b -> u8 v <> 0xA5 ->
  check_flags (st 1 m (phys (raw b) + o) v) (raw b) 0xFFFFFFFF = if o <? 16 then 2 else 4.
Proof.
  intros [_ [Hl1 Hl2] Hr _] [_ _ Hlen Hid Hu Ho] Hoff Hv. unfold check_flags.
  assert (Hrd : forall k, 0 <= k < blen b + 32 ->
    peek8 (st 1 m (phys (raw b) + o) v) (raw b + k) = if decide (k = o) then u8 v else rd8 m (phys (raw b) + k)).
  { intros k Hk. rewrite (peek8_off (blen b + 32)), rd8_st by (done || lia).
    destruct (decide (k = o)) as [->|]; [|by rewrite decide_False by lia].
    rewrite decide_True by lia. replace (phys (raw b) + o - (phys (raw b) + o)) with 0 by lia. by rewrite Z.pow_0_r, Z.div_1_r. }
  assert (Hh : hdr_length (st 1 m (phys (raw b) + o) v) (raw b) = blen b).
  { unfold hdr_length. by rewrite (peek_off (blen b + 32)), ld_st_out by (done || lia). }
  assert (zone_bad (st 1 m (phys (raw b) + o) v) (raw b)
    (seqZ sizeof_memcheck_hdr (MEM_SEC_ZONE - sizeof_memcheck_hdr)) = (o <? 16)) as ->.
  { unfold sizeof_memcheck_hdr, MEM_SEC_ZONE. destruct (Z.ltb_spec o 16).
    - apply (zone_bad_exists _ _ _ o); [apply elem_of_seqZ; lia|].
      by rewrite Hrd, decide_True by lia.
    - apply zone_bad_none. intros k Hk%elem_of_seqZ. rewrite Hrd, decide_False by lia. apply Hu. lia. }
  assert (zone_bad (st 1 m (phys (raw b) + o) v) (raw b)
    (map (fun pos => s32 (MEM_SEC_ZONE + hdr_length (st 1 m (phys (raw b) + o) v) (raw b) + pos))
      (seqZ 0 MEM_SEC_ZONE)) = negb (o <? 16)) as ->.
  { rewrite Hh. unfold MEM_SEC_ZONE. destruct (Z.ltb_spec o 16); cbn [negb].
    - apply zone_bad_none. intros k (j & -> & Hj%elem_of_seqZ)%list_elem_of_fmap.
      rewrite s32_small, Hrd, decide_False by lia. rewrite <- (Ho j) by lia. f_equal. lia.
    - apply (zone_bad_exists _ _ _ o); [|by rewrite Hrd, decide_True by lia].
      apply list_elem_of_fmap. exists (o - 16 - blen b). rewrite elem_of_seqZ, s32_small by lia. lia. }
  unfold hdr_id. rewrite (peek_off (blen b + 32)), ld_st_out by (done || lia).
  pose proof (id_flags_tracked _ _ _ Hid) as Hz. unfold id_flags in Hz.
  rewrite (Z.eqb_refl 0xFFFFFFFF), andb_false_r, Hz.
  by destruct (o <? 16).
Qed.

Lemma remove_backend {W} (s : mstate W) p f : world (memcheck_remove s p f) = world s /\
  last_error (memcheck_remove s p f) = last_error s /\ alloc_total (memcheck_remove s p f) = alloc_total s.
Proof. unfold memcheck_remove. repeat case_match; done. Qed.

Section Detect.
Context {W : Type} `{BackendOk W}.

(** Freeing a block that fails the check. *)
Lemma mem_free_failed (s : mstate W) b f : block_wf b -> (pool b < 4)%nat ->
  ld 2 (mem s) (phys (raw b)) = Z.of_nat (pool b) ->
  ld 2 (mem s) (phys (raw b) + 2) = Z.lor (bflags b) (unc_flag (raw b)) ->
  check_flags (mem s) (raw b) 0xFFFFFFFF = f -> f <> 0 ->
  exists s', __mem_free s (user_ptr b) = Some s' /\ world s' = world s /\
    alloc_total s' = alloc_total s /\ last_error s' = (if last_error s =? 0 then f else last_error s).
Proof.
  intros Hw Hpool Hi Hfl Hf Hne.
  destruct (user_ptr_facts b Hw) as (_ & Hur & Hp & Hram & Halias). set (u := user_ptr b) in *.
  pose proof (bw_len _ Hw) as Hl. pose proof (bw_ram _ Hw) as Hrr.
  unfold __mem_free. rewrite (proj2 (Z.eqb_neq u 0)) by lia. cbv zeta. unfold MEM_SEC_ZONE.
  assert (hdr_allocator (mem s) (u32 (u - 16)) = Z.of_nat (pool b)) as ->.
  { unfold hdr_allocator. by rewrite (peek_base (blen b + 32)), Hp by (done || lia). }
  assert (hdr_flags (mem s) (u32 (u - 16)) = Z.lor (bflags b) (unc_flag (raw b))) as ->.
  { unfold hdr_flags. by rewrite (peek_off (blen b + 32)), Hp by (done || lia). }
  rewrite flags_unc, Halias by apply Hw.
  rewrite (proj2 (Z.ltb_lt _ _)), Nat2Z.id by (cbn; lia).
  unfold memcheck_free, MEM_SEC_ZONE. replace (raw b + 16 - 16) with (raw b) by lia.
  rewrite (u32_small (raw b)) by (destruct Hrr as (? & ? & [?|?]); lia).
  unfold memcheck_check. rewrite Hf, (proj2 (Z.eqb_neq f 0) Hne).
  cbn [andb negb]. rewrite (proj2 (Z.ltb_ge _ _)) by (unfold MEMCHECK_ENTRIES; lia).
  eexists. split; [reflexivity|].
  match goal with |- context [memcheck_remove ?x ?y ?z] => destruct (remove_backend x y z) as (-> & -> & ->) end.
  by destruct (last_error s =? 0).
Qed.

Lemma alloc_of_pool b f : alloc_of b = Some f -> (pool b < 4)%nat.
Proof.
  unfold alloc_of. intros Hf. apply (lookup_lt_is_Some_1 allocators).
  destruct (allocators !! pool b); [by eexists|done].
Qed.

(** C35: a client that writes one byte up to four bytes in front of its block,
    or up to sixteen behind it, is found when the block is freed: the error is
    recorded as an underflow (2) or an overflow (4), the block is not returned to
    its pool, and the totals keep counting it. *)
Theorem mem_free_detects_overrun m w s C u n k v : blocks w = ∅ ->
  rtc mem_step (mem_init m w, ∅) (s, C) -> C !! u = Some n ->
  - 4 <= k < 0 \/ n <= k < n + 16 -> u8 v <> 0xA5 ->
  exists s', __mem_free (set_mem s (poke 1 (mem s) (u + k) v)) u = Some s' /\
    last_error s' = (if k <? 0 then 2 else 4) /\ world s' = world s /\ alloc_total s' = alloc_total s.
Proof.
  intros Hw0 Hr Hu Hk Hv. destruct (clients_ok_reach _ _ Hr (clients_ok_init m w Hw0)) as [He (U & Hh & HC)].
  cbn [fst snd] in *. subst C. rewrite lookup_fmap in Hu.
  destruct (U !! u) as [b|] eqn:Eb; [|done]. injection Hu as <-.
  destruct (ho_user _ _ Hh _ _ Eb) as [Eu Hw]. pose proof (ho_ok _ _ Hh _ _ Eb) as Hok.
  destruct (user_ptr_facts b Hw) as (_ & Hur & Hp & Hram & _). rewrite <- Eu in *.
  destruct (ho_live _ _ Hh _ _ Eb) as (f & Hf & _).
  assert (Hpoke : poke 1 (mem s) (u + k) v = st 1 (mem s) (phys (raw b) + (16 + k)) v).
  { pose proof (bw_len _ Hw). assert (u + k = u32 (u - 16) + (16 + k)) as -> by (rewrite u32_small; lia).
    by rewrite (poke_off (blen b + 32)), Hp by (done || lia). }
  destruct (mem_free_failed (set_mem s (poke 1 (mem s) (u + k) v)) b (if k <? 0 then 2 else 4))
    as (s' & E & Hws & Ht & Hle); try done; cbn [mem set_mem].
  - by eapply alloc_of_pool.
  - rewrite Hpoke, ld_st_out by (pose proof (bw_len _ Hw); lia). apply Hok.
  - rewrite Hpoke, ld_st_out by (pose proof (bw_len _ Hw); lia). apply Hok.
  - rewrite Hpoke, (check_flags_corrupt _ _ _ (16 + k) v Hw Hok) by (done || lia).
    destruct (Z.ltb_spec k 0), (Z.ltb_spec (16 + k) 16); (done || lia).
  - by destruct (k <? 0).
  - exists s'. rewrite <- Eu in E. split; [exact E|]. cbn [last_error set_mem] in Hle. by rewrite Hle, He.
Qed.

End Detect.

(** ** Accounting *)

Definition zsum {A} (f : A -> Z) (l : list A) : Z := foldr (fun x acc => f x + acc) 0 l.

Lemma zsum_alter {A} (f : A -> Z) g l i x : l !! i = Some x ->
  zsum f (alter g i l) = zsum f l + (f (g x) - f x).
Proof.
  revert i. induction l as [|y l IH]; intros [|i] Hi; try done; cbn [zsum foldr alter list_alter] in *.
  - injection Hi as ->. cbn. lia.
  - change (foldr (fun x acc => f x + acc) 0 (alter g i l)) with (zsum f (alter g i l)).
    rewrite (IH i Hi). fold (zsum f l). lia.
Qed.

(** Equality of the 32-bit counters. *)
Definition eqm (x y : Z) : Prop := exists k, x = y + k * 2 ^ 32.

Lemma s32_eqm x : eqm (s32 x) x.
Proof. exists (- ((x + 2 ^ 31) / 2 ^ 32)). unfold s32. Z.div_mod_to_equations. lia. Qed.

Section Accounts.
Context {W : Type} `{Backend W}.

(** The totals agree with the counters of the pools, up to wrap-around. *)
Record accounts_ok (s : mstate W) : Prop := {
  ac_pools : length (stats s) = 4%nat;
  ac_used : eqm (zsum mem_used (stats s)) (alloc_total_with_memcheck s);
  ac_blocks : eqm (alloc_total_with_memcheck s) (alloc_total s + 32 * zsum num_blocks (stats s));
  ac_history : length (history s) = 1024%nat;
  ac_index : 0 <= history_index s < HISTORY_ENTRIES;
}.

Lemma account_ok (s : mstate W) i sign len : accounts_ok s -> (i < 4)%nat ->
  accounts_ok (account s i sign len).
Proof.
  intros [H1 H2 H3 H4 H5] Hi. destruct (lookup_lt_is_Some_2 (stats s) i) as [st Hst]; [lia|].
  pose proof (s32_eqm (mem_used st + sign * (len + 2 * MEM_SEC_ZONE))) as [k1 E1].
  pose proof (s32_eqm (num_blocks st + sign)) as [k2 E2].
  pose proof (s32_eqm (alloc_total_with_memcheck s + sign * (len + 2 * MEM_SEC_ZONE))) as [k3 E3].
  pose proof (s32_eqm (alloc_total s + sign * len)) as [k4 E4].
  destruct H2 as [k5 E5], H3 as [k6 E6].
  split; cbn [account stats alloc_total_with_memcheck alloc_total history history_index].
  - by rewrite length_alter.
  - rewrite (zsum_alter _ _ _ _ _ Hst). cbn [mem_used]. rewrite E1, E3.
    exists (k5 + k1 - k3). lia.
  - rewrite (zsum_alter _ _ _ _ _ Hst). cbn [num_blocks]. rewrite E2, E3, E4.
    unfold MEM_SEC_ZONE. exists (k6 + k3 - k4 - 32 * k2). lia.
  - by rewrite length_insert.
  - unfold HISTORY_ENTRIES. apply Z.mod_pos_bound. lia.
Qed.

(** Operations that leave the counters alone. *)
Lemma accounts_frame (s s' : mstate W) : stats s' = stats s -> alloc_total s' = alloc_total s ->
  alloc_total_with_memcheck s' = alloc_total_with_memcheck s -> history s' = history s ->
  history_index s' = history_index s -> accounts_ok s -> accounts_ok s'.
Proof. intros E1 E2 E3 E4 E5 [H1 H2 H3 H4 H5]. split; rewrite ?E1, ?E2, ?E3, ?E4, ?E5; done. Qed.

Lemma add_accounts (s : mstate W) p fl ln : accounts_ok s -> accounts_ok (memcheck_add s p fl ln).
Proof. unfold memcheck_add. destruct (find_entry _ _ _) as [[] pos]; by apply accounts_frame. Qed.

Lemma remove_accounts (s : mstate W) p f : accounts_ok s -> accounts_ok (memcheck_remove s p f).
Proof. unfold memcheck_remove. repeat case_match; by apply accounts_frame. Qed.

Lemma check_accounts (s : mstate W) p e : accounts_ok s -> accounts_ok (snd (memcheck_check s p e)).
Proof. unfold memcheck_check. repeat case_match; by apply accounts_frame. Qed.

Lemma malloc_accounts (s : mstate W) len fl ln i flags p s' : accounts_ok s ->
  memcheck_malloc s len fl ln i flags = Some (p, s') -> accounts_ok s'.
Proof.
  intros Hs. unfold memcheck_malloc. destruct (allocators !! i) as [a|] eqn:Ea; [|done].
  assert (Hi : (i < 4)%nat) by (by apply lookup_lt_Some in Ea). cbn [mbind option_bind].
  destruct (if flag_set flags MEM_DMA then malloc_dma a else malloc a) as [f|]; [|done].
  cbn [mbind option_bind]. destruct (be_alloc f _ _ _) as [[q w] m].
  destruct (negb _); [intros [= _ <-]; by apply (accounts_frame s)|].
  destruct (q =? 0); intros [= _ <-]; [by apply (accounts_frame s)|].
  apply account_ok; [|done]. apply add_accounts. by apply (accounts_frame s).
Qed.

Lemma mem_malloc_accounts (s : mstate W) size flags fl ln p s' : accounts_ok s ->
  __mem_malloc s size flags fl ln = Some (p, s') -> accounts_ok s'.
Proof.
  intros Hs. unfold __mem_malloc. destruct (choose_allocator s (s32 size) flags) as [i|]; [|by intros [= _ <-]].
  destruct (memcheck_malloc s size (file_name_without_path fl) ln i flags) as [[q s1]|] eqn:E1; [|done].
  pose proof (malloc_accounts _ _ _ _ _ _ _ _ Hs E1) as Hs1. cbn [mbind option_bind].
  destruct (_ && _); cbn [mbind option_bind]; [|by intros [= _ <-]].
  destruct (memcheck_malloc s1 size (file_name_without_path fl) ln (i + 1) flags) as [[q2 s2]|] eqn:E2; [|done].
  cbn [mbind option_bind]. intros [= _ <-]. by eapply malloc_accounts.
Qed.

Lemma mem_free_accounts (s : mstate W) u s' : accounts_ok s -> __mem_free s u = Some s' -> accounts_ok s'.
Proof.
  intros Hs. unfold __mem_free. destruct (u =? 0); [by intros [= <-]|].
  destruct (Z.ltb_spec (hdr_allocator (mem s) (u32 (u - MEM_SEC_ZONE))) (Z.of_nat (length allocators))) as [Hi|];
    [|by intros [= <-]].
  set (i := Z.to_nat _). unfold memcheck_free.
  match goal with |- context [memcheck_check s ?q ?e] =>
    pose proof (check_accounts s q e Hs) as Hc; destruct (memcheck_check s q e) as [f s1] end.
  cbn [snd] in Hc. destruct (negb (f =? 0)); [intros [= <-]; by apply remove_accounts|].
  destruct (allocators !! i) as [a|] eqn:Ea; [|done]. cbn [mbind option_bind].
  assert (Hi4 : (i < 4)%nat) by (by apply lookup_lt_Some in Ea).
  destruct (if flag_set _ MEM_DMA then free_dma a else free a) as [g|]; [|done]. cbn [mbind option_bind].
  destruct (be_free g _ _ _) as [w m]. intros [= <-].
  match goal with |- accounts_ok (set_backend ?x _ _) => apply (accounts_frame x); try reflexivity end.
  apply account_ok; [by apply remove_accounts|done].
Qed.

(** Anything may happen: requests of any size, frees of any pointer, and any
    change of memory or of the pools. *)
Inductive any_step : mstate W -> mstate W -> Prop :=
  | any_malloc s size flags fl ln u s' : __mem_malloc s size flags fl ln = Some (u, s') -> any_step s s'
  | any_free s u s' : __mem_free s u = Some s' -> any_step s s'
  | any_memory s w m : any_step s (set_backend s w m).

End Accounts.

(** Whatever clients do, also after corruption and wrong frees, the
    counters of the pools and the totals agree modulo 2^32: the memory used by
    the pools sums up to the total with overhead, which is the user total plus 32
    bytes per block; the history index stays inside the ring. *)
Theorem mem_accounting {W} `{Backend W} m (w : W) s :
  rtc any_step (mem_init m w) s -> accounts_ok s.
Proof.
  intros Hr. assert (Hi : accounts_ok (mem_init m w)).
  { split; try reflexivity; [by exists 0|by exists 0|cbn; unfold HISTORY_ENTRIES; lia]. }
  revert Hi. induction Hr as [|x y z Hxy _ IH]; [done|]. intros Hx. apply IH.
  destruct Hxy; [by eapply mem_malloc_accounts|by eapply mem_free_accounts|by apply (accounts_frame s)].
Qed.
