(* ===== verification/MemCheckMore.v ===== *)
(** * More properties of the memory manager

    The choice of a pool, double frees, requests that wrap around, aligned
    blocks, and a concrete pool that satisfies the interface. *)
From S2P Require Import Prelude CacheHacks MemCheck MemCheckProps.

(** ** A simple pool *)

(** The blocks are placed behind all live ones; free space is constant. *)
Abbreviation bump_world := (gmap Z (Z * alloc_fn)).

Definition bump_next (w : bump_world) : Z :=
  let e := foldr (fun b acc => Z.max acc (phys (fst b) + fst (snd b))) 0x1000 (map_to_list w) in
  e + e mod 2.

#[export] Instance bump_backend : Backend bump_world := {
  be_alloc f n w m :=
    let p := bump_next w in
    if p + n <? 0x40000000 then (p, <[p := (n, f)]> w, m) else (0, w, m);
  be_free _ p w m := (delete p w, m);
  GetMemoryInformation _ := (0x1000000, 0x800000);
  GetSizeOfMaxRegion _ := (0, 0x400000);
  _shoot_get_free_space _ := 31 * 1024 * 1024;
  _srm_get_free_space _ := 0x2314000;
  _srm_get_max_region _ := 0x2314000;
  get_current_task_name _ := 0;
}.

Lemma max_end_above (l : list (Z * (Z * alloc_fn))) q k g : (q, (k, g)) ∈ l ->
  phys q + k <= foldr (fun b acc => Z.max acc (phys (fst b) + fst (snd b))) 0x1000 l.
Proof.
  induction l as [|b l IH]; intros Hq; [by apply elem_of_nil in Hq|].
  apply elem_of_cons in Hq as [<-|Hq]; cbn [foldr fst snd]; [lia|]. specialize (IH Hq). lia.
Qed.

Lemma max_end_base (l : list (Z * (Z * alloc_fn))) :
  0x1000 <= foldr (fun b acc => Z.max acc (phys (fst b) + fst (snd b))) 0x1000 l.
Proof. induction l as [|b l IH]; cbn [foldr]; lia. Qed.

Lemma bump_next_above (w : bump_world) q k g : w !! q = Some (k, g) -> phys q + k <= bump_next w.
Proof.
  intros Hq. apply elem_of_map_to_list, max_end_above in Hq. unfold bump_next.
  Z.div_mod_to_equations. lia.
Qed.

Lemma bump_next_even w : Z.land (bump_next w) 1 = 0 /\ 0x1000 <= bump_next w.
Proof.
  unfold bump_next. set (e := foldr _ _ _). split.
  - change 1 with (Z.ones 1). rewrite Z.land_ones by lia. change (2 ^ 1) with 2.
    Z.div_mod_to_equations. lia.
  - pose proof (max_end_base (map_to_list w)) as He. fold e in He. Z.div_mod_to_equations. lia.
Qed.

#[export] Instance bump_backend_ok : BackendOk bump_world.
Proof.
  refine {| blocks := fun w => w |}.
  - intros f n w m p w' m' E a _. unfold be_alloc, be_free, bump_backend in E. cbv zeta in E. repeat case_match; by simplify_eq.
  - intros f n w m p w' m' E Hp. unfold be_alloc, be_free, bump_backend in E. cbv zeta in E. destruct (_ <? _); [|by simplify_eq].
    injection E as <- <- <-. destruct (bump_next_even w), Hp; [lia|done].
  - intros f n w m p w' m' E Hn Hp He. unfold be_alloc, be_free, bump_backend in E. cbv zeta in E.
    destruct (Z.ltb_spec (bump_next w + n) 0x40000000); [|by simplify_eq].
    injection E as <- <- <-. pose proof (bump_next_even w) as [_ Hb].
    split; [unfold in_ram; lia|]. split; [done|]. intros q k g Hq. right.
    rewrite (phys_low (bump_next w)) by lia. by eapply bump_next_above.
  - intros f p n w m w' m' Hp E. unfold be_alloc, be_free, bump_backend in E. cbv zeta in E. injection E as <- <-. done.
Defined.

Lemma bump_empty : blocks (∅ : bump_world) = (∅ : bump_world).
Proof. reflexivity. Qed.

Definition bump_init : mstate bump_world :=
  mem_init (st32 ∅ (MALLOC_STRUCT_ADDR + 8) 0x200000) (∅ : bump_world).

(** One block of 100 bytes, as a run of the manager. *)
Lemma bump_run : exists s, rtc mem_step (bump_init, ∅) (s, <[0x1010 := 100]> ∅) /\
  __mem_malloc bump_init 100 0 [] 0 = Some (0x1010, s).
Proof.
  destruct (__mem_malloc bump_init 100 0 [] 0) as [[u s]|] eqn:E.
  - assert (u = 0x1010) as ->.
    { apply (f_equal (fun x => from_option fst 0 x)) in E. vm_compute in E. done. }
    exists s. split; [|done]. apply rtc_once.
    apply (ms_malloc bump_init ∅ 100 0 [] 0 0x1010 s); (lia || done).
  - apply (f_equal (fun x => match x with Some _ => true | None => false end)) in E.
    vm_compute in E. done.
Qed.

Lemma mem_clients_safe_witness :
  exists s, rtc mem_step (bump_init, ∅) (s, <[0x1010 := 100]> ∅) /\ last_error s = 0 /\
    exists s', __mem_free s 0x1010 = Some s'.
Proof.
  destruct bump_run as (s & Hr & _). exists s. split; [done|].
  destruct (mem_clients_safe _ _ s _ bump_empty Hr) as (He & _ & Hf & _).
  split; [done|]. destruct (Hf 0x1010 100) as (s' & E & _); [apply lookup_insert_eq|]. by exists s'.
Defined.

Lemma mem_contents_kept_witness :
  exists s s' u, __mem_malloc s 50 0 [] 0 = Some (u, s') /\ peek8 (mem s') (0x1010 + 3) = peek8 (mem s) (0x1010 + 3).
Proof.
  destruct bump_run as (s & Hr & _).
  destruct (mem_contents_kept _ _ s _ 0x1010 100 3 bump_empty Hr) as [Hm _];
    [apply lookup_insert_eq|lia|].
  destruct (clients_ok_reach _ _ Hr (clients_ok_init _ _ bump_empty)) as [_ (U & Hh & _)].
  destruct (mem_malloc_ok s U 50 0 [] 0 Hh) as (u & s' & E & _); [lia|lia|unfold UNCACHEABLE_FLAG; lia|].
  exists s, s', u. split; [done|].
  apply (Hm 50 0 [] 0 u s'); [lia|lia|unfold UNCACHEABLE_FLAG; lia|done].
Defined.

Lemma mem_free_detects_overrun_witness :
  exists s s', __mem_free (set_mem s (poke 1 (mem s) (0x1010 + 100) 0)) 0x1010 = Some s' /\ last_error s' = 4.
Proof.
  destruct bump_run as (s & Hr & _).
  destruct (mem_free_detects_overrun _ _ s _ 0x1010 100 100 0 bump_empty Hr)
    as (s' & E & He & _); [apply lookup_insert_eq|lia|done|].
  exists s, s'. split; [done|]. exact He.
Defined.

Lemma mem_accounting_witness : exists s : mstate bump_world, accounts_ok s /\ alloc_total s = 100.
Proof.
  destruct bump_run as (s & _ & E). exists s. split.
  - apply (mem_accounting (st32 ∅ (MALLOC_STRUCT_ADDR + 8) 0x200000) (∅ : bump_world)).
    apply rtc_once. by eapply any_malloc.
  - apply (f_equal (fun x => from_option (fun y => alloc_total (snd y)) 0 x)) in E.
    cbn [from_option snd] in E. rewrite <- E. vm_compute. reflexivity.
Defined.

(** ** The choice of a pool *)

Section Choice.
Context {W : Type} `{Backend W}.

(** What a pool must offer, whichever search finds it: the kind of memory,
    a large enough region, and free space that does not drop below the reserve,
    or below a quarter of it for a small block. *)
Definition serves (s : mstate W) (a : mem_allocator) (size : Z) (dma : bool) : Prop :=
  let free_space := match get_free_space a with Some f => query f s | None => 30 * 1024 * 1024 end in
  let left := s32 (s32 (free_space - size) - 1024) in
  (if dma then malloc_dma a else malloc a) <> None /\
  size <= (match get_max_region a with Some f => s32 (query f s - 1024) | None => Z.quot free_space 4 end) /\
  (minimum_free_space a < left \/
   size < Z.quot (minimum_free_space a) 64 /\ Z.quot (minimum_free_space a) 4 < left) /\
  (depends_on_malloc a = true ->
   16 * 1024 <= GetFreeMemForMalloc (mem s) /\ 16 * 1024 <= GetMaxRegionForAllocateMemory (world s)).

Lemma matches_serves (s : mstate W) a size rs rf rt dma :
  allocator_matches s a size rs rf rt dma = true -> serves s a size dma.
Proof.
  intros Hm. unfold serves. cbv zeta. split.
  { destruct (matches_fn _ _ _ _ _ _ _ Hm) as [f ->]. done. }
  unfold allocator_matches in Hm. cbv zeta in Hm.
  rewrite !andb_true_iff, !orb_true_iff, !andb_true_iff, !negb_true_iff, !orb_false_iff in Hm.
  destruct Hm as [[[_ [_ Hfree]] Hreg] Hdep]. split; [by apply Z.leb_le|]. split.
  - destruct Hfree as [[[_ H1] H2]|H1]; [right|left]; rewrite ?Z.ltb_lt in *; lia.
  - intros Hd. destruct Hdep as [Hdep|[H1 H2]]; [congruence|]. rewrite Z.ltb_ge in H1, H2. lia.
Qed.

Lemma first_found_first (s : mstate W) size dma l i : first_found s size dma l = Some i ->
  exists pre rs rf rt post a, l = pre ++ (rs, rf, rt) :: post /\ allocators !! i = Some a /\
    allocator_matches s a size rs rf rt dma = true /\
    (forall j b, (j < i)%nat -> allocators !! j = Some b -> allocator_matches s b size rs rf rt dma = false) /\
    (forall rs' rf' rt' j b, (rs', rf', rt') ∈ pre -> allocators !! j = Some b ->
       allocator_matches s b size rs' rf' rt' dma = false).
Proof.
  induction l as [|[[rs rf] rt] l IH]; cbn [first_found]; [done|].
  pose proof (search_spec s size rs rf rt dma) as Hs.
  destruct (search_for_allocator s size rs rf rt dma) as [j|].
  - intros [= ->]. destruct Hs as (a & Ha & Hm & Hlt). exists [], rs, rf, rt, l, a.
    split_and!; try done. by intros ? ? ? ? ? ?%elem_of_nil.
  - intros E. destruct (IH E) as (pre & rs' & rf' & rt' & post & a & -> & Ha & Hm & Hlt & Hpre).
    exists ((rs, rf, rt) :: pre), rs', rf', rt', post, a. split_and!; try done.
    intros r1 r2 r3 j b [[= -> -> ->]|Hin]%elem_of_cons Hb; [by eapply Hs|by eapply Hpre].
Qed.

End Choice.

(** the pool chosen for a request offers what it needs, and it is the best
    one: no pool meets the criteria of any stricter search, and none listed
    earlier those of this one.  If no pool is chosen, none meets even the
    most relaxed criteria. *)
Theorem choose_allocator_best {W} `{Backend W} (s : mstate W) size flags :
  let dma := flag_set flags MEM_DMA in
  let tmp := if flag_set flags MEM_TEMPORARY then 1 else if flag_set flags MEM_SRM then 2 else -1 in
  match choose_allocator s size flags with
  | Some i => exists pre rs rf rt post a,
      searches tmp = pre ++ (rs, rf, rt) :: post /\ allocators !! i = Some a /\ serves s a size dma /\
      allocator_matches s a size rs rf rt dma = true /\
      (forall j b, (j < i)%nat -> allocators !! j = Some b -> allocator_matches s b size rs rf rt dma = false) /\
      (forall rs' rf' rt' j b, (rs', rf', rt') ∈ pre -> allocators !! j = Some b ->
         allocator_matches s b size rs' rf' rt' dma = false)
  | None => forall i a, allocators !! i = Some a -> allocator_matches s a size (-1) (-1) 0 dma = false
  end.
Proof.
  intros dma tmp. unfold choose_allocator. fold dma tmp.
  destruct (first_found s size dma (searches tmp)) as [i|] eqn:E.
  - destruct (first_found_first _ _ _ _ _ E) as (pre & rs & rf & rt & post & a & E1 & Ha & Hm & Hlt & Hpre).
    exists pre, rs, rf, rt, post, a. split_and!; try done. by eapply matches_serves.
  - intros i a Ha. pose proof (first_found_spec s size dma (searches tmp)) as Hs. rewrite E in Hs.
    eapply Hs; [|exact Ha]. unfold searches. rewrite !elem_of_app. right. right. left.
Qed.

(** a request close to 2^32 bytes wraps around.  It is taken for a negative
    size by the search, and for a small one by the pool: the client that asks for
    4294967264 bytes gets a pointer to a block of none. *)
Theorem mem_malloc_wraps :
  match __mem_malloc bump_init 0xFFFFFFE0 0 [] 0 with
  | Some (u, s) => u <> 0 /\ map_to_list (world s) = [(u - 16, (0, _malloc))]
  | None => False
  end.
Proof. vm_compute. split; [discriminate|reflexivity]. Qed.

(** ** Double free *)

Section DoubleFree.
Context {W : Type} `{BackendOk W}.

(** freeing a block twice is detected as long as the pool has not reused
    its bytes: the second call records a double free (16), does not call the
    pool, and leaves the totals alone. *)
Theorem mem_double_free_detected m w s C u n s1 : blocks w = ∅ ->
  rtc mem_step (mem_init m w, ∅) (s, C) -> C !! u = Some n -> __mem_free s u = Some s1 ->
  (forall a, phys u - 16 <= a < phys u + n + 16 ->
     rd8 (mem s1) a = rd8 (poke 4 (mem s) (u - 8) JUST_FREED) a) ->
  exists s2, __mem_free s1 u = Some s2 /\ last_error s2 = 16 /\ world s2 = world s1 /\
    alloc_total s2 = alloc_total s1.
Proof.
  intros Hw0 Hr Hu Hfree Hmem.
  destruct (clients_ok_reach _ _ Hr (clients_ok_init m w Hw0)) as [He (U & Hh & HC)].
  cbn [fst snd] in *. subst C. rewrite lookup_fmap in Hu.
  destruct (U !! u) as [b|] eqn:Eb; [|done]. injection Hu as <-.
  destruct (ho_user _ _ Hh _ _ Eb) as [Eu Hw]. pose proof (bw_len _ Hw) as Hl.
  destruct (ho_ok _ _ Hh _ _ Eb) as [H1 H2 H3 _ H5 H6].
  destruct (user_ptr_facts b Hw) as (Hpu & Hur & Hp & Hram & _). rewrite <- Eu in *.
  destruct (ho_live _ _ Hh _ _ Eb) as (f & Hf & _).
  destruct (mem_free_ok s U u b Hh Eb) as (s1' & E1 & El & _). rewrite Hfree in E1. injection E1 as <-.
  assert (Hm : forall o, 0 <= o < blen b + 32 ->
    rd8 (mem s1) (phys (raw b) + o) = rd8 (st 4 (mem s) (phys (raw b) + 8) JUST_FREED) (phys (raw b) + o)).
  { intros o Ho. rewrite Hmem by lia.
    assert (u - 8 = u32 (u - 16) + 8) as -> by (rewrite u32_small; lia).
    by rewrite (poke_off (blen b + 32)), Hp by (done || lia). }
  assert (Hld : forall k o, 0 <= o -> o + Z.of_nat k <= blen b + 32 ->
    ld k (mem s1) (phys (raw b) + o) = ld k (st 4 (mem s) (phys (raw b) + 8) JUST_FREED) (phys (raw b) + o)).
  { intros k o Ho Hk. apply ld_ext. intros a Ha.
    replace a with (phys (raw b) + (a - phys (raw b))) by lia. apply Hm. lia. }
  destruct (mem_free_failed s1 b 16) as (s2 & E2 & Hws & Ht & Hle); try done.
  - by eapply alloc_of_pool.
  - pose proof (Hld 2%nat 0) as E. rewrite Z.add_0_r in E. rewrite E, ld_st_out by lia. done.
  - rewrite Hld, ld_st_out by lia. done.
  - rewrite check_flags_id; try done.
    + rewrite Hld, ld_st_same by lia. done.
    + rewrite Hld, ld_st_out by lia. done.
    + intros k Hk. rewrite Hm, rd8_st_out by lia. by apply H5.
    + intros k Hk. replace (_ + _ + _ + k) with (phys (raw b) + (16 + blen b + k)) by lia.
      rewrite Hm, rd8_st_out by lia. rewrite <- (H6 k) by lia. f_equal. lia.
  - exists s2. rewrite <- Eu in E2. split_and!; try done. by rewrite Hle, El, He.
Qed.

End DoubleFree.

Lemma mem_double_free_detected_witness :
  exists (s1 s2 : mstate bump_world), __mem_free s1 0x1010 = Some s2 /\ last_error s2 = 16.
Proof.
  destruct bump_run as (s & Hr & E).
  destruct (__mem_free s 0x1010) as [s1|] eqn:E1.
  2:{ destruct (clients_ok_reach _ _ Hr (clients_ok_init _ _ bump_empty)) as [_ (U & Hh & HC)].
      assert (HU : exists b, U !! 0x1010 = Some b).
      { apply (f_equal (lookup 0x1010)) in HC. cbn [snd] in HC. rewrite lookup_insert_eq, lookup_fmap in HC.
        destruct (U !! 0x1010); [by eexists|done]. }
      destruct HU as [b Hb]. destruct (mem_free_ok s U _ b Hh Hb) as (s1 & E2 & _). congruence. }
  destruct (mem_double_free_detected _ _ s _ 0x1010 100 s1 bump_empty Hr) as (s2 & E2 & He & _);
    [apply lookup_insert_eq|done| |by exists s1, s2].
  assert (Hs : Some s = snd <$> __mem_malloc bump_init 100 0 [] 0) by (by rewrite E).
  assert (Hs1 : forallb (fun a => rd8 (mem s1) a =? rd8 (poke 4 (mem s) (0x1010 - 8) JUST_FREED) a)
                  (seqZ 0x1000 132) = true).
  { assert (Some true = (fun s1 => forallb (fun a => rd8 (mem s1) a =?
       rd8 (poke 4 (mem s) (0x1010 - 8) JUST_FREED) a) (seqZ 0x1000 132)) <$> __mem_free s 0x1010) as Hc.
    { vm_compute in E. injection E as <-. vm_compute. reflexivity. }
    rewrite E1 in Hc. by injection Hc. }
  rewrite forallb_forall in Hs1. intros a Ha. apply Z.eqb_eq, Hs1, list_elem_of_In, elem_of_seqZ.
  change (phys 0x1010) with 0x1010 in Ha. lia.
Defined.

(** ** Aligned blocks *)

Definition in_use (l : list aligned_alloc) : Z := zsum (fun a => if start a =? 0 then 0 else 1) l.

Record aligned_ok {W} (s : astate W) : Prop := {
  al_len : length (aligned_allocs s) = MAX_ALIGNED_ALLOCS;
  al_count : alloc_count s = in_use (aligned_allocs s);
  al_empty : Forall (fun a => start a = 0 -> len a = 0) (aligned_allocs s);
}.

Lemma in_use_bounds l : 0 <= in_use l <= Z.of_nat (length l).
Proof.
  unfold in_use. induction l as [|a l IH]; cbn [zsum foldr length]; [lia|].
  fold (zsum (fun a => if start a =? 0 then 0 else 1) l). case_match; lia.
Qed.

Lemma in_use_full l : Forall (fun a => start a <> 0) l -> in_use l = Z.of_nat (length l).
Proof.
  unfold in_use. induction 1 as [|a l Ha Hl IH]; cbn [zsum foldr length]; [done|].
  fold (zsum (fun a => if start a =? 0 then 0 else 1) l).
  rewrite (proj2 (Z.eqb_neq _ _) Ha), IH. lia.
Qed.

Lemma in_use_insert l i a b : l !! i = Some a ->
  in_use (<[i := b]> l) = in_use l + ((if start b =? 0 then 0 else 1) - (if start a =? 0 then 0 else 1)).
Proof.
  revert i. induction l as [|c l IH]; intros [|i] Hi; try done.
  - injection Hi as ->. change (<[0%nat := b]> (a :: l)) with (b :: l).
    unfold in_use. cbn [zsum foldr]. lia.
  - specialize (IH i Hi). change (<[S i := b]> (c :: l)) with (c :: <[i := b]> l).
    unfold in_use, zsum in *. cbn [foldr]. rewrite IH. lia.
Qed.

(** The slot for a new block is free and in range. *)
Lemma aligned_slot {W} (s : astate W) : aligned_ok s -> alloc_count s < 16 ->
  exists i a, (if match aligned_allocs s !! Z.to_nat (alloc_count s) with
              | Some a => start a =? 0 | None => false end
           then Some (Z.to_nat (alloc_count s))
           else fst <$> list_find (fun a => start a = 0) (aligned_allocs s)) = Some i /\
    aligned_allocs s !! i = Some a /\ start a = 0.
Proof.
  intros [Hl Hc _] H16.
  destruct (aligned_allocs s !! Z.to_nat (alloc_count s)) as [a|] eqn:Ea; [destruct (Z.eqb_spec (start a) 0)|].
  - by exists (Z.to_nat (alloc_count s)), a.
  - destruct (list_find _ _) as [[i b]|] eqn:Ef.
    + apply list_find_Some in Ef as (Hi & Hb & _). by exists i, b.
    + apply list_find_None in Ef. apply in_use_full in Ef. rewrite Hl in Ef.
      unfold MAX_ALIGNED_ALLOCS in Ef. lia.
  - destruct (list_find _ _) as [[i b]|] eqn:Ef.
    + apply list_find_Some in Ef as (Hi & Hb & _). by exists i, b.
    + apply list_find_None in Ef. apply in_use_full in Ef. rewrite Hl in Ef.
      unfold MAX_ALIGNED_ALLOCS in Ef. lia.
Qed.

(** Distance from the block to the next aligned address. *)
Definition padding (raw alignment : Z) : Z :=
  if raw mod alignment =? 0 then 0 else alignment - raw mod alignment.

Lemma padding_range raw al : 0 < al -> 0 <= padding raw al < al /\ (raw + padding raw al) mod al = 0.
Proof.
  intros Ha. unfold padding. pose proof (Z.mod_pos_bound raw al Ha).
  destruct (Z.eqb_spec (raw mod al) 0) as [E|E]; [by rewrite Z.add_0_r|]. split; [lia|].
  replace (raw + (al - raw mod al)) with ((raw / al + 1) * al) by (pose proof (Z.div_mod raw al); lia).
  apply Z.mod_mul. lia.
Qed.

Section AlignedProps.
Context {W : Type} `{Backend W}.

Lemma malloc_aligned_slot (s : astate W) l al raw w m : aligned_ok s -> alloc_count s < 16 ->
  be_alloc _malloc (u32 (l + al)) (a_world s) (a_mem s) = (raw, w, m) -> 0 < raw -> 0 < al ->
  0 <= l -> raw + l + al < 2 ^ 32 ->
  exists i a, aligned_allocs s !! i = Some a /\ start a = 0 /\
    malloc_aligned s l al = Some (raw + padding raw al,
      mk_astate w m (<[i := mk_aligned_alloc raw l]> (aligned_allocs s)) (alloc_count s + 1)).
Proof.
  intros Hs H16 E Hr Ha Hl Hsum. destruct (aligned_slot s Hs H16) as (i & a & Hi & Hlk & Hst).
  exists i, a. split; [done|]. split; [done|]. unfold malloc_aligned.
  rewrite (proj2 (Z.leb_gt _ _)) by (unfold MAX_ALIGNED_ALLOCS; lia). rewrite E, (proj2 (Z.eqb_neq raw 0)) by lia.
  rewrite Hi. cbn [mbind option_bind]. pose proof (padding_range raw al Ha) as [Hp _].
  pose proof (in_use_bounds (aligned_allocs s)) as Hb. rewrite <- (al_count _ Hs) in Hb.
  rewrite (u32_small (alloc_count s + 1)) by lia. unfold padding in *.
  destruct (raw mod al =? 0); [by rewrite Z.add_0_r|]. by rewrite u32_small by lia.
Qed.

(** [malloc_aligned] returns an aligned pointer whose block of the
    requested length lies inside the raw block, and records that block in a
    free slot; the table never overflows. *)
Theorem malloc_aligned_spec (s : astate W) l al raw w m : aligned_ok s -> alloc_count s < 16 ->
  be_alloc _malloc (u32 (l + al)) (a_world s) (a_mem s) = (raw, w, m) -> 0 < raw -> 0 < al ->
  0 <= l -> raw + l + al < 2 ^ 32 ->
  exists p s', malloc_aligned s l al = Some (p, s') /\ p mod al = 0 /\ raw <= p /\ p + l <= raw + (l + al) /\
    mk_aligned_alloc raw l ∈ aligned_allocs s' /\ aligned_ok s'.
Proof.
  intros Hs H16 E Hr Ha Hl Hsum.
  destruct (malloc_aligned_slot s l al raw w m) as (i & a & Hi & Hst & ->); try done.
  pose proof (padding_range raw al Ha) as [Hp Hm]. eexists _, _. split; [reflexivity|].
  split_and!; [done|lia|lia| |].
  - apply (list_elem_of_lookup_2 _ i). apply list_lookup_insert_eq. by eapply lookup_lt_Some.
  - destruct Hs as [Hlen Hcnt Hemp]. split; cbn [aligned_allocs alloc_count].
    + by rewrite length_insert.
    + rewrite (in_use_insert _ _ _ _ Hi), Hst, Hcnt. cbn [start].
      rewrite (proj2 (Z.eqb_neq raw 0)) by lia. cbn. lia.
    + apply Forall_insert; [done|]. cbn. lia.
Qed.

(** a block from [malloc_aligned] is given back by [free_aligned] exactly
    when its padding is smaller than its length: the table keeps the raw start
    with the requested length, so a pointer that was moved by that much or
    more is not found, and the block is lost. *)
Theorem free_aligned_by_padding (s : astate W) l al raw w m : aligned_ok s -> alloc_count s < 16 ->
  be_alloc _malloc (u32 (l + al)) (a_world s) (a_mem s) = (raw, w, m) -> 0 < raw -> 0 < al ->
  0 <= l -> raw + l + al < 2 ^ 32 ->
  (forall a, a ∈ aligned_allocs s -> start a <> 0 ->
     raw + padding raw al < start a \/ u32 (start a + len a) <= raw + padding raw al) ->
  exists p s', malloc_aligned s l al = Some (p, s') /\
    if padding raw al <? l
    then (a_world (free_aligned s' p), a_mem (free_aligned s' p)) = be_free _free raw w m /\
         alloc_count (free_aligned s' p) = alloc_count s
    else free_aligned s' p = s'.
Proof.
  intros Hs H16 E Hr Ha Hl Hsum Hother.
  destruct (malloc_aligned_slot s l al raw w m) as (i & a & Hi & Hst & ->); try done.
  pose proof (padding_range raw al Ha) as [Hp _]. eexists _, _. split; [reflexivity|].
  pose proof (al_empty _ Hs) as Hemp. rewrite Forall_forall in Hemp.
  assert (Hno : forall j b, aligned_allocs s !! j = Some b ->
    ~ (start b <= raw + padding raw al /\ raw + padding raw al < u32 (start b + len b))).
  { intros j b Hb. pose proof (list_elem_of_lookup_2 _ _ _ Hb) as Hin.
    destruct (Z.eq_dec (start b) 0) as [E0|E0]; [|specialize (Hother b Hin E0); lia].
    rewrite E0, (Hemp b Hin E0). change (u32 (0 + 0)) with 0. lia. }
  unfold free_aligned. cbn [aligned_allocs alloc_count a_world a_mem].
  destruct (list_find _ _) as [[j b]|] eqn:Ef.
  - apply list_find_Some in Ef as (Hj & Hb & _). destruct (decide (i = j)) as [<-|Hne].
    + rewrite list_lookup_insert_eq in Hj by (by eapply lookup_lt_Some). injection Hj as <-.
      cbn [start len] in *. rewrite u32_small in Hb by lia. rewrite (proj2 (Z.ltb_lt _ _)) by lia.
      pose proof (in_use_bounds (aligned_allocs s)) as Hbd. rewrite <- (al_count _ Hs) in Hbd.
      destruct (be_free _free raw w m). cbn. rewrite u32_small by lia. split; [done|lia].
    + rewrite list_lookup_insert_ne in Hj by done. by destruct (Hno j b Hj).
  - apply list_find_None in Ef. eapply (Forall_lookup_1 _ _ i) in Ef;
      [|apply list_lookup_insert_eq; by eapply lookup_lt_Some].
    cbn [start len] in Ef. rewrite u32_small in Ef by lia. rewrite (proj2 (Z.ltb_ge _ _)) by lia. done.
Qed.

End AlignedProps.

(** The example of the source: 0x80 bytes aligned to 0x100, from a raw block at
    0x100104. *)
Definition example_astate : astate bump_world :=
  mk_astate (<[0x100000 := (0x104, _malloc)]> ∅) ∅ (replicate MAX_ALIGNED_ALLOCS (mk_aligned_alloc 0 0)) 0.

Lemma example_ok : aligned_ok example_astate.
Proof. split; [reflexivity|reflexivity|]. apply Forall_replicate. done. Qed.

Lemma example_raw : be_alloc _malloc (u32 (0x80 + 0x100)) (a_world example_astate) (a_mem example_astate) =
  (0x100104, <[0x100104 := (0x180, _malloc)]> (a_world example_astate), ∅).
Proof. vm_compute. reflexivity. Qed.

Lemma malloc_aligned_spec_witness : exists s', malloc_aligned example_astate 0x80 0x100 = Some (0x100200, s').
Proof.
  destruct (malloc_aligned_spec example_astate 0x80 0x100 0x100104 _ _ example_ok eq_refl example_raw)
    as (p & s' & E & _); [lia|lia|lia|lia|].
  exists s'. rewrite E. do 2 f_equal.
  apply (f_equal (fun x => from_option fst 0 x)) in E. vm_compute in E. by rewrite <- E.
Defined.

Lemma free_aligned_by_padding_witness : exists s',
  malloc_aligned example_astate 0x80 0x100 = Some (0x100200, s') /\ free_aligned s' 0x100200 = s'.
Proof.
  destruct (free_aligned_by_padding example_astate 0x80 0x100 0x100104 _ _ example_ok eq_refl example_raw)
    as (p & s' & E & Hf); [lia|lia|lia|lia| |].
  - intros a Ha Hs. exfalso. apply Hs. unfold example_astate in Ha. cbn [aligned_allocs] in Ha.
    apply elem_of_replicate in Ha as [-> _]. done.
  - exists s'. assert (p = 0x100200) as ->.
    { apply (f_equal (fun x => from_option fst 0 x)) in E. vm_compute in E. by rewrite <- E. }
    split; [done|]. exact Hf.
Defined.
