(* ===== verification/Exmem.v ===== *)
(** * Shooting and SRM memory ([src/src/exmem.c])

    Two large pools that belong to Canon's resource manager (RscMgr): the
    shooting buffer, requested through callbacks with a timeout, and the SRM
    buffers, which are taken all at once and handed out one by one.  RscMgr and
    the memory suites are the interface [RscMgr]. *)
From S2P Require Import Prelude CacheHacks.

Definition SRM_BUFFER_SIZE : Z := 0x2314000.
Definition SRM_MAX_BUF_COUNT_VIDEO_MODE : nat := 16.
Definition UILOCK_REQUEST : Z := 0x41000000.
Definition UILOCK_NONE : Z := 0.
Definition UILOCK_SHUTTER : Z := 1.

(** What [exmem.c] calls in Canon code.  An allocation returns the suite or the
    buffer its callback delivers before the timeout, or [None]; suites are known
    by their chunks, address and size. *)
Class RscMgr (W : Type) := {
  AllocateMemoryResource : Z -> W -> option Z * W;
  AllocateContinuousMemoryResource : Z -> W -> option Z * W;
  FreeMemoryResource : Z -> W -> W;
  SRM_AllocateMemoryResourceFor1stJob : W -> option Z * W;
  SRM_FreeMemoryResourceFor1stJob : Z -> W -> W;
  CreateMemorySuite : Z -> Z -> W -> Z * W;
  AddMemoryChunk : Z -> Z -> Z -> W -> W;
  DeleteMemorySuite : Z -> W -> W;
  suite_chunks : W -> Z -> list (Z * Z);
  job_state : W -> Z;
  icu_uilock : W -> Z;
  request_uilock : Z -> W -> W;
  msleep : Z -> W -> W;
}.

Record srm_buffer := mk_srm_buffer { buffer : Z; used : bool; use_after_free : bool }.

Definition null_buffer : srm_buffer := mk_srm_buffer 0 false false.

Record xstate (W : Type) := mk_xstate {
  os : W;
  srm_allocated : bool;
  srm_buffers : list srm_buffer;
  shoot_full_suite : Z;
  alloc_sem : bool;
  late_msgs : nat;   (* messages that timed out, freed by a late [allocCBR] *)
}.
Arguments mk_xstate {W}. Arguments os {W}. Arguments srm_allocated {W}. Arguments srm_buffers {W}.
Arguments shoot_full_suite {W}. Arguments alloc_sem {W}. Arguments late_msgs {W}.

Section Exmem.
Context {W : Type} `{RscMgr W}.

Definition set_os (s : xstate W) (w : W) : xstate W :=
  mk_xstate w (srm_allocated s) (srm_buffers s) (shoot_full_suite s) (alloc_sem s) (late_msgs s).
Definition set_buffers (s : xstate W) (l : list srm_buffer) : xstate W :=
  mk_xstate (os s) (srm_allocated s) l (shoot_full_suite s) (alloc_sem s) (late_msgs s).
Definition set_allocated (s : xstate W) (b : bool) : xstate W :=
  mk_xstate (os s) b (srm_buffers s) (shoot_full_suite s) (alloc_sem s) (late_msgs s).
Definition set_full_suite (s : xstate W) (h : Z) : xstate W :=
  mk_xstate (os s) (srm_allocated s) (srm_buffers s) h (alloc_sem s) (late_msgs s).
Definition set_late (s : xstate W) (n : nat) : xstate W :=
  mk_xstate (os s) (srm_allocated s) (srm_buffers s) (shoot_full_suite s) (alloc_sem s) n.

(** ** Shooting memory *)

(** [None]: the caller waits for [free_sem], which nobody gives. *)
Definition _shoot_free_suite (s : xstate W) (hSuite : Z) : option (xstate W) :=
  let s := if hSuite =? shoot_full_suite s then set_full_suite s 0 else s in
  if hSuite =? 0 then None
  else Some (set_os s (FreeMemoryResource hSuite (os s))).

(** The callback of a request that timed out: free the suite and the message. *)
Definition allocCBR_late (s : xstate W) (hSuite : Z) : xstate W :=
  let s := if hSuite =? 0 then s else set_os s (FreeMemoryResource hSuite (os s)) in
  set_late s (late_msgs s - 1).

Definition shoot_malloc_suite_int (s : xstate W) (size : Z) : Z * xstate W :=
  match AllocateMemoryResource size (os s) with
  | (Some hSuite, w) => (hSuite, set_os s w)
  | (None, w) => (0, set_late (set_os s w) (late_msgs s + 1))
  end.

Definition largest_chunk_size (s : xstate W) (hSuite : Z) : Z :=
  foldl (fun max_size '(_, size) => Z.max max_size size) 0 (suite_chunks (os s) hSuite).

(** The loop over the sizes still to be tried, in MB. *)
Fixpoint autodetect_loop (s : xstate W) (backup_size max_size : Z) (sizes_mb : list Z) : option (Z * xstate W) :=
  match sizes_mb with
  | [] => Some (max_size, s)
  | size_mb :: rest =>
    let tested_size := size_mb * 1024 * 1024 in
    let '(testSuite, s) := shoot_malloc_suite_int s tested_size in
    if testSuite =? 0 then Some (max_size, s)
    else
      s ← _shoot_free_suite s testSuite;
      autodetect_loop s backup_size (tested_size + backup_size - 1024 * 1024) rest
  end.

Definition shoot_malloc_autodetect (s : xstate W) : option (Z * xstate W) :=
  let backup_size := 4 * 1024 * 1024 in
  let '(backup, s) := shoot_malloc_suite_int s backup_size in
  if backup =? 0 then Some (0, s)
  else
    '(max_size, s) ← autodetect_loop s backup_size 0 (map (fun i => 4 + 4 * i) (seqZ 0 255));
    s ← _shoot_free_suite s backup;
    Some (max_size, s).

Fixpoint autodetect_contig_loop (s : xstate W) (requested_size max_contig_size : Z) (sizes_mb : list Z)
    : option (Z * xstate W) :=
  match sizes_mb with
  | [] => Some (max_contig_size, s)
  | size_mb :: rest =>
    let tested_size := size_mb * 1024 * 1024 in
    let '(testSuite, s) := shoot_malloc_suite_int s tested_size in
    if testSuite =? 0 then Some (max_contig_size, s)
    else
      let max_contig_size := largest_chunk_size s testSuite in
      s ← _shoot_free_suite s testSuite;
      if negb (requested_size =? 0) && (requested_size <=? max_contig_size)
      then Some (max_contig_size, s)
      else autodetect_contig_loop s requested_size max_contig_size rest
  end.

Definition shoot_malloc_autodetect_contig (s : xstate W) (requested_size : Z) : option (Z * xstate W) :=
  let backup_size := 1024 * 1024 in
  let '(backup, s) := shoot_malloc_suite_int s backup_size in
  if backup =? 0 then Some (0, s)
  else
    '(max_size, s) ← autodetect_contig_loop s requested_size 0 (seqZ 1 1023);
    s ← _shoot_free_suite s backup;
    Some (max_size, s).

Definition _shoot_malloc_suite (s : xstate W) (size : Z) : option (Z * xstate W) :=
  if negb (size =? 0) then Some (shoot_malloc_suite_int s size)
  else
    '(max_size, s) ← shoot_malloc_autodetect s;
    let '(hSuite, s) := shoot_malloc_suite_int s max_size in
    Some (hSuite, set_full_suite s hSuite).

(** The size to ask for: [None] when the request cannot be met. *)
Definition contig_request (s : xstate W) (size : Z) : option (option Z * xstate W) :=
  if (size =? 0) || (1024 * 1024 <? size) then
    '(max_size, s) ← shoot_malloc_autodetect_contig s size;
    if negb (size =? 0) && (max_size <? size) then Some (None, s)
    else Some (Some (if size =? 0 then max_size else size), s)
  else Some (Some size, s).

Definition _shoot_malloc_suite_contig (s : xstate W) (size : Z) : option (Z * xstate W) :=
  '(size, s) ← contig_request s size;
  match size with
  | None => Some (0, s)
  | Some size =>
    match AllocateContinuousMemoryResource size (os s) with
    | (Some hSuite, w) => Some (hSuite, set_os s w)
    | (None, w) => Some (0, set_late (set_os s w) (late_msgs s + 1))
    end
  end.

(** The suite is kept in the word before the block. *)
Definition _shoot_malloc (s : xstate W) (m : memory) (size : Z) : option (Z * xstate W * memory) :=
  '(theSuite, s) ← _shoot_malloc_suite_contig s (u32 (size + 4));
  if theSuite =? 0 then Some (0, s, m)
  else
    p ← fst <$> head (suite_chunks (os s) theSuite);
    Some (u32 (p + 4), s, st32 m (phys p) theSuite).

Definition _shoot_free (s : xstate W) (m : memory) (p : Z) : option (xstate W) :=
  if p =? 0 then Some s
  else if negb (Z.land p 3 =? 0) then Some s
  else
    let hSuite := ld32 m (phys (u32 (p - 4))) in
    if hSuite =? 0 then None
    else Some (set_os s (FreeMemoryResource hSuite (os s))).

Definition _shoot_get_free_space (s : xstate W) : Z :=
  if negb (alloc_sem s) then 0
  else if negb (shoot_full_suite s =? 0) then 0
  else 63 * 1024 * 1024 / 2.

(** ** SRM memory *)

Definition gui_uilock (what : Z) (w : W) : W :=
  let w := if negb (Z.land (icu_uilock w) 0xFFFF =? UILOCK_NONE) && negb (what =? UILOCK_NONE)
           then request_uilock (Z.lor UILOCK_REQUEST (Z.land UILOCK_NONE 0xFFFF)) w else w in
  request_uilock (Z.lor UILOCK_REQUEST (Z.land what 0xFFFF)) w.

Definition srm_shutter_lock (w : W) : W := gui_uilock (Z.lor (icu_uilock w) UILOCK_SHUTTER) w.
Definition srm_shutter_unlock (w : W) : W :=
  gui_uilock (Z.land (icu_uilock w) (Z.lnot UILOCK_SHUTTER)) w.

Definition set_buffer (b : srm_buffer) (p : Z) : srm_buffer := mk_srm_buffer p (used b) (use_after_free b).
Definition set_used (b : srm_buffer) (u : bool) : srm_buffer := mk_srm_buffer (buffer b) u (use_after_free b).
Definition set_uaf (b : srm_buffer) (u : bool) : srm_buffer := mk_srm_buffer (buffer b) (used b) u.

(** The loop of [srm_alloc_internal] from slot [i], [n] slots left. *)
Fixpoint srm_alloc_loop (s : xstate W) (i n : nat) : xstate W :=
  match n with
  | O => s
  | S n =>
    match SRM_AllocateMemoryResourceFor1stJob (os s) with
    | (Some p, w) =>
      srm_alloc_loop (set_buffers (set_os s w) (alter (fun b => set_buffer b p) i (srm_buffers s))) (S i) n
    | (None, w) =>
      let w := srm_shutter_unlock w in
      let first := buffer (nth 0 (srm_buffers s) null_buffer) in
      let w := SRM_FreeMemoryResourceFor1stJob first w in
      let s := set_os s w in
      if negb (shoot_full_suite s =? 0)
      then set_buffers s (alter (fun b => set_uaf b true) 0%nat (srm_buffers s))
      else set_buffers s (alter (fun b => set_buffer b 0) 0%nat (srm_buffers s))
    end
  end.

Definition srm_alloc_internal (s : xstate W) : xstate W :=
  if srm_allocated s || negb (job_state (os s) =? 0) then s
  else
    let s := set_os s (msleep 50 (srm_shutter_lock (os s))) in
    if srm_allocated s || negb (job_state (os s) =? 0) then s
    else
      let s := set_buffers s (replicate SRM_MAX_BUF_COUNT_VIDEO_MODE null_buffer) in
      set_allocated (srm_alloc_loop s 0 SRM_MAX_BUF_COUNT_VIDEO_MODE) true.

(** Give one buffer back to the system. *)
Definition srm_release (w : W) (b : srm_buffer) : W * srm_buffer :=
  if buffer b =? 0 then (w, b)
  else (if use_after_free b then w else SRM_FreeMemoryResourceFor1stJob (buffer b) w,
        mk_srm_buffer 0 (used b) false).

Fixpoint srm_release_all (w : W) (l : list srm_buffer) : W * list srm_buffer :=
  match l with
  | [] => (w, [])
  | b :: l =>
    let '(w, b) := srm_release w b in
    let '(w, l) := srm_release_all w l in (w, b :: l)
  end.

Definition srm_free_internal (s : xstate W) : xstate W :=
  if existsb used (srm_buffers s) then s
  else
    let '(w, l) := srm_release_all (os s) (srm_buffers s) in
    set_allocated (set_buffers (set_os s (srm_shutter_unlock w)) l) false.

(** The last slot that holds an unused buffer. *)
Definition is_free (b : srm_buffer) : bool := negb (buffer b =? 0) && negb (used b).

Fixpoint find_last (l : list srm_buffer) (n : nat) : option nat :=
  match n with
  | O => None
  | S i => if is_free (nth i l null_buffer) then Some i else find_last l i
  end.

(** Take unused buffers from slot [n - 1] down into a suite. *)
Fixpoint srm_suite_loop (s : xstate W) (suite num_requested : Z) (n : nat) : Z * xstate W :=
  match n with
  | O => (suite, s)
  | S i =>
    if num_requested =? 0 then (suite, s)
    else if is_free (nth i (srm_buffers s) null_buffer) then
      let p := buffer (nth i (srm_buffers s) null_buffer) in
      let '(suite, w) := if suite =? 0 then CreateMemorySuite p SRM_BUFFER_SIZE (os s)
                         else (suite, AddMemoryChunk suite p SRM_BUFFER_SIZE (os s)) in
      let s := set_buffers (set_os s w) (alter (fun b => set_used b true) i (srm_buffers s)) in
      srm_suite_loop s suite (num_requested - 1) i
    else srm_suite_loop s suite num_requested i
  end.

Definition _srm_malloc_suite (s : xstate W) (num_requested_buffers : Z) : Z * xstate W :=
  let s := srm_alloc_internal s in
  let n := if num_requested_buffers =? 0 then Z.of_nat (length (srm_buffers s)) else num_requested_buffers in
  srm_suite_loop s 0 n (length (srm_buffers s)).

Definition _srm_free_suite (s : xstate W) (suite : Z) : xstate W :=
  if suite =? 0 then s
  else
    let l := foldl (fun l '(buf, _) => map (fun b => if buffer b =? buf then set_used b false else b) l)
                   (srm_buffers s) (suite_chunks (os s) suite) in
    let s := set_os (set_buffers s l) (DeleteMemorySuite suite (os s)) in
    srm_free_internal s.

Definition _srm_free (s : xstate W) (p : Z) : xstate W :=
  if p =? 0 then s
  else srm_free_internal (set_buffers s
    (map (fun b => if used b && (buffer b =? p) then set_used b false else b) (srm_buffers s))).

Definition _srm_malloc (s : xstate W) (size : Z) : Z * xstate W :=
  let s := srm_alloc_internal s in
  let '(p, s) :=
    match find_last (srm_buffers s) (length (srm_buffers s)) with
    | Some i => (buffer (nth i (srm_buffers s) null_buffer),
                 set_buffers s (alter (fun b => set_used b true) i (srm_buffers s)))
    | None => (0, s)
    end in
  if SRM_BUFFER_SIZE <? u32 (size + 4) then (0, _srm_free s p) else (p, s).

Definition _srm_get_max_region (s : xstate W) : Z :=
  if negb (srm_allocated s) then SRM_BUFFER_SIZE
  else match find_last (srm_buffers s) (length (srm_buffers s)) with
       | Some _ => SRM_BUFFER_SIZE | None => 0 end.

Definition _srm_get_free_space (s : xstate W) : Z :=
  if negb (srm_allocated s) then SRM_BUFFER_SIZE
  else foldr (fun b acc => if is_free b then acc + SRM_BUFFER_SIZE else acc) 0 (srm_buffers s).

End Exmem.
