(* ===== verification/ExmemProps.v ===== *)
(** * Properties of the SRM allocator

    Whatever clients do, the buffers Canon's resource manager has handed out
    are those in the table, but for one that was given back and is still used;
    a buffer is given to one client at a time; and the state in which the
    allocator never answers again. *)
From S2P Require Import Prelude CacheHacks Exmem.

(** Documented behaviour of the SRM pool: a new buffer is not one of those
    handed out, and only the two SRM calls change which are. *)
Class RscMgrOk (W : Type) `{RscMgr W} := {
  held : W -> gset Z;
  held_alloc w p w' : SRM_AllocateMemoryResourceFor1stJob w = (Some p, w') ->
    p <> 0 /\ p ∉ held w /\ held w' = {[p]} ∪ held w;
  held_timeout w w' : SRM_AllocateMemoryResourceFor1stJob w = (None, w') -> held w' = held w;
  held_free p w : held (SRM_FreeMemoryResourceFor1stJob p w) = held w ∖ {[p]};
  held_uilock v w : held (request_uilock v w) = held w;
  held_msleep t w : held (msleep t w) = held w;
  held_create p n w : held (snd (CreateMemorySuite p n w)) = held w;
  held_add h p n w : held (AddMemoryChunk h p n w) = held w;
  held_delete h w : held (DeleteMemorySuite h w) = held w;
}.

(** A slot whose buffer is held from the system.  The others with a buffer are
    those marked [use_after_free], which the allocator has given back and still
    hands out. *)
Definition holds (b : srm_buffer) : bool := negb (buffer b =? 0) && negb (use_after_free b).

Section Srm.
Context {W : Type} `{RscMgrOk W}.

(** The table and the system agree. *)
Record srm_table (w : W) (l : list srm_buffer) : Prop := {
  st_held p : p ∈ held w <-> exists i b, l !! i = Some b /\ holds b = true /\ buffer b = p;
  st_inj i j b c : l !! i = Some b -> l !! j = Some c -> buffer b = buffer c -> buffer b <> 0 -> i = j;
  st_used i b : l !! i = Some b -> used b = true -> buffer b <> 0;
  st_first i b : l !! i = Some b -> buffer b <> 0 -> use_after_free b = true -> i = 0%nat;
}.

Record srm_ok (s : xstate W) : Prop := {
  so_len : length (srm_buffers s) = SRM_MAX_BUF_COUNT_VIDEO_MODE;
  so_free : srm_allocated s = false -> Forall (fun b => buffer b = 0 /\ used b = false) (srm_buffers s);
  so_table : srm_table (os s) (srm_buffers s);
}.

Lemma held_gui_uilock what w : held (gui_uilock what w) = held w.
Proof. unfold gui_uilock. rewrite held_uilock. case_match; [by rewrite held_uilock|done]. Qed.

Lemma held_shutter_lock w : held (srm_shutter_lock w) = held w.
Proof. apply held_gui_uilock. Qed.

Lemma held_shutter_unlock w : held (srm_shutter_unlock w) = held w.
Proof. apply held_gui_uilock. Qed.

(** The table only depends on what is held. *)
Lemma srm_table_os w w' l : held w' = held w -> srm_table w l -> srm_table w' l.
Proof. intros E [H1 H2 H3 H4]. split; [|done|done|done]. intros p. by rewrite E. Qed.

(** Marking slots as used or unused keeps the table. *)
Lemma srm_table_used w l l' : srm_table w l -> length l' = length l ->
  (forall i b b', l !! i = Some b -> l' !! i = Some b' ->
     buffer b' = buffer b /\ use_after_free b' = use_after_free b /\ (used b' = true -> buffer b <> 0)) ->
  srm_table w l'.
Proof.
  intros [H1 H2 H3 H4] Hlen Hs.
  assert (Hfw : forall i b', l' !! i = Some b' -> exists b, l !! i = Some b).
  { intros i b' Hi. apply lookup_lt_is_Some_2. rewrite <- Hlen. by eapply lookup_lt_Some. }
  assert (Hbw : forall i b, l !! i = Some b -> exists b', l' !! i = Some b').
  { intros i b Hi. apply lookup_lt_is_Some_2. rewrite Hlen. by eapply lookup_lt_Some. }
  split.
  - intros p. rewrite H1. split.
    + intros (i & b & Hi & Hh & Hp). destruct (Hbw i b Hi) as [b' Hi'].
      destruct (Hs i b b' Hi Hi') as (E1 & E2 & _). exists i, b'. unfold holds in *. by rewrite E1, E2.
    + intros (i & b' & Hi' & Hh & Hp). destruct (Hfw i b' Hi') as [b Hi].
      destruct (Hs i b b' Hi Hi') as (E1 & E2 & _). exists i, b. unfold holds in *. by rewrite <- E1, <- E2.
  - intros i j b c Hb Hc. destruct (Hfw i b Hb) as [b0 Hb0], (Hfw j c Hc) as [c0 Hc0].
    destruct (Hs _ _ _ Hb0 Hb) as (-> & _), (Hs _ _ _ Hc0 Hc) as (-> & _). by apply H2.
  - intros i b Hb Hu. destruct (Hfw i b Hb) as [b0 Hb0]. destruct (Hs _ _ _ Hb0 Hb) as (-> & _ & Hx). auto.
  - intros i b Hb. destruct (Hfw i b Hb) as [b0 Hb0]. destruct (Hs _ _ _ Hb0 Hb) as (-> & -> & _). by apply H4.
Qed.

Lemma find_last_spec l n : match find_last l n with
  | Some i => (i < n)%nat /\ is_free (nth i l null_buffer) = true
  | None => forall i, (i < n)%nat -> is_free (nth i l null_buffer) = false
  end.
Proof.
  induction n as [|n IH]; cbn [find_last]; [intros i Hi; lia|].
  destruct (is_free (nth n l null_buffer)) eqn:E; [split; [lia|done]|].
  destruct (find_last l n) as [i|]; [destruct IH; split; [lia|done]|].
  intros i Hi. destruct (decide (i = n)) as [->|]; [done|apply IH; lia].
Qed.

Lemma alter_used_table w l i : srm_table w l -> buffer (nth i l null_buffer) <> 0 ->
  srm_table w (alter (fun b => set_used b true) i l).
Proof.
  intros Ht Hb. apply (srm_table_used w l); [done|apply length_alter|].
  intros j b b' Hj Hj'. rewrite list_lookup_alter in Hj'. destruct (decide (i = j)) as [<-|Hne].
  - rewrite Hj in Hj'. injection Hj' as <-. rewrite nth_lookup, Hj in Hb. done.
  - rewrite Hj in Hj'. injection Hj' as <-. split_and!; try done. apply (st_used _ _ Ht j). done.
Qed.

(** ** Taking all buffers *)

(** During the loop: slots from [i] on are empty, none is used or freed. *)
Record filling (l : list srm_buffer) (i : nat) : Prop := {
  fi_len : length l = SRM_MAX_BUF_COUNT_VIDEO_MODE;
  fi_clean : Forall (fun b => used b = false /\ use_after_free b = false) l;
  fi_rest j b : (i <= j)%nat -> l !! j = Some b -> buffer b = 0;
}.

Lemma fill_slot w w' l i p : srm_table w l -> filling l i -> (i < SRM_MAX_BUF_COUNT_VIDEO_MODE)%nat ->
  p <> 0 -> p ∉ held w -> held w' = {[p]} ∪ held w ->
  srm_table w' (alter (fun b => set_buffer b p) i l) /\ filling (alter (fun b => set_buffer b p) i l) (S i).
Proof.
  intros Ht [Hl Hc Hr] Hi Hp Hnp Hw. rewrite Forall_lookup in Hc.
  destruct (lookup_lt_is_Some_2 l i) as [bi Hbi]; [lia|]. pose proof (Hr i bi ltac:(lia) Hbi) as Hbi0.
  assert (Hlk : forall j b, alter (fun b => set_buffer b p) i l !! j = Some b ->
    (j = i /\ b = set_buffer bi p) \/ (j <> i /\ l !! j = Some b)).
  { intros j b Hj. rewrite list_lookup_alter in Hj. destruct (decide (i = j)) as [<-|Hne].
    - rewrite Hbi in Hj. injection Hj as <-. by left.
    - right. done. }
  assert (Hfresh : forall j b, l !! j = Some b -> buffer b <> p).
  { intros j b Hj E. apply Hnp, (st_held _ _ Ht). exists j, b. unfold holds.
    rewrite E, (proj2 (Z.eqb_neq _ _) Hp), (proj2 (Hc j b Hj)). done. }
  split; split.
  - intros q. rewrite Hw, elem_of_union, elem_of_singleton, (st_held _ _ Ht). split.
    + intros [->|(j & b & Hj & Hh & Hq)].
      * exists i, (set_buffer bi p). rewrite list_lookup_alter, decide_True, Hbi by done.
        unfold holds, set_buffer; cbn. by rewrite (proj2 (Z.eqb_neq _ _) Hp), (proj2 (Hc i bi Hbi)).
      * exists j, b. rewrite list_lookup_alter, decide_False; [done|].
        intros <-. rewrite Hbi in Hj. injection Hj as <-. unfold holds in Hh. by rewrite Hbi0 in Hh.
    + intros (j & b & Hj & Hh & Hq). destruct (Hlk j b Hj) as [[-> ->]|[Hne Hj']]; [by left|right; eauto].
  - intros j k b c Hj Hk E Hb. destruct (Hlk j b Hj) as [[-> ->]|[Hne Hj']], (Hlk k c Hk) as [[-> ->]|[Hne' Hk']].
    + done.
    + by destruct (Hfresh k c Hk').
    + by destruct (Hfresh j b Hj').
    + by eapply (st_inj _ _ Ht).
  - intros j b Hj Hu. destruct (Hlk j b Hj) as [[-> ->]|[Hne Hj']]; [done|by eapply (st_used _ _ Ht)].
  - intros j b Hj _ Hu. destruct (Hlk j b Hj) as [[-> ->]|[_ Hj']].
    + cbn in Hu. by rewrite (proj2 (Hc i bi Hbi)) in Hu.
    + by rewrite (proj2 (Hc j b Hj')) in Hu.
  - by rewrite length_alter.
  - apply Forall_lookup. intros j b Hj. destruct (Hlk j b Hj) as [[-> ->]|[_ Hj']]; [exact (Hc i bi Hbi)|exact (Hc j b Hj')].
  - intros j b Hij Hj. destruct (Hlk j b Hj) as [[-> ->]|[_ Hj']]; [lia|apply (Hr j); [lia|done]].
Qed.

(** Giving slot 0 back: it is emptied, or kept but no longer held. *)
Lemma drop_first w w' l f : srm_table w l -> length l = SRM_MAX_BUF_COUNT_VIDEO_MODE ->
  Forall (fun b => used b = false) l ->
  held w' = held w ∖ {[buffer (nth 0 l null_buffer)]} ->
  (forall b, used (f b) = used b /\ (buffer (f b) = 0 \/ buffer (f b) = buffer b) /\ holds (f b) = false) ->
  srm_table w' (alter f 0%nat l).
Proof.
  intros Ht Hl Hu Hw Hf. rewrite Forall_lookup in Hu.
  destruct (lookup_lt_is_Some_2 l 0) as [b0 Hb0]; [rewrite Hl; unfold SRM_MAX_BUF_COUNT_VIDEO_MODE; lia|].
  rewrite nth_lookup, Hb0 in Hw. simpl in Hw.
  destruct (Hf b0) as (Hf1 & Hf2 & Hf3).
  assert (Hlk : forall j b, alter f 0%nat l !! j = Some b ->
    (j = 0%nat /\ b = f b0) \/ (j <> 0%nat /\ l !! j = Some b)).
  { intros j b Hj. rewrite list_lookup_alter in Hj. destruct (decide (0%nat = j)) as [<-|Hne].
    - rewrite Hb0 in Hj. injection Hj as <-. by left.
    - right. done. }
  split.
  - intros p. rewrite Hw, elem_of_difference, elem_of_singleton, (st_held _ _ Ht). split.
    + intros [(j & b & Hj & Hh & Hp) Hne]. exists j, b. rewrite list_lookup_alter, decide_False; [done|].
      intros <-. rewrite Hb0 in Hj. injection Hj as <-. done.
    + intros (j & b & Hj & Hh & Hp). destruct (Hlk j b Hj) as [[-> ->]|[Hne Hj']]; [congruence|].
      split; [eauto|]. intros E. apply Hne. eapply (st_inj _ _ Ht); [exact Hj'|exact Hb0|congruence|].
      unfold holds in Hh. intros E0. by rewrite E0 in Hh.
  - intros j k b c Hj Hk E Hb.
    destruct (Hlk j b Hj) as [[-> ->]|[Hne Hj']], (Hlk k c Hk) as [[-> ->]|[Hne' Hk']]; [done| | |].
    + destruct Hf2 as [?|Hf2]; [done|]. eapply (st_inj _ _ Ht); [exact Hb0|exact Hk'|congruence|congruence].
    + destruct Hf2 as [?|Hf2]; [congruence|]. eapply (st_inj _ _ Ht); [exact Hj'|exact Hb0|congruence|done].
    + by eapply (st_inj _ _ Ht).
  - intros j b Hj Hub. destruct (Hlk j b Hj) as [[-> ->]|[Hne Hj']]; [|by eapply (st_used _ _ Ht)].
    rewrite Hf1, (Hu _ _ Hb0) in Hub. done.
  - intros j b Hj Hnz Hub. destruct (Hlk j b Hj) as [[-> ->]|[_ Hj']]; [done|]. by eapply (st_first _ _ Ht).
Qed.

Lemma srm_alloc_loop_ok n : forall s i, srm_table (os s) (srm_buffers s) -> filling (srm_buffers s) i ->
  (i + n = SRM_MAX_BUF_COUNT_VIDEO_MODE)%nat ->
  let s' := srm_alloc_loop s i n in
  srm_table (os s') (srm_buffers s') /\ length (srm_buffers s') = SRM_MAX_BUF_COUNT_VIDEO_MODE.
Proof.
  induction n as [|n IH]; intros s i Ht Hf Hn; cbn [srm_alloc_loop]; [split; [done|apply Hf]|].
  destruct (SRM_AllocateMemoryResourceFor1stJob (os s)) as [[p|] w] eqn:E.
  - destruct (held_alloc _ _ _ E) as (Hp & Hnp & Hw).
    destruct (fill_slot (os s) w (srm_buffers s) i p) as [Ht' Hf']; try done; [lia|].
    apply (IH (set_buffers (set_os s w) _) (S i)); [done|done|lia].
  - pose proof (held_timeout _ _ E) as Hw. cbn [shoot_full_suite set_os].
    set (w2 := SRM_FreeMemoryResourceFor1stJob _ _).
    assert (Hw2 : held w2 = held (os s) ∖ {[buffer (nth 0 (srm_buffers s) null_buffer)]}).
    { unfold w2. by rewrite held_free, held_shutter_unlock, Hw. }
    assert (Hu : Forall (fun b => used b = false) (srm_buffers s)).
    { eapply Forall_impl; [apply Hf|]. by intros b []. }
    destruct (negb _); cbn [os srm_buffers set_os set_buffers]; split;
      try (rewrite length_alter; apply Hf); apply (drop_first (os s)); try done; try apply Hf.
    + intros b. split_and!; [done|by right|]. unfold holds; cbn. by rewrite andb_false_r.
    + intros b. split_and!; [done|by left|done].
Qed.

Lemma srm_alloc_internal_ok s : srm_ok s -> srm_ok (srm_alloc_internal s).
Proof.
  intros Hs. unfold srm_alloc_internal. destruct (_ || _) eqn:E; [done|].
  apply orb_false_iff in E as [Ea _].
  assert (Hs1 : srm_ok (set_os s (msleep 50 (srm_shutter_lock (os s))))).
  { destruct Hs as [H1 H2 H3]. split; [done|done|]. cbn [os srm_buffers set_os].
    eapply srm_table_os; [|done]. by rewrite held_msleep, held_shutter_lock. }
  destruct (_ || _); [done|]. set (s1 := set_os s _) in *.
  assert (Hh : held (os s1) = ∅).
  { apply set_eq. intros p. rewrite (st_held _ _ (so_table _ Hs1)). split; [|by intros ?%elem_of_empty].
    intros (i & b & Hi & Hh & _). pose proof (so_free _ Hs1 Ea) as Hf.
    destruct (Forall_lookup_1 _ _ _ _ Hf Hi) as [E0 _]. unfold holds in Hh. by rewrite E0 in Hh. }
  destruct (srm_alloc_loop_ok SRM_MAX_BUF_COUNT_VIDEO_MODE
    (set_buffers s1 (replicate SRM_MAX_BUF_COUNT_VIDEO_MODE null_buffer)) 0) as [Ht Hl].
  - cbn [os srm_buffers set_buffers]. split.
    + intros p. rewrite Hh. split; [by intros ?%elem_of_empty|].
      intros (i & b & [-> _]%lookup_replicate & Hb & _). done.
    + intros i j b c [-> _]%lookup_replicate _ _ Hb. done.
    + intros i b [-> _]%lookup_replicate Hb. done.
    + intros i b [-> _]%lookup_replicate Hb. done.
  - split; [apply length_replicate|by apply Forall_replicate|].
    intros j b _ [-> _]%lookup_replicate. done.
  - done.
  - split; done.
Qed.

(** ** Giving all buffers back *)

Lemma srm_release_all_spec l : forall w w' l', srm_release_all w l = (w', l') ->
  length l' = length l /\ Forall (fun b => buffer b = 0) l' /\ map used l' = map used l /\
  forall p, p ∈ held w' <-> p ∈ held w /\ ~ exists b, b ∈ l /\ holds b = true /\ buffer b = p.
Proof.
  induction l as [|b l IH]; intros w w' l' E; cbn [srm_release_all] in E.
  { injection E as <- <-. split_and!; try done. intros p. split; [|by intros []].
    intros Hp. split; [done|]. by intros (b & ?%elem_of_nil & _). }
  destruct (srm_release w b) as [w1 b1] eqn:E1. destruct (srm_release_all w1 l) as [w2 l2] eqn:E2.
  injection E as <- <-. destruct (IH _ _ _ E2) as (Hl & Hf & Hu & Hh).
  assert (Hb1 : buffer b1 = 0 /\ used b1 = used b /\
    forall p, p ∈ held w1 <-> p ∈ held w /\ ~ (holds b = true /\ buffer b = p)).
  { unfold srm_release in E1. unfold holds. destruct (Z.eqb_spec (buffer b) 0) as [E0|E0].
    - injection E1 as <- <-. split_and!; try done. intros p. cbn [negb andb]. split; [|by intros []].
      intros Hp. split; [done|]. by intros [].
    - injection E1 as <- <-. split_and!; try done. intros p. cbn [negb andb].
      destruct (use_after_free b); cbn [negb].
      + split; [|by intros []]. intros Hp. split; [done|]. by intros [].
      + rewrite held_free, elem_of_difference, elem_of_singleton. split; intros [? Hne]; (split; [done|]).
        * intros [_ <-]. done.
        * intros ->. by apply Hne. }
  destruct Hb1 as (Hb1 & Hu1 & Hh1). split; [by cbn; rewrite Hl|]. split; [by constructor|].
  split; [by cbn; rewrite Hu1, Hu|]. intros p. rewrite Hh, Hh1. split.
  - intros [[Hp Hnb] Hnl]. split; [done|]. intros (c & [->|Hc]%elem_of_cons & Hx); [by apply Hnb|].
    apply Hnl. by exists c.
  - intros [Hp Hn]. split; [split; [done|]|].
    + intros Hx. apply Hn. exists b. split; [left|done].
    + intros (c & Hc & Hx). apply Hn. exists c. split; [by right|done].
Qed.

Lemma srm_free_internal_ok s : srm_ok s -> srm_ok (srm_free_internal s).
Proof.
  intros Hs. unfold srm_free_internal. destruct (existsb used (srm_buffers s)) eqn:Eu; [done|].
  destruct (srm_release_all (os s) (srm_buffers s)) as [w l] eqn:E.
  destruct (srm_release_all_spec _ _ _ _ E) as (Hl & Hb & Hu & Hh).
  assert (Hunused : Forall (fun b => used b = false) l).
  { apply Forall_forall. intros b Hin. apply not_true_iff_false. intros Hub.
    apply not_true_iff_false in Eu. apply Eu. apply existsb_exists.
    apply list_elem_of_In, (in_map used) in Hin. rewrite Hub, Hu in Hin.
    apply in_map_iff in Hin as (c & Hc & Hin). by exists c. }
  assert (Hnone : held w = ∅).
  { apply set_eq. intros p. rewrite Hh, (st_held _ _ (so_table _ Hs)). split; [|by intros ?%elem_of_empty].
    intros [(i & b & Hi & Hx) Hn]. exfalso. apply Hn. exists b. split; [by eapply list_elem_of_lookup_2|done]. }
  rewrite Forall_lookup in Hb, Hunused. split; cbn [os srm_buffers srm_allocated set_os set_buffers set_allocated].
  - rewrite Hl. apply Hs.
  - intros _. apply Forall_lookup. eauto.
  - split.
    + intros p. rewrite held_shutter_unlock, Hnone. split; [by intros ?%elem_of_empty|].
      intros (i & b & Hi & Hx & _). unfold holds in Hx. by rewrite (Hb i b Hi) in Hx.
    + intros i j b c Hi _ _ Hne. by rewrite (Hb i b Hi) in Hne.
    + intros i b Hi Hub. by rewrite (Hunused i b Hi) in Hub.
    + intros i b Hi Hnz. by rewrite (Hb i b Hi) in Hnz.
Qed.

(** ** The operations keep the invariant *)

(** Releasing slots by a condition. *)
Lemma unuse_ok s P : srm_ok s ->
  srm_ok (set_buffers s (map (fun b => if P b : bool then set_used b false else b) (srm_buffers s))).
Proof.
  intros [H1 H2 H3].
  assert (Hlk : forall i b', map (fun b => if P b : bool then set_used b false else b) (srm_buffers s) !! i = Some b' ->
    exists b, srm_buffers s !! i = Some b /\ b' = if P b then set_used b false else b).
  { intros i b' Hi. apply list_lookup_fmap_Some_1 in Hi as (b & -> & Hb). by exists b. }
  split; cbn [os srm_buffers srm_allocated set_buffers].
  - by rewrite length_map.
  - intros Ha. apply Forall_lookup. intros i b' Hi. destruct (Hlk i b' Hi) as (b & Hb & ->).
    pose proof (Forall_lookup_1 _ _ _ _ (H2 Ha) Hb) as [? ?]. by destruct (P b).
  - apply (srm_table_used _ (srm_buffers s)); [done|by rewrite length_map|].
    intros i b b' Hb Hb'. destruct (Hlk i b' Hb') as (b2 & Hb2 & ->). rewrite Hb in Hb2. injection Hb2 as <-.
    destruct (P b); split_and!; try done. by apply (st_used _ _ H3 i).
Qed.

Lemma use_ok s i : srm_ok s -> (i < length (srm_buffers s))%nat ->
  is_free (nth i (srm_buffers s) null_buffer) = true ->
  srm_ok (set_buffers s (alter (fun b => set_used b true) i (srm_buffers s))).
Proof.
  intros [H1 H2 H3] Hi Hf. apply andb_true_iff in Hf as [Hb Hu]. apply negb_true_iff, Z.eqb_neq in Hb.
  split; cbn [os srm_buffers srm_allocated set_buffers].
  - by rewrite length_alter.
  - intros Ha. exfalso. apply Hb. rewrite nth_lookup.
    destruct (lookup_lt_is_Some_2 _ _ Hi) as [b Hib]. rewrite Hib.
    by apply (Forall_lookup_1 _ _ _ _ (H2 Ha) Hib).
  - by apply alter_used_table.
Qed.

Lemma srm_free_ok s p : srm_ok s -> srm_ok (_srm_free s p).
Proof.
  intros Hs. unfold _srm_free. case_match; [done|]. apply srm_free_internal_ok.
  exact (unuse_ok s (fun b => used b && (buffer b =? p)) Hs).
Qed.

Lemma srm_malloc_ok s size : srm_ok s -> srm_ok (snd (_srm_malloc s size)).
Proof.
  intros Hs%srm_alloc_internal_ok. unfold _srm_malloc. set (s1 := srm_alloc_internal s) in *.
  pose proof (find_last_spec (srm_buffers s1) (length (srm_buffers s1))) as Hf.
  destruct (find_last _ _) as [i|].
  - destruct Hf as [Hi Hfree]. pose proof (use_ok s1 i Hs Hi Hfree). case_match; [by apply srm_free_ok|done].
  - case_match; [by apply srm_free_ok|done].
Qed.

Lemma set_os_ok s w : held w = held (os s) -> srm_ok s -> srm_ok (set_os s w).
Proof. intros E [H1 H2 H3]. split; [done|done|]. by eapply srm_table_os. Qed.

Lemma srm_suite_loop_ok n : forall s suite k, srm_ok s -> (n <= length (srm_buffers s))%nat ->
  srm_ok (snd (srm_suite_loop s suite k n)).
Proof.
  induction n as [|n IH]; intros s suite k Hs Hn; cbn [srm_suite_loop]; [done|].
  destruct (k =? 0); [done|]. destruct (is_free _) eqn:Ef; [|apply IH; [done|lia]].
  set (p := buffer _).
  assert (Hw : exists suite' w, (if suite =? 0 then CreateMemorySuite p SRM_BUFFER_SIZE (os s)
      else (suite, AddMemoryChunk suite p SRM_BUFFER_SIZE (os s))) = (suite', w) /\ held w = held (os s)).
  { case_match.
    - destruct (CreateMemorySuite p SRM_BUFFER_SIZE (os s)) as [h w] eqn:E. exists h, w. split; [done|].
      pose proof (held_create p SRM_BUFFER_SIZE (os s)) as Hc. by rewrite E in Hc.
    - eexists _, _. split; [done|]. apply held_add. }
  destruct Hw as (suite' & w & -> & Hw). apply IH.
  - pose proof (use_ok s n Hs ltac:(lia) Ef) as Hu. exact (set_os_ok (set_buffers s _) w Hw Hu).
  - cbn [srm_buffers set_buffers set_os]. rewrite length_alter. lia.
Qed.

Lemma srm_free_suite_ok s suite : srm_ok s -> srm_ok (_srm_free_suite s suite).
Proof.
  intros Hs. unfold _srm_free_suite. case_match; [done|]. apply srm_free_internal_ok.
  apply set_os_ok; [apply held_delete|].
  generalize (suite_chunks (os s) suite). intros cs.
  assert (Hgen : forall s, srm_ok s -> srm_ok (set_buffers s
    (foldl (fun l '(buf, _) => map (fun b => if buffer b =? buf then set_used b false else b) l) (srm_buffers s) cs))).
  { clear. induction cs as [|[buf n] cs IH]; intros s Hs; cbn [foldl]; [by destruct s|].
    pose proof (IH _ (unuse_ok s (fun b => buffer b =? buf) Hs)) as Hok. exact Hok. }
  by apply Hgen.
Qed.

(** Calls of clients, with any arguments. *)
Inductive srm_step : xstate W -> xstate W -> Prop :=
  | srm_do_malloc s size : srm_step s (snd (_srm_malloc s size))
  | srm_do_free s p : srm_step s (_srm_free s p)
  | srm_do_malloc_suite s n : srm_step s (snd (_srm_malloc_suite s n))
  | srm_do_free_suite s h : srm_step s (_srm_free_suite s h).

Lemma srm_step_ok s s' : srm_step s s' -> srm_ok s -> srm_ok s'.
Proof.
  intros Hst Hs. destruct Hst; [by apply srm_malloc_ok|by apply srm_free_ok| |by apply srm_free_suite_ok].
  unfold _srm_malloc_suite. apply srm_suite_loop_ok; [by apply srm_alloc_internal_ok|lia].
Qed.

Definition srm_init (w : W) (full : Z) : xstate W :=
  mk_xstate w false (replicate SRM_MAX_BUF_COUNT_VIDEO_MODE null_buffer) full true 0.

Lemma srm_init_ok w full : held w = ∅ -> srm_ok (srm_init w full).
Proof.
  intros Hw. split; [reflexivity|intros _; by apply Forall_replicate|]. split; cbn [os srm_buffers srm_init].
  - intros p. rewrite Hw. split; [by intros ?%elem_of_empty|]. intros (i & b & [-> _]%lookup_replicate & Hb & _). done.
  - intros i j b c [-> _]%lookup_replicate _ _ Hb. done.
  - intros i b [-> _]%lookup_replicate Hb. done.
  - intros i b [-> _]%lookup_replicate Hb. done.
Qed.

Lemma srm_reach_ok s s' : rtc srm_step s s' -> srm_ok s -> srm_ok s'.
Proof. induction 1 as [|x y z Hxy _ IH]; intros Hx; [done|]. by apply IH, (srm_step_ok x). Qed.

End Srm.

(** ** Properties *)

(** C27: after any calls of [_srm_malloc], [_srm_free] and their suite variants,
    with any arguments, from a start at which no buffer was held: the buffers held
    from the system are exactly those of the slots not marked [use_after_free].
    At most slot 0 is marked and has a buffer; that one is in the table and can be
    handed out although it was returned to the system and is not held.  No two
    slots share a buffer, and none is held once the allocator is released:
    nothing leaks and nothing is freed twice. *)
Theorem srm_table_consistent {W} `{RscMgrOk W} (w : W) full s : held w = ∅ ->
  rtc srm_step (srm_init w full) s ->
  (forall p, p ∈ held (os s) <->
     exists i b, srm_buffers s !! i = Some b /\ buffer b = p /\ p <> 0 /\ use_after_free b = false) /\
  (forall i b, srm_buffers s !! i = Some b -> buffer b <> 0 -> use_after_free b = true ->
     i = 0%nat /\ buffer b ∉ held (os s)) /\
  (forall i j b c, srm_buffers s !! i = Some b -> srm_buffers s !! j = Some c ->
     buffer b = buffer c -> buffer b <> 0 -> i = j) /\
  (srm_allocated s = false -> held (os s) = ∅).
Proof.
  intros Hw Hr. destruct (srm_reach_ok _ _ Hr (srm_init_ok w full Hw)) as [_ Hf [H1 H2 _ H4]].
  assert (Hh : forall b, holds b = true <-> buffer b <> 0 /\ use_after_free b = false).
  { intros b. unfold holds. by rewrite andb_true_iff, !negb_true_iff, Z.eqb_neq. }
  split; [|split; [|split; [done|]]].
  - intros p. rewrite H1. split; intros (i & b & Hi & Hx); exists i, b; rewrite Hh in *; naive_solver.
  - intros i b Hi Hnz Hu. split; [by apply (H4 i b)|]. rewrite H1. intros (j & c & Hj & [_ Hc]%Hh & E).
    assert (i = j) as -> by (by apply (H2 i j b c)). congruence.
  - intros Ha. apply set_eq. intros p. rewrite H1.
    split; [|by intros ?%elem_of_empty]. intros (i & b & Hi & [Hx _]%Hh & _).
    by pose proof (Forall_lookup_1 _ _ _ _ (Hf Ha) Hi) as [E _].
Qed.

(** A buffer returned by [_srm_malloc] is large enough, was not in the hands
    of another client, and stays reserved; all other buffers in use are
    untouched. *)
Theorem srm_malloc_exclusive {W} `{RscMgrOk W} (w : W) full s size p s' : held w = ∅ ->
  rtc srm_step (srm_init w full) s -> 0 <= size -> size + 4 < 2 ^ 32 ->
  _srm_malloc s size = (p, s') -> p <> 0 ->
  size + 4 <= SRM_BUFFER_SIZE /\
  (forall i b, srm_buffers s !! i = Some b -> buffer b = p -> used b = false) /\
  (exists i b, srm_buffers s' !! i = Some b /\ buffer b = p /\ used b = true) /\
  (forall i b, srm_buffers s !! i = Some b -> used b = true -> srm_buffers s' !! i = Some b).
Proof.
  intros Hw Hr Hs1 Hs2 E Hp. pose proof (srm_reach_ok _ _ Hr (srm_init_ok w full Hw)) as Hs.
  pose proof (srm_alloc_internal_ok s Hs) as Ha. unfold _srm_malloc in E.
  pose proof (find_last_spec (srm_buffers (srm_alloc_internal s)) (length (srm_buffers (srm_alloc_internal s)))) as Hf.
  rewrite u32_small in E by lia.
  destruct (find_last _ _) as [i|]; [|by destruct (_ <? _); injection E as <- _].
  destruct (Z.ltb_spec SRM_BUFFER_SIZE (size + 4)); [by injection E as <- _|].
  injection E as <- <-. destruct Hf as [Hi Hfree].
  destruct (lookup_lt_is_Some_2 _ _ Hi) as [bi Hbi]. rewrite nth_lookup, Hbi in *. cbn [default] in *.
  apply andb_true_iff in Hfree as [Hb Hu]. apply negb_true_iff in Hu.
  assert (Hkeep : forall j b, srm_buffers s !! j = Some b -> buffer b <> 0 -> srm_alloc_internal s = s).
  { intros j b Hj Hne. unfold srm_alloc_internal. destruct (srm_allocated s) eqn:Eal; [done|].
    by destruct (Forall_lookup_1 _ _ _ _ (so_free _ Hs Eal) Hj). }
  split; [lia|]. split; [|split].
  - intros j b Hj Hjp. rewrite (Hkeep j b Hj) in Hbi by (simpl in *; congruence).
    assert (i = j) as -> by (eapply (st_inj _ _ (so_table _ Hs)); [done|done|done|simpl in *; congruence]).
    simpl in *. congruence.
  - exists i, (set_used bi true). cbn [srm_buffers set_buffers].
    by rewrite list_lookup_alter, decide_True, Hbi.
  - intros j b Hj Hjb. pose proof (st_used _ _ (so_table _ Hs) j b Hj Hjb) as Hne.
    cbn [srm_buffers set_buffers]. rewrite (Hkeep j b Hj Hne) in *.
    rewrite list_lookup_alter, decide_False; [done|]. intros <-. simpl in *. congruence.
Qed.

(** The allocator is marked as allocated and has no buffer. *)
Definition srm_stuck {W} (s : xstate W) : Prop :=
  srm_allocated s = true /\ Forall (fun b => buffer b = 0 /\ used b = false) (srm_buffers s).

Lemma stuck_find_last l n : Forall (fun b => buffer b = 0 /\ used b = false) l -> find_last l n = None.
Proof.
  intros Hl. pose proof (find_last_spec l n) as Hf. destruct (find_last l n) as [i|]; [|done].
  destruct Hf as [_ Hf]. rewrite nth_lookup in Hf. destruct (l !! i) as [b|] eqn:E; [|done].
  destruct (Forall_lookup_1 _ _ _ _ Hl E) as [Hb _]. simpl in Hf. unfold is_free in Hf. by rewrite Hb in Hf.
Qed.

Lemma stuck_suite_loop {W} `{RscMgr W} (s : xstate W) k n : 
  Forall (fun b => buffer b = 0 /\ used b = false) (srm_buffers s) -> srm_suite_loop s 0 k n = (0, s).
Proof.
  intros Hl. induction n as [|n IH]; cbn [srm_suite_loop]; [done|]. destruct (k =? 0); [done|].
  assert (is_free (nth n (srm_buffers s) null_buffer) = false) as ->; [|done].
  rewrite nth_lookup. destruct (srm_buffers s !! n) as [b|] eqn:E; [|done].
  destruct (Forall_lookup_1 _ _ _ _ Hl E) as [Hb _]. simpl. unfold is_free. by rewrite Hb.
Qed.

Lemma alloc_loop_timeout {W} `{RscMgr W} (s : xstate W) i n :
  fst (SRM_AllocateMemoryResourceFor1stJob (os s)) = None ->
  srm_buffers s = replicate SRM_MAX_BUF_COUNT_VIDEO_MODE null_buffer ->
  Forall (fun b => buffer b = 0 /\ used b = false) (srm_buffers (srm_alloc_loop s i (S n))).
Proof.
  intros Ht Hl. cbn [srm_alloc_loop]. destruct (SRM_AllocateMemoryResourceFor1stJob _) as [[p|] w]; [done|].
  assert (Hf : forall f, (forall b, buffer b = 0 /\ used b = false -> buffer (f b) = 0 /\ used (f b) = false) ->
    Forall (fun b => buffer b = 0 /\ used b = false) (alter f 0%nat (srm_buffers s))).
  { intros f Hf. rewrite Hl. apply Forall_alter; [by apply Forall_replicate|]. intros b _ Hb. by apply Hf. }
  destruct (negb _); cbn [srm_buffers set_buffers set_os]; apply Hf; intros b []; done.
Qed.

(** if the resource manager does not answer the first request in time, the
    allocator is marked as allocated without a buffer, and stays so: the call
    fails, and every later call fails without asking the system again, also once
    memory has become available. *)
Theorem srm_timeout_is_final {W} `{RscMgr W} (s : xstate W) size :
  srm_allocated s = false -> job_state (os s) = 0 ->
  job_state (msleep 50 (srm_shutter_lock (os s))) = 0 ->
  fst (SRM_AllocateMemoryResourceFor1stJob (msleep 50 (srm_shutter_lock (os s)))) = None ->
  exists s', _srm_malloc s size = (0, s') /\ srm_stuck s' /\
    (forall size', _srm_malloc s' size' = (0, s')) /\ (forall n, _srm_malloc_suite s' n = (0, s')) /\
    _srm_get_free_space s' = 0 /\ _srm_get_max_region s' = 0.
Proof.
  intros Ha Hj1 Hj2 Ht.
  assert (Hst : srm_stuck (srm_alloc_internal s)).
  { unfold srm_alloc_internal. rewrite Ha, Hj1. cbn [Z.eqb negb orb os set_os srm_allocated]. rewrite Ha, Hj2.
    cbn [Z.eqb negb orb]. split; [done|]. by apply (alloc_loop_timeout _ _ 15). }
  assert (Hagain : forall s' : xstate W, srm_stuck s' -> (forall size', _srm_malloc s' size' = (0, s')) /\
    (forall n, _srm_malloc_suite s' n = (0, s')) /\ _srm_get_free_space s' = 0 /\ _srm_get_max_region s' = 0).
  { intros s' [Hal Hl].
    assert (Hint : srm_alloc_internal s' = s') by (unfold srm_alloc_internal; by rewrite Hal).
    split_and!.
    - intros size'. unfold _srm_malloc. rewrite Hint, (stuck_find_last _ _ Hl). by case_match.
    - intros n. unfold _srm_malloc_suite. rewrite Hint. by apply stuck_suite_loop.
    - unfold _srm_get_free_space. rewrite Hal. cbn [negb]. induction Hl as [|b l [Hb _] _ IH]; [done|].
      cbn [foldr]. unfold is_free at 1. by rewrite Hb, IH.
    - unfold _srm_get_max_region. by rewrite Hal, (stuck_find_last _ _ Hl). }
  exists (srm_alloc_internal s). split_and!; [|done|by apply Hagain..].
  unfold _srm_malloc. rewrite (stuck_find_last _ _ (proj2 Hst)). by case_match.
Qed.

(** ** A concrete resource manager *)

Record toy := mk_toy { avail : list Z; theld : gset Z; tlock : Z }.

Definition toy_alloc (w : toy) : option Z * toy :=
  match avail w with
  | p :: rest =>
    if (p =? 0) || bool_decide (p ∈ theld w) then (None, w)
    else (Some p, mk_toy rest ({[p]} ∪ theld w) (tlock w))
  | [] => (None, w)
  end.

#[export] Instance toy_rscmgr : RscMgr toy := {
  AllocateMemoryResource _ w := (None, w);
  AllocateContinuousMemoryResource _ w := (None, w);
  FreeMemoryResource _ w := w;
  SRM_AllocateMemoryResourceFor1stJob := toy_alloc;
  SRM_FreeMemoryResourceFor1stJob p w := mk_toy (avail w) (theld w ∖ {[p]}) (tlock w);
  CreateMemorySuite p n w := (p, w);
  AddMemoryChunk h p n w := w;
  DeleteMemorySuite h w := w;
  suite_chunks w h := [(h, SRM_BUFFER_SIZE)];
  job_state w := 0;
  icu_uilock w := tlock w;
  request_uilock v w := mk_toy (avail w) (theld w) v;
  msleep t w := w;
}.

#[export] Instance toy_rscmgr_ok : RscMgrOk toy.
Proof.
  refine {| held := theld |}; try done.
  - intros w p w' E. cbn in E. unfold toy_alloc in E. destruct (avail w) as [|q rest]; [done|].
    destruct (Z.eqb_spec q 0); [done|]. cbn [orb] in E. case_bool_decide; [done|].
    injection E as <- <-. done.
  - intros w w' E. cbn in E. unfold toy_alloc in E. destruct (avail w); [by injection E as <-|].
    destruct (_ || _); [by injection E as <-|done].
Defined.

Definition toy_world : toy := mk_toy [0x44000000; 0x48000000; 0x4C000000] ∅ 0.

Lemma srm_table_consistent_witness :
  let s := snd (_srm_malloc (srm_init toy_world 0) 100) in
  srm_allocated s = true /\ (0x48000000 ∈ held (os s) <->
    exists i b, srm_buffers s !! i = Some b /\ buffer b = 0x48000000 /\ 0x48000000 <> 0 /\ use_after_free b = false).
Proof.
  intros s. split; [vm_compute; reflexivity|].
  apply (srm_table_consistent toy_world 0 s); [reflexivity|]. apply rtc_once, srm_do_malloc.
Defined.

Lemma srm_malloc_exclusive_witness :
  exists s' i b, _srm_malloc (srm_init toy_world 0) 100 = (0x4C000000, s') /\
    srm_buffers s' !! i = Some b /\ buffer b = 0x4C000000 /\ used b = true.
Proof.
  destruct (_srm_malloc (srm_init toy_world 0) 100) as [p s'] eqn:E.
  assert (p = 0x4C000000) as -> by (apply (f_equal fst) in E; vm_compute in E; by rewrite <- E).
  destruct (srm_malloc_exclusive toy_world 0 (srm_init toy_world 0) 100 0x4C000000 s')
    as (_ & _ & (i & b & Hb) & _); [reflexivity|apply rtc_refl|lia|lia|exact E|lia|].
  by exists s', i, b.
Defined.

Lemma srm_timeout_is_final_witness :
  exists s', _srm_malloc (srm_init (mk_toy [] ∅ 0) 0) 100 = (0, s') /\ srm_stuck s'.
Proof.
  destruct (srm_timeout_is_final (srm_init (mk_toy [] ∅ 0) 0) 100) as (s' & E & Hs & _);
    [reflexivity|reflexivity|reflexivity|reflexivity|]. by exists s'.
Defined.

(** the first buffer is given back to the system and discarded when the
    pool is exhausted, so a pool with a single free buffer serves nobody: the
    request fails and the allocator is stuck although the buffer is free. *)
Theorem srm_single_buffer_lost :
  let '(p, s) := _srm_malloc (srm_init (mk_toy [0x44000000] ∅ 0) 0) 100 in
  p = 0 /\ srm_stuck s /\ theld (os s) = ∅.
Proof.
  cbv zeta. destruct (_srm_malloc _ _) as [p s] eqn:E. vm_compute in E. injection E as <- <-.
  split; [done|]. split; [|reflexivity]. split; [done|]. repeat constructor.
Qed.
