(* ===== verification/Cbr.v ===== *)
(** * Event callbacks ([src/src/ml-cbr.c])

    Modules register callbacks for named events; a notification calls them by
    priority until one stops it.  Records and list nodes live in arenas of 255
    entries that grow by [malloc]; a pointer to a node is its position in the
    chain of arenas. *)
From S2P Require Import Prelude.

Definition NODE_POOL_SIZE : nat := 255.
Definition RECORD_POOL_SIZE : nat := 255.
Definition ML_CBR_STOP : Z := 0.

(** ** Data *)

(** [cbr] 0 is NULL. *)
Record cbr_node := mk_cbr_node { cbr : Z; priority : Z; next : option nat }.

(** [name] has 16 bytes. *)
Record cbr_record := mk_cbr_record { name : list Z; first : option nat }.

Definition null_node : cbr_node := mk_cbr_node 0 0 None.
Definition null_record : cbr_record := mk_cbr_record (replicate 16 0) None.

(** The arenas, concatenated in the order they are linked. *)
Record cbr_state := mk_cbr_state { cbr_node_pool : list cbr_node; cbr_record_pool : list cbr_record }.

(** [malloc] gives an arena or not. *)
Definition create_node_arena (ok : bool) : option (list cbr_node) :=
  if ok then Some (replicate NODE_POOL_SIZE null_node) else None.
Definition create_record_arena (ok : bool) : option (list cbr_record) :=
  if ok then Some (replicate RECORD_POOL_SIZE null_record) else None.

(** [strncpy] to the 16 bytes of a name: pads with NUL, does not terminate. *)
Definition strncpy16 (event : list Z) : list Z :=
  take 16 (event ++ replicate 16 0).

Section Cbr.

(** Addresses of the nodes; a name without NUL runs into the pointer that
    follows it in the record. *)
Variable node_addr : nat -> Z.

Definition ptr_bytes (p : option nat) : list Z :=
  let a := match p with Some i => node_addr i | None => 0 end in
  [a mod 256; a / 256 mod 256; a / 65536 mod 256; a / 16777216 mod 256].

Definition fast_compare (event : list Z) (r : cbr_record) : bool :=
  bool_decide (event = c_string (name r ++ ptr_bytes (first r))).

(** ** Looking up *)

Definition is_unused (r : cbr_record) : bool := nth 0 (name r) 0 =? 0.

Definition find_record (s : cbr_state) (event : list Z) (return_new : bool) : option (nat * cbr_state) :=
  match list_find (fun r => is_unused r = false /\ fast_compare event r = true) (cbr_record_pool s) with
  | Some (i, _) => Some (i, s)
  | None =>
    if return_new then
      match list_find (fun r => is_unused r = true) (cbr_record_pool s) with
      | Some (i, _) =>
        Some (i, mk_cbr_state (cbr_node_pool s)
                   (<[i := mk_cbr_record (strncpy16 event) None]> (cbr_record_pool s)))
      | None => None
      end
    else None
  end.

Definition find_free_node (s : cbr_state) : option nat :=
  fst <$> list_find (fun n => cbr n = 0) (cbr_node_pool s).

(** ** Inserting *)

Definition set_next (ns : list cbr_node) (i : nat) (q : option nat) : list cbr_node :=
  alter (fun n => mk_cbr_node (cbr n) (priority n) q) i ns.

(** The walk of [insert_cbr]: the nodes, and the new value of [record->first]
    if it is replaced.  [None]: the fuel ran out. *)
Fixpoint insert_walk (fuel : nat) (ns : list cbr_node) (prio : Z) (new_node : nat) (prev : option nat)
    (current : nat) : option (list cbr_node * option nat) :=
  match fuel with
  | O => None
  | S fuel =>
    let c := nth current ns null_node in
    if priority c <? prio then
      match prev with
      | None => Some (set_next ns new_node (Some current), Some new_node)
      | Some p => Some (set_next (set_next ns p (Some new_node)) new_node (Some current), None)
      end
    else match next c with
         | None => Some (set_next ns current (Some new_node), None)
         | Some n => insert_walk fuel ns prio new_node (Some current) n
         end
  end.

Definition set_first (rs : list cbr_record) (i : nat) (p : option nat) : list cbr_record :=
  alter (fun r => mk_cbr_record (name r) p) i rs.

(** The node for a new callback, in a new arena if the old ones are full. *)
Definition new_node_slot (s : cbr_state) (arena_ok : bool) : option (nat * cbr_state) :=
  match find_free_node s with
  | Some i => Some (i, s)
  | None =>
    a ← create_node_arena arena_ok;
    Some (length (cbr_node_pool s), mk_cbr_state (cbr_node_pool s ++ a) (cbr_record_pool s))
  end.

Definition insert_cbr (s : cbr_state) (record : nat) (f prio : Z) (arena_ok : bool) : option (Z * cbr_state) :=
  match new_node_slot s arena_ok with
  | None => Some (-1, s)
  | Some (i, s) =>
    let ns := alter (fun n => mk_cbr_node f prio (next n)) i (cbr_node_pool s) in
    match first (nth record (cbr_record_pool s) null_record) with
    | None => Some (0, mk_cbr_state ns (set_first (cbr_record_pool s) record (Some i)))
    | Some current =>
      '(ns, new_first) ← insert_walk (S (length ns)) ns prio i None current;
      Some (0, mk_cbr_state ns
        (match new_first with
         | Some p => set_first (cbr_record_pool s) record (Some p)
         | None => cbr_record_pool s end))
    end
  end.

Definition ml_register_cbr (s : cbr_state) (event : list Z) (f prio : Z) (record_ok node_ok : bool)
    : option (Z * cbr_state) :=
  match find_record s event true with
  | Some (r, s) => insert_cbr s r f prio node_ok
  | None =>
    match create_record_arena record_ok with
    | None => Some (-1, s)
    | Some a =>
      let r := length (cbr_record_pool s) in
      insert_cbr (mk_cbr_state (cbr_node_pool s) (cbr_record_pool s ++ a)) r f prio node_ok
    end
  end.

(** ** Removing *)

(** The walk of [ml_unregister_cbr]: the nodes and the new [record->first]. *)
Fixpoint remove_walk (fuel : nat) (ns : list cbr_node) (f : Z) (first prev current : option nat)
    : option (list cbr_node * option nat) :=
  match fuel with
  | O => None
  | S fuel =>
    match current with
    | None => Some (ns, first)
    | Some cur =>
      let c := nth cur ns null_node in
      if cbr c =? f then
        let '(ns, first) := match prev with
                            | None => (ns, next c)
                            | Some p => (set_next ns p (next c), first)
                            end in
        let ns := alter (fun n => mk_cbr_node 0 (priority n) None) cur ns in
        remove_walk fuel ns f first (Some cur) (next (nth cur ns null_node))
      else remove_walk fuel ns f first (Some cur) (next c)
    end
  end.

Definition ml_unregister_cbr (s : cbr_state) (event : list Z) (f : Z) : option (Z * cbr_state) :=
  match find_record s event false with
  | None => Some (-1, s)
  | Some (r, s) =>
    let fst := first (nth r (cbr_record_pool s) null_record) in
    '(ns, p) ← remove_walk (S (length (cbr_node_pool s))) (cbr_node_pool s) f fst None fst;
    Some (0, mk_cbr_state ns (set_first (cbr_record_pool s) r p))
  end.

(** ** Notifying *)

(** The callbacks called, in order; [run] is the answer of a callback.  [None]:
    the fuel ran out, as it does on a node without callback. *)
Fixpoint notify_walk (fuel : nat) (ns : list cbr_node) (run : Z -> Z) (call : option nat) : option (list Z) :=
  match fuel with
  | O => None
  | S fuel =>
    match call with
    | None => Some []
    | Some i =>
      let c := nth i ns null_node in
      if cbr c =? 0 then notify_walk fuel ns run call
      else if run (cbr c) =? ML_CBR_STOP then Some [cbr c]
      else cons (cbr c) <$> notify_walk fuel ns run (next c)
    end
  end.

Definition ml_notify_cbr (s : cbr_state) (event : list Z) (run : Z -> Z) : option (list Z) :=
  match find_record s event false with
  | None => Some []
  | Some (r, s) => notify_walk (S (length (cbr_node_pool s))) (cbr_node_pool s) run
                     (first (nth r (cbr_record_pool s) null_record))
  end.

(** Both arenas are taken to be allocated; the code does not check. *)
Definition _ml_cbr_init : cbr_state :=
  mk_cbr_state (replicate NODE_POOL_SIZE null_node) (replicate RECORD_POOL_SIZE null_record).

End Cbr.
