(* ===== verification/CbrProps.v ===== *)
(** * Properties of event callbacks

    The linked lists in the arenas implement one list of callbacks per event,
    sorted by priority; registering, removing and notifying refine the
    operations on those lists. *)
From Stdlib Require Import Sorted.
From S2P Require Import Prelude Cbr.

(** ** The specification *)

(** A callback with its priority goes behind all of at least its priority. *)
Fixpoint insert_prio (x : Z * Z) (l : list (Z * Z)) : list (Z * Z) :=
  match l with
  | [] => [x]
  | y :: l => if snd y <? snd x then x :: y :: l else y :: insert_prio x l
  end.

(** The first entry of a callback is dropped. *)
Fixpoint remove_first (f : Z) (l : list (Z * Z)) : list (Z * Z) :=
  match l with
  | [] => []
  | y :: l => if fst y =? f then l else y :: remove_first f l
  end.

(** The callbacks called: all up to the first that stops. *)
Fixpoint called (run : Z -> Z) (l : list (Z * Z)) : list Z :=
  match l with
  | [] => []
  | y :: l => fst y :: if run (fst y) =? ML_CBR_STOP then [] else called run l
  end.

(** ** List segments *)

Fixpoint lseg (ns : list cbr_node) (p : option nat) (l : list nat) (q : option nat) : Prop :=
  match l with
  | [] => p = q
  | i :: l => p = Some i /\ exists n, ns !! i = Some n /\ cbr n <> 0 /\ lseg ns (next n) l q
  end.

(** Callback and priority of the nodes. *)
Definition entry (n : cbr_node) : Z * Z := (cbr n, priority n).
Definition entries (ns : list cbr_node) (l : list nat) : list (Z * Z) :=
  map (fun i => entry (nth i ns null_node)) l.

Lemma lseg_app ns p l1 l2 q : lseg ns p (l1 ++ l2) q <-> exists r, lseg ns p l1 r /\ lseg ns r l2 q.
Proof.
  revert p. induction l1 as [|i l1 IH]; intros p; simpl.
  - split; [intros H; by exists p|by intros (r & -> & H)].
  - split.
    + intros (-> & n & Hn & Hc & Hl). apply IH in Hl as (r & H1 & H2). exists r. eauto 10.
    + intros (r & (-> & n & Hn & Hc & H1) & H2). split; [done|]. exists n. split_and!; [done|done|].
      apply IH. eauto.
Qed.

(** A segment does not depend on other nodes. *)
Lemma lseg_frame ns ns' p l q : (forall i, i ∈ l -> ns' !! i = ns !! i) -> lseg ns p l q -> lseg ns' p l q.
Proof.
  revert p. induction l as [|i l IH]; intros p Hf; simpl; [done|].
  intros (-> & n & Hn & Hc & Hl). split; [done|]. exists n. rewrite Hf by left.
  split_and!; [done|done|]. apply IH; [|done]. intros j Hj. apply Hf. by right.
Qed.

Lemma set_next_lookup ns i q j : set_next ns i q !! j =
  if decide (i = j) then (fun n => mk_cbr_node (cbr n) (priority n) q) <$> ns !! j else ns !! j.
Proof. unfold set_next. rewrite list_lookup_alter. by case_decide; subst. Qed.

Lemma length_set_next ns i q : length (set_next ns i q) = length ns.
Proof. apply length_alter. Qed.

Lemma set_next_entry ns i q j : entry (nth j (set_next ns i q) null_node) = entry (nth j ns null_node).
Proof. rewrite !nth_lookup, set_next_lookup. case_decide; [|done]. by destruct (ns !! j). Qed.

(** Redirect the end of a segment. *)
Lemma lseg_retarget ns p l i q r : i ∉ l -> lseg ns p (l ++ [i]) q -> lseg (set_next ns i r) p (l ++ [i]) r.
Proof.
  intros Hi H. apply lseg_app in H as (s & H1 & H2). apply lseg_app. exists s. split.
  - eapply lseg_frame; [|exact H1]. intros j Hj. rewrite set_next_lookup, decide_False; [done|]. by intros ->.
  - destruct H2 as (-> & n & Hn & Hc & _). split; [done|]. eexists. rewrite set_next_lookup, decide_True, Hn by done.
    by split_and!.
Qed.

Lemma lseg_bound ns p l q : lseg ns p l q -> Forall (fun i => (i < length ns)%nat) l.
Proof.
  revert p. induction l as [|i l IH]; intros p; simpl; [constructor|].
  intros (_ & n & Hn & _ & Hl). constructor; [by eapply lookup_lt_Some|by eapply IH].
Qed.

(** A list without repetition is not longer than the pool. *)
Lemma nodup_bound (l : list nat) n : NoDup l -> Forall (fun i => (i < n)%nat) l -> (length l <= n)%nat.
Proof.
  intros Hd Hb. rewrite <- (length_seq n 0). apply submseteq_length, NoDup_submseteq; [done|].
  intros i Hi. rewrite Forall_forall in Hb. apply elem_of_seq. specialize (Hb i Hi). lia.
Qed.

(** The positions after insertion. *)
Fixpoint insert_pos (ns : list cbr_node) (prio : Z) (new : nat) (l : list nat) : list nat :=
  match l with
  | [] => [new]
  | i :: l => if priority (nth i ns null_node) <? prio then new :: i :: l else i :: insert_pos ns prio new l
  end.

Lemma insert_pos_perm ns prio new l : insert_pos ns prio new l ≡ₚ new :: l.
Proof.
  induction l as [|i l IH]; simpl; [done|]. case_match; [done|]. rewrite IH. apply Permutation_swap.
Qed.

Lemma insert_pos_entries ns ns' prio new l f : new ∉ l ->
  (forall i, i ∈ l -> entry (nth i ns' null_node) = entry (nth i ns null_node)) ->
  entry (nth new ns' null_node) = (f, prio) ->
  entries ns' (insert_pos ns prio new l) = insert_prio (f, prio) (entries ns l).
Proof.
  intros Hn He Hnew. induction l as [|i l IH]; simpl; [by rewrite Hnew|].
  rewrite not_elem_of_cons in Hn. destruct Hn as [_ Hn].
  assert (Hmap : forall l', (forall j, j ∈ l' -> j ∈ i :: l) -> entries ns' l' = entries ns l').
  { intros l' Hl'. apply map_ext_in. intros j Hj. apply He, Hl', list_elem_of_In, Hj. }
  destruct (priority (nth i ns null_node) <? prio); simpl.
  - rewrite Hnew. f_equal. exact (Hmap (i :: l) ltac:(done)).
  - rewrite (He i) by left. f_equal. apply IH; [done|]. intros j Hj. apply He. by right.
Qed.

(** What an insertion does to the nodes. *)
Record inserted (ns ns' : list cbr_node) (l : list nat) (new : nat) : Prop := {
  in_len : length ns' = length ns;
  in_other j : j ∉ l -> j <> new -> ns' !! j = ns !! j;
  in_entry j : entry (nth j ns' null_node) = entry (nth j ns null_node);
}.

Lemma insert_front ns p cur post new nn : lseg ns p (cur :: post) None -> new ∉ cur :: post ->
  ns !! new = Some nn -> cbr nn <> 0 ->
  lseg (set_next ns new (Some cur)) (Some new) (new :: cur :: post) None.
Proof.
  intros Hl Hn Hnn Hc. split; [done|]. eexists. rewrite set_next_lookup, decide_True, Hnn by done.
  split_and!; [done|done|]. cbn [next].
  assert (p = Some cur) as Ep by apply Hl. rewrite Ep in Hl.
  eapply lseg_frame; [|exact Hl]. intros j Hj. rewrite set_next_lookup, decide_False; [done|]. by intros ->.
Qed.

Lemma set_next_inserted ns l new i q : i ∈ l \/ i = new -> inserted ns (set_next ns i q) l new.
Proof.
  intros Hi. split; [apply length_set_next| |intros j; apply set_next_entry].
  intros j Hj Hne. rewrite set_next_lookup, decide_False; [done|]. intros ->. by destruct Hi.
Qed.

Lemma inserted_trans ns1 ns2 ns3 l new : inserted ns1 ns2 l new -> inserted ns2 ns3 l new -> inserted ns1 ns3 l new.
Proof.
  intros [H1 H2 H3] [H4 H5 H6]. split; [congruence| |congruence].
  intros j Hj Hne. by rewrite H5, H2.
Qed.

Lemma insert_walk_ok fuel : forall ns first pre cur post new nn prio,
  lseg ns first (pre ++ cur :: post) None -> NoDup (pre ++ cur :: post) -> new ∉ pre ++ cur :: post ->
  ns !! new = Some nn -> cbr nn <> 0 -> next nn = None -> (length post < fuel)%nat ->
  exists ns' nf, insert_walk fuel ns prio new (last pre) cur = Some (ns', nf) /\
    lseg ns' (match nf with Some p => Some p | None => first end)
         (pre ++ insert_pos ns prio new (cur :: post)) None /\
    inserted ns ns' (pre ++ cur :: post) new.
Proof.
  induction fuel as [|fuel IH]; intros ns first pre cur post new nn prio Hl Hd Hnew Hnn Hc Hnx Hfuel; [lia|].
  pose proof Hl as Hl0. apply lseg_app in Hl0 as (p & Hpre & Hpost).
  pose proof Hpost as (-> & n & Hn & Hcn & Hrest).
  assert (Hn2 : new ∉ cur :: post) by (rewrite not_elem_of_app in Hnew; apply Hnew).
  assert (Hn1 : new ∉ pre) by (rewrite not_elem_of_app in Hnew; apply Hnew).
  cbn [insert_walk insert_pos]. rewrite nth_lookup, Hn. cbn [default id].
  destruct (priority n <? prio) eqn:Ep.
  - destruct pre as [|x pre0 _] using rev_ind.
    + eexists _, _. split; [reflexivity|]. split; [by eapply insert_front|]. apply set_next_inserted. by right.
    + rewrite last_snoc. eexists _, _. split; [reflexivity|].
      rewrite <- (assoc_L (++)) in Hd. apply NoDup_app in Hd as (_ & Hd & Hd2).
      assert (Hx : x ∉ cur :: post) by (apply NoDup_cons in Hd2 as [? _]; done).
      assert (Hx0 : x ∉ pre0).
      { intros Hin. apply (Hd x Hin). left. }
      assert (new <> x) by (intros ->; apply Hn1, elem_of_app; right; left).
      split.
      * apply lseg_app. exists (Some new). split.
        -- eapply lseg_frame; [|by eapply lseg_retarget]. intros j Hj.
           rewrite set_next_lookup, decide_False; [done|]. by intros ->.
        -- eapply (insert_front _ (Some cur) _ _ _ nn); [|done| |done].
           ++ eapply lseg_frame; [|exact Hpost]. intros j Hj.
              rewrite set_next_lookup, decide_False; [done|]. by intros ->.
           ++ rewrite set_next_lookup, decide_False; [done|]. congruence.
      * eapply inserted_trans; apply set_next_inserted; [left|by right].
        apply elem_of_app. left. apply elem_of_app. right. left.
  - destruct (next n) as [m|] eqn:En.
    + destruct post as [|m' post']; [done|]. pose proof Hrest as ([= <-] & _).
      destruct (IH ns first (pre ++ [cur]) m post' new nn prio) as (ns' & nf & E & Hl' & Hin);
        rewrite <- ?(assoc_L (++)); try done; [simpl in Hfuel; lia|].
      rewrite last_snoc in E. rewrite <- (assoc_L (++)) in Hl', Hin. by exists ns', nf.
    + destruct post as [|m post]; [|by destruct Hrest].
      eexists _, _. split; [reflexivity|]. split; [|apply set_next_inserted; left; apply elem_of_app; right; left].
      cbn [insert_pos]. rewrite ?Ep. change (cur :: [new]) with ([cur] ++ [new]).
      assert (Hcur : cur ∉ pre).
      { apply NoDup_app in Hd as (_ & Hd & _). intros Hin. apply (Hd cur Hin). left. }
      rewrite (assoc_L (++)). apply lseg_app. exists (Some new). split; [by eapply lseg_retarget|].
      split; [done|]. exists nn. rewrite set_next_lookup, decide_False; [by split_and!|].
      intros ->. apply Hn2. left.
Qed.

(** ** Removal *)

Fixpoint remove_pos (ns : list cbr_node) (f : Z) (l : list nat) : list nat :=
  match l with
  | [] => []
  | i :: l => if cbr (nth i ns null_node) =? f then l else i :: remove_pos ns f l
  end.

Lemma remove_pos_entries ns f l : entries ns (remove_pos ns f l) = remove_first f (entries ns l).
Proof. induction l as [|i l IH]; simpl; [done|]. case_match; [done|]. simpl. by rewrite IH. Qed.

Lemma remove_pos_sublist ns f l : remove_pos ns f l `sublist_of` l.
Proof. induction l as [|i l IH]; simpl; [done|]. case_match; [by apply sublist_cons|by apply sublist_skip]. Qed.

(** Free nodes are unlinked. *)
Definition free_unlinked (ns : list cbr_node) : Prop :=
  forall i n, ns !! i = Some n -> cbr n = 0 -> next n = None.

(** What a removal does to the nodes. *)
Record removed (ns ns' : list cbr_node) (l : list nat) : Prop := {
  re_other j : j ∉ l -> ns' !! j = ns !! j;
  re_entry j n : ns' !! j = Some n -> cbr n <> 0 -> entry n = entry (nth j ns null_node);
  re_free : free_unlinked ns -> free_unlinked ns';
}.

Lemma removed_refl ns l : removed ns ns l.
Proof. split; [done| |done]. intros j n Hn _. by rewrite nth_lookup, Hn. Qed.

Definition clear (n : cbr_node) : cbr_node := mk_cbr_node 0 (priority n) None.

Lemma clear_lookup (ns : list cbr_node) (cur j : nat) : alter clear cur ns !! j = if decide (cur = j) then clear <$> ns !! j else ns !! j.
Proof. rewrite list_lookup_alter. by case_decide; subst. Qed.

Lemma removed_clear ns l (cur : nat) : cur ∈ l -> removed ns (alter clear cur ns) l.
Proof.
  intros Hc. split.
  - intros j Hj. rewrite clear_lookup, decide_False; [done|]. by intros ->.
  - intros j n. rewrite clear_lookup, nth_lookup. case_decide.
    + intros (m & _ & ->)%fmap_Some. done.
    + by intros ->.
  - intros Hf j n. rewrite clear_lookup. case_decide; [|apply Hf].
    intros (m & _ & ->)%fmap_Some. done.
Qed.

(** Redirecting a live node keeps free nodes unlinked. *)
Lemma removed_set_next ns l p q n : p ∈ l -> ns !! p = Some n -> cbr n <> 0 -> removed ns (set_next ns p q) l.
Proof.
  intros Hp Hn Hc. split.
  - intros j Hj. rewrite set_next_lookup, decide_False; [done|]. by intros ->.
  - intros j m Hm _. rewrite <- (set_next_entry ns p q), nth_lookup, Hm. done.
  - intros Hf j m. rewrite set_next_lookup. case_decide; [subst j|apply Hf].
    rewrite Hn. by intros [= <-].
Qed.

Lemma removed_trans ns1 ns2 ns3 l : removed ns1 ns2 l -> removed ns2 ns3 l -> removed ns1 ns3 l.
Proof.
  intros [A1 A2 A3] [B1 B2 B3]. split; [intros j Hj; by rewrite B1, A1| |auto].
  intros j n Hn Hc. pose proof (B2 _ _ Hn Hc) as E. rewrite E. rewrite nth_lookup in E |- *.
  destruct (ns2 !! j) as [m|] eqn:Hm; cbn in *.
  - apply (A2 _ _ Hm). unfold entry in E. congruence.
  - unfold entry in E. simpl in E. congruence.
Qed.

Lemma lseg_clear ns p l q cur : cur ∉ l -> lseg ns p l q -> lseg (alter clear cur ns) p l q.
Proof.
  intros Hc. apply lseg_frame. intros j Hj. rewrite clear_lookup, decide_False; [done|]. by intros ->.
Qed.

Lemma remove_walk_none fuel ns f first prev : (0 < fuel)%nat -> remove_walk fuel ns f first prev None = Some (ns, first).
Proof. destruct fuel; [lia|done]. Qed.

(** Unlinking the node at the head of the rest. *)
Lemma unlink ns first pre cur post c : lseg ns first (pre ++ cur :: post) None -> NoDup (pre ++ cur :: post) ->
  ns !! cur = Some c ->
  let '(ns1, first') := match last pre with
                        | None => (ns, next c)
                        | Some p => (set_next ns p (next c), first)
                        end in
  lseg (alter clear cur ns1) first' (pre ++ post) None /\
  removed ns (alter clear cur ns1) (pre ++ cur :: post).
Proof.
  intros Hl Hd Hcur. apply lseg_app in Hl as (p & Hpre & (-> & c' & Hc' & Hcc & Hpost)).
  rewrite Hcur in Hc'. injection Hc' as <-.
  apply NoDup_app in Hd as (Hd1 & Hd2 & [Hd3 Hd4]%NoDup_cons).
  destruct pre as [|x pre0 _] using rev_ind; simpl.
  - split; [by apply lseg_clear|]. apply removed_clear. left.
  - rewrite last_snoc. assert (Hx : x ∉ pre0).
    { apply NoDup_app in Hd1 as (_ & Hd1 & _). intros Hin. apply (Hd1 x Hin). left. }
    assert (Hxl : x ∈ pre0 ++ [x]) by (apply elem_of_app; right; left).
    pose proof Hpre as (r & _ & (_ & nx & Hnx & Hcx & _))%lseg_app. split.
    + apply lseg_clear.
      { rewrite not_elem_of_app. split; [|done]. intros Hin. apply (Hd2 cur Hin). left. }
      apply lseg_app. exists (next c). split; [by eapply lseg_retarget|].
      eapply lseg_frame; [|exact Hpost]. intros j Hj. rewrite set_next_lookup, decide_False; [done|].
      intros ->. apply (Hd2 j); [done|by right].
    + eapply removed_trans; [eapply removed_set_next; [|exact Hnx|done]|apply removed_clear];
        apply elem_of_app; [by left|right; left].
Qed.

Lemma remove_walk_ok fuel : forall ns f first pre p post,
  lseg ns first (pre ++ post) None -> lseg ns p post None -> NoDup (pre ++ post) -> f <> 0 ->
  (length post < fuel)%nat ->
  exists ns' first', remove_walk fuel ns f first (last pre) p = Some (ns', first') /\
    lseg ns' first' (pre ++ remove_pos ns f post) None /\ removed ns ns' (pre ++ post).
Proof.
  induction fuel as [|fuel IH]; intros ns f first pre p post Hl Hp Hd Hf Hfuel; [lia|].
  cbn [remove_walk]. destruct post as [|cur post].
  - simpl in Hp. subst p. eexists _, _. split; [done|]. split; [done|apply removed_refl].
  - destruct Hp as (-> & c & Hc & Hcc & Hrest). cbn [remove_pos]. rewrite !nth_lookup, Hc. cbn [default id].
    destruct (cbr c =? f) eqn:Ef.
    + pose proof (unlink _ _ _ _ _ _ Hl Hd Hc) as Hu.
      destruct (match last pre with Some _ => _ | None => _ end) as [ns1 first'].
      destruct Hu as [Hu1 Hu2]. change (fun n => mk_cbr_node 0 (priority n) None) with clear.
      assert (next (nth cur (alter clear cur ns1) null_node) = None) as ->.
      { rewrite nth_lookup, clear_lookup, decide_True by done. by destruct (ns1 !! cur). }
      rewrite remove_walk_none by (simpl in Hfuel; lia). by exists (alter clear cur ns1), first'.
    + destruct (IH ns f first (pre ++ [cur]) (next c) post) as (ns' & first' & E & Hl' & Hr);
        rewrite <- ?(assoc_L (++)); try done; [simpl in Hfuel; lia|].
      rewrite last_snoc in E. rewrite <- (assoc_L (++)) in Hl', Hr. by exists ns', first'.
Qed.

(** ** Notification *)

Lemma notify_walk_ok fuel : forall ns run p l, lseg ns p l None -> (length l < fuel)%nat ->
  notify_walk fuel ns run p = Some (called run (entries ns l)).
Proof.
  induction fuel as [|fuel IH]; intros ns run p l Hl Hfuel; [lia|].
  destruct l as [|i l]; simpl in Hl |- *; [by subst|].
  destruct Hl as (-> & n & Hn & Hc & Hl). rewrite nth_lookup, Hn. cbn [default id].
  rewrite (proj2 (Z.eqb_neq _ _) Hc). cbn. case_match; [done|].
  rewrite (IH ns run (next n) l Hl) by (simpl in Hfuel; lia). done.
Qed.

(** ** Records *)

(** An event name that fits a record with its terminating NUL. *)
Definition valid_event (e : list Z) : Prop :=
  e <> [] /\ Forall (fun c => c <> 0) e /\ (length e <= 15)%nat.

Lemma strncpy16_valid e : valid_event e -> exists k, strncpy16 e = e ++ 0 :: replicate k 0.
Proof.
  intros (_ & _ & Hl). exists (15 - length e)%nat. unfold strncpy16.
  rewrite take_app_ge, take_replicate by lia. f_equal.
  by replace ((16 - length e) `min` 16)%nat with (S (15 - length e)) by lia.
Qed.

Lemma c_string_strncpy16 e l : valid_event e -> c_string (strncpy16 e ++ l) = e.
Proof.
  intros He. destruct (strncpy16_valid e He) as [k ->]. rewrite <- (assoc_L (++)). simpl.
  apply c_string_app, He.
Qed.

Lemma strncpy16_inj e e' : valid_event e -> valid_event e' -> strncpy16 e = strncpy16 e' -> e = e'.
Proof. intros He He' E. rewrite <- (c_string_strncpy16 e []), E by done. by apply c_string_strncpy16. Qed.

Lemma valid_used e : valid_event e -> (nth 0 (strncpy16 e) 0 =? 0) = false.
Proof.
  intros He. destruct (strncpy16_valid e He) as [k ->]. destruct He as (Hne & Hz & _).
  destruct e as [|c e]; [done|]. inversion Hz. by apply Z.eqb_neq.
Qed.

(** ** The invariant

    [ch r] are the nodes of record [r], in order. *)
Record cbr_inv (s : cbr_state) (ch : nat -> list nat) : Prop := {
  ci_seg r rec : cbr_record_pool s !! r = Some rec -> lseg (cbr_node_pool s) (first rec) (ch r) None;
  ci_live r i : i ∈ ch r -> exists n, cbr_node_pool s !! i = Some n /\ cbr n <> 0;
  ci_nodup r : NoDup (ch r);
  ci_disj r r' i : i ∈ ch r -> i ∈ ch r' -> r = r';
  ci_free : free_unlinked (cbr_node_pool s);
  ci_names r rec : cbr_record_pool s !! r = Some rec ->
    (is_unused rec = true /\ ch r = []) \/ exists e, valid_event e /\ name rec = strncpy16 e;
  ci_uniq e r r' a b : valid_event e -> cbr_record_pool s !! r = Some a -> cbr_record_pool s !! r' = Some b ->
    name a = strncpy16 e -> name b = strncpy16 e -> r = r';
}.

(** Record [r] is that of event [e]. *)
Definition is_record (s : cbr_state) (e : list Z) (r : nat) : Prop :=
  exists rec, cbr_record_pool s !! r = Some rec /\ name rec = strncpy16 e.

(** The state holds, for every event, the callbacks [m e]. *)
Definition cbr_rel (s : cbr_state) (m : list Z -> list (Z * Z)) : Prop :=
  exists ch, cbr_inv s ch /\
    forall e, valid_event e ->
      (forall r, is_record s e r -> m e = entries (cbr_node_pool s) (ch r)) /\
      ((forall r, ~ is_record s e r) -> m e = []).

Section Records.
Variable node_addr : nat -> Z.
Notation find_record := (find_record node_addr).

Lemma matches_name s ch e r rec : cbr_inv s ch -> valid_event e -> cbr_record_pool s !! r = Some rec ->
  is_unused rec = false /\ fast_compare node_addr e rec = true <-> name rec = strncpy16 e.
Proof.
  intros Hi He Hr. unfold fast_compare. split.
  - intros [Hu Hc%bool_decide_eq_true]. destruct (ci_names _ _ Hi _ _ Hr) as [[Hu' _]|(e' & He' & E)]; [congruence|].
    rewrite E in Hc |- *. rewrite c_string_strncpy16 in Hc by done. by subst.
  - intros E. split; [unfold is_unused; rewrite E; by apply valid_used|].
    apply bool_decide_eq_true. by rewrite E, c_string_strncpy16.
Qed.

(** An event with a record is found, whether a new one may be made or not. *)
Lemma find_record_some s ch e r b : cbr_inv s ch -> valid_event e -> is_record s e r ->
  find_record s e b = Some (r, s).
Proof.
  intros Hi He (rec & Hr & Hn). unfold Cbr.find_record.
  destruct (list_find _ _) as [[i rec']|] eqn:E.
  - apply list_find_Some in E as (Hi' & Hm & _). apply (matches_name _ _ _ _ _ Hi He Hi') in Hm.
    by rewrite (ci_uniq _ _ Hi e i r rec' rec).
  - apply list_find_None in E. rewrite Forall_lookup in E. destruct (E _ _ Hr).
    by apply (matches_name _ _ _ _ _ Hi He Hr).
Qed.

(** One without gets the first unused record, if asked for and there is one. *)
Lemma find_record_none s ch e : cbr_inv s ch -> valid_event e -> (forall r, ~ is_record s e r) ->
  find_record s e false = None /\
  (find_record s e true = None \/
   exists i rec, cbr_record_pool s !! i = Some rec /\ is_unused rec = true /\
     find_record s e true = Some (i, mk_cbr_state (cbr_node_pool s)
                                       (<[i := mk_cbr_record (strncpy16 e) None]> (cbr_record_pool s)))).
Proof.
  intros Hi He Hno. unfold Cbr.find_record.
  destruct (list_find (fun r => is_unused r = false /\ _) _) as [[i rec]|] eqn:E.
  - apply list_find_Some in E as (Hi' & Hm & _). apply (matches_name _ _ _ _ _ Hi He Hi') in Hm.
    destruct (Hno i). by exists rec.
  - split; [done|]. destruct (list_find (fun r => is_unused r = true) _) as [[i rec]|] eqn:E2; [|by left].
    apply list_find_Some in E2 as (Hi' & Hm & _). right. by exists i, rec.
Qed.

Lemma is_record_dec s e : (exists r, is_record s e r) \/ (forall r, ~ is_record s e r).
Proof.
  destruct (list_find (fun r => name r = strncpy16 e) (cbr_record_pool s)) as [[i rec]|] eqn:E.
  - apply list_find_Some in E as (Hi & Hm & _). left. exists i. by exists rec.
  - right. intros r (rec & Hr & Hn). apply list_find_None in E. rewrite Forall_lookup in E. by apply (E _ _ Hr).
Qed.

End Records.

(** Naming an unused record changes no list. *)
Lemma new_record_rel s m e i rec : cbr_rel s m -> valid_event e -> (forall r, ~ is_record s e r) ->
  cbr_record_pool s !! i = Some rec -> is_unused rec = true ->
  let s' := mk_cbr_state (cbr_node_pool s) (<[i := mk_cbr_record (strncpy16 e) None]> (cbr_record_pool s)) in
  cbr_rel s' m /\ is_record s' e i.
Proof.
  intros (ch & Hi & Hm) He Hno Hrec Hu s'.
  assert (Hch : ch i = []).
  { destruct (ci_names _ _ Hi _ _ Hrec) as [[_ ?]|(e' & He' & E)]; [done|].
    unfold is_unused in Hu. rewrite E, (valid_used e' He') in Hu. done. }
  assert (Hlt : (i < length (cbr_record_pool s))%nat) by by eapply lookup_lt_Some.
  assert (Hold : forall e', valid_event e' -> ~ is_record s e' i).
  { intros e' He' (rec' & Hr' & Hn'). rewrite Hrec in Hr'. injection Hr' as <-.
    unfold is_unused in Hu. rewrite Hn', (valid_used e' He') in Hu. done. }
  assert (Hrn : forall e' r, valid_event e' -> is_record s' e' r -> (r = i /\ e' = e) \/ (r <> i /\ is_record s e' r)).
  { intros e' r He' (rec' & Hr' & Hn'). cbn in Hr'. rewrite list_lookup_insert in Hr'.
    case_decide as Hd; [left|right].
    - destruct Hd as [-> _]. injection Hr' as <-. split; [done|]. by apply strncpy16_inj.
    - split; [intros ->; naive_solver lia|]. by exists rec'. }
  assert (Hri : is_record s' e i).
  { eexists. cbn. by rewrite list_lookup_insert_eq. }
  assert (Hrs : forall e' r, valid_event e' -> is_record s e' r -> is_record s' e' r).
  { intros e' r He' (rec' & Hr' & Hn'). exists rec'. cbn. rewrite list_lookup_insert_ne; [done|].
    intros ->. apply (Hold e' He'). by exists rec'. }
  split; [|done]. exists ch. split.
  - split; cbn; try apply Hi.
    + intros r rec' Hr'. rewrite list_lookup_insert in Hr'. case_decide as Hd; [|by apply (ci_seg _ _ Hi)].
      destruct Hd as [-> _]. injection Hr' as <-. by rewrite Hch.
    + intros r rec' Hr'. rewrite list_lookup_insert in Hr'. case_decide as Hd; [|by apply (ci_names _ _ Hi)].
      injection Hr' as <-. right. by exists e.
    + intros e' r r' a b He' Ha Hb Hna Hnb.
      destruct (Hrn e' r He') as [[-> E]|[_ Hr]]; [by exists a| |];
        (destruct (Hrn e' r' He') as [[-> E']|[_ Hr']]; [by exists b| |]).
      * done.
      * subst e'. by destruct (Hno r').
      * subst e'. by destruct (Hno r).
      * destruct Hr as (a' & Ha' & Hna'), Hr' as (b' & Hb' & Hnb'). by apply (ci_uniq _ _ Hi e' r r' a' b').
  - intros e' He'. destruct (Hm e' He') as [Hm1 Hm2]. split.
    + intros r Hr. destruct (Hrn e' r He' Hr) as [[-> ->]|[_ Hr']]; [|by apply Hm1].
      rewrite Hch. by apply Hm2.
    + intros Hn. apply Hm2. intros r Hr. by apply (Hn r), Hrs.
Qed.

(** The operation on record [r] turned its callbacks into [L] and kept all others. *)
Definition moved (s : cbr_state) (ch : nat -> list nat) (s' : cbr_state) (r : nat) (L : list (Z * Z)) : Prop :=
  exists ch', cbr_inv s' ch' /\ map name (cbr_record_pool s') = map name (cbr_record_pool s) /\
    entries (cbr_node_pool s') (ch' r) = L /\
    forall r', r' <> r -> entries (cbr_node_pool s') (ch' r') = entries (cbr_node_pool s) (ch r').

Definition upd (m : list Z -> list (Z * Z)) (e : list Z) (L : list (Z * Z)) : list Z -> list (Z * Z) :=
  fun e' => if decide (e' = e) then L else m e'.

Lemma is_record_names s s' e r : map name (cbr_record_pool s') = map name (cbr_record_pool s) ->
  is_record s' e r <-> is_record s e r.
Proof.
  assert (H : forall t, is_record t e r <-> map name (cbr_record_pool t) !! r = Some (strncpy16 e)).
  { intros t. change (map name (cbr_record_pool t)) with (name <$> cbr_record_pool t).
    rewrite list_lookup_fmap, fmap_Some. split; intros (rec & H1 & H2); by exists rec. }
  intros E. by rewrite !H, E.
Qed.

Lemma rel_moved s ch s' m e r L : cbr_inv s ch ->
  (forall e, valid_event e ->
      (forall r, is_record s e r -> m e = entries (cbr_node_pool s) (ch r)) /\
      ((forall r, ~ is_record s e r) -> m e = [])) ->
  valid_event e -> is_record s e r -> moved s ch s' r L -> cbr_rel s' (upd m e L).
Proof.
  intros Hi Hm He Hr (ch' & Hi' & Hn & HL & Hoth). exists ch'. split; [done|].
  intros e' He'. destruct (Hm e' He') as [Hm1 Hm2]. unfold upd. case_decide as Hd.
  - subst e'. split.
    + intros r' Hr'. rewrite (is_record_names s) in Hr' by done.
      destruct Hr as (a & Ha & Hna), Hr' as (b & Hb & Hnb). by rewrite (ci_uniq _ _ Hi e r' r b a).
    + intros Hno. destruct (Hno r). by rewrite (is_record_names s).
  - split.
    + intros r' Hr'. rewrite (is_record_names s) in Hr' by done. rewrite Hoth; [by apply Hm1|].
      intros ->. destruct Hr as (a & Ha & Hna), Hr' as (b & Hb & Hnb).
      apply Hd, strncpy16_inj; [done|done|congruence].
    + intros Hno. apply Hm2. intros r' Hr'. apply (Hno r'). by rewrite (is_record_names s).
Qed.

Lemma set_first_lookup rs i p j : set_first rs i p !! j =
  if decide (i = j) then (fun r => mk_cbr_record (name r) p) <$> rs !! j else rs !! j.
Proof. unfold set_first. rewrite list_lookup_alter. by case_decide; subst. Qed.

Lemma set_first_names rs i p : map name (set_first rs i p) = map name rs.
Proof.
  apply list_eq. intros j. change (map name ?l) with (name <$> l). rewrite !list_lookup_fmap, set_first_lookup.
  case_decide; [|done]. by destruct (rs !! j).
Qed.

Lemma set_first_id rs i rec : rs !! i = Some rec -> set_first rs i (first rec) = rs.
Proof.
  intros H. apply list_eq. intros j. rewrite set_first_lookup. case_decide; [subst j|done].
  rewrite H. by destruct rec.
Qed.

Lemma entries_ext ns ns' l : (forall i, i ∈ l -> ns' !! i = ns !! i) -> entries ns' l = entries ns l.
Proof. intros H. apply map_ext_in. intros i Hi. rewrite !nth_lookup, H; [done|]. by apply list_elem_of_In. Qed.

Lemma lseg_live ns p l q i : lseg ns p l q -> i ∈ l -> exists n, ns !! i = Some n /\ cbr n <> 0.
Proof.
  revert p. induction l as [|j l IH]; intros p; simpl; [by intros _ ?%elem_of_nil|].
  intros (-> & n & Hn & Hc & Hl) [->|Hi]%elem_of_cons; [by exists n|by eapply IH].
Qed.

(** Replacing the nodes of one record. *)
Lemma moved_intro s ch ns' r rec p' l' : cbr_inv s ch -> cbr_record_pool s !! r = Some rec ->
  (exists e, valid_event e /\ name rec = strncpy16 e) ->
  lseg ns' p' l' None -> NoDup l' -> (forall i, i ∈ l' -> i ∈ ch r \/ forall r', i ∉ ch r') ->
  (forall r' i, r' <> r -> i ∈ ch r' -> ns' !! i = cbr_node_pool s !! i) -> free_unlinked ns' ->
  moved s ch (mk_cbr_state ns' (set_first (cbr_record_pool s) r p')) r (entries ns' l').
Proof.
  intros Hi Hrec Hev Hl Hd Hin Hoth Hfree.
  exists (fun r' => if decide (r' = r) then l' else ch r').
  assert (Hnames : forall r' a, set_first (cbr_record_pool s) r p' !! r' = Some a ->
    exists b, cbr_record_pool s !! r' = Some b /\ name a = name b).
  { intros r' a. rewrite set_first_lookup. case_decide; [|by exists a].
    intros (b & Hb & ->)%fmap_Some. by exists b. }
  split; [split; cbn|split_and!]; cbn.
  - intros r' rec'. rewrite set_first_lookup. destruct (decide (r = r')) as [<-|Hne].
    + rewrite Hrec, decide_True by done. by intros [= <-].
    + rewrite decide_False by done. intros Hr'. eapply lseg_frame; [|by apply (ci_seg _ _ Hi)].
      intros i Hi'. by apply (Hoth r').
  - intros r' i. case_decide as Hr'; intros Hi'; [by eapply lseg_live|].
    rewrite (Hoth r' i) by done. by apply (ci_live _ _ Hi r').
  - intros r'. case_decide; [done|apply Hi].
  - intros r1 r2 i. destruct (decide (r1 = r)) as [->|N1], (decide (r2 = r)) as [->|N2]; intros H1 H2; [done| | |].
    + destruct (Hin i H1) as [H|H]; [|by destruct (H r2)]. by apply (ci_disj _ _ Hi r r2 i).
    + destruct (Hin i H2) as [H|H]; [|by destruct (H r1)]. by apply (ci_disj _ _ Hi r1 r i).
    + by apply (ci_disj _ _ Hi r1 r2 i).
  - done.
  - intros r' a Ha. destruct (decide (r' = r)) as [->|Hne].
    + right. rewrite set_first_lookup, Hrec, decide_True in Ha by done. by injection Ha as <-.
    + rewrite set_first_lookup, decide_False in Ha by done. by apply (ci_names _ _ Hi).
  - intros e r1 r2 a b He Ha Hb Hna Hnb. apply Hnames in Ha as (a' & Ha & Ea), Hb as (b' & Hb & Eb).
    apply (ci_uniq _ _ Hi e r1 r2 a' b'); congruence.
  - apply set_first_names.
  - by rewrite decide_True.
  - intros r' Hr'. rewrite decide_False by done. apply entries_ext. intros i Hi'. by apply (Hoth r').
Qed.

(** ** The new node *)

Lemma free_not_in s ch i n r : cbr_inv s ch -> cbr_node_pool s !! i = Some n -> cbr n = 0 -> i ∉ ch r.
Proof. intros Hi Hn Hc Hin. destruct (ci_live _ _ Hi r i Hin) as (n' & Hn' & ?). congruence. Qed.

Lemma inv_append s ch a : cbr_inv s ch -> Forall (fun n => n = null_node) a ->
  cbr_inv (mk_cbr_state (cbr_node_pool s ++ a) (cbr_record_pool s)) ch.
Proof.
  intros Hi Ha. assert (Hk : forall r i, i ∈ ch r -> (cbr_node_pool s ++ a) !! i = cbr_node_pool s !! i).
  { intros r i Hin. destruct (ci_live _ _ Hi r i Hin) as (n & Hn & _).
    by rewrite lookup_app_l by by eapply lookup_lt_Some. }
  split; cbn; try apply Hi.
  - intros r rec Hr. eapply lseg_frame; [|by apply (ci_seg _ _ Hi)]. intros i. apply Hk.
  - intros r i Hin. rewrite (Hk r i Hin). by apply (ci_live _ _ Hi r).
  - intros i n [Hn|[_ Hn]]%lookup_app_Some; [by apply (ci_free _ _ Hi i)|].
    rewrite Forall_lookup in Ha. by rewrite (Ha _ _ Hn).
Qed.

Lemma new_node_slot_ok s ch ok : cbr_inv s ch ->
  (new_node_slot s ok = None /\ ok = false) \/
  exists i s1 n, new_node_slot s ok = Some (i, s1) /\ cbr_inv s1 ch /\
    cbr_record_pool s1 = cbr_record_pool s /\
    (forall r j, j ∈ ch r -> cbr_node_pool s1 !! j = cbr_node_pool s !! j) /\
    cbr_node_pool s1 !! i = Some n /\ cbr n = 0.
Proof.
  intros Hi. unfold new_node_slot, find_free_node.
  destruct (list_find _ _) as [[i n]|] eqn:E; cbn.
  - apply list_find_Some in E as (Hn & Hc & _). right. by exists i, s, n.
  - destruct ok; [right|by left].
    assert (Ha : Forall (fun n => n = null_node) (replicate NODE_POOL_SIZE null_node)) by by apply Forall_replicate.
    eexists _, _, null_node. split; [reflexivity|]. split; [by apply inv_append|]. cbn [cbr_record_pool cbr_node_pool].
    split_and!; [done| | |done].
    + intros r j Hin. destruct (ci_live _ _ Hi r j Hin) as (n & Hn & _).
      by rewrite lookup_app_l by by eapply lookup_lt_Some.
    + by rewrite lookup_app_r, Nat.sub_diag by done.
Qed.

(** ** The operations on one record *)

(** Filling the free node [i]. *)
Lemma fill_lookup (ns : list cbr_node) (i j : nat) f prio n : ns !! i = Some n -> next n = None ->
  alter (fun n => mk_cbr_node f prio (next n)) i ns !! j =
    if decide (i = j) then Some (mk_cbr_node f prio None) else ns !! j.
Proof.
  intros Hn Hx. rewrite list_lookup_alter. case_decide; [subst j|done]. rewrite Hn. cbn. by rewrite Hx.
Qed.

Lemma inserted_free ns ns' l new : (forall j n, ns !! j = Some n -> j ∈ new :: l -> cbr n <> 0) ->
  inserted ns ns' l new -> free_unlinked ns -> free_unlinked ns'.
Proof.
  intros Hlive [Hlen Hoth He] Hf j n Hn Hc. destruct (decide (j ∈ new :: l)) as [Hin|Hin].
  - specialize (He j). rewrite !nth_lookup, Hn in He. destruct (ns !! j) as [n0|] eqn:Hj.
    + exfalso. apply (Hlive j n0 Hj Hin). unfold entry in He. cbn in He. congruence.
    + exfalso. apply lookup_lt_Some in Hn. apply lookup_ge_None in Hj. lia.
  - apply not_elem_of_cons in Hin as [H1 H2]. rewrite Hoth in Hn by done. by apply (Hf j).
Qed.

(** The list of one record after [insert_cbr]. *)
Lemma insert_list ns p l i f prio : lseg ns p l None -> NoDup l -> i ∉ l ->
  ns !! i = Some (mk_cbr_node f prio None) -> f <> 0 ->
  exists ns' nf, match p with
                 | None => Some (ns, Some i)
                 | Some cur => insert_walk (S (length ns)) ns prio i None cur
                 end = Some (ns', nf) /\
    lseg ns' (match nf with Some q => Some q | None => p end) (insert_pos ns prio i l) None /\ inserted ns ns' l i.
Proof.
  intros Hl Hd Hi Hn Hf. destruct l as [|cur post].
  - simpl in Hl. subst p. eexists _, _. split; [done|]. cbn. split; [|by split].
    split; [done|]. by eexists.
  - pose proof Hl as [-> _]. destruct (insert_walk_ok (S (length ns)) ns (Some cur) [] cur post i _ prio Hl Hd Hi Hn Hf)
      as (ns' & nf & E & Hl' & Hin); [done| |].
    { apply lseg_bound in Hl. pose proof (nodup_bound _ _ Hd Hl). simpl in *. lia. }
    by exists ns', nf.
Qed.

Lemma insert_cbr_ok s ch r rec f prio ok : cbr_inv s ch -> cbr_record_pool s !! r = Some rec ->
  (exists e, valid_event e /\ name rec = strncpy16 e) -> f <> 0 ->
  (insert_cbr s r f prio ok = Some (-1, s) /\ ok = false) \/
  exists s', insert_cbr s r f prio ok = Some (0, s') /\
    moved s ch s' r (insert_prio (f, prio) (entries (cbr_node_pool s) (ch r))).
Proof.
  intros Hi Hrec Hev Hf. unfold insert_cbr.
  destruct (new_node_slot_ok s ch ok Hi) as [[-> ->]|(i & s1 & n & -> & Hi1 & Hrs & Hns & Hn & Hc)]; [by left|right].
  assert (Hnot : forall r', i ∉ ch r') by (intros r'; by eapply free_not_in).
  pose proof (ci_free _ _ Hi1 i n Hn Hc) as Hx.
  set (ns2 := alter _ i _). assert (Hns2 : forall j, ns2 !! j = if decide (i = j) then Some (mk_cbr_node f prio None)
    else cbr_node_pool s1 !! j) by (intros j; by eapply fill_lookup).
  assert (Hch : forall r' j, j ∈ ch r' -> ns2 !! j = cbr_node_pool s !! j).
  { intros r' j Hj. rewrite Hns2, decide_False; [by eapply Hns|]. intros ->. by apply (Hnot r'). }
  assert (Hl2 : lseg ns2 (first rec) (ch r) None).
  { eapply lseg_frame; [intros j Hj; by apply (Hch r)|by apply (ci_seg _ _ Hi)]. }
  assert (Hfree : free_unlinked ns2).
  { intros j m. rewrite Hns2. case_decide; [by intros [= <-]|apply (ci_free _ _ Hi1)]. }
  destruct (insert_list ns2 (first rec) (ch r) i f prio) as (ns' & nf & E & Hl' & Hins);
    [done|apply Hi|done|by rewrite Hns2, decide_True|done|].
  exists (mk_cbr_state ns' (set_first (cbr_record_pool s) r (match nf with Some q => Some q | None => first rec end))). split.
  - rewrite Hrs, nth_lookup, Hrec. cbn [default id].
    destruct (first rec) as [cur|] eqn:Ef; [|by injection E as <- <-].
    rewrite E. cbn. destruct nf; [done|]. by rewrite <- Ef, set_first_id.
  - replace (insert_prio _ _) with (entries ns' (insert_pos ns2 prio i (ch r))).
    2:{ rewrite (insert_pos_entries ns2 ns' prio i (ch r) f); [|done|intros; by apply Hins|].
        - f_equal. apply entries_ext, Hch.
        - rewrite (in_entry _ _ _ _ Hins), nth_lookup, Hns2, decide_True by done. done. }
    apply (moved_intro s ch ns' r rec); [done|done|done|done| | | |].
    + rewrite insert_pos_perm. constructor; [done|apply Hi].
    + intros j. rewrite insert_pos_perm. intros [->|Hj]%elem_of_cons; [by right|by left].
    + intros r' j Hr' Hj. rewrite (in_other _ _ _ _ Hins j); [by eapply Hch| |].
      * intros Hj'. apply Hr'. by apply (ci_disj _ _ Hi r' r j).
      * intros ->. by apply (Hnot r').
    + eapply inserted_free; [|done|done]. intros j m Hj. rewrite Hns2 in Hj. case_decide as Hd; [by injection Hj as <-|].
      intros [->|Hin]%elem_of_cons; [done|]. destruct (ci_live _ _ Hi1 r j Hin) as (m' & Hm' & ?). congruence.
Qed.

Lemma remove_ok s ch r rec f : cbr_inv s ch -> cbr_record_pool s !! r = Some rec ->
  (exists e, valid_event e /\ name rec = strncpy16 e) -> f <> 0 ->
  exists ns' p', remove_walk (S (length (cbr_node_pool s))) (cbr_node_pool s) f (first rec) None (first rec)
                   = Some (ns', p') /\
    moved s ch (mk_cbr_state ns' (set_first (cbr_record_pool s) r p')) r
      (remove_first f (entries (cbr_node_pool s) (ch r))).
Proof.
  intros Hi Hrec Hev Hf. pose proof (ci_seg _ _ Hi _ _ Hrec) as Hl. pose proof (ci_nodup _ _ Hi r) as Hd.
  destruct (remove_walk_ok (S (length (cbr_node_pool s))) (cbr_node_pool s) f (first rec) [] (first rec) (ch r))
    as (ns' & p' & E & Hl' & Hr); [done|done|done|done| |].
  { apply lseg_bound in Hl. pose proof (nodup_bound _ _ Hd Hl). lia. }
  exists ns', p'. split; [done|]. rewrite <- remove_pos_entries. simpl in Hl', Hr.
  pose proof (remove_pos_sublist (cbr_node_pool s) f (ch r)) as Hsub.
  replace (entries (cbr_node_pool s) _) with (entries ns' (remove_pos (cbr_node_pool s) f (ch r))).
  2:{ apply map_ext_in. intros j Hj%list_elem_of_In. destruct (lseg_live _ _ _ _ _ Hl' Hj) as (n & Hn & Hc).
      rewrite <- (re_entry _ _ _ Hr j n Hn Hc). by rewrite nth_lookup, Hn. }
  apply (moved_intro s ch ns' r rec); [done|done|done|done| | | |].
  - by eapply sublist_NoDup.
  - intros j Hj. left. eapply elem_of_submseteq; [exact Hj|]. by apply sublist_submseteq.
  - intros r' j Hr' Hj. apply (re_other _ _ _ Hr). intros Hj'. apply Hr'. by apply (ci_disj _ _ Hi r' r j).
  - by apply (re_free _ _ _ Hr), Hi.
Qed.

(** ** Refinement *)

Section Refinement.
Variable node_addr : nat -> Z.

(** Registering on a valid event: a record and its callbacks. *)
Lemma register_rel s m e f prio rok nok : cbr_rel s m -> valid_event e -> f <> 0 ->
  find_record node_addr s e true <> None ->
  exists rv s', ml_register_cbr node_addr s e f prio rok nok = Some (rv, s') /\
    ((rv = 0 /\ cbr_rel s' (upd m e (insert_prio (f, prio) (m e)))) \/
     (rv = -1 /\ nok = false /\ cbr_rel s' m)).
Proof.
  intros Hrel He Hf Hfind.
  assert (H : exists r s1, find_record node_addr s e true = Some (r, s1) /\ cbr_rel s1 m /\ is_record s1 e r).
  { destruct (is_record_dec s e) as [[r Hr]|Hno].
    - exists r, s. split_and!; [|done|done]. destruct Hrel as (ch & Hi & _). by eapply find_record_some.
    - pose proof Hrel as (ch & Hi & _).
      destruct (find_record_none node_addr s ch e Hi He Hno) as [_ [?|(i & rec & Hrec & Hu & E)]]; [done|].
      eexists _, _. split; [exact E|]. by eapply new_record_rel. }
  destruct H as (r & s1 & E & (ch & Hi & Hm) & Hr). unfold ml_register_cbr. rewrite E.
  pose proof Hr as (rec & Hrec & Hname).
  destruct (insert_cbr_ok s1 ch r rec f prio nok) as [[-> ->]|(s' & -> & Hmv)]; [done|done|by exists e|done| |].
  - eexists _, _. split; [done|]. right. split_and!; [done|done|]. by exists ch.
  - eexists _, _. split; [done|]. left. split; [done|].
    rewrite (proj1 (Hm e He) r Hr). by eapply rel_moved.
Qed.

Lemma rel_ext s m m' : (forall e, m' e = m e) -> cbr_rel s m -> cbr_rel s m'.
Proof. intros E (ch & Hi & Hm). exists ch. split; [done|]. intros e He. rewrite E. by apply Hm. Qed.

Lemma unregister_rel s m e f : cbr_rel s m -> valid_event e -> f <> 0 ->
  exists rv s', ml_unregister_cbr node_addr s e f = Some (rv, s') /\ (rv = 0 \/ rv = -1) /\
    cbr_rel s' (upd m e (remove_first f (m e))).
Proof.
  intros (ch & Hi & Hm) He Hf. unfold ml_unregister_cbr. destruct (is_record_dec s e) as [[r Hr]|Hno].
  - rewrite (find_record_some node_addr s ch e r) by done. pose proof Hr as (rec & Hrec & Hname).
    rewrite nth_lookup, Hrec. cbn [default id].
    destruct (remove_ok s ch r rec f) as (ns' & p' & -> & Hmv); [done|done|by exists e|done|].
    cbn. eexists _, _. split; [done|]. split; [by left|].
    rewrite (proj1 (Hm e He) r Hr). by eapply rel_moved.
  - destruct (find_record_none node_addr s ch e Hi He Hno) as [-> _].
    eexists _, _. split; [done|]. split; [by right|]. apply (rel_ext s m); [|by exists ch].
    intros e'. unfold upd. case_decide; [subst|done]. by rewrite (proj2 (Hm e He) Hno).
Qed.

Lemma notify_rel s m e run : cbr_rel s m -> valid_event e ->
  ml_notify_cbr node_addr s e run = Some (called run (m e)).
Proof.
  intros (ch & Hi & Hm) He. unfold ml_notify_cbr. destruct (is_record_dec s e) as [[r Hr]|Hno].
  - rewrite (find_record_some node_addr s ch e r) by done. rewrite (proj1 (Hm e He) r Hr).
    destruct Hr as (rec & Hrec & Hname). rewrite nth_lookup, Hrec. cbn [default id].
    pose proof (ci_seg _ _ Hi _ _ Hrec) as Hl. apply notify_walk_ok; [done|].
    pose proof (nodup_bound _ _ (ci_nodup _ _ Hi r) (lseg_bound _ _ _ _ Hl)). lia.
  - destruct (find_record_none node_addr s ch e Hi He Hno) as [-> _].
    by rewrite (proj2 (Hm e He) Hno).
Qed.

Lemma init_rel : cbr_rel _ml_cbr_init (fun _ => []).
Proof.
  exists (fun _ => []). split; [split|]; unfold _ml_cbr_init; cbn [cbr_record_pool cbr_node_pool].
  - intros r rec (-> & _)%lookup_replicate. done.
  - intros r i Hin. by apply elem_of_nil in Hin.
  - intros r. constructor.
  - intros r r' i Hin. by apply elem_of_nil in Hin.
  - intros i n (-> & _)%lookup_replicate. done.
  - intros r rec (-> & _)%lookup_replicate. by left.
  - intros e r r' a b He (-> & _)%lookup_replicate _ Hn. exfalso.
    pose proof (valid_used e He) as Hv. rewrite <- Hn in Hv. done.
  - done.
Qed.

(** Registering and removing, beside what the lists should become. *)
Inductive cbr_step : cbr_state * (list Z -> list (Z * Z)) -> cbr_state * (list Z -> list (Z * Z)) -> Prop :=
| step_register s m e f prio rok nok s' : valid_event e -> f <> 0 -> find_record node_addr s e true <> None ->
    ml_register_cbr node_addr s e f prio rok nok = Some (0, s') ->
    cbr_step (s, m) (s', upd m e (insert_prio (f, prio) (m e)))
| step_register_fails s m e f prio rok nok s' : valid_event e -> f <> 0 -> find_record node_addr s e true <> None ->
    ml_register_cbr node_addr s e f prio rok nok = Some (-1, s') -> cbr_step (s, m) (s', m)
| step_unregister s m e f rv s' : valid_event e -> f <> 0 ->
    ml_unregister_cbr node_addr s e f = Some (rv, s') ->
    cbr_step (s, m) (s', upd m e (remove_first f (m e))).

Definition cbr_reach (s : cbr_state) (m : list Z -> list (Z * Z)) : Prop :=
  rtc cbr_step (_ml_cbr_init, fun _ => []) (s, m).

Definition by_priority (l : list (Z * Z)) : Prop := StronglySorted (fun x y => snd y <= snd x) l.

Lemma insert_prio_sorted x l : by_priority l -> by_priority (insert_prio x l).
Proof.
  induction 1 as [|y l Hs IH Hall]; simpl; [by repeat constructor|].
  destruct (Z.ltb_spec (snd y) (snd x)) as [H|H].
  - constructor; [by constructor|]. constructor; [lia|]. eapply Forall_impl; [exact Hall|]. simpl. lia.
  - constructor; [done|]. clear IH Hs. induction Hall as [|z l Hz Hall IH]; simpl; [by constructor|].
    case_match; repeat constructor; auto.
Qed.

Lemma remove_first_sorted f l : by_priority l -> by_priority (remove_first f l).
Proof.
  induction 1 as [|y l Hs IH Hall]; simpl; [constructor|]. case_match; [done|]. constructor; [done|].
  clear -Hall. induction Hall as [|z l Hz Hall IH]; simpl; [done|]. case_match; [done|]. by constructor.
Qed.

Definition cbr_good (x : cbr_state * (list Z -> list (Z * Z))) : Prop :=
  cbr_rel (fst x) (snd x) /\ forall e, by_priority (snd x e).

Lemma step_good x y : cbr_step x y -> cbr_good x -> cbr_good y.
Proof.
  intros Hs [H1 H2].
  destruct Hs as [s m e f prio rok nok s' He Hf Hfind E|s m e f prio rok nok s' He Hf Hfind E|s m e f rv s' He Hf E];
    cbn in H1, H2.
  - destruct (register_rel s m e f prio rok nok H1 He Hf Hfind) as (rv & s2 & E2 & [[-> H]|[-> _]]); [|congruence].
    rewrite E in E2. injection E2 as <-. split; [done|]. intros e'. cbn. unfold upd. case_decide; [|done].
    by apply insert_prio_sorted.
  - destruct (register_rel s m e f prio rok nok H1 He Hf Hfind) as (rv & s2 & E2 & [[-> _]|(-> & _ & H)]); [congruence|].
    rewrite E in E2. injection E2 as <-. done.
  - destruct (unregister_rel s m e f H1 He Hf) as (rv2 & s2 & E2 & _ & H). rewrite E in E2. injection E2 as <- <-.
    split; [done|]. intros e'. cbn. unfold upd. case_decide; [|done]. by apply remove_first_sorted.
Qed.

Lemma reach_good s m : cbr_reach s m -> cbr_good (s, m).
Proof.
  unfold cbr_reach. intros H. assert (H0 : cbr_good (_ml_cbr_init, fun _ => [])).
  { split; [apply init_rel|constructor]. }
  revert H0. induction H as [x|x y z Hs _ IH]; [done|]. intros H0. apply IH. by eapply step_good.
Qed.

(** C21: Consider registrations and removals of callbacks other than NULL for
    event names of 1 to 15 characters, each registration made while there is a
    record for its event or a free one (it may still fail for want of a node).
    After any sequence of them, a notification of such an event terminates and
    calls exactly the callbacks registered for it and not removed, by
    descending priority and in the order of registration within one priority,
    up to the first that answers ML_CBR_STOP. *)
Theorem cbr_notify_refines s m e run : cbr_reach s m -> valid_event e ->
  ml_notify_cbr node_addr s e run = Some (called run (m e)) /\ by_priority (m e).
Proof. intros [Hr Hp]%reach_good He. split; [by apply notify_rel|apply Hp]. Qed.

(** In every state reached, registering and removing terminate.
    Registering fails only if the nodes are used up and no memory is left; a
    success or failure of either leaves the lists of all events as specified. *)
Theorem cbr_operations_refine s m e f prio rok nok : cbr_reach s m -> valid_event e -> f <> 0 ->
  (find_record node_addr s e true <> None ->
   exists rv s', ml_register_cbr node_addr s e f prio rok nok = Some (rv, s') /\
     (rv = 0 /\ cbr_reach s' (upd m e (insert_prio (f, prio) (m e))) \/
      rv = -1 /\ nok = false /\ cbr_reach s' m)) /\
  exists rv s', ml_unregister_cbr node_addr s e f = Some (rv, s') /\
    cbr_reach s' (upd m e (remove_first f (m e))).
Proof.
  intros Hre He Hf. pose proof (reach_good _ _ Hre) as [Hr _]. split.
  - intros Hfind. destruct (register_rel s m e f prio rok nok Hr He Hf Hfind) as (rv & s' & E & H).
    exists rv, s'. split; [done|]. destruct H as [[-> _]|(-> & -> & _)]; [left|right]; split_and?; try done.
    + eapply rtc_r; [exact Hre|]. by eapply step_register.
    + eapply rtc_r; [exact Hre|]. by eapply step_register_fails.
  - destruct (unregister_rel s m e f Hr He Hf) as (rv & s' & E & _). exists rv, s'. split; [done|].
    eapply rtc_r; [exact Hre|]. by eapply step_unregister.
Qed.

End Refinement.

(** ** Runs *)

(** Nodes of 12 bytes from an address. *)
Definition pool_addr (i : nat) : Z := 0x401008 + 12 * Z.of_nat i.

Definition reg (s : cbr_state) (e : list Z) (f prio : Z) : cbr_state :=
  match ml_register_cbr pool_addr s e f prio true true with Some (_, s) => s | None => s end.

Lemma reg_reach s m e f prio :
  (match ml_register_cbr pool_addr s e f prio true true with Some (rv, _) => rv =? 0 | None => false end) = true ->
  (if find_record pool_addr s e true then true else false) = true -> valid_event e -> f <> 0 ->
  cbr_reach pool_addr s m -> cbr_reach pool_addr (reg s e f prio) (upd m e (insert_prio (f, prio) (m e))).
Proof.
  intros E Hfind He Hf Hr. eapply rtc_r; [exact Hr|]. unfold reg.
  destruct (ml_register_cbr _ _ _ _ _ _ _) as [[rv s']|] eqn:E2; [|done]. apply Z.eqb_eq in E. subst rv.
  eapply step_register; [done|done| |exact E2]. by destruct (find_record pool_addr s e true).
Qed.

Definition ev1 : list Z := [114; 101; 99].
Definition ev_s1 : cbr_state := reg _ml_cbr_init ev1 4096 5.
Definition ev_s2 : cbr_state := reg ev_s1 ev1 8192 9.

Lemma ev1_valid : valid_event ev1.
Proof. split; [done|]. split; [by repeat constructor|simpl; lia]. Qed.

Lemma ev_s2_reach : cbr_reach pool_addr ev_s2
  (upd (upd (fun _ => []) ev1 [(4096, 5)]) ev1 (insert_prio (8192, 9) (upd (fun _ => []) ev1 [(4096, 5)] ev1))).
Proof.
  apply reg_reach; [by vm_compute|by vm_compute|apply ev1_valid|done|].
  change [(4096, 5)] with (insert_prio (4096, 5) ((fun _ : list Z => @nil (Z * Z)) ev1)).
  apply reg_reach; [by vm_compute|by vm_compute|apply ev1_valid|done|]. constructor.
Qed.

Lemma cbr_notify_refines_witness :
  ml_notify_cbr pool_addr ev_s2 ev1 (fun _ => 1) = Some [8192; 4096].
Proof. apply (cbr_notify_refines pool_addr ev_s2 _ ev1 (fun _ => 1) ev_s2_reach ev1_valid). Defined.

Lemma cbr_operations_refine_witness :
  exists rv s', ml_unregister_cbr pool_addr ev_s2 ev1 8192 = Some (rv, s') /\
    exists m, m ev1 = [(4096, 5)] /\ cbr_reach pool_addr s' m.
Proof.
  destruct (cbr_operations_refine pool_addr ev_s2 _ ev1 8192 0 true true ev_s2_reach ev1_valid ltac:(done))
    as [_ (rv & s' & E & H)].
  exists rv, s'. split; [exact E|]. eexists. split; [|exact H]. vm_compute. reflexivity.
Defined.

(** An event name of 16 characters. *)
Definition ev16 : list Z := [114; 101; 99; 95; 102; 114; 97; 109; 101; 95; 115; 97; 118; 105; 110; 103].

(** The names of 256 events. *)
Definition ev_nr (k : nat) : list Z := [69; 65 + Z.of_nat k / 16; 65 + Z.of_nat k mod 16].

(** Two registrations that report success and are never notified: one for
    an event name of 16 characters, which is stored without terminating NUL, and
    one for the 256th event, whose record in the new arena gets no name. *)
Theorem cbr_registration_lost :
  ml_notify_cbr pool_addr (reg _ml_cbr_init ev16 4096 5) ev16 (fun _ => 1) = Some [] /\
  let full := foldl (fun s k => reg s (ev_nr k) 4096 5) _ml_cbr_init (seq 0 255) in
  (fst <$> ml_register_cbr pool_addr full (ev_nr 255) 4096 5 true true) = Some 0 /\
  ml_notify_cbr pool_addr full (ev_nr 254) (fun _ => 1) = Some [4096] /\
  ml_notify_cbr pool_addr (reg full (ev_nr 255) 4096 5) (ev_nr 255) (fun _ => 1) = Some [].
Proof. vm_compute. by split_and!. Qed.
