(* ===== verification/Config.v ===== *)
(** * Configuration variables ([src/src/config.c], [src/src/config.h])

    Integer settings are saved as text lines [name = value] and parsed back at
    startup.  A C string is the list of its characters without the terminating
    NUL; the integers the settings live in are a map from their addresses.
    [behind] is the byte behind the structure a line is parsed into, which a
    long line overwrites. *)
From S2P Require Import Prelude.

(** Character codes of a string literal. *)
Definition chars (s : string) : list Z :=
  map (fun a => Z.of_nat (Ascii.nat_of_ascii a)) (String.list_ascii_of_string s).

Definition CR : Z := 13.
Definition LF : Z := 10.

Definition MAX_NAME_LEN : nat := 64.
Definition MAX_VALUE_LEN : nat := 60.
Definition MAX_SIZE : Z := 10240.

(** ** The C library

    [strchr] finds the terminating NUL as well. *)
Definition isspace (x : Z) : bool := existsb (Z.eqb x) [32; 13; 10; 9; 0].
Definition isdigit (x : Z) : bool := (48 <=? x) && (x <=? 57).

Fixpoint skip_space (l : list Z) : list Z :=
  match l with
  | c :: r => if isspace c then skip_space r else l
  | [] => []
  end.

Fixpoint digits_val (acc : Z) (l : list Z) : Z :=
  match l with
  | c :: r => if isdigit c then digits_val (acc * 10 + (c - 48)) r else acc
  | [] => acc
  end.

Definition atoi (l : list Z) : Z :=
  match skip_space l with
  | 45 :: r => - digits_val 0 r
  | 43 :: r => digits_val 0 r
  | r => digits_val 0 r
  end.

(** Decimal digits of a number, at least one. *)
Fixpoint digits (fuel : nat) (n : Z) (acc : list Z) : list Z :=
  match fuel with
  | O => acc
  | S fuel => let acc := 48 + n mod 10 :: acc in if n / 10 =? 0 then acc else digits fuel (n / 10) acc
  end.

(** The conversion [%d] of a 32-bit integer, and [%0wd] of a positive one. *)
Definition print_d (v : Z) : list Z :=
  if v <? 0 then 45 :: digits 10 (- v) [] else digits 10 v [].
Definition print_0d (w : nat) (v : Z) : list Z :=
  let d := print_d v in replicate (w - length d) 48 ++ d.

(** The text [snprintf] writes; the size given to the firmware's [vsnprintf] is
    one less, and wraps. *)
Definition snprintf (max_len : Z) (text : list Z) : list Z := take (Z.to_nat (u32 (max_len - 1))) text.

(** ** Parsing *)

Record config := mk_config { cfg_name : list Z; cfg_value : list Z }.

(** Copy the name, [n] characters at most. *)
Fixpoint copy_name (n : nat) (line : list Z) : list Z * list Z :=
  match n, line with
  | S n, c :: r =>
    if isspace c || (c =? 61) then ([], line)
    else let '(name, r) := copy_name n r in (c :: name, r)
  | _, _ => ([], line)
  end.

Definition trim_end (v : list Z) : list Z := reverse (skip_space (reverse v)).

(** [None]: parse error.  The terminating NULs go to [name[length cfg_name]] and
    [value[length cfg_value]].  The second is behind the structure when the value
    fills its array: [behind] is the byte there, before and after. *)
Definition config_parse_line (line : list Z) (behind : Z) : option config * Z :=
  let '(name, r) := copy_name MAX_NAME_LEN (skip_space line) in
  if bool_decide (length name = MAX_NAME_LEN) then (None, behind)
  else match skip_space r with
       | 61 :: r =>
         let v := trim_end (take MAX_VALUE_LEN (skip_space r)) in
         (Some (mk_config name v), if bool_decide (length v = MAX_VALUE_LEN) then 0 else behind)
       | _ => (None, behind)
       end.

(** The line buffer has room for [n] more characters.  [None]: end of file, or
    the buffer is full. *)
Fixpoint read_line (file : list Z) (n : nat) {struct file} : option (list Z) * list Z :=
  match n, file with
  | O, _ => (None, file)
  | _, [] => (None, [])
  | S n', c :: file =>
    if c =? CR then read_line file n
    else if c =? LF then (Some [], file)
    else let '(l, file) := read_line file n' in (cons c <$> l, file)
  end.

Definition LINE_BUF : nat := 1000.

(** The integers, by address. *)
Abbreviation ints := (gmap Z Z).

(** [change_cbr] answers for the old and the new value; 0 as an address is NULL. *)
Record config_var := mk_config_var {
  var_name : list Z;
  value : Z;
  default_value : Z;
  change_cbr : option (Z -> Z -> Z);
}.

Definition get_int (st : ints) (p : Z) : Z := default 0 (st !! p).

(** The first variable of that name. *)
Definition named (name : list Z) (v : config_var) : Prop := var_name v = name.
Global Instance named_dec name v : Decision (named name v).
Proof. unfold named. apply _. Defined.

Definition config_auto_parse (vars : list config_var) (cfg : config) (st : ints) : ints :=
  match list_find (named (cfg_name cfg)) vars with
  | Some (_, v) => <[value v := s32 (atoi (cfg_value cfg))]> st
  | None => st
  end.

(** The loop over the lines of [config_parse] and [module_config_parse]; [act]
    is what is done with a parsed line.  [false]: stopped by a parse error. *)
Fixpoint parse_lines (act : config -> ints -> ints) (fuel : nat) (file : list Z) (st : ints) (behind : Z)
    : option (bool * ints * Z) :=
  match fuel with
  | O => None
  | S fuel =>
    match read_line file LINE_BUF with
    | (None, _) => Some (true, st, behind)
    | (Some buf, file) =>
      let line := c_string buf in
      if bool_decide (head line = Some 35) || bool_decide (line = []) then parse_lines act fuel file st behind
      else match config_parse_line line behind with
           | (None, behind) => Some (false, st, behind)
           | (Some cfg, behind) => parse_lines act fuel file (act cfg st) behind
           end
    end
  end.

Definition config_parse (vars : list config_var) (file : list Z) (st : ints) (behind : Z) : option (bool * ints * Z) :=
  parse_lines (config_auto_parse vars) (S (length file)) file st behind.

(** ** Files *)

Abbreviation files := (gmap (list Z) (list Z)).

(** NULL and size 0, if there is no such file. *)
Definition read_entire_file (fs : files) (filename : list Z) : list Z := default [] (fs !! filename).

(** A flag is a file that exists; [created]: the answer of [FIO_CreateFile]. *)
Definition config_flag_file_setting_load (fs : files) (file : list Z) : bool := bool_decide (is_Some (fs !! file)).
Definition config_flag_file_setting_save (fs : files) (file : list Z) (setting created : bool) : files :=
  let fs := delete file fs in
  if setting && created then <[file := []]> fs else fs.

Definition autosave_flag_file (config_dir : list Z) : list Z := snprintf 0x80 (config_dir ++ chars "AUTOSAVE.NEG").

(** The new value of [config_autosave]. *)
Definition config_autosave_toggle (fs : files) (config_dir : list Z) (config_autosave created : bool) : bool * files :=
  let fs := config_flag_file_setting_save fs (autosave_flag_file config_dir) config_autosave created in
  (negb (config_flag_file_setting_load fs (autosave_flag_file config_dir)), fs).

(** The value of [config_autosave], the integers and the byte behind the parsed
    structure. *)
Definition config_parse_file (vars : list config_var) (fs : files) (config_dir filename : list Z) (st : ints) (behind : Z)
    : option (bool * ints * Z) :=
  let config_autosave := negb (config_flag_file_setting_load fs (autosave_flag_file config_dir)) in
  '(_, st, behind) ← config_parse vars (read_entire_file fs filename) st behind;
  Some (config_autosave, st, behind).

(** ** Saving *)

Record tm := mk_tm { tm_sec : Z; tm_min : Z; tm_hour : Z; tm_mday : Z; tm_mon : Z; tm_year : Z }.

(** What the build puts into [version.c]. *)
Record build := mk_build { build_version : list Z; build_id : list Z; build_date : list Z; build_user : list Z }.

Definition save_header1 (b : build) : list Z :=
  chars "# Magic Lantern " ++ build_version b ++ chars " (" ++ build_id b ++ chars ")" ++ [LF] ++
  chars "# Built on " ++ build_date b ++ chars " by " ++ build_user b ++ [LF].

Definition save_header2 (now : tm) : list Z :=
  chars "# Configuration saved on " ++ print_0d 4 (tm_year now + 1900) ++ chars "/" ++ print_0d 2 (tm_mon now + 1) ++
  chars "/" ++ print_0d 2 (tm_mday now) ++ chars " " ++ print_0d 2 (tm_hour now) ++ chars ":" ++
  print_0d 2 (tm_min now) ++ chars ":" ++ print_0d 2 (tm_sec now) ++ [LF].

(** [snprintf(msg + strlen(msg), MAX_SIZE - strlen(msg) - k, ...)] *)
Definition append (k : Z) (msg text : list Z) : list Z :=
  msg ++ snprintf (MAX_SIZE - Z.of_nat (length msg) - k) text.

Definition save_line (v : config_var) (x : Z) : list Z :=
  var_name v ++ chars " = " ++ print_d x ++ [CR; LF].

(** The loop over the variables: those that are not at their default. *)
Fixpoint save_vars (vars : list config_var) (st : ints) (msg : list Z) (count : Z) : list Z * Z :=
  match vars with
  | [] => (msg, count)
  | v :: vars =>
    if get_int st (value v) =? default_value v then save_vars vars st msg count
    else save_vars vars st (append 1 msg (save_line v (get_int st (value v)))) (count + 1)
  end.

(** [created]: the answer of [FIO_CreateFile].  The allocation of the buffer is
    not checked by the code, and taken to succeed. *)
Definition config_save_file (b : build) (now : tm) (vars : list config_var) (st : ints) (created : bool)
    (fs : files) (filename : list Z) : Z * files :=
  let msg := snprintf MAX_SIZE (save_header1 b) in
  let msg := append 0 msg (save_header2 now) in
  let '(msg, count) := save_vars vars st msg 0 in
  if created then (count, <[filename := msg]> fs) else (-1, fs).

(** ** Modules *)

Record module_entry := mk_module_entry {
  mod_name : list Z; mod_filename : list Z;
  mod_config : option (list config_var); valid : bool }.

(** Every variable of that name is set. *)
Definition module_auto_parse (vars : list config_var) (cfg : config) (st : ints) : ints :=
  foldl (fun st v => if bool_decide (cfg_name cfg = var_name v)
                     then <[value v := s32 (atoi (cfg_value cfg))]> st else st) st vars.

Definition module_config_parse (m : module_entry) (file : list Z) (st : ints) (behind : Z) : option (ints * Z) :=
  '(_, st, behind) ← parse_lines (module_auto_parse (default [] (mod_config m))) (S (length file)) file st behind;
  Some (st, behind).

Definition module_config_load (fs : files) (filename : list Z) (m : module_entry) (st : ints) (behind : Z)
    : option (Z * ints * Z) :=
  match mod_config m, fs !! filename with
  | None, _ | _, None => Some (-1, st, behind)
  | Some _, Some file => '(st, behind) ← module_config_parse m file st behind; Some (0, st, behind)
  end.

Definition module_config_save (fs : files) (filename : list Z) (m : module_entry) (st : ints) (created : bool)
    : Z * files :=
  match mod_config m with
  | None => (-1, fs)
  | Some vars =>
    let msg := snprintf MAX_SIZE
      (chars "# Config file for module " ++ mod_name m ++ chars " (" ++ mod_filename m ++ chars ")" ++ [LF; LF]) in
    let '(msg, count) := save_vars vars st msg 0 in
    if count =? 0 then (0, delete filename fs)
    else if created then (0, <[filename := msg]> fs) else (-1, fs)
  end.

(** The variable of a module, by name or by address. *)
Definition module_vars (ms : list module_entry) : list config_var :=
  concat (map (fun m => if valid m then default [] (mod_config m) else []) ms).
Definition module_get_config_var (ms : list module_entry) (name : list Z) : option config_var :=
  snd <$> list_find (named name) (module_vars ms).
Definition module_config_var_lookup (ms : list module_entry) (ptr : Z) : option config_var :=
  snd <$> list_find (fun v => value v = ptr) (module_vars ms).

(** ** Access by name and by address *)

Definition config_var_lookup (vars : list config_var) (ms : list module_entry) (ptr : Z) : option config_var :=
  match list_find (fun v => value v = ptr) vars with
  | Some (_, v) => Some v
  | None => module_config_var_lookup ms ptr
  end.

Definition get_config_var_struct (vars : list config_var) (ms : list module_entry) (name : list Z) : option config_var :=
  match list_find (named name) vars with
  | Some (_, v) => Some v
  | None => module_get_config_var ms name
  end.

Definition get_config_var (vars : list config_var) (ms : list module_entry) (st : ints) (name : list Z) : Z :=
  match get_config_var_struct vars ms name with
  | Some v => if value v =? 0 then 0 else get_int st (value v)
  | None => 0
  end.

Definition set_config_var_struct (var : option config_var) (new_value : Z) (st : ints) : Z * ints :=
  match var with
  | Some v =>
    if value v =? 0 then (0, st)
    else match change_cbr v with
         | Some cbr =>
           let cbr_result := cbr (get_int st (value v)) new_value in
           if cbr_result =? 0 then (0, st) else (cbr_result, <[value v := new_value]> st)
         | None => (1, <[value v := new_value]> st)
         end
  | None => (0, st)
  end.

Definition set_config_var (vars : list config_var) (ms : list module_entry) (name : list Z) (new_value : Z)
    (st : ints) : Z * ints :=
  set_config_var_struct (get_config_var_struct vars ms name) new_value st.

Definition set_config_var_ptr (vars : list config_var) (ms : list module_entry) (ptr new_value : Z) (st : ints)
    : Z * ints :=
  match config_var_lookup vars ms ptr with
  | None => if ptr =? 0 then (0, st) else (1, <[ptr := new_value]> st)
  | v => set_config_var_struct v new_value st
  end.

Definition config_var_was_changed (vars : list config_var) (ms : list module_entry) (st : ints) (ptr : Z) : bool :=
  match config_var_lookup vars ms ptr with
  | None => false
  | Some v => negb (default_value v =? get_int st (value v))
  end.

Definition config_var_restore_default (vars : list config_var) (ms : list module_entry) (ptr : Z) (st : ints)
    : Z * ints :=
  match config_var_lookup vars ms ptr with
  | None => (0, st)
  | Some v => (1, <[value v := default_value v]> st)
  end.
