(* ===== verification/ConfigProps.v ===== *)
(** * Properties of configuration files

    What is saved is read back; any file whatsoever is parsed to an end and
    changes the variables only, or one byte more when a line is long; access by
    name and by address. *)
From S2P Require Import Prelude Config.

(** ** Numbers *)

Lemma digits_acc fuel : forall n acc, exists d, digits fuel n acc = d ++ acc /\ (length d <= fuel)%nat /\
  Forall (fun c => isdigit c = true) d.
Proof.
  induction fuel as [|fuel IH]; intros n acc; simpl.
  - exists []. by repeat constructor.
  - assert (Hd : isdigit (48 + n mod 10) = true).
    { unfold isdigit. pose proof (Z.mod_pos_bound n 10). apply andb_true_intro. rewrite !Z.leb_le. lia. }
    case_match.
    + exists [48 + n mod 10]. split; [done|]. split; [simpl; lia|]. by constructor.
    + destruct (IH (n / 10) (48 + n mod 10 :: acc)) as (d & -> & Hl & Hf).
      exists (d ++ [48 + n mod 10]). rewrite <- (assoc_L (++)), length_app. split; [done|].
      split; [simpl; lia|]. apply Forall_app. split; [done|by constructor].
Qed.

Lemma digits_nonempty fuel n acc : digits (S fuel) n acc <> [].
Proof.
  simpl. case_match; [done|]. destruct (digits_acc fuel (n / 10) (48 + n mod 10 :: acc)) as (d & -> & _).
  by destruct d.
Qed.

(** Reading the digits of [n] before others continues from [n]. *)
Lemma digits_val_digits fuel : forall n acc a, 0 <= n < 10 ^ Z.of_nat fuel -> (0 < fuel)%nat ->
  exists k, digits_val a (digits fuel n acc) = digits_val (a * 10 ^ k + n) acc /\ 0 <= k.
Proof.
  induction fuel as [|fuel IH]; intros n acc a Hn Hf; [lia|]. cbn [digits].
  pose proof (Z.mod_pos_bound n 10) as Hm. pose proof (Z.div_mod n 10) as Hdm.
  assert (Hd : forall x r, digits_val x (48 + n mod 10 :: r) = digits_val (x * 10 + n mod 10) r).
  { intros x r. cbn [digits_val]. unfold isdigit.
    rewrite (proj2 (Z.leb_le 48 _)), (proj2 (Z.leb_le _ 57)) by lia. cbn. f_equal. lia. }
  destruct (n / 10 =? 0) eqn:E.
  - apply Z.eqb_eq in E. exists 1. rewrite Hd. split; [|lia]. f_equal. lia.
  - apply Z.eqb_neq in E. destruct fuel as [|fuel].
    { change (10 ^ Z.of_nat 1) with 10 in Hn. rewrite Z.div_small in E; lia. }
    destruct (IH (n / 10) (48 + n mod 10 :: acc) a) as (k & -> & Hk).
    { split; [apply Z.div_pos; lia|]. apply Z.div_lt_upper_bound; [lia|].
      replace (10 * 10 ^ Z.of_nat (S fuel)) with (10 ^ Z.of_nat (S (S fuel)))
        by (rewrite (Nat2Z.inj_succ (S fuel)), Z.pow_succ_r by lia; lia). lia. }
    { lia. }
    rewrite Hd. exists (k + 1). split; [|lia]. f_equal. rewrite Z.pow_add_r by lia. lia.
Qed.

Lemma skip_space_id c l : isspace c = false -> skip_space (c :: l) = c :: l.
Proof. intros H. simpl. by rewrite H. Qed.

Lemma digit_not_space c : isdigit c = true -> isspace c = false.
Proof.
  unfold isdigit, isspace. rewrite andb_true_iff, !Z.leb_le. intros H. simpl.
  rewrite !orb_false_iff, !Z.eqb_neq. lia.
Qed.

Lemma digits_read n : 0 <= n < 10 ^ 10 -> digits_val 0 (digits 10 n []) = n.
Proof. intros H. destruct (digits_val_digits 10 n [] 0) as (k & -> & _); [done|lia|]. simpl. lia. Qed.

(** [atoi] inverts [%d]. *)
Lemma atoi_print_d v : - 2 ^ 31 <= v < 2 ^ 31 -> atoi (print_d v) = v.
Proof.
  intros Hv. unfold print_d, atoi. destruct (Z.ltb_spec v 0).
  - rewrite skip_space_id by done. rewrite digits_read by lia. lia.
  - destruct (digits_acc 10 v []) as (d & E & _ & Hd). pose proof (digits_nonempty 9 v []) as Hne.
    pose proof (digits_read v) as Hr. rewrite E, app_nil_r in *. destruct d as [|c d]; [done|].
    inversion Hd as [|? ? Hc _]; subst. rewrite skip_space_id by by apply digit_not_space.
    assert (c <> 45 /\ c <> 43) as [H1 H2] by (split; intros ->; done).
    transitivity (digits_val 0 (c :: d)); [|apply Hr; lia].
    unfold isdigit in Hc. apply andb_true_iff in Hc as [Hc1%Z.leb_le Hc2%Z.leb_le].
    destruct c as [|p|p]; try lia. do 6 (destruct p as [p|p|]; try done; try lia).
Qed.

(** The characters of a number: no space, no NUL. *)
Definition plain (c : Z) : Prop := isspace c = false.

Lemma plain_ne c : plain c -> c <> 32 /\ c <> CR /\ c <> LF /\ c <> 9 /\ c <> 0.
Proof. unfold plain, isspace, CR, LF. simpl. rewrite !orb_false_iff, !Z.eqb_neq. tauto. Qed.

Lemma print_d_plain v : Forall plain (print_d v) /\ (1 <= length (print_d v) <= 11)%nat.
Proof.
  assert (H : forall n, Forall plain (digits 10 n []) /\ (1 <= length (digits 10 n []) <= 10)%nat).
  { intros n. pose proof (digits_nonempty 9 n []) as Hne. destruct (digits_acc 10 n []) as (d & E & Hl & Hd).
    rewrite app_nil_r in E. rewrite E in Hne |- *. split.
    - eapply Forall_impl; [exact Hd|]. intros c. apply digit_not_space.
    - destruct d as [|c d]; [done|]. cbn [length] in Hl |- *. lia. }
  unfold print_d. case_match.
  - destruct (H (- v)) as [H1 H2]. split; [by constructor|]. cbn [length]. lia.
  - destruct (H v). split; [done|lia].
Qed.

Lemma print_0d_plain w v : Forall plain (print_0d w v) /\ (length (print_0d w v) <= Nat.max w 11)%nat.
Proof.
  destruct (print_d_plain v) as [H1 H2]. unfold print_0d. rewrite length_app, length_replicate. split; [|lia].
  apply Forall_app. split; [|done]. by apply Forall_replicate.
Qed.

(** ** Lines *)

Definition no_cr (l : list Z) : list Z := filter (fun c => c <> CR) l.

Lemma read_line_ok l : forall n rest, LF ∉ l -> (length l < n)%nat ->
  read_line (l ++ LF :: rest) n = (Some (no_cr l), rest).
Proof.
  induction l as [|c l IH]; intros n rest Hl Hn; destruct n as [|n]; try (simpl in Hn; lia); [done|].
  rewrite not_elem_of_cons in Hl. destruct Hl as [Hc Hl]. cbn [app read_line].
  unfold no_cr. rewrite filter_cons. destruct (c =? CR) eqn:E.
  - apply Z.eqb_eq in E. rewrite decide_False by tauto. apply IH; [done|]. simpl in Hn. lia.
  - apply Z.eqb_neq in E. rewrite decide_True by done.
    rewrite (proj2 (Z.eqb_neq c LF)) by congruence. rewrite IH; [done|done|]. simpl in Hn. lia.
Qed.

Lemma read_line_shorter file : forall n l file', read_line file n = (Some l, file') -> (length file' < length file)%nat.
Proof.
  induction file as [|c file IH]; intros [|n] l file' E; cbn [read_line] in E; try discriminate E.
  destruct (c =? CR); [apply IH in E; simpl; lia|].
  destruct (c =? LF); [injection E as _ <-; simpl; lia|].
  destruct (read_line file n) as [[l'|] f] eqn:E2; [|discriminate E].
  injection E as _ <-. apply IH in E2. simpl. lia.
Qed.

Lemma copy_name_ok name : forall n rest, Forall plain name -> 61 ∉ name -> (length name < n)%nat ->
  copy_name n (name ++ 32 :: rest) = (name, 32 :: rest).
Proof.
  induction name as [|c name IH]; intros [|n] rest Hp H61 Hn; try (simpl in Hn; lia); [done|].
  rewrite not_elem_of_cons in H61. destruct H61 as [Hc H61]. inversion Hp as [|? ? Hc1 Hp']; subst.
  cbn [app copy_name]. rewrite Hc1, (proj2 (Z.eqb_neq c 61)) by congruence. cbn [orb].
  by rewrite IH by (try done; simpl in Hn; lia).
Qed.

Lemma trim_end_plain v : Forall plain v -> trim_end v = v.
Proof.
  intros Hp. unfold trim_end. destruct (reverse v) as [|c r] eqn:E.
  - simpl. apply (f_equal reverse) in E. by rewrite reverse_involutive in E.
  - rewrite skip_space_id, <- E, reverse_involutive; [done|].
    rewrite Forall_forall in Hp. apply Hp. apply elem_of_reverse. rewrite E. left.
Qed.

Lemma chars_eq : chars " = " = [32; 61; 32].
Proof. done. Qed.

(** A saved line is parsed to its name and value. *)
Lemma parse_saved name v behind : name <> [] -> Forall plain name -> 61 ∉ name -> (length name < MAX_NAME_LEN)%nat ->
  config_parse_line (name ++ chars " = " ++ print_d v) behind = (Some (mk_config name (print_d v)), behind).
Proof.
  intros Hne Hp H61 Hl. unfold config_parse_line. rewrite chars_eq. cbn [app].
  destruct (print_d_plain v) as [Hpv Hlv].
  assert (skip_space (name ++ 32 :: 61 :: 32 :: print_d v) = name ++ 32 :: 61 :: 32 :: print_d v) as ->.
  { destruct name as [|c name]; [done|]. inversion Hp. by apply skip_space_id. }
  rewrite copy_name_ok by done. rewrite bool_decide_false by lia.
  assert (skip_space (print_d v) = print_d v) as Hs.
  { destruct (print_d v) as [|c r]; [simpl in Hlv; lia|]. inversion Hpv. by apply skip_space_id. }
  change (skip_space (32 :: 61 :: 32 :: print_d v)) with (61 :: 32 :: print_d v). cbn [skip_space].
  change (isspace 32) with true. cbv iota. rewrite Hs, take_ge by (unfold MAX_VALUE_LEN; lia).
  rewrite trim_end_plain by done. by rewrite bool_decide_false by (unfold MAX_VALUE_LEN; lia).
Qed.

(** A well-formed variable. *)
Record wf_var (v : config_var) : Prop := {
  wv_nonempty : var_name v <> [];
  wv_plain : Forall plain (var_name v);
  wv_eq : 61 ∉ var_name v;
  wv_hash : head (var_name v) <> Some 35;
  wv_len : (length (var_name v) < MAX_NAME_LEN)%nat;
}.

Lemma no_cr_id l : CR ∉ l -> no_cr l = l.
Proof.
  intros H. induction l as [|c l IH]; [done|]. rewrite not_elem_of_cons in H. destruct H as [Hc H].
  unfold no_cr in *. rewrite filter_cons, decide_True by congruence. by rewrite IH.
Qed.

(** The line of [v] in a file, without its line feed. *)
Definition line_of (v : config_var) (x : Z) : list Z := var_name v ++ chars " = " ++ print_d x.

Lemma line_of_plain v x c : wf_var v -> c ∈ line_of v x -> c <> LF /\ c <> CR /\ c <> 0.
Proof.
  intros Hv. unfold line_of. rewrite chars_eq. destruct (print_d_plain x) as [Hp _].
  pose proof (wv_plain _ Hv) as Hn. rewrite Forall_forall in Hp, Hn. rewrite !elem_of_app.
  intros [H|[H|H]].
  - apply Hn, plain_ne in H. tauto.
  - unfold LF, CR. repeat (apply elem_of_cons in H as [->|H]; [lia|]). by apply elem_of_nil in H.
  - apply Hp, plain_ne in H. tauto.
Qed.

(** One saved line in front. *)
Lemma parse_lines_saved act fuel v x rest st behind : wf_var v ->
  parse_lines act (S fuel) (save_line v x ++ rest) st behind =
  parse_lines act fuel rest (act (mk_config (var_name v) (print_d x)) st) behind.
Proof.
  intros Hv. cbn [parse_lines].
  assert (save_line v x ++ rest = (line_of v x ++ [CR]) ++ LF :: rest) as ->.
  { unfold save_line, line_of. by rewrite <- !(assoc_L (++)). }
  assert (Hc : forall c, c ∈ line_of v x -> c <> LF /\ c <> CR /\ c <> 0) by (intros c; by apply line_of_plain).
  assert (Hline : length (line_of v x) = (length (var_name v) + (3 + length (print_d x)))%nat).
  { unfold line_of. rewrite !length_app. done. }
  pose proof (wv_len _ Hv) as Hl. unfold MAX_NAME_LEN in Hl. destruct (print_d_plain x) as [_ Hlx].
  rewrite read_line_ok.
  2:{ rewrite not_elem_of_app, list_elem_of_singleton. split; [|done]. intros H%Hc. tauto. }
  2:{ rewrite length_app. simpl. unfold LINE_BUF. lia. }
  unfold no_cr. rewrite filter_app, filter_cons, filter_nil, decide_False by tauto. rewrite app_nil_r.
  fold (no_cr (line_of v x)). rewrite no_cr_id by (intros H%Hc; tauto).
  rewrite c_string_id.
  2:{ apply Forall_forall. intros c H%Hc. tauto. }
  pose proof (wv_nonempty _ Hv) as Hne. pose proof (wv_hash _ Hv) as Hh.
  rewrite bool_decide_false.
  2:{ unfold line_of. destruct (var_name v); [done|]. done. }
  rewrite bool_decide_false.
  2:{ unfold line_of. by destruct (var_name v). }
  cbn [orb]. unfold line_of. rewrite parse_saved; [done|done|apply Hv|apply Hv|apply Hv].
Qed.

(** A comment line in front. *)
Lemma parse_lines_comment act fuel l rest st behind : LF ∉ l -> (length l < 999)%nat ->
  parse_lines act (S fuel) (35 :: l ++ LF :: rest) st behind = parse_lines act fuel rest st behind.
Proof.
  intros Hl Hn. cbn [parse_lines]. change (35 :: l ++ LF :: rest) with ((35 :: l) ++ LF :: rest).
  rewrite read_line_ok.
  2:{ rewrite not_elem_of_cons. split; [done|exact Hl]. }
  2:{ unfold LINE_BUF. simpl. lia. }
  unfold no_cr. rewrite filter_cons, decide_True by done. cbn [c_string].
  change (35 =? 0) with false. cbv iota. by rewrite bool_decide_true.
Qed.

(** ** What is saved *)

Definition dirty (st : ints) (v : config_var) : Prop := get_int st (value v) <> default_value v.

Definition saved_vars (vars : list config_var) (st : ints) : list config_var := filter (dirty st) vars.

Definition saved_lines (st : ints) (vs : list config_var) : list Z :=
  concat (map (fun v => save_line v (get_int st (value v))) vs).

Lemma append_fits k msg text : 0 <= k -> Z.of_nat (length (msg ++ text)) + 1 + k <= MAX_SIZE ->
  append k msg text = msg ++ text.
Proof.
  intros Hk Hl. rewrite length_app in Hl. unfold append, snprintf. rewrite take_ge; [done|].
  unfold MAX_SIZE in *. rewrite u32_small by lia. lia.
Qed.

Lemma save_vars_fits vars st : forall msg c,
  Z.of_nat (length (msg ++ saved_lines st (saved_vars vars st))) + 2 <= MAX_SIZE ->
  save_vars vars st msg c =
    (msg ++ saved_lines st (saved_vars vars st), c + Z.of_nat (length (saved_vars vars st))).
Proof.
  induction vars as [|v vars IH]; intros msg c Hfit; cbn [save_vars].
  - unfold saved_lines. simpl. rewrite app_nil_r. f_equal. lia.
  - revert Hfit. unfold saved_vars. rewrite filter_cons. destruct (decide (dirty st v)) as [Hd|Hd].
    + rewrite (proj2 (Z.eqb_neq _ _) Hd). cbn [saved_lines map concat]. intros Hfit.
      rewrite append_fits; [|lia|rewrite !length_app in *; lia].
      unfold saved_lines in Hfit. cbn [map concat] in Hfit. rewrite (assoc_L (++)) in Hfit.
      rewrite IH by exact Hfit. unfold saved_lines, saved_vars. cbn [map concat length].
      f_equal; [by rewrite <- (assoc_L (++))|lia].
    + apply dec_stable in Hd. rewrite (proj2 (Z.eqb_eq _ _) Hd). apply IH.
Qed.

Lemma parse_saved_lines act vs st behind : forall fuel st0, Forall wf_var vs -> (length vs < fuel)%nat ->
  parse_lines act fuel (saved_lines st vs) st0 behind =
  Some (true, foldl (fun s v => act (mk_config (var_name v) (print_d (get_int st (value v)))) s) st0 vs, behind).
Proof.
  induction vs as [|v vs IH]; intros [|fuel] st0 Hwf Hf; try (simpl in Hf; lia); [done|].
  inversion Hwf; subst. unfold saved_lines. cbn [map concat]. rewrite parse_lines_saved by done.
  cbn [foldl]. apply IH; [done|]. simpl in Hf. lia.
Qed.

Lemma saved_lines_len st vs : (length vs <= length (saved_lines st vs))%nat.
Proof.
  induction vs as [|v vs IH]; [simpl; lia|].
  change (saved_lines st (v :: vs)) with (save_line v (get_int st (value v)) ++ saved_lines st vs).
  unfold save_line. rewrite !length_app. cbn [length]. lia.
Qed.

(** ** Reading it back *)

Lemma auto_parse_saved vars v x st : NoDup (map var_name vars) -> v ∈ vars -> - 2 ^ 31 <= x < 2 ^ 31 ->
  config_auto_parse vars (mk_config (var_name v) (print_d x)) st = <[value v := x]> st.
Proof.
  intros Hd Hv Hx. unfold config_auto_parse. cbn [cfg_name cfg_value].
  rewrite atoi_print_d, s32_small by done.
  destruct (list_find _ _) as [[i w]|] eqn:E.
  - apply list_find_Some in E as (Hw & Hn & _). apply list_elem_of_lookup in Hv as [j Hj].
    assert (i = j) as ->; [|congruence]. eapply NoDup_lookup; [exact Hd| |].
    + change (map var_name vars) with (var_name <$> vars). by rewrite list_lookup_fmap, Hw.
    + change (map var_name vars) with (var_name <$> vars). rewrite list_lookup_fmap, Hj. simpl. by rewrite Hn.
  - apply list_find_None in E. rewrite Forall_forall in E. by destruct (E v Hv).
Qed.

(** Set every variable of [vs] to its value in [st]. *)
Definition restore (st : ints) (vs : list config_var) (st0 : ints) : ints :=
  foldl (fun s v => <[value v := get_int st (value v)]> s) st0 vs.

Lemma restore_out st vs : forall st0 p, p ∉ map value vs -> restore st vs st0 !! p = st0 !! p.
Proof.
  induction vs as [|v vs IH]; intros st0 p Hp; [done|]. cbn [map] in Hp. rewrite not_elem_of_cons in Hp.
  destruct Hp as [H1 H2]. unfold restore in *. cbn [foldl]. rewrite IH by done. by rewrite lookup_insert_ne.
Qed.

Lemma restore_in st vs : forall st0 v, v ∈ vs -> get_int (restore st vs st0) (value v) = get_int st (value v).
Proof.
  induction vs as [|w vs IH]; intros st0 v Hv; [by apply elem_of_nil in Hv|].
  destruct (decide (value v ∈ map value vs)) as [Hin|Hout].
  - change (map value vs) with (value <$> vs) in Hin. apply list_elem_of_fmap in Hin as (u & E & Hu).
    rewrite E. unfold restore in *. cbn [foldl]. by apply IH.
  - apply elem_of_cons in Hv as [->|Hv].
    + unfold get_int at 1. change (restore st (w :: vs) st0) with (restore st vs (<[value w := get_int st (value w)]> st0)).
      by rewrite restore_out, lookup_insert_eq.
    + destruct Hout. change (map value vs) with (value <$> vs). by apply list_elem_of_fmap_2.
Qed.

Definition in_range (st : ints) (v : config_var) : Prop := - 2 ^ 31 <= get_int st (value v) < 2 ^ 31.

Lemma restore_parse vars st vs : NoDup (map var_name vars) -> (forall v, v ∈ vs -> v ∈ vars /\ in_range st v) ->
  forall st0, foldl (fun s v => config_auto_parse vars (mk_config (var_name v) (print_d (get_int st (value v)))) s) st0 vs
    = restore st vs st0.
Proof.
  intros Hd. induction vs as [|v vs IH]; intros Hin st0; [done|]. unfold restore in *. cbn [foldl].
  destruct (Hin v) as [Hv Hr]; [left|]. rewrite auto_parse_saved by done. apply IH.
  intros w Hw. apply Hin. by right.
Qed.

(** The strings of the build: one line each, not too long. *)
Definition good_build (b : build) : Prop :=
  let all := build_version b ++ build_id b ++ build_date b ++ build_user b in
  LF ∉ all /\ (length all <= 900)%nat.

Definition saved_text (b : build) (now : tm) (vars : list config_var) (st : ints) : list Z :=
  (save_header1 b ++ save_header2 now) ++ saved_lines st (saved_vars vars st).

Lemma lf_dec (l : list Z) : bool_decide (LF ∈ l) = false -> LF ∉ l.
Proof. apply bool_decide_eq_false. Qed.

(** Literal strings in the headers: no line feed, and their lengths. *)
Ltac header_literals :=
  repeat match goal with
  | |- LF ∉ chars _ => apply lf_dec; vm_compute; reflexivity
  | |- LF ∉ drop _ (chars _) => apply lf_dec; vm_compute; reflexivity
  | |- context [length (drop ?n (chars ?s))] =>
      let k := eval vm_compute in (length (drop n (chars s))) in change (length (drop n (chars s))) with k
  | |- context [length (chars ?s)] =>
      let k := eval vm_compute in (length (chars s)) in change (length (chars s)) with k
  end.

Lemma header1_split b : exists l1 l2, save_header1 b = 35 :: l1 ++ LF :: 35 :: l2 ++ [LF] /\
  (good_build b -> LF ∉ l1 /\ LF ∉ l2 /\ (length l1 < 999)%nat /\ (length l2 < 999)%nat).
Proof.
  exists (drop 1 (chars "# Magic Lantern ") ++ build_version b ++ chars " (" ++ build_id b ++ chars ")").
  exists (drop 1 (chars "# Built on ") ++ build_date b ++ chars " by " ++ build_user b). split.
  - unfold save_header1. rewrite <- !(assoc_L (++)). reflexivity.
  - intros [Hlf Hlen]. rewrite !not_elem_of_app in *. rewrite !length_app in *.
    destruct Hlf as (H1 & H2 & H3 & H4). split_and!; header_literals; done || lia.
Qed.

Lemma header2_split now : exists l, save_header2 now = 35 :: l ++ [LF] /\ LF ∉ l /\ (length l < 999)%nat.
Proof.
  assert (Hp : forall w v, LF ∉ print_0d w v).
  { intros w v Hin. destruct (print_0d_plain w v) as [Hp _]. rewrite Forall_forall in Hp.
    apply Hp, plain_ne in Hin. tauto. }
  pose proof (print_0d_plain 4 (tm_year now + 1900)) as [_ L1]. pose proof (print_0d_plain 2 (tm_mon now + 1)) as [_ L2].
  pose proof (print_0d_plain 2 (tm_mday now)) as [_ L3]. pose proof (print_0d_plain 2 (tm_hour now)) as [_ L4].
  pose proof (print_0d_plain 2 (tm_min now)) as [_ L5]. pose proof (print_0d_plain 2 (tm_sec now)) as [_ L6].
  exists (drop 1 (chars "# Configuration saved on ") ++ print_0d 4 (tm_year now + 1900) ++ chars "/" ++
    print_0d 2 (tm_mon now + 1) ++ chars "/" ++ print_0d 2 (tm_mday now) ++ chars " " ++ print_0d 2 (tm_hour now) ++
    chars ":" ++ print_0d 2 (tm_min now) ++ chars ":" ++ print_0d 2 (tm_sec now)).
  split; [|split].
  - unfold save_header2. rewrite <- !(assoc_L (++)). reflexivity.
  - rewrite !not_elem_of_app. split_and!; header_literals; apply Hp.
  - rewrite !length_app. header_literals. lia.
Qed.

Lemma save_text b now vars st created fs filename :
  Z.of_nat (length (saved_text b now vars st)) + 2 <= MAX_SIZE ->
  config_save_file b now vars st created fs filename =
    if created then (Z.of_nat (length (saved_vars vars st)), <[filename := saved_text b now vars st]> fs) else (-1, fs).
Proof.
  intros Hfit. unfold saved_text in Hfit. pose proof Hfit as Hfit'. rewrite length_app, (length_app (save_header1 b)) in Hfit'.
  unfold config_save_file.
  assert (snprintf MAX_SIZE (save_header1 b) = save_header1 b) as ->.
  { unfold snprintf. rewrite take_ge; [done|]. unfold MAX_SIZE in *. rewrite u32_small by lia. lia. }
  rewrite append_fits; [|lia|rewrite length_app; lia]. rewrite save_vars_fits by exact Hfit. done.
Qed.

Lemma parse_text act b now vars st st0 behind : good_build b -> Forall wf_var vars ->
  parse_lines act (S (length (saved_text b now vars st))) (saved_text b now vars st) st0 behind =
  Some (true, foldl (fun s v => act (mk_config (var_name v) (print_d (get_int st (value v)))) s) st0 (saved_vars vars st), behind).
Proof.
  intros Hb Hwf. unfold saved_text. rewrite !length_app.
  destruct (header1_split b) as (l1 & l2 & E1 & (H1 & H2 & H3 & H4)); [done|].
  destruct (header2_split now) as (l3 & E2 & H5 & H6). rewrite E1, E2.
  assert (Heq : forall r, ((35 :: l1 ++ LF :: 35 :: l2 ++ [LF]) ++ 35 :: l3 ++ [LF]) ++ r =
    35 :: l1 ++ LF :: (35 :: l2 ++ LF :: (35 :: l3 ++ LF :: r))).
  { intros r. repeat (progress (cbn [app]; rewrite <- ?(assoc_L (++)))). done. }
  rewrite Heq, parse_lines_comment by done.
  set (n := (length _ + _ + _)%nat). pose proof (saved_lines_len st (saved_vars vars st)) as Hlen.
  assert (Hn : n = S (S (n - 2))). { unfold n. cbn [length]. rewrite !length_app. cbn [length]. rewrite !length_app. cbn [length]. lia. }
  rewrite Hn, !parse_lines_comment by done. apply parse_saved_lines.
  - rewrite Forall_forall in Hwf |- *. intros v [_ Hv]%list_elem_of_filter. by apply Hwf.
  - unfold n. cbn [length]. rewrite !length_app. cbn [length]. rewrite !length_app. cbn [length]. lia.
Qed.

(** C24: A saved configuration is read back.  After [config_save_file], parsing
    the file over variables at their defaults gives every variable the value it
    was saved with, and changes nothing else in memory, not even the byte behind
    the parsed structure. *)
Theorem config_save_parse b now vars st st0 behind fs dir filename : good_build b -> Forall wf_var vars ->
  NoDup (map var_name vars) -> (forall v, v ∈ vars -> in_range st v) ->
  Z.of_nat (length (saved_text b now vars st)) + 2 <= MAX_SIZE ->
  let '(count, fs') := config_save_file b now vars st true fs filename in
  count = Z.of_nat (length (saved_vars vars st)) /\
  exists autosave st', config_parse_file vars fs' dir filename st0 behind = Some (autosave, st', behind) /\
    (forall v, v ∈ vars -> get_int st0 (value v) = default_value v -> get_int st' (value v) = get_int st (value v)) /\
    (forall p, p ∉ map value vars -> st' !! p = st0 !! p).
Proof.
  intros Hb Hwf Hd Hr Hfit. rewrite save_text by done. split; [done|].
  eexists _, (restore st (saved_vars vars st) st0). split_and!.
  - unfold config_parse_file, config_parse, read_entire_file. rewrite lookup_insert_eq. cbn [default id].
    rewrite parse_text by done. cbn. do 3 f_equal. apply restore_parse; [done|].
    intros v Hv%list_elem_of_filter. split; [|apply Hr]; apply Hv.
  - intros v Hv Hdef. destruct (decide (value v ∈ map value (saved_vars vars st))) as [Hin|Hout].
    + change (map value ?l) with (value <$> l) in Hin. apply list_elem_of_fmap in Hin as (u & E & Hu).
      rewrite E. by apply restore_in.
    + unfold get_int at 1. rewrite restore_out by done. fold (get_int st0 (value v)). rewrite Hdef.
      destruct (decide (dirty st v)) as [Hdv|Hdv]; [|by apply dec_stable in Hdv].
      destruct Hout. change (map value ?l) with (value <$> l). apply list_elem_of_fmap_2.
      by apply list_elem_of_filter.
  - intros p Hp. apply restore_out. intros Hin. apply Hp. change (map value ?l) with (value <$> l) in *.
    apply list_elem_of_fmap in Hin as (u & -> & [_ Hu]%list_elem_of_filter). by apply list_elem_of_fmap_2.
Qed.

(** ** Buffers *)

Lemma copy_name_split n : forall line name r, copy_name n line = (name, r) -> line = name ++ r /\ (length name <= n)%nat.
Proof.
  induction n as [|n IH]; intros line name r E; [destruct line; injection E as <- <-; split; [done|simpl; lia|done|simpl; lia]|].
  destruct line as [|c line]; cbn [copy_name] in E; [injection E as <- <-; split; [done|simpl; lia]|].
  destruct (isspace c || (c =? 61)); [injection E as <- <-; split; [done|simpl; lia]|].
  destruct (copy_name n line) as [name' r'] eqn:E2. injection E as <- <-.
  destruct (IH _ _ _ E2) as [-> Hl]. split; [done|simpl; lia].
Qed.

Lemma skip_space_len l : (length (skip_space l) <= length l)%nat.
Proof. induction l as [|c l IH]; simpl; [done|]. case_match; simpl; lia. Qed.

Lemma trim_end_len v : (length (trim_end v) <= length v)%nat.
Proof. unfold trim_end. rewrite length_reverse. pose proof (skip_space_len (reverse v)). by rewrite length_reverse in *. Qed.

(** The buffers of a parsed line.  The name fits with its terminating NUL.
    The value does in every line of at most 60 characters; a longer line can
    fill the buffer, and the NUL is then written behind it. *)
Lemma config_parse_line_bounds :
  forall line behind cfg behind', config_parse_line line behind = (Some cfg, behind') ->
    (length (cfg_name cfg) < MAX_NAME_LEN)%nat /\ (length (cfg_value cfg) <= MAX_VALUE_LEN)%nat /\
    ((length line <= MAX_VALUE_LEN)%nat -> (length (cfg_value cfg) < MAX_VALUE_LEN)%nat) /\
    behind' = if bool_decide (length (cfg_value cfg) = MAX_VALUE_LEN) then 0 else behind.
Proof.
  intros line behind cfg behind'. unfold config_parse_line. destruct (copy_name MAX_NAME_LEN (skip_space line)) as [name r] eqn:E.
  apply copy_name_split in E as [E Hn]. apply (f_equal length) in E. rewrite length_app in E.
  pose proof (skip_space_len line) as H1. pose proof (skip_space_len r) as H2.
  case_bool_decide as Hl; [done|]. destruct (skip_space r) as [|c r']; [done|].
  set (v := trim_end (take MAX_VALUE_LEN (skip_space r'))).
  assert (Hc : c = 61 \/ match c with 61 => (Some (mk_config name v), if bool_decide (length v = MAX_VALUE_LEN) then 0 else behind)
                          | _ => (None, behind) end = (None, behind)).
  { destruct c as [|p|p]; auto. do 6 (destruct p as [p|p|]; auto). }
  destruct Hc as [-> | ->]; [|done]. intros [= <- <-]. cbn [cfg_name cfg_value].
  pose proof (trim_end_len (take MAX_VALUE_LEN (skip_space r'))) as H3. rewrite length_take in H3.
  pose proof (skip_space_len r') as H4. unfold MAX_NAME_LEN, MAX_VALUE_LEN in *. cbn [length] in H2.
  split; [lia|]. split; [fold v in H3; lia|]. split; [fold v in H3; lia|done].
Qed.

(** ** Any file *)

(** A stretch of the file without a line feed that is longer than a value. *)
Definition long_line (file : list Z) : Prop :=
  exists pre l post, file = pre ++ l ++ post /\ LF ∉ l /\ (MAX_VALUE_LEN < length l)%nat.

Lemma read_line_split file : forall n buf file', read_line file n = (Some buf, file') ->
  exists l, file = l ++ LF :: file' /\ LF ∉ l /\ (length buf <= length l)%nat.
Proof.
  induction file as [|c file IH]; intros [|n] buf file' E; cbn [read_line] in E; try discriminate E.
  destruct (Z.eqb_spec c CR) as [->|Hc].
  - destruct (IH _ _ _ E) as (l & -> & Hl & Hn). exists (CR :: l). split; [done|]. split; [|cbn; lia].
    rewrite not_elem_of_cons. by split.
  - destruct (Z.eqb_spec c LF) as [->|Hf]; [injection E as <- <-; exists []; split; [done|]; split; [apply not_elem_of_nil|done]|].
    destruct (read_line file n) as [[b|] f] eqn:E2; [|discriminate E]. injection E as <- <-.
    destruct (IH _ _ _ E2) as (l & -> & Hl & Hn). exists (c :: l). split; [done|]. split; [|cbn; lia].
    rewrite not_elem_of_cons. split; [congruence|done].
Qed.

Lemma c_string_short l : (length (c_string l) <= length l)%nat.
Proof. induction l as [|c l IH]; cbn [c_string]; [done|]. case_match; cbn [length]; lia. Qed.

(** A line that is not long leaves the byte behind the structure alone. *)
Lemma parse_line_behind file n buf file' behind :
  read_line file n = (Some buf, file') ->
  let b := (config_parse_line (c_string buf) behind).2 in (b = behind \/ b = 0) /\ (b <> behind -> long_line file).
Proof.
  intros E b. destruct (config_parse_line (c_string buf) behind) as [[cfg|] b'] eqn:Ec; subst b; cbn [snd].
  - destruct (config_parse_line_bounds _ _ _ _ Ec) as (_ & _ & Hs & ->). case_bool_decide as Hl; [|by split; [left|]].
    split; [by right|]. intros _. apply read_line_split in E as (l & -> & Hlf & Hn). exists [], l, (LF :: file'). split; [done|].
    split; [done|]. pose proof (c_string_short buf). destruct (Nat.le_gt_cases (length l) MAX_VALUE_LEN); [lia|done].
  - unfold config_parse_line in Ec. destruct (copy_name _ _) as [name r]. case_bool_decide; [injection Ec as <-; by split; [left|]|].
    assert (b' = behind) as -> by (by repeat case_match; simplify_eq). by split; [left|].
Qed.

Lemma long_line_rest file n buf file' : read_line file n = (Some buf, file') -> long_line file' -> long_line file.
Proof.
  intros (l & -> & _)%read_line_split (pre & l2 & post & -> & H). exists (l ++ LF :: pre), l2, post. split; [|done].
  by rewrite <- (assoc_L (++)).
Qed.

Lemma parse_lines_total act (P : ints -> Prop) : (forall cfg st, P st -> P (act cfg st)) ->
  forall fuel file st behind, P st -> (length file < fuel)%nat ->
  exists ok st' behind', parse_lines act fuel file st behind = Some (ok, st', behind') /\ P st' /\
    (behind' = behind \/ behind' = 0) /\ (behind' <> behind -> long_line file).
Proof.
  intros Hact. induction fuel as [|fuel IH]; intros file st behind HP Hf; [lia|]. cbn [parse_lines].
  destruct (read_line file LINE_BUF) as [[buf|] file'] eqn:E; [|exists true, st, behind; split_and!; auto; done].
  pose proof (read_line_shorter _ _ _ _ E) as Hs. pose proof (long_line_rest _ _ _ _ E) as Hl. case_goal.
  { destruct (IH file' st behind HP ltac:(lia)) as (ok & st' & b & -> & HP' & Hb & Hb'). exists ok, st', b. split_and!; auto. }
  destruct (parse_line_behind _ _ _ _ behind E) as [H1 H2].
  destruct (config_parse_line (c_string buf) behind) as [[cfg|] b1]; cbn [snd] in H1, H2; [|exists false, st, b1; split_and!; auto].
  destruct (IH file' (act cfg st) b1 (Hact _ _ HP) ltac:(lia)) as (ok & st' & b & -> & HP' & Hb & Hb').
  exists ok, st', b. split_and!; [done|done|intuition congruence|]. intros Hne. destruct (decide (b = b1)) as [->|]; auto.
Qed.

(** C39: Any file whatsoever is parsed to an end.  Of the integers it changes at
    most those of the variables, and leaves a 32-bit value in each it sets.  The
    byte behind the structure that lines are parsed into is kept as it was, or
    cleared; it is kept when no line of the file has more than 60 characters,
    and it is cleared by some files. *)
Theorem config_parse_any_file vars fs dir filename st0 behind :
  (exists autosave st' behind', config_parse_file vars fs dir filename st0 behind = Some (autosave, st', behind') /\
    (forall p, p ∉ map value vars -> st' !! p = st0 !! p) /\
    (forall p, st' !! p = st0 !! p \/ - 2 ^ 31 <= get_int st' p < 2 ^ 31) /\
    (behind' = behind \/ behind' = 0) /\ (~ long_line (read_entire_file fs filename) -> behind' = behind)) /\
  exists fs', config_parse_file vars fs' dir filename st0 behind
    = Some (negb (config_flag_file_setting_load fs' (autosave_flag_file dir)), config_auto_parse vars (mk_config (chars "a") (replicate 60 48)) st0, 0).
Proof.
  split.
  - unfold config_parse_file, config_parse.
    set (P := fun st' : ints => (forall p, p ∉ map value vars -> st' !! p = st0 !! p) /\
      (forall p, st' !! p = st0 !! p \/ - 2 ^ 31 <= get_int st' p < 2 ^ 31)).
    destruct (parse_lines_total (config_auto_parse vars) P) with (fuel := S (length (read_entire_file fs filename)))
      (file := read_entire_file fs filename) (st := st0) (behind := behind) as (ok & st' & b & -> & HP & Hb & Hl); [| |lia|].
    + intros cfg st [H1 H2]. unfold config_auto_parse. destruct (list_find _ _) as [[i v]|] eqn:E; [|done].
      apply list_find_Some in E as (Hv & _). split.
      * intros p Hp. rewrite lookup_insert_ne; [by apply H1|]. intros <-. apply Hp.
        change (map value ?l) with (value <$> l). apply list_elem_of_fmap_2. by eapply list_elem_of_lookup_2.
      * intros p. destruct (decide (value v = p)) as [<-|Hne].
        -- right. unfold get_int. rewrite lookup_insert_eq. apply s32_range.
        -- unfold get_int. rewrite lookup_insert_ne by done. apply H2.
    + split; [done|]. by left.
    + eexists _, st', b. split; [reflexivity|]. destruct HP as [H1 H2]. split_and!; auto.
      intros Hn. destruct (decide (b = behind)); [done|]. by destruct Hn; apply Hl.
  - exists {[filename := chars "a=" ++ replicate 60 48 ++ [LF]]}. unfold config_parse_file, config_parse, read_entire_file.
    rewrite lookup_singleton_eq. reflexivity.
Qed.

(** ** Access *)

(** Setting a variable by name either is refused, by its callback or for
    want of the variable, and changes nothing, or it sets exactly that variable,
    and reading by name gives the new value. *)
Theorem config_set_get vars ms name x st :
  let '(rc, st') := set_config_var vars ms name x st in
  (rc = 0 -> st' = st) /\
  (rc <> 0 -> exists v, get_config_var_struct vars ms name = Some v /\ st' = <[value v := x]> st /\
     get_config_var vars ms st' name = x /\
     match change_cbr v with Some f => f (get_int st (value v)) x = rc | None => rc = 1 end).
Proof.
  unfold set_config_var, set_config_var_struct, get_config_var.
  destruct (get_config_var_struct vars ms name) as [v|]; [|done].
  destruct (value v =? 0) eqn:E; [done|].
  destruct (change_cbr v) as [f|] eqn:Ef.
  - destruct (f _ x =? 0) eqn:Er; [done|]. apply Z.eqb_neq in Er. split; [done|]. intros _. exists v.
    rewrite Ef. unfold get_int at 1. by rewrite lookup_insert_eq.
  - split; [done|]. intros _. exists v. rewrite Ef. unfold get_int at 1. by rewrite lookup_insert_eq.
Qed.

(** ** A run *)

Definition demo_build : build := mk_build (chars "v1") (chars "70D.112") (chars "2020-01-01") (chars "me").
Definition demo_vars : list config_var :=
  [mk_config_var (chars "zebra.draw") 4096 0 None; mk_config_var (chars "crop.mode") 8192 1 None].
Definition demo_st : ints := {[4096 := -25; 8192 := 1]}.

Lemma demo_wf : Forall wf_var demo_vars.
Proof.
  assert (H : forall v, (bool_decide (var_name v <> []) && forallb (fun c => negb (isspace c)) (var_name v) &&
    bool_decide (61 ∉ var_name v) && bool_decide (head (var_name v) <> Some 35) &&
    bool_decide (length (var_name v) < MAX_NAME_LEN)%nat) = true -> wf_var v).
  { intros v. rewrite !andb_true_iff, !bool_decide_eq_true. intros ((((H1 & H2) & H3) & H4) & H5). split; try done.
    apply Forall_forall. intros c Hc. rewrite forallb_forall in H2. apply list_elem_of_In, H2 in Hc.
    by apply negb_true_iff in Hc. }
  repeat constructor; apply H; vm_compute; reflexivity.
Qed.

Lemma config_save_parse_witness :
  let '(count, fs') := config_save_file demo_build (mk_tm 0 30 12 1 0 120) demo_vars demo_st true ∅ (chars "magic.cfg") in
  count = 1 /\
  exists autosave st', config_parse_file demo_vars fs' (chars "ML/") (chars "magic.cfg") {[4096 := 0; 8192 := 1]} 7
      = Some (autosave, st', 7) /\
    get_int st' 4096 = -25.
Proof.
  pose proof (config_save_parse demo_build (mk_tm 0 30 12 1 0 120) demo_vars demo_st {[4096 := 0; 8192 := 1]} 7 ∅
    (chars "ML/") (chars "magic.cfg")) as H.
  destruct (config_save_file _ _ _ _ _ _ _) as [count fs']. destruct H as [H1 (autosave & st' & H2 & H3 & _)].
  - split; [by apply lf_dec; vm_compute|]. vm_compute. lia.
  - apply demo_wf.
  - apply (bool_decide_unpack _). by vm_compute.
  - intros v [->|[->|Hv%elem_of_nil]%elem_of_cons]%elem_of_cons; [..|done]; vm_compute; split; congruence.
  - vm_compute. congruence.
  - split; [exact H1|]. exists autosave, st'. split; [exact H2|].
    apply (H3 (mk_config_var (chars "zebra.draw") 4096 0 None)); [left|reflexivity].
Defined.
