(* ===== verification/Property.v ===== *)
(** * Property handlers ([src/src/property.c])

    The firmware keeps the camera's settings as properties.  The program has one
    handler for all of them, which looks the property up in a table of its own;
    the table also remembers the length each property had when it was first
    seen, and [prop_request_change] checks every change against it.

    The handlers act on a world of their own, [W].  What the build options
    select is a parameter, [PropConfig].  A call that would write behind a table
    has no result.  Messages on the screen and [ASSERT], which only logs, are
    left out. *)
From S2P Require Import Prelude.

Class PropConfig := {
  CONFIG_DIGIC_678X : bool;
  CONFIG_PROP_REQUEST_CHANGE : bool;
  CONFIG_UNREGISTER_PROP : bool;
  CONFIG_40D : bool;
  CONFIG_5DC : bool;
  DIGIC_V_FULLFRAME : bool;       (* CONFIG_DIGIC_V and CONFIG_FULLFRAME *)
  PROP_AFPOINT : Z;
  PROP_VIDEO_MODE : Z;
  prop_handler_deny : list Z;     (* property_whitelist.h of the platform *)
  prop_write_allow : list Z;
}.

Definition PROP_BATTERY_REPORT : Z := 0x8003001D.
Definition TABLE_SIZE : nat := 256.

(** [handler] is 0 for NULL. *)
Record prop_handler := mk_handler {
  property : Z;
  property_length : Z;
  property_ack : Z;
  handler : Z;
}.

(** [slave] is the list of properties [prop_register_slave] was last given. *)
Record prop_state := mk_prop_state {
  actual_num_handlers : nat;
  actual_num_properties : nat;
  property_handlers : list prop_handler;
  property_list : list Z;
  global_token : Z;
  slave : option (list Z);
}.

Definition set_handlers (s : prop_state) (l : list prop_handler) : prop_state :=
  mk_prop_state (actual_num_handlers s) (actual_num_properties s) l (property_list s) (global_token s) (slave s).
Definition set_registration (s : prop_state) (t : Z) (r : option (list Z)) : prop_state :=
  mk_prop_state (actual_num_handlers s) (actual_num_properties s) (property_handlers s) (property_list s) t r.

(** The static variables as the program starts. *)
Definition cold_properties : prop_state :=
  mk_prop_state 0 0 (replicate TABLE_SIZE (mk_handler 0 0 0 0)) (replicate TABLE_SIZE 0) 0 None.

Definition mem_Z (x : Z) (l : list Z) : bool := existsb (Z.eqb x) l.

Section property.
Context `{PropConfig}.

(** ** Registration *)

Definition global_token_handler (s : prop_state) (token : Z) : prop_state := set_registration s token (slave s).

(** The entry keeps the length and the flag that were in its place. *)
Definition prop_add_handler (s : prop_state) (p h : Z) : option prop_state :=
  if CONFIG_DIGIC_678X && mem_Z p prop_handler_deny then Some s
  else match property_handlers s !! actual_num_handlers s with
       | None => None
       | Some e =>
           let handlers := <[actual_num_handlers s := mk_handler p (property_length e) (property_ack e) h]>
                             (property_handlers s) in
           let duplicate := mem_Z p (take (actual_num_properties s) (property_list s)) in
           if duplicate then
             Some (mk_prop_state (S (actual_num_handlers s)) (actual_num_properties s) handlers (property_list s)
                             (global_token s) (slave s))
           else if (actual_num_properties s <? length (property_list s))%nat then
             Some (mk_prop_state (S (actual_num_handlers s)) (S (actual_num_properties s)) handlers
                             (<[actual_num_properties s := p]> (property_list s)) (global_token s) (slave s))
           else None
       end.

(** [internal] is the section of handlers the linker collects. *)
Fixpoint prop_add_internal_handlers (internal : list (Z * Z)) (s : prop_state) : option prop_state :=
  match internal with
  | [] => Some s
  | (p, h) :: internal =>
      match prop_add_handler s p h with
      | Some s => prop_add_internal_handlers internal s
      | None => None
      end
  end.

Definition prop_unregister_handlers (s : prop_state) : prop_state :=
  if CONFIG_UNREGISTER_PROP then
    if negb (global_token s =? 0) then set_registration s 0 None else s
  else s.

Definition prop_register_handlers (s : prop_state) : prop_state :=
  if global_token s =? 0
  then set_registration s (global_token s) (Some (take (actual_num_properties s) (property_list s)))
  else s.

Definition prop_reset_registration (internal : list (Z * Z)) (s : prop_state) : option prop_state :=
  let s := prop_unregister_handlers s in
  let s := mk_prop_state 0 0 (property_handlers s) (property_list s) (global_token s) (slave s) in
  match prop_add_internal_handlers internal s with
  | Some s => Some (prop_register_handlers s)
  | None => None
  end.

Definition prop_update_registration (s : prop_state) : prop_state :=
  prop_register_handlers (prop_unregister_handlers s).

Definition prop_init (internal : list (Z * Z)) (s : prop_state) : option prop_state :=
  prop_reset_registration internal s.

(** ** Events *)

(** A property with its data and length, as the firmware delivers it. *)
Record prop_event := mk_event { ev_property : Z; ev_buf : list Z; ev_len : Z }.

Section world.
Context {W : Type} (call : Z -> prop_event -> W -> W).

(** The loop over the entries in use. *)
Fixpoint dispatch (e : prop_event) (entries : list prop_handler) (w : W) : list prop_handler * W :=
  match entries with
  | [] => ([], w)
  | h :: entries =>
      if property h =? ev_property e then
        let len := if property_length h =? 0 then u16 (ev_len e) else property_length h in
        let h' := mk_handler (property h) len 1 (handler h) in
        let w := if negb (handler h =? 0) then call (handler h) e w else w in
        let '(entries, w) := dispatch e entries w in (h' :: entries, w)
      else let '(entries, w) := dispatch e entries w in (h :: entries, w)
  end.

Definition global_property_handler (e : prop_event) (s : prop_state) (w : W) : prop_state * W :=
  if CONFIG_5DC && (ev_property e =? 0x80010001) then (s, w)
  else
    let n := actual_num_handlers s in
    let '(entries, w) := dispatch e (take n (property_handlers s)) w in
    (set_handlers s (entries ++ drop n (property_handlers s)), w).

Fixpoint deliver (l : list prop_event) (s : prop_state) (w : W) : prop_state * W :=
  match l with
  | [] => (s, w)
  | e :: l => let '(s, w) := global_property_handler e s w in deliver l s w
  end.
End world.

(** ** Changes *)

Fixpoint find_handler (p : Z) (l : list prop_handler) : option prop_handler :=
  match l with
  | [] => None
  | h :: l => if property h =? p then Some h else find_handler p l
  end.

Definition prop_get_prop_len (s : prop_state) (p : Z) : Z :=
  match find_handler p (take (actual_num_handlers s) (property_handlers s)) with
  | Some h => property_length h
  | None => 0
  end.

Definition prop_get_ack (s : prop_state) (p : Z) : Z :=
  match find_handler p (take (actual_num_handlers s) (property_handlers s)) with
  | Some h => property_ack h
  | None => 0
  end.

Definition prop_reset_ack (s : prop_state) (p : Z) : prop_state :=
  let n := actual_num_handlers s in
  set_handlers s
    (((fun h => if property h =? p then mk_handler (property h) (property_length h) 0 (handler h) else h)
        <$> take n (property_handlers s)) ++ drop n (property_handlers s)).

Definition is_prop_allowed (p : Z) : bool := mem_Z p prop_write_allow.

(** What goes to the firmware: the property, the data and the length. *)
Definition prop_request_change (s : prop_state) (p : Z) (addr : list Z) (len : Z) : option (Z * list Z * Z) :=
  if negb CONFIG_PROP_REQUEST_CHANGE then None
  else if CONFIG_40D && negb (p =? PROP_AFPOINT) then None
  else if DIGIC_V_FULLFRAME && (p =? PROP_VIDEO_MODE) then None
  else
    let correct_len := prop_get_prop_len s p in
    let len := if len =? 0 then correct_len else len in
    if len =? 0 then None
    else if negb ((p =? PROP_BATTERY_REPORT) && (len =? 1)) && negb (correct_len =? s32 len) then None
    else if CONFIG_DIGIC_678X && negb (is_prop_allowed p) then None
    else Some (p, addr, len).

Section wait.
Context {W : Type} (call : Z -> prop_event -> W -> W).

(** [sleeps] are the events that arrive during each of the waits to come. *)
Fixpoint wait_ack (n : nat) (p : Z) (sleeps : list (list prop_event)) (s : prop_state) (w : W) : Z * prop_state * W :=
  match n with
  | O => (0, s, w)
  | S n =>
      let '(s, w) := deliver call (default [] (head sleeps)) s w in
      if negb (prop_get_ack s p =? 0) then (1, s, w) else wait_ack n p (tail sleeps) s w
  end.

(** [firmware] is what the request, if any, makes the firmware deliver; the
    result, the state and the world. *)
Definition prop_request_change_wait (firmware : option (Z * list Z * Z) -> list (list prop_event)) (in_PropMgr : bool)
    (s : prop_state) (w : W) (p : Z) (addr : list Z) (len timeout : Z) : Z * prop_state * W :=
  let s := prop_reset_ack s p in
  let request := prop_request_change s p addr len in
  if in_PropMgr then (0, s, w)
  else wait_ack (Z.to_nat (Z.quot timeout 20)) p (firmware request) s w.
End wait.
End property.
