(* ===== verification/PropertyTheorems.v ===== *)
(** * Theorems on the property handlers *)
From S2P Require Import Prelude Property PropertyProps.

Section theorems.
Context `{PropConfig} {W : Type} (call : Z -> prop_event -> W -> W).

Lemma cold_ok : tables_ok cold_properties.
Proof using.
  split; try done.
  - unfold TABLE_SIZE. cbn [actual_num_handlers cold_properties]. lia.
  - apply NoDup_nil_2.
  - unfold spare, cold_properties. cbn [actual_num_handlers property_handlers]. rewrite drop_0.
    by apply Forall_replicate.
Qed.

Definition adds (internal : list (Z * Z)) : list prop_op := (fun r => OAdd r.1 r.2) <$> internal.

Lemma add_internal_run internal s (w : W) :
  run_ops call (adds internal) s w = (fun s => (s, w)) <$> prop_add_internal_handlers internal s.
Proof using.
  revert s. induction internal as [|[p h] internal IH]; intros s; [done|]. cbn.
  destruct (prop_add_handler s p h); [apply IH|done].
Qed.

(** The length of an entry is one the firmware has delivered. *)
Definition lengths_seen (hist : list prop_event) (s : prop_state) : Prop :=
  Forall (fun h => property_length h = 0 \/ exists e, e ∈ hist /\ ev_property e = property h /\ property_length h = u16 (ev_len e))
         (entries s).

Definition events_of (o : prop_op) : list prop_event := match o with OEvent e => [e] | _ => [] end.

Lemma lengths_more hist hist' s : lengths_seen hist s -> lengths_seen (hist ++ hist') s.
Proof using.
  intros L. eapply Forall_impl; [exact L|]. intros h [Hz|(e & He & Hp & Hl)]; [by left|right].
  exists e. rewrite elem_of_app. tauto.
Qed.

Lemma dispatch_lengths hist e l w :
  Forall (fun h => property_length h = 0 \/ exists e, e ∈ hist /\ ev_property e = property h /\ property_length h = u16 (ev_len e)) l ->
  Forall (fun h => property_length h = 0 \/ exists e', e' ∈ hist ++ [e] /\ ev_property e' = property h /\ property_length h = u16 (ev_len e'))
         (dispatch call e l w).1.
Proof using.
  intros F. revert w. induction F as [|h l Hh F IH]; intros w; [constructor|]. cbn [dispatch].
  assert (property_length h = 0 \/ exists e', e' ∈ hist ++ [e] /\ ev_property e' = property h /\ property_length h = u16 (ev_len e')) as Hh'.
  { destruct Hh as [?|(e' & ? & ?)]; [by left|right]. exists e'. rewrite elem_of_app. tauto. }
  destruct (Z.eqb_spec (property h) (ev_property e)) as [Hp|Hp].
  - match goal with |- context [dispatch call e l ?w'] => specialize (IH w'); destruct (dispatch call e l w') as [l' w2] end.
    constructor; [|exact IH]. cbn. destruct (Z.eqb_spec (property_length h) 0); [|done].
    right. exists e. rewrite elem_of_app, list_elem_of_singleton. auto.
  - specialize (IH w). destruct (dispatch call e l w) as [l' w2]. by constructor.
Qed.

Lemma op_lengths o s (w : W) s' w' hist : tables_ok s -> lengths_seen hist s -> run_op call o s w = Some (s', w') ->
  lengths_seen (hist ++ events_of o) s'.
Proof using.
  intros T L R. destruct o as [p h| |t|e|p]; cbn in R.
  - destruct (denied p) eqn:Hd.
    + unfold prop_add_handler in R. unfold denied in Hd. rewrite Hd in R. injection R as <- <-. by apply lengths_more.
    + pose proof (add_spec s p h T Hd) as A. destruct (prop_add_handler s p h) as [s1|]; [|done].
      injection R as <- <-. destruct A as (_ & _ & (e & E & _ & Hz) & _). apply lengths_more.
      unfold lengths_seen. rewrite E. apply Forall_app. split; [exact L|]. constructor; [by left|constructor].
  - injection R as <- <-. destruct (update_spec s T) as [_ E]. apply lengths_more. unfold lengths_seen. by rewrite E.
  - injection R as <- <-. by apply lengths_more.
  - pose proof (event_spec call e s w T) as (_ & _ & _ & E). injection R as R. rewrite R in E. cbn in E.
    unfold lengths_seen. rewrite E. destruct (seen e); [exact (dispatch_lengths hist e _ w L)|]. exact (lengths_more _ [e] _ L).
  - injection R as <- <-. destruct (reset_ack_spec s p T) as (_ & _ & E). apply lengths_more. unfold lengths_seen.
    rewrite E. apply Forall_fmap. eapply Forall_impl; [exact L|]. intros h Hh. cbn. by case_match.
Qed.

Lemma ops_lengths l s (w : W) s' w' hist : tables_ok s -> lengths_seen hist s -> run_ops call l s w = Some (s', w') ->
  lengths_seen (hist ++ (l ≫= events_of)) s'.
Proof using.
  revert s w hist. induction l as [|o l IH]; intros s w hist T L R; cbn in R.
  { injection R as <- <-. cbn. by rewrite app_nil_r. }
  destruct (run_op call o s w) as [[s1 w1]|] eqn:R1; [|done].
  pose proof (op_refines call o s w T) as O. rewrite R1 in O. destruct (spec_op call o (registered s) w) as [reg w2].
  destruct O as (T1 & _). rewrite bind_cons, app_assoc. eapply IH; [done| |done]. by apply (op_lengths o s w s1 w1).
Qed.

Lemma init_spec internal (w : W) :
  match prop_init internal cold_properties with
  | Some s => tables_ok s /\ registered s = (spec_ops call (adds internal) [] w).1 /\ lengths_seen [] s
  | None => (TABLE_SIZE < length (spec_ops call (adds internal) [] w).1)%nat
  end.
Proof using.
  unfold prop_init, prop_reset_registration.
  assert (prop_unregister_handlers cold_properties = cold_properties) as ->
    by (unfold prop_unregister_handlers; by case_goal).
  change (mk_prop_state 0 0 _ _ _ _) with cold_properties.
  pose proof (ops_refine call (adds internal) cold_properties w cold_ok) as R.
  pose proof (ops_lengths (adds internal) cold_properties w) as Len.
  rewrite add_internal_run in R, Len. destruct (prop_add_internal_handlers internal cold_properties) as [s|]; [|done].
  destruct R as [T R]. change (registered cold_properties) with (@nil (Z * Z)) in R. rewrite <- R. cbn [fst].
  specialize (Len s w [] cold_ok (Forall_nil_2 _) eq_refl). cbn [app] in Len.
  assert (adds internal ≫= events_of = []) as Ev by (clear; induction internal; done). rewrite Ev in Len.
  unfold prop_register_handlers. case_goal; [|done]. split_and!; [by apply tables_ok_registration|done..].
Qed.

(** ** Requests *)

Lemma find_entry_Some p l h : find_handler p l = Some h -> h ∈ l /\ property h = p.
Proof using.
  induction l as [|x l IH]; [done|]. cbn. destruct (Z.eqb_spec (property x) p).
  - intros [= ->]. split; [left|done].
  - intros Hf. destruct (IH Hf). split; [by right|done].
Qed.

Lemma length_of hist s p : lengths_seen hist s -> prop_get_prop_len s p <> 0 ->
  exists e, e ∈ hist /\ ev_property e = p /\ prop_get_prop_len s p = u16 (ev_len e).
Proof using.
  unfold prop_get_prop_len. fold (entries s). intros L.
  destruct (find_handler p (entries s)) as [h|] eqn:E; [|done]. apply find_entry_Some in E as [Hh <-].
  pose proof (proj1 (Forall_forall _ _) L h Hh) as [?|?]; done.
Qed.

Lemma request_checked hist s p addr len p' addr' len' :
  0 <= len < 2 ^ 32 -> lengths_seen hist s -> prop_request_change s p addr len = Some (p', addr', len') ->
  p' = p /\ addr' = addr /\ len' <> 0
  /\ (p = PROP_BATTERY_REPORT /\ len' = 1
      \/ exists e, e ∈ hist /\ ev_property e = p /\ u16 (ev_len e) = s32 len')
  /\ (CONFIG_DIGIC_678X = true -> p ∈ prop_write_allow).
Proof using.
  clear call W. intros Hlen L. unfold prop_request_change. do 3 (case_goal; [done|]).
  set (n := if len =? 0 then prop_get_prop_len s p else len).
  destruct (Z.eqb_spec n 0) as [|Hn]; [done|].
  destruct (negb _ && negb _) eqn:Eg; [done|].
  destruct (CONFIG_DIGIC_678X && negb (is_prop_allowed p)) eqn:Ea; [done|]. intros [= <- <- <-].
  split_and!; [done..| |].
  - apply andb_false_iff in Eg as [Eg|Eg]; apply negb_false_iff in Eg; [left; by to_prop|right].
    apply Z.eqb_eq in Eg. destruct (length_of hist s p L) as (e & He & Hp & Hl).
    + intros Hz. rewrite Hz in Eg. unfold n in Hn, Eg. destruct (Z.eqb_spec len 0); [lia|].
      unfold s32 in Eg. Z.div_mod_to_equations. lia.
    + exists e. by rewrite <- Hl.
  - intros E. rewrite E in Ea. cbn in Ea. apply negb_false_iff in Ea. by apply mem_Z_spec.
Qed.

(** C13: after startup ([prop_init]) and any registrations, updates, tokens,
    events and resets of flags, without a further [prop_reset_registration], a
    change of a property reaches the firmware only if its length is the low 16
    bits of the length of some event for that property delivered since startup
    (but for the one-byte request for the battery), never with length 0, and,
    on DIGIC 6 and later, only for a property on the list of writable ones;
    the property and the data are those of the caller. *)
Theorem prop_requests_checked (internal : list (Z * Z)) (l : list prop_op) (s0 s : prop_state) (w0 w : W)
    (p : Z) (addr : list Z) (len : Z) (request : Z * list Z * Z) :
  prop_init internal cold_properties = Some s0 -> run_ops call l s0 w0 = Some (s, w) -> 0 <= len < 2 ^ 32 ->
  prop_request_change s p addr len = Some request ->
  let '(p', addr', len') := request in
  p' = p /\ addr' = addr /\ len' <> 0
  /\ (p = PROP_BATTERY_REPORT /\ len' = 1
      \/ exists e, OEvent e ∈ l /\ ev_property e = p /\ u16 (ev_len e) = s32 len')
  /\ (CONFIG_DIGIC_678X = true -> p ∈ prop_write_allow).
Proof using.
  intros Hi Hr Hlen Hq. destruct request as [[p' addr'] len'].
  pose proof (init_spec internal w0) as I. rewrite Hi in I. destruct I as (T & _ & L0).
  pose proof (ops_lengths l s0 w0 s w [] T L0 Hr) as L. cbn [app] in L.
  destruct (request_checked _ _ _ _ _ _ _ _ Hlen L Hq) as (-> & -> & Hn & Hc & Ha). split_and!; try done.
  destruct Hc as [?|(e & He & ? & ?)]; [by left|right]. exists e. split; [|done].
  apply list_elem_of_bind in He as (o & Ho & He). destruct o; cbn in Ho; try (by apply not_elem_of_nil in Ho).
  by apply list_elem_of_singleton in Ho as ->.
Qed.

(** C12: the table of handlers refines a list of registrations.  After
    startup and any sequence of registrations, updates, tokens, events and resets
    of flags, the table holds the registrations in order, every event has called
    the handlers of its property in that order, and the list given to the
    firmware has each property once; the tables overflow only when there are more
    than 256 registrations. *)
Theorem prop_programs_refine (internal : list (Z * Z)) (l : list prop_op) (w : W) :
  match prop_init internal cold_properties with
  | Some s0 =>
      match run_ops call l s0 w with
      | Some (s, w') =>
          (registered s, w') = spec_ops call (adds internal ++ l) [] w
          /\ NoDup (known s) /\ (forall p, p ∈ known s <-> p ∈ (registered s).*1)
      | None => (TABLE_SIZE < length (spec_ops call (adds internal ++ l) [] w).1)%nat
      end
  | None => (TABLE_SIZE < length (spec_ops call (adds internal) [] w).1)%nat
  end.
Proof using.
  pose proof (init_spec internal w) as I. destruct (prop_init internal cold_properties) as [s0|]; [|done].
  destruct I as (T & R & _).
  assert (spec_ops call (adds internal ++ l) [] w = spec_ops call l (registered s0) w) as ->.
  { rewrite R. clear. generalize (@nil (Z * Z)). induction internal as [|[p h] internal IH]; intros reg; [done|].
    cbn. apply IH. }
  pose proof (ops_refine call l s0 w T) as O. destruct (run_ops call l s0 w) as [[s w']|]; [|done].
  destruct O as [T' ->]. split_and!; [done|apply T'..].
Qed.

(** ** Waiting *)

Definition is_registered (s : prop_state) (p : Z) : bool := mem_Z p (registered s).*1.

(** The event acknowledges [p]. *)
Definition acks (p : Z) (e : prop_event) : bool := seen e && (ev_property e =? p).

Lemma find_registered s p : is_registered s p = match find_handler p (entries s) with Some _ => true | None => false end.
Proof using.
  unfold is_registered, registered. induction (entries s) as [|h l IH]; [done|]. cbn [find_handler fmap list_fmap].
  unfold mem_Z in *. cbn. rewrite Z.eqb_sym. by destruct (property h =? p).
Qed.

Lemma dispatch_find p e l w :
  find_handler p (dispatch call e l w).1 =
  match find_handler p l with
  | Some h => Some (if ev_property e =? p
                    then mk_handler p (if property_length h =? 0 then u16 (ev_len e) else property_length h) 1 (handler h)
                    else h)
  | None => None
  end.
Proof using.
  revert w. induction l as [|h l IH]; intros w; [done|]. cbn [dispatch find_handler].
  destruct (Z.eqb_spec (property h) (ev_property e)) as [Hp|Hp].
  - match goal with |- context [dispatch call e l ?w'] => specialize (IH w'); destruct (dispatch call e l w') as [l' w2] end.
    cbn [fst find_handler property]. destruct (Z.eqb_spec (property h) p) as [<-|]; [|exact IH].
    by rewrite <- Hp, Z.eqb_refl.
  - specialize (IH w). destruct (dispatch call e l w) as [l' w2]. cbn [fst find_handler].
    destruct (Z.eqb_spec (property h) p) as [<-|]; [|exact IH].
    destruct (Z.eqb_spec (ev_property e) (property h)); congruence.
Qed.

Lemma event_ack e s w p : tables_ok s ->
  prop_get_ack (global_property_handler call e s w).1 p
  = if acks p e && is_registered s p then 1 else prop_get_ack s p.
Proof using.
  intros T. rewrite find_registered. unfold prop_get_ack. fold (entries s) (entries (global_property_handler call e s w).1).
  destruct (event_spec call e s w T) as (_ & _ & _ & ->). unfold acks.
  destruct (seen e); [|done]. rewrite dispatch_find. cbn [andb].
  destruct (find_handler p (entries s)) as [h|]; [|by rewrite andb_false_r].
  rewrite andb_true_r. by destruct (ev_property e =? p).
Qed.

Lemma deliver_ack l s w p : tables_ok s ->
  let r := deliver call l s w in
  tables_ok r.1 /\ registered r.1 = registered s
  /\ prop_get_ack r.1 p = if existsb (acks p) l && is_registered s p then 1 else prop_get_ack s p.
Proof using.
  revert s w. induction l as [|e l IH]; intros s w T; [done|]. cbn [deliver existsb].
  pose proof (event_spec call e s w T) as (T1 & R1 & _). pose proof (event_ack e s w p T) as A1.
  destruct (global_property_handler call e s w) as [s1 w1]. cbn [fst] in *.
  destruct (IH s1 w1 T1) as (T2 & R2 & A2). split_and!; [done|by rewrite R2|].
  rewrite A2, A1. unfold is_registered. rewrite R1. fold (is_registered s p).
  destruct (existsb (acks p) l), (acks p e), (is_registered s p); done.
Qed.

(** A round of waiting that finds the flag. *)
Definition arrives (p : Z) (n : nat) (sleeps : list (list prop_event)) : bool := existsb (existsb (acks p)) (take n sleeps).

Lemma wait_spec n p sleeps s w : tables_ok s -> prop_get_ack s p = 0 ->
  let '(r, s', _) := wait_ack call n p sleeps s w in
  r = (if arrives p n sleeps && is_registered s p then 1 else 0) /\ tables_ok s' /\ registered s' = registered s.
Proof using.
  revert sleeps s w. induction n as [|n IH]; intros sleeps s w T A; [done|]. cbn [wait_ack].
  pose proof (deliver_ack (default [] (head sleeps)) s w p T) as D.
  destruct (deliver call (default [] (head sleeps)) s w) as [s1 w1]. destruct D as (T1 & R1 & A1). cbn [fst] in *.
  assert (arrives p (S n) sleeps = existsb (acks p) (default [] (head sleeps)) || arrives p n (tail sleeps)) as ->
    by (destruct sleeps; [by destruct n|done]).
  rewrite A1, A. destruct (existsb (acks p) (default [] (head sleeps)) && is_registered s p) eqn:E.
  - apply andb_prop in E as [-> ->]. done.
  - cbn [Z.eqb negb]. rewrite A in A1. specialize (IH (tail sleeps) s1 w1 T1 A1).
    destruct (wait_ack call n p (tail sleeps) s1 w1) as [[r s'] w']. destruct IH as (-> & T' & R').
    unfold is_registered. rewrite R1. fold (is_registered s p). split_and!; [|done|by rewrite R'].
    destruct (existsb (acks p) (default [] (head sleeps))), (is_registered s p), (arrives p n (tail sleeps)); done.
Qed.

Lemma reset_ack_zero s p : tables_ok s -> prop_get_ack (prop_reset_ack s p) p = 0.
Proof using.
  intros T. unfold prop_get_ack. fold (entries (prop_reset_ack s p)).
  destruct (reset_ack_spec s p T) as (_ & _ & ->).
  induction (entries s) as [|h l IH]; [done|]. cbn. destruct (Z.eqb_spec (property h) p) as [<-|Hne]; cbn.
  - by rewrite Z.eqb_refl.
  - by rewrite (proj2 (Z.eqb_neq _ _) Hne).
Qed.

(** A wait succeeds exactly when it is not made in the property task, the
    property has a handler, and the property arrives within the time. *)
Theorem prop_wait_exact (internal : list (Z * Z)) (l : list prop_op) (s0 s : prop_state) (w0 w : W)
    (firmware : option (Z * list Z * Z) -> list (list prop_event)) (in_PropMgr : bool) (p : Z) (addr : list Z) (len timeout : Z) :
  prop_init internal cold_properties = Some s0 -> run_ops call l s0 w0 = Some (s, w) ->
  let request := prop_request_change (prop_reset_ack s p) p addr len in
  let '(ret, s', _) := prop_request_change_wait call firmware in_PropMgr s w p addr len timeout in
  ret = (if negb in_PropMgr && is_registered s p && arrives p (Z.to_nat (Z.quot timeout 20)) (firmware request)
         then 1 else 0)
  /\ registered s' = registered s.
Proof using.
  intros Hi Hr. cbv zeta. pose proof (init_spec internal w0) as I. rewrite Hi in I. destruct I as (T0 & _).
  pose proof (ops_refine call l s0 w0 T0) as O. rewrite Hr in O. destruct O as [T _].
  unfold prop_request_change_wait. destruct (reset_ack_spec s p T) as (T1 & R1 & _).
  destruct in_PropMgr; [done|]. cbn [negb andb].
  pose proof (wait_spec (Z.to_nat (Z.quot timeout 20)) p
    (firmware (prop_request_change (prop_reset_ack s p) p addr len)) _ w T1 (reset_ack_zero s p T)) as Wt.
  destruct (wait_ack _ _ _ _ _ _) as [[r s'] w']. destruct Wt as (-> & _ & R2).
  unfold is_registered in *. rewrite R1 in *. split; [|done]. by rewrite andb_comm.
Qed.
End theorems.
