(* ===== verification/FilePrefix.v ===== *)
(** * The prefix of file names ([src/src/fileprefix.c])

    One part of the program at a time may change the prefix the camera gives its
    files; it gets a key with which the old prefix is put back.  The prefix is a
    property, and the code is a client of [Property]: its handler records what
    the firmware reports, [prop_request_change_wait] makes the change.

    Buffers are lists of eight bytes.  [lens_wait_readytotakepic] only waits;
    the random number is an argument. *)
From S2P Require Import Prelude Property PropertyProps PropertyTheorems.

Definition PROP_FILE_PREFIX : Z := 0x1000007.

Record fstate := mk_fstate {
  file_prefix : list Z;
  old_prefix : list Z;
  custom_file_prefix : bool;
  prop_handler_check : bool;
  check_key : Z;
}.

Definition IMG_ : list Z := [0x49; 0x4D; 0x47; 0x5F; 0; 0; 0; 0].
Definition cold_prefix : fstate := mk_fstate IMG_ IMG_ false false 0.

(** [snprintf(dst, 8, "%s", src)]: what is behind the terminator stays. *)
Definition snprintf8 (dst src : list Z) : list Z :=
  let str := take 7 (c_string src) in str ++ 0 :: drop (S (length str)) dst.

(** [*(int* )buf] *)
Definition int_at (buf : list Z) : Z :=
  s32 (foldr (fun b v => b + 256 * v) 0 (take 4 buf)).

Section prefix.
Context `{PropConfig}.
(** The address of the property handler in the table. *)
Context (prefix_handler : Z).

Definition handle_prefix (buf : list Z) (f : fstate) : fstate :=
  mk_fstate (snprintf8 (file_prefix f) buf) (old_prefix f) (custom_file_prefix f) true (check_key f).

Definition call_prefix (h : Z) (e : prop_event) (f : fstate) : fstate :=
  if h =? prefix_handler then handle_prefix (ev_buf e) f else f.

Definition get_file_prefix (f : fstate) : list Z := file_prefix f.

Section calls.
Context (firmware : option (Z * list Z * Z) -> list (list prop_event)) (in_PropMgr : bool).

Definition request_prefix (s : prop_state) (f : fstate) (buf : list Z) : Z * prop_state * fstate :=
  prop_request_change_wait call_prefix firmware in_PropMgr s f PROP_FILE_PREFIX buf 8 1000.

(** The key, or 0 when the request is denied. *)
Definition file_prefix_set (rand : Z) (s : prop_state) (f : fstate) (new_prefix : list Z) : Z * prop_state * fstate :=
  if negb (prop_handler_check f) then (0, s, f)
  else if custom_file_prefix f then (0, s, f)
  else
    let f := mk_fstate (file_prefix f) (snprintf8 (old_prefix f) (file_prefix f)) true
                       (prop_handler_check f) (check_key f) in
    let buf := snprintf8 (replicate 8 0) new_prefix in
    let '(ok, s, f) := request_prefix s f buf in
    if negb (ok =? 0) then
      let f := mk_fstate (file_prefix f) (old_prefix f) (custom_file_prefix f) (prop_handler_check f) rand in
      (s32 (check_key f + Z.lnot (int_at buf)), s, f)
    else (0, s, mk_fstate (file_prefix f) (old_prefix f) false (prop_handler_check f) (check_key f)).

Definition file_prefix_reset (key : Z) (s : prop_state) (f : fstate) : Z * prop_state * fstate :=
  if custom_file_prefix f then
    let expected_key := s32 (check_key f + Z.lnot (int_at (file_prefix f))) in
    if key =? expected_key then
      let '(ok, s, f) := request_prefix s f (old_prefix f) in
      if negb (ok =? 0)
      then (1, s, mk_fstate (file_prefix f) (old_prefix f) false (prop_handler_check f) (check_key f))
      else (0, s, f)
    else (0, s, f)
  else (0, s, f).
End calls.
End prefix.
