(* ===== verification/FilePrefixProps.v ===== *)
(** * The prefix is lent and given back

    With a firmware that reports the prefix it was asked for, whoever gets a key
    has the prefix to itself, nobody else can change it, and the key brings the
    old one back. *)
From S2P Require Import Prelude Property PropertyProps PropertyTheorems FilePrefix.

(** ** Buffers *)

Lemma c_string_nonzero l : Forall (fun c => c <> 0) (c_string l).
Proof. induction l as [|c l IH]; [constructor|]. cbn. destruct (Z.eqb_spec c 0); by constructor. Qed.

Lemma c_string_snprintf8 dst src : c_string (snprintf8 dst src) = take 7 (c_string src).
Proof. unfold snprintf8. apply c_string_app, Forall_take, c_string_nonzero. Qed.

Lemma snprintf8_again dst src : snprintf8 (snprintf8 dst src) src = snprintf8 dst src.
Proof.
  unfold snprintf8. set (str := take 7 (c_string src)). do 2 f_equal.
  rewrite cons_middle, app_assoc, drop_app_length'; [done|]. rewrite length_app. cbn. lia.
Qed.

(** With three characters or more the first word does not depend on what was
    there before. *)
Lemma int_at_snprintf8 d1 d2 src : (3 <= length (c_string src))%nat ->
  int_at (snprintf8 d1 src) = int_at (snprintf8 d2 src).
Proof.
  intros Hl. unfold int_at, snprintf8. do 2 f_equal.
  assert (3 <= length (take 7 (c_string src)))%nat as H3 by (rewrite length_take; lia).
  destruct (take 7 (c_string src)) as [|a [|b [|c [|d l]]]]; cbn in H3; try lia; done.
Qed.

Section client.
Context `{PropConfig} (prefix_handler : Z).
#[local] Abbreviation call := (call_prefix prefix_handler).
#[local] Abbreviation PFP := PROP_FILE_PREFIX.

(** The handler is registered for its property and for no other. *)
Definition prefix_registered (s : prop_state) : Prop :=
  prefix_handler <> 0 /\ (PFP, prefix_handler) ∈ registered s
  /\ forall p, (p, prefix_handler) ∈ registered s -> p = PFP.

Definition carries (b : list Z) (e : prop_event) : Prop := ev_property e = PFP -> ev_buf e = b.

Lemma handle_again b f : handle_prefix b (handle_prefix b f) = handle_prefix b f.
Proof using. unfold handle_prefix. cbn. by rewrite snprintf8_again. Qed.

Lemma calls_other e f l : prefix_handler ∉ l -> foldl (fun w h => call h e w) f l = f.
Proof using.
  revert f. induction l as [|h l IH]; intros f Hn; [done|]. apply not_elem_of_cons in Hn as [Hh Hn]. cbn.
  unfold call_prefix at 2. destruct (Z.eqb_spec h prefix_handler); [congruence|]. by apply IH.
Qed.

Lemma calls_prefix e f l : prefix_handler ∈ l -> foldl (fun w h => call h e w) f l = handle_prefix (ev_buf e) f.
Proof using.
  revert f. induction l as [|h l IH]; intros f Hin; [by apply not_elem_of_nil in Hin|]. cbn.
  unfold call_prefix at 2. destruct (Z.eqb_spec h prefix_handler) as [->|Hne].
  - destruct (decide (prefix_handler ∈ l)); [rewrite IH by done; apply handle_again|by apply calls_other].
  - apply elem_of_cons in Hin as [?|?]; [congruence|]. by apply IH.
Qed.

Lemma in_handlers_of p reg : prefix_handler <> 0 -> prefix_handler ∈ handlers_of p reg <-> (p, prefix_handler) ∈ reg.
Proof using.
  intros Hz. unfold handlers_of. rewrite list_elem_of_fmap. split.
  - intros ([q h] & -> & Hf). apply list_elem_of_filter in Hf as [[<- _] ?]. done.
  - intros Hr. exists (p, prefix_handler). split; [done|]. apply list_elem_of_filter. auto.
Qed.

(** An event changes the prefix when it is one of the prefix. *)
Lemma event_prefix e s f b : tables_ok s -> prefix_registered s -> carries b e ->
  (global_property_handler call e s f).2 = if acks PFP e then handle_prefix b f else f.
Proof using.
  intros T (Hz & Hin & Huniq) Hc. destruct (event_spec call e s f T) as (_ & _ & -> & _). unfold acks.
  destruct (seen e); [|done]. cbn [andb]. destruct (Z.eqb_spec (ev_property e) PFP) as [Hp|Hp].
  - rewrite calls_prefix; [by rewrite Hc|]. rewrite Hp. by apply in_handlers_of.
  - apply calls_other. intros Hh. apply in_handlers_of in Hh; [|done]. by apply Hp, Huniq.
Qed.

Lemma deliver_prefix l s f b : tables_ok s -> prefix_registered s -> Forall (carries b) l ->
  (deliver call l s f).2 = if existsb (acks PFP) l then handle_prefix b f else f.
Proof using.
  revert s f. induction l as [|e l IH]; intros s f T R F; [done|]. apply Forall_cons in F as [Fe F].
  cbn [deliver existsb]. pose proof (event_prefix e s f b T R Fe) as E.
  pose proof (event_spec call e s f T) as (T1 & R1 & _).
  destruct (global_property_handler call e s f) as [s1 f1]. cbn [fst snd] in *. subst f1.
  rewrite IH; [|done|unfold prefix_registered; by rewrite R1|done].
  destruct (acks PFP e); [|done]. cbn [orb]. destruct (existsb _ l); [apply handle_again|done].
Qed.

(** ** The length of a property stays once it is known *)

Lemma event_length e s f p : tables_ok s -> prop_get_prop_len s p <> 0 ->
  prop_get_prop_len (global_property_handler call e s f).1 p = prop_get_prop_len s p.
Proof using.
  intros T. unfold prop_get_prop_len. fold (entries s) (entries (global_property_handler call e s f).1).
  destruct (event_spec call e s f T) as (_ & _ & _ & ->). destruct (seen e); [|done]. rewrite dispatch_find.
  destruct (find_handler p (entries s)) as [h|]; [|done]. intros Hl. destruct (ev_property e =? p); [|done]. cbn.
  by rewrite (proj2 (Z.eqb_neq _ _) Hl).
Qed.

Lemma deliver_length l s f p : tables_ok s -> prop_get_prop_len s p <> 0 ->
  prop_get_prop_len (deliver call l s f).1 p = prop_get_prop_len s p.
Proof using.
  revert s f. induction l as [|e l IH]; intros s f T Hl; [done|]. cbn [deliver].
  pose proof (event_length e s f p T Hl) as E. pose proof (event_spec call e s f T) as (T1 & _).
  destruct (global_property_handler call e s f) as [s1 f1]. cbn [fst] in *. rewrite IH; [done|done|by rewrite E].
Qed.

Lemma reset_ack_length s p q : tables_ok s -> prop_get_prop_len (prop_reset_ack s p) q = prop_get_prop_len s q.
Proof using.
  intros T. unfold prop_get_prop_len. fold (entries s) (entries (prop_reset_ack s p)).
  destruct (reset_ack_spec s p T) as (_ & _ & ->). induction (entries s) as [|h l IH]; [done|]. cbn.
  destruct (property h =? p); cbn; destruct (property h =? q); done.
Qed.

(** ** One change *)

(** The firmware answers a request for the prefix within the time, and reports
    nothing else for it. *)
Definition echoes (firmware : option (Z * list Z * Z) -> list (list prop_event)) : Prop :=
  forall buf, arrives PFP 50 (firmware (Some (PFP, buf, 8))) = true
              /\ Forall (Forall (carries buf)) (firmware (Some (PFP, buf, 8))).

(** Requests for the prefix go through. *)
Definition sendable : Prop :=
  CONFIG_PROP_REQUEST_CHANGE = true /\ (CONFIG_40D = false \/ PFP = PROP_AFPOINT)
  /\ (DIGIC_V_FULLFRAME = false \/ PFP <> PROP_VIDEO_MODE)
  /\ (CONFIG_DIGIC_678X = false \/ PFP ∈ prop_write_allow).

Lemma request_sent s buf : sendable -> prop_get_prop_len s PFP = 8 ->
  prop_request_change s PFP buf 8 = Some (PFP, buf, 8).
Proof using.
  intros (H1 & H2 & H3 & H4) Hl. unfold prop_request_change. rewrite H1, Hl. cbn [negb].
  assert (CONFIG_40D && negb (PFP =? PROP_AFPOINT) = false) as ->.
  { destruct H2 as [->|E]; [done|]. by rewrite E, Z.eqb_refl, andb_false_r. }
  assert (DIGIC_V_FULLFRAME && (PFP =? PROP_VIDEO_MODE) = false) as ->.
  { destruct H3 as [->|E]; [done|]. by rewrite (proj2 (Z.eqb_neq _ _) E), andb_false_r. }
  assert (CONFIG_DIGIC_678X && negb (is_prop_allowed PFP) = false) as ->; [|done].
  destruct H4 as [->|E]; [done|]. unfold is_prop_allowed. by rewrite (proj2 (mem_Z_spec _ _) E), andb_false_r.
Qed.

(** The table is in order and knows the prefix. *)
Record ready (s : prop_state) : Prop := {
  ready_tables : tables_ok s;
  ready_handler : prefix_registered s;
  ready_length : prop_get_prop_len s PFP = 8;
}.

Lemma wait_prefix n sleeps s f b : ready s -> prop_get_ack s PFP = 0 ->
  Forall (Forall (carries b)) sleeps -> arrives PFP n sleeps = true ->
  let '(r, s', f') := wait_ack call n PFP sleeps s f in r = 1 /\ ready s' /\ f' = handle_prefix b f.
Proof using.
  revert sleeps s f. induction n as [|n IH]; intros sleeps s f [T R L] A F Ar; [done|]. cbn [wait_ack].
  destruct sleeps as [|es sleeps]; [done|]. apply Forall_cons in F as [Fe F].
  change (default [] (head (es :: sleeps))) with es. cbn [tail].
  pose proof (deliver_ack call es s f PFP T) as (T1 & R1 & A1).
  pose proof (deliver_prefix es s f b T R Fe) as D. pose proof (deliver_length es s f PFP T ltac:(by rewrite L)) as L1.
  destruct (deliver call es s f) as [s1 f1]. cbn [fst snd] in *.
  assert (is_registered s PFP = true) as Hr.
  { apply mem_Z_spec, list_elem_of_fmap. exists (PFP, prefix_handler). split; [done|apply R]. }
  assert (ready s1) as Y by (split; [done|unfold prefix_registered; by rewrite R1|by rewrite L1]).
  rewrite Hr, andb_true_r, A in A1. rewrite A1. unfold arrives in Ar. cbn [take existsb] in Ar.
  destruct (existsb (acks PFP) es); [done|]. cbn [Z.eqb negb]. subst f1. by apply IH.
Qed.

Lemma change_prefix firmware s f buf : sendable -> echoes firmware -> ready s ->
  let '(ok, s', f') := request_prefix prefix_handler firmware false s f buf in
  ok = 1 /\ ready s' /\ f' = handle_prefix buf f.
Proof using.
  intros Hs He [T R L]. unfold request_prefix, prop_request_change_wait.
  destruct (reset_ack_spec s PFP T) as (T1 & R1 & _).
  rewrite request_sent by (done || by rewrite reset_ack_length). destruct (He buf) as [Ha Hc].
  change (Z.to_nat (Z.quot 1000 20)) with 50%nat.
  apply wait_prefix; [split; [done|unfold prefix_registered; by rewrite R1|by rewrite reset_ack_length]|by apply reset_ack_zero|done..].
Qed.
(** C25: a custom prefix is lent to one part of the program and given back.
    Suppose that the calls are made outside the property task, that requests
    for the prefix are passed on to the firmware, that the firmware answers
    each of them within a second with the prefix asked for and with no other,
    that the handler is registered for the prefix only and has been called,
    and that no custom prefix is set. Then a request for a prefix of three to
    seven characters sets it and returns a key; from then on every other
    request is denied and every other key is refused, without effect; the key
    brings back the prefix there was, cut to seven characters, and the next
    request is possible. *)
Theorem file_prefix_roundtrip (firmware : option (Z * list Z * Z) -> list (list prop_event))
    (s : prop_state) (f : fstate) (rand : Z) (new_prefix : list Z) :
  sendable -> echoes firmware -> ready s ->
  prop_handler_check f = true -> custom_file_prefix f = false -> (3 <= length (c_string new_prefix) <= 7)%nat ->
  let set := file_prefix_set prefix_handler firmware false in
  let reset := file_prefix_reset prefix_handler firmware false in
  exists key s1 f1, set rand s f new_prefix = (key, s1, f1)
    /\ ready s1 /\ c_string (get_file_prefix f1) = c_string new_prefix
    /\ (forall rand' other, set rand' s1 f1 other = (0, s1, f1))
    /\ (forall key', key' <> key -> reset key' s1 f1 = (0, s1, f1))
    /\ exists s2 f2, reset key s1 f1 = (1, s2, f2)
         /\ ready s2 /\ c_string (get_file_prefix f2) = take 7 (c_string (get_file_prefix f))
         /\ custom_file_prefix f2 = false /\ prop_handler_check f2 = true.
Proof using.
  intros Hs He Y Hc Hf Hl set reset.
  pose (f0 := mk_fstate (file_prefix f) (snprintf8 (old_prefix f) (file_prefix f)) true true (check_key f)).
  pose (buf := snprintf8 (replicate 8 0) new_prefix).
  pose proof (change_prefix firmware s f0 buf Hs He Y) as C1.
  destruct (request_prefix prefix_handler firmware false s f0 buf) as [[ok s1] f'] eqn:E1.
  destruct C1 as (-> & Y1 & ->).
  pose (f1 := mk_fstate (snprintf8 (file_prefix f) buf) (old_prefix f0) true true rand).
  assert (c_string buf = c_string new_prefix) as Eb
    by (unfold buf; rewrite c_string_snprintf8; apply take_ge; lia).
  exists (s32 (rand + Z.lnot (int_at buf))), s1, f1.
  assert (int_at (file_prefix f1) = int_at buf) as Ei.
  { unfold f1, buf. cbn [file_prefix]. unfold snprintf8 at 1. fold buf. rewrite Eb.
    fold (snprintf8 (file_prefix f) new_prefix). apply int_at_snprintf8. lia. }
  split_and!; [|done|..].
  - unfold set, file_prefix_set. rewrite Hc, Hf. cbn [negb]. fold f0 buf. by rewrite E1.
  - unfold get_file_prefix. cbn. rewrite c_string_snprintf8, Eb. apply take_ge. lia.
  - done.
  - intros key' Hk. unfold reset, file_prefix_reset. change (custom_file_prefix f1) with true. cbv iota zeta.
    rewrite Ei. change (check_key f1) with rand. by rewrite (proj2 (Z.eqb_neq _ _) Hk).
  - pose proof (change_prefix firmware s1 f1 (old_prefix f1) Hs He Y1) as C2.
    unfold reset, file_prefix_reset. change (custom_file_prefix f1) with true. cbv iota zeta.
    rewrite Ei. change (check_key f1) with rand. rewrite Z.eqb_refl.
    destruct (request_prefix prefix_handler firmware false s1 f1 (old_prefix f1)) as [[ok s2] f2].
    destruct C2 as (-> & Y2 & ->). eexists s2, _. split; [reflexivity|]. split_and!; try done.
    unfold get_file_prefix. cbn [file_prefix handle_prefix old_prefix f1 f0].
    by rewrite !c_string_snprintf8, take_take.
Qed.
End client.

(** ** A camera *)

(** The options of the 70D; the lists of other cameras are empty. *)
#[local] Instance config_70D : PropConfig :=
  {| CONFIG_DIGIC_678X := false; CONFIG_PROP_REQUEST_CHANGE := true; CONFIG_UNREGISTER_PROP := false;
     CONFIG_40D := false; CONFIG_5DC := false; DIGIC_V_FULLFRAME := false; PROP_AFPOINT := 0x8000000A;
     PROP_VIDEO_MODE := 0x80000039; prop_handler_deny := []; prop_write_allow := [] |}.

(** The handler of the prefix and two dummies. *)
Definition ex_internal : list (Z * Z) := [(0x80020014, 0); (PROP_FILE_PREFIX, 0x1000); (0x80020015, 0)].
Definition ex_event (buf : list Z) : prop_event := mk_event PROP_FILE_PREFIX buf 8.
Definition ex_ops : list prop_op := [OToken 5; OEvent (ex_event IMG_)].

Definition ex_firmware (request : option (Z * list Z * Z)) : list (list prop_event) :=
  match request with
  | Some (p, buf, len) => [[]; [mk_event p buf len]]
  | None => []
  end.

Definition ex_start : option (prop_state * fstate) :=
  match prop_init ex_internal cold_properties with
  | Some s => run_ops (call_prefix 0x1000) ex_ops s cold_prefix
  | None => None
  end.

Lemma ex_run : exists s0 s f, prop_init ex_internal cold_properties = Some s0
  /\ run_ops (call_prefix 0x1000) ex_ops s0 cold_prefix = Some (s, f) /\ ex_start = Some (s, f).
Proof.
  unfold ex_start. destruct (prop_init ex_internal cold_properties) as [s0|] eqn:E0; [|by vm_compute in E0].
  destruct (run_ops (call_prefix 0x1000) ex_ops s0 cold_prefix) as [[s f]|] eqn:E1.
  - by exists s0, s, f.
  - vm_compute in E0. injection E0 as <-. by vm_compute in E1.
Qed.

Lemma ex_ready s f : ex_start = Some (s, f) -> ready 0x1000 s /\ prop_handler_check f = true /\ custom_file_prefix f = false.
Proof.
  intros E. destruct ex_run as (s0 & s' & f' & E0 & E1 & E2). assert (s' = s /\ f' = f) as [-> ->] by (rewrite E2 in E; by injection E).
  pose proof (init_spec (call_prefix 0x1000) ex_internal cold_prefix) as I. rewrite E0 in I. destruct I as (T0 & _).
  pose proof (ops_refine (call_prefix 0x1000) ex_ops s0 cold_prefix T0) as O. rewrite E1 in O. destruct O as [T _].
  vm_compute in E. injection E as <- <-. split; [|done]. split; [done| |reflexivity].
  split_and!; [done|right; left|]. intros p Hp.
  assert (p = PROP_FILE_PREFIX \/ p <> PROP_FILE_PREFIX) as [?|Hne] by lia; [done|].
  exfalso. vm_compute in Hp. repeat (apply elem_of_cons in Hp as [Hp|Hp]; [injection Hp; intros; subst; done|]).
  by apply not_elem_of_nil in Hp.
Qed.

Lemma file_prefix_roundtrip_witness :
  exists s f, ex_start = Some (s, f) /\
    exists key s1 f1, file_prefix_set 0x1000 ex_firmware false 42 s f [0x41; 0x42; 0x43; 0x44] = (key, s1, f1)
      /\ exists s2 f2, file_prefix_reset 0x1000 ex_firmware false key s1 f1 = (1, s2, f2)
           /\ c_string (get_file_prefix f2) = take 7 (c_string (get_file_prefix f)).
Proof.
  destruct ex_run as (s0 & s & f & _ & _ & E). exists s, f. split; [done|].
  destruct (ex_ready s f E) as (Y & H1 & H2).
  destruct (file_prefix_roundtrip 0x1000 ex_firmware s f 42 [0x41; 0x42; 0x43; 0x44])
    as (key & s1 & f1 & A & _ & _ & _ & _ & s2 & f2 & B & _ & C & _); [| |exact Y|exact H1|exact H2|cbn; lia|].
  - split_and!; [done|by left..].
  - intros buf. split; [reflexivity|]. repeat constructor.
  - exists key, s1, f1. split; [exact A|]. by exists s2, f2.
Defined.

Lemma prop_requests_checked_witness :
  exists s f request, ex_start = Some (s, f)
    /\ prop_request_change s PROP_FILE_PREFIX IMG_ 0 = Some request /\ request.2 <> 0.
Proof.
  destruct ex_run as (s0 & s & f & E0 & E1 & E).
  destruct (prop_request_change s PROP_FILE_PREFIX IMG_ 0) as [request|] eqn:R.
  - exists s, f, request. split_and!; [done..|].
    pose proof (prop_requests_checked (call_prefix 0x1000) ex_internal ex_ops s0 s cold_prefix f
                  PROP_FILE_PREFIX IMG_ 0 request E0 E1 ltac:(lia) R) as T.
    destruct request as [[p a] n]. apply T.
  - exfalso. vm_compute in E. injection E as <- <-. by vm_compute in R.
Defined.

Lemma prop_wait_exact_witness :
  exists s f, ex_start = Some (s, f)
    /\ (prop_request_change_wait (call_prefix 0x1000) ex_firmware false s f PROP_FILE_PREFIX IMG_ 8 1000).1.1 = 1.
Proof.
  destruct ex_run as (s0 & s & f & E0 & E1 & E). exists s, f. split; [done|].
  pose proof (prop_wait_exact (call_prefix 0x1000) ex_internal ex_ops s0 s cold_prefix f ex_firmware false
                PROP_FILE_PREFIX IMG_ 8 1000 E0 E1) as T. cbv zeta in T.
  destruct (prop_request_change_wait _ _ _ _ _ _ _ _ _) as [[r s'] f'] eqn:R. destruct T as [T _].
  cbn [fst]. rewrite T. clear - E. vm_compute in E. injection E as <- <-. vm_compute. reflexivity.
Defined.
