(* ===== verification/Log.v ===== *)
(** * The disk log ([src/src/log.c])

    A ring buffer that any code may fill, interrupt handlers included, and that
    a task writes to a file.  The callers of [send_log_data] exclude each other
    with [log_mem_sem]; the task reads the buffer without it.  Both copy byte by
    byte here, so every interleaving of a caller and the task is covered.

    The file is the list of bytes written to it: [FIO_CreateFile] and
    [FIO_WriteFile], whose results the code does not look at, succeed.  The
    tests [send_log_data] makes before it takes the semaphore are one step with
    the taking of it. *)
From S2P Require Import Prelude.

Definition MIN_LOG_BUF_SIZE : Z := 0x10000.
Definition MIN_LOG_WRITE_SIZE : Z := 0x1000.

(** ** State *)

(** A caller inside [send_log_data]: the copies still to be made, what
    [buf_next] will be, and the data; then the semaphores. *)
Inductive producer :=
  | PIdle
  | PCopy (copies : list (Z * list Z)) (next : Z) (data : list Z)
  | PWake
  | PGive (ret : Z).

(** [disk_write_task]: not created yet; the test of the loop, the two
    semaphores, the look at [buf_next], the regions still to be written and the
    value for [buf_written]; returned. *)
Inductive writer :=
  | WNone
  | WTest
  | WTake
  | WLook
  | WWrite (regions : list (Z * Z)) (next : Z)
  | WTakeMem (next : Z)
  | WSet (next : Z)
  | WGive
  | WClosed.

(** A semaphore is NULL, or tells whether it can be taken.  [accepted] is not in
    the code: all the data [buf_next] has moved past, in order. *)
Record lstate := mk_log {
  mem : memory;
  buf_start : Z;
  buf_end : Z;
  buf_written : Z;
  buf_next : Z;
  buf_size : Z;
  log_mem_sem : option bool;
  log_disk_sem : option bool;
  log_fp : list Z;
  is_log_enabled : bool;
  stop_logging : bool;
  ml_shutdown_requested : bool;
  prod : producer;
  wtr : writer;
  accepted : list Z;
}.

Definition set_log_mem (s : lstate) (m : memory) : lstate :=
  mk_log m (buf_start s) (buf_end s) (buf_written s) (buf_next s) (buf_size s) (log_mem_sem s)
         (log_disk_sem s) (log_fp s) (is_log_enabled s) (stop_logging s) (ml_shutdown_requested s) (prod s) (wtr s) (accepted s).
Definition set_written (s : lstate) (p : Z) : lstate :=
  mk_log (mem s) (buf_start s) (buf_end s) p (buf_next s) (buf_size s) (log_mem_sem s)
         (log_disk_sem s) (log_fp s) (is_log_enabled s) (stop_logging s) (ml_shutdown_requested s) (prod s) (wtr s) (accepted s).
Definition advance_next (s : lstate) (p : Z) (l : list Z) : lstate :=
  mk_log (mem s) (buf_start s) (buf_end s) (buf_written s) p (buf_size s) (log_mem_sem s)
         (log_disk_sem s) (log_fp s) (is_log_enabled s) (stop_logging s) (ml_shutdown_requested s) (prod s) (wtr s) (accepted s ++ l).
Definition set_mem_sem (s : lstate) (b : bool) : lstate :=
  mk_log (mem s) (buf_start s) (buf_end s) (buf_written s) (buf_next s) (buf_size s) (Some b)
         (log_disk_sem s) (log_fp s) (is_log_enabled s) (stop_logging s) (ml_shutdown_requested s) (prod s) (wtr s) (accepted s).
Definition give_disk_sem (s : lstate)  : lstate :=
  mk_log (mem s) (buf_start s) (buf_end s) (buf_written s) (buf_next s) (buf_size s) (log_mem_sem s)
         ((fun _ => true) <$> log_disk_sem s) (log_fp s) (is_log_enabled s) (stop_logging s) (ml_shutdown_requested s) (prod s) (wtr s) (accepted s).
Definition take_disk_sem (s : lstate)  : lstate :=
  mk_log (mem s) (buf_start s) (buf_end s) (buf_written s) (buf_next s) (buf_size s) (log_mem_sem s)
         (Some false) (log_fp s) (is_log_enabled s) (stop_logging s) (ml_shutdown_requested s) (prod s) (wtr s) (accepted s).
Definition set_log_fp (s : lstate) (l : list Z) : lstate :=
  mk_log (mem s) (buf_start s) (buf_end s) (buf_written s) (buf_next s) (buf_size s) (log_mem_sem s)
         (log_disk_sem s) l (is_log_enabled s) (stop_logging s) (ml_shutdown_requested s) (prod s) (wtr s) (accepted s).
Definition set_enabled (s : lstate) (b : bool) : lstate :=
  mk_log (mem s) (buf_start s) (buf_end s) (buf_written s) (buf_next s) (buf_size s) (log_mem_sem s)
         (log_disk_sem s) (log_fp s) b (stop_logging s) (ml_shutdown_requested s) (prod s) (wtr s) (accepted s).
Definition set_stop (s : lstate)  : lstate :=
  mk_log (mem s) (buf_start s) (buf_end s) (buf_written s) (buf_next s) (buf_size s) (log_mem_sem s)
         (log_disk_sem s) (log_fp s) (is_log_enabled s) true (ml_shutdown_requested s) (prod s) (wtr s) (accepted s).
Definition request_shutdown (s : lstate)  : lstate :=
  mk_log (mem s) (buf_start s) (buf_end s) (buf_written s) (buf_next s) (buf_size s) (log_mem_sem s)
         (log_disk_sem s) (log_fp s) (is_log_enabled s) (stop_logging s) true (prod s) (wtr s) (accepted s).
Definition set_prod (s : lstate) (p : producer) : lstate :=
  mk_log (mem s) (buf_start s) (buf_end s) (buf_written s) (buf_next s) (buf_size s) (log_mem_sem s)
         (log_disk_sem s) (log_fp s) (is_log_enabled s) (stop_logging s) (ml_shutdown_requested s) p (wtr s) (accepted s).
Definition set_wtr (s : lstate) (w : writer) : lstate :=
  mk_log (mem s) (buf_start s) (buf_end s) (buf_written s) (buf_next s) (buf_size s) (log_mem_sem s)
         (log_disk_sem s) (log_fp s) (is_log_enabled s) (stop_logging s) (ml_shutdown_requested s) (prod s) w (accepted s).

Definition enable_logging (s : lstate) : lstate := set_enabled s true.
Definition disable_logging (s : lstate) : lstate := set_enabled s false.
Definition stop_log (s : lstate) : lstate := give_disk_sem (set_stop s).

(** The variables as the program starts. *)
Definition log_cold (m : memory) : lstate :=
  mk_log m 0 0 0 0 0 None None [] true false false PIdle WNone [].

Definition is_null {A} (o : option A) : bool := match o with None => true | Some _ => false end.

(** [filename] is not NULL when true. *)
Definition init_log (s : lstate) (buf size : Z) (filename : bool) : Z * lstate :=
  if negb (buf =? 0) && is_null (log_mem_sem s) && is_null (log_disk_sem s) && filename
     && (MIN_LOG_BUF_SIZE <=? size) && (buf_start s =? 0)
  then (0, mk_log (mem s) buf (u32 (buf + size)) buf buf size (Some true) (Some false) [] (is_log_enabled s)
                  (stop_logging s) (ml_shutdown_requested s) (prod s) WTest (accepted s))
  else (-1, s).

(** ** [send_log_data] *)

(** The copies to make and the new [buf_next], or no room. *)
Definition plan (s : lstate) (data : list Z) : option (list (Z * list Z) * Z) :=
  let size := Z.of_nat (length data) in
  if buf_written s <=? buf_next s then
    let available_space := (buf_end s - buf_next s) + (buf_written s - buf_start s) in
    if available_space <=? size then None
    else
      let unwrap_space := buf_end s - buf_next s in
      if size <? unwrap_space then Some ([(buf_next s, data)], buf_next s + size)
      else
        let remaining_data := drop (Z.to_nat unwrap_space) data in
        let remaining_size := size - unwrap_space in
        let first := (buf_next s, take (Z.to_nat unwrap_space) data) in
        if 0 <? remaining_size
        then Some ([first; (buf_start s, remaining_data)], buf_start s + remaining_size)
        else Some ([first], buf_end s)
  else
    let available_space := buf_written s - buf_next s in
    if available_space <=? size then None
    else Some ([(buf_next s, data)], buf_next s + size).

(** A call up to its first copy: the result when it returns at once, or the
    caller at work with the semaphore taken. *)
Definition send_log_data (s : lstate) (data : list Z) : Z + lstate :=
  if negb (is_log_enabled s) then inl 0
  else if buf_size s <? Z.of_nat (length data) then inl (-1)
  else match log_mem_sem s with
       | None => inl (-4)
       | Some false => inl (-2)
       | Some true =>
           let s := set_mem_sem s false in
           inr (match plan s data with
                | None => set_prod s (PGive (-3))
                | Some (copies, next) => set_prod s (PCopy copies next data)
                end)
       end.

Definition queued_write_size (s : lstate) : Z :=
  if buf_written s <? buf_next s then buf_next s - buf_written s
  else (buf_end s - buf_written s) + (buf_next s - buf_start s).

(** The next access of the caller. *)
Definition prod_step (s : lstate) : option lstate :=
  match prod s with
  | PIdle => None
  | PCopy ((a, x :: l) :: copies) next data =>
      Some (set_prod (set_log_mem s (wr8 (mem s) a x)) (PCopy ((a + 1, l) :: copies) next data))
  | PCopy ((_, []) :: copies) next data => Some (set_prod s (PCopy copies next data))
  | PCopy [] next data => Some (set_prod (advance_next s next data) PWake)
  | PWake =>
      let s := if MIN_LOG_WRITE_SIZE <=? queued_write_size s then give_disk_sem s else s in
      Some (set_prod s (PGive 0))
  | PGive _ => Some (set_prod (set_mem_sem s true) PIdle)
  end.

(** The rest of a call when nothing else runs: its result and the state. *)
Fixpoint run_caller (fuel : nat) (s : lstate) : option (Z * lstate) :=
  match fuel with
  | O => None
  | S fuel =>
      match prod s, prod_step s with
      | PGive ret, Some s' => Some (ret, s')
      | _, Some s' => run_caller fuel s'
      | _, None => None
      end
  end.

Definition send_log_data_str (s : lstate) (str : list Z) : Z + lstate :=
  send_log_data s (c_string str).

(** ** [disk_write_task] *)

(** The next access of the task; [None] when it waits or has returned. *)
Definition wtr_step (s : lstate) : option lstate :=
  match wtr s with
  | WNone | WClosed => None
  | WTest =>
      Some (set_wtr s (if negb (ml_shutdown_requested s) && negb (stop_logging s) then WTake else WClosed))
  | WTake =>
      match log_disk_sem s with
      | Some true => Some (set_wtr (take_disk_sem s) WLook)
      | _ => None
      end
  | WLook =>
      let next := buf_next s in
      Some (set_wtr s
        (if next =? buf_written s then WTest
         else if buf_written s <? next then WWrite [(buf_written s, next - buf_written s)] next
         else WWrite [(buf_written s, buf_end s - buf_written s); (buf_start s, next - buf_start s)] next))
  | WWrite ((a, n) :: regions) next =>
      if 0 <? n
      then Some (set_wtr (set_log_fp s (log_fp s ++ [rd8 (mem s) a])) (WWrite ((a + 1, n - 1) :: regions) next))
      else Some (set_wtr s (WWrite regions next))
  | WWrite [] next => Some (set_wtr s (WTakeMem next))
  | WTakeMem next =>
      match log_mem_sem s with
      | Some true => Some (set_wtr (set_mem_sem s false) (WSet next))
      | _ => None
      end
  | WSet next => Some (set_wtr (set_written s next) WGive)
  | WGive => Some (set_wtr (set_mem_sem s true) WTest)
  end.

(** ** The log as a system

    Calls may be made at any time; a call that returns at once changes nothing.
    Data are bytes, and the buffer given to [init_log] lies in memory. *)
Inductive log_step : lstate -> lstate -> Prop :=
  | step_send s s' data : Forall (fun x => 0 <= x < 256) data -> send_log_data s data = inr s' -> log_step s s'
  | step_prod s s' : prod_step s = Some s' -> log_step s s'
  | step_wtr s s' : wtr_step s = Some s' -> log_step s s'
  | step_enable s : log_step s (enable_logging s)
  | step_disable s : log_step s (disable_logging s)
  | step_stop s : log_step s (stop_log s)
  | step_shutdown s : log_step s (request_shutdown s)
  | step_init s buf size filename : 0 <= buf -> buf + size < 2 ^ 32 -> log_step s (init_log s buf size filename).2.
