(* ===== verification/LogProps.v ===== *)
(** * Correctness of the disk log

    Bytes are counted from the first one accepted.  Byte [k] lives at
    [pos k] while it is in the buffer; a pointer behind [k] bytes is [ptr k],
    which is [buf_end], never [buf_start], after a whole number of turns.  The
    invariant [inv] names the counts of the bytes freed, written and accepted,
    and the theorems say that the log is a bounded queue between its callers and
    the file, whatever the interleaving. *)
From stdpp Require Import relations.
From S2P Require Import Prelude Log.

(** ** Positions in the ring *)

Section ring.
Context (start size : Z) (size_pos : 0 < size).

Definition pos (k : nat) : Z := start + Z.of_nat k mod size.

Definition ptr (k : nat) : Z :=
  match k with O => start | S j => start + Z.of_nat j mod size + 1 end.

Lemma ptr_off k :
  exists c o, ptr k = start + o /\ Z.of_nat k = c * size + o /\ 0 <= c /\ 0 <= o <= size /\ (o = 0 -> k = 0%nat).
Proof using size_pos.
  destruct k as [|j]; simpl.
  - exists 0, 0. lia.
  - exists (Z.of_nat j / size), (Z.of_nat j mod size + 1).
    pose proof (Z.mod_pos_bound (Z.of_nat j) size size_pos).
    pose proof (Z.div_mod (Z.of_nat j) size). pose proof (Z.div_pos (Z.of_nat j) size). lia.
Qed.

Lemma pos_off c o k : Z.of_nat k = c * size + o -> 0 <= o < size -> pos k = start + o.
Proof using size_pos.
  intros Hk Ho. unfold pos. rewrite Hk.
  rewrite (Z.add_comm (c * size)), Z_mod_plus_full, Z.mod_small; lia.
Qed.

Lemma pos_range k : start <= pos k < start + size.
Proof using size_pos. unfold pos. pose proof (Z.mod_pos_bound (Z.of_nat k) size). lia. Qed.

Lemma ptr_range k : start <= ptr k <= start + size.
Proof using size_pos. destruct (ptr_off k) as (c & o & -> & _ & _ & Ho & _). lia. Qed.

Lemma pos_inj i j : (i < j)%nat -> Z.of_nat j - Z.of_nat i < size -> pos i <> pos j.
Proof using size_pos.
  unfold pos. intros Hij Hd He.
  pose proof (Z.div_mod (Z.of_nat i) size). pose proof (Z.div_mod (Z.of_nat j) size).
  assert (Z.of_nat j - Z.of_nat i = size * (Z.of_nat j / size - Z.of_nat i / size)) by lia.
  assert (0 < Z.of_nat j / size - Z.of_nat i / size) by nia. nia.
Qed.

(** Two pointers less than a turn apart: which is first, and how far. *)
Lemma ptr_dist w n :
  (w <= n)%nat -> Z.of_nat n - Z.of_nat w < size ->
  (ptr w <= ptr n /\ Z.of_nat n - Z.of_nat w = ptr n - ptr w)
  \/ (ptr n < ptr w /\ Z.of_nat n - Z.of_nat w = size + ptr n - ptr w).
Proof using size_pos.
  intros Hle Hd.
  destruct (ptr_off w) as (cw & ow & -> & Hw & Cw & Bw & Zw), (ptr_off n) as (cn & on & -> & Hn & Cn & Bn & Zn).
  pose (d := cn - cw).
  assert (Z.of_nat n - Z.of_nat w = d * size + (on - ow)) as E by (rewrite Hn, Hw; unfold d; ring).
  assert (-1 <= d) by nia. assert (d <= 1) by nia.
  assert (d = -1 \/ d = 0 \/ d = 1) as [Hc|[Hc|Hc]] by lia; rewrite Hc in E; [|lia..].
  assert (w = 0%nat) by (apply Zw; lia). assert (n = 0%nat) by lia. nia.
Qed.

Lemma ptr_eq w n : (w <= n)%nat -> Z.of_nat n - Z.of_nat w < size -> ptr n = ptr w -> n = w.
Proof using size_pos. intros Hle Hd He. destruct (ptr_dist w n Hle Hd); lia. Qed.

(** Advancing a pointer inside the buffer, and past its end. *)
Lemma ptr_add k n :
  ptr k + Z.of_nat n <= start + size -> ptr (k + n) = ptr k + Z.of_nat n.
Proof using size_pos.
  intros Hn. destruct n as [|n]; [rewrite Nat.add_0_r; lia|].
  destruct (ptr_off k) as (c & o & Hp & Hk & _ & Ho & _). rewrite Hp in *.
  rewrite Nat.add_succ_r. unfold ptr at 1.
  assert (Z.of_nat (k + n) mod size = o + Z.of_nat n) as ->; [|lia].
  replace (Z.of_nat (k + n)) with (o + Z.of_nat n + c * size) by lia.
  rewrite Z_mod_plus_full, Z.mod_small; lia.
Qed.

Lemma ptr_wrap k n :
  start + size < ptr k + Z.of_nat n -> ptr k + Z.of_nat n <= start + 2 * size ->
  ptr (k + n) = ptr k + Z.of_nat n - size.
Proof using size_pos.
  intros Hn Hm.
  destruct (ptr_off k) as (c & o & Hp & Hk & _ & Ho & _). rewrite Hp in *.
  destruct n as [|n]; [lia|]. rewrite Nat.add_succ_r. unfold ptr at 1.
  assert (Z.of_nat (k + n) mod size = o + Z.of_nat n - size) as ->; [|lia].
  replace (Z.of_nat (k + n)) with (o + Z.of_nat n - size + (c + 1) * size) by lia.
  rewrite Z_mod_plus_full, Z.mod_small; lia.
Qed.

(** A region that does not pass the end holds consecutive bytes. *)
Lemma region_at k n :
  ptr k + Z.of_nat n <= start + size -> seqZ (ptr k) (Z.of_nat n) = pos <$> seq k n.
Proof using size_pos.
  intros Hn. destruct (ptr_off k) as (c & o & Hp & Hk & _ & Ho & _). rewrite Hp in *.
  apply list_eq_same_length with n; [by rewrite length_fmap, length_seq|rewrite length_seqZ; lia|].
  intros i x y Hi Hx Hy. apply lookup_seqZ in Hx as [-> _].
  apply list_lookup_fmap_Some in Hy as (j & -> & Hj).
  apply lookup_seq in Hj as [-> _]. rewrite (pos_off c (o + Z.of_nat i)); lia.
Qed.

(** The bytes from a pointer to the end, then those from the start. *)
Lemma region_wrap k n :
  start + size <= ptr k + Z.of_nat n -> ptr k + Z.of_nat n <= start + 2 * size ->
  seqZ (ptr k) (start + size - ptr k) ++ seqZ start (Z.of_nat n - (start + size - ptr k)) = pos <$> seq k n.
Proof using size_pos.
  intros Hn Hm. set (r := Z.to_nat (start + size - ptr k)).
  pose proof (ptr_range k).
  assert (start + size - ptr k = Z.of_nat r) as -> by lia.
  replace n with (r + (n - r))%nat at 2 by lia.
  rewrite seq_app, fmap_app, region_at by lia. f_equal.
  destruct (ptr_off k) as (c & o & Hp & Hk & _ & Ho & _). rewrite Hp in *.
  apply list_eq_same_length with (n - r)%nat; [by rewrite length_fmap, length_seq|rewrite length_seqZ; lia|].
  intros i x y Hi Hx Hy. apply lookup_seqZ in Hx as [-> _].
  apply list_lookup_fmap_Some in Hy as (j & -> & Hj).
  apply lookup_seq in Hj as [-> _]. rewrite (pos_off (c + 1) (Z.of_nat i)); lia.
Qed.
End ring.

(** ** The invariant *)

Definition reads (l : list (Z * Z)) : list Z := l ≫= (fun r => seqZ r.1 r.2).
Definition writes (l : list (Z * list Z)) : list (Z * Z) :=
  l ≫= (fun r => zip (seqZ r.1 (Z.of_nat (length r.2))) r.2).

Definition byte (x : Z) : Prop := 0 <= x < 256.

Definition caller_holds (p : producer) : bool := match p with PIdle => false | _ => true end.
Definition task_holds (w : writer) : bool := match w with WSet _ | WGive => true | _ => false end.

Section inv.
Context (s : lstate) (freed : nat).
#[local] Abbreviation pos := (pos (buf_start s) (buf_size s)).
#[local] Abbreviation ptr := (ptr (buf_start s) (buf_size s)).
#[local] Abbreviation put := (length (accepted s)).
#[local] Abbreviation got := (length (log_fp s)).

Definition prod_ok : Prop :=
  match prod s with
  | PCopy copies next data =>
      Forall byte data /\ next = ptr (put + length data)
      /\ Z.of_nat (put + length data) - Z.of_nat freed < buf_size s
      /\ exists done, (done <= length data)%nat
         /\ writes copies = zip (pos <$> seq (put + done) (length data - done)) (drop done data)
         /\ forall i x, (i < done)%nat -> data !! i = Some x -> rd8 (mem s) (pos (put + i)) = x
  | _ => True
  end.

Definition wtr_ok : Prop :=
  match wtr s with
  | WNone => False
  | WWrite regions next =>
      exists n, next = ptr (got + n) /\ (got + n <= put)%nat /\ reads regions = pos <$> seq got n
  | WTakeMem next | WSet next => next = ptr got
  | _ => freed = got
  end.

Record live (m0 : memory) : Prop := {
  live_size : MIN_LOG_BUF_SIZE <= buf_size s;
  live_start : buf_start s <> 0;
  live_end : buf_end s = buf_start s + buf_size s;
  live_freed : (freed <= got)%nat;
  live_room : Z.of_nat put - Z.of_nat freed < buf_size s;
  live_written : buf_written s = ptr freed;
  live_next : buf_next s = ptr put;
  live_file : log_fp s `prefix_of` accepted s;
  live_data : forall k x, (got <= k)%nat -> accepted s !! k = Some x -> rd8 (mem s) (pos k) = x;
  live_frame : forall a, a < buf_start s \/ buf_end s <= a -> rd8 (mem s) a = rd8 m0 a;
  live_sem : log_mem_sem s = Some (negb (caller_holds (prod s) || task_holds (wtr s)));
  live_disk : is_Some (log_disk_sem s);
  live_one : caller_holds (prod s) && task_holds (wtr s) = false;
  live_prod : prod_ok;
  live_wtr : wtr_ok;
}.
End inv.

(** Before [init_log] there is no buffer. *)
Definition unborn (m0 : memory) (s : lstate) : Prop :=
  mem s = m0 /\ buf_start s = 0 /\ log_mem_sem s = None /\ log_disk_sem s = None
  /\ log_fp s = [] /\ accepted s = [] /\ prod s = PIdle /\ wtr s = WNone.

Definition inv (m0 : memory) (s : lstate) : Prop := unborn m0 s \/ exists freed, live s freed m0.

Lemma zip_seqZ_cons (a x : Z) (l : list Z) :
  zip (seqZ a (Z.of_nat (length (x :: l)))) (x :: l) = (a, x) :: zip (seqZ (a + 1) (Z.of_nat (length l))) l.
Proof.
  rewrite seqZ_cons by (simpl; lia). cbn [zip zip_with]. f_equal.
  rewrite <- Z.add_1_r. do 2 f_equal. simpl length. lia.
Qed.

(** ** The plan of a call *)

Section plan.
Context (s : lstate) (freed : nat) (m0 : memory) (L : live s freed m0).
#[local] Abbreviation pos := (pos (buf_start s) (buf_size s)).
#[local] Abbreviation ptr := (ptr (buf_start s) (buf_size s)).
#[local] Abbreviation put := (length (accepted s)).

Lemma size_positive : 0 < buf_size s.
Proof using L. pose proof (live_size _ _ _ L). unfold MIN_LOG_BUF_SIZE in *. lia. Qed.

Lemma zip_app_drop (a b : list Z) (l : list Z) :
  (length a <= length l)%nat -> zip a (take (length a) l) ++ zip b (drop (length a) l) = zip (a ++ b) l.
Proof using.
  intros Hl. rewrite <- (take_drop (length a) l) at 3.
  rewrite zip_with_app; [done|]. rewrite length_take. lia.
Qed.

(** The bytes go where their numbers say, and a call is refused just when it
    would fill the buffer. *)
Lemma plan_spec data :
  match plan s data with
  | Some (copies, next) =>
      Z.of_nat (put + length data) - Z.of_nat freed < buf_size s
      /\ next = ptr (put + length data)
      /\ writes copies = zip (pos <$> seq put (length data)) data
  | None => buf_size s <= Z.of_nat (put + length data) - Z.of_nat freed
  end.
Proof using L.
  pose proof size_positive as Hs. pose proof (live_freed _ _ _ L).
  pose proof (prefix_length _ _ (live_file _ _ _ L)).
  pose proof (ptr_dist (buf_start s) _ Hs freed put ltac:(lia) (live_room _ _ _ L)) as Hd.
  pose proof (ptr_range (buf_start s) _ Hs freed). pose proof (ptr_range (buf_start s) _ Hs put).
  unfold plan. rewrite (live_written _ _ _ L), (live_next _ _ _ L), (live_end _ _ _ L).
  destruct (Z.leb_spec (ptr freed) (ptr put)).
  - destruct (Z.leb_spec (buf_start s + buf_size s - ptr put + (ptr freed - buf_start s)) (Z.of_nat (length data))); [lia|].
    destruct (Z.ltb_spec (Z.of_nat (length data)) (buf_start s + buf_size s - ptr put)).
    + split_and!; [lia|symmetry; apply ptr_add; lia|].
      unfold writes. cbn. rewrite app_nil_r, region_at by lia. done.
    + set (u := buf_start s + buf_size s - ptr put) in *.
      pose proof (region_wrap (buf_start s) _ Hs put (length data) ltac:(lia) ltac:(lia)) as Hr.
      fold u in Hr.
      assert (writes [(ptr put, take (Z.to_nat u) data); (buf_start s, drop (Z.to_nat u) data)]
              = zip (pos <$> seq put (length data)) data) as Hw.
      { rewrite <- Hr. unfold writes. cbn. rewrite app_nil_r, length_take, length_drop.
        rewrite <- (zip_app_drop (seqZ (ptr put) u)), length_seqZ by (rewrite length_seqZ; lia).
        repeat f_equal; lia. }
      destruct (Z.ltb_spec 0 (Z.of_nat (length data) - u)).
      * split_and!; [lia| |done]. rewrite (ptr_wrap _ _ Hs) by lia. lia.
      * split_and!; [lia| |].
        -- rewrite (ptr_add _ _ Hs) by lia. lia.
        -- rewrite <- Hw. unfold writes. cbn. rewrite (drop_ge data) by lia. done.
  - destruct (Z.leb_spec (ptr freed - ptr put) (Z.of_nat (length data))); [lia|].
    split_and!; [lia|symmetry; apply ptr_add; lia|].
    unfold writes. cbn. rewrite app_nil_r, region_at by lia. done.
Qed.

(** The regions [disk_write_task] finds hold all the bytes not freed. *)
Lemma look_spec :
  let n := (put - freed)%nat in
  if buf_next s =? buf_written s then n = 0%nat
  else reads (if buf_written s <? buf_next s then [(buf_written s, buf_next s - buf_written s)]
              else [(buf_written s, buf_end s - buf_written s); (buf_start s, buf_next s - buf_start s)])
       = pos <$> seq freed n.
Proof using L.
  intros n. pose proof size_positive as Hs. pose proof (live_freed _ _ _ L).
  pose proof (prefix_length _ _ (live_file _ _ _ L)).
  pose proof (ptr_dist (buf_start s) _ Hs freed put ltac:(lia) (live_room _ _ _ L)) as Hd.
  pose proof (ptr_range (buf_start s) _ Hs freed). pose proof (ptr_range (buf_start s) _ Hs put).
  rewrite (live_written _ _ _ L), (live_next _ _ _ L), (live_end _ _ _ L).
  destruct (Z.eqb_spec (ptr put) (ptr freed)); [lia|].
  destruct (Z.ltb_spec (ptr freed) (ptr put)); unfold reads; cbn; rewrite app_nil_r.
  - rewrite <- (region_at _ _ Hs) by lia. f_equal. lia.
  - rewrite <- (region_wrap _ _ Hs) by lia. do 2 f_equal. lia.
Qed.
End plan.
