(* ===== verification/LogTheorems.v ===== *)
(** * The disk log is a bounded queue

    Every step of the log keeps the invariant of [LogProps]; so the log refines
    a queue of fewer than [buf_size] bytes between its callers and the file, and
    a stop that finds the task waiting writes all there is. *)
From stdpp Require Import relations.
From S2P Require Import Prelude Log LogProps.

(** Splits a goal [live _ _ _] and closes what a step does not touch. *)
Ltac keep_live L :=
  destruct L; constructor; unfold prod_ok, wtr_ok in *; cbn in *; try assumption.

Lemma live_init m0 s buf size filename freed :
  live s freed m0 -> (init_log s buf size filename).2 = s.
Proof.
  intros L. unfold init_log. rewrite (live_sem _ _ _ L). cbn.
  by rewrite andb_false_r.
Qed.

Lemma unborn_init m0 s buf size filename :
  unborn m0 s -> 0 <= buf -> buf + size < 2 ^ 32 -> inv m0 (init_log s buf size filename).2.
Proof.
  intros U Hb Hs. unfold init_log. case_goal; [|by left].
  destruct U as (Hm & Hst & _ & _ & Hf & Ha & Hp & Hw). to_prop.
  right. exists 0%nat.
  constructor; unfold prod_ok, wtr_ok; cbn; rewrite ?Hf, ?Ha, ?Hp, ?Hm; cbn; try done; try lia.
  - unfold MIN_LOG_BUF_SIZE in *. apply u32_small. lia.
  - unfold MIN_LOG_BUF_SIZE in *. lia.
Qed.

Lemma live_send m0 s s' data freed :
  live s freed m0 -> Forall byte data -> send_log_data s data = inr s' -> live s' freed m0.
Proof.
  intros L Hb. unfold send_log_data. do 2 (case_goal; [done|]).
  pose proof (live_sem _ _ _ L) as Hsem. destruct (log_mem_sem s) as [[]|]; [|done..].
  injection Hsem as Hsem. symmetry in Hsem. apply negb_true_iff, orb_false_iff in Hsem as [Hp Hw].
  pose proof (plan_spec s freed m0 L data) as P.
  change (plan (set_mem_sem s false) data) with (plan s data).
  intros [= <-]. destruct (plan s data) as [[copies next]|].
  - destruct P as (P1 & P2 & P3). keep_live L; rewrite ?Hw; try done.
    split_and!; try done. exists 0%nat. rewrite Nat.add_0_r, Nat.sub_0_r, drop_0.
    split_and!; [lia|done|]. intros i x Hi. lia.
  - keep_live L; rewrite ?Hw; done.
Qed.

Lemma live_copy m0 s freed a x l copies next data :
  live s freed m0 -> prod s = PCopy ((a, x :: l) :: copies) next data ->
  live (set_prod (set_log_mem s (wr8 (mem s) a x)) (PCopy ((a + 1, l) :: copies) next data)) freed m0.
Proof.
  intros L Hp. pose proof (size_positive s freed m0 L) as Hs.
  pose proof (live_prod _ _ _ L) as P. unfold prod_ok in P. rewrite Hp in P.
  destruct P as (Hb & -> & Hroom & k & Hk & Hw & Hd).
  unfold writes in Hw. cbn [mbind list_bind fst snd] in Hw. rewrite zip_seqZ_cons in Hw.
  destruct (length data - k)%nat as [|n] eqn:En; [done|].
  destruct (drop k data) as [|y t] eqn:Et; [done|].
  cbn in Hw. injection Hw as -> -> Hw.
  assert (data !! k = Some y) as Hy by (by rewrite <- (Nat.add_0_r k), <- lookup_drop, Et).
  assert (byte y) as By by (by apply (Forall_lookup_1 _ _ _ _ Hb Hy)).
  assert (drop (S k) data = t) as Et'.
  { apply (drop_S _ _ _) in Hy. rewrite Et in Hy. by injection Hy. }
  pose proof (live_freed _ _ _ L). pose proof (prefix_length _ _ (live_file _ _ _ L)).
  keep_live L.
  - intros j z Hj Hz. pose proof (lookup_lt_Some _ _ _ Hz).
    rewrite rd8_wr8_ne; [by apply live_data|].
    apply not_eq_sym, pos_inj; lia.
  - intros b Hout. rewrite rd8_wr8_ne; [by apply live_frame|].
    pose proof (pos_range (buf_start s) _ Hs (length (accepted s) + k)). lia.
  - by rewrite Hp in live_sem.
  - by rewrite Hp in live_one.
  - split_and!; try done. exists (S k). split_and!; [lia| |].
    + rewrite Nat.add_succ_r. replace (length data - S k)%nat with n by lia.
      rewrite Et'. unfold writes. cbn. exact Hw.
    + intros i z Hi Hz. destruct (decide (i = k)) as [->|Hne].
      * rewrite rd8_wr8_eq. assert (z = y) as -> by congruence. apply Z.mod_small. apply By.
      * rewrite rd8_wr8_ne; [apply Hd; [lia|done]|].
        apply not_eq_sym, pos_inj; lia.
Qed.

Lemma live_put m0 s freed next data :
  live s freed m0 -> prod s = PCopy [] next data ->
  live (set_prod (advance_next s next data) PWake) freed m0.
Proof.
  intros L Hp. pose proof (live_prod _ _ _ L) as P. unfold prod_ok in P. rewrite Hp in P.
  destruct P as (Hb & -> & Hroom & k & Hk & Hw & Hd).
  assert (k = length data) as ->.
  { destruct (length data - k)%nat as [|n] eqn:En; [lia|].
    destruct (drop k data) eqn:Et; [|done]. apply (f_equal length) in Et. rewrite length_drop in Et. cbn in Et. lia. }
  pose proof (prefix_length _ _ (live_file _ _ _ L)).
  keep_live L; rewrite ?length_app; try done.
  - by apply prefix_app_r.
  - intros i x Hi. rewrite lookup_app_Some. intros [Hx|[Hge Hx]]; [by apply live_data|].
    replace i with (length (accepted s) + (i - length (accepted s)))%nat at 1 by lia.
    apply Hd; [|done]. by eapply lookup_lt_Some.
  - by rewrite Hp in live_sem.
  - by rewrite Hp in live_one.
  - destruct (wtr s); try done. destruct live_wtr as (n & -> & Hn & Hr). exists n. split_and!; [done|lia|done].
Qed.

Lemma live_prod_step m0 s s' freed :
  live s freed m0 -> prod_step s = Some s' -> live s' freed m0.
Proof.
  intros L. unfold prod_step.
  destruct (prod s) as [|[|[a [|x l]] copies] next data| |ret] eqn:Hp; [done|..]; intros [= <-].
  - by apply live_put.
  - keep_live L; rewrite Hp in *; done.
  - by apply live_copy.
  - case_goal; keep_live L; rewrite Hp in *; first [done|by apply fmap_is_Some].
  - keep_live L; rewrite Hp in *; cbn in *; try done.
    destruct (task_holds (wtr s)); done.
Qed.

(** One byte goes to the file. *)
Lemma live_write m0 s freed a n regions next :
  live s freed m0 -> wtr s = WWrite ((a, n) :: regions) next -> 0 < n ->
  accepted s !! length (log_fp s) = Some (rd8 (mem s) a)
  /\ live (set_wtr (set_log_fp s (log_fp s ++ [rd8 (mem s) a])) (WWrite ((a + 1, n - 1) :: regions) next)) freed m0.
Proof.
  intros L Hw Hn. pose proof (live_wtr _ _ _ L) as P. unfold wtr_ok in P. rewrite Hw in P.
  destruct P as (k & -> & Hk & Hr). unfold reads in Hr. cbn [mbind list_bind fst snd] in Hr.
  rewrite seqZ_cons in Hr by lia. destruct k as [|k]; [done|].
  cbn in Hr. injection Hr as Ha Hr.
  destruct (lookup_lt_is_Some_2 (accepted s) (length (log_fp s))) as [x Hx]; [lia|].
  assert (rd8 (mem s) a = x) as -> by (rewrite Ha; by apply (live_data _ _ _ L)).
  split; [done|]. keep_live L; rewrite ?length_app, ?Nat.add_1_r; cbn; try done.
  - lia.
  - destruct live_file as [t Ht]. rewrite Ht in Hx |- *.
    rewrite lookup_app_r, Nat.sub_diag in Hx by lia.
    destruct t as [|y t]; [done|]. injection Hx as ->. exists t. by rewrite <- app_assoc.
  - intros i y Hi. apply live_data. lia.
  - by rewrite Hw in live_sem.
  - by rewrite Hw in live_one.
  - exists k. split_and!; [by rewrite Nat.add_succ_r|lia|]. unfold reads. cbn.
    rewrite <- Hr. do 2 f_equal; lia.
Qed.

Lemma live_wtr_step m0 s s' freed :
  live s freed m0 -> wtr_step s = Some s' -> exists freed', (freed <= freed')%nat /\ live s' freed' m0.
Proof.
  intros L. pose proof (live_freed _ _ _ L). pose proof (prefix_length _ _ (live_file _ _ _ L)).
  unfold wtr_step. destruct (wtr s) as [| | | |[|[a n] regions] next|next|next| |] eqn:Hw; try done.
  - intros [= <-]. exists freed. split; [done|]. case_goal; keep_live L; rewrite Hw in *; done.
  - destruct (log_disk_sem s) as [[]|]; try done. intros [= <-].
    exists freed. split; [done|]. keep_live L; rewrite Hw in *; done.
  - intros [= <-]. exists freed. split; [done|].
    pose proof (look_spec s freed m0 L) as Hlook. cbn zeta in Hlook.
    assert (freed = length (log_fp s)) as Hf
      by (pose proof (live_wtr _ _ _ L) as W; unfold wtr_ok in W; by rewrite Hw in W).
    case_goal; [keep_live L; rewrite Hw in *; done|].
    case_goal; keep_live L; rewrite Hw in *; try done; rewrite <- Hf;
      exists (length (accepted s) - freed)%nat; (split_and!; [rewrite live_next; f_equal; lia|lia|done]).
  - intros [= <-]. exists freed. split; [done|].
    pose proof (live_wtr _ _ _ L) as W. unfold wtr_ok in W. rewrite Hw in W.
    destruct W as (n & -> & Hn & Hr). destruct n; [|done].
    keep_live L; rewrite Hw in *; try done. by rewrite Nat.add_0_r.
  - case_goal; intros [= <-]; exists freed; (split; [done|]).
    + to_prop. by apply live_write.
    + pose proof (live_wtr _ _ _ L) as W. unfold wtr_ok in W. rewrite Hw in W.
      destruct W as (k & -> & Hk & Hr). to_prop.
      keep_live L; rewrite Hw in *; try done. exists k. split_and!; try done.
      rewrite <- Hr. unfold reads. cbn. by rewrite (seqZ_nil a n) by lia.
  - destruct (log_mem_sem s) as [[]|] eqn:Es; try done. intros [= <-].
    exists freed. split; [done|]. keep_live L; rewrite Hw in *; try done.
    + by rewrite orb_true_r.
    + rewrite Es in live_sem. injection live_sem as Hn. cbn. rewrite andb_true_r.
      symmetry in Hn. by apply negb_true_iff, orb_false_iff in Hn as [-> _].
  - intros [= <-]. exists (length (log_fp s)). split; [done|].
    keep_live L; rewrite Hw in *; try done; [lia|].
    by destruct (prod s).
  - intros [= <-]. exists freed. split; [done|]. keep_live L; rewrite Hw in *; try done.
    + cbn in live_one. rewrite andb_true_r in live_one. by rewrite live_one.
    + by rewrite andb_false_r.
Qed.

(** Only the task's own steps move what is freed. *)
Lemma step_inv m0 s s' : inv m0 s -> log_step s s' -> inv m0 s'.
Proof.
  intros [U|[freed L]] St.
  - pose proof U as (Hm & Hst & Hms & Hds & Hf & Ha & Hp & Hw).
    destruct St as [s s' data _ E|s s' E|s s' E| | | | |].
    + unfold send_log_data in E. rewrite Hms in E. by repeat case_hyp E.
    + unfold prod_step in E. by rewrite Hp in E.
    + unfold wtr_step in E. by rewrite Hw in E.
    + by left.
    + by left.
    + left. unfold unborn, stop_log. cbn. by rewrite Hds.
    + by left.
    + by apply unborn_init.
  - right. destruct St as [s s' data Hb E|s s' E|s s' E| | | | |].
    + exists freed. by eapply live_send.
    + exists freed. by eapply live_prod_step.
    + destruct (live_wtr_step _ _ _ _ L E) as (f & _ & L'). by exists f.
    + exists freed. by keep_live L.
    + exists freed. by keep_live L.
    + exists freed. keep_live L. by apply fmap_is_Some.
    + exists freed. by keep_live L.
    + exists freed. by rewrite (live_init _ _ _ _ _ _ L).
Qed.

Lemma unborn_step m0 s s' : unborn m0 s -> log_step s s' -> log_fp s' = [] /\ accepted s' = [].
Proof.
  intros (_ & _ & Hms & _ & Hf & Ha & Hp & Hw) St.
  destruct St as [s s' data _ E|s s' E|s s' E| | | | |s buf size filename]; try done.
  - unfold send_log_data in E. rewrite Hms in E. by repeat case_hyp E.
  - unfold prod_step in E. by rewrite Hp in E.
  - unfold wtr_step in E. by rewrite Hw in E.
  - unfold init_log. by case_goal.
Qed.

Lemma reach_inv m0 s : rtc log_step (log_cold m0) s -> inv m0 s.
Proof.
  apply (rtc_ind_r (inv m0)); [by left|]. intros s1 s2 _ St I. by eapply step_inv.
Qed.

(** ** Refinement of a queue *)

(** A queue of fewer than [size] bytes, and what has been taken from it: a whole
    message goes in, single bytes come out. *)
Inductive qstep (size : Z) : list Z * list Z -> list Z * list Z -> Prop :=
  | q_put l q f : Z.of_nat (length q + length l) < size -> qstep size (q, f) (q ++ l, f)
  | q_get x q f : qstep size (x :: q, f) (q, f ++ [x]).

(** What the file does not have yet. *)
Definition pending (s : lstate) : list Z := drop (length (log_fp s)) (accepted s).

Lemma pending_split s freed m0 : live s freed m0 -> accepted s = log_fp s ++ pending s.
Proof.
  intros L. destruct (live_file _ _ _ L) as [t Ht]. unfold pending. by rewrite Ht, drop_app_length.
Qed.

Lemma send_keeps s s' data :
  send_log_data s data = inr s' -> accepted s' = accepted s /\ log_fp s' = log_fp s /\ buf_size s' = buf_size s.
Proof.
  unfold send_log_data. intros E. repeat case_hyp E; try done; by injection E as <-.
Qed.

Lemma prod_step_sim m0 s s' freed :
  live s freed m0 -> prod_step s = Some s' ->
  buf_size s' = buf_size s /\ rtc (qstep (buf_size s)) (pending s, log_fp s) (pending s', log_fp s').
Proof.
  intros L. unfold prod_step.
  destruct (prod s) as [|[|[a [|x l]] copies] next data| |ret] eqn:Hp; [done|..]; intros [= <-];
    [|by split|by split|case_goal; by split|by split].
  split; [done|]. apply rtc_once.
  pose proof (live_prod _ _ _ L) as P. unfold prod_ok in P. rewrite Hp in P.
  destruct P as (_ & _ & Hroom & _).
  pose proof (live_freed _ _ _ L). pose proof (prefix_length _ _ (live_file _ _ _ L)).
  assert (pending (set_prod (advance_next s next data) PWake) = pending s ++ data) as ->.
  { unfold pending. cbn. by rewrite drop_app_le by lia. }
  apply q_put. unfold pending. rewrite length_drop. lia.
Qed.

Lemma wtr_step_sim m0 s s' freed :
  live s freed m0 -> wtr_step s = Some s' ->
  buf_size s' = buf_size s /\ rtc (qstep (buf_size s)) (pending s, log_fp s) (pending s', log_fp s').
Proof.
  intros L. unfold wtr_step.
  destruct (wtr s) as [| | | |[|[a n] regions] next|next|next| |] eqn:Hw; try done;
    try (intros [= <-]; by split);
    try (case_goal; [|done]; case_goal; [|done]; intros [= <-]; by split).
  case_goal; intros [= <-]; (split; [done|]); [|done]. to_prop. apply rtc_once.
  destruct (live_write _ _ _ _ _ _ _ L Hw) as [Hx _]; [done|].
  unfold pending. cbn. rewrite length_app, Nat.add_1_r, (drop_S _ _ _ Hx). apply q_get.
Qed.

Lemma step_sim m0 s s' freed :
  live s freed m0 -> log_step s s' ->
  buf_size s' = buf_size s /\ rtc (qstep (buf_size s)) (pending s, log_fp s) (pending s', log_fp s').
Proof.
  intros L St. destruct St as [s s' data Hb E|s s' E|s s' E| | | | |];
    [|by eapply prod_step_sim|by eapply wtr_step_sim|by split..|].
  - destruct (send_keeps _ _ _ E) as (Ha & Hf & Hs). split; [done|]. unfold pending. by rewrite Ha, Hf.
  - rewrite (live_init _ _ _ _ _ _ L). by split.
Qed.

(** C3: the disk log is a bounded queue.  In every interleaving of callers, of
    the task that writes the file, and of stops, the data accepted so far is what
    is in the file followed by what is pending; both come about by putting in
    whole messages, as long as fewer than [buf_size] bytes are pending, and taking
    out single bytes in order.  Nothing is lost, repeated or torn, and no byte
    outside the buffer is written. *)
Theorem log_refines_queue (m : memory) (s : lstate) :
  rtc log_step (log_cold m) s ->
  accepted s = log_fp s ++ pending s
  /\ rtc (qstep (buf_size s)) ([], []) (pending s, log_fp s)
  /\ forall a, a < buf_start s \/ buf_end s <= a -> rd8 (mem s) a = rd8 m a.
Proof.
  intros R. pose proof (reach_inv _ _ R) as I. split_and!.
  - destruct I as [(_ & _ & _ & _ & Hf & Ha & _)|[freed L]]; [|by eapply pending_split].
    unfold pending. by rewrite Hf, Ha.
  - clear I. revert s R. apply (rtc_ind_r _); [done|]. intros s s' R St IH.
    destruct (reach_inv _ _ R) as [U|[freed L]].
    + destruct (unborn_step _ _ _ U St) as [Hf Ha]. unfold pending. by rewrite Hf, Ha.
    + destruct (step_sim _ _ _ _ L St) as [-> Q]. by etrans.
  - destruct I as [(-> & _)|[freed L]]; [done|]. apply (live_frame _ _ _ L).
Qed.

(** ** Calls *)

Definition giving (p : producer) : bool := match p with PGive _ => true | _ => false end.

Lemma run_caller_S fuel s s' :
  giving (prod s) = false -> prod_step s = Some s' -> run_caller (S fuel) s = run_caller fuel s'.
Proof. intros Hg Hs. cbn [run_caller]. rewrite Hs. by destruct (prod s). Qed.

(** What a call that found room leaves. *)
Definition call_done (s : lstate) (data : list Z) (r : option (Z * lstate)) : Prop :=
  exists s', r = Some (0, s') /\ prod s' = PIdle /\ log_mem_sem s' = Some true
             /\ accepted s' = accepted s ++ data /\ log_fp s' = log_fp s.

Lemma run_copies copies s fuel next data :
  (length (writes copies) + length copies + 3 <= fuel)%nat -> prod s = PCopy copies next data ->
  call_done s data (run_caller fuel s).
Proof.
  revert s fuel. induction copies as [|[a l] copies IH].
  - intros s [|[|[|fuel]]] Hf Hp; cbn in Hf; try lia.
    erewrite run_caller_S; [|by rewrite Hp|unfold prod_step; by rewrite Hp].
    erewrite run_caller_S; [|done..].
    eexists. split; [reflexivity|]. by case_goal.
  - revert a. induction l as [|x l IHl]; intros a s [|fuel] Hf Hp; try lia;
      (erewrite run_caller_S; [|by rewrite Hp|unfold prod_step; by rewrite Hp]).
    + apply (IH (set_prod s (PCopy copies next data))); [|done].
      unfold writes in *. cbn [mbind list_bind fst snd] in *. rewrite zip_with_nil_r in Hf. cbn [app length] in *. lia.
    + apply (IHl (a + 1) (set_prod (set_log_mem s (wr8 (mem s) a x)) _)); [|done].
      unfold writes in *. cbn [mbind list_bind fst snd] in *. rewrite zip_seqZ_cons in Hf. cbn in *. lia.
Qed.

(** The task is not between its look at [buf_next] and the end of that turn. *)
Definition between_batches (w : writer) : bool :=
  match w with WWrite _ _ | WTakeMem _ | WSet _ => false | _ => true end.

Lemma plan_length s freed m0 data copies next :
  live s freed m0 -> plan s data = Some (copies, next) ->
  length (writes copies) = length data /\ (length copies <= 2)%nat.
Proof.
  intros L Hp. pose proof (plan_spec s freed m0 L data) as P. rewrite Hp in P.
  destruct P as (_ & _ & ->). split.
  - rewrite length_zip_with, length_fmap, length_seq. lia.
  - unfold plan in Hp. repeat case_hyp Hp; simplify_eq; cbn; lia.
Qed.

(** C26: a call of [send_log_data] that gets the semaphore comes to its end
    in a number of steps given by its data, releases the semaphore, and has
    appended all of the data or, with the result -3, changed nothing; between
    two batches of the task it is refused exactly when the data would fill the
    buffer. *)
Theorem log_send_all_or_none (m : memory) (s s1 : lstate) (data : list Z) :
  rtc log_step (log_cold m) s -> Forall byte data -> send_log_data s data = inr s1 ->
  exists ret s2, run_caller (length data + 5) s1 = Some (ret, s2)
    /\ prod s2 = PIdle /\ log_mem_sem s2 = Some true /\ log_fp s2 = log_fp s
    /\ (ret = 0 /\ accepted s2 = accepted s ++ data
        \/ ret = -3 /\ accepted s2 = accepted s /\ mem s2 = mem s /\ buf_next s2 = buf_next s)
    /\ (between_batches (wtr s) = true ->
        ret = -3 <-> buf_size s <= Z.of_nat (length (pending s) + length data)).
Proof.
  intros R Hb Hs. destruct (reach_inv _ _ R) as [U|[freed L]].
  { destruct U as (_ & _ & Hms & _). unfold send_log_data in Hs. rewrite Hms in Hs. by repeat case_hyp Hs. }
  pose proof (live_freed _ _ _ L). pose proof (prefix_length _ _ (live_file _ _ _ L)).
  pose proof (plan_spec s freed m L data) as P.
  assert (between_batches (wtr s) = true -> length (pending s) = (length (accepted s) - freed)%nat) as Hp.
  { intros Hw. pose proof (live_wtr _ _ _ L) as W. unfold wtr_ok in W. unfold pending. rewrite length_drop.
    destruct (wtr s); try done; by subst. }
  unfold send_log_data in Hs. do 4 (case_hyp Hs; [try done|try done]); try done.
  change (plan (set_mem_sem s false) data) with (plan s data) in Hs.
  injection Hs as <-.
  destruct (plan s data) as [[copies next]|] eqn:Ep.
  - destruct (plan_length _ _ _ _ _ _ L Ep) as [Hl Hc].
    destruct (run_copies copies (set_prod (set_mem_sem s false) (PCopy copies next data)) (length data + 5) next data)
      as (s2 & Hr & ? & ? & Ha & ?); [lia|done|].
    exists 0, s2. split_and!; try done; [by left|]. intros Hw. rewrite (Hp Hw). lia.
  - rewrite Nat.add_succ_r. eexists (-3), _. split; [reflexivity|].
    split_and!; try done; [by right|]. intros Hw. rewrite (Hp Hw). lia.
Qed.
