(* ===== verification/LogStop.v ===== *)
(** * Stopping the disk log

    [stop_log] promises to flush.  It does when it finds [disk_write_task]
    waiting and no data come after it; data that arrive while a batch is being
    written are left in the buffer, whether they came before the stop or after. *)
From stdpp Require Import relations.
From S2P Require Import Prelude Log LogProps LogTheorems.

Definition wstep (s s' : lstate) : Prop := wtr_step s = Some s'.

(** What the task does not touch while it writes a batch. *)
Definition same_batch (s s' : lstate) : Prop :=
  accepted s' = accepted s /\ stop_logging s' = stop_logging s /\ buf_next s' = buf_next s /\ prod s' = prod s.

Lemma same_batch_trans s1 s2 s3 : same_batch s1 s2 -> same_batch s2 s3 -> same_batch s1 s3.
Proof. unfold same_batch. intuition congruence. Qed.

(** The regions are written, one byte a step. *)
Lemma write_batch m0 freed next regions s :
  live s freed m0 -> wtr s = WWrite regions next ->
  exists s', rtc wstep s s' /\ wtr s' = WTakeMem next /\ live s' freed m0 /\ same_batch s s'.
Proof.
  revert s. induction regions as [|[a n] regions IH].
  - intros s L Hw. eexists. split_and!; [apply rtc_once; unfold wstep, wtr_step; by rewrite Hw|done| |done].
    pose proof (live_wtr _ _ _ L) as W. unfold wtr_ok in W. rewrite Hw in W.
    destruct W as (k & -> & _ & Hr). destruct k; [|done].
    keep_live L; rewrite Hw in *; try done. by rewrite Nat.add_0_r.
  - revert a. induction (Z.to_nat n) as [|k IHk] eqn:En in n |- *; intros a s L Hw.
    + assert (live (set_wtr s (WWrite regions next)) freed m0) as L'.
      { pose proof (live_wtr _ _ _ L) as W. unfold wtr_ok in W. rewrite Hw in W.
        destruct W as (k & Hn & Hk & Hr). keep_live L; rewrite Hw in *; try done.
        exists k. split_and!; try done. rewrite <- Hr. unfold reads. cbn. by rewrite (seqZ_nil a n) by lia. }
      destruct (IH _ L' eq_refl) as (s' & Hs & Hw' & Hl & Hb). exists s'. split_and!; try done.
      eapply rtc_l; [|exact Hs]. unfold wstep, wtr_step. rewrite Hw.
      destruct (Z.ltb_spec 0 n); [lia|done].
    + destruct (live_write _ _ _ _ _ _ _ L Hw) as [_ L']; [lia|].
      destruct (IHk (n - 1) ltac:(lia) _ _ L' eq_refl) as (s' & Hs & Hw' & Hl & Hb). exists s'. split_and!; try done.
      eapply rtc_l; [|exact Hs]. unfold wstep, wtr_step. rewrite Hw.
      destruct (Z.ltb_spec 0 n); [done|lia].
Qed.

(** The end of a batch, with no caller at work: the file has all that was
    accepted when the batch covers it, and the task sees the stop. *)
Lemma end_batch m0 freed s :
  live s freed m0 -> wtr s = WTakeMem (buf_next s) -> prod s = PIdle -> stop_logging s = true ->
  log_fp s = accepted s
  /\ exists s', rtc wstep s s' /\ wtr s' = WClosed /\ log_fp s' = log_fp s.
Proof.
  intros L Hw Hp Hst. split.
  - pose proof (live_wtr _ _ _ L) as W. unfold wtr_ok in W. rewrite Hw, (live_next _ _ _ L) in W.
    destruct (live_file _ _ _ L) as [t Ht].
    pose proof (prefix_length _ _ (live_file _ _ _ L)) as Hl. pose proof (live_freed _ _ _ L).
    pose proof (live_room _ _ _ L).
    apply (ptr_eq _ _ (size_positive _ _ _ L)) in W; [|lia..].
    rewrite Ht, length_app in W. destruct t; [by rewrite Ht, app_nil_r|cbn in W; lia].
  - pose proof (live_sem _ _ _ L) as Hsem. rewrite Hp, Hw in Hsem. cbn in Hsem.
    eexists. split_and!.
    + eapply rtc_l; [unfold wstep, wtr_step; rewrite Hw, Hsem; reflexivity|].
      eapply rtc_l; [reflexivity|]. eapply rtc_l; [reflexivity|]. apply rtc_once. reflexivity.
    + cbn. rewrite Hst, andb_false_r. done.
    + done.
Qed.

(** C30: [stop_log] flushes when it finds the task waiting.  With no caller at
    work, the task alone then comes to its end, and the file holds all the data
    that was accepted. *)
Theorem log_stop_flushes (m : memory) (s : lstate) :
  rtc log_step (log_cold m) s -> wtr s = WTake -> prod s = PIdle ->
  exists s', rtc wstep (stop_log s) s' /\ wtr s' = WClosed /\ log_fp s' = accepted s.
Proof.
  intros R Hw Hp. destruct (reach_inv _ _ R) as [U|[freed L]].
  { destruct U as (_ & _ & _ & _ & _ & _ & _ & Hw'). congruence. }
  set (t := set_wtr (take_disk_sem (stop_log s)) WLook).
  assert (live t freed m) as Lt by (keep_live L; rewrite Hw in *; done).
  assert (rtc wstep (stop_log s) t) as Rt.
  { apply rtc_once. unfold wstep, wtr_step. cbn. rewrite Hw.
    by destruct (live_disk _ _ _ L) as [b ->]. }
  assert (wstep t (set_wtr t (if buf_next s =? buf_written s then WTest else
      if buf_written s <? buf_next s then WWrite [(buf_written s, buf_next s - buf_written s)] (buf_next s)
      else WWrite [(buf_written s, buf_end s - buf_written s); (buf_start s, buf_next s - buf_start s)] (buf_next s)))) as Hl
    by done.
  destruct (live_wtr_step _ _ _ _ Lt Hl) as (f & _ & Lu).
  destruct (Z.eqb_spec (buf_next s) (buf_written s)) as [E|E].
  - eexists. split_and!; [etrans; [exact Rt|]; eapply rtc_l; [exact Hl|]; apply rtc_once; reflexivity|cbn; by rewrite andb_false_r|].
    pose proof (live_wtr _ _ _ L) as W. unfold wtr_ok in W. rewrite Hw in W.
    rewrite (live_next _ _ _ L), (live_written _ _ _ L) in E.
    pose proof (prefix_length _ _ (live_file _ _ _ L)). pose proof (live_room _ _ _ L).
    apply (ptr_eq _ _ (size_positive _ _ _ L)) in E; [|lia..].
    destruct (live_file _ _ _ L) as [r Hr]. cbn. rewrite Hr in E |- *. rewrite length_app in E.
    destruct r; [by rewrite app_nil_r|cbn in E; lia].
  - assert (exists rs u, u = set_wtr t (WWrite rs (buf_next s)) /\ live u f m /\ wstep t u) as (rs & u & -> & Lv & Sv).
    { destruct (buf_written s <? buf_next s); eauto. }
    destruct (write_batch _ _ _ _ _ Lv eq_refl) as (v & Rv & Wv & Lv' & B1 & B2 & B3 & B4).
    destruct (end_batch _ _ _ Lv') as [Hf (w & Rw & Ww & Fw)]; [by rewrite Wv, B3|by rewrite B4|by rewrite B2|].
    exists w. split_and!; [|done|by rewrite Fw, Hf, B1].
    etrans; [exact Rt|]. eapply rtc_l; [exact Sv|]. by etrans.
Qed.

(** ** Runs *)

Inductive act :=
  | AInit (buf size : Z)
  | ASend (data : list Z)
  | ACaller
  | ATask
  | AStop.

Definition byteb (x : Z) : bool := (0 <=? x) && (x <? 256).

(** [None] when the action cannot be taken, or changes nothing. *)
Definition act_step (s : lstate) (a : act) : option lstate :=
  match a with
  | AInit buf size =>
      if (0 <=? buf) && (buf + size <? 2 ^ 32) then Some (init_log s buf size true).2 else None
  | ASend data =>
      if forallb byteb data
      then match send_log_data s data with inr s' => Some s' | inl _ => None end
      else None
  | ACaller => prod_step s
  | ATask => wtr_step s
  | AStop => Some (stop_log s)
  end.

Fixpoint run (s : lstate) (l : list act) : option lstate :=
  match l with
  | [] => Some s
  | a :: l => match act_step s a with Some s' => run s' l | None => None end
  end.

Lemma act_step_sound s a s' : act_step s a = Some s' -> log_step s s'.
Proof.
  destruct a as [buf size|data| | |]; cbn; intros E.
  - case_hyp E; [|done]. to_prop. injection E as <-. by apply step_init.
  - case_hyp E; [|done]. case_hyp E; [done|]. injection E as <-. apply (step_send _ _ data); [|done].
    apply Forall_forall. intros x Hx.
    assert (byteb x = true) as Hb by (by apply (proj1 (forallb_forall _ _) Heqb), list_elem_of_In).
    unfold byteb in Hb. to_prop. lia.
  - by apply step_prod.
  - by apply step_wtr.
  - injection E as <-. by apply step_stop.
Qed.

Lemma run_sound s l s' : run s l = Some s' -> rtc log_step s s'.
Proof.
  revert s. induction l as [|a l IH]; cbn; intros s E; [by injection E as <-|].
  destruct (act_step s a) as [t|] eqn:Ea; [|done].
  eapply rtc_l; [by eapply act_step_sound|by apply IH].
Qed.

(** A whole call with nothing else running. *)
Definition call (data : list Z) : list act := ASend data :: replicate (length data + 4) ACaller.

(** A batch is under way when a message arrives, and then [stop_log]. *)
Definition late_message : list act :=
  [AInit 0x1000 MIN_LOG_BUF_SIZE; ATask] ++ call [] ++ call [1] ++ [ATask; ATask]
  ++ call [2] ++ [AStop] ++ replicate 7 ATask.

(** A message accepted before the stop can be lost: when it arrives while a
    batch is being written, the task ends without looking at it. *)
Theorem log_stop_can_lose_message :
  exists s, rtc log_step (log_cold ∅) s /\ wtr s = WClosed /\ prod s = PIdle
            /\ accepted s = [1; 2] /\ log_fp s = [1].
Proof.
  destruct (run (log_cold ∅) late_message) as [s|] eqn:E; [|by vm_compute in E].
  exists s. split; [by eapply run_sound|]. vm_compute in E. by injection E as <-.
Qed.

(** ** Witnesses *)

Definition waiting : list act := [AInit 0x1000 MIN_LOG_BUF_SIZE; ATask] ++ call [7; 8; 9].

Lemma log_refines_queue_witness :
  exists s, run (log_cold ∅) late_message = Some s
    /\ accepted s = log_fp s ++ pending s
    /\ rtc (qstep (buf_size s)) ([], []) (pending s, log_fp s).
Proof.
  destruct (run (log_cold ∅) late_message) as [s|] eqn:E; [|by vm_compute in E].
  exists s. split; [exact eq_refl|].
  destruct (log_refines_queue ∅ s (run_sound _ _ _ E)) as (A & B & _). split; [exact A|exact B].
Defined.

Lemma log_send_all_or_none_witness :
  exists s s1, run (log_cold ∅) waiting = Some s /\ send_log_data s [5] = inr s1
    /\ exists ret s2, run_caller 6 s1 = Some (ret, s2) /\ prod s2 = PIdle.
Proof.
  destruct (run (log_cold ∅) waiting) as [s|] eqn:E; [|by vm_compute in E].
  destruct (send_log_data s [5]) as [r|s1] eqn:E1.
  { vm_compute in E. injection E as <-. by vm_compute in E1. }
  exists s, s1. split; [exact eq_refl|]. split; [exact E1|].
  destruct (log_send_all_or_none ∅ s s1 [5] (run_sound _ _ _ E)) as (ret & s2 & A & B & _);
    [repeat constructor; discriminate|exact E1|].
  exists ret, s2. split; [exact A|exact B].
Defined.

Lemma log_stop_flushes_witness :
  exists s s', run (log_cold ∅) waiting = Some s /\ rtc wstep (stop_log s) s'
    /\ wtr s' = WClosed /\ log_fp s' = [7; 8; 9].
Proof.
  destruct (run (log_cold ∅) waiting) as [s|] eqn:E; [|by vm_compute in E].
  assert (wtr s = WTake /\ prod s = PIdle /\ accepted s = [7; 8; 9]) as (Hw & Hp & Ha)
    by (vm_compute in E; by injection E as <-).
  destruct (log_stop_flushes ∅ s (run_sound _ _ _ E) Hw Hp) as (s' & R & W & F).
  exists s, s'. split; [exact eq_refl|]. split; [exact R|]. split; [exact W|]. rewrite F. exact Ha.
Defined.
