(* ===== verification/Util.v ===== *)
(** * Integer helpers ([src/src/crc32.c], [src/src/imath.c], [src/src/util.c])

    The checksum with its table, powers and logarithms on 32-bit integers, and
    the binary search; each is compared with a definition without tables,
    wrap-around or bisection. *)
From Stdlib Require Import Zpow_facts.
From S2P Require Import Prelude.

(** ** CRC32 *)

Definition poly : Z := 0xEDB88320.

(** One turn of the inner loop of [crc32_init]. *)
Definition crc_step (crc : Z) : Z :=
  Z.lxor (Z.shiftr crc 1) (if negb (Z.land crc 1 =? 0) then poly else 0).

Definition crc_entry (i : Z) : Z := Nat.iter 8 crc_step i.

Definition crc32_init : list Z := (fun i => crc_entry (Z.of_nat i)) <$> seq 0 256.

(** [crc32table] has 256 entries, and the index eight bits. *)
Fixpoint crc32 (crc32table data : list Z) (seed : Z) : Z :=
  match data with
  | [] => seed
  | d :: data =>
      crc32 crc32table data
        (Z.lxor (Z.land (Z.shiftr seed 8) 0x00FFFFFF) (crc32table !!! Z.to_nat (Z.land (Z.lxor seed d) 0xFF)))
  end.

(** ** Powers and logarithms *)

Fixpoint powi_loop (fuel : nat) (result base power : Z) : option Z :=
  match fuel with
  | O => None
  | S fuel =>
      if power =? 0 then Some result
      else
        let result := if negb (Z.land power 1 =? 0) then u32 (result * base) else result in
        powi_loop fuel result (u32 (base * base)) (Z.shiftr power 1)
  end.

Definition powi (base power : Z) : option Z := powi_loop 33 1 base power.

(** [while (x = next x) result++] *)
Fixpoint count_loop (next : Z -> Z) (fuel : nat) (x result : Z) : option Z :=
  match fuel with
  | O => None
  | S fuel => let x := next x in if x =? 0 then Some result else count_loop next fuel x (u32 (result + 1))
  end.

Definition log2i (x : Z) : option Z := count_loop (fun x => Z.shiftr x 1) 33 x 0.
Definition log10i (x : Z) : option Z := count_loop (fun x => x / 10) 33 x 0.

(** ** Binary search *)

(** [crit] is a pure function of the tested value. *)
Fixpoint bin_search (fuel : nat) (lo hi : Z) (crit : Z -> Z) : option Z :=
  match fuel with
  | O => None
  | S fuel =>
      if s32 (hi - 1) <=? lo then Some lo
      else
        let m := Z.quot (s32 (lo + hi)) 2 in
        let c := crit m in
        if c =? 0 then Some m
        else if 0 <? c then bin_search fuel m hi crit
        else bin_search fuel lo m crit
  end.

(** ** The checksum bit by bit *)

(** A byte enters at the low end, and eight bits are shifted out. *)
Definition crc_byte (crc d : Z) : Z := Nat.iter 8 crc_step (Z.lxor crc d).

Lemma crc_step_xor x y : crc_step (Z.lxor x y) = Z.lxor (crc_step x) (crc_step y).
Proof.
  unfold crc_step. rewrite Z.shiftr_lxor.
  assert (forall a, negb (Z.land a 1 =? 0) = Z.odd a) as Hodd.
  { intros a. change 1 with (Z.ones 1). rewrite Z.land_ones by lia. change (2 ^ 1) with 2.
    rewrite Zmod_odd. by destruct (Z.odd a). }
  rewrite !Hodd. assert (Z.odd (Z.lxor x y) = xorb (Z.odd x) (Z.odd y)) as ->
    by (by rewrite <- !Z.bit0_odd, Z.lxor_spec).
  apply Z.bits_inj'. intros k Hk. destruct (Z.odd x), (Z.odd y); cbn [xorb];
    rewrite !Z.lxor_spec, ?Z.bits_0;
    destruct (Z.testbit (Z.shiftr x 1) k), (Z.testbit (Z.shiftr y 1) k), (Z.testbit poly k); done.
Qed.

Lemma crc_iter_xor n x y : Nat.iter n crc_step (Z.lxor x y) = Z.lxor (Nat.iter n crc_step x) (Nat.iter n crc_step y).
Proof. induction n as [|n IH]; [done|]. rewrite !Nat.iter_succ, IH. apply crc_step_xor. Qed.

(** Zero bits only shift. *)
Lemma crc_iter_shift n x : Nat.iter n crc_step (Z.shiftl x (Z.of_nat n)) = x.
Proof.
  revert x. induction n as [|n IH]; intros x; [by rewrite Z.shiftl_0_r|].
  rewrite Nat.iter_succ_r. rewrite <- (IH x) at 2. f_equal. unfold crc_step.
  assert (Z.shiftl x (Z.of_nat (S n)) = 2 * Z.shiftl x (Z.of_nat n)) as ->.
  { rewrite !Z.shiftl_mul_pow2, Nat2Z.inj_succ, Z.pow_succ_r by lia. lia. }
  set (y := Z.shiftl x (Z.of_nat n)). change 1 with (Z.ones 1) at 2. rewrite Z.land_ones by lia. change (2 ^ 1) with 2.
  rewrite (Z.mul_comm 2), Z.mod_mul by lia. cbn [Z.eqb negb]. rewrite Z.lxor_0_r, Z.shiftr_div_pow2 by lia.
  change (2 ^ 1) with 2. apply Z.div_mul. lia.
Qed.

(** A word is its high bits and its low byte. *)
Lemma split_byte x : x = Z.lxor (Z.shiftl (Z.shiftr x 8) 8) (Z.land x 0xFF).
Proof.
  apply Z.bits_inj'. intros k Hk. rewrite Z.lxor_spec, Z.land_spec. change 0xFF with (Z.ones 8).
  destruct (decide (k < 8)).
  - rewrite Z.shiftl_spec_low, Z.ones_spec_low by lia. by rewrite andb_true_r, xorb_false_l.
  - rewrite Z.shiftl_spec, Z.shiftr_spec, Z.ones_spec_high, andb_false_r, xorb_false_r by lia. f_equal. lia.
Qed.

Lemma crc_byte_table crc d : 0 <= crc < 2 ^ 32 -> 0 <= d < 256 ->
  Z.lxor (Z.land (Z.shiftr crc 8) 0x00FFFFFF) (crc32_init !!! Z.to_nat (Z.land (Z.lxor crc d) 0xFF)) = crc_byte crc d.
Proof.
  intros Hc Hd. unfold crc_byte. set (x := Z.lxor crc d).
  assert (0 <= Z.land x 0xFF < 256) as Hx.
  { change 0xFF with (Z.ones 8). rewrite Z.land_ones by lia. apply Z.mod_pos_bound. lia. }
  rewrite (split_byte x) at 2. rewrite crc_iter_xor.
  pose proof (crc_iter_shift 8 (Z.shiftr x 8)) as Hsh. change (Z.of_nat 8) with 8 in Hsh. rewrite Hsh. f_equal.
  - change 0x00FFFFFF with (Z.ones 24). rewrite Z.land_ones, !Z.shiftr_div_pow2 by lia.
    unfold x. rewrite <- !Z.shiftr_div_pow2, Z.shiftr_lxor, !Z.shiftr_div_pow2 by lia.
    rewrite (Z.div_small d) by lia. rewrite Z.lxor_0_r. apply Z.mod_small. Z.div_mod_to_equations. lia.
  - apply list_lookup_total_correct. unfold crc32_init. rewrite list_lookup_fmap, lookup_seq_lt by lia.
    cbn [fmap option_fmap option_map]. unfold crc_entry. do 2 f_equal. lia.
Qed.

Lemma crc_step_range x : 0 <= x < 2 ^ 32 -> 0 <= crc_step x < 2 ^ 32.
Proof.
  intros Hx. unfold crc_step.
  set (p := if negb _ then poly else 0).
  assert (0 <= p < 2 ^ 32) as Hp by (unfold p, poly; case_match; lia).
  assert (0 <= Z.shiftr x 1 < 2 ^ 32) as Hs by (rewrite Z.shiftr_div_pow2 by lia; Z.div_mod_to_equations; lia).
  assert (Z.lxor (Z.shiftr x 1) p mod 2 ^ 32 = Z.lxor (Z.shiftr x 1) p) as <-; [|apply Z.mod_pos_bound; lia].
  rewrite <- Z.land_ones by lia. apply Z.bits_inj'. intros k Hk. rewrite Z.land_spec, Z.lxor_spec.
  destruct (decide (k < 32)); [by rewrite Z.ones_spec_low, andb_true_r by lia|].
  rewrite Z.ones_spec_high, andb_false_r by lia.
  assert (forall y, 0 <= y < 2 ^ 32 -> Z.testbit y k = false) as Hy.
  { intros y Hy. rewrite <- (Z.mod_small y (2 ^ 32)) by lia. apply Z.mod_pow2_bits_high. lia. }
  by rewrite !Hy by done.
Qed.

Lemma crc_byte_range crc d : 0 <= crc < 2 ^ 32 -> 0 <= d < 256 -> 0 <= crc_byte crc d < 2 ^ 32.
Proof.
  intros Hc Hd. unfold crc_byte.
  assert (0 <= Z.lxor crc d < 2 ^ 32) as Hx.
  { assert (Z.lxor crc d mod 2 ^ 32 = Z.lxor crc d) as <-; [|apply Z.mod_pos_bound; lia].
    rewrite <- Z.land_ones by lia. apply Z.bits_inj'. intros k Hk. rewrite Z.land_spec, Z.lxor_spec.
    destruct (decide (k < 32)); [by rewrite Z.ones_spec_low, andb_true_r by lia|].
    rewrite Z.ones_spec_high, andb_false_r by lia.
    rewrite <- (Z.mod_small crc (2 ^ 32)), <- (Z.mod_small d (2 ^ 32)) by lia.
    by rewrite !Z.mod_pow2_bits_high by lia. }
  revert Hx. generalize (Z.lxor crc d). generalize 8%nat. intros n. induction n as [|n IH]; intros x Hx; [done|].
  rewrite Nat.iter_succ. apply crc_step_range, IH, Hx.
Qed.

(** C20: the checksum with the table [crc32_init] computes is the one that
    feeds the data through the shift register bit by bit, from any seed. *)
Theorem crc32_is_bitwise (data : list Z) (seed : Z) :
  Forall (fun d => 0 <= d < 256) data -> 0 <= seed < 2 ^ 32 ->
  crc32 crc32_init data seed = foldl crc_byte seed data.
Proof.
  intros Hd. revert seed. induction Hd as [|d data Hd _ IH]; intros seed Hs; [done|].
  cbn [crc32 foldl]. rewrite crc_byte_table by done. apply IH. by apply crc_byte_range.
Qed.

(** The checksum of "123456789", complemented. *)
Lemma crc32_is_bitwise_witness :
  Z.lxor (crc32 crc32_init [0x31; 0x32; 0x33; 0x34; 0x35; 0x36; 0x37; 0x38; 0x39] 0xFFFFFFFF) 0xFFFFFFFF = 0xCBF43926.
Proof.
  rewrite crc32_is_bitwise; [vm_compute; reflexivity| |lia]. repeat (constructor; [lia|]). constructor.
Defined.

(** ** Powers, logarithms, search *)

Lemma powi_loop_spec fuel result base power : 0 <= power < 2 ^ (Z.of_nat fuel - 1) -> (0 < fuel)%nat ->
  powi_loop fuel result base power = Some (if power =? 0 then result else u32 (result * base ^ power)).
Proof.
  revert result base power. induction fuel as [|fuel IH]; intros result base power Hp Hf; [lia|]. cbn [powi_loop].
  destruct (Z.eqb_spec power 0) as [|Hn]; [done|].
  assert (0 < fuel)%nat as Hf' by (destruct fuel; cbn in Hp; lia).
  assert (2 ^ (Z.of_nat (S fuel) - 1) = 2 * 2 ^ (Z.of_nat fuel - 1)) as E.
  { rewrite <- Z.pow_succ_r by lia. f_equal. lia. }
  rewrite Z.shiftr_div_pow2 by lia. change (2 ^ 1) with 2. rewrite IH by (done || (rewrite E in Hp; Z.div_mod_to_equations; lia)).
  f_equal. change 1 with (Z.ones 1). rewrite Z.land_ones by lia. change (2 ^ 1) with 2.
  pose proof (Z.div_mod power 2 ltac:(lia)) as Dm. set (q := power / 2) in *.
  assert (0 <= q) by (apply Z.div_pos; lia).
  assert (forall r, u32 (r * u32 (base * base) ^ q) = u32 (r * base ^ (2 * q))) as Hsq.
  { intros r. unfold u32. rewrite Z.pow_mul_r, Z.pow_2_r, Z.mul_mod, <- Zpower_mod, <- Z.mul_mod by lia. done. }
  destruct (Z.eqb_spec q 0) as [Hq|Hq].
  - assert (power = 1) as -> by (pose proof (Z.mod_pos_bound power 2); lia). cbn. by rewrite Z.pow_1_r.
  - rewrite Hsq. pose proof (Z.mod_pos_bound power 2 ltac:(lia)).
    destruct (Z.eqb_spec (power mod 2) 0) as [Hz|Hz]; cbn [negb].
    + do 2 f_equal. f_equal. lia.
    + assert (power mod 2 = 1) as Hone by lia. rewrite Hone in Dm. rewrite Dm, Z.pow_add_r, Z.pow_1_r by lia.
      unfold u32. rewrite Zmult_mod_idemp_l. f_equal. lia.
Qed.

(** [powi] is the power modulo the width of the integers. *)
Theorem powi_exact (base power : Z) : 0 <= power < 2 ^ 32 -> powi base power = Some (u32 (base ^ power)).
Proof.
  intros Hp. unfold powi. rewrite powi_loop_spec by lia. f_equal.
  destruct (Z.eqb_spec power 0) as [->|]; [done|]. by rewrite Z.mul_1_l.
Qed.

Lemma count_loop_spec b fuel x result : 2 <= b -> 0 <= x < b ^ Z.of_nat fuel -> (0 < fuel)%nat -> 0 <= result ->
  result + Z.of_nat fuel <= 2 ^ 32 ->
  exists r, count_loop (fun x => x / b) fuel x result = Some (result + r) /\ 0 <= r
            /\ (x = 0 /\ r = 0 \/ b ^ r <= x < b ^ (r + 1)).
Proof.
  intros Hb. revert x result. induction fuel as [|fuel IH]; intros x result Hx Hf Hr Hm; [lia|]. cbn [count_loop].
  rewrite Nat2Z.inj_succ, Z.pow_succ_r in Hx by lia.
  destruct (Z.eqb_spec (x / b) 0) as [Hz|Hz].
  - exists 0. rewrite Z.add_0_r, Z.pow_0_r, Z.pow_1_r. split_and!; [done|lia|].
    apply Z.div_small_iff in Hz; lia.
  - assert (0 <= x / b < b ^ Z.of_nat fuel) as Hd.
    { split; [apply Z.div_pos; lia|apply Z.div_lt_upper_bound; lia]. }
    assert (0 < fuel)%nat as Hf' by (destruct fuel; [cbn in Hd; lia|lia]).
    destruct (IH (x / b) (u32 (result + 1))) as (r & -> & Hr0 & Hrb); rewrite ?u32_small by lia; try lia.
    exists (r + 1). split_and!; [f_equal; lia|lia|]. right.
    destruct Hrb as [[? _]|[H1 H2]]; [lia|].
    rewrite !(Z.pow_add_r b _ 1), Z.pow_1_r by lia. rewrite Z.pow_add_r, Z.pow_1_r in H2 by lia.
    pose proof (Z.div_mod x b ltac:(lia)). pose proof (Z.mod_pos_bound x b ltac:(lia)). nia.
Qed.

Lemma count_loop_ext f g fuel x result : (forall y, f y = g y) -> count_loop f fuel x result = count_loop g fuel x result.
Proof.
  intros E. revert x result. induction fuel as [|fuel IH]; intros x result; [done|]. cbn [count_loop].
  rewrite E. case_match; [done|apply IH].
Qed.

(** [log2i] and [log10i] are the integer logarithms, 0 for 0. *)
Theorem logs_exact (x : Z) : 0 <= x < 2 ^ 32 ->
  (exists r, log2i x = Some r /\ (x = 0 /\ r = 0 \/ 2 ^ r <= x < 2 ^ (r + 1)))
  /\ (exists r, log10i x = Some r /\ (x = 0 /\ r = 0 \/ 10 ^ r <= x < 10 ^ (r + 1))).
Proof.
  intros Hx. split.
  - destruct (count_loop_spec 2 33 x 0) as (r & E & _ & Hr); [lia..|]. exists r. split; [|done].
    rewrite Z.add_0_l in E. rewrite <- E. apply count_loop_ext. intros y. by rewrite Z.shiftr_div_pow2 by lia.
  - destruct (count_loop_spec 10 33 x 0) as (r & E & _ & Hr); [lia..|]. exists r. by rewrite Z.add_0_l in E.
Qed.

(** [bin_search] halves its interval until the criterion is met or the
    sign changes: whatever the criterion, the result is in the interval and is
    a perfect value, or one that is too low (or the lower end) next to one that
    is too high (or the upper end).  One call for each bit of the width of the
    interval is enough. *)
Theorem bin_search_finds (fuel : nat) (lo hi : Z) (crit : Z -> Z) :
  - 2 ^ 30 <= lo < hi -> hi <= 2 ^ 30 -> hi - lo <= 2 ^ Z.of_nat fuel ->
  exists r, bin_search (S fuel) lo hi crit = Some r /\ lo <= r < hi
    /\ (crit r = 0 \/ (r = lo \/ 0 < crit r) /\ (r + 1 = hi \/ crit (r + 1) < 0)).
Proof.
  revert lo hi. induction fuel as [|fuel IH]; intros lo hi Hlo Hhi Hf.
  { cbn in Hf. assert (hi = lo + 1) as -> by lia. exists lo. cbn [bin_search].
    rewrite s32_small by lia. rewrite (proj2 (Z.leb_le _ _)) by lia. split_and!; [done|lia..|]. right. auto. }
  rewrite Nat2Z.inj_succ, Z.pow_succ_r in Hf by lia.
  remember (S fuel) as f eqn:Ef. cbn [bin_search]. rewrite !s32_small by lia.
  destruct (Z.leb_spec (hi - 1) lo).
  { exists lo. split_and!; [done|lia..|]. right. split; [by left|left; lia]. }
  set (m := Z.quot (lo + hi) 2). assert (lo < m < hi /\ m - lo <= 2 ^ Z.of_nat fuel /\ hi - m <= 2 ^ Z.of_nat fuel) as (Hm & Hl & Hh).
  { unfold m. Z.quot_rem_to_equations. lia. }
  destruct (Z.eqb_spec (crit m) 0) as [Hz|Hz]; [exists m; auto with lia|].
  destruct (Z.ltb_spec 0 (crit m)); subst f.
  - destruct (IH m hi) as (r & -> & Hr & Hc); [lia..|]. exists r. split_and!; [done|lia..|].
    destruct Hc as [?|[[->|?] ?]]; auto.
  - destruct (IH lo m) as (r & -> & Hr & Hc); [lia..|]. exists r. split_and!; [done|lia..|].
    destruct Hc as [?|[? [E|?]]]; auto. right. split; [done|]. right. rewrite E. lia.
Qed.
