(* ===== verification/Crypt.v ===== *)
(** * Stream ciphers of the encryption module
    ([src/modules/io_crypt/crypt_lfsr64.c], [crypt_xtea.c], [hash_password.c])

    Both ciphers implement the operations of [crypt_cipher_t].  A call gets the
    bytes at [src] and gives those it writes to [dst]; the address of [dst]
    matters only for its alignment.  [dst] and [src] are the same buffer or do
    not overlap, and are equal modulo 8: the LFSR64 code aligns [dst] and reads
    words from [src]. *)
From S2P Require Import Prelude.

Definition u64 (x : Z) : Z := x mod 2 ^ 64.

(** Little-endian words. *)
Fixpoint le_word (l : list Z) : Z :=
  match l with
  | [] => 0
  | b :: l => b + 256 * le_word l
  end.
Fixpoint le_bytes (n : nat) (w : Z) : list Z :=
  match n with
  | O => []
  | S n => w mod 256 :: le_bytes n (w / 256)
  end.

(** ** LFSR *)

(** One clock of the 64-bit register. *)
Definition lfsr_step (lfsr : Z) : Z :=
  let bit := Z.land (Z.lxor (Z.lxor (Z.shiftr lfsr 63) (Z.shiftr lfsr 62))
                            (Z.lxor (Z.shiftr lfsr 60) (Z.shiftr lfsr 59))) 1 in
  Z.lor (u64 (Z.shiftl lfsr 1)) bit.

Definition lfsr_clock (lfsr : Z) (clocks : Z) : Z := Z.iter clocks lfsr_step lfsr.

Record lfsr64_ctx := mk_lfsr64_ctx {
  lfsr_state : Z; lfsr_init : Z;
  key_uint8 : list Z; key_uint64 : list Z;
  password : Z; current_block : Z; blocksize : Z }.

Definition set_state (c : lfsr64_ctx) (state block : Z) : lfsr64_ctx :=
  mk_lfsr64_ctx state (lfsr_init c) (key_uint8 c) (key_uint64 c) (password c) block (blocksize c).
Definition set_keys (c : lfsr64_ctx) (k8 k64 : list Z) : lfsr64_ctx :=
  mk_lfsr64_ctx (lfsr_state c) (lfsr_init c) k8 k64 (password c) (current_block c) (blocksize c).

Definition crypt_lfsr64_clock (c : lfsr64_ctx) (clocks : Z) : lfsr64_ctx :=
  set_state c (lfsr_clock (lfsr_state c) clocks) (current_block c).

Definition crypt_lfsr64_xor_uint8 (src : Z) (c : lfsr64_ctx) (offset : Z) : Z :=
  Z.lxor src (nth (Z.to_nat (offset mod 8)) (key_uint8 c) 0).

(** Eight bytes as one word. *)
Definition crypt_lfsr64_xor_uint64 (src : list Z) (c : lfsr64_ctx) (offset : Z) : list Z :=
  le_bytes 8 (Z.lxor (le_word src) (nth (Z.to_nat (offset mod 8)) (key_uint64 c) 0)).

(** The loops that clock the register up to [block]. *)
Definition clock_to (c : lfsr64_ctx) (block : Z) : lfsr64_ctx :=
  Z.iter (block - current_block c)
    (fun c => let c := crypt_lfsr64_clock c 64 in set_state c (lfsr_state c) (u32 (current_block c + 1))) c.

(** The keys of the current state, one word for every alignment. *)
Definition build_keys (c : lfsr64_ctx) : lfsr64_ctx :=
  let k8 := le_bytes 8 (lfsr_state c) in
  set_keys c k8 (map (fun pos => le_word (drop pos k8 ++ take pos k8)) (seq 0 8)).

Definition update_key (c : lfsr64_ctx) (offset : Z) (force : bool) : lfsr64_ctx :=
  let block := offset / blocksize c in
  if negb force && (current_block c =? block) then c
  else
    let c := if current_block c <? block then clock_to c block
             else clock_to (set_state c (lfsr_init c) 0) block in
    build_keys c.

(** At the start of a block. *)
Definition next_key (c : lfsr64_ctx) (offset : Z) : lfsr64_ctx :=
  if offset mod blocksize c =? 0 then update_key c offset false else c.

(** Bytes written, bytes left, offset and context after a loop. *)
Abbreviation progress := (list Z * list Z * Z * lfsr64_ctx)%type.

(** Byte by byte until [dst] is aligned. *)
Fixpoint align_loop (dst : Z) (src : list Z) (offset : Z) (c : lfsr64_ctx) : progress :=
  match src with
  | [] => ([], [], offset, c)
  | b :: r =>
    if dst mod 8 =? 0 then ([], src, offset, c)
    else
      let c := next_key c offset in
      let '(out, rest, offset', c') := align_loop (dst + 1) r (u32 (offset + 1)) c in
      (crypt_lfsr64_xor_uint8 b c offset :: out, rest, offset', c')
  end.

(** Words at even file offsets. *)
Fixpoint even_loop (src : list Z) (offset : Z) (c : lfsr64_ctx) : progress :=
  match src with
  | b0 :: b1 :: b2 :: b3 :: b4 :: b5 :: b6 :: b7 :: r =>
    let c := next_key c offset in
    let '(out, rest, offset', c') := even_loop r (u32 (offset + 8)) c in
    (crypt_lfsr64_xor_uint64 [b0; b1; b2; b3; b4; b5; b6; b7] c 0 ++ out, rest, offset', c')
  | _ => ([], src, offset, c)
  end.

(** Byte by byte to the end. *)
Fixpoint byte_loop (src : list Z) (offset : Z) (c : lfsr64_ctx) : list Z * Z * lfsr64_ctx :=
  match src with
  | [] => ([], offset, c)
  | b :: r =>
    let c := next_key c offset in
    let '(out, offset', c') := byte_loop r (u32 (offset + 1)) c in
    (crypt_lfsr64_xor_uint8 b c offset :: out, offset', c')
  end.

(** Words at odd file offsets: eight single bytes over the end of a block. *)
Fixpoint odd_loop (src : list Z) (offset : Z) (c : lfsr64_ctx) : progress :=
  match src with
  | b0 :: b1 :: b2 :: b3 :: b4 :: b5 :: b6 :: b7 :: r =>
    let word := [b0; b1; b2; b3; b4; b5; b6; b7] in
    let block_remain := offset mod blocksize c in
    let '(w, offset, c) :=
      if block_remain =? 0 then
        let c := update_key c offset false in (crypt_lfsr64_xor_uint64 word c offset, u32 (offset + 8), c)
      else if blocksize c <? u32 (block_remain + 8) then byte_loop word offset c
      else (crypt_lfsr64_xor_uint64 word c offset, u32 (offset + 8), c) in
    let '(out, rest, offset', c') := odd_loop r offset c in
    (w ++ out, rest, offset', c')
  | _ => ([], src, offset, c)
  end.

Definition crypt_lfsr64_encrypt (c : lfsr64_ctx) (dst : Z) (src : list Z) (offset : Z) : list Z * lfsr64_ctx :=
  let c := update_key c offset false in
  let '(out1, src, offset, c) := align_loop dst src offset c in
  match src with
  | [] => (out1, c)
  | _ =>
    let '(out2, src, offset, c) := if offset mod 8 =? 0 then even_loop src offset c else ([], src, offset, c) in
    let '(out3, src, offset, c) := odd_loop src offset c in
    let '(out4, offset, c) := byte_loop src offset c in
    (out1 ++ out2 ++ out3 ++ out4, c)
  end.

Definition crypt_lfsr64_decrypt (c : lfsr64_ctx) (dst : Z) (src : list Z) (offset : Z) : list Z * lfsr64_ctx :=
  crypt_lfsr64_encrypt c dst src offset.

Definition crypt_lfsr64_set_blocksize (c : lfsr64_ctx) (size : Z) : lfsr64_ctx :=
  mk_lfsr64_ctx (lfsr_state c) (lfsr_init c) (key_uint8 c) (key_uint64 c) (password c) (current_block c) size.

Definition crypt_lfsr64_blocksize : Z := 0x20000.

Definition crypt_lfsr64_reset (c : lfsr64_ctx) : lfsr64_ctx :=
  update_key (crypt_lfsr64_set_blocksize (set_state c 0 0) crypt_lfsr64_blocksize) 0 true.

(** [garbage]: what [malloc] left in the context. *)
Definition crypt_lfsr64_init (garbage : lfsr64_ctx) (password : Z) : lfsr64_ctx :=
  let state := lfsr_clock password 1024 in
  let state := lfsr_clock state (Z.land state 255) in
  crypt_lfsr64_reset (mk_lfsr64_ctx state state (key_uint8 garbage) (key_uint64 garbage) password
                        (current_block garbage) (blocksize garbage)).

(** ** XTEA *)

Definition delta : Z := 0x9E3779B9.

(** The mixing term of a half round. *)
Definition xtea_mix (v : Z) : Z := u32 (Z.lxor (u32 (Z.shiftl v 4)) (Z.shiftr v 5) + v).
Definition xtea_key (key : list Z) (sum i : Z) : Z := u32 (sum + nth (Z.to_nat (Z.land i 3)) key 0).

Definition xtea_round (key : list Z) (s : Z * Z * Z) : Z * Z * Z :=
  let '(v0, v1, sum) := s in
  let v0 := u32 (v0 + Z.lxor (xtea_mix v1) (xtea_key key sum sum)) in
  let sum := u32 (sum + delta) in
  let v1 := u32 (v1 + Z.lxor (xtea_mix v0) (xtea_key key sum (Z.shiftr sum 11))) in
  (v0, v1, sum).

Definition xtea_crypt_block (num_rounds : nat) (v : Z * Z) (key : list Z) : Z * Z :=
  let '(v0, v1, _) := Nat.iter num_rounds (xtea_round key) (v.1, v.2, 0) in (v0, v1).

Definition xtea_unround (key : list Z) (s : Z * Z * Z) : Z * Z * Z :=
  let '(v0, v1, sum) := s in
  let v1 := u32 (v1 - Z.lxor (xtea_mix v0) (xtea_key key sum (Z.shiftr sum 11))) in
  let sum := u32 (sum - delta) in
  let v0 := u32 (v0 - Z.lxor (xtea_mix v1) (xtea_key key sum sum)) in
  (v0, v1, sum).

Definition xtea_decrypt_block (num_rounds : nat) (v : Z * Z) (key : list Z) : Z * Z :=
  let '(v0, v1, _) := Nat.iter num_rounds (xtea_unround key) (v.1, v.2, u32 (delta * Z.of_nat num_rounds)) in (v0, v1).

(** The encrypted counter. *)
Definition ctr_block (key : list Z) (nonce counter : Z) : Z * Z :=
  xtea_crypt_block 64 (u32 (Z.shiftr nonce 32), u32 (Z.lxor counter nonce)) key.

(** Eight bytes as two words. *)
Definition ctr_xtea_block (buf : list Z) (key : list Z) (nonce counter : Z) : list Z :=
  let '(c0, c1) := ctr_block key nonce counter in
  le_bytes 4 (Z.lxor (le_word (take 4 buf)) c0) ++ le_bytes 4 (Z.lxor (le_word (drop 4 buf)) c1).

Definition ctr_xtea_block_partial (buf : list Z) (key : list Z) (nonce counter start : Z) : list Z :=
  let '(c0, c1) := ctr_block key nonce counter in
  imap (fun i b =>
    let p := Z.of_nat i + start in
    Z.lxor b (if p <? 4 then nth (Z.to_nat p) (le_bytes 4 c0) 0 else nth (Z.to_nat (p - 4)) (le_bytes 4 c1) 0)) buf.

Record xtea_ctx := mk_xtea_ctx { xtea_password : list Z; nonce : Z }.

(** Whole blocks, then the rest. *)
Fixpoint xtea_loop (c : xtea_ctx) (buf : list Z) (block_offset : Z) : list Z :=
  match buf with
  | b0 :: b1 :: b2 :: b3 :: b4 :: b5 :: b6 :: b7 :: r =>
    ctr_xtea_block [b0; b1; b2; b3; b4; b5; b6; b7] (xtea_password c) (nonce c) block_offset ++
    xtea_loop c r (u32 (block_offset + 1))
  | [] => []
  | _ => ctr_xtea_block_partial buf (xtea_password c) (nonce c) block_offset 0
  end.

Definition crypt_xtea_encrypt (c : xtea_ctx) (dst : Z) (src : list Z) (offset : Z) : list Z * xtea_ctx :=
  let block_offset := Z.shiftr offset 3 in
  let remain := offset mod 8 in
  if remain =? 0 then (xtea_loop c src block_offset, c)
  else
    let remain_len := Z.to_nat (8 - remain) in
    (ctr_xtea_block_partial (take remain_len src) (xtea_password c) (nonce c) block_offset remain ++
     xtea_loop c (drop remain_len src) (u32 (block_offset + 1)), c).

Definition crypt_xtea_decrypt (c : xtea_ctx) (dst : Z) (src : list Z) (offset : Z) : list Z * xtea_ctx :=
  crypt_xtea_encrypt c dst src offset.

Definition crypt_xtea_init (password : list Z) (nonce : Z) : xtea_ctx := mk_xtea_ctx password nonce.

(** ** Passwords *)

Fixpoint hash_loop (password : list Z) (pos hash : Z) : Z :=
  match password with
  | [] => hash
  | ch :: r =>
    let mask := Z.lor ch (Z.shiftl ch 8) in
    let mask := Z.lor mask (Z.shiftl mask 16) in
    let mask := u64 (Z.lor mask (Z.shiftl mask 32)) in
    let mask := lfsr_clock mask (u32 (8192 + pos * 11 + ch)) in
    hash_loop r (pos + 1) (lfsr_clock (Z.lxor hash mask) 8192)
  end.

Definition hash_password (password : list Z) : Z := lfsr_clock (hash_loop password 0 0xDEADBEEFDEADBEEF) 8192.

(** ** The interface *)

(** The function pointers of [crypt_cipher_t] that process data. *)
Class crypt_cipher_t (ctx : Type) := {
  encrypt : ctx -> Z -> list Z -> Z -> list Z * ctx;
  decrypt : ctx -> Z -> list Z -> Z -> list Z * ctx;
}.

Global Instance lfsr64_cipher : crypt_cipher_t lfsr64_ctx := {|
  encrypt := crypt_lfsr64_encrypt; decrypt := crypt_lfsr64_decrypt |}.
Global Instance xtea_cipher : crypt_cipher_t xtea_ctx := {|
  encrypt := crypt_xtea_encrypt; decrypt := crypt_xtea_decrypt |}.
