(* ===== verification/CryptProps.v ===== *)
(** * Properties of the stream ciphers

    Both ciphers xor the data with a key stream that depends on the file offset
    only: not on the alignment of the buffers, the state left by earlier calls or
    the way the data is cut into calls.  Decryption therefore inverts encryption
    for any two ways of cutting. *)
From S2P Require Import Prelude Crypt.

(** ** Bytes and words *)

Definition is_byte (b : Z) : Prop := 0 <= b < 256.

Lemma land_lxor_r a b c : Z.land (Z.lxor a b) c = Z.lxor (Z.land a c) (Z.land b c).
Proof. apply Z.bits_inj'. intros n Hn. rewrite !Z.land_spec, !Z.lxor_spec, !Z.land_spec. by destruct (Z.testbit a n), (Z.testbit b n), (Z.testbit c n). Qed.

Lemma lxor_mod a b : Z.lxor a b mod 256 = Z.lxor (a mod 256) (b mod 256).
Proof. change 256 with (2 ^ 8). rewrite <- !Z.land_ones by lia. apply land_lxor_r. Qed.

Lemma lxor_div a b : Z.lxor a b / 256 = Z.lxor (a / 256) (b / 256).
Proof. change 256 with (2 ^ 8). rewrite <- !Z.shiftr_div_pow2 by lia. apply Z.shiftr_lxor. Qed.

Lemma lxor_byte a b : is_byte a -> is_byte b -> is_byte (Z.lxor a b).
Proof.
  unfold is_byte. intros Ha Hb. rewrite <- (Z.mod_small a 256), <- (Z.mod_small b 256) by done.
  rewrite <- lxor_mod. apply Z.mod_pos_bound. lia.
Qed.

Lemma le_bytes_lxor l k : Forall is_byte l -> Forall is_byte k -> length l = length k ->
  le_bytes (length l) (Z.lxor (le_word l) (le_word k)) = zip_with Z.lxor l k.
Proof.
  intros Hl. revert k. induction Hl as [|a l Ha Hl IH]; intros [|b k] Hk Hlen; try done.
  inversion Hk as [|? ? Hb Hk']; subst. simpl in Hlen. cbn [length le_bytes le_word zip_with].
  unfold is_byte in Ha, Hb. rewrite lxor_mod, lxor_div.
  assert (forall x w, 0 <= x < 256 -> (x + 256 * w) mod 256 = x) as Hm.
  { intros x w Hx. symmetry. apply (Z.mod_unique _ 256 w); lia. }
  assert (forall x w, 0 <= x < 256 -> (x + 256 * w) / 256 = w) as Hd.
  { intros x w Hx. symmetry. apply (Z.div_unique _ 256 w x); lia. }
  rewrite !Hm, !Hd by done. f_equal. apply IH; [done|lia].
Qed.

Lemma le_bytes_range n : forall w, Forall is_byte (le_bytes n w).
Proof. induction n as [|n IH]; intros w; constructor; [apply Z.mod_pos_bound; lia|apply IH]. Qed.

Lemma le_bytes_len n : forall w, length (le_bytes n w) = n.
Proof. induction n as [|n IH]; intros w; simpl; [done|]. by rewrite IH. Qed.

Lemma le_word_bytes n : forall w, 0 <= w < 256 ^ Z.of_nat n -> le_word (le_bytes n w) = w.
Proof.
  induction n as [|n IH]; intros w Hw; cbn [le_bytes le_word]; [simpl in Hw; lia|].
  rewrite Nat2Z.inj_succ, Z.pow_succ_r in Hw by lia. rewrite IH.
  - pose proof (Z.div_mod w 256). lia.
  - split; [apply Z.div_pos; lia|apply Z.div_lt_upper_bound; lia].
Qed.

(** ** Key streams *)

Fixpoint xor_stream (ks : Z -> Z) (o : Z) (l : list Z) : list Z :=
  match l with
  | [] => []
  | b :: l => Z.lxor b (ks o) :: xor_stream ks (o + 1) l
  end.

Lemma xor_stream_app ks l1 : forall o l2,
  xor_stream ks o (l1 ++ l2) = xor_stream ks o l1 ++ xor_stream ks (o + Z.of_nat (length l1)) l2.
Proof.
  induction l1 as [|b l1 IH]; intros o l2; cbn [app xor_stream length].
  - by rewrite Z.add_0_r.
  - rewrite IH. by replace (o + Z.of_nat (S (length l1))) with (o + 1 + Z.of_nat (length l1)) by lia.
Qed.

Lemma xor_stream_len ks l : forall o, length (xor_stream ks o l) = length l.
Proof. induction l as [|b l IH]; intros o; simpl; [done|]. by rewrite IH. Qed.

Lemma xor_stream_ext ks ks' l : forall o, 0 <= o ->
  (forall i, o <= i < o + Z.of_nat (length l) -> ks' i = ks i) -> xor_stream ks' o l = xor_stream ks o l.
Proof.
  induction l as [|b l IH]; intros o Ho H; [done|]. cbn [xor_stream length] in *.
  rewrite H by lia. f_equal. apply IH; [lia|]. intros i Hi. apply H. lia.
Qed.

Lemma xor_stream_twice ks l : forall o, xor_stream ks o (xor_stream ks o l) = l.
Proof.
  induction l as [|b l IH]; intros o; [done|]. cbn [xor_stream]. rewrite IH.
  by rewrite Z.lxor_assoc, Z.lxor_nilpotent, Z.lxor_0_r.
Qed.

Lemma xor_stream_bytes ks l : (forall i, is_byte (ks i)) -> Forall is_byte l -> forall o, Forall is_byte (xor_stream ks o l).
Proof. intros Hk Hl. induction Hl; intros o; simpl; constructor; [by apply lxor_byte|auto]. Qed.

(** The stream over one word, as a list of key bytes. *)
Lemma xor_stream_zip ks l : forall o k, length k = length l ->
  (forall i, (i < length l)%nat -> nth i k 0 = ks (o + Z.of_nat i)) ->
  zip_with Z.lxor l k = xor_stream ks o l.
Proof.
  induction l as [|b l IH]; intros o [|x k] Hlen Hk; try done. cbn [zip_with xor_stream].
  f_equal; [f_equal|].
  - specialize (Hk 0%nat). simpl in Hk. rewrite Z.add_0_r in Hk. rewrite Hk; [done|lia].
  - apply IH; [simpl in Hlen; lia|]. intros i Hi. specialize (Hk (S i)). simpl in Hk.
    rewrite Hk by lia. f_equal. lia.
Qed.

(** ** The register *)

Lemma ziter_nat {A} n (f : A -> A) x : 0 <= n -> Z.iter n f x = Nat.iter (Z.to_nat n) f x.
Proof. intros Hn. rewrite iter_nat_of_Z by done. by rewrite Zabs2Nat.abs_nat_nonneg. Qed.

(** The state for a block: 64 clocks for each block before it. *)
Definition state_at (init block : Z) : Z := Z.iter block (fun s => lfsr_clock s 64) init.

Lemma state_at_succ init k : 0 <= k -> state_at init (Z.succ k) = lfsr_clock (state_at init k) 64.
Proof. intros Hk. unfold state_at. by rewrite !ziter_nat, Z2Nat.inj_succ by lia. Qed.

#[local] Opaque lfsr_clock.

(** The key byte at a file offset. *)
Definition lfsr_ks (init bs o : Z) : Z := nth (Z.to_nat (o mod 8)) (le_bytes 8 (state_at init (o / bs))) 0.

(** The keys are those of the current block. *)
Record key_inv (c : lfsr64_ctx) : Prop := {
  ki_block : 0 <= current_block c < 2 ^ 32;
  ki_size : 0 < blocksize c < 2 ^ 32;
  ki_size8 : blocksize c mod 8 = 0;
  ki_state : lfsr_state c = state_at (lfsr_init c) (current_block c);
  ki_keys : c = build_keys c;
}.

Definition same_stream (c c' : lfsr64_ctx) : Prop := lfsr_init c' = lfsr_init c /\ blocksize c' = blocksize c.

Lemma clock_to_ok c block : 0 <= current_block c <= block -> block < 2 ^ 32 ->
  lfsr_state c = state_at (lfsr_init c) (current_block c) ->
  same_stream c (clock_to c block) /\ current_block (clock_to c block) = block /\
  lfsr_state (clock_to c block) = state_at (lfsr_init c) block.
Proof.
  intros Hb Hlt Hs. unfold clock_to. rewrite ziter_nat by lia.
  assert (H : forall n, (n <= Z.to_nat (block - current_block c))%nat ->
    let c' := Nat.iter n (fun c => let c := crypt_lfsr64_clock c 64 in
                                   set_state c (lfsr_state c) (u32 (current_block c + 1))) c in
    same_stream c c' /\ current_block c' = current_block c + Z.of_nat n /\
    lfsr_state c' = state_at (lfsr_init c) (current_block c + Z.of_nat n)).
  { induction n as [|n IH]; intros Hn; [rewrite Z.add_0_r; by repeat split|].
    destruct (IH ltac:(lia)) as ([H1 H2] & H3 & H4). cbn [Nat.iter nat_rect].
    change (nat_rect _ c _ n) with (Nat.iter n (fun c => let c := crypt_lfsr64_clock c 64 in
      set_state c (lfsr_state c) (u32 (current_block c + 1))) c).
    set (c' := Nat.iter n _ c) in *. unfold crypt_lfsr64_clock, set_state. cbn.
    rewrite H3, H4, u32_small by lia. split; [by split|]. split; [lia|].
    replace (current_block c + Z.of_nat (S n)) with (Z.succ (current_block c + Z.of_nat n)) by lia.
    by rewrite state_at_succ by lia. }
  destruct (H (Z.to_nat (block - current_block c)) ltac:(lia)) as (H1 & H2 & H3).
  rewrite Z2Nat.id in * by lia. replace (current_block c + (block - current_block c)) with block in * by lia. done.
Qed.

Lemma build_keys_idemp c : build_keys (build_keys c) = build_keys c.
Proof. done. Qed.

Lemma div_block o bs : 0 <= o < 2 ^ 32 -> 0 < bs -> 0 <= o / bs < 2 ^ 32.
Proof. intros Ho Hb. split; [apply Z.div_pos; lia|]. apply Z.div_lt_upper_bound; nia. Qed.

Lemma build_keys_inv c c' block : 0 <= block < 2 ^ 32 -> 0 < blocksize c < 2 ^ 32 -> blocksize c mod 8 = 0 ->
  same_stream c c' -> current_block c' = block -> lfsr_state c' = state_at (lfsr_init c) block ->
  key_inv (build_keys c') /\ same_stream c (build_keys c') /\ current_block (build_keys c') = block.
Proof.
  intros Hb Hs H8 [E1 E2] E3 E4. split; [|by split]. split; cbn; rewrite ?E1, ?E2, ?E3; try done.
Qed.

(** Keys for the block of an offset, whatever they were for. *)
Lemma update_key_ok c o : key_inv c -> 0 <= o < 2 ^ 32 ->
  key_inv (update_key c o false) /\ same_stream c (update_key c o false) /\
  current_block (update_key c o false) = o / blocksize c.
Proof.
  intros Hc Ho. pose proof (ki_size c Hc) as Hs. pose proof (div_block o (blocksize c) Ho ltac:(lia)) as Hdiv.
  pose proof (ki_block c Hc) as Hb. unfold update_key. cbn [negb andb].
  destruct (Z.eqb_spec (current_block c) (o / blocksize c)) as [E|_]; [done|].
  destruct (Z.ltb_spec (current_block c) (o / blocksize c)) as [Hlt|Hge].
  - destruct (clock_to_ok c (o / blocksize c)) as (H1 & H2 & H3); [lia|lia|apply Hc|].
    apply build_keys_inv; [done|done|apply Hc|done|done|done].
  - destruct (clock_to_ok (set_state c (lfsr_init c) 0) (o / blocksize c)) as (H1 & H2 & H3); cbn; [lia|lia|done|].
    apply build_keys_inv; [done|done|apply Hc|exact H1|exact H2|exact H3].
Qed.

(** After a reset the keys are those of block 0, for the password of the context. *)
Lemma reset_ok c : key_inv (crypt_lfsr64_reset c) /\ lfsr_init (crypt_lfsr64_reset c) = lfsr_init c /\
  blocksize (crypt_lfsr64_reset c) = crypt_lfsr64_blocksize.
Proof.
  unfold crypt_lfsr64_reset, update_key. cbn.
  destruct (build_keys_inv (crypt_lfsr64_set_blocksize c crypt_lfsr64_blocksize)
    (clock_to (set_state (crypt_lfsr64_set_blocksize (set_state c 0 0) crypt_lfsr64_blocksize) (lfsr_init c) 0) 0) 0)
    as (H1 & H2 & _); done.
Qed.

Definition ctx_ks (c : lfsr64_ctx) : Z -> Z := lfsr_ks (lfsr_init c) (blocksize c).

Lemma same_ks c c' : same_stream c c' -> ctx_ks c' = ctx_ks c.
Proof. unfold ctx_ks. by intros [-> ->]. Qed.

Lemma same_trans c1 c2 c3 : same_stream c1 c2 -> same_stream c2 c3 -> same_stream c1 c3.
Proof. intros [H1 H2] [H3 H4]. split; congruence. Qed.

(** Ready for the byte at [o]: the block's keys are there, or will be made. *)
Definition ready (c : lfsr64_ctx) (o : Z) : Prop :=
  key_inv c /\ (current_block c = o / blocksize c \/ o mod blocksize c = 0).

(** The keys of the block of [o] are there. *)
Definition keyed (c : lfsr64_ctx) (o : Z) : Prop := key_inv c /\ current_block c = o / blocksize c.

Lemma next_key_ok c o : ready c o -> 0 <= o < 2 ^ 32 -> keyed (next_key c o) o /\ same_stream c (next_key c o).
Proof.
  intros [Hc Hr] Ho. unfold next_key. destruct (Z.eqb_spec (o mod blocksize c) 0) as [E|E].
  - destruct (update_key_ok c o Hc Ho) as (H1 & H2 & H3). split; [|done]. split; [done|]. by rewrite (proj2 H2).
  - destruct Hr as [Hr|Hr]; [|done]. by repeat split; try apply Hc.
Qed.

Lemma advance c o k : keyed c o -> 0 <= o -> 0 <= k -> o mod blocksize c + k <= blocksize c -> ready c (o + k).
Proof.
  intros [Hc Hb] Ho Hk Hle. split; [done|]. pose proof (ki_size c Hc) as Hs. rewrite Hb.
  pose proof (Z.div_mod o (blocksize c)) as Hd. pose proof (Z.mod_pos_bound o (blocksize c)) as Hm.
  destruct (Z.eq_dec (o mod blocksize c + k) (blocksize c)) as [E|E]; [right|left].
  - symmetry. apply (Z.mod_unique _ _ (o / blocksize c + 1)); lia.
  - apply (Z.div_unique _ _ _ (o mod blocksize c + k)); lia.
Qed.

Lemma advance1 c o : keyed c o -> 0 <= o -> ready c (o + 1).
Proof.
  intros Hc Ho. apply advance; [done|done|lia|]. pose proof (ki_size c (proj1 Hc)).
  pose proof (Z.mod_pos_bound o (blocksize c)). lia.
Qed.

Lemma xor_uint8_ok c o b : keyed c o -> crypt_lfsr64_xor_uint8 b c o = Z.lxor b (ctx_ks c o).
Proof.
  intros [Hc Hb]. unfold crypt_lfsr64_xor_uint8. rewrite (ki_keys c Hc). cbn [key_uint8 build_keys set_keys].
  rewrite (ki_state c Hc), Hb. done.
Qed.

(** The key word for an alignment holds the bytes of the stream. *)
Lemma rotate_nth (l : list Z) r i : length l = 8%nat -> (r < 8)%nat -> (i < 8)%nat ->
  nth i (drop r l ++ take r l) 0 = nth ((r + i) mod 8) l 0.
Proof.
  intros Hl Hr Hi. rewrite !nth_lookup. f_equal. destruct (decide (r + i < 8)%nat) as [Hlt|Hge].
  - rewrite lookup_app_l by (rewrite length_drop; lia). rewrite lookup_drop, Nat.mod_small by lia. done.
  - rewrite lookup_app_r by (rewrite length_drop; lia). rewrite length_drop, lookup_take_lt by lia.
    f_equal. replace (r + i)%nat with (i - (8 - r) + 1 * 8)%nat by lia. rewrite Nat.Div0.mod_add, Nat.mod_small by lia. lia.
Qed.

Lemma xor_uint64_ok c o w : keyed c o -> 0 <= o -> o mod blocksize c + 8 <= blocksize c ->
  Forall is_byte w -> length w = 8%nat ->
  crypt_lfsr64_xor_uint64 w c o = xor_stream (ctx_ks c) o w.
Proof.
  intros [Hc Hb] Ho Hin Hw Hl. unfold crypt_lfsr64_xor_uint64.
  pose proof (Z.mod_pos_bound o 8 ltac:(lia)) as H8. set (r := Z.to_nat (o mod 8)).
  rewrite (ki_keys c Hc). cbn [key_uint64 build_keys set_keys].
  set (k8 := le_bytes 8 (lfsr_state c)). assert (Hk8 : length k8 = 8%nat) by apply le_bytes_len.
  assert (nth r (map (fun pos => le_word (drop pos k8 ++ take pos k8)) (seq 0 8)) 0
    = le_word (drop r k8 ++ take r k8)) as ->.
  { rewrite nth_lookup. change (map ?f ?l) with (f <$> l). rewrite list_lookup_fmap, lookup_seq_lt by lia. done. }
  assert (Hrot : length (drop r k8 ++ take r k8) = 8%nat) by (rewrite length_app, length_drop, length_take; lia).
  assert (Hbytes : Forall is_byte (drop r k8 ++ take r k8)).
  { pose proof (le_bytes_range 8 (lfsr_state c)) as H. apply Forall_app. split; [by apply Forall_drop|by apply Forall_take]. }
  rewrite <- Hl, le_bytes_lxor by (done || lia). apply xor_stream_zip; [lia|].
  intros i Hi. rewrite rotate_nth by lia. unfold ctx_ks, lfsr_ks. unfold k8. rewrite (ki_state c Hc), Hb. f_equal.
  - unfold r. rewrite <- (Nat2Z.id ((Z.to_nat (o mod 8) + i) mod 8)). f_equal.
    rewrite Nat2Z.inj_mod, Nat2Z.inj_add, Z2Nat.id by lia. rewrite Zplus_mod_idemp_l. done.
  - f_equal. apply f_equal. change (blocksize (build_keys c)) with (blocksize c). pose proof (Z.mod_pos_bound o (blocksize c)) as Hm. pose proof (ki_size c Hc).
    pose proof (Z.div_mod o (blocksize c)). apply (Z.div_unique _ _ _ (o mod blocksize c + Z.of_nat i)); lia.
Qed.

(** ** The loops *)

(** A loop did a part of the data: it is the stream, and the rest is ready. *)
Definition part (c : lfsr64_ctx) (o : Z) (src out rest : list Z) (o' : Z) (c' : lfsr64_ctx) : Prop :=
  exists pre, src = pre ++ rest /\ out = xor_stream (ctx_ks c) o pre /\ o' = o + Z.of_nat (length pre) /\
    ready c' o' /\ same_stream c c'.

Lemma part_nil c o src : ready c o -> part c o src [] src o c.
Proof. intros Hr. exists []. rewrite Z.add_0_r. by repeat split; try apply Hr. Qed.

(** One step in front of the rest of a loop. *)
Lemma part_step c o w c1 r out rest o' c' : Forall is_byte w -> same_stream c c1 ->
  part c1 (o + Z.of_nat (length w)) r out rest o' c' ->
  part c o (w ++ r) (xor_stream (ctx_ks c1) o w ++ out) rest o' c'.
Proof.
  intros Hw Hs (pre & -> & -> & -> & Hr & Hs'). exists (w ++ pre).
  rewrite (same_ks c c1 Hs), xor_stream_app, length_app, <- (assoc_L (++)).
  split_and!; [done|done|lia| |by eapply same_trans].
  by replace (o + Z.of_nat (length w + length pre)) with (o + Z.of_nat (length w) + Z.of_nat (length pre)) by lia.
Qed.

Ltac mk_word b0 b1 b2 b3 b4 b5 b6 b7 r :=
  change (b0 :: b1 :: b2 :: b3 :: b4 :: b5 :: b6 :: b7 :: r) with ([b0; b1; b2; b3; b4; b5; b6; b7] ++ r).

Lemma align_loop_ok src : forall dst o c, ready c o -> Forall is_byte src -> 0 <= o ->
  o + Z.of_nat (length src) < 2 ^ 32 ->
  let '(out, rest, o', c') := align_loop dst src o c in part c o src out rest o' c'.
Proof.
  induction src as [|b r IH]; intros dst o c Hr Hb Ho Hlen; cbn [align_loop]; [by apply part_nil|].
  destruct (dst mod 8 =? 0); [by apply part_nil|]. inversion Hb as [|? ? Hb1 Hb2]; subst.
  cbn [length] in Hlen. destruct (next_key_ok c o Hr ltac:(lia)) as [Hk Hs].
  specialize (IH (dst + 1) (u32 (o + 1)) (next_key c o)). rewrite (u32_small (o + 1)) in * by lia.
  destruct (align_loop _ r (o + 1) (next_key c o)) as [[[out rest] o'] c'].
  rewrite xor_uint8_ok by done. apply (part_step c o [b] (next_key c o)); [by constructor|done|].
  apply IH; [by apply advance1|done|lia|lia].
Qed.

Lemma byte_loop_ok src : forall o c, ready c o -> Forall is_byte src -> 0 <= o ->
  o + Z.of_nat (length src) < 2 ^ 32 ->
  let '(out, o', c') := byte_loop src o c in part c o src out [] o' c'.
Proof.
  induction src as [|b r IH]; intros o c Hr Hb Ho Hlen; cbn [byte_loop]; [by apply part_nil|].
  inversion Hb as [|? ? Hb1 Hb2]; subst. cbn [length] in Hlen.
  destruct (next_key_ok c o Hr ltac:(lia)) as [Hk Hs].
  specialize (IH (u32 (o + 1)) (next_key c o)). rewrite (u32_small (o + 1)) in * by lia.
  destruct (byte_loop r (o + 1) (next_key c o)) as [[out o'] c'].
  rewrite xor_uint8_ok by done. apply (part_step c o [b] (next_key c o)); [by constructor|done|].
  apply IH; [by apply advance1|done|lia|lia].
Qed.

(** A word at an even offset does not reach into the next block. *)
Lemma even_in_block o bs : 0 < bs -> bs mod 8 = 0 -> o mod 8 = 0 -> 0 <= o -> o mod bs + 8 <= bs.
Proof.
  intros Hb Hb8 Ho8 Ho. apply Z.mod_divide in Hb8 as [k Hk]; [|lia]. apply Z.mod_divide in Ho8 as [j Hj]; [|lia].
  pose proof (Z.mod_pos_bound o bs Hb). subst bs o. rewrite Z.mul_mod_distr_r in * by lia. lia.
Qed.

Lemma even_loop_ok n : forall src o c, (length src < n)%nat -> ready c o -> Forall is_byte src -> 0 <= o ->
  o mod 8 = 0 -> o + Z.of_nat (length src) < 2 ^ 32 ->
  let '(out, rest, o', c') := even_loop src o c in part c o src out rest o' c'.
Proof.
  induction n as [|n IH]; intros src o c Hn Hr Hb Ho H8 Hlen; [lia|].
  destruct src as [|b0 [|b1 [|b2 [|b3 [|b4 [|b5 [|b6 [|b7 r]]]]]]]]; try by apply part_nil.
  cbn [even_loop]. mk_word b0 b1 b2 b3 b4 b5 b6 b7 r. cbn [length] in Hn, Hlen.
  assert (Hb' : Forall is_byte ([b0; b1; b2; b3; b4; b5; b6; b7] ++ r)) by done. apply Forall_app in Hb' as [Hw Hr'].
  destruct (next_key_ok c o Hr ltac:(lia)) as [Hk Hs].
  specialize (IH r (u32 (o + 8)) (next_key c o)). rewrite (u32_small (o + 8)) in * by lia.
  destruct (even_loop r (o + 8) (next_key c o)) as [[[out rest] o'] c'].
  pose proof (ki_size _ (proj1 Hk)) as Hsz.
  assert (Hin : o mod blocksize (next_key c o) + 8 <= blocksize (next_key c o)).
  { apply even_in_block; [lia|apply Hk|done|done]. }
  assert (crypt_lfsr64_xor_uint64 [b0; b1; b2; b3; b4; b5; b6; b7] (next_key c o) 0 =
    crypt_lfsr64_xor_uint64 [b0; b1; b2; b3; b4; b5; b6; b7] (next_key c o) o) as ->.
  { unfold crypt_lfsr64_xor_uint64. by rewrite H8. }
  rewrite xor_uint64_ok by done. apply (part_step c o _ (next_key c o)); [done|done|].
  change (Z.of_nat (length [b0; b1; b2; b3; b4; b5; b6; b7])) with 8.
  apply IH; [lia|by apply advance|done|lia| |lia]. rewrite <- Zplus_mod_idemp_l, H8. done.
Qed.

Lemma odd_loop_ok n : forall src o c, (length src < n)%nat -> ready c o -> Forall is_byte src -> 0 <= o ->
  o + Z.of_nat (length src) < 2 ^ 32 ->
  let '(out, rest, o', c') := odd_loop src o c in part c o src out rest o' c'.
Proof.
  induction n as [|n IH]; intros src o c Hn Hr Hb Ho Hlen; [lia|].
  destruct src as [|b0 [|b1 [|b2 [|b3 [|b4 [|b5 [|b6 [|b7 r]]]]]]]]; try by apply part_nil.
  cbn [odd_loop]. mk_word b0 b1 b2 b3 b4 b5 b6 b7 r. cbn [length] in Hn, Hlen.
  assert (Hb' : Forall is_byte ([b0; b1; b2; b3; b4; b5; b6; b7] ++ r)) by done. apply Forall_app in Hb' as [Hw Hr'].
  set (w := [b0; b1; b2; b3; b4; b5; b6; b7]) in *. assert (Hw8 : length w = 8%nat) by done.
  assert (Hword : exists c1, (if o mod blocksize c =? 0 then
        let c := update_key c o false in (crypt_lfsr64_xor_uint64 w c o, u32 (o + 8), c)
      else if blocksize c <? u32 (o mod blocksize c + 8) then byte_loop w o c
      else (crypt_lfsr64_xor_uint64 w c o, u32 (o + 8), c)) = (xor_stream (ctx_ks c1) o w, o + 8, c1) /\
      same_stream c c1 /\ ready c1 (o + 8)).
  { destruct Hr as [Hc Hr]. pose proof (ki_size c Hc) as Hsz. pose proof (ki_size8 c Hc) as Hsz8.
    apply Z.mod_divide in Hsz8 as [k Hk]; [|lia]. pose proof (Z.mod_pos_bound o (blocksize c) ltac:(lia)) as Hm.
    pose proof (Z.mod_le o (blocksize c) Ho ltac:(lia)) as Hmo.
    rewrite !u32_small by lia. destruct (Z.eqb_spec (o mod blocksize c) 0) as [E|E].
    - destruct (update_key_ok c o Hc ltac:(lia)) as (H1 & H2 & H3). exists (update_key c o false).
      assert (Hkd : keyed (update_key c o false) o) by (split; [done|by rewrite (proj2 H2)]).
      assert (Hin : o mod blocksize (update_key c o false) + 8 <= blocksize (update_key c o false)).
      { rewrite (proj2 H2), E. lia. }
      cbv zeta. rewrite xor_uint64_ok by done. split; [done|]. split; [done|]. by apply advance.
    - destruct Hr as [Hr|Hr]; [|done]. destruct (Z.ltb_spec (blocksize c) (o mod blocksize c + 8)) as [Hlt|Hge].
      + pose proof (byte_loop_ok w o c) as Hbl. destruct (byte_loop w o c) as [[out o'] c1].
        destruct Hbl as (pre & Hpre & -> & -> & Hr1 & Hs); [by split; [|left]|done|done|rewrite Hw8; lia|].
        rewrite app_nil_r in Hpre. subst pre. rewrite Hw8 in *. exists c1. by rewrite (same_ks c c1).
      + exists c. rewrite xor_uint64_ok by done. split; [done|]. split; [done|]. by apply advance. }
  destruct Hword as (c1 & E & Hs & Hr1). cbv zeta in E |- *. rewrite E. specialize (IH r (o + 8) c1).
  destruct (odd_loop r (o + 8) c1) as [[[out rest] o'] c'].
  apply (part_step c o w c1); [done|done|]. rewrite Hw8. apply IH; [lia|done|done|lia|lia].
Qed.

Lemma part_app c o src out1 mid o1 c1 out2 rest o2 c2 : part c o src out1 mid o1 c1 -> part c1 o1 mid out2 rest o2 c2 ->
  part c o src (out1 ++ out2) rest o2 c2.
Proof.
  intros (p1 & -> & -> & -> & Hr1 & Hs1) (p2 & -> & -> & -> & Hr2 & Hs2). exists (p1 ++ p2).
  rewrite (same_ks c c1 Hs1), xor_stream_app, length_app, (assoc_L (++)).
  split_and!; [done|done|lia| |by eapply same_trans].
  by replace (o + Z.of_nat (length p1 + length p2)) with (o + Z.of_nat (length p1) + Z.of_nat (length p2)) by lia.
Qed.

Lemma part_bounds c o src out rest o' c' : part c o src out rest o' c' -> Forall is_byte src -> 0 <= o ->
  o + Z.of_nat (length src) < 2 ^ 32 ->
  ready c' o' /\ Forall is_byte rest /\ 0 <= o' /\ o' + Z.of_nat (length rest) < 2 ^ 32.
Proof.
  intros (pre & -> & _ & -> & Hr & _) Hb Ho Hl. apply Forall_app in Hb as [_ Hb]. rewrite length_app in Hl.
  split; [done|]. split; [done|]. lia.
Qed.

Lemma lfsr64_stream c dst src o : key_inv c -> Forall is_byte src -> 0 <= o -> o + Z.of_nat (length src) < 2 ^ 32 ->
  exists c', crypt_lfsr64_encrypt c dst src o = (xor_stream (ctx_ks c) o src, c') /\ key_inv c' /\ same_stream c c'.
Proof.
  intros Hc Hb Ho Hl. unfold crypt_lfsr64_encrypt. destruct (update_key_ok c o Hc ltac:(lia)) as (Hc1 & Hs1 & Hb1).
  set (c1 := update_key c o false) in *.
  assert (Hr1 : ready c1 o) by (split; [done|left; by rewrite (proj2 Hs1)]).
  assert (Hfin : forall out o' c', part c1 o src out [] o' c' ->
    out = xor_stream (ctx_ks c) o src /\ key_inv c' /\ same_stream c c').
  { intros out o' c' (pre & -> & -> & _ & [Hi _] & Hs). rewrite app_nil_r, (same_ks c c1) by done.
    split; [done|]. split; [done|]. by eapply same_trans. }
  pose proof (align_loop_ok src dst o c1 Hr1 Hb Ho Hl) as P1.
  destruct (align_loop dst src o c1) as [[[out1 src1] o1] c2].
  destruct src1 as [|b src1]; [destruct (Hfin _ _ _ P1) as (-> & ? & ?); by exists c2|].
  set (s1 := b :: src1) in *. destruct (part_bounds _ _ _ _ _ _ _ P1 Hb Ho Hl) as (Hr2 & Hb2 & Ho2 & Hl2).
  assert (P2 : let '(out2, src2, o2, c3) := if o1 mod 8 =? 0 then even_loop s1 o1 c2 else ([], s1, o1, c2) in
    part c2 o1 s1 out2 src2 o2 c3).
  { destruct (Z.eqb_spec (o1 mod 8) 0); [|by apply part_nil]. by apply (even_loop_ok (S (length s1))); [lia|..]. }
  destruct (if o1 mod 8 =? 0 then _ else _) as [[[out2 src2] o2] c3].
  destruct (part_bounds _ _ _ _ _ _ _ P2 Hb2 Ho2 Hl2) as (Hr3 & Hb3 & Ho3 & Hl3).
  pose proof (odd_loop_ok (S (length src2)) src2 o2 c3 ltac:(lia) Hr3 Hb3 Ho3 Hl3) as P3.
  destruct (odd_loop src2 o2 c3) as [[[out3 src3] o3] c4].
  destruct (part_bounds _ _ _ _ _ _ _ P3 Hb3 Ho3 Hl3) as (Hr4 & Hb4 & Ho4 & Hl4).
  pose proof (byte_loop_ok src3 o3 c4 Hr4 Hb4 Ho4 Hl4) as P4.
  destruct (byte_loop src3 o3 c4) as [[out4 o4] c5].
  destruct (Hfin (out1 ++ out2 ++ out3 ++ out4) o4 c5) as (-> & ? & ?); [|by exists c5].
  eapply part_app; [exact P1|]. eapply part_app; [exact P2|]. by eapply part_app.
Qed.

(** ** XTEA *)

Definition key4 (key : list Z) : Prop := length key = 4%nat /\ Forall (fun k => 0 <= k < 2 ^ 32) key.

Definition xtea_bytes (c : xtea_ctx) (block : Z) : list Z :=
  let '(c0, c1) := ctr_block (xtea_password c) (nonce c) block in le_bytes 4 c0 ++ le_bytes 4 c1.

Definition xtea_ks (c : xtea_ctx) (o : Z) : Z := nth (Z.to_nat (o mod 8)) (xtea_bytes c (o / 8)) 0.

Lemma xtea_crypt_range n v key : (0 < n)%nat ->
  let '(v0, v1) := xtea_crypt_block n v key in 0 <= v0 < 2 ^ 32 /\ 0 <= v1 < 2 ^ 32.
Proof.
  intros Hn. unfold xtea_crypt_block. destruct n as [|n]; [lia|]. cbn [Nat.iter nat_rect].
  destruct (nat_rect _ _ _ n) as [[v0 v1] sum]. unfold xtea_round. split; apply u32_range.
Qed.

#[local] Opaque xtea_crypt_block.

Lemma ctr_block_range key nonce counter :
  let '(c0, c1) := ctr_block key nonce counter in 0 <= c0 < 2 ^ 32 /\ 0 <= c1 < 2 ^ 32.
Proof. apply xtea_crypt_range. lia. Qed.

(** Inside one block, the key bytes are consecutive. *)
Lemma xtea_ks_in c block i : 0 <= i < 8 -> xtea_ks c (block * 8 + i) = nth (Z.to_nat i) (xtea_bytes c block) 0.
Proof.
  intros Hi. unfold xtea_ks.
  assert ((block * 8 + i) mod 8 = i) as -> by (symmetry; apply (Z.mod_unique _ _ block); lia).
  assert ((block * 8 + i) / 8 = block) as -> by (symmetry; apply (Z.div_unique _ _ _ i); lia). done.
Qed.

Lemma ctr_block_ok c w block : length w = 8%nat -> Forall is_byte w ->
  ctr_xtea_block w (xtea_password c) (nonce c) block = xor_stream (xtea_ks c) (block * 8) w.
Proof.
  intros Hl Hw. unfold ctr_xtea_block. pose proof (ctr_block_range (xtea_password c) (nonce c) block) as Hr.
  assert (Hk : forall i, 0 <= i < 8 -> xtea_ks c (block * 8 + i) = nth (Z.to_nat i) (xtea_bytes c block) 0)
    by apply xtea_ks_in. unfold xtea_bytes in Hk.
  destruct (ctr_block _ _ _) as [c0 c1]. destruct Hr as [H0 H1].
  assert (L1 : length (take 4 w) = 4%nat) by (rewrite length_take; lia).
  assert (L2 : length (drop 4 w) = 4%nat) by (rewrite length_drop; lia).
  assert (E : forall l x, length l = 4%nat -> Forall is_byte l -> 0 <= x < 2 ^ 32 ->
    le_bytes 4 (Z.lxor (le_word l) x) = zip_with Z.lxor l (le_bytes 4 x)).
  { intros l x Hl4 Hb Hx. rewrite <- le_bytes_lxor by (apply le_bytes_range || rewrite ?le_bytes_len; done).
    by rewrite Hl4, le_word_bytes. }
  rewrite !E by (done || by apply Forall_take || by apply Forall_drop).
  transitivity (xor_stream (xtea_ks c) (block * 8) (take 4 w ++ drop 4 w)); [|by rewrite take_drop].
  rewrite xor_stream_app, L1. f_equal; apply xor_stream_zip; rewrite ?le_bytes_len; try done; intros i Hi.
  - rewrite Hk, Nat2Z.id by lia. rewrite app_nth1; [done|rewrite le_bytes_len; lia].
  - rewrite <- Z.add_assoc, Hk by lia. rewrite app_nth2; rewrite le_bytes_len; [|lia]. f_equal. lia.
Qed.

Lemma imap_stream ks (f : nat -> Z -> Z) l : forall k o,
  (forall i b, (i < length l)%nat -> f (k + i)%nat b = Z.lxor b (ks (o + Z.of_nat i))) ->
  imap (fun i => f (k + i)%nat) l = xor_stream ks o l.
Proof.
  induction l as [|b l IH]; intros k o Hf; [done|]. cbn [imap xor_stream].
  rewrite (Hf 0%nat b) by (simpl; lia). rewrite Z.add_0_r. f_equal.
  rewrite <- (IH (S k) (o + 1)).
  - apply imap_ext. intros i x _. cbn. f_equal. lia.
  - intros i x Hi. replace (S k + i)%nat with (k + S i)%nat by lia. rewrite Hf by (simpl; lia). f_equal. f_equal. lia.
Qed.

Lemma ctr_partial_ok c w block start : 0 <= start -> start + Z.of_nat (length w) <= 8 ->
  ctr_xtea_block_partial w (xtea_password c) (nonce c) block start = xor_stream (xtea_ks c) (block * 8 + start) w.
Proof.
  intros Hs Hl. unfold ctr_xtea_block_partial.
  assert (Hk : forall i, 0 <= i < 8 -> xtea_ks c (block * 8 + i) = nth (Z.to_nat i) (xtea_bytes c block) 0)
    by apply xtea_ks_in. unfold xtea_bytes in Hk.
  destruct (ctr_block _ _ _) as [c0 c1].
  apply (imap_stream _ (fun i b => let p := Z.of_nat i + start in
    Z.lxor b (if p <? 4 then nth (Z.to_nat p) (le_bytes 4 c0) 0 else nth (Z.to_nat (p - 4)) (le_bytes 4 c1) 0)) w 0).
  intros i b Hi. cbn [Nat.add]. f_equal. rewrite <- Z.add_assoc, Hk by lia.
  destruct (Z.ltb_spec (Z.of_nat i + start) 4).
  - rewrite app_nth1 by (rewrite le_bytes_len; lia). f_equal. lia.
  - rewrite app_nth2 by (rewrite le_bytes_len; lia). rewrite le_bytes_len. f_equal. lia.
Qed.

Lemma xtea_loop_ok c n : forall buf block, (length buf < n)%nat -> Forall is_byte buf -> 0 <= block ->
  block * 8 + Z.of_nat (length buf) < 2 ^ 32 -> xtea_loop c buf block = xor_stream (xtea_ks c) (block * 8) buf.
Proof.
  assert (Hp : forall buf block, (length buf < 8)%nat ->
    ctr_xtea_block_partial buf (xtea_password c) (nonce c) block 0 = xor_stream (xtea_ks c) (block * 8) buf).
  { intros buf block Hl. rewrite ctr_partial_ok by lia. by rewrite Z.add_0_r. }
  induction n as [|n IH]; intros buf block Hn Hb Hbl Hlen; [lia|].
  destruct buf as [|b0 [|b1 [|b2 [|b3 [|b4 [|b5 [|b6 [|b7 r]]]]]]]]; cbn [xtea_loop]; [reflexivity|
    apply Hp; cbn [length]; lia..|].
  mk_word b0 b1 b2 b3 b4 b5 b6 b7 r. cbn [length] in Hn, Hlen.
  assert (Hb' : Forall is_byte ([b0; b1; b2; b3; b4; b5; b6; b7] ++ r)) by done. apply Forall_app in Hb' as [Hw Hr'].
  rewrite ctr_block_ok, xor_stream_app by done. f_equal. rewrite u32_small by lia.
  rewrite IH by (done || lia). f_equal. cbn [length]. lia.
Qed.

Lemma xtea_stream c dst src o : Forall is_byte src -> 0 <= o -> o + Z.of_nat (length src) < 2 ^ 32 ->
  crypt_xtea_encrypt c dst src o = (xor_stream (xtea_ks c) o src, c).
Proof.
  intros Hb Ho Hl. unfold crypt_xtea_encrypt. rewrite Z.shiftr_div_pow2 by lia. change (2 ^ 3) with 8.
  pose proof (Z.div_mod o 8 ltac:(lia)) as Hd. pose proof (Z.mod_pos_bound o 8 ltac:(lia)) as Hm.
  pose proof (Z.div_pos o 8 Ho ltac:(lia)) as Hp. f_equal.
  destruct (Z.eqb_spec (o mod 8) 0) as [E|E].
  - f_equal. rewrite (xtea_loop_ok c (S (length src))) by (done || lia). f_equal. lia.
  - f_equal. set (k := Z.to_nat (8 - o mod 8)).
    pose proof (length_take src k) as Ht. rewrite ctr_partial_ok by lia.
    replace (o / 8 * 8 + o mod 8) with o by lia.
    transitivity (xor_stream (xtea_ks c) o (take k src ++ drop k src)); [|by rewrite take_drop].
    rewrite xor_stream_app. f_equal.
    destruct (decide (length src <= k)%nat) as [Hle|Hgt].
    { by rewrite drop_ge. }
    rewrite u32_small by lia. rewrite (xtea_loop_ok c (S (length src))).
    + f_equal. rewrite Ht. lia.
    + rewrite length_drop. lia.
    + by apply Forall_drop.
    + lia.
    + rewrite length_drop. lia.
Qed.

(** ** What a cipher promises *)

(** Contexts have a key stream, which calls follow and keep. *)
Class CipherOk (ctx : Type) `{crypt_cipher_t ctx} := {
  usable : ctx -> Prop;
  stream : ctx -> Z -> Z;
  stream_byte c o : is_byte (stream c o);
  encrypt_stream c dst src o : usable c -> Forall is_byte src -> 0 <= o -> o + Z.of_nat (length src) < 2 ^ 32 ->
    exists c', encrypt c dst src o = (xor_stream (stream c) o src, c') /\ usable c' /\ stream c' = stream c;
  decrypt_stream c dst src o : usable c -> Forall is_byte src -> 0 <= o -> o + Z.of_nat (length src) < 2 ^ 32 ->
    exists c', decrypt c dst src o = (xor_stream (stream c) o src, c') /\ usable c' /\ stream c' = stream c;
}.

Lemma nth_byte k l : Forall is_byte l -> is_byte (nth k l 0).
Proof.
  intros Hl. rewrite nth_lookup. destruct (l !! k) eqn:E; simpl; [by eapply Forall_lookup_1|].
  unfold is_byte. lia.
Qed.

Lemma lfsr64_call c dst src o : key_inv c -> Forall is_byte src -> 0 <= o -> o + Z.of_nat (length src) < 2 ^ 32 ->
  exists c', crypt_lfsr64_encrypt c dst src o = (xor_stream (ctx_ks c) o src, c') /\ key_inv c' /\ ctx_ks c' = ctx_ks c.
Proof.
  intros Hc Hb Ho Hl. destruct (lfsr64_stream c dst src o Hc Hb Ho Hl) as (c' & E & Hi & Hs).
  exists c'. split; [done|]. split; [done|]. by apply same_ks.
Qed.

Lemma ctx_ks_byte c o : is_byte (ctx_ks c o).
Proof. unfold ctx_ks, lfsr_ks. apply nth_byte, le_bytes_range. Qed.

#[export] Instance lfsr64_ok : CipherOk lfsr64_ctx := {|
  usable := key_inv; stream := ctx_ks; stream_byte := ctx_ks_byte;
  encrypt_stream := lfsr64_call; decrypt_stream := lfsr64_call |}.

Lemma xtea_call c dst src o : True -> Forall is_byte src -> 0 <= o -> o + Z.of_nat (length src) < 2 ^ 32 ->
  exists c', crypt_xtea_encrypt c dst src o = (xor_stream (xtea_ks c) o src, c') /\ True /\ xtea_ks c' = xtea_ks c.
Proof. intros _ Hb Ho Hl. exists c. split; [by apply xtea_stream|done]. Qed.

Lemma xtea_ks_byte c o : is_byte (xtea_ks c o).
Proof.
  unfold xtea_ks. apply nth_byte. unfold xtea_bytes. destruct (ctr_block _ _ _).
  apply Forall_app. split; apply le_bytes_range.
Qed.

#[export] Instance xtea_ok : CipherOk xtea_ctx := {|
  usable := fun _ => True; stream := xtea_ks; stream_byte := xtea_ks_byte;
  encrypt_stream := xtea_call; decrypt_stream := xtea_call |}.

(** ** Data in several calls *)

(** Consecutive calls on chunks, each with the address it is written to. *)
Fixpoint run_chunks {ctx} (f : ctx -> Z -> list Z -> Z -> list Z * ctx) (c : ctx) (chunks : list (Z * list Z)) (o : Z)
    : list Z :=
  match chunks with
  | [] => []
  | (dst, src) :: rest => let '(out, c) := f c dst src o in out ++ run_chunks f c rest (o + Z.of_nat (length src))
  end.

Definition data (chunks : list (Z * list Z)) : list Z := concat (map snd chunks).

Lemma run_chunks_stream {ctx} (f : ctx -> Z -> list Z -> Z -> list Z * ctx) (ok : ctx -> Prop) (ks : ctx -> Z -> Z) :
  (forall c dst src o, ok c -> Forall is_byte src -> 0 <= o -> o + Z.of_nat (length src) < 2 ^ 32 ->
    exists c', f c dst src o = (xor_stream (ks c) o src, c') /\ ok c' /\ ks c' = ks c) ->
  forall chunks c o, ok c -> Forall is_byte (data chunks) -> 0 <= o -> o + Z.of_nat (length (data chunks)) < 2 ^ 32 ->
  run_chunks f c chunks o = xor_stream (ks c) o (data chunks).
Proof.
  intros Hf. induction chunks as [|[dst src] rest IH]; intros c o Hc Hb Ho Hl; [done|].
  unfold data in *. cbn [map concat snd] in *. apply Forall_app in Hb as [Hb1 Hb2]. rewrite length_app in Hl.
  cbn [run_chunks]. destruct (Hf c dst src o) as (c' & -> & Hc' & Hks); [done|done|done|lia|].
  rewrite IH by (done || lia). by rewrite Hks, xor_stream_app.
Qed.


(** The XTEA cipher in counter mode.  Encryption xors the byte at file
    offset [o] with byte [o mod 8] of the encrypted counter [o / 8], whether the
    byte is in a partial block or in a whole one. *)
Theorem xtea_encrypt_stream c dst src o : Forall is_byte src -> 0 <= o -> o + Z.of_nat (length src) < 2 ^ 32 ->
  fst (crypt_xtea_encrypt c dst src o) = xor_stream (xtea_ks c) o src.
Proof. intros Hb Ho Hl. by rewrite xtea_stream. Qed.

(** Decryption inverts encryption for every cipher that keeps the promises
    of the interface: data written in any chunks to any addresses and read back
    in any other chunks with a context of the same key stream is the data. *)
Theorem cipher_roundtrip {ctx} `{CipherOk ctx} (c1 c2 : ctx) enc dec o : usable c1 -> usable c2 ->
  (forall i, stream c2 i = stream c1 i) -> Forall is_byte (data enc) -> 0 <= o ->
  o + Z.of_nat (length (data enc)) < 2 ^ 32 ->
  data dec = run_chunks encrypt c1 enc o -> run_chunks decrypt c2 dec o = data enc.
Proof.
  intros H1 H2 Hks Hb Ho Hl Hdec.
  rewrite (run_chunks_stream encrypt usable stream encrypt_stream) in Hdec by done.
  assert (Hb' : Forall is_byte (data dec)) by (rewrite Hdec; apply xor_stream_bytes; [apply stream_byte|done]).
  rewrite (run_chunks_stream decrypt usable stream decrypt_stream) by (done || rewrite Hdec, xor_stream_len; lia).
  rewrite (xor_stream_ext (stream c1)) by done. rewrite Hdec. apply xor_stream_twice.
Qed.

(** ** The block cipher *)

Definition st_ok (s : Z * Z * Z) : Prop :=
  let '(v0, v1, sum) := s in 0 <= v0 < 2 ^ 32 /\ 0 <= v1 < 2 ^ 32 /\ 0 <= sum < 2 ^ 32.

Lemma u32_add_sub x y : 0 <= x < 2 ^ 32 -> u32 (u32 (x + y) - y) = x.
Proof.
  intros Hx. unfold u32. rewrite Zminus_mod_idemp_l. replace (x + y - y) with x by lia. by apply Z.mod_small.
Qed.

Lemma round_ok key s : st_ok s -> st_ok (xtea_round key s) /\ xtea_unround key (xtea_round key s) = s.
Proof.
  destruct s as [[v0 v1] sum]. intros (H0 & H1 & Hs). unfold xtea_round, xtea_unround.
  split; [split; [apply u32_range|split; apply u32_range]|].
  rewrite u32_add_sub by done. rewrite u32_add_sub by done. by rewrite u32_add_sub.
Qed.

Lemma rounds_ok key n : forall s, st_ok s ->
  st_ok (Nat.iter n (xtea_round key) s) /\ Nat.iter n (xtea_unround key) (Nat.iter n (xtea_round key) s) = s.
Proof.
  induction n as [|n IH]; intros s Hs; [done|]. destruct (IH s Hs) as [H1 H2].
  destruct (round_ok key _ H1) as [H3 H4]. split; [exact H3|].
  rewrite (Nat.iter_succ_r n _ (xtea_unround key)).
  change (Nat.iter (S n) (xtea_round key) s) with (xtea_round key (Nat.iter n (xtea_round key) s)). by rewrite H4.
Qed.

Lemma rounds_sum key n v0 v1 : (Nat.iter n (xtea_round key) (v0, v1, 0)).2 = u32 (delta * Z.of_nat n).
Proof.
  induction n as [|n IH]; [done|]. cbn [Nat.iter nat_rect].
  change (nat_rect _ _ _ n) with (Nat.iter n (xtea_round key) (v0, v1, 0)).
  destruct (Nat.iter n _ _) as [[w0 w1] sum]. cbn in IH |- *. rewrite IH. unfold u32. rewrite Zplus_mod_idemp_l.
  f_equal. lia.
Qed.

#[local] Transparent xtea_crypt_block.

(** [xtea_decrypt_block] inverts [xtea_crypt_block] for every number of
    rounds and every key. *)
Theorem xtea_block_roundtrip n v0 v1 key : 0 <= v0 < 2 ^ 32 -> 0 <= v1 < 2 ^ 32 ->
  xtea_decrypt_block n (xtea_crypt_block n (v0, v1) key) key = (v0, v1).
Proof.
  intros H0 H1. unfold xtea_decrypt_block, xtea_crypt_block. cbn [fst snd].
  destruct (rounds_ok key n (v0, v1, 0)) as [_ Hinv]; [done|]. pose proof (rounds_sum key n v0 v1) as Hsum.
  destruct (Nat.iter n (xtea_round key) (v0, v1, 0)) as [[w0 w1] sum]. cbn [fst snd] in Hsum |- *. subst sum.
  by rewrite Hinv.
Qed.

Lemma xtea_block_roundtrip_witness :
  xtea_decrypt_block 64 (xtea_crypt_block 64 (1, 2) [3; 4; 5; 6]) [3; 4; 5; 6] = (1, 2).
Proof. apply (xtea_block_roundtrip 64 1 2 [3; 4; 5; 6]); lia. Defined.

(** ** Runs *)

Definition blank : lfsr64_ctx := mk_lfsr64_ctx 0 0 [] [] 0 0 0.

(** The context of a password, with a block size set as [io_crypt.c] does. *)
Definition lfsr_demo : lfsr64_ctx := crypt_lfsr64_set_blocksize (crypt_lfsr64_init blank 0xDEADBEEFDEADBEEF) 16.

#[local] Transparent lfsr_clock.

(** The keys stay right when the block size is set after [crypt_lfsr64_init]. *)
Lemma init_key_inv garbage pw size : 0 < size < 2 ^ 32 -> size mod 8 = 0 ->
  key_inv (crypt_lfsr64_set_blocksize (crypt_lfsr64_init garbage pw) size).
Proof.
  intros Hs H8. unfold crypt_lfsr64_init. set (c := mk_lfsr64_ctx _ _ _ _ _ _ _).
  destruct (reset_ok c) as ([K1 K2 K3 K4 K5] & _). set (c' := crypt_lfsr64_reset c) in *. clearbody c'.
  split; [exact K1|exact Hs|exact H8|exact K4|].
  destruct c'. unfold build_keys, set_keys, crypt_lfsr64_set_blocksize in *. cbn in *. injection K5 as E1 E2. congruence.
Qed.

Lemma lfsr_demo_ok : key_inv lfsr_demo.
Proof. apply init_key_inv; [lia|done]. Qed.

Definition demo_data : list Z := [77; 97; 103; 105; 99; 32; 76; 97; 110; 116; 101; 114; 110; 33; 33; 33; 0; 255].

Lemma demo_bytes : Forall is_byte demo_data.
Proof. repeat constructor; unfold is_byte; lia. Qed.


Lemma xtea_encrypt_stream_witness :
  fst (crypt_xtea_encrypt (crypt_xtea_init [1; 2; 3; 4] 99) 0 demo_data 5) =
    xor_stream (xtea_ks (crypt_xtea_init [1; 2; 3; 4] 99)) 5 demo_data.
Proof. apply (xtea_encrypt_stream _ 0 demo_data 5 demo_bytes); cbn; lia. Defined.

Lemma cipher_roundtrip_witness :
  run_chunks crypt_lfsr64_decrypt lfsr_demo
    [(1, run_chunks crypt_lfsr64_encrypt lfsr_demo [(3, demo_data); (4, demo_data)] 5)] 5 = demo_data ++ demo_data.
Proof.
  apply (@cipher_roundtrip lfsr64_ctx lfsr64_cipher lfsr64_ok lfsr_demo lfsr_demo [(3, demo_data); (4, demo_data)] _ 5 lfsr_demo_ok lfsr_demo_ok);
    [done| |lia|cbn; lia|].
  - apply Forall_app. split; [apply demo_bytes|]. apply Forall_app. split; [apply demo_bytes|constructor].
  - apply app_nil_r.
Defined.

(** With a block size that is not a multiple of 8, the output depends on
    how the data is cut into calls: the loop for even offsets steps over the
    block boundary without a key update. *)
Theorem lfsr64_odd_blocksize :
  let c := crypt_lfsr64_set_blocksize (crypt_lfsr64_init blank 1) 12 in
  run_chunks crypt_lfsr64_encrypt c [(0, replicate 24 0)] 0 <>
  run_chunks crypt_lfsr64_encrypt c [(0, replicate 16 0); (16, replicate 8 0)] 0.
Proof. vm_compute. congruence. Qed.
