(* ===== verification/BigDigits.v ===== *)
(** * BigDigits: the multiprecision core of modules/io_crypt/bigdigits.c

    A number is an array of [ndigits] 32-bit digits, least significant first.
    The pair (array, ndigits) of a C argument is the list of its first
    [ndigits] digits, so a function of the source that takes arrays of one
    common length takes lists of one common length here; what the function
    writes into an output array is part of its result.  [int] and [DIGIT_T]
    results are [Z]; a [size_t] result is a [nat].

    The module is built with neither USE_SPASM, USE_64WITH32 nor NO_ALLOCS, so
    the half-digit [spMultiply] and [spDivide] and the allocating variants are
    the compiled ones, and [assert] expands to nothing.  A loop that runs down
    from the most significant digit is a recursion that visits the tail of the
    list first. *)

From stdpp Require Import base list numbers.
From S2P Require Import Prelude.
Local Open Scope Z_scope.

(** ** Digits and half-digits (bigdigits.h) *)

Definition MAX_DIGIT : Z := 0xFFFFFFFF.
Definition MAX_HALF_DIGIT : Z := 0xFFFF.
Definition BITS_PER_DIGIT : Z := 32.
Definition HIBITMASK : Z := 0x80000000.

Definition LOHALF (x : Z) : Z := Z.land x MAX_HALF_DIGIT.
Definition HIHALF (x : Z) : Z := Z.land (Z.shiftr x 16) MAX_HALF_DIGIT.
Definition TOHIGH (x : Z) : Z := u32 (Z.shiftl x 16).
Definition halfB : Z := MAX_HALF_DIGIT + 1.

Definition ISODD (x : Z) : bool := negb (Z.land x 1 =? 0).
Definition mpISEVEN (x : list Z) : bool := negb (ISODD (nth 0 x 0)).

(** ** Single-digit product and quotient *)

Definition spMultiply (x y : Z) : Z * Z :=
  let x0 := LOHALF x in
  let x1 := HIHALF x in
  let y0 := LOHALF y in
  let y1 := HIHALF y in
  let p0 := u32 (x0 * y0) in
  let t := u32 (x0 * y1) in
  let u := u32 (x1 * y0) in
  let t := u32 (t + u) in
  let carry := if t <? u then 1 else 0 in
  let carry := u32 (TOHIGH carry + HIHALF t) in
  let t := TOHIGH t in
  let p0 := u32 (p0 + t) in
  let carry := if p0 <? t then u32 (carry + 1) else carry in
  let p1 := u32 (x1 * y1) in
  (p0, u32 (p1 + carry)).

(** [uu] is the pair (uu[0], uu[1]). *)
Definition spMultSub (uu : Z * Z) (qhat v1 v0 : Z) : Z * Z :=
  let p0 := u32 (qhat * v0) in
  let p1 := u32 (qhat * v1) in
  let t := u32 (p0 + TOHIGH (LOHALF p1)) in
  let uu0 := u32 (uu.1 - t) in
  let uu1 := if MAX_DIGIT - t <? uu0 then u32 (uu.2 - 1) else uu.2 in
  (uu0, u32 (uu1 - HIHALF p1)).

(** Round 1 of [spDivide]: (q2, uu[0]). *)
Definition sp_round1 (u_hi v v1 v0 : Z) : Z * Z :=
  let u2 := LOHALF u_hi in
  let u3 := HIHALF u_hi in
  let qhat := if u3 <? v1 then 0 else 1 in
  let qhat :=
    if 0 <? qhat then
      let rhat := u32 (u3 - v1) in
      let t := Z.lor (TOHIGH rhat) u2 in
      if t <? v0 then qhat - 1 else qhat
    else qhat in
  if 0 <? qhat then
    let uu := spMultSub (u_hi, 0) qhat v1 v0 in
    if negb (HIHALF uu.2 =? 0) then (qhat - 1, u32 (uu.1 + v)) else (qhat, uu.1)
  else (qhat, u_hi).

(** Rounds 2 and 3 of [spDivide], which bring down the half-digit [u]: the
    quotient half-digit and uu[0]. *)
Definition sp_round (uu0 u v v1 v0 : Z) : Z * Z :=
  let t := uu0 in
  let qhat := t / v1 in
  let rhat := u32 (t - qhat * v1) in
  let t := Z.lor (TOHIGH rhat) u in
  let qhat :=
    if (qhat =? halfB) || (t <? u32 (qhat * v0)) then
      let qhat := qhat - 1 in
      let rhat := u32 (rhat + v1) in
      let t := Z.lor (TOHIGH rhat) u in
      if (rhat <? halfB) && (t <? u32 (qhat * v0)) then qhat - 1 else qhat
    else qhat in
  let uu := (Z.lor (TOHIGH (LOHALF uu0)) u, HIHALF uu0) in
  let uu := spMultSub uu qhat v1 v0 in
  if negb (HIHALF uu.2 =? 0) then (u32 (qhat - 1), u32 (uu.1 + v)) else (qhat, uu.1).

(** (q, r, the returned high digit of the quotient) for u = (u_lo, u_hi). *)
Definition spDivide (u_lo u_hi v : Z) : Z * Z * Z :=
  if Z.land v HIBITMASK =? 0 then (0, 0, MAX_DIGIT)
  else
    let v0 := LOHALF v in
    let v1 := HIHALF v in
    let u0 := LOHALF u_lo in
    let u1 := HIHALF u_lo in
    let '(q2, uu0) := sp_round1 u_hi v v1 v0 in
    let '(qhat, uu0) := sp_round uu0 u1 v v1 v0 in
    let q := TOHIGH qhat in
    let '(qhat, uu0) := sp_round uu0 u0 v v1 v0 in
    (Z.lor q (LOHALF qhat), uu0, q2).

(** ** Addition and subtraction *)

Fixpoint mpAdd_loop (k : Z) (u v : list Z) : list Z * Z :=
  match u, v with
  | uj :: u, vj :: v =>
    let w := u32 (uj + k) in
    let k := if w <? k then 1 else 0 in
    let w := u32 (w + vj) in
    let k := if w <? vj then k + 1 else k in
    let '(ws, c) := mpAdd_loop k u v in (w :: ws, c)
  | _, _ => ([], k)
  end.

Definition mpAdd (u v : list Z) : list Z * Z := mpAdd_loop 0 u v.

Fixpoint mpSubtract_loop (k : Z) (u v : list Z) : list Z * Z :=
  match u, v with
  | uj :: u, vj :: v =>
    let w := u32 (uj - k) in
    let k := if MAX_DIGIT - k <? w then 1 else 0 in
    let w := u32 (w - vj) in
    let k := if MAX_DIGIT - vj <? w then k + 1 else k in
    let '(ws, c) := mpSubtract_loop k u v in (w :: ws, c)
  | _, _ => ([], k)
  end.

Definition mpSubtract (u v : list Z) : list Z * Z := mpSubtract_loop 0 u v.

(** ** Product *)

(** The loop on i for one digit [vj] of the multiplier; [w] is the array from
    index j on.  The last step stores the carry at w[j+m]. *)
Fixpoint mul_row (u : list Z) (vj k : Z) (w : list Z) : list Z :=
  match u, w with
  | ui :: u, wi :: w =>
    let '(t0, t1) := spMultiply ui vj in
    let t0 := u32 (t0 + k) in
    let t1 := if t0 <? k then u32 (t1 + 1) else t1 in
    let t0 := u32 (t0 + wi) in
    let t1 := if t0 <? wi then u32 (t1 + 1) else t1 in
    t0 :: mul_row u vj t1 w
  | [], _ :: w => k :: w
  | _, [] => []
  end.

Fixpoint mpMultiply_loop (u v w : list Z) : list Z :=
  match v with
  | [] => w
  | vj :: v =>
    match (if vj =? 0 then <[length u := 0]> w else mul_row u vj 0 w) with
    | w0 :: ws => w0 :: mpMultiply_loop u v ws
    | [] => []
    end
  end.

Definition mpMultiply (u v : list Z) : list Z := mpMultiply_loop u v (replicate (2 * length u) 0).

(** ** Square *)

Record sq_state := SqState { sq_w : list Z; sq_u0 : Z; sq_u1 : Z; sq_carry : Z }.

(** Step 2.1 for digit i. *)
Definition mpSquare_diag (x w : list Z) (i : nat) (carry : Z) (cpos : nat) : sq_state :=
  let i2 := (2 * i)%nat in
  let '(p0, p1) := spMultiply (nth i x 0) (nth i x 0) in
  let p0 := u32 (p0 + nth i2 w 0) in
  let p1 := if p0 <? nth i2 w 0 then u32 (p1 + 1) else p1 in
  let '(p1, k, carry) :=
    if (i2 =? cpos)%nat && negb (carry =? 0) then
      let p1 := u32 (p1 + carry) in (p1, if p1 <? carry then 1 else 0, 0)
    else (p1, 0, carry) in
  SqState (<[i2 := p0]> w) p1 k carry.

(** The body of the loop 2.2 on j. *)
Definition mpSquare_step (x : list Z) (i j cpos : nat) (s : sq_state) : sq_state :=
  let w := sq_w s in
  let '(p0, p1) := spMultiply (nth j x 0) (nth i x 0) in
  let cbit := if Z.land p0 HIBITMASK =? 0 then 0 else 1 in
  let k := if Z.land p1 HIBITMASK =? 0 then 0 else 1 in
  let p0 := u32 (Z.shiftl p0 1) in
  let p1 := Z.lor (u32 (Z.shiftl p1 1)) cbit in
  let p0 := u32 (p0 + sq_u0 s) in
  let '(p1, k) :=
    if p0 <? sq_u0 s then let p1 := u32 (p1 + 1) in (p1, if p1 =? 0 then k + 1 else k) else (p1, k) in
  let p1 := u32 (p1 + sq_u1 s) in
  let k := if p1 <? sq_u1 s then k + 1 else k in
  let wij := nth (i + j) w 0 in
  let p0 := u32 (p0 + wij) in
  let '(p1, k) :=
    if p0 <? wij then let p1 := u32 (p1 + 1) in (p1, if p1 =? 0 then k + 1 else k) else (p1, k) in
  let '(p1, k, carry) :=
    if (i + j =? cpos)%nat && negb (sq_carry s =? 0) then
      let p1 := u32 (p1 + sq_carry s) in (p1, if p1 <? sq_carry s then k + 1 else k, 0)
    else (p1, k, sq_carry s) in
  SqState (<[(i + j)%nat := p0]> w) p1 k carry.

(** One turn of the loop on i: (w, carry, cpos). *)
Definition mpSquare_row (x : list Z) (i : nat) (st : list Z * Z * nat) : list Z * Z * nat :=
  let '(w, carry, cpos) := st in
  let t := length x in
  let s := mpSquare_diag x w i carry cpos in
  let s := fold_left (fun s j => mpSquare_step x i j cpos s) (seq (S i) (t - S i)) s in
  (<[(i + t)%nat := sq_u0 s]> (sq_w s), sq_u1 s, (i + t)%nat).

Definition mpSquare (x : list Z) : list Z :=
  let t := length x in
  let '(w, _, _) :=
    fold_left (fun st i => mpSquare_row x i st) (seq 0 t) (replicate (2 * t) 0, 0, (2 * t - 1)%nat) in
  w.

(** ** Comparison and size *)

Fixpoint mpEqual_loop (a b : list Z) : bool :=
  match a, b with
  | x :: a, y :: b => mpEqual_loop a b && (x =? y)
  | _, _ => true
  end.

Definition mpEqual (a b : list Z) : Z :=
  match a with [] => -1 | _ => if mpEqual_loop a b then 1 else 0 end.

Fixpoint mpCompare (a b : list Z) : Z :=
  match a, b with
  | x :: a, y :: b =>
    let c := mpCompare a b in
    if c =? 0 then (if y <? x then 1 else if x <? y then -1 else 0) else c
  | _, _ => 0
  end.

Definition mpIsZero (a : list Z) : Z :=
  match a with [] => -1 | _ => if forallb (fun d => d =? 0) a then 1 else 0 end.

Fixpoint mpSizeof (a : list Z) : nat :=
  match a with
  | [] => 0
  | d :: a =>
    match mpSizeof a with
    | O => if d =? 0 then 0 else 1
    | S n => S (S n)
    end
  end.

(** The normalisation loop of [mpDivide] and [mpShortDiv] and the loop of
    [mpBitLength]: how many mask positions are skipped before a set bit. *)
Fixpoint lead_zeros (fuel : nat) (bitmask d : Z) : nat :=
  match fuel with
  | O => 0
  | S fuel => if Z.land d bitmask =? 0 then S (lead_zeros fuel (Z.shiftr bitmask 1) d) else 0
  end.

Definition mpBitLength (d : list Z) : nat :=
  let n := mpSizeof d in
  match n with
  | O => 0
  | S n' => n * 32 - lead_zeros 32 HIBITMASK (nth n' d 0)
  end.

Definition mpSetDigit (d : Z) (ndigits : nat) : list Z :=
  match ndigits with O => [] | S n => d :: replicate n 0 end.

(** ** Shifts and bits *)

Fixpoint shl_loop (bits mask y carry : Z) (b : list Z) : list Z * Z :=
  match b with
  | [] => ([], carry)
  | x :: b =>
    let nextcarry := Z.shiftr (Z.land x mask) y in
    let d := Z.lor (u32 (Z.shiftl x bits)) carry in
    let '(a, c) := shl_loop bits mask y nextcarry b in (d :: a, c)
  end.

(** [mpShiftLeft] for a shift below the digit size. *)
Definition shl_bits (b : list Z) (bits : Z) : list Z * Z :=
  shl_loop bits (u32 (Z.lnot (Z.shiftr MAX_DIGIT bits))) (BITS_PER_DIGIT - bits) 0 b.

(** The array [a] is not [b].  When [shift] is more than [ndigits] digits, the
    source reads [b] out of its bounds for the carry. *)
Definition mpShiftLeft (b : list Z) (shift : Z) : list Z * Z :=
  if BITS_PER_DIGIT <=? shift then
    let nw := Z.to_nat (shift / BITS_PER_DIGIT) in
    let n := length b in
    let a := map (fun i => if (nw <=? i)%nat then nth (i - nw) b 0 else 0) (seq 0 n) in
    let bits := shift mod BITS_PER_DIGIT in
    let carry := u32 (Z.shiftl (nth (n - nw) b 0) bits) in
    if bits =? 0 then (a, carry)
    else let '(a, c) := shl_bits a bits in (a, Z.lor carry c)
  else shl_bits b shift.

Fixpoint shr_loop (bits mask y : Z) (b : list Z) : list Z * Z :=
  match b with
  | [] => ([], 0)
  | x :: b =>
    let '(a, carry) := shr_loop bits mask y b in
    (Z.lor (Z.shiftr x bits) carry :: a, u32 (Z.shiftl (Z.land x mask) y))
  end.

Definition shr_bits (b : list Z) (bits : Z) : list Z * Z :=
  shr_loop bits (u32 (Z.lnot (u32 (Z.shiftl MAX_DIGIT bits)))) (BITS_PER_DIGIT - bits) b.

Definition mpShiftRight (b : list Z) (shift : Z) : list Z * Z :=
  if BITS_PER_DIGIT <=? shift then
    let nw := Z.to_nat (shift / BITS_PER_DIGIT) in
    let n := length b in
    let a := map (fun i => if (i + nw <? n)%nat then nth (i + nw) b 0 else 0) (seq 0 n) in
    let bits := shift mod BITS_PER_DIGIT in
    let carry := Z.shiftr (nth (nw - 1) b 0) bits in
    if bits =? 0 then (a, carry)
    else let '(a, c) := shr_bits a bits in (a, Z.lor carry c)
  else shr_bits b shift.

(** The digits after the call and the result. *)
Definition mpSetBit (a : list Z) (ibit value : Z) : list Z * Z :=
  let idigit := Z.to_nat (ibit / BITS_PER_DIGIT) in
  if (length a <=? idigit)%nat then (a, -1)
  else
    let mask := Z.shiftl 1 (ibit mod BITS_PER_DIGIT) in
    let d := nth idigit a 0 in
    (<[idigit := if value =? 0 then Z.land d (u32 (Z.lnot mask)) else Z.lor d mask]> a, 0).

Definition mpGetBit (a : list Z) (ibit : Z) : Z :=
  let idigit := Z.to_nat (ibit / BITS_PER_DIGIT) in
  if (length a <=? idigit)%nat then -1
  else
    let mask := Z.shiftl 1 (ibit mod BITS_PER_DIGIT) in
    if Z.land (nth idigit a 0) mask =? 0 then 0 else 1.

Definition mpModPowerOf2 (a : list Z) (L : Z) : list Z :=
  let nw := Z.to_nat (L / BITS_PER_DIGIT) in
  let mask := u32 (Z.lnot (Z.shiftl (-1) (L mod BITS_PER_DIGIT))) in
  imap (fun i d => if (i =? nw)%nat then Z.land d mask else if (i <? nw)%nat then d else 0) a.

Definition mpXorBits (b c : list Z) : list Z := zip_with Z.lxor b c.
Definition mpOrBits (b c : list Z) : list Z := zip_with Z.lor b c.
Definition mpAndBits (b c : list Z) : list Z := zip_with Z.land b c.
Definition mpNotBits (b : list Z) : list Z := map (fun d => u32 (Z.lnot d)) b.

(** ** Operations with a single digit *)

Fixpoint carry_loop (k : Z) (u : list Z) : list Z * Z :=
  match u with
  | [] => ([], k)
  | uj :: u =>
    let w := u32 (uj + k) in
    let k := if w <? k then 1 else 0 in
    let '(ws, c) := carry_loop k u in (w :: ws, c)
  end.

(** The source reads u[0] and writes w[0] without looking at [ndigits]; the
    empty list stands for no call of this library. *)
Definition mpShortAdd (u : list Z) (v : Z) : list Z * Z :=
  match u with
  | [] => ([], 0)
  | u0 :: u =>
    let w0 := u32 (u0 + v) in
    let k := if w0 <? v then 1 else 0 in
    let '(ws, c) := carry_loop k u in (w0 :: ws, c)
  end.

Fixpoint borrow_loop (k : Z) (u : list Z) : list Z * Z :=
  match u with
  | [] => ([], k)
  | uj :: u =>
    let w := u32 (uj - k) in
    let k := if MAX_DIGIT - k <? w then 1 else 0 in
    let '(ws, c) := borrow_loop k u in (w :: ws, c)
  end.

Definition mpShortSub (u : list Z) (v : Z) : list Z * Z :=
  match u with
  | [] => ([], 0)
  | u0 :: u =>
    let w0 := u32 (u0 - v) in
    let k := if MAX_DIGIT - v <? w0 then 1 else 0 in
    let '(ws, c) := borrow_loop k u in (w0 :: ws, c)
  end.

Fixpoint shortmult_loop (k v : Z) (u : list Z) : list Z * Z :=
  match u with
  | [] => ([], k)
  | uj :: u =>
    let '(t0, t1) := spMultiply uj v in
    let w := u32 (t0 + k) in
    let t1 := if w <? k then u32 (t1 + 1) else t1 in
    let '(ws, c) := shortmult_loop t1 v u in (w :: ws, c)
  end.

Definition mpShortMult (u : list Z) (v : Z) : list Z * Z :=
  if v =? 0 then (replicate (length u) 0, 0) else shortmult_loop 0 v u.

Fixpoint shortdiv_loop (v r : Z) (uu : list Z) : list Z * Z :=
  match uu with
  | [] => ([], r)
  | x :: uu =>
    let '(q, r) := shortdiv_loop v r uu in
    let '(qj, rj, _) := spDivide x r v in (qj :: q, rj)
  end.

(** The quotient array and the remainder.  On a zero divisor the array [q] is
    left as the caller had it, which is [q0]. *)
Definition mpShortDiv (q0 u : list Z) (v : Z) : list Z * Z :=
  match u with
  | [] => (q0, 0)
  | _ =>
    if v =? 0 then (q0, 0)
    else
      let shift := Z.of_nat (lead_zeros 32 HIBITMASK v) in
      let v := u32 (Z.shiftl v shift) in
      let '(uu, overflow) := mpShiftLeft u shift in
      let '(q, r) := shortdiv_loop v overflow uu in
      (q, Z.shiftr r shift)
  end.

Definition mpShortMod (a : list Z) (d : Z) : Z := (mpShortDiv (replicate (length a) 0) a d).2.

Definition mpShortCmp (a : list Z) (d : Z) : Z :=
  match a with
  | [] => if d =? 0 then 0 else -1
  | a0 :: a =>
    if forallb (fun x => x =? 0) a then
      if a0 <? d then -1 else if d <? a0 then 1 else 0
    else 1
  end.

(** ** Signed numbers *)

Definition mpIsNegative (x : list Z) : bool := negb (Z.land (nth (length x - 1) x 0) HIBITMASK =? 0).

Definition mpChs (y : list Z) : list Z * bool :=
  if mpIsNegative y then (mpNotBits (mpShortSub y 1).1, true)
  else ((mpShortAdd (mpNotBits y) 1).1, false).

Definition mpAbs (y : list Z) : list Z * bool :=
  if mpIsNegative y then ((mpChs y).1, true) else (y, false).

(** ** Long division *)

Fixpoint mulsub_loop (k q : Z) (w v : list Z) : list Z * Z :=
  match w, v with
  | wi :: w, vi :: v =>
    let '(t0, t1) := spMultiply q vi in
    let x := u32 (wi - k) in
    let k := if MAX_DIGIT - k <? x then 1 else 0 in
    let x := u32 (x - t0) in
    let k := if MAX_DIGIT - t0 <? x then k + 1 else k in
    let k := u32 (k + t1) in
    let '(ws, c) := mulsub_loop k q w v in (x :: ws, c)
  | _, _ => ([], k)
  end.

(** The n digits of w and the modified Wn. *)
Definition mpMultSub (wn : Z) (w v : list Z) (q : Z) : list Z * Z :=
  if q =? 0 then (w, wn)
  else let '(w, k) := mulsub_loop 0 q w v in (w, u32 (wn - k)).

Definition QhatTooBig (qhat rhat vn2 ujn2 : Z) : bool :=
  let '(t0, t1) := spMultiply qhat vn2 in
  if t1 <? rhat then false else if rhat <? t1 then true else ujn2 <? t0.

(** Step D3: the digit estimate for the leading digits (u2, u1, u0) of the
    window and (v1, v0) of the divisor. *)
Definition div_qhat (u2 u1 u0 v1 v0 : Z) : Z :=
  let '(qhat, rhat, overflow) := spDivide u1 u2 v1 in
  let '(qhat, rhat, qhatOK) :=
    if overflow =? 0 then (qhat, rhat, false)
    else let rhat := u32 (u1 + v1) in (MAX_DIGIT, rhat, rhat <? v1) in
  if negb (qhat =? 0) && negb qhatOK && QhatTooBig qhat rhat v0 u0 then
    let qhat := qhat - 1 in
    let rhat := u32 (rhat + v1) in
    if negb (rhat <? v1) && QhatTooBig qhat rhat v0 u0 then qhat - 1 else qhat
  else qhat.

(** Steps D3 to D7 for one j, on the window [ww] = uu[j..j+n-1] and the extra
    digit [t]: the quotient digit and the new window. *)
Definition div_step (t : Z) (ww v : list Z) : Z * list Z :=
  let n := length v in
  let qhat := div_qhat t (nth (n - 1) ww 0) (nth (n - 2) ww 0) (nth (n - 1) v 0) (nth (n - 2) v 0) in
  let '(ww, overflow) := mpMultSub t ww v qhat in
  if overflow =? 0 then (qhat, ww)
  else (u32 (qhat - 1), (mpAdd ww v).1).

(** The loop on j, from j = [cnt] - 1 down to 0: (uu, q). *)
Fixpoint div_loop (cnt : nat) (t : Z) (uu q v : list Z) : list Z * list Z :=
  match cnt with
  | O => (uu, q)
  | S j =>
    let n := length v in
    let '(qj, ww) := div_step t (take n (drop j uu)) v in
    let uu := take j uu ++ ww ++ drop (j + n) uu in
    div_loop j (nth (j + n - 1) uu 0) uu (<[j := qj]> q) v
  end.

(** Steps D1 to D8, for a divisor of at least two digits that is not above the
    dividend: (q, r, the divisor array after the call). *)
Definition mpDivide_main (u v : list Z) : list Z * list Z * list Z :=
  let ud := length u in
  let n := mpSizeof v in
  let un := mpSizeof u in
  let shift := Z.of_nat (lead_zeros 32 HIBITMASK (nth (n - 1) v 0)) in
  let vn := (mpShiftLeft (take n v) shift).1 in
  let '(uu, overflow) := mpShiftLeft (take un u) shift in
  let '(uu, q) := div_loop (S (un - n)) overflow uu (replicate ud 0) vn in
  let r := (mpShiftRight (take n uu) shift).1 in
  let v' := (mpShiftRight vn shift).1 in
  (q, r ++ replicate (ud - n) 0, v' ++ drop n v).

(** (return code, q, r, the divisor array after the call). *)
Definition mpDivide (u v : list Z) : Z * list Z * list Z * list Z :=
  let ud := length u in
  let zero := replicate ud 0 in
  let n := mpSizeof v in
  let un := mpSizeof u in
  match n with
  | O => (-1, zero, zero, v)
  | 1%nat =>
    let '(q, r0) := mpShortDiv zero u (nth 0 v 0) in
    (0, q, <[0%nat := r0]> zero, v)
  | _ =>
    if (un <? n)%nat then (0, zero, u, v)
    else
      let cmp := if (un =? n)%nat then mpCompare (take n u) (take n v) else 1 in
      if cmp <? 0 then (0, zero, u, v)
      else if cmp =? 0 then (0, mpSetDigit 1 ud, zero, v)
      else let '(q, r, v') := mpDivide_main u v in (0, q, r, v')
  end.
