(* ===== verification/BigDigitsProps.v ===== *)
(** * BigDigitsProps: correctness of the digit-array arithmetic

    [val] is the number an array of digits stands for; every routine of
    [BigDigits] is related to the operation of [Z] it computes, with the exact
    carry, borrow or overflow it returns. *)

From stdpp Require Import base list numbers.
From S2P Require Import Prelude BigDigits.
Local Open Scope Z_scope.

(** ** The value of a digit array *)

Definition is_digit (d : Z) : Prop := 0 <= d < 2 ^ 32.

Fixpoint val (l : list Z) : Z :=
  match l with
  | [] => 0
  | d :: l => d + 2 ^ 32 * val l
  end.

Notation digits := (Forall is_digit).

(** [B ^ n] for the digit base. *)
Definition Bpow (n : nat) : Z := 2 ^ (32 * Z.of_nat n).

Lemma Bpow_0 : Bpow 0 = 1.
Proof. reflexivity. Qed.
Lemma Bpow_S n : Bpow (S n) = 2 ^ 32 * Bpow n.
Proof. unfold Bpow. rewrite <- Z.pow_add_r by lia. f_equal. lia. Qed.
Lemma Bpow_add n m : Bpow (n + m) = Bpow n * Bpow m.
Proof. unfold Bpow. rewrite <- Z.pow_add_r by lia. f_equal. lia. Qed.
Lemma Bpow_pos n : 0 < Bpow n.
Proof. apply Z.pow_pos_nonneg; lia. Qed.
Lemma Bpow_1 : Bpow 1 = 2 ^ 32.
Proof. reflexivity. Qed.

Lemma val_app l1 l2 : val (l1 ++ l2) = val l1 + Bpow (length l1) * val l2.
Proof.
  induction l1 as [|d l1 IH]; cbn [val app length]; [rewrite Bpow_0; lia|].
  rewrite IH, Bpow_S. ring.
Qed.

Lemma val_replicate0 n : val (replicate n 0) = 0.
Proof. induction n; cbn [val replicate]; lia. Qed.

Lemma digits_replicate0 n : digits (replicate n 0).
Proof. apply Forall_replicate. red. lia. Qed.

Lemma val_range l : digits l -> 0 <= val l < Bpow (length l).
Proof.
  induction 1 as [|d l Hd _ IH]; cbn [val length]; [rewrite Bpow_0; lia|].
  rewrite Bpow_S. unfold is_digit in Hd. lia.
Qed.

Lemma val_nonneg l : digits l -> 0 <= val l.
Proof. intros H. apply val_range in H. lia. Qed.

Lemma val_inj l1 : forall l2, digits l1 -> digits l2 -> length l1 = length l2 -> val l1 = val l2 -> l1 = l2.
Proof.
  induction l1 as [|d l1 IH]; intros [|e l2] H1 H2 HL HV; try discriminate; [done|].
  inversion H1; inversion H2; subst. cbn [val length] in *. unfold is_digit in *.
  assert (d = e) by lia. subst. f_equal. apply IH; try done; lia.
Qed.

Lemma val_insert l i d : (i < length l)%nat -> val (<[i := d]> l) = val l + (d - nth i l 0) * Bpow i.
Proof.
  revert i; induction l as [|x l IH]; intros [|i] Hi; cbn [length] in *; try lia.
  - cbn [insert list_insert val nth]. rewrite Bpow_0. lia.
  - change (<[S i := d]> (x :: l)) with (x :: <[i := d]> l). cbn [val nth]. rewrite IH by lia. rewrite Bpow_S. ring.
Qed.

Lemma digits_nth l i : digits l -> is_digit (nth i l 0).
Proof.
  intros H. destruct (decide (i < length l)%nat) as [Hi|Hi].
  - rewrite Forall_forall in H. apply H. apply list_elem_of_In. by apply nth_In.
  - rewrite nth_overflow by lia. red; lia.
Qed.

Lemma val_take_drop n l : val l = val (take n l) + Bpow (min n (length l)) * val (drop n l).
Proof. rewrite <- (take_drop n l) at 1. rewrite val_app, length_take. done. Qed.

Lemma val_0_zeros l : digits l -> val l = 0 -> l = replicate (length l) 0.
Proof.
  intros H HV. apply val_inj; [done|apply digits_replicate0|by rewrite length_replicate|].
  by rewrite val_replicate0.
Qed.

(** ** Carry and borrow of 32-bit words *)

Lemma add_carry a b : is_digit a -> is_digit b ->
  u32 (a + b) + 2 ^ 32 * (if u32 (a + b) <? b then 1 else 0) = a + b.
Proof.
  unfold is_digit, u32. intros.
  destruct (Z.ltb_spec ((a + b) mod 2 ^ 32) b); Z.div_mod_to_equations; lia.
Qed.

Lemma sub_borrow a b : is_digit a -> is_digit b ->
  u32 (a - b) - 2 ^ 32 * (if MAX_DIGIT - b <? u32 (a - b) then 1 else 0) = a - b.
Proof.
  unfold is_digit, u32, MAX_DIGIT. intros.
  destruct (Z.ltb_spec (0xFFFFFFFF - b) ((a - b) mod 2 ^ 32)); Z.div_mod_to_equations; lia.
Qed.

Lemma u32_digit x : is_digit (u32 x).
Proof. apply u32_range. Qed.

Lemma digit_small x : is_digit x -> u32 x = x.
Proof. apply u32_small. Qed.

Lemma bit01 (b : bool) : 0 <= (if b then 1 else 0) <= 1.
Proof. destruct b; lia. Qed.

Create HintDb digit.
#[export] Hint Resolve u32_digit digits_replicate0 digits_nth val_nonneg Bpow_pos : digit.

(** ** Half-digits *)

Lemma LOHALF_eq x : LOHALF x = x mod 2 ^ 16.
Proof. unfold LOHALF, MAX_HALF_DIGIT. change 0xFFFF with (Z.ones 16). by rewrite Z.land_ones by lia. Qed.

Lemma HIHALF_eq x : HIHALF x = x / 2 ^ 16 mod 2 ^ 16.
Proof.
  unfold HIHALF, MAX_HALF_DIGIT. change 0xFFFF with (Z.ones 16).
  rewrite Z.land_ones, Z.shiftr_div_pow2 by lia. done.
Qed.

Lemma HIHALF_digit x : is_digit x -> HIHALF x = x / 2 ^ 16.
Proof. intros H. rewrite HIHALF_eq. red in H. apply Z.mod_small. Z.div_mod_to_equations; lia. Qed.

Lemma TOHIGH_eq x : TOHIGH x = (x * 2 ^ 16) mod 2 ^ 32.
Proof. unfold TOHIGH, u32. by rewrite Z.shiftl_mul_pow2 by lia. Qed.

Lemma TOHIGH_half x : 0 <= x < 2 ^ 16 -> TOHIGH x = x * 2 ^ 16.
Proof. intros. rewrite TOHIGH_eq. apply Z.mod_small. lia. Qed.

Lemma halves x : is_digit x -> x = LOHALF x + 2 ^ 16 * HIHALF x /\ 0 <= LOHALF x < 2 ^ 16 /\ 0 <= HIHALF x < 2 ^ 16.
Proof. intros H. rewrite LOHALF_eq, HIHALF_digit by done. red in H. Z.div_mod_to_equations; lia. Qed.

Lemma TOHIGH_lor x u : 0 <= x < 2 ^ 16 -> 0 <= u < 2 ^ 16 -> Z.lor (TOHIGH x) u = x * 2 ^ 16 + u.
Proof. intros. rewrite TOHIGH_half by done. by apply lor_add. Qed.

Lemma half_prod a b : 0 <= a < 2 ^ 16 -> 0 <= b < 2 ^ 16 -> 0 <= a * b <= (2 ^ 16 - 1) * (2 ^ 16 - 1).
Proof. intros. nia. Qed.

(** ** spMultiply *)

Lemma spMultiply_ok x y : is_digit x -> is_digit y ->
  is_digit (spMultiply x y).1 /\ is_digit (spMultiply x y).2 /\
  (spMultiply x y).1 + 2 ^ 32 * (spMultiply x y).2 = x * y.
Proof.
  intros Hx Hy. unfold spMultiply.
  destruct (halves x Hx) as (Ex & Hx0 & Hx1). destruct (halves y Hy) as (Ey & Hy0 & Hy1).
  set (x0 := LOHALF x) in *. set (x1 := HIHALF x) in *. set (y0 := LOHALF y) in *. set (y1 := HIHALF y) in *.
  assert (x * y = x0 * y0 + 2 ^ 16 * (x0 * y1 + x1 * y0) + 2 ^ 32 * (x1 * y1)) as -> by (rewrite Ex, Ey; ring).
  pose proof (half_prod x0 y0 Hx0 Hy0) as P00. pose proof (half_prod x0 y1 Hx0 Hy1) as P01.
  pose proof (half_prod x1 y0 Hx1 Hy0) as P10. pose proof (half_prod x1 y1 Hx1 Hy1) as P11.
  generalize dependent (x0 * y0). generalize dependent (x0 * y1). generalize dependent (x1 * y0).
  generalize dependent (x1 * y1). intros d Hd c Hc b Hb a Ha.
  rewrite !(u32_small a), !(u32_small b), !(u32_small c), !(u32_small d) by lia.
  pose proof (add_carry b c) as E1. pose proof (u32_digit (b + c)) as D1. unfold is_digit in *.
  specialize (E1 ltac:(lia) ltac:(lia)).
  pose proof (bit01 (u32 (b + c) <? c)).
  generalize dependent (if u32 (b + c) <? c then 1 else 0). generalize dependent (u32 (b + c)).
  intros t Ht c1 E1 Hc1.
  destruct (halves t Ht) as (Et & Ht0 & Ht1).
  rewrite (TOHIGH_half c1) by lia. rewrite (TOHIGH_eq t).
  assert ((t * 2 ^ 16) mod 2 ^ 32 = LOHALF t * 2 ^ 16) as ->.
  { rewrite Et at 1. rewrite Z.mul_add_distr_r.
    replace (2 ^ 16 * HIHALF t * 2 ^ 16) with (HIHALF t * 2 ^ 32) by ring.
    rewrite Z.mod_add by lia. apply Z.mod_small. lia. }
  set (tl := LOHALF t) in *. set (th := HIHALF t) in *. clearbody tl th x0 x1 y0 y1.
  rewrite (u32_small (c1 * 2 ^ 16 + th)) by lia.
  pose proof (add_carry a (tl * 2 ^ 16)) as E3. unfold is_digit in *. specialize (E3 ltac:(lia) ltac:(lia)).
  pose proof (u32_digit (a + tl * 2 ^ 16)) as D3. red in D3.
  set (p0 := u32 (a + tl * 2 ^ 16)) in *. clearbody p0.
  destruct (p0 <? tl * 2 ^ 16); cbn [fst snd];
    rewrite ?(u32_small (c1 * 2 ^ 16 + th + 1)) by lia; rewrite u32_small by lia; lia.
Qed.

(** ** spDivide *)

Lemma land_pow2 x k : 0 <= k -> Z.land x (2 ^ k) = if Z.testbit x k then 2 ^ k else 0.
Proof.
  intros Hk. apply Z.bits_inj'. intros i Hi. rewrite Z.land_spec, Z.pow2_bits_eqb by done.
  destruct (Z.testbit x k) eqn:E; rewrite ?Z.bits_0, ?Z.pow2_bits_eqb by done;
    destruct (Z.eqb_spec k i) as [->|]; rewrite ?E, ?andb_false_r; done.
Qed.

Lemma testbit_top x k : 0 <= k -> 0 <= x < 2 ^ (k + 1) -> Z.testbit x k = (2 ^ k <=? x).
Proof.
  intros Hk Hx. rewrite Z.testbit_eqb by done. rewrite Z.pow_add_r in Hx by lia.
  destruct (Z.leb_spec (2 ^ k) x).
  - replace (x / 2 ^ k) with 1 by (apply Z.div_unique with (x - 2 ^ k); lia). done.
  - rewrite Z.div_small by lia. done.
Qed.

Lemma hibit x : is_digit x -> (Z.land x HIBITMASK =? 0) = (x <? 2 ^ 31).
Proof.
  intros H. unfold HIBITMASK. change 0x80000000 with (2 ^ 31). rewrite land_pow2, testbit_top by (red in H; lia).
  destruct (Z.leb_spec (2 ^ 31) x); destruct (Z.ltb_spec x (2 ^ 31)); done || lia.
Qed.

Lemma u32_sub_l a b : u32 (u32 a - b) = u32 (a - b).
Proof. unfold u32. apply Zminus_mod_idemp_l. Qed.

Lemma spMultSub_ok lo hi q v1 v0 :
  is_digit lo -> 0 <= hi < 2 ^ 16 -> 0 <= q < 2 ^ 16 -> 0 <= v1 < 2 ^ 16 -> 0 <= v0 < 2 ^ 16 ->
  0 <= hi * 2 ^ 32 + lo - q * (v1 * 2 ^ 16 + v0) < 2 ^ 32 ->
  (spMultSub (lo, hi) q v1 v0).1 = hi * 2 ^ 32 + lo - q * (v1 * 2 ^ 16 + v0) /\
  HIHALF (spMultSub (lo, hi) q v1 v0).2 = 0.
Proof.
  intros Hlo Hhi Hq Hv1 Hv0 HN. unfold spMultSub. cbn [fst snd].
  pose proof (half_prod q v0 Hq Hv0) as P0. pose proof (half_prod q v1 Hq Hv1) as P1.
  assert (q * (v1 * 2 ^ 16 + v0) = q * v0 + 2 ^ 16 * (q * v1)) as EP by ring. rewrite EP in *.
  generalize dependent (q * v0). generalize dependent (q * v1). intros p1 Hp1 p0 Hp0 HN EP.
  rewrite (u32_small p0), (u32_small p1) by lia.
  destruct (halves p1) as (E1 & L1 & H1); [red; lia|].
  rewrite (TOHIGH_half (LOHALF p1)) by lia.
  set (l1 := LOHALF p1) in *. set (h1 := HIHALF p1) in *. clearbody l1 h1. subst p1.
  pose proof (add_carry p0 (l1 * 2 ^ 16)) as E2. pose proof (u32_digit (p0 + l1 * 2 ^ 16)) as D2.
  unfold is_digit in *. specialize (E2 ltac:(lia) ltac:(lia)).
  pose proof (bit01 (u32 (p0 + l1 * 2 ^ 16) <? l1 * 2 ^ 16)) as C2.
  generalize dependent (if u32 (p0 + l1 * 2 ^ 16) <? l1 * 2 ^ 16 then 1 else 0).
  generalize dependent (u32 (p0 + l1 * 2 ^ 16)). intros t Ht c E2 Hc.
  pose proof (sub_borrow lo t Hlo Ht) as E3. pose proof (u32_digit (lo - t)) as D3. red in D3.
  destruct (MAX_DIGIT - t <? u32 (lo - t)); split; try lia.
  - rewrite u32_sub_l. replace (hi - 1 - h1) with c by lia. rewrite u32_small by lia.
    rewrite HIHALF_digit by (red; lia). apply Z.div_small. lia.
  - replace (hi - h1) with c by lia. rewrite u32_small by lia.
    rewrite HIHALF_digit by (red; lia). apply Z.div_small. lia.
Qed.

Lemma sp_round1_ok u v v1 v0 :
  is_digit u -> 2 ^ 15 <= v1 < 2 ^ 16 -> 0 <= v0 < 2 ^ 16 -> v = v1 * 2 ^ 16 + v0 ->
  sp_round1 u v v1 v0 = (u / v, u mod v).
Proof.
  intros Hu Hv1 Hv0 Ev. unfold sp_round1. destruct (halves u Hu) as (Eu & L & H).
  assert ((if 0 <? (if HIHALF u <? v1 then 0 else 1)
           then if Z.lor (TOHIGH (u32 (HIHALF u - v1))) (LOHALF u) <? v0
                then (if HIHALF u <? v1 then 0 else 1) - 1 else if HIHALF u <? v1 then 0 else 1
           else if HIHALF u <? v1 then 0 else 1) = if v <=? u then 1 else 0) as ->.
  { destruct (Z.ltb_spec (HIHALF u) v1) as [L1|L1]; cbn [Z.ltb Z.compare].
    - destruct (Z.leb_spec v u); lia.
    - rewrite u32_small, TOHIGH_lor by lia. destruct (Z.ltb_spec ((HIHALF u - v1) * 2 ^ 16 + LOHALF u) v0);
        destruct (Z.leb_spec v u); lia. }
  red in Hu. destruct (Z.leb_spec v u) as [L1|L1]; cbn [Z.ltb Z.compare].
  - destruct (spMultSub_ok u 0 1 v1 v0) as [E1 E2]; try (red; lia); try lia.
    rewrite E1, E2. cbn [Z.eqb negb].
    f_equal; [apply Z.div_unique with (u - v)|apply Z.mod_unique with 1]; lia.
  - by rewrite Z.div_small, Z.mod_small by lia.
Qed.

(** Comparing a multiple of the divisor with the dividend compares with the quotient. *)
Lemma ltb_quot N v q r k : N = v * q + r -> 0 <= r < v -> (N <? k * v) = (q <? k).
Proof. intros E R. destruct (Z.ltb_spec N (k * v)); destruct (Z.ltb_spec q k); try done; exfalso; nia. Qed.

(** The estimate of one round, after its two corrections, is the quotient. *)
Lemma sp_estimate_ok uu0 u v v1 v0 :
  2 ^ 15 <= v1 < 2 ^ 16 -> 0 <= v0 < 2 ^ 16 -> v = v1 * 2 ^ 16 + v0 -> 0 <= uu0 < v -> 0 <= u < 2 ^ 16 ->
  let qhat := uu0 / v1 in
  let rhat := u32 (uu0 - qhat * v1) in
  (if (qhat =? halfB) || (Z.lor (TOHIGH rhat) u <? u32 (qhat * v0)) then
     if (u32 (rhat + v1) <? halfB) && (Z.lor (TOHIGH (u32 (rhat + v1))) u <? u32 ((qhat - 1) * v0))
     then qhat - 1 - 1 else qhat - 1
   else qhat) = (uu0 * 2 ^ 16 + u) / v.
Proof.
  intros Hv1 Hv0 Ev Huu Hu qhat rhat. change halfB with (2 ^ 16).
  pose proof (Z.div_mod uu0 v1 ltac:(lia)) as EU. pose proof (Z.mod_pos_bound uu0 v1 ltac:(lia)) as RU.
  assert (rhat = uu0 mod v1) as Er. { unfold rhat, qhat. rewrite u32_small by lia. lia. }
  fold qhat in EU. rewrite <- Er in *. clearbody rhat. clear Er.
  pose proof (Z.div_mod (uu0 * 2 ^ 16 + u) v ltac:(lia)) as EN.
  pose proof (Z.mod_pos_bound (uu0 * 2 ^ 16 + u) v ltac:(lia)) as RN.
  set (q := (uu0 * 2 ^ 16 + u) / v) in *. set (r := (uu0 * 2 ^ 16 + u) mod v) in *.
  clearbody q r qhat. subst v.
  assert (0 <= q < 2 ^ 16) as Hq by nia.
  assert (q <= qhat) as Lq by nia.
  assert (qhat <= q + 2) as Uq.
  { destruct (Z_le_gt_dec qhat (q + 2)) as [|G]; [done|exfalso].
    assert ((q + 3) * v1 <= qhat * v1) by nia. assert ((q + 1) * v0 <= 2 ^ 16 * v0) by nia. nia. }
  assert (0 <= qhat * v0 < 2 ^ 32) as W0 by nia.
  rewrite TOHIGH_lor by lia. rewrite (u32_small (qhat * v0)) by lia. rewrite (u32_small (rhat + v1)) by lia.
  assert (forall qh rh, qh * v1 + rh = uu0 -> (rh * 2 ^ 16 + u <? qh * v0) = (q <? qh)) as T.
  { intros qh rh E. rewrite <- (ltb_quot _ _ _ _ qh EN RN), <- E.
    replace (qh * (v1 * 2 ^ 16 + v0)) with (qh * v1 * 2 ^ 16 + qh * v0) by ring.
    apply Bool.eq_iff_eq_true. rewrite !Z.ltb_lt. lia. }
  rewrite (T qhat rhat) by lia.
  assert (((qhat =? 2 ^ 16) || (q <? qhat)) = (q <? qhat)) as ->.
  { destruct (Z.eqb_spec qhat (2 ^ 16)); [|done]. cbn [orb]. symmetry. apply Z.ltb_lt. lia. }
  destruct (Z.ltb_spec q qhat) as [G|G]; [|lia].
  destruct (Z.ltb_spec (rhat + v1) (2 ^ 16)) as [G2|G2]; cbn [andb].
  - rewrite TOHIGH_lor by lia. assert (0 <= (qhat - 1) * v0) by (apply Z.mul_nonneg_nonneg; lia).
    rewrite u32_small by lia. rewrite (T (qhat - 1) (rhat + v1)) by lia.
    destruct (Z.ltb_spec q (qhat - 1)); lia.
  - assert (~ q < qhat - 1); [|lia]. intros G3.
    assert ((qhat - 1) * v0 <= 2 ^ 16 * v0) by nia. nia.
Qed.

Lemma sp_round_ok uu0 u v v1 v0 :
  2 ^ 15 <= v1 < 2 ^ 16 -> 0 <= v0 < 2 ^ 16 -> v = v1 * 2 ^ 16 + v0 -> 0 <= uu0 < v -> 0 <= u < 2 ^ 16 ->
  sp_round uu0 u v v1 v0 = ((uu0 * 2 ^ 16 + u) / v, (uu0 * 2 ^ 16 + u) mod v).
Proof.
  intros Hv1 Hv0 Ev Huu Hu. unfold sp_round. cbv zeta.
  pose proof (sp_estimate_ok uu0 u v v1 v0 Hv1 Hv0 Ev Huu Hu) as E. cbv zeta in E. rewrite E. clear E.
  destruct (halves uu0) as (E0 & L0 & H0); [red; lia|].
  rewrite TOHIGH_lor by lia.
  pose proof (Z.div_mod (uu0 * 2 ^ 16 + u) v ltac:(lia)) as EN.
  pose proof (Z.mod_pos_bound (uu0 * 2 ^ 16 + u) v ltac:(lia)) as RN.
  set (q := (uu0 * 2 ^ 16 + u) / v) in *. set (r := (uu0 * 2 ^ 16 + u) mod v) in *. clearbody q r.
  assert (0 <= q < 2 ^ 16) as Hq by nia.
  destruct (spMultSub_ok (LOHALF uu0 * 2 ^ 16 + u) (HIHALF uu0) q v1 v0) as [E1 E2]; try (red; lia); try lia.
  rewrite E1, E2. cbn [Z.eqb negb]. f_equal. lia.
Qed.

Lemma spDivide_ok u_lo u_hi v : is_digit u_lo -> is_digit u_hi -> 2 ^ 31 <= v < 2 ^ 32 ->
  let '(q, r, q2) := spDivide u_lo u_hi v in
  is_digit q /\ 0 <= r < v /\ 0 <= q2 <= 1 /\ u_hi * 2 ^ 32 + u_lo = (q2 * 2 ^ 32 + q) * v + r.
Proof.
  intros Hl Hh Hv. unfold spDivide. rewrite hibit by (red; lia).
  destruct (Z.ltb_spec v (2 ^ 31)); [lia|].
  destruct (halves v) as (Ev & V0 & V1); [red; lia|].
  destruct (halves u_lo Hl) as (El & L0 & L1).
  rewrite sp_round1_ok by (done || lia).
  pose proof (Z.div_mod u_hi v ltac:(lia)) as E1. pose proof (Z.mod_pos_bound u_hi v ltac:(lia)) as R1.
  rewrite sp_round_ok by (done || lia).
  set (x1 := u_hi mod v * 2 ^ 16 + HIHALF u_lo) in *.
  pose proof (Z.div_mod x1 v ltac:(lia)) as E2. pose proof (Z.mod_pos_bound x1 v ltac:(lia)) as R2.
  rewrite sp_round_ok by (done || lia).
  set (x0 := x1 mod v * 2 ^ 16 + LOHALF u_lo) in *.
  pose proof (Z.div_mod x0 v ltac:(lia)) as E3. pose proof (Z.mod_pos_bound x0 v ltac:(lia)) as R3.
  assert (0 <= x1 / v < 2 ^ 16) as B1 by (unfold x1 in *; nia).
  assert (0 <= x0 / v < 2 ^ 16) as B0 by (unfold x0 in *; nia).
  rewrite (LOHALF_eq (x0 / v)), (Z.mod_small (x0 / v)) by lia. rewrite TOHIGH_lor by lia.
  assert (0 <= u_hi / v <= 1) by (red in Hh; nia).
  split; [red; lia|]. split; [lia|]. split; [lia|]. unfold x0, x1 in *. lia.
Qed.
