(* ===== verification/BigArith.v ===== *)
(** * BigArith: the array routines of bigdigits.c compute sums, products and shifts

    Additions, subtractions, products, squares, comparisons, sizes and shifts
    of digit arrays, each with its exact value and with the carry, borrow or
    overflow digit it returns. *)

From stdpp Require Import base list numbers.
From S2P Require Import Prelude BigDigits BigDigitsProps.
Local Open Scope Z_scope.

(** A result array of a routine: its length, its digits, its value. *)
Definition is_num (l : list Z) (n : nat) (x : Z) : Prop := length l = n /\ digits l /\ val l = x.

Lemma is_num_of l : digits l -> is_num l (length l) (val l).
Proof. done. Qed.

Lemma is_num_range l n x : is_num l n x -> 0 <= x < Bpow n.
Proof. intros (<- & H & <-). by apply val_range. Qed.

Lemma is_num_inj l1 l2 n x : is_num l1 n x -> is_num l2 n x -> l1 = l2.
Proof. intros (L1 & D1 & V1) (L2 & D2 & V2). apply val_inj; congruence. Qed.

Lemma is_num_cons d l n x : is_digit d -> is_num l n x -> is_num (d :: l) (S n) (d + 2 ^ 32 * x).
Proof. intros Hd (<- & H & <-). split; [done|]. split; [by constructor|done]. Qed.

Lemma is_num_cons_inv d l n x : is_num (d :: l) (S n) x ->
  is_digit d /\ is_num l n ((x - d) / 2 ^ 32) /\ x = d + 2 ^ 32 * ((x - d) / 2 ^ 32).
Proof.
  intros (L & D & V). inversion D; subst. cbn [val length] in *.
  assert ((d + 2 ^ 32 * val l - d) / 2 ^ 32 = val l) as ->.
  { replace (d + 2 ^ 32 * val l - d) with (val l * 2 ^ 32) by lia. apply Z.div_mul. lia. }
  split; [done|]. split; [split; [lia|done]|lia].
Qed.

Lemma is_num_zeros n : is_num (replicate n 0) n 0.
Proof. split; [apply length_replicate|]. split; [apply digits_replicate0|apply val_replicate0]. Qed.

Lemma is_num_app l1 l2 n1 n2 x1 x2 : is_num l1 n1 x1 -> is_num l2 n2 x2 ->
  is_num (l1 ++ l2) (n1 + n2) (x1 + Bpow n1 * x2).
Proof.
  intros (<- & D1 & <-) (<- & D2 & <-). split; [apply length_app|]. split; [by apply Forall_app|apply val_app].
Qed.

Lemma is_num_eq l n m x y : is_num l n x -> n = m -> x = y -> is_num l m y.
Proof. intros ? <- <-. done. Qed.

(** ** Addition and subtraction *)

Lemma mpAdd_loop_ok u : forall v k, length u = length v -> digits u -> digits v -> 0 <= k <= 1 ->
  let '(w, c) := mpAdd_loop k u v in
  0 <= c <= 1 /\ is_num w (length u) (val u + val v + k - Bpow (length u) * c).
Proof.
  induction u as [|x u IH]; intros [|y v] k HL Hu Hv Hk; try discriminate; cbn [mpAdd_loop].
  - split; [done|]. split; [done|]. split; [constructor|]. cbn [val length]. rewrite Bpow_0. lia.
  - inversion Hu; inversion Hv; subst.
    pose proof (add_carry x k) as E1. pose proof (u32_digit (x + k)) as D1.
    specialize (E1 ltac:(done) ltac:(red; lia)). pose proof (bit01 (u32 (x + k) <? k)) as K1.
    set (w := u32 (x + k)) in *. set (k1 := if w <? k then 1 else 0) in *. clearbody w k1.
    pose proof (add_carry w y D1 ltac:(done)) as E2. pose proof (u32_digit (w + y)) as D2.
    set (w' := u32 (w + y)) in *. clearbody w'.
    assert (exists k2, (if w' <? y then k1 + 1 else k1) = k2 /\ w' + 2 ^ 32 * k2 = x + y + k /\ 0 <= k2 <= 1)
      as (k2 & -> & E3 & K2).
    { destruct (w' <? y); eexists; (split; [reflexivity|]); unfold is_digit in *; lia. }
    specialize (IH v k2 ltac:(by injection HL) ltac:(done) ltac:(done) K2).
    destruct (mpAdd_loop k2 u v) as [ws c]. destruct IH as (C & N).
    split; [done|]. cbn [val length]. rewrite Bpow_S.
    apply (is_num_eq _ _ _ _ _ (is_num_cons w' _ _ _ D2 N)); [done|]. lia.
Qed.

Lemma mpAdd_ok u v : length u = length v -> digits u -> digits v ->
  let '(w, c) := mpAdd u v in
  0 <= c <= 1 /\ is_num w (length u) (val u + val v - Bpow (length u) * c).
Proof.
  intros HL Hu Hv. pose proof (mpAdd_loop_ok u v 0 HL Hu Hv ltac:(lia)) as H.
  unfold mpAdd. destruct (mpAdd_loop 0 u v). by rewrite Z.add_0_r in H.
Qed.

Lemma mpSubtract_loop_ok u : forall v k, length u = length v -> digits u -> digits v -> 0 <= k <= 1 ->
  let '(w, c) := mpSubtract_loop k u v in
  0 <= c <= 1 /\ is_num w (length u) (val u - val v - k + Bpow (length u) * c).
Proof.
  induction u as [|x u IH]; intros [|y v] k HL Hu Hv Hk; try discriminate; cbn [mpSubtract_loop].
  - split; [done|]. split; [done|]. split; [constructor|]. cbn [val length]. rewrite Bpow_0. lia.
  - inversion Hu; inversion Hv; subst.
    pose proof (sub_borrow x k) as E1. pose proof (u32_digit (x - k)) as D1.
    specialize (E1 ltac:(done) ltac:(red; lia)). pose proof (bit01 (MAX_DIGIT - k <? u32 (x - k))) as K1.
    set (w := u32 (x - k)) in *. set (k1 := if MAX_DIGIT - k <? w then 1 else 0) in *. clearbody w k1.
    pose proof (sub_borrow w y D1 ltac:(done)) as E2. pose proof (u32_digit (w - y)) as D2.
    set (w' := u32 (w - y)) in *. clearbody w'.
    assert (exists k2, (if MAX_DIGIT - y <? w' then k1 + 1 else k1) = k2 /\ w' - 2 ^ 32 * k2 = x - y - k /\ 0 <= k2 <= 1)
      as (k2 & -> & E3 & K2).
    { destruct (MAX_DIGIT - y <? w'); eexists; (split; [reflexivity|]); unfold is_digit in *; lia. }
    specialize (IH v k2 ltac:(by injection HL) ltac:(done) ltac:(done) K2).
    destruct (mpSubtract_loop k2 u v) as [ws c]. destruct IH as (C & N).
    split; [done|]. cbn [val length]. rewrite Bpow_S.
    apply (is_num_eq _ _ _ _ _ (is_num_cons w' _ _ _ D2 N)); [done|]. lia.
Qed.

Lemma mpSubtract_ok u v : length u = length v -> digits u -> digits v ->
  let '(w, c) := mpSubtract u v in
  0 <= c <= 1 /\ is_num w (length u) (val u - val v + Bpow (length u) * c).
Proof.
  intros HL Hu Hv. pose proof (mpSubtract_loop_ok u v 0 HL Hu Hv ltac:(lia)) as H.
  unfold mpSubtract. destruct (mpSubtract_loop 0 u v). by rewrite Z.sub_0_r in H.
Qed.

(** ** Product *)

(** x * y + a + b of four digits fits two digits, as [mul_row] accumulates it. *)
Lemma mul_acc_ok x y a b : is_digit x -> is_digit y -> is_digit a -> is_digit b ->
  let '(t0, t1) := spMultiply x y in
  let s0 := u32 (t0 + a) in
  let t1 := if s0 <? a then u32 (t1 + 1) else t1 in
  let r0 := u32 (s0 + b) in
  let t1 := if r0 <? b then u32 (t1 + 1) else t1 in
  is_digit r0 /\ is_digit t1 /\ r0 + 2 ^ 32 * t1 = x * y + a + b.
Proof.
  intros Hx Hy Ha Hb. pose proof (spMultiply_ok x y Hx Hy) as (D0 & D1 & E).
  assert (x * y <= (2 ^ 32 - 1) * (2 ^ 32 - 1)) as P by (unfold is_digit in *; nia).
  generalize dependent (x * y). intros p E P.
  destruct (spMultiply x y) as [t0 t1]. cbn [fst snd] in *. cbv zeta.
  pose proof (add_carry t0 a D0 Ha) as E1. pose proof (u32_digit (t0 + a)) as D2.
  set (s0 := u32 (t0 + a)) in *. clearbody s0.
  pose proof (add_carry s0 b D2 Hb) as E2. pose proof (u32_digit (s0 + b)) as D3.
  set (r0 := u32 (s0 + b)) in *. clearbody r0. unfold is_digit in *.
  destruct (s0 <? a); destruct (r0 <? b); rewrite ?(u32_small (t1 + 1)) by lia;
    rewrite ?(u32_small (t1 + 1 + 1)) by lia; lia.
Qed.

Lemma mul_row_ok u vj : digits u -> is_digit vj -> forall k w1 z w2,
  is_digit k -> digits w1 -> length w1 = length u ->
  exists r, mul_row u vj k (w1 ++ z :: w2) = r ++ w2 /\ is_num r (S (length u)) (val w1 + k + vj * val u).
Proof.
  intros Hu Hv. induction Hu as [|x u Hx Hu IH]; intros k [|y w1] z w2 Hk Hw HL; try discriminate.
  - exists [k]. split; [done|]. split; [done|]. split; [by apply Forall_singleton|]. cbn [val]. lia.
  - inversion Hw; subst. cbn [mul_row app].
    pose proof (mul_acc_ok x vj k y Hx Hv Hk ltac:(done)) as A.
    destruct (spMultiply x vj) as [t0 t1]. cbv zeta in A. destruct A as (D0 & D1 & E).
    destruct (IH (if u32 (u32 (t0 + k) + y) <? y
                  then u32 ((if u32 (t0 + k) <? k then u32 (t1 + 1) else t1) + 1)
                  else if u32 (t0 + k) <? k then u32 (t1 + 1) else t1) w1 z w2) as (r & -> & N);
      [done|done|cbn [length] in HL; lia|].
    eexists (_ :: r). split; [reflexivity|].
    cbn [val length]. apply (is_num_eq _ _ _ _ _ (is_num_cons _ _ _ _ D0 N)); [done|]. lia.
Qed.

Lemma mpMultiply_loop_ok u v : digits u -> digits v -> forall w1 w2,
  digits w1 -> length w1 = length u -> w2 = replicate (length v) 0 ->
  is_num (mpMultiply_loop u v (w1 ++ w2)) (length u + length v) (val w1 + val u * val v).
Proof.
  intros Hu Hv. induction Hv as [|y v Hy Hv IH]; intros w1 w2 Hw HL ->; cbn [mpMultiply_loop length replicate].
  - rewrite app_nil_r. cbn [val]. split; [lia|]. split; [done|lia].
  - assert (exists r, (if y =? 0 then <[length u := 0]> (w1 ++ 0 :: replicate (length v) 0)
                       else mul_row u y 0 (w1 ++ 0 :: replicate (length v) 0)) = r ++ replicate (length v) 0
                      /\ is_num r (S (length u)) (val w1 + y * val u)) as (r & -> & N).
    { destruct (Z.eqb_spec y 0) as [->|].
      - exists (w1 ++ [0]). split.
        + rewrite <- HL, insert_app_r_alt, Nat.sub_diag by lia. by rewrite <- app_assoc.
        + apply (is_num_eq _ _ _ _ _ (is_num_app w1 [0] _ _ _ _ (is_num_of w1 Hw) (is_num_zeros 1))); lia.
      - destruct (mul_row_ok u y Hu Hy 0 w1 0 (replicate (length v) 0)) as (r & -> & N); try done.
        exists r. split; [done|]. apply (is_num_eq _ _ _ _ _ N); [done|lia]. }
    destruct r as [|r0 r]; [destruct N; discriminate|].
    apply is_num_cons_inv in N as (D0 & (L & D & V) & E). cbn [app].
    specialize (IH r (replicate (length v) 0) D L eq_refl).
    apply (is_num_eq _ _ _ _ _ (is_num_cons _ _ _ _ D0 IH)); [lia|].
    cbn [val]. rewrite V. lia.
Qed.

Lemma mpMultiply_ok u v : length u = length v -> digits u -> digits v ->
  is_num (mpMultiply u v) (2 * length u) (val u * val v).
Proof.
  intros HL Hu Hv. unfold mpMultiply.
  replace (2 * length u)%nat with (length u + length v)%nat by lia. rewrite replicate_add.
  pose proof (mpMultiply_loop_ok u v Hu Hv (replicate (length u) 0) _
    (digits_replicate0 _) (length_replicate _ _) eq_refl) as H.
  by rewrite val_replicate0 in H.
Qed.

(** ** Comparison and size *)

Lemma mpCompare_ok a : forall b, length a = length b -> digits a -> digits b ->
  mpCompare a b = Z.sgn (val a - val b).
Proof.
  induction a as [|x a IH]; intros [|y b] HL Ha Hb; try discriminate; [done|].
  inversion Ha; inversion Hb; subst. cbn [mpCompare val]. rewrite IH by (done || by injection HL).
  unfold is_digit in *.
  destruct (Z.sgn_spec (val a - val b)) as [[A ->]|[[A ->]|[A ->]]];
    destruct (Z.sgn_spec (x + 2 ^ 32 * val a - (y + 2 ^ 32 * val b))) as [[C ->]|[[C ->]|[C ->]]];
    cbn [Z.eqb Pos.eqb Z.opp]; try lia;
    destruct (Z.ltb_spec y x); destruct (Z.ltb_spec x y); done || lia.
Qed.

Lemma forallb_zero a : digits a -> forallb (fun d => d =? 0) a = (val a =? 0).
Proof.
  induction 1 as [|x a Hx Ha IH]; cbn [forallb val]; [done|]. rewrite IH. pose proof (val_nonneg a Ha). red in Hx.
  destruct (Z.eqb_spec x 0); destruct (Z.eqb_spec (val a) 0); destruct (Z.eqb_spec (x + 2 ^ 32 * val a) 0); done || lia.
Qed.

Lemma mpIsZero_ok a : digits a -> negb (mpIsZero a =? 0) = (val a =? 0).
Proof.
  intros H. unfold mpIsZero. rewrite forallb_zero by done.
  destruct a; [done|]. by destruct (val _ =? 0).
Qed.

Lemma mpSizeof_spec a : digits a ->
  (mpSizeof a <= length a)%nat /\ val (take (mpSizeof a) a) = val a /\
  (mpSizeof a <> 0%nat -> 0 < nth (mpSizeof a - 1) a 0) /\
  drop (mpSizeof a) a = replicate (length a - mpSizeof a) 0.
Proof.
  induction 1 as [|x a Hx Ha (L & V & P & Z0)]; cbn [mpSizeof]; [by repeat split|]. red in Hx.
  destruct (mpSizeof a) as [|n] eqn:E.
  - rewrite skipn_O, Nat.sub_0_r in Z0. rewrite firstn_O in V. change (0 = val a) in V.
    destruct (Z.eqb_spec x 0) as [->|]; rewrite ?firstn_O, ?skipn_O, ?firstn_cons, ?skipn_cons, ?firstn_O, ?skipn_O;
      cbn [length val nth Nat.sub].
    + split; [lia|]. split; [lia|]. split; [lia|]. cbn [replicate]. f_equal. apply Z0.
    + rewrite Nat.sub_0_r, <- Z0. split; [lia|]. split; [lia|]. split; [lia|done].
  - cbn [length Nat.sub] in *. rewrite firstn_cons, skipn_cons. cbn [val nth].
    rewrite V. split; [lia|]. split; [done|]. split; [|done].
    intros _. specialize (P ltac:(lia)). by rewrite Nat.sub_0_r in P.
Qed.

Lemma nth_zeros n : forall i, nth i (replicate n 0) 0 = 0.
Proof. induction n; intros [|i]; cbn; done || apply IHn. Qed.

Lemma mpSizeof_zero a : digits a -> (mpSizeof a = 0%nat <-> val a = 0).
Proof.
  intros H. destruct (mpSizeof_spec a H) as (L & V & P & _). split.
  - intros E. rewrite <- V, E. done.
  - intros E. destruct (decide (mpSizeof a = 0%nat)) as [|N]; [done|]. specialize (P N).
    apply val_0_zeros in E; [|done]. rewrite E in P.
    rewrite nth_zeros in P. lia.
Qed.

(** The leading digit bounds the value from below. *)
Lemma mpSizeof_bounds a : digits a -> mpSizeof a <> 0%nat ->
  Bpow (mpSizeof a - 1) <= val a < Bpow (mpSizeof a).
Proof.
  intros H N. destruct (mpSizeof_spec a H) as (L & V & P & _). specialize (P N).
  set (n := mpSizeof a) in *. rewrite <- V.
  assert (digits (take n a)) as HT by (by apply Forall_take).
  split.
  - rewrite (val_take_drop (n - 1) (take n a)), length_take.
    assert (drop (n - 1) (take n a) = [nth (n - 1) a 0]) as ->.
    { replace (take n a) with (take (S (n - 1)) a) by (f_equal; lia).
      destruct (nth_lookup_or_length a (n - 1) 0) as [E|]; [|lia].
      rewrite (take_S_r _ _ _ E), drop_app_length' by (rewrite length_take; lia). done. }
    assert (0 <= val (take (n - 1) (take n a))) by (apply val_nonneg; by apply Forall_take).
    rewrite Nat.min_l by lia. cbn [val]. pose proof (Bpow_pos (n - 1)). nia.
  - pose proof (val_range _ HT) as R. rewrite length_take, Nat.min_l in R by lia. lia.
Qed.
