(* ===== verification/BigShift.v ===== *)
(** * BigShift: shifts, bit lengths and single-digit operations of bigdigits.c *)

From stdpp Require Import base list numbers.
From S2P Require Import Prelude BigDigits BigDigitsProps BigArith.
Local Open Scope Z_scope.

(** ** Shifts by less than a digit *)

Lemma testbit_u32 x i : 0 <= i -> Z.testbit (u32 x) i = (i <? 32) && Z.testbit x i.
Proof.
  intros Hi. unfold u32. destruct (Z.ltb_spec i 32); cbn [andb].
  - by rewrite Z.mod_pow2_bits_low by lia.
  - by rewrite Z.mod_pow2_bits_high by lia.
Qed.

Lemma testbit_digit x i : is_digit x -> 32 <= i -> Z.testbit x i = false.
Proof. intros H Hi. rewrite <- (u32_small x), testbit_u32 by (done || lia). by destruct (Z.ltb_spec i 32); [lia|]. Qed.

Lemma shr_ones bits : 0 <= bits <= 32 -> Z.shiftr MAX_DIGIT bits = Z.ones (32 - bits).
Proof.
  intros H. change MAX_DIGIT with (Z.ones 32). apply Z.bits_inj'. intros i Hi.
  rewrite Z.shiftr_spec, !Z.testbit_ones_nonneg by lia.
  destruct (Z.ltb_spec (i + bits) 32); destruct (Z.ltb_spec i (32 - bits)); done || lia.
Qed.

Lemma shl_nextcarry x bits : is_digit x -> 0 <= bits < 32 ->
  Z.shiftr (Z.land x (u32 (Z.lnot (Z.shiftr MAX_DIGIT bits)))) (BITS_PER_DIGIT - bits) = x / 2 ^ (32 - bits).
Proof.
  intros Hx Hb. unfold BITS_PER_DIGIT. rewrite shr_ones by lia. rewrite <- Z.shiftr_div_pow2 by lia.
  apply Z.bits_inj'. intros i Hi. rewrite !Z.shiftr_spec, Z.land_spec, testbit_u32, Z.lnot_spec by lia.
  rewrite Z.testbit_ones_nonneg by lia.
  destruct (Z.ltb_spec (i + (32 - bits)) (32 - bits)); [lia|].
  destruct (Z.ltb_spec (i + (32 - bits)) 32); cbn [andb negb]; [by rewrite andb_true_r|].
  by rewrite (testbit_digit x), andb_false_r by (done || lia).
Qed.

Lemma shr_nextcarry x bits : is_digit x -> 0 <= bits < 32 ->
  u32 (Z.shiftl (Z.land x (u32 (Z.lnot (u32 (Z.shiftl MAX_DIGIT bits))))) (BITS_PER_DIGIT - bits))
  = x mod 2 ^ bits * 2 ^ (32 - bits).
Proof.
  intros Hx Hb. unfold BITS_PER_DIGIT. red in Hx.
  assert (Z.land x (u32 (Z.lnot (u32 (Z.shiftl MAX_DIGIT bits)))) = x mod 2 ^ bits) as ->.
  { rewrite <- Z.land_ones by lia. apply Z.bits_inj'. intros i Hi.
    rewrite !Z.land_spec, testbit_u32, Z.lnot_spec, testbit_u32 by lia.
    change MAX_DIGIT with (Z.ones 32). rewrite Z.shiftl_spec, (Z.testbit_ones_nonneg bits i) by lia.
    destruct (decide (i < 32)) as [L|L].
    - destruct (Z.ltb_spec i 32); [|lia]. cbn [andb].
      destruct (Z.ltb_spec i bits).
      + rewrite (Z.testbit_neg_r _ (i - bits)) by lia. done.
      + rewrite (Z.testbit_ones_nonneg 32 (i - bits)) by lia. by destruct (Z.ltb_spec (i - bits) 32); [|lia].
    - rewrite (testbit_digit x) by (done || lia). done. }
  rewrite Z.shiftl_mul_pow2 by lia. apply u32_small.
  pose proof (Z.mod_pos_bound x (2 ^ bits) ltac:(lia)).
  assert (2 ^ 32 = 2 ^ bits * 2 ^ (32 - bits)) as -> by (rewrite <- Z.pow_add_r by lia; f_equal; lia).
  assert (0 < 2 ^ (32 - bits)) by (apply Z.pow_pos_nonneg; lia). nia.
Qed.

Lemma pow_split bits : 0 <= bits < 32 -> 2 ^ bits * 2 ^ (32 - bits) = 2 ^ 32 /\ 0 < 2 ^ bits /\ 0 < 2 ^ (32 - bits).
Proof.
  intros H. split; [rewrite <- Z.pow_add_r by lia; f_equal; lia|].
  split; apply Z.pow_pos_nonneg; lia.
Qed.

(** One digit of a left shift: low part, with the incoming carry, and outgoing carry. *)
Lemma shl_digit x bits carry : is_digit x -> 0 <= bits < 32 -> 0 <= carry < 2 ^ bits ->
  is_digit (Z.lor (u32 (Z.shiftl x bits)) carry) /\ 0 <= x / 2 ^ (32 - bits) < 2 ^ bits /\
  Z.lor (u32 (Z.shiftl x bits)) carry + 2 ^ 32 * (x / 2 ^ (32 - bits)) = x * 2 ^ bits + carry.
Proof.
  intros Hx Hb Hc. destruct (pow_split bits Hb) as (E & P1 & P2). red in Hx.
  pose proof (Z.div_mod x (2 ^ (32 - bits)) ltac:(lia)) as D.
  pose proof (Z.mod_pos_bound x (2 ^ (32 - bits)) ltac:(lia)) as R.
  set (h := x / 2 ^ (32 - bits)) in *. set (l := x mod 2 ^ (32 - bits)) in *. clearbody h l.
  assert (u32 (Z.shiftl x bits) = l * 2 ^ bits) as ->.
  { rewrite Z.shiftl_mul_pow2 by lia. unfold u32. rewrite D, <- E. symmetry.
    apply Z.mod_unique with h; [left; nia|ring]. }
  rewrite lor_add by lia.
  assert (0 <= h < 2 ^ bits) by nia. split; [|split]; [red; nia|done|]. rewrite D, <- E. ring.
Qed.

Lemma shl_loop_ok bits b : 0 <= bits < 32 -> digits b -> forall carry, 0 <= carry < 2 ^ bits ->
  let '(a, c) := shl_loop bits (u32 (Z.lnot (Z.shiftr MAX_DIGIT bits))) (BITS_PER_DIGIT - bits) carry b in
  0 <= c < 2 ^ bits /\ is_num a (length b) (val b * 2 ^ bits + carry - Bpow (length b) * c).
Proof.
  intros Hb Hd. induction Hd as [|x b Hx Hd IH]; intros carry Hc; cbn [shl_loop].
  - split; [done|]. split; [done|]. split; [constructor|]. cbn [val length]. rewrite Bpow_0. lia.
  - rewrite shl_nextcarry by done. destruct (shl_digit x bits carry Hx Hb Hc) as (D & R & E).
    specialize (IH _ R). destruct (shl_loop _ _ _ _ b) as [a c]. destruct IH as (C & N).
    split; [done|]. cbn [val length]. rewrite Bpow_S.
    apply (is_num_eq _ _ _ _ _ (is_num_cons _ _ _ _ D N)); [done|]. lia.
Qed.

Lemma shl_bits_ok b bits : 0 <= bits < 32 -> digits b ->
  let '(a, c) := shl_bits b bits in
  0 <= c < 2 ^ bits /\ is_num a (length b) (val b * 2 ^ bits - Bpow (length b) * c).
Proof.
  intros Hb Hd. pose proof (shl_loop_ok bits b Hb Hd 0) as H. unfold shl_bits.
  destruct (shl_loop _ _ _ 0 b). rewrite Z.add_0_r in H. apply H.
  split; [lia|]. apply Z.pow_pos_nonneg; lia.
Qed.

Lemma shr_loop_ok bits b : 0 <= bits < 32 -> digits b ->
  let '(a, c) := shr_loop bits (u32 (Z.lnot (u32 (Z.shiftl MAX_DIGIT bits)))) (BITS_PER_DIGIT - bits) b in
  c = val b mod 2 ^ bits * 2 ^ (32 - bits) /\ is_num a (length b) (val b / 2 ^ bits).
Proof.
  intros Hb Hd. destruct (pow_split bits Hb) as (E & P1 & P2).
  induction Hd as [|x b Hx Hd IH]; cbn [shr_loop].
  - by cbn [val length].
  - destruct (shr_loop _ _ _ b) as [a c]. destruct IH as (-> & N). rewrite shr_nextcarry by done.
    rewrite Z.shiftr_div_pow2 by lia. cbn [val length].
    assert (x + 2 ^ 32 * val b = x + val b * 2 ^ (32 - bits) * 2 ^ bits) as -> by (rewrite <- E; ring).
    rewrite Z.mod_add, Z.div_add by lia. split; [done|].
    assert (0 <= x / 2 ^ bits < 2 ^ (32 - bits)) as Hq.
    { red in Hx. split; [apply Z.div_pos; lia|]. apply Z.div_lt_upper_bound; lia. }
    pose proof (Z.mod_pos_bound (val b) (2 ^ bits) ltac:(lia)) as R.
    pose proof (Z.div_mod (val b) (2 ^ bits) ltac:(lia)) as DM.
    rewrite Z.lor_comm, lor_add by lia.
    apply (is_num_eq _ (S (length b)) _ (val b mod 2 ^ bits * 2 ^ (32 - bits) + x / 2 ^ bits + 2 ^ 32 * (val b / 2 ^ bits)) _);
      [|done|rewrite DM at 3; rewrite <- E; ring].
    apply is_num_cons; [red; nia|done].
Qed.

Lemma shr_bits_ok b bits : 0 <= bits < 32 -> digits b ->
  let '(a, c) := shr_bits b bits in
  c = val b mod 2 ^ bits * 2 ^ (32 - bits) /\ is_num a (length b) (val b / 2 ^ bits).
Proof. apply shr_loop_ok. Qed.

(** ** Shifts by any number of bits *)

Lemma is_num_mod a n x c : is_num a n (x - Bpow n * c) -> is_num a n (x mod Bpow n).
Proof.
  intros N. pose proof (is_num_range _ _ _ N). apply (is_num_eq _ _ _ _ _ N); [done|].
  apply Z.mod_unique with c; [by left|ring].
Qed.

Lemma map_nth_seq (b : list Z) : forall k n, (k + n <= length b)%nat -> map (fun i => nth (i - k) b 0) (seq k n) = take n b.
Proof.
  intros k n H. assert (forall j m, (j + m <= length b)%nat ->
    map (fun i => nth (i - k) b 0) (seq (k + j) m) = take m (drop j b)) as G.
  { intros j m. revert j. induction m as [|m IH]; intros j L; [by rewrite firstn_O|].
    cbn [seq map]. replace (S (k + j)) with (k + S j)%nat by lia. rewrite IH by lia.
    replace (k + j - k)%nat with j by lia.
    destruct (nth_lookup_or_length b j 0) as [E|]; [|lia].
    rewrite (drop_S _ _ _ E), firstn_cons. done. }
  specialize (G 0%nat n ltac:(lia)). rewrite Nat.add_0_r, drop_0 in G. done.
Qed.

Lemma map_zero {A} (f : A -> Z) l : (forall x, In x l -> f x = 0) -> map f l = replicate (length l) 0.
Proof. intros H. induction l as [|x l IH]; cbn; [done|]. rewrite H by (by left). f_equal. apply IH. intros. apply H. by right. Qed.

Lemma shl_whole nw b : digits b ->
  is_num (map (fun i => if (nw <=? i)%nat then nth (i - nw) b 0 else 0) (seq 0 (length b)))
         (length b) ((val b * Bpow nw) mod Bpow (length b)).
Proof.
  intros Hb. pose proof (Bpow_pos nw) as P1. pose proof (Bpow_pos (length b)) as P2.
  destruct (le_lt_dec nw (length b)) as [L|L].
  - set (k := (length b - nw)%nat). replace (length b) with (nw + k)%nat at 1 by lia. rewrite seq_app, map_app.
    rewrite (map_zero _ (seq 0 nw)), length_seq.
    2:{ intros i Hi. apply in_seq in Hi. by destruct (Nat.leb_spec nw i); [lia|]. }
    rewrite (map_ext_in _ (fun i => nth (i - nw) b 0)).
    2:{ intros i Hi. apply in_seq in Hi. by destruct (Nat.leb_spec nw i); [|lia]. }
    rewrite map_nth_seq by lia.
    assert (is_num (take k b) k (val (take k b))) as NT.
    { split; [rewrite length_take; lia|]. split; [by apply Forall_take|done]. }
    apply (is_num_eq _ _ _ _ _ (is_num_app _ _ _ _ _ _ (is_num_zeros nw) NT)); [lia|].
    pose proof (is_num_range _ _ _ NT) as R.
    replace (Bpow (length b)) with (Bpow nw * Bpow k) by (rewrite <- Bpow_add; f_equal; lia).
    apply Z.mod_unique with (val (drop k b)); [left; nia|].
    rewrite (val_take_drop k b), Nat.min_l by lia. ring.
  - rewrite (map_zero _ (seq 0 (length b))), length_seq.
    2:{ intros i Hi. apply in_seq in Hi. by destruct (Nat.leb_spec nw i); [lia|]. }
    apply (is_num_eq _ _ _ _ _ (is_num_zeros (length b))); [done|].
    replace nw with (nw - length b + length b)%nat by lia. rewrite Bpow_add.
    symmetry. rewrite Z.mul_assoc. apply Z.mod_mul. lia.
Qed.

Lemma shr_whole nw b : digits b ->
  is_num (map (fun i => if (i + nw <? length b)%nat then nth (i + nw) b 0 else 0) (seq 0 (length b)))
         (length b) (val b / Bpow nw).
Proof.
  intros Hb. pose proof (Bpow_pos nw) as P1.
  destruct (le_lt_dec nw (length b)) as [L|L].
  - set (k := (length b - nw)%nat).
    replace (seq 0 (length b)) with (seq 0 (k + nw)) by (f_equal; lia). rewrite seq_app, map_app.
    rewrite (map_zero _ (seq (0 + k) nw)), length_seq.
    2:{ intros i Hi. apply in_seq in Hi. by destruct (Nat.ltb_spec (i + nw) (length b)); [lia|]. }
    rewrite (map_ext_in _ (fun i => nth (i - 0) (drop nw b) 0)).
    2:{ intros i Hi. apply in_seq in Hi. destruct (Nat.ltb_spec (i + nw) (length b)); [|lia].
        rewrite Nat.sub_0_r, nth_skipn. f_equal. lia. }
    rewrite map_nth_seq by (rewrite length_drop; lia). rewrite (firstn_all2 (drop nw b)) by (rewrite length_drop; lia).
    assert (is_num (drop nw b) k (val (drop nw b))) as NT.
    { split; [rewrite length_drop; lia|]. split; [by apply Forall_drop|done]. }
    apply (is_num_eq _ _ _ _ _ (is_num_app _ _ _ _ _ _ NT (is_num_zeros nw))); [lia|].
    pose proof (val_range (take nw b) ltac:(by apply Forall_take)) as R.
    rewrite length_take, Nat.min_l in R by lia.
    apply Z.div_unique with (val (take nw b)); [by left|].
    rewrite (val_take_drop nw b), Nat.min_l by lia. ring.
  - rewrite (map_zero _ (seq 0 (length b))), length_seq.
    2:{ intros i Hi. apply in_seq in Hi. by destruct (Nat.ltb_spec (i + nw) (length b)); [lia|]. }
    apply (is_num_eq _ _ _ _ _ (is_num_zeros (length b))); [done|].
    pose proof (val_range b Hb) as R. symmetry. apply Z.div_small. split; [lia|].
    replace nw with (length b + (nw - length b))%nat by lia. rewrite Bpow_add.
    pose proof (Bpow_pos (nw - length b)). nia.
Qed.

Lemma pow_whole shift : 0 <= shift ->
  2 ^ shift = Bpow (Z.to_nat (shift / 32)) * 2 ^ (shift mod 32).
Proof.
  intros H. unfold Bpow. rewrite Z2Nat.id by (apply Z.div_pos; lia).
  rewrite <- Z.pow_add_r; [|pose proof (Z.div_pos shift 32); lia|apply Z.mod_pos_bound; lia].
  f_equal. apply Z.div_mod. lia.
Qed.

Lemma mpShiftLeft_ok b shift : 0 <= shift -> digits b ->
  is_num (mpShiftLeft b shift).1 (length b) ((val b * 2 ^ shift) mod Bpow (length b)).
Proof.
  intros Hs Hb. unfold mpShiftLeft. change BITS_PER_DIGIT with 32.
  pose proof (Bpow_pos (length b)) as P.
  destruct (Z.leb_spec 32 shift) as [L|L].
  - pose proof (shl_whole (Z.to_nat (shift / 32)) b Hb) as N.
    rewrite (pow_whole shift), Z.mul_assoc by lia.
    set (a := map _ _) in *. clearbody a. destruct N as (LA & DA & VA).
    pose proof (Z.mod_pos_bound shift 32 ltac:(lia)).
    destruct (Z.eqb_spec (shift mod 32) 0) as [->|].
    + cbn [fst]. rewrite Z.pow_0_r, Z.mul_1_r. by split.
    + pose proof (shl_bits_ok a (shift mod 32) ltac:(lia) DA) as S.
      destruct (shl_bits a (shift mod 32)) as [a' c]. destruct S as (_ & S). cbn [fst].
      apply is_num_mod in S. rewrite VA, LA in S. by rewrite Z.mul_mod_idemp_l in S by lia.
  - pose proof (shl_bits_ok b shift ltac:(lia) Hb) as S. destruct (shl_bits b shift) as [a c].
    destruct S as (_ & S). by apply is_num_mod in S.
Qed.

Lemma mpShiftLeft_carry b shift : 0 <= shift < 32 -> digits b ->
  val (mpShiftLeft b shift).1 + Bpow (length b) * (mpShiftLeft b shift).2 = val b * 2 ^ shift /\
  0 <= (mpShiftLeft b shift).2 < 2 ^ shift.
Proof.
  intros Hs Hb. unfold mpShiftLeft. change BITS_PER_DIGIT with 32. destruct (Z.leb_spec 32 shift) as [L|L]; [lia|].
  pose proof (shl_bits_ok b shift ltac:(lia) Hb) as S. destruct (shl_bits b shift) as [a c].
  destruct S as (C & _ & _ & V). cbn [fst snd]. lia.
Qed.

Lemma mpShiftRight_ok b shift : 0 <= shift -> digits b ->
  is_num (mpShiftRight b shift).1 (length b) (val b / 2 ^ shift).
Proof.
  intros Hs Hb. unfold mpShiftRight. change BITS_PER_DIGIT with 32.
  destruct (Z.leb_spec 32 shift) as [L|L].
  - pose proof (shr_whole (Z.to_nat (shift / 32)) b Hb) as N.
    pose proof (Z.mod_pos_bound shift 32 ltac:(lia)). pose proof (Bpow_pos (Z.to_nat (shift / 32))).
    assert (0 < 2 ^ (shift mod 32)) by (apply Z.pow_pos_nonneg; lia).
    rewrite (pow_whole shift), <- Z.div_div by lia.
    set (a := map _ _) in *. clearbody a. destruct N as (LA & DA & VA).
    destruct (Z.eqb_spec (shift mod 32) 0) as [->|].
    + cbn [fst]. rewrite Z.pow_0_r, Z.div_1_r. by split.
    + pose proof (shr_bits_ok a (shift mod 32) ltac:(lia) DA) as S.
      destruct (shr_bits a (shift mod 32)) as [a' c]. destruct S as (_ & S). cbn [fst]. by rewrite VA, LA in S.
  - pose proof (shr_bits_ok b shift ltac:(lia) Hb) as S. destruct (shr_bits b shift) as [a c]. apply S.
Qed.

(** ** Leading zeros and bit length *)

Lemma lead_zeros_ok n d : 0 < d < 2 ^ Z.of_nat n ->
  Z.of_nat (lead_zeros n (2 ^ (Z.of_nat n - 1)) d) = Z.of_nat n - 1 - Z.log2 d.
Proof.
  induction n as [|n IH]; intros H; [simpl in H; lia|]. cbn [lead_zeros].
  replace (Z.of_nat (S n) - 1) with (Z.of_nat n) by lia.
  replace (Z.of_nat (S n)) with (Z.of_nat n + 1) in * by lia.
  rewrite land_pow2, testbit_top by lia.
  destruct (Z.leb_spec (2 ^ Z.of_nat n) d) as [L|L].
  - destruct (Z.eqb_spec (2 ^ Z.of_nat n) 0); [lia|].
    rewrite (Z.log2_unique d (Z.of_nat n)); unfold Z.succ; lia.
  - cbn [Z.eqb]. destruct n as [|n]; [simpl in L; lia|].
    rewrite Z.shiftr_div_pow2, Z.pow_1_r by lia.
    replace (2 ^ Z.of_nat (S n) / 2) with (2 ^ (Z.of_nat (S n) - 1)).
    2:{ apply Z.div_unique with 0; [lia|]. rewrite Z.add_0_r, <- Z.pow_succ_r by lia. f_equal. lia. }
    rewrite Nat2Z.inj_succ, IH by lia. lia.
Qed.

Lemma norm_ok v : 0 < v < 2 ^ 32 ->
  let s := Z.of_nat (lead_zeros 32 HIBITMASK v) in
  0 <= s < 32 /\ 2 ^ 31 <= v * 2 ^ s < 2 ^ 32 /\ u32 (Z.shiftl v s) = v * 2 ^ s.
Proof.
  intros Hv. pose proof (lead_zeros_ok 32 v Hv) as E. change (2 ^ (Z.of_nat 32 - 1)) with HIBITMASK in E.
  cbv zeta. rewrite E. clear E. change (Z.of_nat 32 - 1) with 31.
  pose proof (Z.log2_spec v ltac:(lia)) as [L1 L2]. pose proof (Z.log2_nonneg v).
  assert (Z.log2 v < 32) by (apply Z.log2_lt_pow2; lia).
  rewrite Z.shiftl_mul_pow2 by lia.
  assert (2 ^ 31 <= v * 2 ^ (31 - Z.log2 v) < 2 ^ 32) as B.
  { replace (2 ^ 31) with (2 ^ Z.log2 v * 2 ^ (31 - Z.log2 v)) by (rewrite <- Z.pow_add_r by lia; f_equal; lia).
    replace (2 ^ 32) with (2 ^ Z.succ (Z.log2 v) * 2 ^ (31 - Z.log2 v)) by (rewrite <- Z.pow_add_r by lia; f_equal; lia).
    assert (0 < 2 ^ (31 - Z.log2 v)) by (apply Z.pow_pos_nonneg; lia). nia. }
  split; [lia|]. split; [done|]. apply u32_small. lia.
Qed.

Lemma top_digit a : digits a -> mpSizeof a <> 0%nat ->
  val a = val (take (mpSizeof a - 1) a) + Bpow (mpSizeof a - 1) * nth (mpSizeof a - 1) a 0 /\
  0 < nth (mpSizeof a - 1) a 0 < 2 ^ 32 /\ 0 <= val (take (mpSizeof a - 1) a) < Bpow (mpSizeof a - 1).
Proof.
  intros H N. destruct (mpSizeof_spec a H) as (L & V & P & _). specialize (P N).
  pose proof (digits_nth a (mpSizeof a - 1) H) as D. red in D.
  set (n := (mpSizeof a - 1)%nat) in *.
  split; [|split; [lia|]].
  - rewrite <- V. replace (mpSizeof a) with (S n) by lia.
    destruct (nth_lookup_or_length a n 0) as [E|]; [|lia].
    rewrite (take_S_r _ _ _ E), val_app, length_take, Nat.min_l by lia. cbn [val]. ring.
  - pose proof (val_range (take n a) ltac:(by apply Forall_take)) as R.
    by rewrite length_take, Nat.min_l in R by lia.
Qed.

Lemma mpBitLength_ok d : digits d ->
  Z.of_nat (mpBitLength d) = if val d =? 0 then 0 else Z.log2 (val d) + 1.
Proof.
  intros H. unfold mpBitLength. destruct (mpSizeof d) as [|n] eqn:E.
  - apply mpSizeof_zero in E; [|done]. rewrite E. done.
  - assert (mpSizeof d <> 0%nat) as N by lia.
    destruct (top_digit d H N) as (EV & T & R). rewrite E in *. cbn [Nat.sub] in *. rewrite Nat.sub_0_r in *.
    destruct (Z.eqb_spec (val d) 0) as [Z0|_]; [apply mpSizeof_zero in Z0; [lia|done]|].
    set (top := nth n d 0) in *.
    pose proof (lead_zeros_ok 32 top ltac:(simpl; lia)) as LZ.
    change (2 ^ (Z.of_nat 32 - 1)) with HIBITMASK in LZ. pose proof (Z.log2_nonneg top).
    assert (Z.log2 (val d) = 32 * Z.of_nat n + Z.log2 top) as ->; [|lia].
    pose proof (Z.log2_spec top ltac:(lia)) as [L1 L2].
    apply Z.log2_unique; [lia|]. rewrite EV. unfold Bpow in *.
    rewrite Z.pow_succ_r, Z.pow_add_r by lia. rewrite Z.pow_succ_r in L2 by lia.
    assert (0 < 2 ^ (32 * Z.of_nat n)) by (apply Z.pow_pos_nonneg; lia). nia.
Qed.

(** ** Operations with a single digit *)

Lemma carry_loop_ok u : digits u -> forall k, 0 <= k <= 1 ->
  let '(w, c) := carry_loop k u in 0 <= c <= 1 /\ is_num w (length u) (val u + k - Bpow (length u) * c).
Proof.
  induction 1 as [|x u Hx Hu IH]; intros k Hk; cbn [carry_loop].
  - split; [done|]. split; [done|]. split; [constructor|]. cbn [val length]. rewrite Bpow_0. lia.
  - pose proof (add_carry x k Hx ltac:(red; lia)) as E. pose proof (u32_digit (x + k)) as D.
    pose proof (bit01 (u32 (x + k) <? k)) as K. specialize (IH _ K).
    destruct (carry_loop _ u) as [w c]. destruct IH as (C & N). split; [done|]. cbn [val length]. rewrite Bpow_S.
    apply (is_num_eq _ _ _ _ _ (is_num_cons _ _ _ _ D N)); [done|]. lia.
Qed.

Lemma mpShortAdd_ok u v : u <> [] -> digits u -> is_digit v ->
  let '(w, c) := mpShortAdd u v in 0 <= c <= 1 /\ is_num w (length u) (val u + v - Bpow (length u) * c).
Proof.
  intros NE Hu Hv. destruct Hu as [|x u Hx Hu]; [done|]. cbn [mpShortAdd].
  pose proof (add_carry x v Hx Hv) as E. pose proof (u32_digit (x + v)) as D.
  pose proof (carry_loop_ok u Hu _ (bit01 (u32 (x + v) <? v))) as L.
  destruct (carry_loop _ u) as [w c]. destruct L as (C & N). split; [done|]. cbn [val length]. rewrite Bpow_S.
  apply (is_num_eq _ _ _ _ _ (is_num_cons _ _ _ _ D N)); [done|]. lia.
Qed.

Lemma borrow_loop_ok u : digits u -> forall k, 0 <= k <= 1 ->
  let '(w, c) := borrow_loop k u in 0 <= c <= 1 /\ is_num w (length u) (val u - k + Bpow (length u) * c).
Proof.
  induction 1 as [|x u Hx Hu IH]; intros k Hk; cbn [borrow_loop].
  - split; [done|]. split; [done|]. split; [constructor|]. cbn [val length]. rewrite Bpow_0. lia.
  - pose proof (sub_borrow x k Hx ltac:(red; lia)) as E. pose proof (u32_digit (x - k)) as D.
    pose proof (bit01 (MAX_DIGIT - k <? u32 (x - k))) as K. specialize (IH _ K).
    destruct (borrow_loop _ u) as [w c]. destruct IH as (C & N). split; [done|]. cbn [val length]. rewrite Bpow_S.
    apply (is_num_eq _ _ _ _ _ (is_num_cons _ _ _ _ D N)); [done|]. lia.
Qed.

Lemma mpShortSub_ok u v : u <> [] -> digits u -> is_digit v ->
  let '(w, c) := mpShortSub u v in 0 <= c <= 1 /\ is_num w (length u) (val u - v + Bpow (length u) * c).
Proof.
  intros NE Hu Hv. destruct Hu as [|x u Hx Hu]; [done|]. cbn [mpShortSub].
  pose proof (sub_borrow x v Hx Hv) as E. pose proof (u32_digit (x - v)) as D.
  pose proof (borrow_loop_ok u Hu _ (bit01 (MAX_DIGIT - v <? u32 (x - v)))) as L.
  destruct (borrow_loop _ u) as [w c]. destruct L as (C & N). split; [done|]. cbn [val length]. rewrite Bpow_S.
  apply (is_num_eq _ _ _ _ _ (is_num_cons _ _ _ _ D N)); [done|]. lia.
Qed.

Lemma shortmult_loop_ok v u : is_digit v -> digits u -> forall k, is_digit k ->
  let '(w, c) := shortmult_loop k v u in is_digit c /\ is_num w (length u) (val u * v + k - Bpow (length u) * c).
Proof.
  intros Hv. induction 1 as [|x u Hx Hu IH]; intros k Hk; cbn [shortmult_loop].
  - split; [done|]. split; [done|]. split; [constructor|]. cbn [val length]. rewrite Bpow_0. lia.
  - pose proof (mul_acc_ok x v k 0 Hx Hv Hk ltac:(red; lia)) as A. destruct (spMultiply x v) as [t0 t1].
    cbv zeta in A. rewrite !Z.add_0_r in A. rewrite (digit_small (u32 (t0 + k))) in A by apply u32_digit.
    pose proof (u32_digit (t0 + k)) as D. red in D.
    destruct (Z.ltb_spec (u32 (t0 + k)) 0); [lia|]. destruct A as (D0 & D1 & E). specialize (IH _ D1).
    destruct (shortmult_loop _ v u) as [w c]. destruct IH as (C & N). split; [done|]. cbn [val length]. rewrite Bpow_S.
    apply (is_num_eq _ _ _ _ _ (is_num_cons _ _ _ _ D0 N)); [done|]. lia.
Qed.

Lemma mpShortMult_ok u v : digits u -> is_digit v ->
  let '(w, c) := mpShortMult u v in is_digit c /\ is_num w (length u) (val u * v - Bpow (length u) * c).
Proof.
  intros Hu Hv. unfold mpShortMult. destruct (Z.eqb_spec v 0) as [->|].
  - split; [done|]. apply (is_num_eq _ _ _ _ _ (is_num_zeros (length u))); [done|lia].
  - pose proof (shortmult_loop_ok v u Hv Hu 0 ltac:(done)) as L. destruct (shortmult_loop 0 v u) as [w c].
    by rewrite Z.add_0_r in L.
Qed.

Lemma shortdiv_loop_ok v r u : 2 ^ 31 <= v < 2 ^ 32 -> digits u -> 0 <= r < v ->
  let '(q, r') := shortdiv_loop v r u in
  0 <= r' < v /\ digits q /\ length q = length u /\ val u + Bpow (length u) * r = val q * v + r'.
Proof.
  intros Hv. induction 1 as [|x u Hx Hu IH]; intros Hr; cbn [shortdiv_loop].
  - split; [done|]. split; [constructor|]. split; [done|]. cbn [val length]. rewrite Bpow_0. lia.
  - specialize (IH Hr). destruct (shortdiv_loop v r u) as [q r1]. destruct IH as (R1 & D1 & L1 & E1).
    pose proof (spDivide_ok x r1 v Hx ltac:(red; lia) Hv) as S. destruct (spDivide x r1 v) as [[qj rj] ov].
    destruct S as (Dq & Rj & OV & E). assert (ov = 0) by (red in Hx, Dq; nia). subst ov.
    split; [done|]. split; [by constructor|]. cbn [val length]. split; [by rewrite L1|]. rewrite Bpow_S. lia.
Qed.

Lemma mpShortDiv_ok q0 u v : digits u -> u <> [] -> 0 < v < 2 ^ 32 ->
  let '(q, r) := mpShortDiv q0 u v in is_num q (length u) (val u / v) /\ r = val u mod v.
Proof.
  intros Hu NE Hv. unfold mpShortDiv. destruct u as [|u0 u']; [done|]. set (u := u0 :: u') in *. clearbody u.
  destruct (Z.eqb_spec v 0); [lia|].
  destruct (norm_ok v Hv) as (Hs & Hvn & ->). set (s := Z.of_nat (lead_zeros 32 HIBITMASK v)) in *. clearbody s.
  destruct (mpShiftLeft_ok u s ltac:(lia) Hu) as (LA & DA & _).
  destruct (mpShiftLeft_carry u s Hs Hu) as (EV & RC).
  destruct (mpShiftLeft u s) as [uu ov]. cbn [fst snd] in *.
  pose proof (val_nonneg u Hu).
  assert (0 < 2 ^ s) as Ps by (apply Z.pow_pos_nonneg; lia).
  assert (0 <= ov < v * 2 ^ s) as Rov by nia.
  pose proof (shortdiv_loop_ok _ ov uu Hvn DA Rov) as L. destruct (shortdiv_loop _ ov uu) as [q r].
  destruct L as (Rr & Dq & Lq & E). rewrite LA, EV in E.
  assert (r mod 2 ^ s = 0) as M.
  { replace r with (0 + (val u - val q * v) * 2 ^ s) by nia. rewrite Z.mod_add by lia. done. }
  assert (r = r / 2 ^ s * 2 ^ s) as Er by (rewrite (Z.div_mod r (2 ^ s)) at 1 by lia; lia).
  rewrite Z.shiftr_div_pow2 by lia. set (r' := r / 2 ^ s) in *. clearbody r'. subst r.
  assert (val u = val q * v + r') as EU by nia. assert (0 <= r' < v) by nia.
  split; [split; [congruence|]; split; [done|]|].
  - apply Z.div_unique with r'; [by left|lia].
  - apply Z.mod_unique with (val q); [by left|lia].
Qed.

Lemma mpShortMod_ok a d : digits a -> a <> [] -> 0 < d < 2 ^ 32 -> mpShortMod a d = val a mod d.
Proof.
  intros Ha NE Hd. unfold mpShortMod. pose proof (mpShortDiv_ok (replicate (length a) 0) a d Ha NE Hd) as H.
  destruct (mpShortDiv _ a d). by destruct H.
Qed.

Lemma mpShortCmp_ok a d : digits a -> is_digit d -> mpShortCmp a d = Z.sgn (val a - d).
Proof.
  intros Ha Hd. unfold is_digit in Hd. destruct Ha as [|x a Hx Ha]; cbn [mpShortCmp val].
  - destruct (Z.eqb_spec d 0) as [->|]; [done|]. symmetry. apply Z.sgn_neg. lia.
  - rewrite forallb_zero by done. pose proof (val_nonneg a Ha). red in Hx.
    destruct (Z.eqb_spec (val a) 0) as [->|].
    + destruct (Z.ltb_spec x d); [symmetry; apply Z.sgn_neg; lia|].
      destruct (Z.ltb_spec d x); [symmetry; apply Z.sgn_pos; lia|].
      assert (x + 2 ^ 32 * 0 - d = 0) as -> by lia. done.
    + symmetry. apply Z.sgn_pos. lia.
Qed.
