(* ===== verification/BigDivide.v ===== *)
(** * BigDivide: Knuth's long division as [mpDivide] performs it

    The digit estimate with its two corrections, the multiply-and-subtract
    step with the add-back, the loop over the quotient digits, and the
    normalisation of divisor and dividend around it. *)

From stdpp Require Import base list numbers.
From S2P Require Import Prelude BigDigits BigDigitsProps BigArith BigShift.
Local Open Scope Z_scope.

(** ** Multiply and subtract *)

Lemma mulsub_step_ok w k q v : is_digit w -> is_digit k -> is_digit q -> is_digit v ->
  let '(t0, t1) := spMultiply q v in
  let x := u32 (w - k) in
  let k1 := if MAX_DIGIT - k <? x then 1 else 0 in
  let x' := u32 (x - t0) in
  let k2 := if MAX_DIGIT - t0 <? x' then k1 + 1 else k1 in
  is_digit x' /\ is_digit (u32 (k2 + t1)) /\ x' - 2 ^ 32 * u32 (k2 + t1) = w - k - q * v.
Proof.
  intros Hw Hk Hq Hv. pose proof (spMultiply_ok q v Hq Hv) as (D0 & D1 & E).
  assert (0 <= q * v <= (2 ^ 32 - 1) * (2 ^ 32 - 1)) as P by (unfold is_digit in *; nia).
  generalize dependent (q * v). intros p E P.
  destruct (spMultiply q v) as [t0 t1]. cbn [fst snd] in *. cbv zeta.
  pose proof (sub_borrow w k Hw Hk) as E1. pose proof (u32_digit (w - k)) as D2.
  set (x := u32 (w - k)) in *. clearbody x.
  pose proof (sub_borrow x t0 D2 D0) as E2. pose proof (u32_digit (x - t0)) as D3.
  set (x' := u32 (x - t0)) in *. clearbody x'. unfold is_digit in *.
  destruct (MAX_DIGIT - k <? x); destruct (MAX_DIGIT - t0 <? x'); rewrite u32_small by lia; lia.
Qed.

Lemma mulsub_loop_ok q w : is_digit q -> digits w -> forall v k, length w = length v -> digits v -> is_digit k ->
  let '(x, c) := mulsub_loop k q w v in
  is_digit c /\ is_num x (length w) (val w - k - q * val v + Bpow (length w) * c).
Proof.
  intros Hq. induction 1 as [|wi w Hwi Hw IH]; intros [|vi v] k HL Hv Hk; try discriminate; cbn [mulsub_loop].
  - split; [done|]. split; [done|]. split; [constructor|]. cbn [val length]. rewrite Bpow_0. lia.
  - inversion Hv; subst. pose proof (mulsub_step_ok wi k q vi Hwi Hk Hq ltac:(done)) as S.
    destruct (spMultiply q vi) as [t0 t1]. cbv zeta in S. destruct S as (D0 & D1 & E).
    specialize (IH v _ ltac:(by injection HL) ltac:(done) D1).
    destruct (mulsub_loop _ q w v) as [x c]. destruct IH as (C & N). split; [done|]. cbn [val length]. rewrite Bpow_S.
    apply (is_num_eq _ _ _ _ _ (is_num_cons _ _ _ _ D0 N)); [done|]. lia.
Qed.

(** The subtraction leaves a zero top digit exactly when it did not go below zero. *)
Lemma mpMultSub_ok wn w v q : is_digit wn -> is_digit q -> digits w -> digits v -> length w = length v ->
  let T := wn * Bpow (length w) + val w - q * val v in
  - Bpow (length w) <= T < Bpow (length w) ->
  let '(w', o) := mpMultSub wn w v q in
  (o =? 0) = (0 <=? T) /\ is_num w' (length w) (if 0 <=? T then T else T + Bpow (length w)).
Proof.
  intros Hn Hq Hw Hv HL T HT. unfold mpMultSub. pose proof (val_range w Hw) as RW. red in Hn.
  pose proof (Bpow_pos (length w)) as P.
  destruct (Z.eqb_spec q 0) as [E0|N0].
  - assert (T = wn * Bpow (length w) + val w) as ET by (unfold T; rewrite E0; lia).
    assert (wn = 0) as W0 by nia. rewrite W0 in *.
    destruct (Z.leb_spec 0 T); [|lia]. split; [done|]. split; [done|]. split; [done|lia].
  - pose proof (mulsub_loop_ok q w Hq Hw v 0 HL Hv ltac:(done)) as L. destruct (mulsub_loop 0 q w v) as [x c].
    destruct L as (Dc & N). pose proof (is_num_range _ _ _ N) as RX. red in Dc.
    assert (T = (wn - c) * Bpow (length w) + (val w - 0 - q * val v + Bpow (length w) * c)) as ET by (unfold T; ring).
    set (X := val w - 0 - q * val v + Bpow (length w) * c) in *. clearbody X T.
    destruct (Z.leb_spec 0 T).
    + assert (wn - c = 0) as Ec by nia. rewrite Ec in *. split; [done|]. apply (is_num_eq _ _ _ _ _ N); [done|lia].
    + assert (wn - c = -1) as Ec by nia. rewrite Ec in *. split; [done|]. apply (is_num_eq _ _ _ _ _ N); [done|lia].
Qed.

(** ** The quotient digit estimate *)

Lemma QhatTooBig_ok q r v0 u0 : is_digit q -> is_digit r -> is_digit v0 -> is_digit u0 ->
  QhatTooBig q r v0 u0 = (r * 2 ^ 32 + u0 <? q * v0).
Proof.
  intros Hq Hr Hv Hu. unfold QhatTooBig. pose proof (spMultiply_ok q v0 Hq Hv) as (D0 & D1 & E).
  destruct (spMultiply q v0) as [t0 t1]. cbn [fst snd] in *. rewrite <- E. unfold is_digit in *.
  destruct (Z.ltb_spec t1 r); destruct (Z.ltb_spec (r * 2 ^ 32 + u0) (t0 + 2 ^ 32 * t1)); try done; try lia;
    destruct (Z.ltb_spec r t1); destruct (Z.ltb_spec u0 t0); done || lia.
Qed.

(** Two corrections bring an estimate q0 down to the three-by-two digit quotient. *)
Lemma div_refine u2 u1 u0 v1 v0 q0 r0 :
  is_digit u0 -> is_digit v0 -> 2 ^ 31 <= v1 < 2 ^ 32 -> is_digit q0 -> is_digit r0 ->
  u2 * 2 ^ 32 + u1 = q0 * v1 + r0 ->
  (if QhatTooBig q0 r0 v0 u0 then
     if negb (u32 (r0 + v1) <? v1) && QhatTooBig (q0 - 1) (u32 (r0 + v1)) v0 u0 then q0 - 1 - 1 else q0 - 1
   else q0) = Z.min q0 ((u2 * 2 ^ 64 + u1 * 2 ^ 32 + u0) / (v1 * 2 ^ 32 + v0)).
Proof.
  intros Hu0 Hv0 Hv1 Hq0 Hr0 E. unfold is_digit in *.
  set (U := u2 * 2 ^ 64 + u1 * 2 ^ 32 + u0). set (V := v1 * 2 ^ 32 + v0).
  assert (0 < V) as PV by (unfold V; lia).
  pose proof (Z.div_mod U V ltac:(lia)) as EN. pose proof (Z.mod_pos_bound U V PV) as RN.
  set (Q := U / V) in *. set (r := U mod V) in *. clearbody Q r.
  assert (forall q rh, q * v1 + rh = q0 * v1 + r0 -> (rh * 2 ^ 32 + u0 <? q * v0) = (Q <? q)) as T.
  { intros q rh Eq. rewrite <- (ltb_quot _ _ _ _ q EN RN).
    apply Bool.eq_iff_eq_true. rewrite !Z.ltb_lt. unfold U, V in *.
    replace (q * (v1 * 2 ^ 32 + v0)) with (q * v1 * 2 ^ 32 + q * v0) by ring. lia. }
  assert (forall q rh, q * v1 + rh = q0 * v1 + r0 -> q < 2 ^ 32 -> 2 ^ 32 <= rh -> q <= Q) as T2.
  { intros q rh Eq Lq Lr. specialize (T q rh Eq). destruct (Z.ltb_spec (rh * 2 ^ 32 + u0) (q * v0)); [nia|].
    symmetry in T. apply Z.ltb_ge in T. done. }
  rewrite QhatTooBig_ok, (T q0 r0) by (unfold is_digit in *; lia).
  destruct (Z.ltb_spec Q q0) as [G|G]; [|lia].
  assert (q0 - 1 - 1 <= Q) by (apply (T2 _ (r0 + 2 * v1)); lia).
  assert (u32 (r0 + v1) = if r0 + v1 <? 2 ^ 32 then r0 + v1 else r0 + v1 - 2 ^ 32) as EU.
  { unfold u32. destruct (Z.ltb_spec (r0 + v1) (2 ^ 32)); [apply Z.mod_small; lia|].
    symmetry. apply Z.mod_unique with 1; lia. }
  rewrite EU. destruct (Z.ltb_spec (r0 + v1) (2 ^ 32)) as [L|L].
  - destruct (Z.ltb_spec (r0 + v1) v1); [lia|]. cbn [negb andb].
    destruct (Z.eq_dec q0 0) as [->|]; [unfold U, V in *; nia|].
    rewrite QhatTooBig_ok, (T (q0 - 1) (r0 + v1)) by (unfold is_digit in *; lia).
    destruct (Z.ltb_spec Q (q0 - 1)); lia.
  - destruct (Z.ltb_spec (r0 + v1 - 2 ^ 32) v1); [|lia]. cbn [negb andb].
    assert (q0 - 1 <= Q) by (apply (T2 _ (r0 + v1)); lia). lia.
Qed.

Lemma div_qhat_ok u2 u1 u0 v1 v0 :
  is_digit u2 -> is_digit u1 -> is_digit u0 -> is_digit v0 -> 2 ^ 31 <= v1 < 2 ^ 32 ->
  u2 * 2 ^ 32 + u1 <= v1 * 2 ^ 32 + v0 ->
  div_qhat u2 u1 u0 v1 v0 = Z.min (2 ^ 32 - 1) ((u2 * 2 ^ 64 + u1 * 2 ^ 32 + u0) / (v1 * 2 ^ 32 + v0)).
Proof.
  intros H2 H1 H0 Hv0 Hv1 HT. unfold div_qhat.
  pose proof (spDivide_ok u1 u2 v1 H1 H2 Hv1) as S. destruct (spDivide u1 u2 v1) as [[q r] ov].
  destruct S as (Dq & Rr & Rov & E). unfold is_digit in *.
  set (U := u2 * 2 ^ 64 + u1 * 2 ^ 32 + u0). set (V := v1 * 2 ^ 32 + v0).
  assert (0 < V) as PV by (unfold V; lia). assert (0 <= U) as PU by (unfold U; lia).
  destruct (Z.eqb_spec ov 0) as [->|N].
  - cbn [negb andb]. rewrite andb_true_r.
    assert (U / V <= q) as LQ.
    { apply Z.lt_succ_r. apply Z.div_lt_upper_bound; [done|]. unfold U, V, Z.succ. nia. }
    destruct (Z.eqb_spec q 0) as [->|Nq]; cbn [negb andb].
    + pose proof (Z.div_pos U V PU PV). lia.
    + rewrite (div_refine u2 u1 u0 v1 v0 q r) by (unfold is_digit in *; lia). fold U V. lia.
  - assert (ov = 1) by lia. subst ov. assert (u2 = v1) by nia. subst u2.
    cbn [negb andb]. unfold MAX_DIGIT.
    assert (u32 (u1 + v1) = if u1 + v1 <? 2 ^ 32 then u1 + v1 else u1 + v1 - 2 ^ 32) as EU.
    { unfold u32. destruct (Z.ltb_spec (u1 + v1) (2 ^ 32)); [apply Z.mod_small; lia|].
      symmetry. apply Z.mod_unique with 1; lia. }
    rewrite EU. destruct (Z.ltb_spec (u1 + v1) (2 ^ 32)) as [L|L].
    + destruct (Z.ltb_spec (u1 + v1) v1); [lia|]. change (negb (4294967295 =? 0)) with true. cbn [negb andb].
      change 4294967295 with (2 ^ 32 - 1).
      rewrite (div_refine v1 u1 u0 v1 v0 (2 ^ 32 - 1) (u1 + v1)) by (unfold is_digit in *; lia). done.
    + destruct (Z.ltb_spec (u1 + v1 - 2 ^ 32) v1); [|lia]. cbn [negb andb]. rewrite andb_false_r. cbn [andb].
      assert (2 ^ 32 - 1 <= U / V); [|lia]. apply Z.div_le_lower_bound; [done|]. unfold U, V. nia.
Qed.

(** ** One quotient digit *)

Lemma top2 l : digits l -> (2 <= length l)%nat -> exists low,
  val l = low + Bpow (length l - 2) * (nth (length l - 2) l 0 + 2 ^ 32 * nth (length l - 1) l 0) /\
  0 <= low < Bpow (length l - 2).
Proof.
  intros H L. set (n := (length l - 2)%nat). exists (val (take n l)).
  pose proof (val_range (take n l) ltac:(by apply Forall_take)) as R. rewrite length_take, Nat.min_l in R by lia.
  split; [|done]. rewrite (val_take_drop n l), Nat.min_l by lia.
  destruct (nth_lookup_or_length l n 0) as [E1|]; [|lia].
  destruct (nth_lookup_or_length l (S n) 0) as [E2|]; [|lia].
  rewrite (drop_S _ _ _ E1), (drop_S _ _ _ E2), drop_ge by lia.
  replace (length l - 1)%nat with (S n) by lia. cbn [val]. ring.
Qed.

(** The estimate is the quotient or one more. *)
Lemma qhat_bounds P W V U V2 wl vl q : 0 < P ->
  W = wl + P * U -> 0 <= wl < P -> V = vl + P * V2 -> 0 <= vl < P ->
  2 ^ 32 <= V2 -> 0 <= U -> 0 <= W < V * 2 ^ 32 -> q = Z.min (2 ^ 32 - 1) (U / V2) ->
  0 <= q < 2 ^ 32 /\ (q - 1) * V <= W < (q + 1) * V.
Proof.
  intros HP EW Rw EV Rv HV2 HU HW Eq.
  pose proof (Z.div_mod U V2 ltac:(lia)) as EN. pose proof (Z.mod_pos_bound U V2 ltac:(lia)) as RN.
  pose proof (Z.div_pos U V2 HU ltac:(lia)).
  set (Q := U / V2) in *. set (r := U mod V2) in *. clearbody Q r.
  assert (0 <= q < 2 ^ 32) as Rq by lia. split; [done|].
  assert (q * V2 <= U) as L1 by nia.
  assert (q * vl <= (2 ^ 32 - 1) * P) as L2 by (apply Z.mul_le_mono_nonneg; lia).
  assert (q * V <= W + V) as L3.
  { rewrite EV at 1. rewrite EW. rewrite EV.
    assert (P * (q * V2) <= P * U) by (apply Z.mul_le_mono_nonneg_l; lia).
    assert (P * 2 ^ 32 <= P * V2) by (apply Z.mul_le_mono_nonneg_l; lia). lia. }
  split; [lia|].
  destruct (Z.le_gt_cases Q (2 ^ 32 - 1)) as [C|C].
  - replace q with Q by lia. assert (U + 1 <= (Q + 1) * V2) by lia.
    assert (P * (U + 1) <= P * ((Q + 1) * V2)) by (apply Z.mul_le_mono_nonneg_l; lia).
    assert (0 <= (Q + 1) * vl) by (apply Z.mul_nonneg_nonneg; lia).
    rewrite EW, EV. replace ((Q + 1) * (vl + P * V2)) with ((Q + 1) * vl + P * ((Q + 1) * V2)) by ring. lia.
  - replace q with (2 ^ 32 - 1) by lia. lia.
Qed.

Lemma div_step_ok t ww v : is_digit t -> digits ww -> digits v -> length ww = length v -> (2 <= length v)%nat ->
  2 ^ 31 <= nth (length v - 1) v 0 ->
  let W := val ww + Bpow (length v) * t in W < val v * 2 ^ 32 ->
  let '(qj, ww') := div_step t ww v in qj = W / val v /\ is_digit qj /\ is_num ww' (length v) (W mod val v).
Proof.
  intros Ht Hw Hv HL H2 Htop W HW. unfold div_step.
  destruct (top2 ww Hw ltac:(lia)) as (wl & EW & Rw). destruct (top2 v Hv H2) as (vl & EV & Rv).
  rewrite HL in EW, Rw. set (n := length v) in *.
  pose proof (digits_nth ww (n - 1) Hw) as D1. pose proof (digits_nth ww (n - 2) Hw) as D2.
  pose proof (digits_nth v (n - 1) Hv) as D3. pose proof (digits_nth v (n - 2) Hv) as D4.
  set (u1 := nth (n - 1) ww 0) in *. set (u0 := nth (n - 2) ww 0) in *.
  set (v1 := nth (n - 1) v 0) in *. set (v0 := nth (n - 2) v 0) in *. clearbody u1 u0 v1 v0.
  assert (Bpow n = Bpow (n - 2) * 2 ^ 64) as EB.
  { replace n with ((n - 2) + 2)%nat at 1 by lia. rewrite Bpow_add. done. }
  pose proof (Bpow_pos (n - 2)) as PP. set (P := Bpow (n - 2)) in *. clearbody P.
  set (U := t * 2 ^ 64 + u1 * 2 ^ 32 + u0). set (V2 := v1 * 2 ^ 32 + v0).
  assert (W = wl + P * U) as EWU by (unfold W, U; rewrite EW, EB; ring).
  assert (val v = vl + P * V2) as EVV by (unfold V2; rewrite EV; ring).
  assert (0 <= W) as W0 by (unfold is_digit, W, U in *; nia).
  assert (t * 2 ^ 32 + u1 <= v1 * 2 ^ 32 + v0) as HT.
  { apply Z.lt_succ_r. fold V2. apply (Z.mul_lt_mono_pos_r (P * 2 ^ 32)); [lia|].
    assert ((t * 2 ^ 32 + u1) * (P * 2 ^ 32) <= W) by (rewrite EWU; unfold U; red in D2; nia).
    assert (val v * 2 ^ 32 <= Z.succ V2 * (P * 2 ^ 32)) by (rewrite EVV; unfold Z.succ; nia). lia. }
  rewrite (div_qhat_ok t u1 u0 v1 v0) by (done || red in D3; lia).
  fold U V2. set (q := Z.min (2 ^ 32 - 1) (U / V2)).
  destruct (qhat_bounds P W (val v) U V2 wl vl q) as (Rq & B1 & B2); try done;
    [unfold V2; red in D4; lia|unfold is_digit, U in *; lia|].
  pose proof (val_range v Hv) as RV. fold n in RV. assert (val v <> 0) as NV by nia.
  pose proof (mpMultSub_ok t ww v q Ht Rq Hw Hv HL) as M. cbv zeta in M. rewrite HL in M. fold n in M.
  replace (t * Bpow n + val ww - q * val v) with (W - q * val v) in M by (unfold W; ring).
  specialize (M ltac:(lia)). destruct (mpMultSub t ww v q) as [w' o]. destruct M as (-> & N).
  destruct (Z.leb_spec 0 (W - q * val v)) as [L|L].
  - split; [apply Z.div_unique with (W - q * val v); [left; lia|lia]|]. split; [done|].
    apply (is_num_eq _ _ _ _ _ N); [done|]. apply Z.mod_unique with q; [left; lia|lia].
  - assert (0 < q) as Pq by nia. rewrite u32_small by lia.
    assert (q - 1 = W / val v) as -> by (apply Z.div_unique with (W - q * val v + val v); [left; lia|ring]).
    split; [done|]. split; [split; [apply Z.div_pos; lia|apply Z.div_lt_upper_bound; lia]|].
    destruct N as (LN & DN & VN). pose proof (mpAdd_ok w' v ltac:(lia) DN Hv) as A.
    destruct (mpAdd w' v) as [a c]. destruct A as (C & A). rewrite LN, VN in A. cbn [fst].
    pose proof (is_num_range _ _ _ A) as RA.
    assert (c = 1) by (destruct (Z.eq_dec c 0) as [->|]; lia). subst c.
    apply (is_num_eq _ _ _ _ _ A); [done|]. apply Z.mod_unique with (q - 1); [left; lia|lia].
Qed.

(** ** All quotient digits *)

Lemma divmod_step V A W Bj : 0 < V -> 0 <= A ->
  (A + Bj * W) / V = (A + Bj * (W mod V)) / V + Bj * (W / V) /\
  (A + Bj * W) mod V = (A + Bj * (W mod V)) mod V.
Proof.
  intros PV HA.
  assert (A + Bj * W = A + Bj * (W mod V) + Bj * (W / V) * V) as ->.
  { transitivity (A + Bj * (V * (W / V) + W mod V)); [by rewrite <- Z.div_mod by lia|ring]. }
  by rewrite Z.div_add, Z.mod_add by lia.
Qed.

Lemma nth_app_mid (a w b : list Z) i n : length w = S n -> i = length a -> nth (i + n) (a ++ w ++ b) 0 = nth n w 0.
Proof. intros Lw ->. rewrite app_nth2_plus, app_nth1 by lia. done. Qed.

(** The window one digit lower, once the window at [S j] holds the remainder. *)
Lemma window_shift (uu ww : list Z) j n : digits uu -> digits ww -> length ww = n -> (0 < n)%nat -> (S j + n <= length uu)%nat ->
  let uu1 := take (S j) uu ++ ww ++ drop (S j + n) uu in
  val (take n (drop j uu1)) + Bpow n * nth (S j + n - 1) uu1 0 = nth j uu 0 + 2 ^ 32 * val ww /\
  take j uu1 = take j uu /\ length uu1 = length uu /\ digits uu1.
Proof.
  intros Hu Hw Lw Pn Hl uu1. destruct n as [|n]; [lia|].
  assert (nth (S j + S n - 1) uu1 0 = nth n ww 0) as ->.
  { unfold uu1. replace (S j + S n - 1)%nat with (S j + n)%nat by lia.
    apply nth_app_mid; [done|]. rewrite length_take. lia. }
  destruct (nth_lookup_or_length uu j 0) as [E|]; [|lia].
  assert (uu1 = take j uu ++ (nth j uu 0 :: ww) ++ drop (S j + S n) uu) as EU.
  { unfold uu1. rewrite (take_S_r _ _ _ E), <- app_assoc. done. }
  repeat apply conj.
  - rewrite EU, drop_app_length' by (rewrite length_take; lia).
    rewrite take_app_le by (cbn [length]; lia). rewrite firstn_cons. cbn [val].
    rewrite Bpow_S, (val_take_drop n ww), Nat.min_l by lia.
    destruct (nth_lookup_or_length ww n 0) as [E2|]; [|lia].
    rewrite (drop_S _ _ _ E2), drop_ge by lia. cbn [val]. ring.
  - rewrite EU, take_app_length' by (rewrite length_take; lia). done.
  - unfold uu1. rewrite !length_app, length_take, length_drop, Lw. lia.
  - unfold uu1. apply Forall_app. split; [by apply Forall_take|]. apply Forall_app. split; [done|by apply Forall_drop].
Qed.

Lemma div_loop_S j t uu q v : div_loop (S j) t uu q v =
  let '(qj, ww) := div_step t (take (length v) (drop j uu)) v in
  let uu := take j uu ++ ww ++ drop (j + length v) uu in
  div_loop j (nth (j + length v - 1) uu 0) uu (<[j := qj]> q) v.
Proof. done. Qed.

Section DivLoop.
Variable v : list Z.
Hypothesis Hv : digits v.
Hypothesis Hn : (2 <= length v)%nat.
Hypothesis Htop : 2 ^ 31 <= nth (length v - 1) v 0.

Lemma norm_val_pos : 0 < val v.
Proof.
  destruct (top2 v Hv Hn) as (low & -> & R). pose proof (Bpow_pos (length v - 2)).
  pose proof (digits_nth v (length v - 2) Hv) as D. red in D. nia.
Qed.

Lemma div_loop_ok j : forall t uu q,
  digits uu -> is_digit t -> (j + length v <= length uu)%nat -> (S j <= length q)%nat ->
  let W := val (take (length v) (drop j uu)) + Bpow (length v) * t in W < val v * 2 ^ 32 ->
  let N := val (take j uu) + Bpow j * W in
  let '(uu', q') := div_loop (S j) t uu q v in
  length uu' = length uu /\ digits uu' /\ val (take (length v) uu') = N mod val v /\
  exists ql, q' = ql ++ drop (S j) q /\ is_num ql (S j) (N / val v).
Proof.
  pose proof norm_val_pos as PV.
  induction j as [|j IH]; intros t uu q Hu Ht Hl Hq W HW N.
  - rewrite div_loop_S.
    assert (digits (take (length v) (drop 0 uu))) as Hww by (apply Forall_take; by apply Forall_drop).
    pose proof (div_step_ok t _ v Ht Hww Hv ltac:(rewrite length_take, length_drop; lia) Hn Htop HW) as S.
    fold W in S. destruct (div_step t _ v) as [qj ww]. destruct S as (-> & Dq & LW & DW & VW).
    assert (N = W) as -> by (unfold N; rewrite firstn_O, Bpow_0; cbn [val]; ring).
    cbv zeta. cbn [div_loop]. rewrite firstn_O, app_nil_l, Nat.add_0_l.
    split; [rewrite length_app, length_drop, LW; lia|].
    split; [apply Forall_app; split; [done|by apply Forall_drop]|].
    split; [by rewrite take_app_length' by done|].
    exists [W / val v]. split.
    + destruct q as [|q0 q]; [cbn in Hq; lia|]. done.
    + split; [done|]. split; [by apply Forall_singleton|]. cbn [val]. lia.
  - rewrite div_loop_S.
    assert (digits (take (length v) (drop (S j) uu))) as Hww by (apply Forall_take; by apply Forall_drop).
    pose proof (div_step_ok t _ v Ht Hww Hv ltac:(rewrite length_take, length_drop; lia) Hn Htop HW) as S.
    fold W in S. destruct (div_step t _ v) as [qj ww]. destruct S as (-> & Dq & LW & DW & VW).
    destruct (window_shift uu ww j (length v) Hu DW LW ltac:(lia) ltac:(lia)) as (EW & ET & EL & ED).
    cbv zeta in EW, ET, EL, ED. set (uu1 := take (S j) uu ++ ww ++ drop (S j + length v) uu) in *.
    rewrite VW in EW. pose proof (Z.mod_pos_bound W (val v) PV) as RW.
    pose proof (digits_nth uu j Hu) as Dj.
    specialize (IH (nth (S j + length v - 1) uu1 0) uu1 (<[S j := W / val v]> q) ED (digits_nth _ _ ED)
                  ltac:(lia) ltac:(rewrite length_insert; lia)).
    cbv zeta in IH. rewrite EW, ET in IH. specialize (IH ltac:(red in Dj; lia)).
    cbv zeta. fold uu1.
    destruct (div_loop (S j) _ uu1 _ v) as [uu' q']. destruct IH as (L & D & VR & ql & Eq & Nq).
    destruct (divmod_step (val v) (val (take (S j) uu)) W (Bpow (S j)) PV) as [EQ EM];
      [apply val_nonneg; by apply Forall_take|].
    assert (val (take j uu) + Bpow j * (nth j uu 0 + 2 ^ 32 * (W mod val v))
            = val (take (S j) uu) + Bpow (S j) * (W mod val v)) as EX.
    { destruct (nth_lookup_or_length uu j 0) as [E|]; [|lia].
      rewrite (take_S_r _ _ _ E), val_app, length_take, Nat.min_l, Bpow_S by lia. cbn [val]. ring. }
    rewrite EX in VR, Nq.
    split; [congruence|]. split; [done|]. split; [by rewrite VR|].
    exists (ql ++ [W / val v]). split.
    + rewrite Eq. destruct (lookup_lt_is_Some_2 q (S j) ltac:(lia)) as [x Ex].
      rewrite (drop_S _ (W / val v)) by (apply list_lookup_insert_eq; lia).
      rewrite drop_insert_lt by lia. by rewrite <- app_assoc.
    + assert (is_num [W / val v] 1 (W / val v)) as N1.
      { split; [done|]. split; [by apply Forall_singleton|]. cbn [val]. lia. }
      apply (is_num_eq _ _ _ _ _ (is_num_app _ _ _ _ _ _ Nq N1)); [lia|]. unfold N. rewrite EQ. ring.
Qed.
End DivLoop.

(** ** mpDivide *)

Lemma mpSizeof_mono a b : digits a -> digits b -> (mpSizeof a < mpSizeof b)%nat -> val a < val b.
Proof.
  intros Ha Hb L. pose proof (mpSizeof_bounds b Hb ltac:(lia)) as [Lb _].
  destruct (decide (mpSizeof a = 0%nat)) as [E|E].
  - apply mpSizeof_zero in E; [|done]. pose proof (Bpow_pos (mpSizeof b - 1)). lia.
  - pose proof (mpSizeof_bounds a Ha E) as [_ Ua].
    assert (Bpow (mpSizeof a) <= Bpow (mpSizeof b - 1)); [|lia].
    unfold Bpow. apply Z.pow_le_mono_r; lia.
Qed.

(** Step D1: the divisor shifted so that its top bit is set. *)
Lemma normalise_ok v s : digits v -> mpSizeof v <> 0%nat ->
  s = Z.of_nat (lead_zeros 32 HIBITMASK (nth (mpSizeof v - 1) v 0)) ->
  let vn := (mpShiftLeft (take (mpSizeof v) v) s).1 in
  0 <= s < 32 /\ is_num vn (mpSizeof v) (val v * 2 ^ s) /\ 2 ^ 31 <= nth (mpSizeof v - 1) vn 0 /\
  2 ^ 31 * Bpow (mpSizeof v - 1) <= val v * 2 ^ s.
Proof.
  intros Hv Hn Es vn. destruct (mpSizeof_spec v Hv) as (L & V & _ & _).
  destruct (top_digit v Hv Hn) as (EV & RT & RL).
  destruct (norm_ok _ RT) as (Hs & HT & _). rewrite <- Es in *.
  set (n := mpSizeof v) in *. set (top := nth (n - 1) v 0) in *.
  destruct (pow_split s Hs) as (EP & P1 & P2).
  assert (Bpow n = 2 ^ 32 * Bpow (n - 1)) as EB by (rewrite <- Bpow_S; f_equal; lia).
  pose proof (Bpow_pos (n - 1)) as PB.
  assert (top + 1 <= 2 ^ (32 - s)) as T1 by nia.
  assert (val v * 2 ^ s < Bpow n) as U1.
  { assert (val v + 1 <= Bpow (n - 1) * 2 ^ (32 - s)) by nia. rewrite EB, <- EP. nia. }
  assert (2 ^ 31 * Bpow (n - 1) <= val v * 2 ^ s) as L1 by (rewrite EV; nia).
  assert (digits (take n v)) as HT' by (by apply Forall_take).
  assert (length (take n v) = n) as LT by (rewrite length_take; lia).
  pose proof (mpShiftLeft_ok (take n v) s ltac:(lia) HT') as N. fold vn in N.
  rewrite LT, V in N. pose proof (val_nonneg v Hv).
  rewrite Z.mod_small in N by nia.
  split; [done|]. split; [done|]. split; [|done].
  destruct N as (LN & DN & VN).
  pose proof (val_range (take (n - 1) vn) ltac:(by apply Forall_take)) as R. rewrite length_take, Nat.min_l in R by lia.
  rewrite (val_take_drop (n - 1) vn), Nat.min_l in VN by lia.
  destruct (nth_lookup_or_length vn (n - 1) 0) as [E|]; [|lia].
  rewrite (drop_S _ _ _ E), drop_ge in VN by lia. cbn [val] in VN.
  set (d := nth (n - 1) vn 0) in *. clearbody d. nia.
Qed.

Lemma mpDivide_main_ok u v : digits u -> digits v -> (2 <= mpSizeof v <= mpSizeof u)%nat ->
  let '(q, r, v') := mpDivide_main u v in
  is_num q (length u) (val u / val v) /\ is_num r (length u) (val u mod val v) /\ v' = v.
Proof.
  intros Hu Hv [Hn Hun]. unfold mpDivide_main. cbv zeta.
  set (s := Z.of_nat (lead_zeros 32 HIBITMASK (nth (mpSizeof v - 1) v 0))).
  destruct (normalise_ok v s Hv ltac:(lia) eq_refl) as (Hs & (LV & DV & VV) & Htop & Lv).
  cbv zeta in Lv, Htop, LV, DV, VV. set (vn := (mpShiftLeft (take (mpSizeof v) v) s).1) in *.
  destruct (mpSizeof_spec u Hu) as (Lu & Vu & _ & _). destruct (mpSizeof_spec v Hv) as (Lvv & Vv & _ & Dv).
  set (n := mpSizeof v) in *. set (un := mpSizeof u) in *.
  assert (digits (take un u)) as HT by (by apply Forall_take).
  assert (length (take un u) = un) as LT by (rewrite length_take; lia).
  destruct (mpShiftLeft_ok (take un u) s ltac:(lia) HT) as (LU & DU & _). rewrite LT in LU.
  destruct (mpShiftLeft_carry (take un u) s Hs HT) as (EU & RO). rewrite LT, Vu in EU.
  destruct (mpShiftLeft (take un u) s) as [uu ov]. cbn [fst snd] in *.
  destruct (pow_split s Hs) as (EP & P1 & P2).
  set (m := (un - n)%nat). pose proof (Bpow_pos n) as PBn. pose proof (Bpow_pos m) as PBm.
  assert (Bpow un = Bpow m * Bpow n) as EB by (rewrite <- Bpow_add; f_equal; lia).
  assert (Bpow n = 2 ^ 32 * Bpow (n - 1)) as EB1 by (rewrite <- Bpow_S; f_equal; lia).
  assert (val uu = val (take m uu) + Bpow m * val (take n (drop m uu))) as EUU.
  { rewrite (val_take_drop m uu), Nat.min_l by lia. rewrite (firstn_all2 (drop m uu)) by (rewrite length_drop; lia). done. }
  set (W := val (take n (drop m uu)) + Bpow n * ov).
  assert (val (take m uu) + Bpow m * W = val u * 2 ^ s) as EN by (unfold W; rewrite <- EU, EUU, EB; ring).
  assert (W < val vn * 2 ^ 32) as HW.
  { pose proof (val_range (take n (drop m uu)) ltac:(apply Forall_take; by apply Forall_drop)) as R.
    rewrite length_take, length_drop, Nat.min_l in R by lia.
    assert (W < Bpow n * 2 ^ s) by (unfold W; nia).
    assert (2 ^ s <= 2 ^ 31) by (apply Z.pow_le_mono_r; lia). rewrite VV. nia. }
  rewrite <- LV in Hn, Htop.
  assert (is_digit ov) as Dov. { red. assert (2 ^ s < 2 ^ 32) by (apply Z.pow_lt_mono_r; lia). lia. }
  pose proof (div_loop_ok vn DV Hn Htop m ov uu (replicate (length u) 0) DU Dov ltac:(lia)
                ltac:(rewrite length_replicate; lia)) as D. cbv zeta in D.
  rewrite LV in D. fold W in D. specialize (D HW). rewrite EN in D.
  destruct (div_loop (S m) ov uu _ vn) as [uu' q]. destruct D as (LD & DD & VD & ql & -> & Nq).
  rewrite VV in VD, Nq. assert (0 < val v) as PV by nia.
  rewrite Z.div_mul_cancel_r in Nq by lia. rewrite Z.mul_mod_distr_r in VD by lia.
  split; [|split].
  - rewrite drop_replicate. apply (is_num_eq _ _ _ _ _ (is_num_app _ _ _ _ _ _ Nq (is_num_zeros _))); [lia|ring].
  - pose proof (mpShiftRight_ok (take n uu') s ltac:(lia) ltac:(by apply Forall_take)) as R.
    rewrite length_take, Nat.min_l, VD, Z.div_mul in R by lia.
    apply (is_num_eq _ _ _ _ _ (is_num_app _ _ _ _ _ _ R (is_num_zeros _))); [lia|ring].
  - pose proof (mpShiftRight_ok vn s ltac:(lia) DV) as R. rewrite VV, LV, Z.div_mul in R by lia.
    assert ((mpShiftRight vn s).1 = take n v) as ->; [|apply take_drop].
    apply (is_num_inj _ _ _ _ R). split; [rewrite length_take; lia|]. split; [by apply Forall_take|done].
Qed.

(** [mpDivide] computes quotient and remainder and restores its divisor. *)
Lemma mpDivide_ok u v : digits u -> digits v -> val v <> 0 ->
  let '(rc, q, r, v') := mpDivide u v in
  rc = 0 /\ is_num q (length u) (val u / val v) /\ is_num r (length u) (val u mod val v) /\ v' = v.
Proof.
  intros Hu Hv NV. pose proof (val_nonneg u Hu) as PU. pose proof (val_nonneg v Hv) as PV.
  pose proof (is_num_of u Hu) as NU. pose proof (is_num_zeros (length u)) as NZ.
  assert (val u < val v -> is_num (replicate (length u) 0) (length u) (val u / val v) /\
                           is_num u (length u) (val u mod val v)) as Small.
  { intros L. by rewrite Z.div_small, Z.mod_small by lia. }
  destruct (mpSizeof_spec v Hv) as (Lv & Vv & Pv & _). destruct (mpSizeof_spec u Hu) as (Lu & Vu & _ & Du).
  unfold mpDivide. destruct (mpSizeof v) as [|[|n]] eqn:En.
  - exfalso. apply NV. rewrite <- Vv, firstn_O. done.
  - destruct v as [|v0 v']; [cbn in Lv; lia|]. cbn [nth] in *. rewrite firstn_cons, firstn_O in Vv. cbn [val] in Vv.
    inversion Hv as [|? ? D0]; subst. red in D0. specialize (Pv ltac:(lia)). cbn [nth Nat.sub] in Pv.
    assert (val (v0 :: v') = v0) as EV by (cbn [val]; lia). rewrite EV in *.
    destruct u as [|u0 u'].
    + cbn [mpShortDiv replicate length]. rewrite Z.div_small, Z.mod_small by (cbn [val]; lia). done.
    + set (u := u0 :: u') in *. pose proof (mpShortDiv_ok (replicate (length u) 0) u v0 Hu ltac:(done) ltac:(lia)) as S.
      destruct (mpShortDiv _ u v0) as [q r]. destruct S as (Nq & ->). split; [done|]. split; [done|]. split; [|done].
      assert (<[0%nat := val u mod v0]> (replicate (length u) 0) = (val u mod v0) :: replicate (length u') 0) as -> by done.
      pose proof (Z.mod_pos_bound (val u) v0 ltac:(lia)).
      apply (is_num_eq _ _ _ _ _ (is_num_cons (val u mod v0) _ _ _ ltac:(red; lia) (is_num_zeros (length u')))); [done|lia].
  - rewrite <- En in *.
    destruct (Nat.ltb_spec (mpSizeof u) (mpSizeof v)) as [L|L].
    { split; [done|]. destruct Small; [by apply mpSizeof_mono|]. done. }
    set (cmp := if (mpSizeof u =? mpSizeof v)%nat then _ else 1).
    assert (cmp = Z.sgn (val u - val v)) as ->.
    { unfold cmp. destruct (Nat.eqb_spec (mpSizeof u) (mpSizeof v)) as [E|E].
      - rewrite mpCompare_ok; [|rewrite !length_take; lia|by apply Forall_take|by apply Forall_take].
        rewrite Vv, <- E, Vu. done.
      - symmetry. apply Z.sgn_pos. pose proof (mpSizeof_mono v u Hv Hu ltac:(lia)). lia. }
    destruct (Z.ltb_spec (Z.sgn (val u - val v)) 0) as [C|C].
    { split; [done|]. destruct Small; [lia|]. done. }
    destruct (Z.eqb_spec (Z.sgn (val u - val v)) 0) as [C0|C0].
    { assert (val u = val v) as E by lia. rewrite E, Z.div_same, Z.mod_same by lia.
      split; [done|]. split; [|done]. unfold mpSetDigit. destruct (length u) as [|k] eqn:EL; [lia|].
      apply (is_num_eq _ _ _ _ _ (is_num_cons 1 _ _ _ ltac:(done) (is_num_zeros k))); [done|lia]. }
    pose proof (mpDivide_main_ok u v Hu Hv ltac:(lia)) as M. by destruct (mpDivide_main u v) as [[q r] v'].
Qed.
