(* ===== verification/BigSquare.v ===== *)
(** * BigSquare: [mpSquare] is the product of its argument with itself

    The routine accumulates twice the cross products and defers one overflow
    digit per row to the position [cpos]; the row invariant accounts for that
    digit as a second digit of w[cpos]. *)

From stdpp Require Import base list numbers.
From S2P Require Import Prelude BigDigits BigDigitsProps BigArith.
Local Open Scope Z_scope.

(** ** Accumulating into a double digit with an overflow count *)

Lemma inc_carry p k : is_digit p ->
  let p' := u32 (p + 1) in
  is_digit p' /\ p' + 2 ^ 32 * (if p' =? 0 then k + 1 else k) = p + 1 + 2 ^ 32 * k /\
  (if p' =? 0 then k + 1 else k) <= k + 1 /\ k <= (if p' =? 0 then k + 1 else k).
Proof.
  intros H p'. split; [apply u32_digit|]. unfold p', u32. unfold is_digit in H.
  destruct (Z.eqb_spec ((p + 1) mod 2 ^ 32) 0); Z.div_mod_to_equations; lia.
Qed.

(** Adding a digit [a] to the low digit of (p1, p0), overflow counted in [k]. *)
Lemma acc_low p0 p1 k a : is_digit p0 -> is_digit p1 -> is_digit a ->
  exists p1' k',
    (if u32 (p0 + a) <? a then (u32 (p1 + 1), if u32 (p1 + 1) =? 0 then k + 1 else k) else (p1, k)) = (p1', k') /\
    is_digit p1' /\ k <= k' <= k + 1 /\
    u32 (p0 + a) + 2 ^ 32 * p1' + 2 ^ 64 * k' = p0 + 2 ^ 32 * p1 + 2 ^ 64 * k + a.
Proof.
  intros H0 H1 Ha. pose proof (add_carry p0 a H0 Ha) as E. pose proof (inc_carry p1 k H1) as (D & EI & K1 & K2).
  destruct (u32 (p0 + a) <? a); eexists _, _; (split; [reflexivity|]); split; try done; lia.
Qed.

(** Adding a digit [a] to the high digit. *)
Lemma acc_high p1 k a : is_digit p1 -> is_digit a ->
  exists k', (if u32 (p1 + a) <? a then k + 1 else k) = k' /\ k <= k' <= k + 1 /\
    u32 (p1 + a) + 2 ^ 32 * k' = p1 + 2 ^ 32 * k + a.
Proof.
  intros H1 Ha. pose proof (add_carry p1 a H1 Ha) as E.
  destruct (u32 (p1 + a) <? a); eexists; (split; [reflexivity|]); lia.
Qed.

(** Doubling a two-digit product. *)
Lemma double_ok p0 p1 : is_digit p0 -> is_digit p1 ->
  let cbit := if Z.land p0 HIBITMASK =? 0 then 0 else 1 in
  let k := if Z.land p1 HIBITMASK =? 0 then 0 else 1 in
  is_digit (u32 (Z.shiftl p0 1)) /\ is_digit (Z.lor (u32 (Z.shiftl p1 1)) cbit) /\ 0 <= k <= 1 /\
  u32 (Z.shiftl p0 1) + 2 ^ 32 * Z.lor (u32 (Z.shiftl p1 1)) cbit + 2 ^ 64 * k = 2 * (p0 + 2 ^ 32 * p1).
Proof.
  intros H0 H1 cbit k. unfold cbit, k. rewrite !hibit by done. unfold is_digit in *.
  assert (forall p, 0 <= p < 2 ^ 32 ->
    u32 (Z.shiftl p 1) = (if p <? 2 ^ 31 then p else p - 2 ^ 31) * 2 ^ 1) as S.
  { intros p Hp. rewrite Z.shiftl_mul_pow2 by lia. unfold u32.
    destruct (Z.ltb_spec p (2 ^ 31)); [apply Z.mod_small; lia|]. symmetry. apply Z.mod_unique with 1; lia. }
  rewrite !S by done. rewrite lor_add by (destruct (p0 <? 2 ^ 31); lia).
  destruct (Z.ltb_spec p0 (2 ^ 31)); destruct (Z.ltb_spec p1 (2 ^ 31)); lia.
Qed.

(** ** One step and one row *)

Definition sq_ok (w : list Z) (n : nat) (carry : Z) : Prop := digits w /\ length w = n /\ is_digit carry.

(** What the state of the inner loop stands for when position p is next. *)
Definition sq_total (s : sq_state) (p cpos : nat) : Z :=
  val (sq_w s) + Bpow p * (sq_u0 s + 2 ^ 32 * sq_u1 s) + Bpow (S cpos) * sq_carry s.

(** [n] is the length of w and [e] the end of the row. *)
Definition sq_inv (n p e cpos : nat) (s : sq_state) : Prop :=
  digits (sq_w s) /\ length (sq_w s) = n /\ is_digit (sq_u0 s) /\ is_digit (sq_u1 s) /\ is_digit (sq_carry s) /\
  (sq_carry s = 0 \/ (p <= cpos < e)%nat) /\ forall k, (e <= k)%nat -> nth k (sq_w s) 0 = 0.

(** The deferred digit: consumed at [cpos], kept otherwise. *)
Lemma take_carry p1 k carry (p cpos : nat) : is_digit p1 -> is_digit carry ->
  exists p1' k' carry',
    (if (p =? cpos)%nat && negb (carry =? 0)
     then (u32 (p1 + carry), if u32 (p1 + carry) <? carry then k + 1 else k, 0) else (p1, k, carry)) = (p1', k', carry') /\
    is_digit p1' /\ is_digit carry' /\ k <= k' <= k + 1 /\
    Bpow (S p) * (p1' + 2 ^ 32 * k') + Bpow (S cpos) * carry' = Bpow (S p) * (p1 + 2 ^ 32 * k) + Bpow (S cpos) * carry /\
    (carry' = 0 \/ (carry' = carry /\ p <> cpos)).
Proof.
  intros H1 Hc. destruct (Nat.eqb_spec p cpos) as [->|]; cbn [andb].
  - destruct (Z.eqb_spec carry 0) as [E0|E0]; cbn [negb].
    + exists p1, k, carry. split; [done|]. split; [done|]. split; [done|]. split; [lia|]. split; [done|]. left. done.
    + destruct (acc_high p1 k carry H1 Hc) as (k' & Ek & Rk & E). rewrite Ek.
      exists (u32 (p1 + carry)), k', 0. split; [done|]. split; [apply u32_digit|]. split; [done|]. split; [lia|].
      split; [|by left]. rewrite E. ring.
  - exists p1, k, carry. split; [done|]. split; [done|]. split; [done|]. split; [lia|]. split; [done|]. by right.
Qed.

Lemma nth_insert_ne (l : list Z) i k d : i <> k -> nth k (<[i := d]> l) 0 = nth k l 0.
Proof. intros N. rewrite !nth_lookup, list_lookup_insert_ne by done. done. Qed.

Lemma digits_insert l i d : digits l -> is_digit d -> digits (<[i := d]> l).
Proof. intros. by apply Forall_insert. Qed.

Lemma carry_case (carry carry' : Z) (p e cpos : nat) :
  (carry' = 0 \/ (carry' = carry /\ p <> cpos)) -> (carry = 0 \/ (p <= cpos < e)%nat) ->
  (carry' = 0 \/ (S p <= cpos < e)%nat).
Proof. intros [->|[-> N]] [->|L]; [by left|by left|by left|]. right. lia. Qed.

Lemma mpSquare_step_ok x i j n e cpos s : digits x -> (i + j < n)%nat -> (i + j < e)%nat -> sq_inv n (i + j) e cpos s ->
  sq_u1 s <= 8 ->
  let s' := mpSquare_step x i j cpos s in
  sq_inv n (S (i + j)) e cpos s' /\ sq_u1 s' <= 8 /\
  sq_total s' (S (i + j)) cpos = sq_total s (i + j) cpos + 2 * nth i x 0 * nth j x 0 * Bpow (i + j).
Proof.
  intros Hx Hn He (DW & LW & D0 & D1 & DC & IC & IZ) HU. unfold mpSquare_step.
  pose proof (spMultiply_ok (nth j x 0) (nth i x 0) (digits_nth _ _ Hx) (digits_nth _ _ Hx)) as (M0 & M1 & EM).
  destruct (spMultiply (nth j x 0) (nth i x 0)) as [m0 m1]. cbn [fst snd] in *. cbv zeta.
  destruct (double_ok m0 m1 M0 M1) as (P0 & P1 & K0 & ED). cbv zeta in P1, K0, ED.
  set (p0 := u32 (Z.shiftl m0 1)) in *. set (k0 := if Z.land m1 HIBITMASK =? 0 then 0 else 1) in *.
  set (p1 := Z.lor (u32 (Z.shiftl m1 1)) (if Z.land m0 HIBITMASK =? 0 then 0 else 1)) in *. clearbody p0 p1 k0.
  destruct (acc_low p0 p1 k0 (sq_u0 s) P0 P1 D0) as (p2 & k1 & -> & P2 & K1 & E1).
  destruct (acc_high p2 k1 (sq_u1 s) P2 D1) as (k2 & -> & K2 & E2).
  set (wij := nth (i + j) (sq_w s) 0). pose proof (digits_nth (sq_w s) (i + j) DW) as Dwij. fold wij in Dwij.
  pose proof (u32_digit (p0 + sq_u0 s)) as Q0. pose proof (u32_digit (p2 + sq_u1 s)) as Q2.
  set (q0 := u32 (p0 + sq_u0 s)) in *. set (q2 := u32 (p2 + sq_u1 s)) in *. clearbody q0 q2.
  destruct (acc_low q0 q2 k2 wij Q0 Q2 Dwij) as (p3 & k3 & -> & P3 & K3 & E3).
  destruct (take_carry p3 k3 (sq_carry s) (i + j) cpos P3 DC) as (p4 & k4 & c & -> & P4 & C4 & K4 & E4 & C5).
  pose proof (u32_digit (q0 + wij)) as Q3. set (q3 := u32 (q0 + wij)) in *. clearbody q3.
  split; [|split; [cbn [sq_u1]|]].
  - unfold sq_inv; cbn [sq_w sq_u0 sq_u1 sq_carry].
    split; [by apply digits_insert|]. split; [by rewrite length_insert|]. split; [done|].
    split; [red; lia|]. split; [done|]. split; [by apply (carry_case _ _ _ _ _ C5)|].
    intros k Hk. rewrite nth_insert_ne by lia. by apply IZ.
  - lia.
  - unfold sq_total; cbn [sq_w sq_u0 sq_u1 sq_carry]. rewrite val_insert by lia. fold wij.
    rewrite Bpow_S in *. set (P := Bpow (i + j)) in *. set (C := Bpow (S cpos)) in *.
    replace (2 * nth i x 0 * nth j x 0 * P) with (P * (2 * (nth j x 0 * nth i x 0))) by ring. rewrite <- EM.
    assert (P * (q3 + 2 ^ 32 * p3 + 2 ^ 64 * k3) = P * (2 * (m0 + 2 ^ 32 * m1) + sq_u0 s + 2 ^ 32 * sq_u1 s + wij)) as EE
      by (f_equal; lia). lia.
Qed.

Lemma mpSquare_diag_ok x w i n e cpos carry : digits x -> digits w -> length w = n -> is_digit carry ->
  (2 * i < n)%nat -> (2 * i < e)%nat -> (carry = 0 \/ (2 * i <= cpos < e)%nat) -> (forall k, (e <= k)%nat -> nth k w 0 = 0) ->
  let s := mpSquare_diag x w i carry cpos in
  sq_inv n (S (2 * i)) e cpos s /\ sq_u1 s <= 8 /\
  sq_total s (S (2 * i)) cpos = val w + Bpow (S cpos) * carry + nth i x 0 * nth i x 0 * Bpow (2 * i).
Proof.
  intros Hx DW LW DC Hn He IC IZ. unfold mpSquare_diag.
  pose proof (digits_nth x i Hx) as Dx.
  pose proof (mul_acc_ok (nth i x 0) (nth i x 0) (nth (2 * i) w 0) 0 Dx Dx (digits_nth _ _ DW) ltac:(done)) as A.
  destruct (spMultiply (nth i x 0) (nth i x 0)) as [m0 m1]. cbv zeta in A |- *.
  set (w2 := nth (2 * i) w 0) in *. rewrite !Z.add_0_r in A. rewrite (digit_small (u32 (m0 + w2))) in A by apply u32_digit.
  pose proof (u32_digit (m0 + w2)) as D0. set (q0 := u32 (m0 + w2)) in *. clearbody q0. red in D0.
  destruct (Z.ltb_spec q0 0); [lia|]. destruct A as (_ & D1 & E).
  set (q1 := if q0 <? w2 then u32 (m1 + 1) else m1) in *. clearbody q1.
  destruct (take_carry q1 0 carry (2 * i) cpos D1 DC) as (p4 & k4 & c & ET & P4 & C4 & K4 & E4 & C5).
  rewrite Z.add_0_l in ET. rewrite ET.
  split; [|split; [cbn [sq_u1]; lia|]].
  - unfold sq_inv; cbn [sq_w sq_u0 sq_u1 sq_carry].
    split; [by apply digits_insert|]. split; [by rewrite length_insert|]. split; [done|].
    split; [red; lia|]. split; [done|]. split; [by apply (carry_case _ _ _ _ _ C5)|].
    intros k Hk. rewrite nth_insert_ne by lia. by apply IZ.
  - unfold sq_total; cbn [sq_w sq_u0 sq_u1 sq_carry]. rewrite val_insert by lia. fold w2.
    rewrite Bpow_S in *. set (P := Bpow (2 * i)) in *. set (C := Bpow (S cpos)) in *.
    assert (P * (q0 + 2 ^ 32 * q1) = P * (nth i x 0 * nth i x 0 + w2)) as EE by (f_equal; lia). lia.
Qed.

(** The inner loop from j on adds twice x_i times the remaining digits. *)
Lemma mpSquare_inner_ok x i n e cpos : digits x -> e = (i + length x)%nat -> (e <= n)%nat -> forall m j s,
  (j + m = length x)%nat -> sq_inv n (i + j) e cpos s -> sq_u1 s <= 8 ->
  let s' := fold_left (fun s j => mpSquare_step x i j cpos s) (seq j m) s in
  sq_inv n e e cpos s' /\
  sq_total s' e cpos = sq_total s (i + j) cpos + 2 * nth i x 0 * Bpow (i + j) * val (drop j x).
Proof.
  intros Hx He Hn. induction m as [|m IH]; intros j s Hj HI HU; cbn [seq fold_left].
  - assert (j = length x) as -> by lia. subst e. rewrite drop_ge by lia. cbn [val]. split; [done|lia].
  - destruct (mpSquare_step_ok x i j n e cpos s Hx ltac:(lia) ltac:(lia) HI HU) as (HI' & HU' & ET). cbv zeta in HI', HU', ET.
    replace (S (i + j)) with (i + S j)%nat in HI', ET by lia.
    destruct (IH (S j) _ ltac:(lia) HI' HU') as (HF & EF). cbv zeta in HF, EF. split; [done|].
    rewrite EF, ET. destruct (nth_lookup_or_length x j 0) as [E|]; [|lia].
    rewrite (drop_S _ _ _ E). cbn [val]. replace (i + S j)%nat with (S (i + j)) by lia. rewrite Bpow_S. ring.
Qed.

(** The state between rows. *)
Definition row_inv (x : list Z) (i : nat) (st : list Z * Z * nat) : Prop :=
  let '(w, carry, cpos) := st in
  digits w /\ length w = (2 * length x)%nat /\ is_digit carry /\
  (carry = 0 \/ (0 < i)%nat /\ cpos = (i - 1 + length x)%nat) /\
  (forall k, (i + length x <= k)%nat -> nth k w 0 = 0) /\
  val w + Bpow (S cpos) * carry = val x * val x - Bpow (2 * i) * (val (drop i x) * val (drop i x)).

Lemma mpSquare_row_ok x i st : digits x -> (i < length x)%nat -> row_inv x i st -> row_inv x (S i) (mpSquare_row x i st).
Proof.
  intros Hx Hi. destruct st as [[w carry] cpos]. intros (DW & LW & DC & IC & IZ & EV). unfold mpSquare_row.
  set (t := length x) in *. set (e := (i + t)%nat) in *.
  destruct (mpSquare_diag_ok x w i (2 * t) e cpos carry Hx DW LW DC) as (HI & HU & ED); try lia; try done.
  cbv zeta in HI, HU, ED. replace (S (2 * i)) with (i + S i)%nat in HI, ED by lia.
  destruct (mpSquare_inner_ok x i (2 * t) e cpos Hx eq_refl ltac:(lia) (t - S i) (S i) _ ltac:(lia) HI HU) as (HF & EF).
  cbv zeta in HF, EF. set (s := fold_left _ _ _) in *. clearbody s. rewrite ED in EF.
  destruct HF as (FW & FL & F0 & F1 & FC & FI & FZ).
  assert (sq_carry s = 0) as C0 by (destruct FI as [->|]; [done|lia]).
  unfold row_inv. fold t e. split; [by apply digits_insert|]. split; [by rewrite length_insert|]. split; [done|].
  split; [right; lia|]. split.
  - intros k Hk. rewrite nth_insert_ne by lia. apply FZ. lia.
  - rewrite val_insert by lia. rewrite FZ by lia. unfold sq_total in EF. rewrite C0 in EF.
    destruct (nth_lookup_or_length x i 0) as [E|]; [|lia].
    rewrite (drop_S _ _ _ E) in EV. cbn [val] in EV.
    replace (2 * S i)%nat with (S (S (2 * i))) by lia. rewrite !Bpow_S.
    replace (Bpow (i + S i)) with (2 ^ 32 * Bpow (2 * i)) in EF by (rewrite <- Bpow_S; f_equal; lia).
    set (X := val (drop (S i) x)) in *. set (P := Bpow (2 * i)) in *. set (xi := nth i x 0) in *.
    assert (P * ((xi + 2 ^ 32 * X) * (xi + 2 ^ 32 * X)) =
            xi * xi * P + 2 * xi * (2 ^ 32 * P) * X + 2 ^ 32 * (2 ^ 32 * P) * (X * X)) as EX by ring.
    rewrite EX in EV. set (B := Bpow e) in *. lia.
Qed.

Lemma mpSquare_ok x : digits x -> is_num (mpSquare x) (2 * length x) (val x * val x).
Proof.
  intros Hx. unfold mpSquare.
  assert (forall m i st, (i + m = length x)%nat -> row_inv x i st ->
    row_inv x (length x) (fold_left (fun st i => mpSquare_row x i st) (seq i m) st)) as L.
  { induction m as [|m IH]; intros i st Hi HI; cbn [seq fold_left]; [by replace (length x) with i by lia|].
    apply IH; [lia|]. apply mpSquare_row_ok; [done|lia|done]. }
  specialize (L (length x) 0%nat (replicate (2 * length x) 0, 0, (2 * length x - 1)%nat) eq_refl).
  destruct (fold_left _ _ _) as [[w c] cpos]. destruct L as (DW & LW & DC & IC & _ & EV).
  - unfold row_inv. split; [apply digits_replicate0|]. split; [apply length_replicate|]. split; [done|].
    split; [by left|]. split; [intros; apply nth_zeros|]. rewrite val_replicate0, drop_0, Nat.mul_0_r, Bpow_0. lia.
  - rewrite drop_ge in EV by lia. cbn [val] in EV.
    split; [done|]. split; [done|].
    pose proof (val_range w DW) as R1. pose proof (val_range x Hx) as R2. rewrite LW in R1.
    assert (val x * val x < Bpow (2 * length x)) as U.
    { replace (2 * length x)%nat with (length x + length x)%nat by lia. rewrite Bpow_add. nia. }
    assert (c = 0) as ->; [|lia]. destruct IC as [|[P0 Ec]]; [done|].
    replace (S cpos) with (2 * length x)%nat in EV by lia. red in DC. pose proof (Bpow_pos (2 * length x)). nia.
Qed.
