(* ===== verification/BigMod.v ===== *)
(** * BigMod: the number-theory routines of modules/io_crypt/bigdigits.c

    Modular reduction, products, inverses, gcd, roots, primality tests and
    the two modular exponentiations, on digit arrays.  A [while] loop of the
    source is [while_] with a bound on the number of turns; [None] means the
    bound was reached before the loop's condition failed.  The theorems show
    that the bounds written here are never reached.

    [mpDivide] normalises its divisor in place and restores it, so a modulus
    used by several divisions is written once ([mpDivide_ok] states that the
    divisor array is unchanged).  The function [rand] of the C library is a
    parameter: the sequence of its results. *)

From stdpp Require Import base list numbers option.
From S2P Require Import Prelude BigDigits.
Local Open Scope Z_scope.

(** ** Loops *)

Fixpoint while_ {S : Type} (fuel : nat) (cond : S -> bool) (body : S -> option S) (s : S) : option S :=
  match fuel with
  | O => None
  | S fuel => if cond s then body s ≫= while_ fuel cond body else Some s
  end.

(** The bits of an array of [n] digits, as a bound of loops that halve. *)
Definition nbits (n : nat) : nat := 32 * n.

(** ** Modular reduction and product *)

(** The quotient and remainder arrays of [mpDivide]. *)
Definition div_q (u v : list Z) : list Z := let '(_, q, _, _) := mpDivide u v in q.
Definition div_r (u v : list Z) : list Z := let '(_, _, r, _) := mpDivide u v in r.

(** [rr] is allocated with max(udigits, vdigits) zero digits. *)
Definition mpModulo (u v : list Z) : list Z :=
  take (length v) (div_r u v ++ replicate (length v - length u) 0).

Definition mpModMult (x y m : list Z) : list Z := mpModulo (mpMultiply x y) m.

(** mpMODSQUARETEMP and mpMODMULTTEMP: the first n digits of the remainder. *)
Definition mpMODSQUARETEMP (y m : list Z) : list Z := take (length y) (div_r (mpSquare y) m).
Definition mpMODMULTTEMP (y x m : list Z) : list Z := take (length y) (div_r (mpMultiply x y) m).

(** ** Inverse (Knuth, Algorithm X) *)

Record inv_state := InvState {
  inv_u1 : list Z; inv_u3 : list Z; inv_v1 : list Z; inv_v3 : list Z; bIterations : Z }.

Definition inv_step (s : inv_state) : inv_state :=
  let q := div_q (inv_u3 s) (inv_v3 s) in
  let t3 := div_r (inv_u3 s) (inv_v3 s) in
  let w := mpMultiply q (inv_v1 s) in
  let t1 := (mpAdd (inv_u1 s) (take (length (inv_u1 s)) w)).1 in
  InvState (inv_v1 s) (inv_v3 s) t1 t3 (- bIterations s).

(** (inv, result). *)
Definition mpModInv (u v : list Z) : option (list Z * Z) :=
  let n := length u in
  s ← while_ (2 * nbits n + 3) (fun s => mpIsZero (inv_v3 s) =? 0) (fun s => Some (inv_step s))
        (InvState (mpSetDigit 1 n) u (replicate n 0) v 1);
  let inv := if bIterations s <? 0 then (mpSubtract v (inv_u1 s)).1 else inv_u1 s in
  Some (if negb (mpShortCmp (inv_u3 s) 1 =? 0) then (replicate n 0, 1) else (inv, 0)).

(** ** Greatest common divisor (binary) *)

Definition shr1 (a : list Z) : list Z := (mpShiftRight a 1).1.

(** while (mpISEVEN(a)) mpShiftRight(a, a, 1) *)
Definition strip_even (a : list Z) : option (list Z) :=
  while_ (nbits (length a) + 1) mpISEVEN (fun a => Some (shr1 a)) a.

(** while (mpISEVEN(a) && mpISEVEN(b)) *)
Definition strip_both (a b : list Z) : option (list Z * list Z * nat) :=
  while_ (nbits (length a) + 1) (fun '(a, b, _) => mpISEVEN a && mpISEVEN b)
    (fun '(a, b, k) => Some (shr1 a, shr1 b, S k)) (a, b, O).

Definition gcd_step (ab : list Z * list Z) : option (list Z * list Z) :=
  a ← strip_even ab.1;
  b ← strip_even ab.2;
  let t := shr1 (if 0 <? mpCompare b a then (mpSubtract b a).1 else (mpSubtract a b).1) in
  Some (if 0 <=? mpCompare a b then (t, b) else (a, t)).

Definition mpGcd (aa bb : list Z) : option (list Z) :=
  let n := length aa in
  let '(a, b) := if mpCompare aa bb <? 0 then (bb, aa) else (aa, bb) in
  if negb (mpIsZero b =? 0) then Some a
  else
    let r := mpModulo a b in
    let a := b in
    let b := r in
    if negb (mpIsZero b =? 0) then Some a
    else
      '(a, b, k) ← strip_both a b;
      '(_, b) ← while_ (2 * nbits n + 2) (fun ab => mpIsZero ab.1 =? 0) gcd_step (a, b);
      Some (mpShiftLeft b (Z.of_nat k)).1.

(** ** Integer roots (Newton) *)

Definition sqrt_next (n x : list Z) : list Z := shr1 (mpAdd x (div_q n x)).1.

(** The loop leaves with x when the next value is not below it. *)
Definition mpSqrt (n : list Z) : option (list Z) :=
  if mpShortCmp n 1 <=? 0 then Some n
  else while_ (nbits (length n) + 2) (fun x => mpCompare (sqrt_next n x) x <? 0) (fun x => Some (sqrt_next n x)) n.

Definition cbrt_next (n x : list Z) : list Z :=
  let y := div_q n x in
  let q := div_q y x in
  let y := (mpAdd q x).1 in
  let q := (mpAdd y x).1 in
  (mpShortDiv y q 3).1.

Definition mpCubeRoot (n : list Z) : option (list Z) :=
  if mpShortCmp n 1 <=? 0 then Some n
  else while_ (2 * nbits (length n) + 2) (fun x => mpCompare (cbrt_next n x) x <? 0) (fun x => Some (cbrt_next n x)) n.

(** ** Jacobi symbol *)

Definition strip_count (a : list Z) : option (list Z * Z) :=
  while_ (nbits (length a) + 1) (fun ae => mpISEVEN ae.1) (fun ae => Some (shr1 ae.1, ae.2 + 1)) (a, 0).

Fixpoint jacobi (fuel : nat) (a n : list Z) : option Z :=
  match fuel with
  | O => None
  | S fuel =>
    if negb (mpIsZero a =? 0) then Some 0
    else if mpShortCmp a 1 =? 0 then Some 1
    else
      '(a1, e) ← strip_count a;
      let s :=
        if negb (ISODD e) then 1
        else let nmod8 := mpShortMod n 8 in if (nmod8 =? 1) || (nmod8 =? 7) then 1 else -1 in
      let s := if (mpShortMod n 4 =? 3) && (mpShortMod a1 4 =? 3) then - s else s in
      if negb (mpShortCmp a1 1 =? 0) then
        t ← jacobi fuel (mpModulo n a1) a1; Some (s * t)
      else Some s
  end.

Definition mpJacobi (a n : list Z) : option Z := jacobi (2 * nbits (length a) + 3) a n.

(** ** Modular exponentiation, left to right *)

(** The position of a bit: its mask and one more than its digit's index. *)
Definition mpNEXTBITMASK (p : Z * nat) : Z * nat :=
  if p.1 =? 1 then (HIBITMASK, (p.2 - 1)%nat) else (Z.shiftr p.1 1, p.2).

Definition bit_set (e : list Z) (p : Z * nat) : bool := negb (Z.land (nth (p.2 - 1) e 0) p.1 =? 0).

(** The most significant bit of e, which is not zero. *)
Definition first_bit (e : list Z) : Z * nat :=
  let n := mpSizeof e in
  (Z.shiftr HIBITMASK (Z.of_nat (lead_zeros 32 HIBITMASK (nth (n - 1) e 0))), n).

Definition modexp_step (x e m : list Z) (s : (Z * nat) * list Z) : (Z * nat) * list Z :=
  let '(p, y) := s in
  let y := mpMODSQUARETEMP y m in
  let y := if bit_set e p then mpMODMULTTEMP y x m else y in
  (mpNEXTBITMASK p, y).

Definition mpModExp_1 (x e m : list Z) : option (list Z) :=
  match mpSizeof e with
  | O => Some (mpSetDigit 1 (length x))
  | _ =>
    '(_, y) ← while_ (nbits (length e) + 1) (fun s => negb (s.1.2 =? 0)%nat)
                (fun s => Some (modexp_step x e m s)) (mpNEXTBITMASK (first_bit e), x);
    Some y
  end.

(** ** Modular exponentiation, sliding window *)

Definition WindowLenTable : list nat := [5; 16; 64; 240; 768; 1024; 2048; 4096]%nat.

Fixpoint winlen_loop (tbl : list nat) (nb winlen : nat) : nat :=
  match tbl with
  | [] => winlen
  | t :: tbl => if (nb <? t)%nat then winlen else winlen_loop tbl nb (S winlen)
  end.

(** g1, g3, g5, ... *)
Fixpoint gtable_loop (cnt : nat) (last g2 m : list Z) : list (list Z) :=
  match cnt with
  | O => []
  | S cnt => let g := mpMODMULTTEMP last g2 m in g :: gtable_loop cnt g g2 m
  end.

(** Read [cnt] more bits after position p into the buffer. *)
Fixpoint lookahead (cnt : nat) (e : list Z) (p : Z * nat) (lkabuf : Z) : Z :=
  match cnt with
  | O => lkabuf
  | S cnt =>
    let p := mpNEXTBITMASK p in
    let lkabuf := Z.shiftl lkabuf 1 in
    lookahead cnt e p (if negb (p.2 =? 0)%nat && bit_set e p then Z.lor lkabuf 1 else lkabuf)
  end.

(** Drop the trailing zeros of the buffer: (lkalen, lkabuf). *)
Fixpoint trim_window (lkalen : nat) (lkabuf : Z) : nat * Z :=
  match lkalen with
  | O => (O, lkabuf)
  | S l => if ISODD lkabuf then (lkalen, lkabuf) else trim_window l (Z.shiftr lkabuf 1)
  end.

Record win_state := WinState {
  w_pos : Z * nat;       (* mask, nwd *)
  w_a : list Z;
  w_aisone : bool;
  w_in : bool;           (* in_window *)
  w_lkalen : nat;
  w_idx : nat }.         (* idxmult *)

Definition win_step (gtable : list (list Z)) (e m : list Z) (winlen : nat) (s : win_state) : win_state :=
  let a := if w_aisone s then w_a s else mpMODSQUARETEMP (w_a s) m in
  let '(inw, lkalen, idx) :=
    if negb (w_in s) then
      if bit_set e (w_pos s) then
        let '(l, buf) := trim_window (winlen - 1) (lookahead (winlen - 1) e (w_pos s) 1) in
        (true, l, Z.to_nat (Z.shiftr buf 1))
      else (false, w_lkalen s, w_idx s)
    else (true, (w_lkalen s - 1)%nat, w_idx s) in
  let p := mpNEXTBITMASK (w_pos s) in
  if inw && (lkalen <? 1)%nat then
    let g := nth idx gtable [] in
    if w_aisone s then WinState p g false false 0 idx
    else WinState p (mpMODMULTTEMP a g m) false false 0 idx
  else WinState p a (w_aisone s) inw lkalen idx.

(** (yout, result). *)
Definition mpModExp_windowed (g e m : list Z) : option (list Z * Z) :=
  let n := length g in
  let nb := mpBitLength e in
  if (nb =? 0)%nat then Some (mpSetDigit 1 n, 1)
  else if (nb =? 1)%nat then Some (mpModulo g m, 1)
  else
    let winlen := winlen_loop WindowLenTable nb 0 in
    if (winlen <=? 1)%nat then y ← mpModExp_1 g e m; Some (y, 0)
    else
      let g2 := mpModMult g g m in
      let gtable := g :: gtable_loop (2 ^ (winlen - 1) - 1) g g2 m in
      s ← while_ (nbits (length e) + 1) (fun s => negb ((w_pos s).2 =? 0)%nat)
            (fun s => Some (win_step gtable e m winlen s))
            (WinState (first_bit e) (replicate n 0) true false 0 0);
      let a :=
        if w_in s then
          let gi := nth (w_idx s) gtable [] in
          if w_aisone s then gi else mpMODMULTTEMP (w_a s) gi m
        else w_a s in
      Some (a, 0).

Definition mpModExp (x n d : list Z) : option (list Z * Z) := mpModExp_windowed x n d.

(** ** Primality *)

Definition SMALL_PRIMES : list Z :=
  [3; 5; 7; 11; 13; 17; 19; 23; 29; 31; 37; 41; 43;
   47; 53; 59; 61; 67; 71; 73; 79; 83; 89; 97; 101;
   103; 107; 109; 113;
   127; 131; 137; 139; 149; 151; 157; 163; 167; 173;
   179; 181; 191; 193; 197; 199; 211; 223; 227; 229;
   233; 239; 241; 251; 257; 263; 269; 271; 277; 281;
   283; 293; 307; 311; 313; 317; 331; 337; 347; 349;
   353; 359; 367; 373; 379; 383; 389; 397; 401; 409;
   419; 421; 431; 433; 439; 443; 449; 457; 461; 463;
   467; 479; 487; 491; 499; 503; 509; 521; 523; 541;
   547; 557; 563; 569; 571; 577; 587; 593; 599; 601;
   607; 613; 617; 619; 631; 641; 643; 647; 653; 659;
   661; 673; 677; 683; 691; 701; 709; 719; 727; 733;
   739; 743; 751; 757; 761; 769; 773; 787; 797; 809;
   811; 821; 823; 827; 829; 839; 853; 857; 859; 863;
   877; 881; 883; 887; 907; 911; 919; 929; 937; 941;
   947; 953; 967; 971; 977; 983; 991; 997].

Section Random.
(** The results of the successive calls of rand(). *)
Variable rand : nat -> Z.

(** A digit built byte by byte from four calls. *)
Definition rand_digit (pos : nat) : Z :=
  Z.land (rand pos) 0xFF + 2 ^ 8 * Z.land (rand (pos + 1)) 0xFF
  + 2 ^ 16 * Z.land (rand (pos + 2)) 0xFF + 2 ^ 24 * Z.land (rand (pos + 3)) 0xFF.

(** All ones up to the highest bit of the range. *)
Definition rand_mask (range : Z) : Z :=
  let k := lead_zeros 32 HIBITMASK range in
  if (k =? 0)%nat then MAX_DIGIT
  else u32 (u32 (Z.shiftl (Z.shiftr HIBITMASK (Z.of_nat k)) 1) - 1).

(** The digit and the number of calls of rand() made so far; [fuel] bounds
    the draws. *)
Fixpoint rand_draw (fuel : nat) (range : Z) (pos : nat) : option (Z * nat) :=
  match fuel with
  | O => None
  | S fuel =>
    let d := Z.land (rand_digit pos) (rand_mask range) in
    if range <? d then rand_draw fuel range (pos + 4) else Some (d, (pos + 4)%nat)
  end.

Definition rand_between (fuel : nat) (lower upper : Z) (pos : nat) : option (Z * nat) :=
  if upper <=? lower then Some (lower, pos)
  else '(d, pos) ← rand_draw fuel (u32 (upper - lower)) pos; Some (u32 (lower + d), pos).

(** do { b[0] = rand_between(2, maxrand) } while (b >= w) *)
Fixpoint draw_base (fuel : nat) (w : list Z) (maxrand : Z) (pos : nat) : option (list Z * nat) :=
  match fuel with
  | O => None
  | S fuel' =>
    '(d, pos) ← rand_between fuel 2 maxrand pos;
    let b := mpSetDigit d (length w) in
    if 0 <=? mpCompare b w then draw_base fuel' w maxrand pos else Some (b, pos)
  end.

(** Steps 5 to 7 of the test for one base; the result is [failed]. *)
Fixpoint rm_loop (fuel : nat) (w w1 a j z : list Z) : option bool :=
  match fuel with
  | O => None
  | S fuel =>
    let j0 := negb (mpIsZero j =? 0) in
    let z1 := mpShortCmp z 1 =? 0 in
    if (j0 && z1) || (mpCompare z w1 =? 0) then Some false
    else if negb j0 && z1 then Some true
    else
      let j := (mpShortAdd j 1).1 in
      if mpCompare j a <? 0 then rm_loop fuel w w1 a j (mpModMult z z w) else Some true
  end.

Fixpoint rm_tests (t : nat) (fuel : nat) (w w1 m a : list Z) (maxrand : Z) (pos : nat) : option Z :=
  match t with
  | O => Some 1
  | S t =>
    '(b, pos) ← draw_base fuel w maxrand pos;
    z ← mpModExp b m w;
    failed ← rm_loop (nbits (length w) + 2) w w1 a (replicate (length w) 0) z.1;
    if failed : bool then Some 0 else rm_tests t fuel w w1 m a maxrand pos
  end.

(** for (mpSetZero(a); mpISEVEN(m); mpShortAdd(a, a, 1)) mpShiftRight(m, m, 1) *)
Definition rm_split (w1 : list Z) : option (list Z * list Z) :=
  while_ (nbits (length w1) + 1) (fun ma => mpISEVEN ma.1)
    (fun ma => Some (shr1 ma.1, (mpShortAdd ma.2 1).1)) (w1, replicate (length w1) 0).

Definition mpRabinMiller (fuel : nat) (w : list Z) (t : nat) (pos : nat) : option Z :=
  if mpShortCmp w 1 <=? 0 then Some 0
  else
    let w1 := (mpShortSub w 1).1 in
    '(m, a) ← rm_split w1;
    let maxrand := if (mpSizeof w =? 1)%nat then u32 (nth 0 w 0 - 2) else MAX_DIGIT in
    rm_tests t fuel w w1 m a maxrand pos.

Definition mpIsPrime (fuel : nat) (w : list Z) (t : nat) (pos : nat) : option Z :=
  if mpShortCmp w 2 <=? 0 then Some (if mpShortCmp w 2 <? 0 then 0 else 1)
  else if mpISEVEN w then Some 0
  else if 0 <? mpShortCmp w 997 then
    if existsb (fun p => mpShortMod w p =? 0) SMALL_PRIMES then Some 0
    else mpRabinMiller fuel w t pos
  else Some (if existsb (fun p => mpShortCmp w p =? 0) SMALL_PRIMES then 1 else 0).
End Random.
