(* ===== verification/BigModProps.v ===== *)
(** * BigModProps: modular reduction, inverse, gcd and roots are correct *)

From stdpp Require Import base list numbers option.
From S2P Require Import Prelude BigDigits BigDigitsProps BigArith BigShift BigDivide BigSquare BigMod.
Local Open Scope Z_scope.

(** ** Loops that stop *)

(** A loop whose invariant is kept while a rank decreases ends with the
    invariant and a false condition. *)
Lemma while_ok {S} (Inv : S -> Prop) (rank : S -> nat) cond body :
  (forall s, Inv s -> cond s = true -> exists s', body s = Some s' /\ Inv s' /\ (rank s' < rank s)%nat) ->
  forall fuel s, Inv s -> (rank s < fuel)%nat ->
  exists s', while_ fuel cond body s = Some s' /\ Inv s' /\ cond s' = false.
Proof.
  intros H fuel. induction fuel as [|fuel IH]; intros s HI HR; [lia|]. cbn [while_].
  destruct (cond s) eqn:C; [|by exists s].
  destruct (H s HI C) as (s' & -> & HI' & HR'). cbn [mbind option_bind].
  apply IH; [done|lia].
Qed.

(** The number of halvings a number takes to reach zero. *)
Definition halvings (x : Z) : nat := if x <=? 0 then 0%nat else S (Z.to_nat (Z.log2 x)).

Lemma halvings_lt x y : 0 < y -> 2 * x <= y -> (halvings x < halvings y)%nat.
Proof.
  intros Hy L. unfold halvings. destruct (Z.leb_spec y 0); [lia|].
  destruct (Z.leb_spec x 0); [lia|].
  assert (Z.log2 (2 * x) <= Z.log2 y) as G by (by apply Z.log2_le_mono).
  rewrite Z.log2_double in G by lia. pose proof (Z.log2_nonneg x). lia.
Qed.

Lemma halvings_le x k : x < 2 ^ Z.of_nat k -> (halvings x <= k)%nat.
Proof.
  intros L. unfold halvings. destruct (Z.leb_spec x 0); [lia|].
  assert (Z.log2 x < Z.of_nat k) by (apply Z.log2_lt_pow2; lia). pose proof (Z.log2_nonneg x). lia.
Qed.

Lemma Bpow_nbits n : Bpow n = 2 ^ Z.of_nat (nbits n).
Proof. unfold Bpow, nbits. f_equal. lia. Qed.

(** ** Division as quotient and remainder *)

Lemma div_ok u v n x m : is_num u n x -> digits v -> val v = m -> m <> 0 ->
  is_num (div_q u v) n (x / m) /\ is_num (div_r u v) n (x mod m).
Proof.
  intros (<- & Hu & <-) Hv <- N. pose proof (mpDivide_ok u v Hu Hv N) as D. unfold div_q, div_r.
  destruct (mpDivide u v) as [[[rc q] r] v']. by destruct D as (_ & ? & ? & _).
Qed.

Lemma is_num_take l n k x : is_num l n x -> (k <= n)%nat -> x < Bpow k -> is_num (take k l) k x.
Proof.
  intros (L & D & V) Hk Hx. assert (digits (take k l)) as DT by (by apply Forall_take).
  assert (length (take k l) = k) as LT by (rewrite length_take; lia).
  split; [done|]. split; [done|].
  pose proof (val_nonneg _ DT). pose proof (val_nonneg (drop k l) ltac:(by apply Forall_drop)).
  rewrite (val_take_drop k l), Nat.min_l in V by lia. pose proof (Bpow_pos k).
  assert (val (drop k l) = 0) as E0 by nia. rewrite E0 in V. lia.
Qed.

(** The low digits of an array hold its value modulo a power of the base. *)
Lemma is_num_low l n k x : is_num l n x -> (k <= n)%nat -> is_num (take k l) k (x mod Bpow k).
Proof.
  intros (L & D & V) Hk. assert (digits (take k l)) as DT by (by apply Forall_take).
  assert (length (take k l) = k) as LT by (rewrite length_take; lia).
  split; [done|]. split; [done|]. pose proof (val_range _ DT) as R. rewrite LT in R.
  rewrite (val_take_drop k l), Nat.min_l in V by lia.
  apply Z.mod_unique with (val (drop k l)); [by left|lia].
Qed.

Lemma mpModulo_ok u v n k x m : is_num u n x -> is_num v k m -> m <> 0 -> is_num (mpModulo u v) k (x mod m).
Proof.
  intros Hu Hv N. pose proof (is_num_range _ _ _ Hv) as Rm. destruct Hv as (LV & DV & VV).
  destruct (div_ok u v n x m Hu DV VV N) as [_ R]. unfold mpModulo. rewrite LV.
  destruct Hu as (LU & _). rewrite LU.
  pose proof (Z.mod_pos_bound x m ltac:(lia)).
  apply (is_num_take _ (n + (k - n))); [|lia|lia].
  apply (is_num_eq _ _ _ _ _ (is_num_app _ _ _ _ _ _ R (is_num_zeros _))); [done|ring].
Qed.

Lemma mpModulo_zero u v : digits u -> digits v -> val v = 0 -> mpModulo u v = replicate (length v) 0.
Proof.
  intros Hu Hv E. unfold mpModulo, div_r, mpDivide. apply mpSizeof_zero in E; [|done]. rewrite E.
  rewrite <- replicate_add, take_replicate. f_equal. lia.
Qed.

Section Modulus.
Variables (m : list Z) (n : nat) (M : Z).
Hypothesis Hm : is_num m n M.
Hypothesis HM : M <> 0.

Lemma mpModMult_ok x y X Y : is_num x n X -> is_num y n Y -> is_num (mpModMult x y m) n ((X * Y) mod M).
Proof.
  intros (LX & DX & <-) (LY & DY & <-). unfold mpModMult.
  apply (mpModulo_ok _ _ (2 * n)); [|done|done]. rewrite <- LX. apply mpMultiply_ok; congruence.
Qed.

Lemma mod_lt_Bpow x : 0 <= x mod M < M /\ M < Bpow n.
Proof. pose proof (is_num_range _ _ _ Hm). pose proof (Z.mod_pos_bound x M). lia. Qed.

Lemma mpMODSQUARETEMP_ok y Y : is_num y n Y -> is_num (mpMODSQUARETEMP y m) n ((Y * Y) mod M).
Proof.
  intros (LY & DY & <-). unfold mpMODSQUARETEMP. destruct Hm as (LM & DM & VM).
  destruct (div_ok (mpSquare y) m (2 * n) (val y * val y) M) as [_ R]; try done.
  { rewrite <- LY. by apply mpSquare_ok. }
  rewrite LY. pose proof (mod_lt_Bpow (val y * val y)). apply (is_num_take _ (2 * n)); [done|lia|lia].
Qed.

Lemma mpMODMULTTEMP_ok y x Y X : is_num y n Y -> is_num x n X -> is_num (mpMODMULTTEMP y x m) n ((X * Y) mod M).
Proof.
  intros (LY & DY & <-) (LX & DX & <-). unfold mpMODMULTTEMP. destruct Hm as (LM & DM & VM).
  destruct (div_ok (mpMultiply x y) m (2 * n) (val x * val y) M) as [_ R]; try done.
  { rewrite <- LX. apply mpMultiply_ok; congruence. }
  rewrite LY. pose proof (mod_lt_Bpow (val x * val y)). apply (is_num_take _ (2 * n)); [done|lia|lia].
Qed.
End Modulus.

Lemma mpSetDigit_ok d n : is_digit d -> n <> 0%nat -> is_num (mpSetDigit d n) n d.
Proof.
  intros Hd Hn. destruct n as [|n]; [done|].
  apply (is_num_eq _ _ _ _ _ (is_num_cons d _ _ _ Hd (is_num_zeros n))); [done|lia].
Qed.

Lemma is_zero_num a n x : is_num a n x -> (mpIsZero a =? 0) = negb (x =? 0).
Proof. intros (_ & D & <-). rewrite <- (mpIsZero_ok a D). by rewrite negb_involutive. Qed.

Lemma compare_num a b n x y : is_num a n x -> is_num b n y -> mpCompare a b = Z.sgn (x - y).
Proof. intros (LA & DA & <-) (LB & DB & <-). apply mpCompare_ok; congruence. Qed.

Lemma shortcmp_num a n x d : is_num a n x -> is_digit d -> mpShortCmp a d = Z.sgn (x - d).
Proof. intros (_ & DA & <-) Hd. by apply mpShortCmp_ok. Qed.

Lemma sub_num a b n x y : is_num a n x -> is_num b n y -> y <= x -> is_num (mpSubtract a b).1 n (x - y).
Proof.
  intros (LA & DA & <-) (LB & DB & <-) L. pose proof (mpSubtract_ok a b ltac:(congruence) DA DB) as S.
  destruct (mpSubtract a b) as [w c]. destruct S as (C & N). rewrite LA in N. cbn [fst].
  pose proof (is_num_range _ _ _ N). pose proof (val_range a DA) as R. rewrite LA in R. pose proof (val_nonneg b DB).
  assert (c = 0) by nia. subst c. apply (is_num_eq _ _ _ _ _ N); [done|lia].
Qed.

Lemma add_num a b n x y : is_num a n x -> is_num b n y -> x + y < Bpow n -> is_num (mpAdd a b).1 n (x + y).
Proof.
  intros (LA & DA & <-) (LB & DB & <-) L. pose proof (mpAdd_ok a b ltac:(congruence) DA DB) as S.
  destruct (mpAdd a b) as [w c]. destruct S as (C & N). rewrite LA in N. cbn [fst].
  pose proof (is_num_range _ _ _ N). pose proof (val_nonneg a DA). pose proof (val_nonneg b DB).
  assert (c = 0) by nia. subst c. apply (is_num_eq _ _ _ _ _ N); [done|lia].
Qed.

Lemma shr1_num a n x : is_num a n x -> is_num (shr1 a) n (x / 2).
Proof.
  intros (LA & DA & <-). unfold shr1. pose proof (mpShiftRight_ok a 1 ltac:(lia) DA) as R.
  by rewrite LA, Z.pow_1_r in R.
Qed.

Lemma even_num a n x : is_num a n x -> mpISEVEN a = Z.even x.
Proof.
  intros (_ & DA & <-). unfold mpISEVEN, ISODD. change 1 with (2 ^ 0). rewrite land_pow2 by lia.
  rewrite Z.bit0_odd. rewrite <- Z.negb_odd. f_equal.
  assert (Z.odd (val a) = Z.odd (nth 0 a 0)) as ->.
  { destruct a as [|d a]; [done|]. cbn [val nth]. change (2 ^ 32) with (2 * 2 ^ 31).
    rewrite <- Z.mul_assoc. apply Z.odd_add_mul_2. }
  by destruct (Z.odd _).
Qed.

(** ** Modular inverse *)

(** Knuth's invariant, with the sign of the cofactors kept in [bIterations]. *)
Definition inv_rel (n : nat) (U V : Z) (s : inv_state) : Prop :=
  exists u1 u3 v1 v3,
    is_num (inv_u1 s) n u1 /\ is_num (inv_u3 s) n u3 /\ is_num (inv_v1 s) n v1 /\ is_num (inv_v3 s) n v3 /\
    (bIterations s = 1 \/ bIterations s = -1) /\
    u1 * v3 + v1 * u3 = V /\ Z.gcd u3 v3 = Z.gcd U V /\
    (V | bIterations s * u1 * U - u3) /\ (V | bIterations s * v1 * U + v3) /\ u1 <= V /\ v1 <= V.

(** The rank of Euclid's loop: the product of the remainders, once they are in order. *)
Definition euclid_rank (u v : Z) : nat :=
  if v =? 0 then 0%nat else if u <? v then S (S (halvings (u * v))) else S (halvings (u * v)).

Definition inv_rank (s : inv_state) : nat := euclid_rank (val (inv_u3 s)) (val (inv_v3 s)).

Lemma euclid_rank_step u v : 0 <= u -> 0 < v -> (euclid_rank v (u mod v) < euclid_rank u v)%nat.
Proof.
  unfold euclid_rank.
  intros Hu Hv. pose proof (Z.mod_pos_bound u v Hv) as R. pose proof (Z.div_mod u v ltac:(lia)) as D.
  destruct (Z.eqb_spec v 0); [lia|]. destruct (Z.ltb_spec v (u mod v)); [lia|].
  destruct (Z.eqb_spec (u mod v) 0) as [E|E]; [destruct (u <? v); lia|].
  destruct (Z.ltb_spec u v) as [L|L].
  - rewrite Z.mod_small by lia. rewrite Z.mul_comm. lia.
  - assert (1 <= u / v) by (apply Z.div_le_lower_bound; lia).
    assert (2 * (u mod v) <= u) by nia.
    assert (halvings (v * (u mod v)) < halvings (u * v))%nat by (apply halvings_lt; nia). lia.
Qed.

Lemma inv_step_ok n U V s : 0 < V < Bpow n -> inv_rel n U V s -> (mpIsZero (inv_v3 s) =? 0) = true ->
  inv_rel n U V (inv_step s) /\ (inv_rank (inv_step s) < inv_rank s)%nat.
Proof.
  intros HV (u1 & u3 & v1 & v3 & N1 & N3 & M1 & M3 & HB & EI & EG & D1 & D2 & L1 & L2) C.
  rewrite (is_zero_num _ _ _ M3) in C. to_prop.
  pose proof (is_num_range _ _ _ N1). pose proof (is_num_range _ _ _ N3). pose proof (is_num_range _ _ _ M1).
  pose proof (is_num_range _ _ _ M3). assert (0 < v3) as P3 by lia.
  destruct (div_ok (inv_u3 s) (inv_v3 s) n u3 v3 N3 ltac:(apply M3) ltac:(apply M3) ltac:(lia)) as [NQ NR].
  set (q := u3 / v3) in *. set (r := u3 mod v3) in *.
  pose proof (Z.div_mod u3 v3 ltac:(lia)) as DM. fold q r in DM.
  pose proof (Z.mod_pos_bound u3 v3 P3) as RR. fold r in RR.
  assert (0 <= q) as PQ by (apply Z.div_pos; lia).
  assert ((u1 + q * v1) * v3 + v1 * r = V) as EI' by (rewrite <- EI, DM; ring).
  assert (u1 + q * v1 <= V) as LT by nia.
  assert (is_num (mpMultiply (div_q (inv_u3 s) (inv_v3 s)) (inv_v1 s)) (2 * n) (q * v1)) as NW.
  { destruct NQ as (LQ & DQ & <-), M1 as (LM & DM1 & <-). rewrite <- LQ. apply mpMultiply_ok; congruence. }
  assert (is_num (inv_v1 (inv_step s)) n (u1 + q * v1)) as NT.
  { unfold inv_step; cbn [inv_v1]. apply add_num; [done| |lia]. destruct N1 as (-> & _).
    apply (is_num_take _ (2 * n)); [done|lia|nia]. }
  split.
  - exists v1, v3, (u1 + q * v1), r. unfold inv_step; cbn [inv_u1 inv_u3 inv_v3 bIterations].
    repeat (split; [done|]).
    split; [lia|]. split; [lia|].
    split. { rewrite <- EG. unfold r. rewrite Z.gcd_comm, Z.gcd_mod by lia. by rewrite Z.gcd_comm. }
    split. { destruct D2 as [k Ek]. exists (- k). lia. }
    split; [|lia]. destruct D1 as [k1 E1], D2 as [k2 E2]. exists (- k1 - q * k2).
    replace ((- k1 - q * k2) * V) with (- (k1 * V) - q * (k2 * V)) by ring. rewrite <- E1, <- E2, DM. ring.
  - unfold inv_rank, inv_step; cbn [inv_u3 inv_v3].
    destruct NR as (_ & _ & ->), M3 as (_ & _ & ->), N3 as (_ & _ & ->). apply euclid_rank_step; lia.
Qed.

Lemma mpModInv_ok u v n U V : is_num u n U -> is_num v n V -> 0 < V ->
  exists inv rc X, mpModInv u v = Some (inv, rc) /\ is_num inv n X /\
    (Z.gcd U V = 1 -> rc = 0 /\ 0 <= X <= V /\ (X * U) mod V = 1 mod V) /\
    (Z.gcd U V <> 1 -> rc = 1 /\ X = 0).
Proof.
  intros NU NV HV. pose proof (is_num_range _ _ _ NU) as RU. pose proof (is_num_range _ _ _ NV) as RV.
  assert (n <> 0%nat) as Hn by (intros ->; rewrite Bpow_0 in RV; lia).
  unfold mpModInv. destruct NU as (LU & DU & VU). rewrite LU.
  set (s0 := InvState (mpSetDigit 1 n) u (replicate n 0) v 1).
  destruct (while_ok (inv_rel n U V) inv_rank (fun s => mpIsZero (inv_v3 s) =? 0) (fun s => Some (inv_step s)))
    with (fuel := (2 * nbits n + 3)%nat) (s := s0) as (s & E & HI & C).
  - intros s HI C. destruct (inv_step_ok n U V s ltac:(lia) HI C). eauto.
  - exists 1, U, 0, V. cbn. split; [apply mpSetDigit_ok; done|]. split; [done|]. split; [apply is_num_zeros|].
    split; [done|]. split; [by left|]. split; [lia|]. split; [done|].
    split; [exists 0; lia|]. split; [exists 1; lia|lia].
  - unfold inv_rank, euclid_rank, s0; cbn [inv_u3 inv_v3]. destruct NV as (_ & _ & ->). rewrite VU.
    assert (halvings (U * V) <= 2 * nbits n)%nat.
    { apply halvings_le. replace (2 ^ Z.of_nat (2 * nbits n)) with (Bpow n * Bpow n); [nia|].
      rewrite Bpow_nbits, <- Z.pow_add_r by lia. f_equal. lia. }
    destruct (V =? 0); [lia|]. destruct (U <? V); lia.
  - rewrite E. cbn [mbind option_bind].
    destruct HI as (u1 & u3 & v1 & v3 & N1 & N3 & M1 & M3 & HB & EI & EG & D1 & D2 & L1 & L2).
    rewrite (is_zero_num _ _ _ M3) in C. apply negb_false_iff, Z.eqb_eq in C. subst v3.
    rewrite Z.gcd_0_r, Z.abs_eq in EG by (pose proof (is_num_range _ _ _ N3); lia).
    pose proof (is_num_range _ _ _ N1). pose proof (is_num_range _ _ _ M1).
    rewrite (shortcmp_num _ _ _ 1 N3) by done. rewrite <- EG.
    destruct (Z.eqb_spec (Z.sgn (u3 - 1)) 0) as [E1|E1]; cbn [negb].
    + assert (u3 = 1) as -> by lia. destruct D1 as [k Ek].
      destruct HB as [HB|HB]; rewrite HB in *; cbn [Z.ltb Z.compare].
      * eexists _, 0, u1. split; [reflexivity|]. split; [done|]. split; [|lia].
        intros _. split; [done|]. split; [lia|].
        replace (u1 * U) with (1 + k * V) by lia. by apply Z.mod_add; lia.
      * eexists _, 0, (V - u1). split; [reflexivity|]. split; [by apply sub_num|]. split; [|lia].
        intros _. split; [done|]. split; [lia|].
        replace ((V - u1) * U) with (1 + (U + k) * V) by lia. by apply Z.mod_add; lia.
    + eexists _, 1, 0. split; [reflexivity|]. split; [apply is_num_zeros|]. split; [lia|done].
Qed.

(** ** Binary gcd *)

Lemma gcd_double_odd a b : Z.odd b = true -> Z.gcd (2 * a) b = Z.gcd a b.
Proof.
  intros O. apply Z.divide_antisym_nonneg; try apply Z.gcd_nonneg.
  - apply Z.gcd_greatest; [|apply Z.gcd_divide_r].
    apply (Z.gauss _ 2); [apply Z.gcd_divide_l|].
    assert (Z.odd (Z.gcd (2 * a) b) = true) as OG.
    { destruct (Z.gcd_divide_r (2 * a) b) as [k E]. rewrite E in O at 1. rewrite Z.odd_mul in O. by to_prop. }
    apply Z.divide_antisym_nonneg; [apply Z.gcd_nonneg|lia| |apply Z.divide_1_l].
    destruct (Z.gcd_divide_l (Z.gcd (2 * a) b) 2) as [k E1]. destruct (Z.gcd_divide_r (Z.gcd (2 * a) b) 2) as [k2 E2].
    pose proof (Z.gcd_nonneg (Z.gcd (2 * a) b) 2) as P. set (g := Z.gcd (Z.gcd (2 * a) b) 2) in *.
    assert (g <= 2) by (apply Z.divide_pos_le; [lia|by exists k2]). assert (g <> 0) by (intros G0; rewrite G0 in E2; lia).
    assert (g = 1 \/ g = 2) as [->|G2] by lia; [apply Z.divide_refl|].
    exfalso. rewrite E1, G2, Z.odd_mul, andb_false_r in OG. done.
  - apply Z.gcd_greatest; [|apply Z.gcd_divide_r]. apply Z.divide_mul_r, Z.gcd_divide_l.
Qed.

Lemma gcd_pow2_odd a b k : Z.odd b = true -> Z.gcd (2 ^ Z.of_nat k * a) b = Z.gcd a b.
Proof.
  intros O. induction k as [|k IH]; [by rewrite Z.pow_0_r, Z.mul_1_l|].
  rewrite Nat2Z.inj_succ, Z.pow_succ_r, <- Z.mul_assoc, gcd_double_odd by (done || lia). done.
Qed.

Lemma even_half x : Z.even x = true -> x = 2 * (x / 2).
Proof. intros E. apply Z.even_spec in E as [k ->]. rewrite (Z.mul_comm 2 k), Z.div_mul by lia. lia. Qed.

Lemma pow2_odd_unique x' y' k : Z.odd x' = true -> x' * 2 ^ Z.of_nat k = y' -> Z.odd y' = true -> k = 0%nat.
Proof.
  intros _ E O. destruct k as [|k]; [done|]. rewrite Nat2Z.inj_succ, Z.pow_succ_r in E by lia.
  rewrite <- E, !Z.odd_mul, andb_false_r in O. done.
Qed.

Lemma strip_even_ok a n x : is_num a n x -> 0 < x ->
  exists a' x' k, strip_even a = Some a' /\ is_num a' n x' /\ x = 2 ^ Z.of_nat k * x' /\ Z.odd x' = true.
Proof.
  intros N P. unfold strip_even.
  destruct (while_ok (fun a' => exists x' k, is_num a' n x' /\ 0 < x' /\ x = 2 ^ Z.of_nat k * x')
              (fun a' => halvings (val a')) mpISEVEN (fun a => Some (shr1 a)))
    with (fuel := (nbits (length a) + 1)%nat) (s := a) as (a' & E & (x' & k & N' & P' & EX) & C).
  - intros s (x' & k & N' & P' & EX) C. rewrite (even_num _ _ _ N') in C.
    exists (shr1 s). split; [done|]. pose proof (shr1_num _ _ _ N') as NS. pose proof (even_half _ C).
    split.
    + exists (x' / 2), (S k). split; [done|]. split; [lia|].
      rewrite Nat2Z.inj_succ, Z.pow_succ_r by lia. rewrite EX. rewrite H at 1. ring.
    + destruct NS as (_ & _ & ->), N' as (_ & _ & ->). apply halvings_lt; lia.
  - exists x, 0%nat. split; [done|]. split; [done|]. rewrite Z.pow_0_r. lia.
  - assert (halvings (val a) <= nbits (length a))%nat; [|lia].
    apply halvings_le. rewrite <- Bpow_nbits. destruct N as (L & D & _). apply val_range, D.
  - exists a', x', k. split; [done|]. split; [done|]. split; [done|].
    rewrite (even_num _ _ _ N') in C. by rewrite <- Z.negb_even, C.
Qed.

Lemma strip_both_ok a b n x y : is_num a n x -> is_num b n y -> 0 < x -> 0 < y ->
  exists a' b' k x' y', strip_both a b = Some (a', b', k) /\ is_num a' n x' /\ is_num b' n y' /\ 0 < x' /\ 0 < y' /\
    x = 2 ^ Z.of_nat k * x' /\ y = 2 ^ Z.of_nat k * y' /\ Z.odd x' || Z.odd y' = true.
Proof.
  intros NA NB PX PY. unfold strip_both.
  destruct (while_ok (fun '(a', b', k) => exists x' y', is_num a' n x' /\ is_num b' n y' /\ 0 < x' /\ 0 < y' /\
                        x = 2 ^ Z.of_nat k * x' /\ y = 2 ^ Z.of_nat k * y')
              (fun '(a', _, _) => halvings (val a')) (fun '(a, b, _) => mpISEVEN a && mpISEVEN b)
              (fun '(a, b, k) => Some (shr1 a, shr1 b, S k)))
    with (fuel := (nbits (length a) + 1)%nat) (s := (a, b, O))
    as ([[a' b'] k] & E & (x' & y' & NA' & NB' & PX' & PY' & EX & EY) & C).
  - intros [[s1 s2] k] (x' & y' & NA' & NB' & PX' & PY' & EX & EY) C.
    rewrite (even_num _ _ _ NA'), (even_num _ _ _ NB') in C. to_prop.
    pose proof (shr1_num _ _ _ NA') as NS. pose proof (shr1_num _ _ _ NB') as NS2.
    assert (x' = 2 * (x' / 2)) as HX by (by apply even_half). assert (y' = 2 * (y' / 2)) as HY by (by apply even_half).
    eexists. split; [reflexivity|]. split.
    + exists (x' / 2), (y' / 2). split; [done|]. split; [done|]. split; [lia|]. split; [lia|].
      rewrite Nat2Z.inj_succ, Z.pow_succ_r by lia. rewrite EX, EY, HX at 1. rewrite HY at 1. split; ring.
    + destruct NS as (_ & _ & ->), NA' as (_ & _ & ->). apply halvings_lt; lia.
  - exists x, y. rewrite Z.pow_0_r. repeat (split; [done|]). split; lia.
  - assert (halvings (val a) <= nbits (length a))%nat; [|lia].
    apply halvings_le. rewrite <- Bpow_nbits. destruct NA as (L & D & _). apply val_range, D.
  - exists a', b', k, x', y'. repeat (split; [done|]).
    rewrite (even_num _ _ _ NA'), (even_num _ _ _ NB') in C. rewrite <- !Z.negb_even.
    by destruct (Z.even x'), (Z.even y').
Qed.

Definition gcd_rel (n : nat) (G : Z) (ab : list Z * list Z) : Prop :=
  exists x y, is_num ab.1 n x /\ is_num ab.2 n y /\ 0 < y /\ Z.odd x || Z.odd y = true /\ Z.gcd x y = G.

(** The difference of two odd numbers, halved, has the same gcd with either. *)
Lemma gcd_half_diff x y : Z.odd x = true -> Z.odd y = true ->
  x - y = 2 * ((x - y) / 2) /\ Z.gcd ((x - y) / 2) y = Z.gcd x y.
Proof.
  intros OX OY. assert (x - y = 2 * ((x - y) / 2)) as E.
  { apply even_half. rewrite Z.even_sub, <- !Z.negb_odd, OX, OY. done. }
  split; [done|]. rewrite <- (gcd_double_odd _ y OY), <- E, Z.gcd_comm, Z.gcd_sub_diag_r, Z.gcd_comm. done.
Qed.

Lemma gcd_odd_strip x y kx ky x' y' : x = 2 ^ Z.of_nat kx * x' -> y = 2 ^ Z.of_nat ky * y' ->
  Z.odd x' = true -> Z.odd y' = true -> Z.odd x || Z.odd y = true -> Z.gcd x' y' = Z.gcd x y.
Proof.
  intros EX EY OX OY O. apply orb_prop in O as [O|O].
  - assert (kx = 0%nat) as -> by (apply (pow2_odd_unique x' x); [done|lia|done]).
    rewrite Z.pow_0_r, Z.mul_1_l in EX. subst x y. by rewrite (Z.gcd_comm x'), (Z.gcd_comm x'), gcd_pow2_odd.
  - assert (ky = 0%nat) as -> by (apply (pow2_odd_unique y' y); [done|lia|done]).
    rewrite Z.pow_0_r, Z.mul_1_l in EY. subst x y. by rewrite gcd_pow2_odd.
Qed.

Lemma gcd_step_ok n G ab : gcd_rel n G ab -> (mpIsZero ab.1 =? 0) = true ->
  exists ab', gcd_step ab = Some ab' /\ gcd_rel n G ab' /\
    (halvings (val ab'.1 * val ab'.2) < halvings (val ab.1 * val ab.2))%nat.
Proof.
  intros (x & y & NX & NY & PY & O & EG) C. rewrite (is_zero_num _ _ _ NX) in C. to_prop.
  pose proof (is_num_range _ _ _ NX) as RX. assert (0 < x) as PX by lia.
  destruct (strip_even_ok _ _ _ NX PX) as (a & x' & kx & EA & NA & EX & OX).
  destruct (strip_even_ok _ _ _ NY PY) as (b & y' & ky & EB & NB & EY & OY).
  unfold gcd_step. rewrite EA. cbn [mbind option_bind]. rewrite EB. cbn [mbind option_bind].
  rewrite (compare_num _ _ _ _ _ NB NA), (compare_num _ _ _ _ _ NA NB).
  pose proof (gcd_odd_strip _ _ _ _ _ _ EX EY OX OY O) as EG'. rewrite EG in EG'.
  assert (0 < 2 ^ Z.of_nat kx) as Pkx by lia. assert (0 < 2 ^ Z.of_nat ky) as Pky by lia.
  assert (0 < x' <= x) as RX' by nia. assert (0 < y' <= y) as RY' by nia.
  destruct (gcd_half_diff x' y' OX OY) as [H1 G1]. destruct (gcd_half_diff y' x' OY OX) as [H2 G2].
  destruct (Z.leb_spec 0 (Z.sgn (x' - y'))) as [L|L].
  - destruct (Z.ltb_spec 0 (Z.sgn (y' - x'))) as [L2|L2]; [lia|].
    pose proof (shr1_num _ _ _ (sub_num _ _ _ _ _ NA NB ltac:(lia))) as NT.
    eexists. split; [reflexivity|]. cbn [fst snd]. split.
    + exists ((x' - y') / 2), y'. cbn [fst snd]. split; [done|]. split; [done|]. split; [lia|].
      split; [by rewrite OY, orb_true_r|by rewrite G1].
    + destruct NT as (_ & _ & ->), NB as (_ & _ & ->), NX as (_ & _ & ->), NY as (_ & _ & ->).
      apply halvings_lt; nia.
  - destruct (Z.ltb_spec 0 (Z.sgn (y' - x'))) as [L2|L2]; [|lia].
    pose proof (shr1_num _ _ _ (sub_num _ _ _ _ _ NB NA ltac:(lia))) as NT.
    eexists. split; [reflexivity|]. cbn [fst snd]. split.
    + exists x', ((y' - x') / 2). cbn [fst snd]. split; [done|]. split; [done|]. split; [lia|].
      split; [by rewrite OX|]. rewrite Z.gcd_comm, G2, Z.gcd_comm. done.
    + destruct NT as (_ & _ & ->), NA as (_ & _ & ->), NX as (_ & _ & ->), NY as (_ & _ & ->).
      apply halvings_lt; nia.
Qed.

Lemma mpGcd_pos a b n x y : is_num a n x -> is_num b n y -> 0 < x -> 0 < y -> forall N, N = n ->
  exists d, ('(a, b, k) ← strip_both a b;
             '(_, b) ← while_ (2 * nbits N + 2) (fun ab => mpIsZero ab.1 =? 0) gcd_step (a, b);
             Some (mpShiftLeft b (Z.of_nat k)).1) = Some d /\ is_num d n (Z.gcd x y).
Proof.
  intros NA NB PX PY N ->.
  destruct (strip_both_ok _ _ _ _ _ NA NB PX PY) as (a' & b' & k & x' & y' & E & NA' & NB' & PX' & PY' & EX & EY & O).
  rewrite E. cbn [mbind option_bind].
  destruct (while_ok (gcd_rel n (Z.gcd x' y')) (fun ab => halvings (val ab.1 * val ab.2))
              (fun ab => mpIsZero ab.1 =? 0) gcd_step) with (fuel := (2 * nbits n + 2)%nat) (s := (a', b'))
    as ([a'' b''] & -> & (x'' & y'' & NA'' & NB'' & PY'' & _ & EG) & C).
  - apply gcd_step_ok.
  - exists x', y'. by repeat (split; [done|]).
  - assert (halvings (val a' * val b') <= 2 * nbits n)%nat; [|cbn [fst snd]; lia].
    pose proof (is_num_range _ _ _ NA'). pose proof (is_num_range _ _ _ NB').
    destruct NA' as (_ & _ & ->), NB' as (_ & _ & ->).
    apply halvings_le. replace (2 ^ Z.of_nat (2 * nbits n)) with (Bpow n * Bpow n); [nia|].
    rewrite Bpow_nbits, <- Z.pow_add_r by lia. f_equal. lia.
  - cbn [mbind option_bind fst snd] in *. rewrite (is_zero_num _ _ _ NA'') in C.
    apply negb_false_iff, Z.eqb_eq in C. subst x''. rewrite Z.gcd_0_l, Z.abs_eq in EG by lia. subst y''.
    eexists. split; [reflexivity|]. destruct NB'' as (L & D & V).
    pose proof (mpShiftLeft_ok b'' (Z.of_nat k) ltac:(lia) D) as S. rewrite L, V in S.
    assert (Z.gcd x y = Z.gcd x' y' * 2 ^ Z.of_nat k) as EG2.
    { rewrite EX, EY, Z.gcd_mul_mono_l_nonneg by lia. ring. }
    rewrite EG2. rewrite Z.mod_small in S; [done|]. rewrite <- EG2.
    pose proof (Z.gcd_nonneg x y). pose proof (is_num_range _ _ _ NA).
    assert (Z.gcd x y <= x); [|lia]. apply Z.divide_pos_le; [done|apply Z.gcd_divide_l].
Qed.

Lemma mpGcd_ok a b n x y : is_num a n x -> is_num b n y ->
  exists d, mpGcd a b = Some d /\ is_num d n (Z.gcd x y).
Proof.
  intros NA NB. unfold mpGcd. rewrite (compare_num _ _ _ _ _ NA NB).
  assert (exists a' b' x' y', (if Z.sgn (x - y) <? 0 then (b, a) else (a, b)) = (a', b') /\
    is_num a' n x' /\ is_num b' n y' /\ Z.gcd x' y' = Z.gcd x y) as (a' & b' & x' & y' & -> & NA' & NB' & EG).
  { destruct (_ <? 0); [exists b, a, y, x|exists a, b, x, y]; repeat (split; [done|]); [apply Z.gcd_comm|done]. }
  rewrite <- EG. pose proof (is_num_range _ _ _ NA'). pose proof (is_num_range _ _ _ NB').
  rewrite (is_zero_num _ _ _ NB'), negb_involutive.
  destruct (Z.eqb_spec y' 0) as [->|N0].
  { exists a'. split; [done|]. by rewrite Z.gcd_0_r, Z.abs_eq by lia. }
  pose proof (mpModulo_ok _ _ _ _ _ _ NA' NB' N0) as NR. rewrite (is_zero_num _ _ _ NR), negb_involutive.
  assert (Z.gcd y' (x' mod y') = Z.gcd x' y') as EG2 by (rewrite Z.gcd_comm, Z.gcd_mod by done; apply Z.gcd_comm).
  rewrite <- EG2. pose proof (Z.mod_pos_bound x' y' ltac:(lia)).
  destruct (Z.eqb_spec (x' mod y') 0) as [->|N1].
  { exists b'. split; [done|]. by rewrite Z.gcd_0_r, Z.abs_eq by lia. }
  apply mpGcd_pos; try done; try lia. destruct NA as (L & _). exact L.
Qed.

(** ** Integer roots *)

Lemma sqrt_newton N X r : r * r <= N < (r + 1) * (r + 1) -> 0 < r -> r <= X ->
  r <= (X + N / X) / 2 /\ ((X + N / X) / 2 < X -> 2 * ((X + N / X) / 2 - r) <= X - r) /\
  (X <= (X + N / X) / 2 -> X = r).
Proof.
  intros HN Hr HX. pose proof (Z.div_mod N X ltac:(lia)) as D. pose proof (Z.mod_pos_bound N X ltac:(lia)) as R.
  set (q := N / X) in *. set (m := N mod X) in *. clearbody q m.
  assert (2 * r - X <= q) as L1 by nia.
  assert (X = r \/ q <= r) as L2 by (destruct (Z.eq_dec X r); [by left|right; nia]).
  pose proof (Z.div_mod (X + q) 2 ltac:(lia)) as D2. pose proof (Z.mod_pos_bound (X + q) 2 ltac:(lia)) as R2.
  set (y := (X + q) / 2) in *. clearbody y.
  split; [lia|]. split; [destruct L2; [nia|lia]|]. intros G.
  assert (X <= q) by lia. nia.
Qed.

Lemma sqrt_next_ok n x k N X : is_num n k N -> is_num x k X -> 0 < X <= N -> N + 1 < Bpow k ->
  is_num (sqrt_next n x) k ((X + N / X) / 2).
Proof.
  intros NN NX HX HN. unfold sqrt_next.
  destruct (div_ok n x k N X NN ltac:(apply NX) ltac:(apply NX) ltac:(lia)) as [NQ _].
  apply shr1_num. apply add_num; [done|done|].
  pose proof (Z.div_mod N X ltac:(lia)). pose proof (Z.mod_pos_bound N X ltac:(lia)).
  assert (1 <= N / X) by (apply Z.div_le_lower_bound; lia). nia.
Qed.

Lemma mpSqrt_ok n k N : is_num n k N -> N + 1 < Bpow k ->
  exists s, mpSqrt n = Some s /\ is_num s k (Z.sqrt N).
Proof.
  intros NN HN. pose proof (is_num_range _ _ _ NN) as RN. unfold mpSqrt. rewrite (shortcmp_num _ _ _ 1 NN) by done.
  destruct (Z.leb_spec (Z.sgn (N - 1)) 0) as [L|L].
  { exists n. split; [done|]. assert (N = 0 \/ N = 1) as [->| ->] by lia; done. }
  pose proof (Z.sqrt_spec N ltac:(lia)) as SQ. set (r := Z.sqrt N) in *. unfold Z.succ in SQ.
  assert (0 < r) as Pr by (unfold r; apply Z.sqrt_pos; lia). assert (r <= N) as Lr by nia.
  destruct (while_ok (fun x => exists X, is_num x k X /\ r <= X <= N) (fun x => halvings (val x - r))
              (fun x => mpCompare (sqrt_next n x) x <? 0) (fun x => Some (sqrt_next n x)))
    with (fuel := (nbits (length n) + 2)%nat) (s := n) as (s & E & (X & NX & RX) & C).
  - intros s (X & NX & RX) C. pose proof (sqrt_next_ok _ _ _ _ _ NN NX ltac:(lia) HN) as NY.
    rewrite (compare_num _ _ _ _ _ NY NX) in C. to_prop.
    destruct (sqrt_newton N X r SQ Pr ltac:(lia)) as (L1 & L2 & _).
    eexists. split; [reflexivity|]. split; [exists ((X + N / X) / 2); split; [done|lia]|].
    destruct NY as (_ & _ & ->), NX as (_ & _ & ->). apply halvings_lt; lia.
  - exists N. split; [done|lia].
  - assert (halvings (val n - r) <= nbits (length n))%nat; [|lia].
    apply halvings_le. rewrite <- Bpow_nbits. destruct NN as (-> & _ & ->). lia.
  - exists s. split; [done|]. pose proof (sqrt_next_ok _ _ _ _ _ NN NX ltac:(lia) HN) as NY.
    rewrite (compare_num _ _ _ _ _ NY NX) in C. to_prop.
    destruct (sqrt_newton N X r SQ Pr ltac:(lia)) as (_ & _ & L3). rewrite <- L3; [done|lia].
Qed.

(** The cube root of a number: its floor. *)
Definition is_cbrt (N r : Z) : Prop := 0 <= r /\ r * r * r <= N < (r + 1) * (r + 1) * (r + 1).

Lemma cbrt_newton N X r q : 0 < r -> r <= X -> r * r * r <= N < (r + 1) * (r + 1) * (r + 1) -> q = N / (X * X) ->
  r <= (2 * X + q) / 3 /\ ((2 * X + q) / 3 < X -> 3 * ((2 * X + q) / 3 - r) <= 2 * (X - r)) /\
  (X <= (2 * X + q) / 3 -> X = r).
Proof.
  intros Hr HX HN Eq. assert (0 < X * X) as PX by nia.
  pose proof (Z.div_mod N (X * X) ltac:(lia)) as D. pose proof (Z.mod_pos_bound N (X * X) PX) as R. rewrite <- Eq in D.
  set (m := N mod (X * X)) in *. clearbody m.
  assert (3 * r - 2 * X <= q) as L1.
  { assert ((3 * r - 2 * X) * (X * X) <= N).
    { assert (0 <= (X - r) * (X - r) * (2 * X + r)) by (apply Z.mul_nonneg_nonneg; nia).
      replace ((3 * r - 2 * X) * (X * X)) with (r * r * r - (X - r) * (X - r) * (2 * X + r)) by ring. lia. }
    destruct (Z_le_gt_dec (3 * r - 2 * X) q); [done|]. exfalso.
    assert ((q + 1) * (X * X) <= (3 * r - 2 * X) * (X * X)) by (apply Z.mul_le_mono_nonneg_r; lia). lia. }
  assert (X = r \/ q <= r) as L2.
  { destruct (Z.eq_dec X r); [by left|right]. destruct (Z_le_gt_dec q r); [done|]. exfalso.
    assert ((r + 1) * (X * X) <= q * (X * X)) by (apply Z.mul_le_mono_nonneg_r; lia).
    assert ((r + 1) * (r + 1) <= X * X) by nia.
    assert ((r + 1) * ((r + 1) * (r + 1)) <= (r + 1) * (X * X)) by (apply Z.mul_le_mono_nonneg_l; lia). lia. }
  pose proof (Z.div_mod (2 * X + q) 3 ltac:(lia)) as D2. pose proof (Z.mod_pos_bound (2 * X + q) 3 ltac:(lia)) as R2.
  set (y := (2 * X + q) / 3) in *. clearbody y.
  split; [lia|]. split; [destruct L2; [subst; lia|lia]|]. intros G.
  destruct L2 as [|L2]; [done|]. lia.
Qed.

Lemma cbrt_next_ok n x k N X : is_num n k N -> is_num x k X -> 0 < X <= N -> 2 * N + 1 < Bpow k ->
  is_num (cbrt_next n x) k ((2 * X + N / (X * X)) / 3).
Proof.
  intros NN NX HX HN. unfold cbrt_next.
  destruct (div_ok n x k N X NN ltac:(apply NX) ltac:(apply NX) ltac:(lia)) as [NQ _].
  destruct (div_ok _ x k _ X NQ ltac:(apply NX) ltac:(apply NX) ltac:(lia)) as [NQ2 _].
  rewrite Z.div_div in NQ2 by lia. set (q := N / (X * X)) in *.
  assert (0 <= q) as P0 by (apply Z.div_pos; nia).
  assert (2 * X + q <= 2 * N + 1) as B.
  { pose proof (Z.div_mod N (X * X) ltac:(nia)) as D. pose proof (Z.mod_pos_bound N (X * X) ltac:(nia)). fold q in D.
    destruct (Z.eq_dec q 0); [nia|]. assert (X * q <= X * X * q) by nia. nia. }
  pose proof (add_num _ _ _ _ _ NQ2 NX ltac:(lia)) as NA.
  pose proof (add_num _ _ _ _ _ NA NX ltac:(lia)) as NB.
  set (y := (mpAdd (div_q (div_q n x) x) x).1) in *. destruct NB as (LB & DB & VB).
  assert ((mpAdd y x).1 <> []) as NE.
  { intros E. rewrite E in LB. cbn in LB. subst k. rewrite Bpow_0 in HN. lia. }
  pose proof (mpShortDiv_ok y (mpAdd y x).1 3 DB NE ltac:(lia)) as S.
  destruct (mpShortDiv y (mpAdd y x).1 3) as [w rm]. destruct S as (NW & _). cbn [fst].
  rewrite LB, VB in NW. apply (is_num_eq _ _ _ _ _ NW); [done|]. f_equal. lia.
Qed.

(** Two thirds shrink below one half in two steps. *)
Definition thirds (x : Z) : nat := if x <=? 0 then 0%nat else S (Z.to_nat (Z.log2 (x * x))).

Lemma thirds_lt x y : 0 < y -> 3 * x <= 2 * y -> (thirds x < thirds y)%nat.
Proof.
  intros Hy L. unfold thirds. destruct (Z.leb_spec y 0); [lia|]. destruct (Z.leb_spec x 0); [lia|].
  assert (2 * (x * x) <= y * y) by nia.
  assert (Z.log2 (2 * (x * x)) <= Z.log2 (y * y)) as G by (by apply Z.log2_le_mono).
  rewrite Z.log2_double in G by nia. pose proof (Z.log2_nonneg (x * x)). lia.
Qed.

Lemma mpCubeRoot_ok n k N r : is_num n k N -> 2 * N + 1 < Bpow k -> is_cbrt N r ->
  exists s, mpCubeRoot n = Some s /\ is_num s k r.
Proof.
  intros NN HN [Hr CB]. pose proof (is_num_range _ _ _ NN) as RN. unfold mpCubeRoot. rewrite (shortcmp_num _ _ _ 1 NN) by done.
  destruct (Z.leb_spec (Z.sgn (N - 1)) 0) as [L|L].
  { exists n. split; [done|]. apply (is_num_eq _ _ _ _ _ NN); [done|].
    assert (N = 0 \/ N = 1) as [->| ->] by lia; nia. }
  assert (0 < r) as Pr by nia. assert (r <= N) as Lr by nia.
  destruct (while_ok (fun x => exists X, is_num x k X /\ r <= X <= N) (fun x => thirds (val x - r))
              (fun x => mpCompare (cbrt_next n x) x <? 0) (fun x => Some (cbrt_next n x)))
    with (fuel := (2 * nbits (length n) + 2)%nat) (s := n) as (s & E & (X & NX & RX) & C).
  - intros s (X & NX & RX) C. pose proof (cbrt_next_ok _ _ _ _ _ NN NX ltac:(lia) HN) as NY.
    rewrite (compare_num _ _ _ _ _ NY NX) in C. to_prop.
    destruct (cbrt_newton N X r _ Pr ltac:(lia) CB eq_refl) as (L1 & L2 & _).
    set (y := (2 * X + N / (X * X)) / 3) in *.
    eexists. split; [reflexivity|]. split; [exists y; split; [done|lia]|].
    destruct NY as (_ & _ & ->), NX as (_ & _ & ->). apply thirds_lt; lia.
  - exists N. split; [done|lia].
  - assert (thirds (val n - r) <= 2 * nbits (length n))%nat; [|lia].
    destruct NN as (-> & _ & ->). unfold thirds. destruct (Z.leb_spec (N - r) 0); [lia|].
    assert (Z.log2 ((N - r) * (N - r)) < Z.of_nat (2 * nbits k)); [|pose proof (Z.log2_nonneg ((N - r) * (N - r))); lia].
    apply Z.log2_lt_pow2; [nia|]. replace (2 ^ Z.of_nat (2 * nbits k)) with (Bpow k * Bpow k); [nia|].
    rewrite Bpow_nbits, <- Z.pow_add_r by lia. f_equal. lia.
  - exists s. split; [done|]. pose proof (cbrt_next_ok _ _ _ _ _ NN NX ltac:(lia) HN) as NY.
    rewrite (compare_num _ _ _ _ _ NY NX) in C. to_prop.
    destruct (cbrt_newton N X r _ Pr ltac:(lia) CB eq_refl) as (_ & _ & L3). rewrite <- L3; [done|lia].
Qed.
