(* ===== verification/BigModExp.v ===== *)
(** * BigModExp: both exponentiations compute x^e mod m

    The left-to-right method and the sliding-window method of bigdigits.c are
    related to [Z.pow] through the prefix of the exponent read so far. *)

From stdpp Require Import base list numbers option.
From S2P Require Import Prelude BigDigits BigDigitsProps BigArith BigShift BigDivide BigSquare BigMod BigModProps.
Local Open Scope Z_scope.

(** ** Bits of a digit array *)

Lemma nth_val e i : digits e -> nth i e 0 = (val e / Bpow i) mod 2 ^ 32.
Proof.
  intros He. pose proof (Bpow_pos i) as P.
  destruct (le_lt_dec (length e) i) as [L|L].
  - rewrite nth_overflow by lia. pose proof (val_range e He) as R.
    rewrite Z.div_small; [done|]. split; [lia|].
    assert (Bpow (length e) <= Bpow i) by (unfold Bpow; apply Z.pow_le_mono_r; lia). lia.
  - destruct (nth_lookup_or_length e i 0) as [E|]; [|lia].
    pose proof (val_range (take i e) ltac:(by apply Forall_take)) as R. rewrite length_take, Nat.min_l in R by lia.
    rewrite (val_take_drop i e), Nat.min_l by lia. rewrite (drop_S _ _ _ E). cbn [val].
    rewrite Z.add_comm, Z.mul_comm, Z.div_add_l, (Z.div_small (val (take i e))), Z.add_0_r by lia.
    pose proof (digits_nth e i He) as D. red in D.
    rewrite (Z.mul_comm (2 ^ 32)), Z.mod_add, Z.mod_small by lia. done.
Qed.

(** [p] points at bit [i]. *)
Definition bitpos (p : Z * nat) (i : Z) : Prop :=
  exists k, 0 <= k < 32 /\ p.1 = 2 ^ k /\ i = 32 * (Z.of_nat p.2 - 1) + k.

Lemma bitpos_zero p i : bitpos p i -> (p.2 =? 0)%nat = (i <? 0).
Proof. intros (k & Hk & _ & ->). destruct (Nat.eqb_spec p.2 0), (Z.ltb_spec (32 * (Z.of_nat p.2 - 1) + k) 0); done || lia. Qed.

Lemma bitpos_next p i : bitpos p i -> -32 < i -> bitpos (mpNEXTBITMASK p) (i - 1).
Proof.
  intros (k & Hk & E & ->) L. unfold mpNEXTBITMASK. rewrite E.
  destruct (Z.eqb_spec (2 ^ k) 1) as [E1|E1].
  - assert (k = 0) as -> by (destruct (Z.eq_dec k 0); [done|]; assert (2 ^ 1 <= 2 ^ k) by (apply Z.pow_le_mono_r; lia); lia).
    exists 31. cbn [fst snd]. split; [lia|]. split; [done|]. lia.
  - assert (k <> 0) as N0 by (intros ->; done). exists (k - 1). cbn [fst snd]. split; [lia|]. split; [|lia].
    rewrite Z.shiftr_div_pow2 by lia. replace (2 ^ k) with (2 ^ (k - 1) * 2 ^ 1) by (rewrite <- Z.pow_add_r by lia; f_equal; lia).
    apply Z.div_mul. lia.
Qed.

Lemma bit_set_ok e p i : digits e -> bitpos p i -> 0 <= i -> bit_set e p = Z.testbit (val e) i.
Proof.
  intros He (k & Hk & E & ->) Hi. unfold bit_set. rewrite E, land_pow2 by lia.
  rewrite nth_val by done. rewrite Z.mod_pow2_bits_low by lia. unfold Bpow.
  rewrite <- Z.shiftr_div_pow2, Z.shiftr_spec by lia.
  replace (k + 32 * Z.of_nat (p.2 - 1)) with (32 * (Z.of_nat p.2 - 1) + k) by lia.
  destruct (Z.testbit _ _); [|done]. destruct (Z.eqb_spec (2 ^ k) 0); [lia|done].
Qed.

Lemma first_bit_ok e : digits e -> 0 < val e -> bitpos (first_bit e) (Z.log2 (val e)).
Proof.
  intros He P. assert (mpSizeof e <> 0%nat) as N by (intros E; apply mpSizeof_zero in E; [lia|done]).
  destruct (top_digit e He N) as (EV & RT & RL). unfold first_bit, bitpos. cbn [fst snd].
  set (top := nth (mpSizeof e - 1) e 0) in *. set (n := mpSizeof e) in *.
  pose proof (lead_zeros_ok 32 top ltac:(simpl; lia)) as LZ. change (2 ^ (Z.of_nat 32 - 1)) with HIBITMASK in LZ.
  pose proof (Z.log2_nonneg top). assert (Z.log2 top < 32) by (apply Z.log2_lt_pow2; lia).
  exists (Z.log2 top). split; [lia|]. split.
  - rewrite LZ, Z.shiftr_div_pow2 by lia. unfold HIBITMASK. change 0x80000000 with (2 ^ 31).
    replace (2 ^ 31) with (2 ^ Z.log2 top * 2 ^ (Z.of_nat 32 - 1 - Z.log2 top)) by (rewrite <- Z.pow_add_r by lia; f_equal; lia).
    apply Z.div_mul. apply Z.pow_nonzero; lia.
  - pose proof (Z.log2_spec top ltac:(lia)) as [L1 L2].
    apply Z.log2_unique; [lia|]. rewrite EV. unfold Bpow in *.
    replace (32 * (Z.of_nat n - 1)) with (32 * Z.of_nat (n - 1)) by lia.
    rewrite Z.pow_succ_r, Z.pow_add_r by lia. rewrite Z.pow_succ_r in L2 by lia.
    assert (0 < 2 ^ (32 * Z.of_nat (n - 1))) by (apply Z.pow_pos_nonneg; lia). nia.
Qed.

(** Reading one more bit of an exponent. *)
Lemma next_bit E i : 0 <= i -> E / 2 ^ i = 2 * (E / 2 ^ (i + 1)) + Z.b2z (Z.testbit E i).
Proof.
  intros Hi. rewrite Z.testbit_spec' by done. rewrite Z.pow_add_r, <- Z.div_div by lia.
  change (2 ^ 1) with 2. apply Z.div_mod. lia.
Qed.

(** ** Powers modulo M *)

Lemma mod_mul_cong a b c d M : M <> 0 -> a mod M = b mod M -> c mod M = d mod M -> (a * c) mod M = (b * d) mod M.
Proof. intros HM E1 E2. rewrite Z.mul_mod, E1, E2, <- Z.mul_mod by done. done. Qed.

Section Power.
Variables (m : list Z) (n : nat) (M : Z).
Hypothesis Hm : is_num m n M.
Hypothesis HM : M <> 0.

(** [y] holds G^k modulo M, reduced unless it is the base itself. *)
Definition holds_pow (G : Z) (y : list Z) (k : Z) : Prop :=
  exists Y, is_num y n Y /\ Y mod M = G ^ k mod M /\ (2 <= k -> Y < M).

Lemma holds_square G y k : 0 < k -> holds_pow G y k -> holds_pow G (mpMODSQUARETEMP y m) (2 * k).
Proof.
  intros Hk (Y & N & E & _). exists ((Y * Y) mod M).
  split; [by apply (mpMODSQUARETEMP_ok m n M Hm HM)|].
  pose proof (is_num_range _ _ _ Hm). split; [|intros _; apply Z.mod_pos_bound; lia].
  rewrite Z.mod_mod by done. replace (2 * k) with (k + k) by lia. rewrite Z.pow_add_r by lia.
  by apply mod_mul_cong.
Qed.

Lemma holds_mult G y k x l : 0 < k -> 0 < l -> holds_pow G y k -> holds_pow G x l ->
  holds_pow G (mpMODMULTTEMP y x m) (k + l).
Proof.
  intros Hk Hl (Y & N & E & _) (X & NX & EX & _). exists ((X * Y) mod M).
  split; [by apply (mpMODMULTTEMP_ok m n M Hm HM)|].
  pose proof (is_num_range _ _ _ Hm). split; [|intros _; apply Z.mod_pos_bound; lia].
  rewrite Z.mod_mod by done. rewrite Z.add_comm, Z.pow_add_r by lia. by apply mod_mul_cong.
Qed.

Lemma holds_base G g : is_num g n G -> holds_pow G g 1.
Proof. intros N. exists G. split; [done|]. rewrite Z.pow_1_r. split; [done|lia]. Qed.

Lemma holds_result G y k : 2 <= k -> holds_pow G y k -> is_num y n (G ^ k mod M).
Proof.
  intros Hk (Y & N & E & L). pose proof (is_num_range _ _ _ N). apply (is_num_eq _ _ _ _ _ N); [done|].
  rewrite <- E. symmetry. apply Z.mod_small. specialize (L Hk). lia.
Qed.

(** ** Left-to-right binary method *)

Lemma mpModExp_1_ok x e X E : is_num x n X -> digits e -> val e = E -> 2 <= E ->
  exists y, mpModExp_1 x e m = Some y /\ is_num y n (X ^ E mod M).
Proof.
  intros NX He EE HE. unfold mpModExp_1.
  assert (mpSizeof e <> 0%nat) as NS by (intros C; apply mpSizeof_zero in C; [lia|done]).
  destruct (mpSizeof e) as [|sz] eqn:ES; [done|]. clear ES NS.
  pose proof (first_bit_ok e He ltac:(lia)) as FB. rewrite EE in FB.
  pose proof (Z.log2_pos E ltac:(lia)) as LP. pose proof (Z.log2_spec E ltac:(lia)) as LS.
  destruct (while_ok (fun s => exists i, bitpos s.1 i /\ -1 <= i < Z.log2 E /\ holds_pow X s.2 (E / 2 ^ (i + 1)))
              (fun s => Z.to_nat (32 * (Z.of_nat s.1.2 - 1) + Z.log2 s.1.1 + 1))
              (fun s => negb (s.1.2 =? 0)%nat) (fun s => Some (modexp_step x e m s)))
    with (fuel := (nbits (length e) + 1)%nat) (s := (mpNEXTBITMASK (first_bit e), x))
    as ([p y] & -> & (i & BP & Ri & HP) & C).
  - intros [p y] (i & BP & Ri & HP) C. cbn [fst snd] in *. rewrite (bitpos_zero p i BP) in C. to_prop.
    pose proof (bitpos_next p i BP ltac:(lia)) as BN.
    eexists. split; [reflexivity|]. unfold modexp_step. split.
    + exists (i - 1). cbn [fst snd]. split; [done|]. split; [lia|]. replace (i - 1 + 1) with i by lia.
      rewrite (bit_set_ok e p i He BP ltac:(lia)), EE, (next_bit E i) by lia.
      assert (0 < E / 2 ^ (i + 1)) as PE.
      { apply Z.div_str_pos. split; [apply Z.pow_pos_nonneg; lia|].
        apply Z.le_trans with (2 ^ Z.log2 E); [apply Z.pow_le_mono_r; lia|lia]. }
      destruct (Z.testbit E i); cbn [Z.b2z].
      * apply holds_mult; [lia|lia|by apply holds_square|by apply holds_base].
      * rewrite Z.add_0_r. by apply holds_square.
    + cbn [fst snd]. destruct BP as (k & Hk & E1 & Ei), BN as (k' & Hk' & E1' & Ei').
      rewrite E1, E1', !Z.log2_pow2 by lia. lia.
  - exists (Z.log2 E - 1). cbn [fst snd]. split; [apply bitpos_next; [done|lia]|]. split; [lia|].
    replace (Z.log2 E - 1 + 1) with (Z.log2 E) by lia.
    assert (E / 2 ^ Z.log2 E = 1) as ->; [|by apply holds_base].
    symmetry. apply Z.div_unique with (E - 2 ^ Z.log2 E); [left|lia]. rewrite Z.pow_succ_r in LS by lia. lia.
  - cbn [fst snd]. pose proof (bitpos_next _ _ FB ltac:(lia)) as (k & Hk & E1 & Ei). rewrite E1, Z.log2_pow2 by lia.
    assert (Z.log2 E < Z.of_nat (nbits (length e))); [|lia].
    apply Z.log2_lt_pow2; [lia|]. rewrite <- Bpow_nbits, <- EE. by apply val_range.
  - cbn [fst snd] in *. rewrite (bitpos_zero p i BP) in C. apply negb_false_iff in C. to_prop.
    exists y. split; [done|]. replace (i + 1) with 0 in HP by lia. rewrite Z.pow_0_r, Z.div_1_r in HP.
    by apply holds_result.
Qed.

(** ** The table of odd powers *)

Lemma gtable_loop_ok G g2 : holds_pow G g2 2 -> forall cnt last j, 0 <= j -> holds_pow G last (2 * j + 1) ->
  forall i, (i < cnt)%nat -> holds_pow G (nth i (gtable_loop cnt last g2 m) []) (2 * (j + 1 + Z.of_nat i) + 1).
Proof.
  intros H2. induction cnt as [|cnt IH]; intros last j Hj HL i Hi; [lia|]. cbn [gtable_loop].
  assert (holds_pow G (mpMODMULTTEMP last g2 m) (2 * (j + 1) + 1)) as HN.
  { replace (2 * (j + 1) + 1) with ((2 * j + 1) + 2) by lia. apply holds_mult; (done || lia). }
  destruct i as [|i]; cbn [nth].
  - by replace (2 * (j + 1 + Z.of_nat 0) + 1) with (2 * (j + 1) + 1) by lia.
  - replace (2 * (j + 1 + Z.of_nat (S i)) + 1) with (2 * ((j + 1) + 1 + Z.of_nat i) + 1) by lia.
    apply IH; [lia|done|lia].
Qed.

Lemma gtable_ok G g cnt i : is_num g n G -> (i < S cnt)%nat ->
  holds_pow G (nth i (g :: gtable_loop cnt g (mpModMult g g m) m) []) (2 * Z.of_nat i + 1).
Proof.
  intros N Hi. pose proof (holds_base G g N) as H1. destruct i as [|i]; [done|]. cbn [nth].
  assert (holds_pow G (mpModMult g g m) 2) as H2.
  { exists ((G * G) mod M). split; [by apply (mpModMult_ok m n M Hm HM)|].
    pose proof (is_num_range _ _ _ Hm). split; [|intros _; apply Z.mod_pos_bound; lia].
    rewrite Z.mod_mod by done. by rewrite Z.pow_2_r. }
  pose proof (gtable_loop_ok G _ H2 cnt g 0 ltac:(lia) H1 i ltac:(lia)) as H.
  by replace (2 * Z.of_nat (S i) + 1) with (2 * (0 + 1 + Z.of_nat i) + 1) by lia.
Qed.
End Power.

(** ** The look-ahead buffer *)

(** The [c] bits below position [i], zeros past the end. *)
Fixpoint bits_below (E : Z) (c : nat) (i : Z) : Z :=
  match c with
  | O => 0
  | S c => (if i - 1 <? 0 then 0 else Z.b2z (Z.testbit E (i - 1))) * 2 ^ Z.of_nat c + bits_below E c (i - 1)
  end.

Lemma shl_lor b : Z.shiftl b 1 = 2 * b /\ Z.lor (Z.shiftl b 1) 1 = 2 * b + 1.
Proof.
  rewrite Z.shiftl_mul_pow2 by lia. split; [lia|]. rewrite lor_add by lia. lia.
Qed.

Lemma lookahead_ok e : digits e -> forall c p i b, bitpos p i -> -32 < i - Z.of_nat c ->
  lookahead c e p b = b * 2 ^ Z.of_nat c + bits_below (val e) c i.
Proof.
  intros He. induction c as [|c IH]; intros p i b BP L; cbn [lookahead bits_below].
  - rewrite Z.pow_0_r. lia.
  - pose proof (bitpos_next p i BP ltac:(lia)) as BN. rewrite (IH _ (i - 1) _ BN) by lia.
    rewrite (bitpos_zero _ _ BN). destruct (shl_lor b) as [E1 E2].
    rewrite Nat2Z.inj_succ, Z.pow_succ_r by lia.
    destruct (Z.ltb_spec (i - 1) 0); cbn [negb andb]; [rewrite E1; ring|].
    rewrite (bit_set_ok e _ (i - 1) He BN) by lia.
    destruct (Z.testbit (val e) (i - 1)); cbn [Z.b2z]; [rewrite E2|rewrite E1]; ring.
Qed.

Lemma bits_below_range E c : forall i, 0 <= bits_below E c i < 2 ^ Z.of_nat c.
Proof.
  induction c as [|c IH]; intros i; cbn [bits_below]; [done|].
  specialize (IH (i - 1)). rewrite Nat2Z.inj_succ, Z.pow_succ_r by lia.
  destruct (i - 1 <? 0); [lia|]. destruct (Z.testbit E (i - 1)); cbn [Z.b2z]; lia.
Qed.

Lemma bits_below_spec E c : forall i, 0 <= i ->
  exists rem, (E mod 2 ^ i) * 2 ^ Z.of_nat c = bits_below E c i * 2 ^ i + rem /\ 0 <= rem < 2 ^ i.
Proof.
  induction c as [|c IH]; intros i Hi; cbn [bits_below].
  - exists (E mod 2 ^ i). rewrite Z.pow_0_r. split; [lia|]. apply Z.mod_pos_bound. apply Z.pow_pos_nonneg; lia.
  - destruct (Z.ltb_spec (i - 1) 0) as [L|L].
    + assert (i = 0) as -> by lia. exists 0. rewrite Z.pow_0_r, Z.mod_1_r.
      assert (forall c j, j < 0 -> bits_below E c j = 0) as Z0.
      { clear. induction c as [|c IH]; intros j Hj; cbn [bits_below]; [done|].
        destruct (Z.ltb_spec (j - 1) 0); [|lia]. rewrite IH by lia. lia. }
      rewrite Z0 by lia. lia.
    + destruct (IH (i - 1) L) as (rem & Er & Rr). exists (2 * rem).
      assert (2 ^ i = 2 * 2 ^ (i - 1)) as EP by (rewrite <- Z.pow_succ_r by lia; f_equal; lia).
      assert (E mod 2 ^ i = Z.b2z (Z.testbit E (i - 1)) * 2 ^ (i - 1) + E mod 2 ^ (i - 1)) as EM.
      { rewrite Z.testbit_spec' by lia. rewrite EP, (Z.mul_comm 2), Z.rem_mul_r by lia. lia. }
      rewrite EM, Nat2Z.inj_succ, Z.pow_succ_r, EP by lia. split; [|lia].
      set (F := bits_below E c (i - 1)) in *. set (t := Z.b2z _) in *.
      replace ((t * 2 ^ (i - 1) + E mod 2 ^ (i - 1)) * (2 * 2 ^ Z.of_nat c))
        with (t * 2 ^ Z.of_nat c * (2 * 2 ^ (i - 1)) + 2 * (E mod 2 ^ (i - 1) * 2 ^ Z.of_nat c)) by ring.
      rewrite Er. ring.
Qed.

Lemma ISODD_odd x : ISODD x = Z.odd x.
Proof.
  unfold ISODD. change 1 with (2 ^ 0). rewrite land_pow2, Z.bit0_odd by lia. by destruct (Z.odd x).
Qed.

Lemma trim_window_ok : forall c buf, 2 ^ Z.of_nat c <= buf < 2 * 2 ^ Z.of_nat c ->
  let '(l, b) := trim_window c buf in
  (l <= c)%nat /\ buf = b * 2 ^ (Z.of_nat c - Z.of_nat l) /\ Z.odd b = true /\ 2 ^ Z.of_nat l <= b < 2 * 2 ^ Z.of_nat l.
Proof.
  induction c as [|c IH]; intros buf R; cbn [trim_window].
  - rewrite Z.pow_0_r in R. assert (buf = 1) as -> by lia. rewrite Z.sub_diag. done.
  - rewrite ISODD_odd. destruct (Z.odd buf) eqn:O.
    + rewrite Z.sub_diag, Z.pow_0_r. split; [lia|]. split; [lia|]. done.
    + rewrite Nat2Z.inj_succ, Z.pow_succ_r in R by lia.
      assert (buf = 2 * (buf / 2)) as E by (apply even_half; rewrite <- Z.negb_odd, O; done).
      rewrite Z.shiftr_div_pow2, Z.pow_1_r by lia.
      specialize (IH (buf / 2) ltac:(lia)). destruct (trim_window c (buf / 2)) as [l b].
      destruct IH as (L & EB & OB & RB). split; [lia|]. split; [|done].
      rewrite E, EB, Nat2Z.inj_succ. unfold Z.succ.
      replace (Z.of_nat c + 1 - Z.of_nat l) with (1 + (Z.of_nat c - Z.of_nat l)) by lia.
      rewrite Z.pow_add_r by lia. ring.
Qed.

Lemma not_half_way T h P rem : 0 <= rem < P -> T * (2 * P) = h * (2 * P) + P + rem -> False.
Proof.
  intros R E. assert ((T - h) * (2 * P) = P + rem) as E' by lia.
  destruct (Z_le_gt_dec (T - h) 0); nia.
Qed.

Lemma scaled_rem T b Q C rem P : 0 < C -> 0 <= rem < P -> P <= C * Q -> T * C = b * Q * C + rem -> 0 <= T - b * Q < Q.
Proof. intros PC R L E. assert ((T - b * Q) * C = rem) as E' by lia. set (d := T - b * Q) in *. clearbody d. nia. Qed.

(** The window read at bit i, which is set: it ends inside the exponent and its
    value completes the prefix read so far. *)
Lemma window_ok e i p c : digits e -> bitpos p i -> 0 <= i -> (c < 32)%nat -> Z.testbit (val e) i = true ->
  let '(l, b) := trim_window c (lookahead c e p 1) in
  Z.of_nat l <= i /\ (l <= c)%nat /\ Z.odd b = true /\ 0 < b < 2 * 2 ^ Z.of_nat l /\
  val e / 2 ^ (i - Z.of_nat l) = val e / 2 ^ (i + 1) * 2 ^ (Z.of_nat l + 1) + b.
Proof.
  intros He BP Hi Hc HT. rewrite (lookahead_ok e He c p i 1 BP) by lia. rewrite Z.mul_1_l.
  set (E := val e) in *. pose proof (bits_below_range E c i) as RF.
  destruct (bits_below_spec E c i Hi) as (rem & Er & Rr). set (F := bits_below E c i) in *.
  pose proof (trim_window_ok c (2 ^ Z.of_nat c + F) ltac:(lia)) as T.
  destruct (trim_window c (2 ^ Z.of_nat c + F)) as [l b]. destruct T as (L & EB & OB & RB).
  set (X0 := E / 2 ^ (i + 1)).
  assert (E = X0 * (2 * 2 ^ i) + 2 ^ i + E mod 2 ^ i) as EE.
  { pose proof (Z.div_mod E (2 ^ i) ltac:(apply Z.pow_nonzero; lia)) as D. rewrite (next_bit E i Hi), HT in D. fold X0 in D.
    cbn [Z.b2z] in D. lia. }
  set (z := Z.of_nat c - Z.of_nat l) in *.
  assert ((2 ^ i + E mod 2 ^ i) * 2 ^ Z.of_nat c = b * 2 ^ z * 2 ^ i + rem) as ET by (rewrite <- EB; lia).
  assert (Z.of_nat l <= i) as Li.
  { destruct (Z_le_gt_dec (Z.of_nat l) i) as [|G]; [done|exfalso].
    assert (2 ^ Z.of_nat c = 2 ^ (Z.of_nat l - i - 1) * (2 * (2 ^ z * 2 ^ i))) as EC.
    { rewrite <- Z.pow_add_r, <- Z.pow_succ_r, <- Z.pow_add_r by (unfold z; lia). f_equal. unfold z. lia. }
    assert (2 ^ i <= 2 ^ z * 2 ^ i) as LZ.
    { assert (1 <= 2 ^ z) by (apply (Z.pow_le_mono_r 2 0 z); unfold z; lia). nia. }
    apply Z.odd_spec in OB as [h ->]. rewrite EC in ET.
    set (P := 2 ^ z * 2 ^ i) in *. set (T := (2 ^ i + E mod 2 ^ i) * 2 ^ (Z.of_nat l - i - 1)).
    assert (T * (2 * P) = h * (2 * P) + P + rem) as E2 by (unfold T, P in *; lia).
    apply (not_half_way T h P rem); [lia|done]. }
  split; [done|]. split; [done|]. split; [done|]. split; [lia|].
  assert (2 ^ z * 2 ^ i = 2 ^ Z.of_nat c * 2 ^ (i - Z.of_nat l)) as EP.
  { rewrite <- !Z.pow_add_r by (unfold z; lia). f_equal. unfold z. lia. }
  assert (2 ^ (Z.of_nat l + 1) * 2 ^ (i - Z.of_nat l) = 2 * 2 ^ i) as EQ.
  { rewrite <- Z.pow_add_r, <- Z.pow_succ_r by lia. f_equal. lia. }
  assert (2 ^ i <= 2 ^ Z.of_nat c * 2 ^ (i - Z.of_nat l)) as LP.
  { rewrite <- Z.pow_add_r by lia. apply Z.pow_le_mono_r; lia. }
  set (Q := 2 ^ (i - Z.of_nat l)) in *. set (C := 2 ^ Z.of_nat c) in *.
  assert (0 < C) by (apply Z.pow_pos_nonneg; lia). assert (0 < Q) by (apply Z.pow_pos_nonneg; lia).
  symmetry. apply Z.div_unique with (2 ^ i + E mod 2 ^ i - b * Q).
  - left. assert (b * 2 ^ z * 2 ^ i = b * Q * C) as E3 by (rewrite <- Z.mul_assoc, EP; ring).
    rewrite E3 in ET. by apply (scaled_rem _ b Q C rem (2 ^ i)).
  - rewrite EE at 1. rewrite Z.mul_add_distr_l.
    replace (Q * (X0 * 2 ^ (Z.of_nat l + 1))) with (X0 * (2 ^ (Z.of_nat l + 1) * Q)) by ring. rewrite EQ. lia.
Qed.

(** ** The sliding window *)

Section Window.
Variables (m : list Z) (n : nat) (M : Z) (G : Z) (e : list Z) (E : Z) (winlen : nat) (gtable : list (list Z)).
Hypothesis Hm : is_num m n M.
Hypothesis HM : M <> 0.
Hypothesis He : digits e.
Hypothesis HE : val e = E.
Hypothesis Hw : (2 <= winlen < 32)%nat.
Hypothesis Hg : forall i, (i < 2 ^ (winlen - 1))%nat -> holds_pow n M G (nth i gtable []) (2 * Z.of_nat i + 1).

(** [k] is the exponent that A stands for and [i] the next bit. *)
Definition win_inv (s : win_state) : Prop :=
  exists i k, bitpos (w_pos s) i /\ -1 <= i /\ 0 <= k /\ w_aisone s = (k =? 0) /\
    (0 < k -> holds_pow n M G (w_a s) k) /\
    if w_in s then
      1 <= Z.of_nat (w_lkalen s) <= i + 1 /\ (w_idx s < 2 ^ (winlen - 1))%nat /\
      k * 2 ^ Z.of_nat (w_lkalen s) + (2 * Z.of_nat (w_idx s) + 1) = E / 2 ^ (i + 1 - Z.of_nat (w_lkalen s))
    else k = E / 2 ^ (i + 1).

(** The squaring at the head of each turn doubles the exponent. *)
Lemma win_square a aisone k : 0 <= k -> aisone = (k =? 0) -> (0 < k -> holds_pow n M G a k) ->
  aisone = (2 * k =? 0) /\ (0 < 2 * k -> holds_pow n M G (if aisone : bool then a else mpMODSQUARETEMP a m) (2 * k)).
Proof.
  intros Hk -> H. destruct (Z.eqb_spec k 0) as [->|N]; [split; [done|lia]|].
  split; [destruct (Z.eqb_spec (2 * k) 0); [lia|done]|]. intros _. apply (holds_square m n M Hm HM); [lia|]. apply H. lia.
Qed.

(** The multiplication at the end of a window adds the window's value. *)
Lemma win_mult a aisone k idx : 0 <= k -> aisone = (k =? 0) -> (0 < k -> holds_pow n M G a k) ->
  (idx < 2 ^ (winlen - 1))%nat ->
  holds_pow n M G (if aisone : bool then nth idx gtable [] else mpMODMULTTEMP a (nth idx gtable []) m)
    (k + (2 * Z.of_nat idx + 1)).
Proof.
  intros Hk -> H Hi. specialize (Hg idx Hi). destruct (Z.eqb_spec k 0) as [->|N]; [done|].
  apply (holds_mult m n M Hm HM); [lia|lia| |done]. apply H. lia.
Qed.

Lemma idx_bound b l : Z.odd b = true -> 0 < b < 2 * 2 ^ Z.of_nat l -> (l <= winlen - 1)%nat ->
  (Z.to_nat (Z.shiftr b 1) < 2 ^ (winlen - 1))%nat /\ 2 * Z.of_nat (Z.to_nat (Z.shiftr b 1)) + 1 = b.
Proof.
  intros O R L. rewrite Z.shiftr_div_pow2, Z.pow_1_r by lia. apply Z.odd_spec in O as [h ->].
  replace ((2 * h + 1) / 2) with h by (apply Z.div_unique with 1; lia). split; [|lia].
  assert (2 ^ Z.of_nat l <= 2 ^ Z.of_nat (winlen - 1)) by (apply Z.pow_le_mono_r; lia).
  apply Nat2Z.inj_lt. rewrite Nat2Z.inj_pow, Z2Nat.id by lia. change (Z.of_nat 2) with 2. lia.
Qed.

(** A turn that is inside a window with [l] more bits to go. *)
Lemma win_turn i k a aisone l idx p : bitpos p i -> 0 <= i -> 0 <= k -> aisone = (k =? 0) ->
  (0 < k -> holds_pow n M G a k) -> Z.of_nat l <= i -> (idx < 2 ^ (winlen - 1))%nat ->
  k * 2 ^ Z.of_nat l + (2 * Z.of_nat idx + 1) = E / 2 ^ (i - Z.of_nat l) ->
  let p' := mpNEXTBITMASK p in
  win_inv (if (l <? 1)%nat then
             if aisone : bool then WinState p' (nth idx gtable []) false false 0 idx
             else WinState p' (mpMODMULTTEMP a (nth idx gtable []) m) false false 0 idx
           else WinState p' a aisone true l idx).
Proof.
  intros BP Hi Hk HA HP Hl Hidx EQ p'. pose proof (bitpos_next p i BP ltac:(lia)) as BN.
  destruct (Nat.ltb_spec l 1) as [L|L].
  - assert (l = 0%nat) as -> by lia. rewrite Z.sub_0_r, Z.pow_0_r, Z.mul_1_r in EQ.
    pose proof (win_mult a aisone k idx Hk HA HP Hidx) as H.
    assert (win_inv (WinState p' (if aisone then nth idx gtable [] else mpMODMULTTEMP a (nth idx gtable []) m) false false 0 idx)) as W.
    { exists (i - 1), (k + (2 * Z.of_nat idx + 1)). cbn [w_pos w_aisone w_a w_in].
      split; [done|]. split; [lia|]. split; [lia|].
      split; [destruct (Z.eqb_spec (k + (2 * Z.of_nat idx + 1)) 0); [lia|done]|]. split; [done|].
      by replace (i - 1 + 1) with i by lia. }
    by destruct aisone.
  - exists (i - 1), k. cbn [w_pos w_aisone w_a w_in w_lkalen w_idx].
    split; [done|]. split; [lia|]. split; [lia|]. split; [done|]. split; [done|].
    split; [lia|]. split; [done|]. by replace (i - 1 + 1) with i by lia.
Qed.

Lemma win_step_ok s : win_inv s -> ((w_pos s).2 =? 0)%nat = false -> win_inv (win_step gtable e m winlen s).
Proof.
  intros (i & k & BP & Li & Hk & HA & HP & HI) C. rewrite (bitpos_zero _ _ BP) in C. to_prop.
  destruct (win_square (w_a s) (w_aisone s) k Hk HA HP) as [HA2 HP2].
  unfold win_step. set (a := if w_aisone s then w_a s else mpMODSQUARETEMP (w_a s) m) in *. clearbody a.
  destruct (w_in s); cbn [negb].
  - destruct HI as (HL & Hidx & EQ). cbn [andb].
    apply (win_turn i (2 * k)); try done; try lia.
    rewrite Nat2Z.inj_sub by lia. change (Z.of_nat 1) with 1.
    replace (i - (Z.of_nat (w_lkalen s) - 1)) with (i + 1 - Z.of_nat (w_lkalen s)) by lia. rewrite <- EQ.
    replace (2 ^ Z.of_nat (w_lkalen s)) with (2 * 2 ^ (Z.of_nat (w_lkalen s) - 1)) by (rewrite <- Z.pow_succ_r by lia; f_equal; lia). ring.
  - rewrite (bit_set_ok e _ i He BP) by lia. rewrite HE.
    destruct (Z.testbit E i) eqn:T.
    + pose proof (window_ok e i (w_pos s) (winlen - 1) He BP ltac:(lia) ltac:(lia)) as W. rewrite HE in W. specialize (W T).
      destruct (trim_window _ _) as [l b]. destruct W as (Ll & Lc & OB & RB & EW).
      destruct (idx_bound b l OB RB Lc) as [Hidx Eb]. cbn [andb].
      apply (win_turn i (2 * k)); try done; try lia.
      rewrite Eb, EW, <- HI, Z.pow_add_r by lia. ring.
    + cbn [andb]. exists (i - 1), (2 * k). cbn [w_pos w_aisone w_a w_in].
      split; [apply bitpos_next; [done|lia]|]. split; [lia|]. split; [lia|]. split; [done|]. split; [done|].
      replace (i - 1 + 1) with i by lia. rewrite (next_bit E i), T, HI by lia. cbn [Z.b2z]. lia.
Qed.

Lemma win_pos_step s : w_pos (win_step gtable e m winlen s) = mpNEXTBITMASK (w_pos s).
Proof.
  unfold win_step. destruct (if negb (w_in s) then _ else _) as [[inw l] idx].
  destruct (inw && (l <? 1)%nat); [by destruct (w_aisone s)|done].
Qed.

Lemma win_loop_ok a0 : 2 <= E ->
  exists s, while_ (nbits (length e) + 1) (fun s => negb ((w_pos s).2 =? 0)%nat)
              (fun s => Some (win_step gtable e m winlen s)) (WinState (first_bit e) a0 true false 0 0) = Some s /\
    w_in s = false /\ w_aisone s = false /\ is_num (w_a s) n (G ^ E mod M).
Proof.
  intros H2. pose proof (first_bit_ok e He ltac:(lia)) as FB. rewrite HE in FB.
  destruct (while_ok win_inv (fun s => Z.to_nat (32 * (Z.of_nat (w_pos s).2 - 1) + Z.log2 (w_pos s).1 + 1))
              (fun s => negb ((w_pos s).2 =? 0)%nat) (fun s => Some (win_step gtable e m winlen s)))
    with (fuel := (nbits (length e) + 1)%nat) (s := WinState (first_bit e) a0 true false 0 0)
    as (s & -> & (i & k & BP & Li & Hk & HA & HP & HI) & C).
  - intros s HI C. apply negb_true_iff in C. eexists. split; [reflexivity|]. split; [by apply win_step_ok|].
    destruct HI as (i & k & BP & Li & _). rewrite (bitpos_zero _ _ BP) in C. to_prop.
    rewrite win_pos_step. pose proof (bitpos_next _ _ BP ltac:(lia)) as (k2 & Hk2 & E2 & Ei2).
    destruct BP as (k1 & Hk1 & E1 & Ei). rewrite E1, E2, !Z.log2_pow2 by lia. lia.
  - exists (Z.log2 E), 0. cbn [w_pos w_aisone w_a w_in]. split; [done|]. pose proof (Z.log2_nonneg E).
    split; [lia|]. split; [lia|]. split; [done|]. split; [lia|].
    pose proof (Z.log2_spec E ltac:(lia)) as LS. symmetry. apply Z.div_small. unfold Z.succ in LS. lia.
  - cbn [w_pos]. destruct FB as (k & Hk & E1 & Ei). rewrite E1, Z.log2_pow2 by lia.
    assert (Z.log2 E < Z.of_nat (nbits (length e))); [|lia].
    apply Z.log2_lt_pow2; [lia|]. rewrite <- Bpow_nbits, <- HE. by apply val_range.
  - exists s. split; [done|]. rewrite (bitpos_zero _ _ BP) in C. apply negb_false_iff in C. to_prop.
    destruct (w_in s); [lia|]. split; [done|]. replace (i + 1) with 0 in HI by lia.
    rewrite Z.pow_0_r, Z.div_1_r in HI. subst k. split; [destruct (Z.eqb_spec E 0); [lia|done]|].
    apply holds_result; [done|]. apply HP. lia.
Qed.
End Window.

(** ** mpModExp *)

Lemma winlen_loop_le tbl nb : forall w, (winlen_loop tbl nb w <= w + length tbl)%nat.
Proof. induction tbl as [|t tbl IH]; intros w; cbn [winlen_loop length]; [lia|]. destruct (_ <? _)%nat; [lia|]. specialize (IH (S w)). lia. Qed.

(** The power, except that anything to the zero is 1 even modulo 1. *)
Definition modexp_value (X E M : Z) : Z := if E =? 0 then 1 else X ^ E mod M.

Lemma mpModExp_ok x e m n X E M : is_num x n X -> is_num e n E -> is_num m n M -> 0 < M ->
  exists y rc, mpModExp x e m = Some (y, rc) /\ is_num y n (modexp_value X E M).
Proof.
  intros NX NE NM HM. unfold mpModExp, mpModExp_windowed, modexp_value. destruct NE as (LE & DE & VE).
  pose proof (mpBitLength_ok e DE) as BL. rewrite VE in BL.
  pose proof (is_num_range _ _ _ NM) as RM. assert (n <> 0%nat) as Hn by (intros ->; rewrite Bpow_0 in RM; lia).
  pose proof (val_nonneg e DE) as PE. rewrite VE in PE.
  destruct (Z.eqb_spec E 0) as [E0|N0].
  { assert (mpBitLength e = 0%nat) as -> by lia. eexists _, _. split; [reflexivity|].
    destruct NX as (-> & _). apply mpSetDigit_ok; done. }
  destruct (Nat.eqb_spec (mpBitLength e) 0) as [B0|B0]; [pose proof (Z.log2_nonneg E); lia|].
  destruct (Nat.eqb_spec (mpBitLength e) 1) as [B1|B1].
  { assert (E = 1) as ->.
    { assert (Z.log2 E = 0) as L0 by lia. apply Z.log2_null in L0. lia. }
    eexists _, _. split; [reflexivity|]. rewrite Z.pow_1_r. apply (mpModulo_ok _ _ n n); (done || lia). }
  assert (2 <= E) as H2.
  { destruct (Z_le_gt_dec 2 E); [done|]. assert (E = 1) as E1 by lia. rewrite E1 in BL. cbn in BL. lia. }
  pose proof (winlen_loop_le WindowLenTable (mpBitLength e) 0) as WL. change (length WindowLenTable) with 8%nat in WL.
  set (w := winlen_loop WindowLenTable (mpBitLength e) 0) in *. clearbody w.
  destruct (Nat.leb_spec w 1) as [LW|LW].
  { destruct (mpModExp_1_ok m n M NM ltac:(lia) x e X E NX DE VE H2) as (y & -> & NY).
    cbn [mbind option_bind]. eauto. }
  destruct (win_loop_ok m n M X e E w (x :: gtable_loop (2 ^ (w - 1) - 1) x (mpModMult x x m) m) NM ltac:(lia) DE VE
              ltac:(lia)) with (a0 := replicate (length x) 0) as (s & -> & Hin & Hone & NR); [|done|].
  - intros i Hi. apply (gtable_ok m n M NM ltac:(lia) X x _ i NX). lia.
  - cbn [mbind option_bind]. rewrite Hin. eauto.
Qed.
