(* ===== verification/BigPrime.v ===== *)
(** * BigPrime: the primality tests of bigdigits.c

    The Rabin-Miller test never rejects a prime, whatever rand() returns; it
    ends when rand() is fair, except for 2; mpIsPrime decides primality exactly up to the
    largest prime of its table. *)

From Stdlib Require Import Zmod.ZmodInv ZArith.Zdivisibility.
From stdpp Require Import base list numbers option.
From S2P Require Import Prelude BigDigits BigDigitsProps BigArith BigShift BigMod BigModProps BigModExp.
Local Open Scope Z_scope.

(** ** Square roots of one modulo a prime *)

Lemma sqrt_one p z : Z.prime p -> 0 <= z < p -> (z * z) mod p = 1 -> z = 1 \/ z = p - 1.
Proof.
  intros P R E. pose proof (Z.prime_ge_2 p P).
  assert ((p | (z - 1) * (z + 1))) as D.
  { apply Z.mod_divide; [lia|]. replace ((z - 1) * (z + 1)) with (z * z - 1) by ring.
    rewrite Zminus_mod, E, (Z.mod_small 1) by lia. apply Z.mod_0_l. lia. }
  apply Z.divide_prime_mul in D as [D|D]; [| |done].
  - left. destruct (Z.eq_dec z 1); [done|]. destruct (Z.eq_dec z 0) as [->|].
    + rewrite Z.mul_0_l, Z.mod_0_l in E by lia. done.
    + apply Z.divide_pos_le in D; lia.
  - right. apply Z.divide_pos_le in D; lia.
Qed.

(** ** Splitting w - 1 = 2^a m *)

Lemma shortadd_num a n x d : is_num a n x -> n <> 0%nat -> is_digit d -> x + d < Bpow n ->
  is_num (mpShortAdd a d).1 n (x + d).
Proof.
  intros N NZ Hd L. pose proof (is_num_range _ _ _ N). destruct N as (LA & D & V).
  pose proof (mpShortAdd_ok a d ltac:(by destruct a) D Hd) as S. rewrite LA, V in S.
  destruct (mpShortAdd a d) as [w c]. destruct S as (C & N). cbn [fst]. pose proof (is_num_range _ _ _ N).
  red in Hd. assert (c = 0) by nia. subst c. apply (is_num_eq _ _ _ _ _ N); [done|lia].
Qed.

Lemma shortsub_num a n x d : is_num a n x -> is_digit d -> d <= x -> 0 < x -> is_num (mpShortSub a d).1 n (x - d).
Proof.
  intros N Hd L P. pose proof (is_num_range _ _ _ N) as R. destruct N as (LA & D & V).
  assert (a <> []) as NE by (intros ->; cbn in V; lia).
  pose proof (mpShortSub_ok a d NE D Hd) as S. rewrite LA, V in S.
  destruct (mpShortSub a d) as [w c]. destruct S as (C & N). cbn [fst]. pose proof (is_num_range _ _ _ N).
  red in Hd. assert (c = 0) by nia. subst c. apply (is_num_eq _ _ _ _ _ N); [done|lia].
Qed.

(** A count of halvings of a number below 2^(32 n) fits n digits. *)
Lemma count_fits n k x : 0 <= k -> 0 < x -> 2 ^ k * x < Bpow n -> k < Bpow n.
Proof. intros K P L. pose proof (Z.pow_gt_lin_r 2 k ltac:(lia) K). nia. Qed.

Lemma rm_split_ok w n X : is_num w n X -> 0 < X ->
  exists m a M A, rm_split w = Some (m, a) /\ is_num m n M /\ is_num a n A /\ 0 <= A /\ 0 < M /\
    X = 2 ^ A * M /\ Z.odd M = true.
Proof.
  intros N P. pose proof (is_num_range _ _ _ N) as RX. unfold rm_split.
  assert (n <> 0%nat) as NZ by (intros ->; rewrite Bpow_0 in RX; lia).
  destruct (while_ok (fun ma => exists M A, is_num ma.1 n M /\ is_num ma.2 n A /\ 0 <= A /\ 0 < M /\ X = 2 ^ A * M)
              (fun ma => halvings (val ma.1)) (fun ma => mpISEVEN ma.1)
              (fun ma => Some (shr1 ma.1, (mpShortAdd ma.2 1).1)))
    with (fuel := (nbits (length w) + 1)%nat) (s := (w, replicate (length w) 0))
    as ([m a] & E & (M & A & NM & NA & A0 & M0 & EX) & C).
  - intros [m a] (M & A & NM & NA & A0 & M0 & EX) C. cbn [fst snd] in *. rewrite (even_num _ _ _ NM) in C.
    pose proof (even_half _ C) as H2. pose proof (shr1_num _ _ _ NM) as NS.
    assert (2 ^ (A + 1) * (M / 2) = X) as EX'.
    { rewrite EX, Z.pow_add_r, Z.pow_1_r by lia. rewrite H2 at 2. ring. }
    eexists. split; [reflexivity|]. split.
    + exists (M / 2), (A + 1). split; [done|]. split; [|split; [lia|split; [lia|done]]].
      apply shortadd_num; [done|done|done|]. apply (count_fits _ _ (M / 2)); lia.
    + cbn [fst]. destruct NS as (_ & _ & ->), NM as (_ & _ & ->). apply halvings_lt; lia.
  - exists X, 0. cbn [fst snd]. destruct N as (L & D & V). rewrite L.
    split; [done|]. split; [apply is_num_zeros|]. rewrite Z.pow_0_r. lia.
  - cbn [fst]. assert (halvings (val w) <= nbits (length w))%nat; [|lia].
    apply halvings_le. rewrite <- Bpow_nbits. destruct N as (L & D & _). apply val_range, D.
  - exists m, a, M, A. cbn [fst] in *. rewrite (even_num _ _ _ NM) in C. rewrite <- Z.negb_even, C. done.
Qed.

(** ** One base *)

Section Base.
Context (n : nat) (w w1 a : list Z) (W A : Z).
Hypotheses (Hw : is_num w n W) (Hw1 : is_num w1 n (W - 1)) (Ha : is_num a n A) (HW : 2 <= W) (HA : 2 ^ A < Bpow n).

(** What holds at step 5 when w is an odd prime: squaring z another A - J
    times gives 1, and z is not 1 after the first round. *)
Definition fermat_at (J Z0 : Z) : Prop :=
  J < A /\ Z0 ^ (2 ^ (A - J)) mod W = 1 /\ (J <> 0 -> Z0 <> 1).

Lemma fermat_next J Z0 : Z.prime W -> 0 <= J -> 0 <= Z0 < W -> fermat_at J Z0 -> Z0 <> 1 -> Z0 <> W - 1 ->
  fermat_at (J + 1) ((Z0 * Z0) mod W) /\ J + 1 < A.
Proof.
  intros P HJ R (L & F & _) N1 N2.
  assert ((Z0 * Z0) mod W <> 1) as NS by (intros E; apply sqrt_one in E; [lia|done|done]).
  assert (Z0 ^ 2 ^ (A - J) = (Z0 * Z0) ^ 2 ^ (A - (J + 1))) as EP.
  { replace (A - J) with (1 + (A - (J + 1))) by lia. rewrite Z.pow_add_r, Z.pow_1_r, Z.pow_mul_r, Z.pow_2_r by lia. done. }
  destruct (Z.eq_dec (J + 1) A) as [E|E].
  - exfalso. rewrite EP in F. replace (A - (J + 1)) with 0 in F by lia. rewrite Z.pow_0_r, Z.pow_1_r in F. done.
  - split; [|lia]. split; [lia|]. split; [|done]. rewrite Z.mod_pow_l, <- EP. done.
Qed.

Lemma rm_loop_ok fuel : forall j z J Z0, is_num j n J -> is_num z n Z0 -> 0 <= Z0 < W -> J <= A -> A - J < Z.of_nat fuel ->
  exists failed, rm_loop fuel w w1 a j z = Some failed /\ (Z.prime W -> fermat_at J Z0 -> failed = false).
Proof using All.
  induction fuel as [|fuel IH]; intros j z J Z0 Nj Nz RZ LJ LF; [lia|]. cbn [rm_loop].
  pose proof (is_num_range _ _ _ Nj) as RJ. pose proof (is_zero_num _ _ _ Nj) as EZ.
  rewrite EZ, (shortcmp_num _ _ _ 1 Nz), (compare_num _ _ _ _ _ Nz Hw1) by done. rewrite negb_involutive.
  assert (forall x y, (Z.sgn (x - y) =? 0) = (x =? y)) as ES.
  { intros x y. destruct (Z.eqb_spec x y) as [->|N]; [by rewrite Z.sub_diag|]. apply Z.eqb_neq. rewrite Z.sgn_null_iff. lia. }
  rewrite !ES. destruct (_ || _) eqn:E1; [by exists false|].
  apply orb_false_iff in E1 as [E1 E2]. apply Z.eqb_neq in E2.
  destruct (negb (J =? 0) && (Z0 =? 1)) eqn:E3.
  { exists true. split; [done|]. intros _ (_ & _ & F). to_prop. exfalso. by apply F. }
  assert (Z0 <> 1) as N1 by (intros ->; destruct (J =? 0); done).
  assert (A + 1 < Bpow n) as AB by (pose proof (Z.pow_gt_lin_r 2 A ltac:(lia) ltac:(lia)); lia).
  assert (n <> 0%nat) as NZ by (intros ->; pose proof (is_num_range _ _ _ Hw); rewrite Bpow_0 in *; lia).
  assert (is_num (mpShortAdd j 1).1 n (J + 1)) as Nj' by (apply shortadd_num; (done || lia)).
  rewrite (compare_num _ _ _ _ _ Nj' Ha). destruct (Z.ltb_spec (Z.sgn (J + 1 - A)) 0) as [L|L].
  - destruct (IH _ (mpModMult z z w) (J + 1) ((Z0 * Z0) mod W) Nj') as (f & -> & F); [| |lia|lia|].
    + apply mpModMult_ok; (done || lia).
    + apply Z.mod_pos_bound. lia.
    + exists f. split; [done|]. intros P FA. apply F; [done|]. apply fermat_next; (done || lia).
  - exists true. split; [done|]. intros P FA. exfalso.
    destruct (fermat_next J Z0 P ltac:(lia) RZ FA N1 E2) as [_ LL]. lia.
Qed.
End Base.

(** ** Drawing a base *)

(** With enough fuel a computation has a result, always the same. *)
Definition settles {A} (f : nat -> option A) : Prop := exists F r, forall fuel, (F <= fuel)%nat -> f fuel = Some r.

Lemma settles_bind {A B} (f : nat -> option A) (g : nat -> A -> option B) :
  settles f -> (forall r, (exists fuel, f fuel = Some r) -> settles (fun fuel => g fuel r)) -> settles (fun fuel => f fuel ≫= g fuel).
Proof.
  intros (F & r & E) H. destruct (H r) as (F2 & r2 & E2); [by exists F; apply E|].
  exists (Nat.max F F2), r2. intros fuel L. rewrite E by lia. cbn [mbind option_bind]. apply E2. lia.
Qed.

Lemma settles_ret {A} (r : A) : settles (fun _ => Some r).
Proof. by exists 0%nat, r. Qed.

Section Draws.
Variable rand : nat -> Z.

(** Every range is met again: some later four calls give a digit in range. *)
Definition fair : Prop := forall pos range, 0 < range < 2 ^ 32 ->
  exists k, Z.land (rand_digit rand (pos + 4 * k)) (rand_mask range) <= range.

Lemma rand_digit_nonneg pos : 0 <= rand_digit rand pos.
Proof. unfold rand_digit. assert (forall x, 0 <= Z.land x 0xFF) as H by (intros; apply Z.land_nonneg; lia).
  pose proof (H (rand pos)). pose proof (H (rand (pos + 1)%nat)). pose proof (H (rand (pos + 2)%nat)).
  pose proof (H (rand (pos + 3)%nat)). lia. Qed.

Lemma rand_draw_range fuel range : forall pos d pos', rand_draw rand fuel range pos = Some (d, pos') -> 0 <= d <= range.
Proof.
  induction fuel as [|fuel IH]; intros pos d pos' E; cbn [rand_draw] in E; [done|].
  destruct (Z.ltb_spec range (Z.land (rand_digit rand pos) (rand_mask range))) as [L|L]; [by eapply IH|].
  injection E as <- <-. split; [|done]. apply Z.land_nonneg. left. apply rand_digit_nonneg.
Qed.

Lemma rand_draw_mono fuel range : forall pos r fuel', rand_draw rand fuel range pos = Some r -> (fuel <= fuel')%nat ->
  rand_draw rand fuel' range pos = Some r.
Proof.
  induction fuel as [|fuel IH]; intros pos r fuel' E L; cbn [rand_draw] in E; [done|].
  destruct fuel' as [|fuel']; [lia|]. cbn [rand_draw]. destruct (range <? _); [apply IH; (done || lia)|done].
Qed.

Lemma rand_draw_fair range pos : fair -> 0 < range < 2 ^ 32 -> exists fuel r, rand_draw rand fuel range pos = Some r.
Proof.
  intros F R. destruct (F pos range R) as [k Hk]. exists (S k). revert pos Hk.
  induction k as [|k IH]; intros pos Hk; cbn [rand_draw]; destruct (Z.ltb_spec range (Z.land (rand_digit rand pos) (rand_mask range))) as [L|L].
  - rewrite Nat.add_0_r in Hk. lia.
  - by eexists.
  - apply IH. replace (pos + 4 + 4 * k)%nat with (pos + 4 * S k)%nat by lia. done.
  - by eexists.
Qed.

Lemma rand_between_range fuel upper pos d pos' : is_digit upper -> rand_between rand fuel 2 upper pos = Some (d, pos') ->
  2 <= d <= Z.max 2 upper.
Proof.
  intros H E. red in H. unfold rand_between in E. destruct (Z.leb_spec upper 2) as [L|L]; [injection E as <- <-; lia|].
  destruct (rand_draw _ _ _ _) as [[d0 p0]|] eqn:D; cbn [mbind option_bind] in E; [|done]. injection E as <- <-.
  apply rand_draw_range in D. rewrite (u32_small (upper - 2)) in D by lia. rewrite u32_small by lia. lia.
Qed.

(** *** The base is below w *)

Context (n : nat) (w : list Z) (W : Z).
Hypotheses (Hw : is_num w n W) (HW : 3 <= W).

Definition rm_maxrand (w : list Z) : Z := if (mpSizeof w =? 1)%nat then u32 (nth 0 w 0 - 2) else MAX_DIGIT.

Lemma rm_maxrand_ok : is_digit (rm_maxrand w) /\ rm_maxrand w < W.
Proof using Hw HW.
  destruct Hw as (L & D & V). unfold rm_maxrand. destruct (mpSizeof_spec w D) as (LS & VS & _ & _).
  destruct (Nat.eqb_spec (mpSizeof w) 1) as [E|E].
  - rewrite E in VS, LS. destruct w as [|d w']; [cbn in LS; lia|]. rewrite firstn_cons, firstn_O in VS. cbn [val nth] in *.
    inversion D as [|? ? Hd]; subst. red in Hd. rewrite u32_small by lia. unfold is_digit. lia.
  - split; [done|]. assert (mpSizeof w <> 0%nat) as NZ by (intros E0; apply mpSizeof_zero in E0; [lia|done]).
    pose proof (mpSizeof_bounds w D NZ) as [LB _]. rewrite <- V. apply Z.lt_le_trans with (2 := LB).
    apply Z.lt_le_trans with (Bpow 1); [rewrite Bpow_1; unfold MAX_DIGIT; lia|]. unfold Bpow. apply Z.pow_le_mono_r; lia.
Qed.

Lemma base_digit d : 2 <= d <= Z.max 2 (rm_maxrand w) ->
  is_num (mpSetDigit d (length w)) n d /\ (0 <=? mpCompare (mpSetDigit d (length w)) w) = false.
Proof using Hw HW.
  intros R. destruct rm_maxrand_ok as [DM LM]. red in DM. pose proof Hw as (L & _ & _).
  pose proof (is_num_range _ _ _ Hw) as RW. rewrite L.
  assert (is_num (mpSetDigit d n) n d) as N.
  { apply mpSetDigit_ok; [unfold is_digit; lia|]. intros ->. rewrite Bpow_0 in RW. lia. }
  split; [done|]. rewrite (compare_num _ _ _ _ _ N Hw). apply Z.leb_gt. lia.
Qed.

Lemma draw_base_ok fuel pos b pos' : draw_base rand fuel w (rm_maxrand w) pos = Some (b, pos') ->
  exists B, is_num b n B /\ 2 <= B < W.
Proof using Hw HW.
  destruct fuel as [|fuel]; [done|]. cbn [draw_base].
  destruct (rand_between rand (S fuel) 2 _ pos) as [[d p]|] eqn:E; [|done]. cbn [mbind option_bind].
  apply rand_between_range in E; [|apply rm_maxrand_ok]. destruct (base_digit d E) as [N ->].
  intros [= <- _]. exists d. split; [done|]. pose proof rm_maxrand_ok. lia.
Qed.

Lemma draw_base_fair pos : fair -> exists fuel b pos', forall fuel', (fuel <= fuel')%nat ->
  draw_base rand fuel' w (rm_maxrand w) pos = Some (b, pos').
Proof using Hw HW.
  intros F. destruct rm_maxrand_ok as [DM _]. red in DM.
  assert (exists fuel d pos', forall fuel', (fuel <= fuel')%nat ->
            rand_between rand fuel' 2 (rm_maxrand w) pos = Some (d, pos')) as (fuel & d & pos' & H).
  { unfold rand_between. destruct (Z.leb_spec (rm_maxrand w) 2) as [L|L]; [by eexists 0%nat, _, _|].
    rewrite u32_small by lia.
    destruct (rand_draw_fair (rm_maxrand w - 2) pos F ltac:(lia)) as (fuel & [d p] & E).
    exists fuel, (u32 (2 + d)), p. intros fuel' LF. by rewrite (rand_draw_mono _ _ _ _ _ E LF). }
  exists (S fuel), (mpSetDigit d (length w)), pos'. intros fuel' LF. destruct fuel' as [|fuel']; [lia|]. cbn [draw_base].
  pose proof (H (S fuel') ltac:(lia)) as E. rewrite E. cbn [mbind option_bind].
  apply rand_between_range in E; [|done]. by destruct (base_digit d E) as [_ ->].
Qed.

(** *** The tests *)

Context (w1 m a : list Z) (M A : Z).
Hypotheses (Hw1 : is_num w1 n (W - 1)) (Hm : is_num m n M) (Ha : is_num a n A) (HA : 0 <= A) (HM : 0 < M)
  (HS : W - 1 = 2 ^ A * M) (HO : Z.odd M = true).

Lemma rm_base_ok b B : is_num b n B -> 2 <= B < W ->
  exists z rc failed, mpModExp b m w = Some (z, rc) /\
    rm_loop (nbits (length w) + 2) w w1 a (replicate (length w) 0) z = Some failed /\ (Z.prime W -> failed = false).
Proof using All.
  intros Nb RB. destruct (mpModExp_ok b m w n B M W Nb Hm Hw ltac:(lia)) as (z & rc & E & Nz).
  unfold modexp_value in Nz. destruct (Z.eqb_spec M 0); [lia|].
  pose proof (is_num_range _ _ _ Hw) as RW. pose proof Hw as (L & _ & _). rewrite L.
  assert (2 ^ A < Bpow n) as AB by nia.
  assert (A < Z.of_nat (nbits n)) as AN by (rewrite Bpow_nbits in AB; apply (Z.pow_lt_mono_r_iff 2); lia).
  destruct (rm_loop_ok n w w1 a W A Hw Hw1 Ha ltac:(lia) AB (nbits n + 2) (replicate n 0) z 0 (B ^ M mod W))
    as (failed & EL & F); [apply is_num_zeros|done|apply Z.mod_pos_bound; lia|lia|lia|].
  exists z, rc, failed. split; [done|]. split; [done|]. intros P. apply F; [done|]. split; [|split; [|done]].
  - destruct (Z.eq_dec A 0) as [->|]; [|lia]. rewrite Z.pow_0_r, Z.mul_1_l in HS.
    destruct P as [_ P]. exfalso. apply (P 2); [lia|]. apply Z.odd_spec in HO as [k Hk]. exists (k + 1). lia.
  - rewrite Z.sub_0_r, Z.mod_pow_l, <- Z.pow_mul_r by lia. replace (M * 2 ^ A) with (W - 1) by lia.
    apply Z.fermat_nz; [done|]. rewrite Z.mod_small by lia. lia.
Qed.

Lemma rm_tests_ok t fuel : forall pos r, rm_tests rand t fuel w w1 m a (rm_maxrand w) pos = Some r ->
  (r = 0 \/ r = 1) /\ (Z.prime W -> r = 1).
Proof using All.
  induction t as [|t IH]; intros pos r E; cbn [rm_tests] in E; [injection E as <-; by split; [right|]|].
  destruct (draw_base _ _ _ _ _) as [[b p]|] eqn:EB; cbn [mbind option_bind] in E; [|done].
  destruct (draw_base_ok _ _ _ _ EB) as (B & NB & RB).
  destruct (rm_base_ok b B NB RB) as (z & rc & failed & EM & EL & F). rewrite EM in E. cbn [mbind option_bind fst] in E.
  rewrite EL in E. cbn [mbind option_bind] in E. destruct failed; [|by eapply IH].
  injection E as <-. split; [by left|]. intros P. by specialize (F P).
Qed.

Lemma rm_tests_fair t : fair -> forall pos, settles (fun fuel => rm_tests rand t fuel w w1 m a (rm_maxrand w) pos).
Proof using All.
  intros HF. induction t as [|t IH]; intros pos; [by exists 0%nat, 1|].
  destruct (draw_base_fair pos HF) as (F1 & b & p & E1). destruct (IH p) as (F2 & r & E2).
  destruct (draw_base_ok _ _ _ _ (E1 F1 ltac:(lia))) as (B & NB & RB).
  destruct (rm_base_ok b B NB RB) as (z & rc & failed & EM & EL & _).
  exists (Nat.max F1 F2), (if failed then 0 else r). intros fuel L. cbn [rm_tests]. rewrite E1 by lia. cbn [mbind option_bind].
  rewrite EM. cbn [mbind option_bind fst]. rewrite EL. cbn [mbind option_bind]. destruct failed; [done|]. apply E2. lia.
Qed.
End Draws.

(** ** mpRabinMiller *)

Lemma mpRabinMiller_small rand fuel w n W t pos : is_num w n W -> W <= 1 -> mpRabinMiller rand fuel w t pos = Some 0.
Proof.
  intros N L. unfold mpRabinMiller. rewrite (shortcmp_num _ _ _ 1 N) by done.
  destruct (Z.leb_spec (Z.sgn (W - 1)) 0); [done|lia].
Qed.

(** The test for w > 1 is its loop over the bases. *)
Lemma mpRabinMiller_split rand w n W t pos : is_num w n W -> 1 < W ->
  exists w1 m a M A, is_num w1 n (W - 1) /\ is_num m n M /\ is_num a n A /\ 0 <= A /\ 0 < M /\ W - 1 = 2 ^ A * M /\
    Z.odd M = true /\
    forall fuel, mpRabinMiller rand fuel w t pos = rm_tests rand t fuel w w1 m a (rm_maxrand w) pos.
Proof.
  intros N L. unfold mpRabinMiller. rewrite (shortcmp_num _ _ _ 1 N) by done.
  destruct (Z.leb_spec (Z.sgn (W - 1)) 0); [lia|].
  pose proof (shortsub_num w n W 1 N ltac:(done) ltac:(lia) ltac:(lia)) as N1.
  destruct (rm_split_ok _ _ _ N1 ltac:(lia)) as (m & a & M & A & E & NM & NA & A0 & M0 & ES & O).
  exists (mpShortSub w 1).1, m, a, M, A. rewrite E. cbn [mbind option_bind]. done.
Qed.

(** For w = 2 the only base there is, 2, is never below w. *)
Lemma mpRabinMiller_two rand fuel w n t pos : is_num w n 2 -> mpRabinMiller rand fuel w (S t) pos = None.
Proof.
  intros N. destruct (mpRabinMiller_split rand w n 2 (S t) pos N ltac:(lia)) as (w1 & m & a & M & A & _ & _ & _ & _ & _ & _ & _ & ->).
  cbn [rm_tests]. assert (draw_base rand fuel w (rm_maxrand w) pos = None) as ->; [|done].
  assert (rm_maxrand w = 0) as ->.
  { destruct N as (L & D & V). unfold rm_maxrand. destruct (mpSizeof_spec w D) as (_ & VS & _ & _).
    assert (mpSizeof w <> 0%nat) as NZ by (intros E0; apply mpSizeof_zero in E0; [lia|done]).
    pose proof (mpSizeof_bounds w D NZ) as [LB _]. destruct (Nat.eqb_spec (mpSizeof w) 1) as [E|E].
    - rewrite E in VS. destruct w as [|d w']; [done|]. rewrite firstn_cons, firstn_O in VS. cbn [val nth] in *.
      replace d with 2 by lia. done.
    - assert (Bpow 1 <= Bpow (mpSizeof w - 1)) by (unfold Bpow; apply Z.pow_le_mono_r; lia). rewrite Bpow_1 in *. lia. }
  assert (is_num (mpSetDigit 2 (length w)) n 2) as N2.
  { pose proof (is_num_range _ _ _ N) as R. destruct N as (L & _ & _). rewrite L. apply mpSetDigit_ok; [done|].
    intros ->. rewrite Bpow_0 in R. lia. }
  revert pos. induction fuel as [|fuel IH]; intros pos; [done|]. cbn [draw_base].
  change (rand_between rand (S fuel) 2 0 pos) with (Some (2, pos)). cbn [mbind option_bind].
  rewrite (compare_num _ _ _ _ _ N2 N). apply IH.
Qed.

Lemma mpRabinMiller_ok rand fuel w n W t pos r : is_num w n W -> mpRabinMiller rand fuel w t pos = Some r ->
  (r = 0 \/ r = 1) /\ (Z.prime W -> r = 1).
Proof.
  intros N E. destruct (Z.le_gt_cases W 1) as [L|L].
  { rewrite (mpRabinMiller_small _ _ _ _ _ _ _ N L) in E. injection E as <-. split; [by left|]. intros [H _]. lia. }
  destruct (mpRabinMiller_split rand w n W t pos N L) as (w1 & m & a & M & A & N1 & NM & NA & A0 & M0 & ES & O & ER).
  destruct (Z.eq_dec W 2) as [->|].
  - destruct t as [|t]; [|by rewrite (mpRabinMiller_two _ _ _ _ _ _ N) in E].
    rewrite ER in E. injection E as <-. by split; [right|].
  - rewrite ER in E. apply (rm_tests_ok rand n w W N ltac:(lia) w1 m a M A) in E; done.
Qed.

Lemma mpRabinMiller_live rand w n W t pos : fair rand -> is_num w n W -> W <> 2 ->
  settles (fun fuel => mpRabinMiller rand fuel w t pos).
Proof.
  intros HF N N2. destruct (Z.le_gt_cases W 1) as [L|L].
  { exists 0%nat, 0. intros fuel _. by rewrite (mpRabinMiller_small _ _ _ _ _ _ _ N L). }
  destruct (mpRabinMiller_split rand w n W t pos N L) as (w1 & m & a & M & A & N1 & NM & NA & A0 & M0 & ES & O & ER).
  destruct (rm_tests_fair rand n w W N ltac:(lia) w1 m a M A N1 NM NA A0 M0 ES O t HF pos) as (F & r & HT).
  exists F, r. intros fuel LF. rewrite ER. by apply HT.
Qed.

(** ** mpIsPrime *)

(** Every number from 2 to 1008 has a divisor in the table, or is even. *)
Lemma small_divisor d : 1 < d < 1009 -> exists p, In p (2 :: SMALL_PRIMES) /\ (p | d).
Proof.
  intros R. assert (forallb (fun d => existsb (fun p => d mod p =? 0) (2 :: SMALL_PRIMES)) (map Z.of_nat (seq 2 1007)) = true) as C
    by (vm_compute; reflexivity).
  rewrite forallb_forall in C. specialize (C d). rewrite existsb_exists in C. destruct C as (p & I & E).
  { apply in_map_iff. exists (Z.to_nat d). split; [lia|]. apply in_seq. lia. }
  exists p. split; [done|]. apply Z.eqb_eq in E. apply Z.mod_divide in E; [done|].
  intros ->. revert I. vm_compute. intuition congruence.
Qed.

Lemma small_primes_range p : In p SMALL_PRIMES -> 2 < p <= 997.
Proof.
  intros I. assert (forallb (fun p => (2 <? p) && (p <=? 997)) SMALL_PRIMES = true) as C by (vm_compute; reflexivity).
  rewrite forallb_forall in C. specialize (C p I). lia.
Qed.

(** A number without a divisor in the table is prime below 1009^2. *)
Lemma trial_division W : 1 < W < 1009 * 1009 -> (forall p, In p (2 :: SMALL_PRIMES) -> p < W -> ~ (p | W)) -> Z.prime W.
Proof.
  intros R H. split; [lia|]. intros d Rd (k & Ek).
  assert (exists d', 1 < d' < 1009 /\ d' < W /\ (d' | W)) as (d' & Rd' & L & D).
  { destruct (Z.lt_ge_cases d 1009); [exists d; split; [lia|]; split; [lia|by exists k]|].
    exists k. split; [nia|]. split; [nia|]. exists d. lia. }
  destruct (small_divisor d' Rd') as (p & I & Dp). apply (H p I); [|by apply Z.divide_trans with d'].
  apply Z.divide_pos_le in Dp; lia.
Qed.

Lemma sgn_leb x y : (Z.sgn (x - y) <=? 0) = (x <=? y).
Proof. destruct (Z.leb_spec x y), (Z.leb_spec (Z.sgn (x - y)) 0); (done || lia). Qed.

Lemma sgn_eqb x y : (Z.sgn (x - y) =? 0) = (x =? y).
Proof. destruct (Z.eqb_spec x y), (Z.eqb_spec (Z.sgn (x - y)) 0); (done || lia). Qed.

Lemma mem_small_primes w n W : is_num w n W ->
  existsb (fun p => mpShortCmp w p =? 0) SMALL_PRIMES = true <-> In W SMALL_PRIMES.
Proof.
  intros N. rewrite existsb_exists. split.
  - intros (p & I & E). rewrite (shortcmp_num _ _ _ p N), sgn_eqb in E
      by (pose proof (small_primes_range p I); unfold is_digit; lia).
    apply Z.eqb_eq in E as ->. done.
  - intros I. exists W. split; [done|]. rewrite (shortcmp_num _ _ _ W N)
      by (pose proof (small_primes_range W I); unfold is_digit; lia). by rewrite Z.sub_diag.
Qed.

(** Trial division as a function. *)
Definition prime_check (W : Z) : bool := forallb (fun p => negb ((p <? W) && (W mod p =? 0))) (2 :: SMALL_PRIMES).

Lemma prime_check_ok W : 1 < W < 1009 * 1009 -> prime_check W = true -> Z.prime W.
Proof.
  intros R C. apply trial_division; [done|]. intros p I L D. unfold prime_check in C. rewrite forallb_forall in C. specialize (C p I).
  assert (2 <= p) as P by (destruct I as [<-|I]; [lia|apply small_primes_range in I; lia]).
  apply Z.mod_divide in D; [|lia]. rewrite D in C. destruct (Z.ltb_spec p W); [done|lia].
Qed.

Lemma table_is_prime p : In p SMALL_PRIMES -> Z.prime p.
Proof.
  intros I. apply prime_check_ok; [pose proof (small_primes_range p I); lia|].
  assert (forallb prime_check SMALL_PRIMES = true) as C by (vm_compute; reflexivity). rewrite forallb_forall in C. by apply C.
Qed.

Lemma small_prime_in_table W : 2 < W <= 997 -> Z.prime W -> In W SMALL_PRIMES.
Proof.
  intros R P. destruct (small_divisor W ltac:(lia)) as (p & I & D).
  apply Z.divide_prime_r in D; [|done].
  assert (2 <= p) as Rp by (destruct I as [<-|I]; [lia|apply small_primes_range in I; lia]).
  assert (p = W) by lia. subst p. destruct I as [E|I]; [lia|done].
Qed.

Lemma shortmod_num w n W p : is_num w n W -> 0 < W -> 0 < p < 2 ^ 32 -> mpShortMod w p = W mod p.
Proof.
  intros (L & D & <-) P Hp. apply mpShortMod_ok; [done| |done]. intros ->. cbn in P. lia.
Qed.

(** What each way out of mpIsPrime says of W. *)
Lemma mpIsPrime_cases rand fuel w n W t pos : is_num w n W ->
  (W <= 1009 * 1009 - 1 -> forall r, mpIsPrime rand fuel w t pos = Some r -> r = 1 -> Z.prime W) /\
  (W <= 997 -> mpIsPrime rand fuel w t pos <> None) /\
  (forall r, mpIsPrime rand fuel w t pos = Some r -> (r = 0 \/ r = 1) /\ (Z.prime W -> r = 1)).
Proof.
  intros N. pose proof (is_num_range _ _ _ N) as R. unfold mpIsPrime.
  rewrite !(shortcmp_num _ _ _ _ N), !sgn_leb by done.
  destruct (Z.leb_spec W 2) as [L2|L2].
  { destruct (Z.ltb_spec (Z.sgn (W - 2)) 0) as [L|L].
    - split; [intros _ r [= <-]; done|]. split; [done|]. intros r [= <-]. split; [by left|]. intros [P _]. lia.
    - assert (W = 2) as -> by lia. split; [intros; apply Z.prime_2|]. split; [done|]. intros r [= <-]. by split; [right|]. }
  rewrite (even_num _ _ _ N). destruct (Z.even W) eqn:EV.
  { split; [intros _ r [= <-]; done|]. split; [done|]. intros r [= <-]. split; [by left|]. intros [_ P].
    exfalso. apply (P 2); [lia|]. apply Z.even_spec in EV as [k ->]. exists k. lia. }
  assert (~ (2 | W)) as N2 by (intros [k ->]; rewrite Z.even_mul, orb_true_r in EV; done).
  destruct (Z.ltb_spec 0 (Z.sgn (W - 997))) as [L|L].
  - destruct (existsb (fun p => mpShortMod w p =? 0) SMALL_PRIMES) eqn:EX.
    + split; [intros _ r [= <-]; done|]. split; [lia|]. intros r [= <-]. split; [by left|]. intros P. exfalso.
      apply existsb_exists in EX as (p & I & E). apply small_primes_range in I.
      rewrite (shortmod_num _ _ _ _ N) in E by lia. apply Z.eqb_eq, Z.mod_divide in E; [|lia].
      destruct P as [_ P]. apply (P p); [lia|done].
    + split; [|split; [lia|intros r E; by apply (mpRabinMiller_ok rand fuel w n W t pos)]].
      intros U r _ _. apply trial_division; [lia|]. intros p [<-|I] Lp D; [done|].
      apply not_true_iff_false in EX. apply EX, existsb_exists. exists p. split; [done|].
      apply small_primes_range in I. rewrite (shortmod_num _ _ _ _ N) by lia. apply Z.eqb_eq, Z.mod_divide; [lia|done].
  - pose proof (mem_small_primes w n W N) as M. destruct (existsb _ _).
    + assert (Z.prime W) as P by (by apply table_is_prime, M). split; [done|]. split; [done|]. intros r [= <-]. by split; [right|].
    + split; [intros _ r [= <-]; done|]. split; [done|]. intros r [= <-]. split; [by left|]. intros P.
      assert (In W SMALL_PRIMES) as I by (apply small_prime_in_table; [lia|done]). by apply M in I.
Qed.

(** ** The tests as their callers see them *)

(** C33: Under a fair rand() (from any point on some later draw falls into any
    given range) the Rabin-Miller test ends for every number but 2, with 0 or
    1, and it accepts every prime but 2. For 2 it never returns, for any
    rand() and any number of rounds above 0: the only base there is, 2, is
    never below 2. *)
Theorem rabin_miller_live rand w t pos : fair rand -> digits w ->
  (val w <> 2 ->
   exists F r, (forall fuel, (F <= fuel)%nat -> mpRabinMiller rand fuel w t pos = Some r)
     /\ (r = 0 \/ r = 1) /\ (Z.prime (val w) -> r = 1))
  /\ (val w = 2 -> t <> 0%nat -> forall fuel, mpRabinMiller rand fuel w t pos = None).
Proof.
  intros HF D. split.
  2: { intros N T fuel. destruct t as [|t]; [done|]. by apply (mpRabinMiller_two rand fuel w (length w)). }
  intros N. destruct (mpRabinMiller_live rand w (length w) (val w) t pos HF ltac:(done) N) as (F & r & H).
  exists F, r. split; [done|]. by apply (mpRabinMiller_ok rand F w (length w) (val w) t pos r); [|apply H].
Qed.

(** Runs of zeros between other values. *)
Definition rand_runs (i : nat) : Z := if (8 <=? i mod 16)%nat then 0 else 255.

Lemma rand_runs_fair : fair rand_runs.
Proof.
  intros pos range R. set (q := (pos / 4)%nat). exists (6 - q mod 4)%nat.
  assert (rand_digit rand_runs (pos + 4 * (6 - q mod 4)) = 0) as ->; [|rewrite Z.land_0_l; lia].
  assert (forall j, (j < 4)%nat -> rand_runs (pos + 4 * (6 - q mod 4) + j) = 0) as Z0.
  { intros j Hj. unfold rand_runs. assert (8 <= (pos + 4 * (6 - q mod 4) + j) mod 16)%nat as L; [|by apply Nat.leb_le in L as ->].
    pose proof (Nat.div_mod_eq pos 4). pose proof (Nat.mod_upper_bound pos 4 ltac:(lia)).
    pose proof (Nat.div_mod_eq q 4). pose proof (Nat.mod_upper_bound q 4 ltac:(lia)). fold q in H.
    replace (pos + 4 * (6 - q mod 4) + j)%nat with (8 + pos mod 4 + j + (1 + q / 4) * 16)%nat by lia.
    rewrite Nat.Div0.mod_add, Nat.mod_small by lia. lia. }
  unfold rand_digit. pose proof (Z0 0%nat ltac:(lia)) as E0. rewrite Nat.add_0_r in E0.
  by rewrite E0, !Z0 by lia.
Qed.

Lemma rabin_miller_live_witness :
  (exists F r, (forall fuel, (F <= fuel)%nat -> mpRabinMiller rand_runs fuel [2003; 0] 3 1 = Some r)
     /\ (r = 0 \/ r = 1) /\ (Z.prime (val [2003; 0]) -> r = 1))
  /\ (forall fuel, mpRabinMiller rand_runs fuel [2; 0] 3 1 = None).
Proof.
  split.
  - exact (proj1 (rabin_miller_live rand_runs [2003; 0] 3 1 rand_runs_fair ltac:(by repeat constructor)) ltac:(by vm_compute)).
  - exact (proj2 (rabin_miller_live rand_runs [2; 0] 3 1 rand_runs_fair ltac:(by repeat constructor)) eq_refl ltac:(done)).
Defined.

(** C32: mpIsPrime answers 0 or 1 and never rejects a prime; below 1009^2 what
    it accepts is prime, and up to 997 it always answers, without any draw. *)
Theorem is_prime_exact rand fuel w t pos : digits w ->
  (val w <= 997 -> mpIsPrime rand fuel w t pos <> None) /\
  (forall r, mpIsPrime rand fuel w t pos = Some r -> (r = 0 \/ r = 1) /\ (Z.prime (val w) -> r = 1)) /\
  (val w < 1009 * 1009 -> forall r, mpIsPrime rand fuel w t pos = Some r -> r = 1 -> Z.prime (val w)).
Proof.
  intros D. destruct (mpIsPrime_cases rand fuel w (length w) (val w) t pos ltac:(done)) as (H1 & H2 & H3).
  split; [done|]. split; [done|]. intros L. apply H1. lia.
Qed.

Lemma is_prime_exact_witness : Z.prime (val [1018057]).
Proof.
  destruct (is_prime_exact rand_runs 20 [1018057] 3 10 ltac:(by repeat constructor)) as (_ & _ & H).
  apply (H ltac:(by vm_compute) 1); vm_compute; reflexivity.
Defined.
