(* ===== verification/BigConv.v ===== *)
(** * BigConv: octet strings and hexadecimal text of bigdigits.c

    Octet strings are big-endian; a loop that walks one from its end is a
    recursion over the reversed list.  Text is a list of character codes
    without the final zero.  The decimal conversions size their buffer with a
    floating-point factor and are not modelled. *)

From stdpp Require Import base list numbers.
From S2P Require Import Prelude BigDigits BigDigitsProps BigArith BigShift Crypt CryptProps.
Local Open Scope Z_scope.

(** ** Octets *)

(** t |= c[j] << k, for k = 0, 8, 16, 24. *)
Fixpoint octet_digit (k : Z) (rc : list Z) : Z :=
  match rc with
  | [] => 0
  | c :: rc => Z.lor (u32 (Z.shiftl c k)) (octet_digit (k + 8) rc)
  end.

(** The digits and the number of digits set; [rc] is the string from its end. *)
Fixpoint octets_loop (ndigits : nat) (rc : list Z) : list Z * nat :=
  match ndigits, rc with
  | S nd, _ :: _ =>
    let '(ds, i) := octets_loop nd (drop 4 rc) in (octet_digit 0 (take 4 rc) :: ds, S i)
  | _, _ => (replicate ndigits 0, O)
  end.

Definition mpConvFromOctets (ndigits : nat) (c : list Z) : list Z * nat := octets_loop ndigits (rev c).

(** The octets of a digit, least significant first. *)
Definition digit_octets (t : Z) : list Z := map (fun k => u8 (Z.shiftr t k)) [0; 8; 16; 24].

(** The string of [nbytes] octets and the number of significant ones. *)
Definition mpConvToOctets (a : list Z) (nbytes : nat) : list Z * nat :=
  (rev (take nbytes (flat_map digit_octets a ++ replicate nbytes 0)), ((mpBitLength a + 7) / 8)%nat).

(** ** Hexadecimal text *)

Definition hex_value (t : Z) : option Z :=
  if (48 <=? t) && (t <=? 57) then Some (t - 48)
  else if (97 <=? t) && (t <=? 102) then Some (t - 97 + 10)
  else if (65 <=? t) && (t <=? 70) then Some (t - 65 + 10)
  else None.

(** One character: the inner loop, from the last byte of newdigits on. *)
Fixpoint nibble_in (t : Z) (rd : list Z) : list Z :=
  match rd with
  | [] => []
  | d :: rd => let t := t + Z.shiftl d 4 in Z.land t 0xFF :: nibble_in (Z.shiftr t 8) rd
  end.

(** The loop over the string; invalid characters are ignored. *)
Fixpoint hex_loop (s : list Z) (rd : list Z) : list Z :=
  match s with
  | [] => rd
  | c :: s => hex_loop s (match hex_value c with Some t => nibble_in t rd | None => rd end)
  end.

Definition mpConvFromHex (ndigits : nat) (s : list Z) : list Z * nat :=
  match length s with
  | O => (replicate ndigits 0, O)
  | n => octets_loop ndigits (hex_loop s (replicate ((n + 1) / 2) 0))
  end.

Definition HEX_DIGITS (d : Z) : Z := if d <? 10 then 48 + d else 97 + (d - 10).

(** One byte: the inner loop of [conv_to_base], from the last digit on. *)
Fixpoint byte_in (base t : Z) (rd : list Z) : list Z :=
  match rd with
  | [] => []
  | d :: rd => let t := t + d * 256 in t mod base :: byte_in base (t / base) rd
  end.

Fixpoint conv_loop (base : Z) (bytes rd : list Z) : list Z :=
  match bytes with
  | [] => rd
  | b :: bytes => conv_loop base bytes (byte_in base b rd)
  end.

(** The digits from the first that is not zero. *)
Fixpoint skip_zeros (l : list Z) : list Z :=
  match l with
  | [] => []
  | d :: l' => if d =? 0 then skip_zeros l' else l
  end.

(** [conv_to_base] for base 16 with room for the whole text. *)
Definition mpConvToHex (a : list Z) : list Z :=
  if negb (mpIsZero a =? 0) then [48]
  else
    let '(bytes, n) := mpConvToOctets a (length a * 4) in
    map HEX_DIGITS (skip_zeros (rev (conv_loop 16 bytes (replicate (2 * n) 0)))).

(** ** Values of byte strings *)

(** The number a big-endian octet string stands for. *)
Definition octets_val (c : list Z) : Z := le_word (rev c).

Lemma le_word_app l1 l2 : le_word (l1 ++ l2) = le_word l1 + 256 ^ Z.of_nat (length l1) * le_word l2.
Proof.
  induction l1 as [|b l1 IH]; cbn [le_word app length]; [lia|].
  rewrite IH, Nat2Z.inj_succ, Z.pow_succ_r by lia. ring.
Qed.

Lemma le_word_range l : Forall is_byte l -> 0 <= le_word l < 256 ^ Z.of_nat (length l).
Proof.
  induction 1 as [|b l Hb Hl IH]; cbn [le_word length]; [done|].
  rewrite Nat2Z.inj_succ, Z.pow_succ_r by lia. unfold is_byte in Hb. lia.
Qed.

Lemma le_word_inj l1 : forall l2, Forall is_byte l1 -> Forall is_byte l2 -> length l1 = length l2 ->
  le_word l1 = le_word l2 -> l1 = l2.
Proof.
  induction l1 as [|a l1 IH]; intros [|b l2] H1 H2 HL HV; try discriminate; [done|].
  inversion H1; inversion H2; subst. cbn [le_word length] in *. unfold is_byte in *.
  assert (a = b) by lia. subst. f_equal. apply IH; try done; lia.
Qed.

Lemma le_word_zeros n : le_word (replicate n 0) = 0.
Proof. induction n; cbn [le_word replicate]; lia. Qed.

Lemma is_byte_zeros n : Forall is_byte (replicate n 0).
Proof. apply Forall_replicate. red. lia. Qed.

Lemma le_word_take n l : Forall is_byte l -> le_word (take n l) = le_word l mod 256 ^ Z.of_nat n.
Proof.
  intros H. destruct (le_lt_dec (length l) n) as [L|L].
  - rewrite take_ge by lia. symmetry. apply Z.mod_small. pose proof (le_word_range l H).
    assert (256 ^ Z.of_nat (length l) <= 256 ^ Z.of_nat n) by (apply Z.pow_le_mono_r; lia). lia.
  - pose proof (le_word_range (take n l) ltac:(by apply Forall_take)) as R. rewrite length_take, Nat.min_l in R by lia.
    rewrite <- (take_drop n l) at 2. rewrite le_word_app, length_take, Nat.min_l by lia.
    apply Z.mod_unique with (le_word (drop n l)); [by left|lia].
Qed.

Lemma octets_val_range c : Forall is_byte c -> 0 <= octets_val c < 256 ^ Z.of_nat (length c).
Proof. intros H. unfold octets_val. rewrite <- length_rev. apply le_word_range. by apply Forall_rev. Qed.

(** ** mpConvFromOctets *)

Lemma octet_digit_ok : forall rc k, 0 <= k -> k + 8 * Z.of_nat (length rc) <= 32 -> Forall is_byte rc ->
  octet_digit k rc = le_word rc * 2 ^ k.
Proof.
  induction rc as [|c rc IH]; intros k Hk Hl H; cbn [octet_digit le_word length] in *; [lia|].
  inversion H; subst. rewrite IH by (done || lia). unfold is_byte in *.
  assert (2 ^ k * 256 <= 2 ^ 32) as P.
  { change 256 with (2 ^ 8). rewrite <- Z.pow_add_r by lia. apply Z.pow_le_mono_r; lia. }
  assert (0 < 2 ^ k) by (apply Z.pow_pos_nonneg; lia).
  rewrite Z.shiftl_mul_pow2, u32_small by nia. rewrite Z.lor_comm, lor_add; [|lia|].
  - rewrite Z.pow_add_r by lia. change (2 ^ 8) with 256. ring.
  - rewrite Z.pow_add_r by lia. change (2 ^ 8) with 256. nia.
Qed.

Lemma octets_loop_ok : forall nd rc, Forall is_byte rc ->
  is_num (octets_loop nd rc).1 nd (le_word rc mod Bpow nd) /\
  (octets_loop nd rc).2 = Nat.min nd ((length rc + 3) / 4).
Proof.
  induction nd as [|nd IH]; intros rc H.
  - cbn [octets_loop]. rewrite Bpow_0, Z.mod_1_r. done.
  - destruct rc as [|c rc']; [cbn [octets_loop fst snd length]; split; [apply (is_num_zeros (S nd))|done]|].
    cbn [octets_loop]. set (rc := c :: rc') in *.
    destruct (IH (drop 4 rc) ltac:(by apply Forall_drop)) as [N E2].
    destruct (octets_loop nd (drop 4 rc)) as [ds i]. cbn [fst snd] in *.
    assert (Forall is_byte (take 4 rc)) as H4 by (by apply Forall_take).
    rewrite octet_digit_ok by (try done; try lia; rewrite length_take; lia). rewrite Z.pow_0_r, Z.mul_1_r.
    pose proof (le_word_range _ H4) as R.
    assert (is_digit (le_word (take 4 rc))) as D.
    { red. rewrite length_take in R. assert (256 ^ Z.of_nat (4 `min` length rc) <= 256 ^ 4) by (apply Z.pow_le_mono_r; lia). lia. }
    split.
    + apply (is_num_eq _ _ _ _ _ (is_num_cons _ _ _ _ D N)); [done|].
      assert (le_word rc = le_word (take 4 rc) + 2 ^ 32 * le_word (drop 4 rc)) as ->.
      { rewrite <- (take_drop 4 rc) at 1. rewrite le_word_app, length_take.
        destruct (le_lt_dec (length rc) 4) as [L|L].
        - rewrite (drop_ge rc) by lia. cbn [le_word]. lia.
        - rewrite Nat.min_l by lia. done. }
      rewrite Bpow_S. pose proof (Bpow_pos nd). red in D. rewrite Z.rem_mul_r by lia.
      rewrite (Z.mul_comm (2 ^ 32) (le_word (drop 4 rc))), Z.mod_add, Z.div_add by lia.
      rewrite (Z.mod_small (le_word (take 4 rc))), (Z.div_small (le_word (take 4 rc))) by lia. rewrite Z.add_0_l. done.
    + rewrite E2, length_drop. cbn [length] in *. unfold rc. cbn [length].
      destruct (le_lt_dec (length rc') 3) as [L|L].
      * replace (S (length rc') - 4)%nat with 0%nat by lia. rewrite Nat.add_0_l. change (3 / 4)%nat with 0%nat.
        assert ((S (length rc') + 3) / 4 = 1)%nat as ->; [|lia].
        symmetry. apply (Nat.div_unique _ 4 1 (length rc')); lia.
      * replace (S (length rc') + 3)%nat with (S (length rc') - 4 + 3 + 1 * 4)%nat by lia.
        rewrite Nat.div_add by lia. lia.
Qed.

(** [mpConvFromOctets] reads the number, modulo what [ndigits] digits hold. *)
Lemma mpConvFromOctets_ok nd c : Forall is_byte c ->
  is_num (mpConvFromOctets nd c).1 nd (octets_val c mod Bpow nd) /\
  (mpConvFromOctets nd c).2 = Nat.min nd ((length c + 3) / 4).
Proof.
  intros H. unfold mpConvFromOctets, octets_val. rewrite <- (length_rev c).
  apply octets_loop_ok. by apply Forall_rev.
Qed.

(** ** mpConvToOctets *)

Lemma digit_octets_ok t : is_digit t -> Forall is_byte (digit_octets t) /\ le_word (digit_octets t) = t.
Proof.
  intros H. unfold digit_octets. cbn [map]. rewrite !Z.shiftr_div_pow2 by lia. split.
  - repeat constructor; apply u8_range.
  - cbn [le_word]. unfold u8. red in H. rewrite Z.pow_0_r, Z.div_1_r. Z.div_mod_to_equations; lia.
Qed.

Lemma flat_octets_ok a : digits a ->
  Forall is_byte (flat_map digit_octets a) /\ le_word (flat_map digit_octets a) = val a /\
  length (flat_map digit_octets a) = (4 * length a)%nat.
Proof.
  induction 1 as [|d a Hd Ha (IB & IV & IL)]; cbn [flat_map]; [done|].
  destruct (digit_octets_ok d Hd) as [B E].
  split; [by apply Forall_app|]. rewrite le_word_app, length_app, E, IV, IL. cbn [val length digit_octets map]. split; [|lia].
  done.
Qed.

Lemma mpConvToOctets_ok a nb : digits a ->
  length (mpConvToOctets a nb).1 = nb /\ Forall is_byte (mpConvToOctets a nb).1 /\
  octets_val (mpConvToOctets a nb).1 = val a mod 256 ^ Z.of_nat nb.
Proof.
  intros Ha. destruct (flat_octets_ok a Ha) as (B & V & L). unfold mpConvToOctets, octets_val. cbn [fst].
  assert (Forall is_byte (flat_map digit_octets a ++ replicate nb 0)) as BA by (apply Forall_app; split; [done|apply is_byte_zeros]).
  rewrite rev_involutive, length_rev, length_take, length_app, length_replicate.
  split; [lia|]. split; [apply Forall_rev; by apply Forall_take|].
  rewrite le_word_take by done. rewrite le_word_app, le_word_zeros, V. f_equal. lia.
Qed.

(** The number of significant octets. *)
Lemma noctets_ok a nb : digits a -> val a < 256 ^ Z.of_nat (mpConvToOctets a nb).2.
Proof.
  intros Ha. unfold mpConvToOctets. cbn [snd]. pose proof (mpBitLength_ok a Ha) as E. pose proof (val_nonneg a Ha).
  set (k := mpBitLength a) in *. clearbody k. set (q := ((k + 7) / 8)%nat).
  assert (k <= 8 * q)%nat as L.
  { pose proof (Nat.div_mod_eq (k + 7) 8). pose proof (Nat.mod_upper_bound (k + 7) 8). fold q in H0. lia. }
  clearbody q. change 256 with (2 ^ 8). rewrite <- Z.pow_mul_r by lia.
  destruct (Z.eqb_spec (val a) 0) as [->|N0]; [apply Z.pow_pos_nonneg; lia|].
  pose proof (Z.log2_spec (val a) ltac:(lia)) as [_ U].
  apply Z.lt_le_trans with (1 := U). apply Z.pow_le_mono_r; lia.
Qed.

(** ** Hexadecimal text *)

Lemma nibble_in_ok rd : forall t, 0 <= t < 256 -> Forall is_byte rd ->
  Forall is_byte (nibble_in t rd) /\ length (nibble_in t rd) = length rd /\
  le_word (nibble_in t rd) = (le_word rd * 16 + t) mod 256 ^ Z.of_nat (length rd).
Proof.
  induction rd as [|d rd IH]; intros t Ht H; cbn [nibble_in length].
  - rewrite Z.pow_0_r, Z.mod_1_r. done.
  - inversion H; subst. unfold is_byte in *. rewrite Z.shiftl_mul_pow2 by lia. set (s := t + d * 2 ^ 4).
    change 255 with (Z.ones 8). rewrite Z.land_ones, Z.shiftr_div_pow2 by lia. change (2 ^ 8) with 256.
    destruct (IH (s / 256)) as (B & L & V); [unfold s; Z.div_mod_to_equations; lia|done|].
    split; [constructor; [apply Z.mod_pos_bound; lia|done]|]. split; [by rewrite L|].
    cbn [le_word]. rewrite V, Nat2Z.inj_succ, Z.pow_succ_r by lia.
    assert (0 < 256 ^ Z.of_nat (length rd)) by (apply Z.pow_pos_nonneg; lia).
    replace ((d + 256 * le_word rd) * 16 + t) with (s + 256 * (le_word rd * 16)) by (unfold s; ring).
    rewrite Z.rem_mul_r by lia.
    rewrite (Z.mul_comm 256 (le_word rd * 16)), Z.mod_add, Z.div_add by lia.
    f_equal. f_equal. f_equal. lia.
Qed.

(** The number a hexadecimal text stands for. *)
Fixpoint hex_val (acc : Z) (s : list Z) : Z :=
  match s with
  | [] => acc
  | c :: s => hex_val (match hex_value c with Some t => acc * 16 + t | None => acc end) s
  end.

Lemma hex_value_range c t : hex_value c = Some t -> 0 <= t < 16.
Proof.
  unfold hex_value. intros E. repeat case_hyp E; simplify_eq; to_prop; lia.
Qed.

Lemma hex_val_range s : forall acc, 0 <= acc -> 0 <= hex_val acc s < (acc + 1) * 16 ^ Z.of_nat (length s).
Proof.
  induction s as [|c s IH]; intros acc Ha; cbn [hex_val length]; [lia|].
  rewrite Nat2Z.inj_succ, Z.pow_succ_r by lia. assert (0 < 16 ^ Z.of_nat (length s)) by (apply Z.pow_pos_nonneg; lia).
  destruct (hex_value c) as [t|] eqn:E.
  - apply hex_value_range in E. specialize (IH (acc * 16 + t) ltac:(lia)). nia.
  - specialize (IH acc Ha). nia.
Qed.

Lemma hex_loop_ok s : forall rd, Forall is_byte rd -> hex_val (le_word rd) s < 256 ^ Z.of_nat (length rd) ->
  Forall is_byte (hex_loop s rd) /\ length (hex_loop s rd) = length rd /\ le_word (hex_loop s rd) = hex_val (le_word rd) s.
Proof.
  induction s as [|c s IH]; intros rd H R; cbn [hex_loop hex_val] in *; [done|].
  destruct (hex_value c) as [t|] eqn:E; [|by apply IH].
  pose proof (hex_value_range c t E) as Rt. destruct (nibble_in_ok rd t ltac:(lia) H) as (B & L & V).
  pose proof (le_word_range rd H) as RW.
  assert (forall s acc, 0 <= acc -> acc <= hex_val acc s) as Mono.
  { clear. induction s as [|c s IH]; intros acc Ha; cbn [hex_val]; [lia|].
    destruct (hex_value c) as [t|] eqn:E; [|by apply IH]. apply hex_value_range in E. specialize (IH (acc * 16 + t)). lia. }
  pose proof (Mono s (le_word rd * 16 + t) ltac:(lia)) as MM.
  rewrite Z.mod_small in V by lia. destruct (IH (nibble_in t rd) B) as (B2 & L2 & V2); [by rewrite V, L|].
  split; [done|]. split; [congruence|]. by rewrite V2, V.
Qed.

Lemma mpConvFromHex_ok nd s :
  is_num (mpConvFromHex nd s).1 nd (hex_val 0 s mod Bpow nd) /\
  ((mpConvFromHex nd s).2 = Nat.min nd (((length s + 1) / 2 + 3) / 4))%nat.
Proof.
  unfold mpConvFromHex. destruct (length s) as [|n] eqn:E.
  - apply nil_length_inv in E as ->. cbn [hex_val fst snd]. split; [apply is_num_zeros|]. rewrite Nat.min_0_r. done.
  - rewrite <- E. pose proof (hex_val_range s 0 ltac:(lia)) as R.
    assert (hex_val 0 s < 256 ^ Z.of_nat ((length s + 1) / 2)) as B.
    { change 256 with (16 ^ 2). rewrite <- Z.pow_mul_r by lia.
      apply Z.lt_le_trans with (16 ^ Z.of_nat (length s)); [lia|]. apply Z.pow_le_mono_r; [lia|].
      pose proof (Nat.div_mod_eq (length s + 1) 2). pose proof (Nat.mod_upper_bound (length s + 1) 2). lia. }
    destruct (hex_loop_ok s (replicate ((length s + 1) / 2) 0) (is_byte_zeros _)) as (HB & HL & HV).
    { by rewrite le_word_zeros, length_replicate. }
    rewrite le_word_zeros in HV. rewrite length_replicate in HL.
    destruct (octets_loop_ok nd _ HB) as [N C]. rewrite HV in N. rewrite HL in C. done.
Qed.

(** The number of a list of digits in another base, least significant first. *)
Fixpoint bval (b : Z) (l : list Z) : Z :=
  match l with
  | [] => 0
  | d :: l => d + b * bval b l
  end.

Lemma bval_app b l1 l2 : 0 <= b -> bval b (l1 ++ l2) = bval b l1 + b ^ Z.of_nat (length l1) * bval b l2.
Proof.
  intros Hb. induction l1 as [|d l1 IH]; cbn [bval app length]; [lia|].
  rewrite IH, Nat2Z.inj_succ, Z.pow_succ_r by lia. ring.
Qed.

Lemma bval_zeros b n : bval b (replicate n 0) = 0.
Proof. induction n; cbn [bval replicate]; lia. Qed.

Notation below b := (Forall (fun d => 0 <= d < b)).

Lemma bval_range b l : 0 < b -> below b l -> 0 <= bval b l < b ^ Z.of_nat (length l).
Proof.
  intros Hb. induction 1 as [|d l Hd Hl IH]; cbn [bval length]; [done|].
  rewrite Nat2Z.inj_succ, Z.pow_succ_r by lia. nia.
Qed.

Lemma byte_in_ok b rd : 1 < b -> below b rd -> forall t, 0 <= t ->
  below b (byte_in b t rd) /\ length (byte_in b t rd) = length rd /\
  bval b (byte_in b t rd) = (bval b rd * 256 + t) mod b ^ Z.of_nat (length rd).
Proof.
  intros Hb. induction 1 as [|d rd Hd Hrd IH]; intros t Ht; cbn [byte_in length].
  - rewrite Z.pow_0_r, Z.mod_1_r. done.
  - set (s := t + d * 256). assert (0 <= s) by (unfold s; nia).
    destruct (IH (s / b)) as (B & L & V); [apply Z.div_pos; lia|].
    split; [constructor; [apply Z.mod_pos_bound; lia|done]|]. split; [by rewrite L|].
    cbn [bval]. rewrite V, Nat2Z.inj_succ, Z.pow_succ_r by lia.
    assert (0 < b ^ Z.of_nat (length rd)) by (apply Z.pow_pos_nonneg; lia).
    replace ((d + b * bval b rd) * 256 + t) with (s + b * (bval b rd * 256)) by (unfold s; ring).
    rewrite Z.rem_mul_r by lia. rewrite (Z.mul_comm b (bval b rd * 256)), Z.mod_add, Z.div_add by lia.
    f_equal. f_equal. f_equal. lia.
Qed.

(** Appending octets to a number. *)
Fixpoint octets_fold (acc : Z) (bytes : list Z) : Z :=
  match bytes with
  | [] => acc
  | b :: bytes => octets_fold (acc * 256 + b) bytes
  end.

Lemma octets_fold_val bytes : forall acc, octets_fold acc bytes = acc * 256 ^ Z.of_nat (length bytes) + octets_val bytes.
Proof.
  unfold octets_val. induction bytes as [|b bytes IH]; intros acc; cbn [octets_fold rev length]; [simpl; lia|].
  rewrite IH, le_word_app, length_rev, Nat2Z.inj_succ, Z.pow_succ_r by lia. cbn [le_word]. ring.
Qed.

Lemma octets_fold_mono bytes : Forall is_byte bytes -> forall acc, 0 <= acc -> acc <= octets_fold acc bytes.
Proof.
  induction 1 as [|b bytes Hb Hbs IH]; intros acc Ha; cbn [octets_fold]; [lia|].
  unfold is_byte in Hb. specialize (IH (acc * 256 + b) ltac:(lia)). lia.
Qed.

Lemma conv_loop_ok b bytes : 1 < b -> Forall is_byte bytes -> forall rd, below b rd ->
  octets_fold (bval b rd) bytes < b ^ Z.of_nat (length rd) ->
  below b (conv_loop b bytes rd) /\ length (conv_loop b bytes rd) = length rd /\
  bval b (conv_loop b bytes rd) = octets_fold (bval b rd) bytes.
Proof.
  intros Hb. induction 1 as [|c bytes Hc Hbs IH]; intros rd H R; cbn [conv_loop octets_fold] in *; [done|].
  unfold is_byte in Hc. destruct (byte_in_ok b rd Hb H c ltac:(lia)) as (B & L & V).
  pose proof (bval_range b rd ltac:(lia) H) as RW.
  pose proof (octets_fold_mono bytes Hbs (bval b rd * 256 + c) ltac:(lia)) as MM.
  rewrite Z.mod_small in V by lia. destruct (IH _ B) as (B2 & L2 & V2); [by rewrite V, L|].
  split; [done|]. split; [congruence|]. by rewrite V2, V.
Qed.

Lemma hex_digit_value d : 0 <= d < 16 -> hex_value (HEX_DIGITS d) = Some d.
Proof.
  intros H. unfold HEX_DIGITS, hex_value.
  destruct (Z.ltb_spec d 10).
  - assert ((48 <=? 48 + d) && (48 + d <=? 57) = true) as -> by (apply andb_true_intro; split; apply Z.leb_le; lia).
    f_equal. lia.
  - assert ((48 <=? 97 + (d - 10)) && (97 + (d - 10) <=? 57) = false) as -> by (apply andb_false_intro2; apply Z.leb_gt; lia).
    assert ((97 <=? 97 + (d - 10)) && (97 + (d - 10) <=? 102) = true) as -> by (apply andb_true_intro; split; apply Z.leb_le; lia).
    f_equal. lia.
Qed.

Lemma hex_val_digits l : below 16 l -> forall acc,
  hex_val acc (map HEX_DIGITS l) = acc * 16 ^ Z.of_nat (length l) + bval 16 (rev l).
Proof.
  induction 1 as [|d l Hd Hl IH]; intros acc; cbn [map hex_val rev length]; [simpl; lia|].
  rewrite hex_digit_value, IH, bval_app, length_rev, Nat2Z.inj_succ, Z.pow_succ_r by (done || lia). cbn [bval]. ring.
Qed.

Lemma skip_zeros_ok l : below 16 l -> below 16 (skip_zeros l) /\ bval 16 (rev (skip_zeros l)) = bval 16 (rev l) /\
  (0 < bval 16 (rev l) -> 16 ^ (Z.of_nat (length (skip_zeros l)) - 1) <= bval 16 (rev l)).
Proof.
  induction 1 as [|d l Hd Hl (B & V & P)]; cbn [skip_zeros]; [done|].
  destruct (Z.eqb_spec d 0) as [->|N].
  - assert (bval 16 (rev (0 :: l)) = bval 16 (rev l)) as ->; [|done].
    cbn [rev]. rewrite bval_app by lia. cbn [bval]. lia.
  - split; [by constructor|]. split; [done|]. intros _. cbn [rev]. rewrite bval_app, length_rev by lia. cbn [bval length].
    pose proof (bval_range 16 (rev l) ltac:(lia) ltac:(by apply Forall_rev)).
    replace (Z.of_nat (S (length l)) - 1) with (Z.of_nat (length l)) by lia.
    assert (0 < 16 ^ Z.of_nat (length l)) by (apply Z.pow_pos_nonneg; lia). nia.
Qed.

(** The text of [mpConvToHex] reads back as the number and has no leading zeros. *)
Lemma mpConvToHex_ok a : digits a ->
  hex_val 0 (mpConvToHex a) = val a /\
  (0 < val a -> 16 ^ (Z.of_nat (length (mpConvToHex a)) - 1) <= val a < 16 ^ Z.of_nat (length (mpConvToHex a))).
Proof.
  intros Ha. unfold mpConvToHex. rewrite (mpIsZero_ok a Ha). pose proof (val_nonneg a Ha) as PA.
  destruct (Z.eqb_spec (val a) 0) as [E|N]; [rewrite E; split; [done|lia]|].
  destruct (mpConvToOctets_ok a (length a * 4) Ha) as (LB & BB & VB). pose proof (noctets_ok a (length a * 4) Ha) as RN.
  destruct (mpConvToOctets a (length a * 4)) as [bytes n]. cbn [fst snd] in *.
  pose proof (val_range a Ha) as RA.
  rewrite Z.mod_small in VB.
  2:{ split; [lia|]. replace (256 ^ Z.of_nat (length a * 4)) with (Bpow (length a)); [lia|].
      unfold Bpow. change 256 with (2 ^ 8). rewrite <- Z.pow_mul_r by lia. f_equal. lia. }
  assert (octets_fold (bval 16 (replicate (2 * n) 0)) bytes = val a) as EF.
  { rewrite octets_fold_val, bval_zeros, VB. lia. }
  destruct (conv_loop_ok 16 bytes ltac:(lia) BB (replicate (2 * n) 0)) as (B & L & V).
  { apply Forall_replicate. lia. }
  { rewrite EF, length_replicate. change 256 with (16 ^ 2) in RN. rewrite <- Z.pow_mul_r in RN by lia.
    by replace (Z.of_nat (2 * n)) with (2 * Z.of_nat n) by lia. }
  rewrite EF in V. set (rd := conv_loop 16 bytes (replicate (2 * n) 0)) in *. clearbody rd.
  destruct (skip_zeros_ok (rev rd) ltac:(by apply Forall_rev)) as (B2 & V2 & P2). rewrite rev_involutive in *.
  split; [rewrite hex_val_digits by done; rewrite V2, V; lia|].
  intros P. rewrite length_map, <- V. split; [apply P2; lia|].
  pose proof (bval_range 16 (rev (skip_zeros (rev rd))) ltac:(lia) ltac:(by apply Forall_rev)) as R.
  rewrite length_rev, V2 in R. lia.
Qed.
