(* ===== verification/Bigd.v ===== *)
(** * Bigd: the BIGD layer of modules/io_crypt/bigd.c

    A BIGD is modelled by the list of its [ndigits] digits.  The digits between
    [ndigits] and [maxdigits] have no meaning: [bd_resize] clears the ones it
    brings into use, so an operand resized to [n] digits is read as [pad n].
    An operation that resizes its operands leaves their digits as they were.
    Operations return the new value of their output BIGD.  Allocation failures
    and printing are not modelled. *)

From stdpp Require Import base list numbers option.
From S2P Require Import Prelude BigDigits BigMod BigConv.
Local Open Scope Z_scope.

(** ** Size *)

(** The first [n] digits after [bd_resize(b, n)]. *)
Definition pad (n : nat) (b : list Z) : list Z := take n b ++ replicate (n - length b) 0.

(** ndigits = mpSizeof(digits, n) *)
Definition norm (l : list Z) : list Z := take (mpSizeof l) l.

Definition bdNew : list Z := [].
Definition bdSetEqual (b : list Z) : list Z := b.
Definition bdSetZero : list Z := [].
Definition bdSetShort (value : Z) : list Z := if value =? 0 then [] else [value].

(** ** Conversions *)

(** The BIGD and the number of digits set. *)
Definition bdConvFromOctets (c : list Z) : list Z * nat :=
  let ndigits := ((length c + 4 - 1) / 4)%nat in
  let '(a, n) := mpConvFromOctets ndigits c in (norm (take n a), n).

(** The octets written to c, for a c that is not NULL, and the result. *)
Definition bdConvToOctets (b : list Z) (nbytes : nat) : list Z * nat :=
  let noctets := ((mpBitLength b + 7) / 8)%nat in
  let noctets := if (noctets =? 0)%nat then 1%nat else noctets in
  if (nbytes =? 0)%nat then ([], noctets) else ((mpConvToOctets b nbytes).1, noctets).

Definition bdConvFromHex (s : list Z) : list Z * nat :=
  let ndigits := (((length s + 1) / 2 + 4 - 1) / 4)%nat in
  let '(a, n) := mpConvFromHex ndigits s in (norm (take n a), n).

Definition bdConvToHex (b : list Z) : list Z := mpConvToHex b.

Definition bdBitLength (b : list Z) : nat := mpBitLength b.
Definition bdSizeof (b : list Z) : nat := mpSizeof b.

(** ** Comparison *)

Definition bdIsEqual (a b : list Z) : bool :=
  let na := mpSizeof a in
  let nb := mpSizeof b in
  if negb (na =? nb)%nat then false
  else if (na =? 0)%nat && (nb =? 0)%nat then true
  else forallb (fun i => nth i a 0 =? nth i b 0) (rev (seq 0 na)).

Definition bdIsZero (a : list Z) : Z := mpIsZero a.
Definition bdShortCmp (a : list Z) (d : Z) : Z := mpShortCmp a d.

Definition bdCompare (a b : list Z) : Z :=
  if negb (length a =? length b)%nat then
    let na := mpSizeof a in
    let nb := mpSizeof b in
    if (nb <? na)%nat then 1
    else if (na <? nb)%nat then -1
    else mpCompare (take na a) (take na b)
  else mpCompare a b.

(** digits[0] of a BIGD without digits is zero. *)
Definition bdIsEven (a : list Z) : bool := negb (ISODD (nth 0 a 0)).
Definition bdIsOdd (a : list Z) : bool := ISODD (nth 0 a 0).

(** ** Addition and subtraction *)

Definition add_carry_digit (w : list Z) (carry : Z) (keep : list Z -> list Z) : list Z * Z :=
  if carry =? 0 then (keep w, carry) else (w ++ [carry], carry).

Definition bdShortAdd (u : list Z) (d : Z) : list Z * Z :=
  let dig_size := Nat.max (length u) 1 in
  let '(w, carry) := mpShortAdd (pad dig_size u) d in add_carry_digit w carry (fun w => w).

Definition bdAdd (u v : list Z) : list Z * Z :=
  if (length v =? 1)%nat then bdShortAdd u (nth 0 v 0)
  else
    let dig_size := Nat.max (length u) (length v) in
    let '(w, carry) := mpAdd (pad dig_size u) (pad dig_size v) in add_carry_digit w carry norm.

Definition bdShortSub (u : list Z) (d : Z) : list Z * Z :=
  let dig_size := Nat.max (length u) 1 in mpShortSub (pad dig_size u) d.

Definition bdSubtract (u v : list Z) : list Z * Z :=
  if (length v =? 1)%nat then bdShortSub u (nth 0 v 0)
  else
    let dig_size := Nat.max (length u) (length v) in
    let '(w, borrow) := mpSubtract (pad dig_size u) (pad dig_size v) in (norm w, borrow).

Definition bdIncrement (a : list Z) : list Z * Z := bdShortAdd a 1.
Definition bdDecrement (a : list Z) : list Z * Z := bdShortSub a 1.

(** ** Product, square and power *)

Definition bdShortMult (u : list Z) (d : Z) : list Z :=
  let '(w, overflow) := mpShortMult u d in
  if overflow =? 0 then norm w else w ++ [overflow].

Definition bdMultiply (u v : list Z) : list Z :=
  if (length v =? 1)%nat then bdShortMult u (nth 0 v 0)
  else
    let dig_size := Nat.max (length u) (length v) in
    norm (mpMultiply (pad dig_size u) (pad dig_size v)).

Definition bdSquare (x : list Z) : list Z :=
  norm (mpSquare (pad (Nat.max (length x) 1) x)).

(** The exponent is an unsigned short: at most sixteen turns. *)
Fixpoint power_loop (fuel : nat) (y z : list Z) (n : Z) : list Z :=
  match fuel with
  | O => y
  | S fuel =>
    if 0 <? n then
      let y := if Z.land n 1 =? 0 then y else bdMultiply z y in
      let n := Z.shiftr n 1 in
      let z := if 0 <? n then bdSquare z else z in
      power_loop fuel y z n
    else y
  end.

Definition bdPower (g : list Z) (n : Z) : list Z := power_loop 17 (bdSetShort 1) g (u16 n).

Definition bdSqrt (x : list Z) : option (list Z) := s ← mpSqrt x; Some (norm s).
Definition bdCubeRoot (x : list Z) : option (list Z) := s ← mpCubeRoot x; Some (norm s).

(** ** Division *)

(** (q, r).  A zero divisor leaves in q the dig_size digits that [bd_resize]
    left there: [q0] is the old value of q. *)
Definition bdShortDiv (q0 u : list Z) (d : Z) : list Z * list Z :=
  let '(q, rem) := mpShortDiv (pad (length u) q0) u d in (norm q, bdSetShort rem).

Definition bdDivide (u v : list Z) : list Z * list Z := (norm (div_q u v), norm (div_r u v)).

Definition bdShortMod (u : list Z) (d : Z) : list Z * Z :=
  let rr := mpShortMod u d in (bdSetShort rr, rr).

Definition bdModulo (u v : list Z) : list Z := norm (mpModulo u v).

(** ** Bits *)

Definition bdSetBit (a : list Z) (ibit value : Z) : list Z :=
  let idigit := Z.to_nat (ibit / BITS_PER_DIGIT) in
  let a := if (length a <=? idigit)%nat then pad (idigit + 1) a else a in
  norm (mpSetBit a ibit value).1.

Definition bdGetBit (maxdigits : nat) (a : list Z) (ibit : Z) : Z :=
  let idigit := Z.to_nat (ibit / BITS_PER_DIGIT) in
  if (maxdigits <=? idigit)%nat then 0 else mpGetBit a ibit.

Definition bdShiftLeft (b : list Z) (s : Z) : list Z :=
  let dig_size := length b in
  let dig_size := if BITS_PER_DIGIT <=? s then (dig_size + Z.to_nat (s / BITS_PER_DIGIT))%nat else dig_size in
  norm (mpShiftLeft (pad (S dig_size) b) s).1.

Definition bdShiftRight (b : list Z) (n : Z) : list Z := norm (mpShiftRight b n).1.

Definition bdXorBits (b c : list Z) : list Z :=
  let n := Nat.max (length b) (length c) in norm (mpXorBits (pad n b) (pad n c)).
Definition bdOrBits (b c : list Z) : list Z :=
  let n := Nat.max (length b) (length c) in norm (mpOrBits (pad n b) (pad n c)).
Definition bdAndBits (b c : list Z) : list Z :=
  let n := Nat.max (length b) (length c) in norm (mpAndBits (pad n b) (pad n c)).
Definition bdNotBits (b : list Z) : list Z := norm (mpNotBits b).
Definition bdModPowerOf2 (a : list Z) (L : Z) : list Z := norm (mpModPowerOf2 a L).

(** ** Number theory *)

Definition bdModExp (x e m : list Z) : option (list Z) :=
  let n := Nat.max (length x) (Nat.max (length e) (length m)) in
  '(y, _) ← mpModExp (pad n x) (pad n e) (pad n m); Some (norm y).

Definition bdModMult (x y m : list Z) : list Z :=
  let n := Nat.max (length x) (Nat.max (length y) (length m)) in
  norm (mpModMult (pad n x) (pad n y) (pad n m)).

(** (x, status). *)
Definition bdModInv (a m : list Z) : option (list Z * Z) :=
  let n := Nat.max (length a) (length m) in
  '(x, status) ← mpModInv (pad n a) (pad n m); Some (norm x, status).

Definition bdGcd (x y : list Z) : option (list Z) :=
  let n := Nat.max (length x) (length y) in
  g ← mpGcd (pad n x) (pad n y); Some (norm g).

Definition bdJacobi (a m : list Z) : option Z :=
  let n := Nat.max (length a) (length m) in mpJacobi (pad n a) (pad n m).

Definition bdIsPrime (rand : nat -> Z) (fuel : nat) (b : list Z) (ntests pos : nat) : option Z :=
  mpIsPrime rand fuel b ntests pos.

Definition bdRabinMiller (rand : nat -> Z) (fuel : nat) (b : list Z) (ntests pos : nat) : option Z :=
  mpRabinMiller rand fuel b ntests pos.

(** [chop] of [bdRandomSeeded]: ones up to bit [hibit]. *)
Fixpoint chop_mask (hibit : nat) : Z :=
  match hibit with
  | O => 1
  | S k => let chop := chop_mask k in Z.lor (u32 (Z.shiftl chop 1)) chop
  end.

(** [rnd] are the digits the RNG callback writes. *)
Definition bdRandomSeeded (rnd : list Z) (nbits : nat) : list Z :=
  let ndigits := ((nbits + 32 - 1) / 32)%nat in
  let chop := chop_mask ((nbits - 1) mod 32) in
  alter (fun d => Z.land d chop) (ndigits - 1)%nat (take ndigits rnd).
