(* ===== verification/BigdProps.v ===== *)
(** * BigdProps: BIGD values behave as natural numbers

    [bd_is b x] says that the BIGD [b] stands for the number [x]; each
    operation of bigd.c is related to the operation of [Z] it stands for. *)

From stdpp Require Import base list numbers option.
From S2P Require Import Prelude BigDigits BigDigitsProps BigArith BigShift BigDivide BigSquare BigMod BigModProps BigModExp.
From S2P Require Import Crypt CryptProps BigConv Bigd.
Local Open Scope Z_scope.

Definition bd_is (b : list Z) (x : Z) : Prop := digits b /\ val b = x.

Lemma bd_is_num b n x : is_num b n x -> bd_is b x.
Proof. intros (_ & D & V). done. Qed.

Lemma bd_nonneg b x : bd_is b x -> 0 <= x.
Proof. intros (D & <-). by apply val_nonneg. Qed.

Lemma bd_norm_ok b n x : is_num b n x -> bd_is (norm b) x.
Proof.
  intros (_ & D & <-). destruct (mpSizeof_spec b D) as (_ & V & _). split; [by apply Forall_take|done].
Qed.

Lemma pad_ok n b x : bd_is b x -> (length b <= n)%nat -> is_num (pad n b) n x.
Proof.
  intros (D & <-) L. unfold pad. rewrite take_ge by lia.
  apply (is_num_eq _ _ _ _ _ (is_num_app _ _ _ _ _ _ (is_num_of b D) (is_num_zeros _))); lia.
Qed.

(** A normalised BIGD has no leading zero digit. *)
Lemma norm_size b : digits b -> mpSizeof (norm b) = length (norm b).
Proof.
  intros D. unfold norm. destruct (mpSizeof_spec b D) as (L & V & P & _).
  assert (digits (take (mpSizeof b) b)) as DT by (by apply Forall_take).
  destruct (mpSizeof_spec _ DT) as (L2 & V2 & _ & _). rewrite length_take, Nat.min_l in * by lia.
  destruct (le_lt_dec (mpSizeof b) (mpSizeof (take (mpSizeof b) b))) as [G|G]; [lia|].
  assert (mpSizeof b <> 0%nat) as N by lia. pose proof (mpSizeof_bounds b D N) as [LB _].
  exfalso. assert (val b < Bpow (mpSizeof b - 1)); [|lia]. rewrite <- V, <- V2.
  pose proof (val_range (take (mpSizeof (take (mpSizeof b) b)) (take (mpSizeof b) b)) ltac:(by apply Forall_take)) as R.
  rewrite length_take, length_take in R.
  assert (Bpow (mpSizeof (take (mpSizeof b) b) `min` (mpSizeof b `min` length b)) <= Bpow (mpSizeof b - 1)); [|lia].
  unfold Bpow. apply Z.pow_le_mono_r; lia.
Qed.

#[export] Hint Resolve bd_norm_ok pad_ok : digit.

Lemma bdSetShort_ok v : is_digit v -> bd_is (bdSetShort v) v.
Proof.
  intros H. unfold bdSetShort. destruct (Z.eqb_spec v 0) as [->|]; [done|].
  split; [by apply Forall_singleton|]. cbn [val]. lia.
Qed.

(** ** Addition and subtraction *)

Lemma add_carry_digit_ok w carry n x keep : is_num w n (x - Bpow n * carry) -> 0 <= carry <= 1 ->
  (forall w y, is_num w n y -> bd_is (keep w) y) -> bd_is (add_carry_digit w carry keep).1 x.
Proof.
  intros N C K. unfold add_carry_digit. destruct (Z.eqb_spec carry 0) as [->|N0]; cbn [fst].
  - apply K. apply (is_num_eq _ _ _ _ _ N); [done|lia].
  - assert (carry = 1) by lia. subst carry.
    assert (is_num [1] 1 1) as N1 by (split; [done|]; split; [by apply Forall_singleton|done]).
    apply (bd_is_num _ (n + 1)). apply (is_num_eq _ _ _ _ _ (is_num_app _ _ _ _ _ _ N N1)); [done|lia].
Qed.

Lemma bdShortAdd_ok u x d : bd_is u x -> is_digit d -> bd_is (bdShortAdd u d).1 (x + d).
Proof.
  intros Hu Hd. unfold bdShortAdd. set (n := Nat.max (length u) 1).
  pose proof (pad_ok n u x Hu ltac:(lia)) as (L & D & V).
  pose proof (mpShortAdd_ok (pad n u) d) as S.
  specialize (S ltac:(intros E; rewrite E in L; cbn in L; lia) D Hd). rewrite L, V in S.
  destruct (mpShortAdd (pad n u) d) as [w c]. destruct S as (C & N).
  apply (add_carry_digit_ok w c n); [done|done|]. intros. by eapply bd_is_num.
Qed.

Lemma bdAdd_ok u v x y : bd_is u x -> bd_is v y -> bd_is (bdAdd u v).1 (x + y).
Proof.
  intros Hu Hv. unfold bdAdd. destruct (Nat.eqb_spec (length v) 1) as [E|E].
  - destruct v as [|d [|]]; try done. cbn [nth]. destruct Hv as (D & <-). inversion D; subst. cbn [val].
    replace (x + (d + 2 ^ 32 * 0)) with (x + d) by lia. by apply bdShortAdd_ok.
  - set (n := Nat.max (length u) (length v)).
    pose proof (pad_ok n u x Hu ltac:(lia)) as (LU & DU & VU). pose proof (pad_ok n v y Hv ltac:(lia)) as (LV & DV & VV).
    pose proof (mpAdd_ok (pad n u) (pad n v) ltac:(congruence) DU DV) as S. rewrite LU, VU, VV in S.
    destruct (mpAdd (pad n u) (pad n v)) as [w c]. destruct S as (C & N).
    apply (add_carry_digit_ok w c n); [done|done|]. intros. by eapply bd_norm_ok.
Qed.

Lemma bdShortSub_ok u x d : bd_is u x -> is_digit d -> d <= x -> bd_is (bdShortSub u d).1 (x - d).
Proof.
  intros Hu Hd L. unfold bdShortSub. set (n := Nat.max (length u) 1).
  pose proof (pad_ok n u x Hu ltac:(lia)) as NP. pose proof (is_num_range _ _ _ NP) as R. destruct NP as (LP & D & V).
  pose proof (mpShortSub_ok (pad n u) d) as S.
  specialize (S ltac:(intros E; rewrite E in LP; cbn in LP; lia) D Hd). rewrite LP, V in S.
  destruct (mpShortSub (pad n u) d) as [w c]. destruct S as (C & N). pose proof (is_num_range _ _ _ N).
  red in Hd. assert (c = 0) by nia. subst c. cbn [fst]. apply (bd_is_num _ n). apply (is_num_eq _ _ _ _ _ N); [done|lia].
Qed.

Lemma bdSubtract_ok u v x y : bd_is u x -> bd_is v y -> y <= x -> bd_is (bdSubtract u v).1 (x - y).
Proof.
  intros Hu Hv L. unfold bdSubtract. destruct (Nat.eqb_spec (length v) 1) as [E|E].
  - destruct v as [|d [|]]; try done. cbn [nth]. destruct Hv as (D & <-). inversion D; subst. cbn [val] in *.
    replace (x - (d + 2 ^ 32 * 0)) with (x - d) by lia. apply bdShortSub_ok; (done || lia).
  - set (n := Nat.max (length u) (length v)).
    pose proof (pad_ok n u x Hu ltac:(lia)) as NU. pose proof (pad_ok n v y Hv ltac:(lia)) as NV.
    pose proof (sub_num _ _ _ _ _ NU NV L) as S.
    destruct (mpSubtract (pad n u) (pad n v)) as [w c]. cbn [fst] in *. by eapply bd_norm_ok.
Qed.

(** ** Product, square, power *)

Lemma bdMultiply_ok u v x y : bd_is u x -> bd_is v y -> bd_is (bdMultiply u v) (x * y).
Proof.
  intros Hu Hv. unfold bdMultiply. destruct (Nat.eqb_spec (length v) 1) as [E|E].
  - destruct v as [|d [|]]; try done. cbn [nth]. destruct Hv as (D & <-). inversion D; subst. cbn [val].
    destruct Hu as (DU & <-). unfold bdShortMult.
    pose proof (mpShortMult_ok u d DU ltac:(done)) as S. destruct (mpShortMult u d) as [w c]. destruct S as (DC & N).
    destruct (Z.eqb_spec c 0) as [->|N0].
    + apply (bd_norm_ok _ (length u)). apply (is_num_eq _ _ _ _ _ N); [done|lia].
    + assert (is_num [c] 1 c) as N1 by (split; [done|]; split; [by apply Forall_singleton|cbn [val]; lia]).
      apply (bd_is_num _ (length u + 1)). apply (is_num_eq _ _ _ _ _ (is_num_app _ _ _ _ _ _ N N1)); [done|lia].
  - set (n := Nat.max (length u) (length v)).
    pose proof (pad_ok n u x Hu ltac:(lia)) as (LU & DU & VU). pose proof (pad_ok n v y Hv ltac:(lia)) as (LV & DV & VV).
    pose proof (mpMultiply_ok (pad n u) (pad n v) ltac:(congruence) DU DV) as S. rewrite LU, VU, VV in S.
    by apply (bd_norm_ok _ (2 * n)).
Qed.

Lemma bdSquare_ok u x : bd_is u x -> bd_is (bdSquare u) (x * x).
Proof.
  intros Hu. unfold bdSquare. set (n := Nat.max (length u) 1).
  pose proof (pad_ok n u x Hu ltac:(lia)) as (LU & DU & VU).
  pose proof (mpSquare_ok (pad n u) DU) as S. rewrite LU, VU in S. by apply (bd_norm_ok _ (2 * n)).
Qed.

Lemma power_loop_ok fuel : forall y z n Y Z', bd_is y Y -> bd_is z Z' -> 0 <= n < 2 ^ Z.of_nat fuel ->
  bd_is (power_loop fuel y z n) (Y * Z' ^ n).
Proof.
  induction fuel as [|fuel IH]; intros y z n Y Z' Hy Hz Hn.
  - assert (n = 0) as -> by (simpl in Hn; lia). rewrite Z.pow_0_r, Z.mul_1_r. done.
  - cbn [power_loop]. destruct (Z.ltb_spec 0 n) as [L|L]; [|assert (n = 0) as -> by lia; rewrite Z.pow_0_r, Z.mul_1_r; done].
    rewrite Nat2Z.inj_succ, Z.pow_succ_r in Hn by lia. rewrite Z.shiftr_div_pow2, Z.pow_1_r by lia.
    pose proof (Z.div_mod n 2 ltac:(lia)) as DM. pose proof (Z.mod_pos_bound n 2 ltac:(lia)) as RM.
    assert (Z.land n 1 = n mod 2) as -> by (change 1 with (Z.ones 1); rewrite Z.land_ones by lia; done).
    set (h := n / 2) in *. set (b := n mod 2) in *.
    assert (Y * Z' ^ n = Y * Z' ^ b * (Z' * Z') ^ h) as ->.
    { rewrite DM, Z.add_comm, Z.pow_add_r, Z.pow_mul_r, Z.pow_2_r by lia. ring. }
    set (y' := if b =? 0 then y else bdMultiply z y).
    assert (bd_is y' (Y * Z' ^ b)) as Hy'.
    { unfold y'. destruct (Z.eqb_spec b 0) as [->|]; [by rewrite Z.pow_0_r, Z.mul_1_r|].
      assert (b = 1) as -> by lia. rewrite Z.pow_1_r, Z.mul_comm. by apply bdMultiply_ok. }
    destruct (Z.ltb_spec 0 h) as [Lh|Lh].
    + apply IH; [done|by apply bdSquare_ok|lia].
    + assert (h = 0) as -> by lia. rewrite Z.pow_0_r, Z.mul_1_r. by destruct fuel.
Qed.

Lemma bdPower_ok g x n : bd_is g x -> 0 <= n < 2 ^ 16 -> bd_is (bdPower g n) (x ^ n).
Proof.
  intros Hg Hn. unfold bdPower. rewrite u16_small by done. replace (x ^ n) with (1 * x ^ n) by lia.
  apply power_loop_ok; [by apply bdSetShort_ok|done|]. simpl. lia.
Qed.

(** ** Division *)

Lemma bdDivide_ok u v x y : bd_is u x -> bd_is v y -> y <> 0 ->
  bd_is (bdDivide u v).1 (x / y) /\ bd_is (bdDivide u v).2 (x mod y).
Proof.
  intros (DU & VU) (DV & VV) N.
  destruct (div_ok u v (length u) x y ltac:(done) DV VV N) as [NQ NR]. unfold bdDivide; cbn [fst snd].
  split; by eapply bd_norm_ok.
Qed.

Lemma bdModulo_ok u v x y : bd_is u x -> bd_is v y -> y <> 0 -> bd_is (bdModulo u v) (x mod y).
Proof.
  intros (DU & VU) (DV & VV) N. unfold bdModulo.
  apply (bd_norm_ok _ (length v)). apply (mpModulo_ok _ _ (length u)); done.
Qed.

Lemma bdShortMod_ok u x d : bd_is u x -> 0 < d < 2 ^ 32 -> (bdShortMod u d).2 = x mod d.
Proof.
  intros (DU & <-) Hd. unfold bdShortMod; cbn [snd]. destruct u as [|u0 u'].
  - cbn [mpShortMod length replicate val]. rewrite Z.mod_0_l by lia. done.
  - by apply mpShortMod_ok.
Qed.

(** ** Comparison *)

Lemma bdShortCmp_ok a x d : bd_is a x -> is_digit d -> bdShortCmp a d = Z.sgn (x - d).
Proof. intros (D & <-) Hd. by apply mpShortCmp_ok. Qed.

Lemma bdCompare_ok a b x y : bd_is a x -> bd_is b y -> bdCompare a b = Z.sgn (x - y).
Proof.
  intros (DA & <-) (DB & <-). unfold bdCompare.
  destruct (Nat.eqb_spec (length a) (length b)) as [E|E]; cbn [negb]; [by apply mpCompare_ok|].
  destruct (Nat.ltb_spec (mpSizeof b) (mpSizeof a)) as [L|L].
  { symmetry. apply Z.sgn_pos. pose proof (mpSizeof_mono b a DB DA L). lia. }
  destruct (Nat.ltb_spec (mpSizeof a) (mpSizeof b)) as [L2|L2].
  { symmetry. apply Z.sgn_neg. pose proof (mpSizeof_mono a b DA DB L2). lia. }
  destruct (mpSizeof_spec a DA) as (LA & VA & _). destruct (mpSizeof_spec b DB) as (LB & VB & _).
  rewrite mpCompare_ok; [|rewrite !length_take; lia|by apply Forall_take|by apply Forall_take].
  replace (mpSizeof a) with (mpSizeof b) in * by lia. by rewrite VA, VB.
Qed.

Lemma forallb_nth_eq a b n : (n <= length a)%nat -> (n <= length b)%nat ->
  forallb (fun i => nth i a 0 =? nth i b 0) (rev (seq 0 n)) = true <-> take n a = take n b.
Proof.
  intros LA LB. rewrite forallb_forall. split.
  - intros H. apply (nth_ext _ _ 0 0); [rewrite !length_take; lia|].
    intros i Hi. rewrite length_take in Hi. rewrite !nth_lookup, !lookup_take_lt, <- !nth_lookup by lia.
    apply Z.eqb_eq, H. apply in_rev. rewrite rev_involutive. apply in_seq. lia.
  - intros E i Hi. apply in_rev in Hi. apply in_seq in Hi. apply Z.eqb_eq.
    assert (nth i (take n a) 0 = nth i (take n b) 0) as EN by (by rewrite E).
    rewrite !nth_lookup, !lookup_take_lt, <- !nth_lookup in EN by lia. done.
Qed.

Lemma bdIsEqual_ok a b x y : bd_is a x -> bd_is b y -> bdIsEqual a b = (x =? y).
Proof.
  intros (DA & <-) (DB & <-). unfold bdIsEqual.
  destruct (mpSizeof_spec a DA) as (LA & VA & _). destruct (mpSizeof_spec b DB) as (LB & VB & _).
  destruct (Nat.eqb_spec (mpSizeof a) (mpSizeof b)) as [E|E]; cbn [negb].
  - destruct (Nat.eqb_spec (mpSizeof a) 0) as [E0|E0]; cbn [andb].
    + rewrite <- E, E0. cbn [Nat.eqb]. symmetry. apply Z.eqb_eq.
      rewrite (proj1 (mpSizeof_zero a DA) E0). symmetry. apply (mpSizeof_zero b DB). lia.
    + apply Bool.eq_iff_eq_true. rewrite forallb_nth_eq, Z.eqb_eq by lia. split.
      * intros ET. rewrite <- VA, <- VB, <- E, ET. done.
      * intros EV. apply val_inj; [by apply Forall_take|by apply Forall_take|rewrite !length_take; lia|].
        rewrite VA, EV, <- VB, E. done.
  - symmetry. apply Z.eqb_neq. intros EV.
    destruct (le_lt_dec (mpSizeof a) (mpSizeof b)) as [L|L].
    + pose proof (mpSizeof_mono a b DA DB ltac:(lia)). lia.
    + pose proof (mpSizeof_mono b a DB DA ltac:(lia)). lia.
Qed.

(** ** Number theory *)

Lemma bdModExp_ok x e m X E M : bd_is x X -> bd_is e E -> bd_is m M -> 0 < M ->
  exists y, bdModExp x e m = Some y /\ bd_is y (modexp_value X E M) /\ mpSizeof y = length y.
Proof.
  intros Hx He Hm HM. unfold bdModExp. set (n := Nat.max (length x) (Nat.max (length e) (length m))).
  destruct (mpModExp_ok (pad n x) (pad n e) (pad n m) n X E M) as (y & rc & -> & NY); try (apply pad_ok; (done || lia)); [done|].
  cbn [mbind option_bind]. eexists. split; [reflexivity|]. split; [by eapply bd_norm_ok|]. apply norm_size, NY.
Qed.

Lemma bdModMult_ok x y m X Y M : bd_is x X -> bd_is y Y -> bd_is m M -> M <> 0 ->
  bd_is (bdModMult x y m) ((X * Y) mod M).
Proof.
  intros Hx Hy Hm HM. unfold bdModMult. set (n := Nat.max (length x) (Nat.max (length y) (length m))).
  apply (bd_norm_ok _ n). apply (mpModMult_ok _ n); try (apply pad_ok; (done || lia)); done.
Qed.

Lemma bdModInv_ok a m A M : bd_is a A -> bd_is m M -> 0 < M ->
  exists x status X, bdModInv a m = Some (x, status) /\ bd_is x X /\
    (Z.gcd A M = 1 -> status = 0 /\ 0 <= X <= M /\ (X * A) mod M = 1 mod M) /\
    (Z.gcd A M <> 1 -> status = 1 /\ X = 0).
Proof.
  intros Ha Hm HM. unfold bdModInv. set (n := Nat.max (length a) (length m)).
  destruct (mpModInv_ok (pad n a) (pad n m) n A M) as (x & st & X & -> & NX & H1 & H2); try (apply pad_ok; (done || lia)); [done|].
  cbn [mbind option_bind]. eexists _, _, X. split; [reflexivity|]. split; [by eapply bd_norm_ok|done].
Qed.

Lemma bdGcd_ok x y X Y : bd_is x X -> bd_is y Y -> exists g, bdGcd x y = Some g /\ bd_is g (Z.gcd X Y).
Proof.
  intros Hx Hy. unfold bdGcd. set (n := Nat.max (length x) (length y)).
  destruct (mpGcd_ok (pad n x) (pad n y) n X Y) as (g & -> & NG); try (apply pad_ok; (done || lia)).
  cbn [mbind option_bind]. eexists. split; [reflexivity|]. by eapply bd_norm_ok.
Qed.

(** ** Conversions *)

Lemma take_all_num a n k x : is_num a n (x mod Bpow n) -> n = k -> 0 <= x < Bpow n -> bd_is (norm (take k a)) x.
Proof.
  intros N <- R. rewrite Z.mod_small in N by done. destruct N as (L & D & V). rewrite take_ge by lia.
  apply (bd_norm_ok _ n). done.
Qed.

Lemma bdConvFromOctets_ok c : Forall is_byte c -> bd_is (bdConvFromOctets c).1 (octets_val c).
Proof.
  intros H. unfold bdConvFromOctets. set (nd := ((length c + 4 - 1) / 4)%nat).
  destruct (mpConvFromOctets_ok nd c H) as [N C]. destruct (mpConvFromOctets nd c) as [a n]. cbn [fst snd] in *.
  assert (nd = (length c + 3) / 4)%nat as End by (unfold nd; f_equal; lia).
  apply (take_all_num a nd); [done|lia|]. pose proof (octets_val_range c H) as R. split; [lia|].
  apply Z.lt_le_trans with (1 := proj2 R). unfold Bpow. change 256 with (2 ^ 8). rewrite <- Z.pow_mul_r by lia.
  apply Z.pow_le_mono_r; [lia|].
  pose proof (Nat.div_mod_eq (length c + 3) 4). pose proof (Nat.mod_upper_bound (length c + 3) 4). lia.
Qed.

Lemma bdConvFromHex_ok s : bd_is (bdConvFromHex s).1 (hex_val 0 s).
Proof.
  unfold bdConvFromHex. set (nd := (((length s + 1) / 2 + 4 - 1) / 4)%nat).
  destruct (mpConvFromHex_ok nd s) as [N C]. destruct (mpConvFromHex nd s) as [a n]. cbn [fst snd] in *.
  set (h := ((length s + 1) / 2)%nat) in *. assert (nd = (h + 3) / 4)%nat as End by (unfold nd; f_equal; lia).
  apply (take_all_num a nd); [done|lia|]. pose proof (hex_val_range s 0 ltac:(lia)) as R. split; [lia|].
  assert (hex_val 0 s < 16 ^ Z.of_nat (length s)) as R2 by lia.
  apply Z.lt_le_trans with (1 := R2). unfold Bpow. change 16 with (2 ^ 4). rewrite <- Z.pow_mul_r by lia.
  apply Z.pow_le_mono_r; [lia|].
  pose proof (Nat.div_mod_eq (h + 3) 4). pose proof (Nat.mod_upper_bound (h + 3) 4).
  pose proof (Nat.div_mod_eq (length s + 1) 2). pose proof (Nat.mod_upper_bound (length s + 1) 2). fold h in H1. lia.
Qed.

Lemma bdConvToHex_ok b x : bd_is b x -> hex_val 0 (bdConvToHex b) = x.
Proof. intros (D & <-). by apply mpConvToHex_ok. Qed.

(** Writing a number as octets: 4 octets per digit give it back. *)
Lemma bdConvToOctets_ok b x : bd_is b x -> x <> 0 ->
  length (bdConvToOctets b (bdSizeof b * 4)).1 = (bdSizeof b * 4)%nat /\
  Forall is_byte (bdConvToOctets b (bdSizeof b * 4)).1 /\
  octets_val (bdConvToOctets b (bdSizeof b * 4)).1 = x.
Proof.
  intros (D & <-) N. unfold bdConvToOctets, bdSizeof.
  assert (mpSizeof b <> 0%nat) as NS by (intros E; apply mpSizeof_zero in E; [done|done]).
  destruct (Nat.eqb_spec (mpSizeof b * 4) 0); [lia|]. cbn [fst].
  destruct (mpConvToOctets_ok b (mpSizeof b * 4) D) as (L & B & V). split; [done|]. split; [done|].
  rewrite V. apply Z.mod_small. split; [by apply val_nonneg|].
  pose proof (mpSizeof_bounds b D NS) as [_ U]. apply Z.lt_le_trans with (1 := U).
  unfold Bpow. change 256 with (2 ^ 8). rewrite <- Z.pow_mul_r by lia. apply Z.pow_le_mono_r; lia.
Qed.
