(* ===== verification/BigBits.v ===== *)
(** * BigBits: bit access, masks and shifts of digit arrays *)

From stdpp Require Import base list numbers option.
From S2P Require Import Prelude BigDigits BigDigitsProps BigArith BigShift BigSquare BigMod BigModProps BigModExp.
From S2P Require Import BigConv Bigd BigdProps.
Local Open Scope Z_scope.

(** Bit i of a number is bit (i mod 32) of its digit (i / 32). *)
Lemma val_testbit e i : digits e -> 0 <= i -> Z.testbit (val e) i = Z.testbit (nth (Z.to_nat (i / 32)) e 0) (i mod 32).
Proof.
  intros He Hi. pose proof (Z.mod_pos_bound i 32 ltac:(lia)) as R. pose proof (Z.div_pos i 32 Hi ltac:(lia)) as P.
  rewrite nth_val by done. rewrite Z.mod_pow2_bits_low by lia. unfold Bpow.
  rewrite <- Z.shiftr_div_pow2, Z.shiftr_spec by lia. f_equal. rewrite Z2Nat.id by done.
  pose proof (Z.div_mod i 32 ltac:(lia)). lia.
Qed.

(** An array is the number whose bits it has. *)
Lemma is_num_bits l n x : length l = n -> digits l -> 0 <= x ->
  (forall i, 0 <= i -> Z.testbit (nth (Z.to_nat (i / 32)) l 0) (i mod 32) = Z.testbit x i) -> is_num l n x.
Proof.
  intros L D P B. split; [done|]. split; [done|]. apply Z.bits_inj'. intros i Hi. rewrite val_testbit by done. by apply B.
Qed.

Lemma land_digit x y : is_digit x -> is_digit (Z.land x y).
Proof.
  intros Hx. assert (Z.land x y = u32 (Z.land x y)) as ->; [|apply u32_digit].
  apply Z.bits_inj'. intros i Hi. rewrite testbit_u32 by done. destruct (Z.ltb_spec i 32); [done|].
  by rewrite Z.land_spec, (testbit_digit x) by (done || lia).
Qed.

Lemma lor_digit x y : is_digit x -> is_digit y -> is_digit (Z.lor x y).
Proof.
  intros Hx Hy. assert (Z.lor x y = u32 (Z.lor x y)) as ->; [|apply u32_digit].
  apply Z.bits_inj'. intros i Hi. rewrite testbit_u32 by done. destruct (Z.ltb_spec i 32); [done|].
  by rewrite Z.lor_spec, !testbit_digit by (done || lia).
Qed.

(** ** One bit *)

Lemma bit_index i j : 0 <= i -> 0 <= j -> j / 32 = i / 32 -> (j mod 32 = i mod 32 <-> j = i).
Proof. intros. pose proof (Z.div_mod i 32 ltac:(lia)). pose proof (Z.div_mod j 32 ltac:(lia)). split; [lia|by intros ->]. Qed.

Lemma setbit_digit d b v j : is_digit d -> 0 <= b < 32 -> 0 <= j < 32 ->
  Z.testbit (if v =? 0 then Z.land d (u32 (Z.lnot (Z.shiftl 1 b))) else Z.lor d (Z.shiftl 1 b)) j =
  if j =? b then negb (v =? 0) else Z.testbit d j.
Proof.
  intros Hd Hb Hj. rewrite Z.shiftl_1_l. destruct (Z.eqb_spec v 0) as [->|N].
  - rewrite Z.land_spec, testbit_u32, Z.lnot_spec, Z.pow2_bits_eqb, (Z.eqb_sym b j) by lia.
    destruct (Z.ltb_spec j 32); [|lia]. destruct (j =? b); cbn; [by rewrite andb_false_r|by rewrite andb_true_r].
  - rewrite Z.lor_spec, Z.pow2_bits_eqb, (Z.eqb_sym b j) by lia. destruct (j =? b); cbn; [by rewrite orb_true_r|by rewrite orb_false_r].
Qed.

Definition with_bit (x i : Z) (v : bool) : Z := if v then Z.setbit x i else Z.clearbit x i.

Lemma with_bit_spec x i v j : 0 <= i -> 0 <= j -> Z.testbit (with_bit x i v) j = if j =? i then v else Z.testbit x j.
Proof.
  intros Hi Hj. destruct (Z.eqb_spec j i) as [->|N]; destruct v; cbn [with_bit].
  - by apply Z.setbit_eq.
  - by apply Z.clearbit_eq.
  - by apply Z.setbit_neq.
  - by apply Z.clearbit_neq.
Qed.

Lemma with_bit_nonneg x i v : 0 <= x -> 0 <= with_bit x i v.
Proof.
  intros H. destruct v; cbn [with_bit].
  - rewrite Z.setbit_spec'. apply Z.lor_nonneg. split; [done|]. lia.
  - rewrite Z.clearbit_spec'. apply Z.ldiff_nonneg. by left.
Qed.

Lemma mpSetBit_ok a n x i v : is_num a n x -> 0 <= i -> (Z.to_nat (i / 32) < n)%nat ->
  (mpSetBit a i v).2 = 0 /\ is_num (mpSetBit a i v).1 n (with_bit x i (negb (v =? 0))).
Proof.
  intros N Hi L. pose proof (is_num_range _ _ _ N) as R. destruct N as (LA & D & V). unfold mpSetBit.
  change BITS_PER_DIGIT with 32. rewrite LA. destruct (Nat.leb_spec n (Z.to_nat (i / 32))); [lia|]. cbn [fst snd].
  pose proof (Z.mod_pos_bound i 32 ltac:(lia)) as RB. pose proof (digits_nth a (Z.to_nat (i / 32)) D) as Hd.
  split; [done|]. apply is_num_bits.
  - by rewrite length_insert.
  - apply digits_insert; [done|]. destruct (v =? 0); [by apply land_digit|]. apply lor_digit; [done|].
    rewrite Z.shiftl_1_l. split; [lia|]. apply Z.pow_lt_mono_r; lia.
  - apply with_bit_nonneg. lia.
  - intros j Hj. rewrite with_bit_spec by done. pose proof (Z.mod_pos_bound j 32 ltac:(lia)) as RJ.
    destruct (Z.eq_dec (j / 32) (i / 32)) as [E|E].
    + rewrite E, nth_lookup, list_lookup_insert_eq by lia. cbn [from_option]. unfold id. rewrite setbit_digit by done.
      pose proof (bit_index i j Hi Hj E) as BI. destruct (Z.eqb_spec (j mod 32) (i mod 32)), (Z.eqb_spec j i); try tauto.
      rewrite <- E, <- val_testbit, V by done. done.
    + assert (Z.to_nat (i / 32) <> Z.to_nat (j / 32)) as NE
        by (pose proof (Z.div_pos i 32 Hi ltac:(lia)); pose proof (Z.div_pos j 32 Hj ltac:(lia)); lia).
      rewrite nth_insert_ne, <- val_testbit, V by done. destruct (Z.eqb_spec j i); [congruence|done].
Qed.

Lemma mpGetBit_ok a n x i : is_num a n x -> 0 <= i -> (Z.to_nat (i / 32) < n)%nat ->
  mpGetBit a i = Z.b2z (Z.testbit x i).
Proof.
  intros (LA & D & V) Hi L. unfold mpGetBit. change BITS_PER_DIGIT with 32. rewrite LA.
  destruct (Nat.leb_spec n (Z.to_nat (i / 32))); [lia|]. pose proof (Z.mod_pos_bound i 32 ltac:(lia)).
  rewrite Z.shiftl_1_l, land_pow2 by lia. rewrite <- val_testbit, V by done. destruct (Z.testbit x i); [|done].
  destruct (Z.eqb_spec (2 ^ (i mod 32)) 0); [lia|done].
Qed.

Lemma bdSetBit_ok a x i v : bd_is a x -> 0 <= i -> bd_is (bdSetBit a i v) (with_bit x i (negb (v =? 0))).
Proof.
  intros H Hi. unfold bdSetBit. change BITS_PER_DIGIT with 32.
  set (a' := if (length a <=? Z.to_nat (i / 32))%nat then pad (Z.to_nat (i / 32) + 1) a else a).
  assert (exists n, is_num a' n x /\ (Z.to_nat (i / 32) < n)%nat) as (n & N & L).
  { unfold a'. destruct (Nat.leb_spec (length a) (Z.to_nat (i / 32))) as [L|L].
    - exists (Z.to_nat (i / 32) + 1)%nat. split; [apply pad_ok; [done|lia]|lia].
    - exists (length a). split; [|done]. destruct H as (D & <-). by apply is_num_of. }
  apply (bd_norm_ok _ n). by apply mpSetBit_ok.
Qed.

(** ** Bitwise operations *)

Lemma nth_zip_with (f : Z -> Z -> Z) a b i : length a = length b -> f 0 0 = 0 ->
  nth i (zip_with f a b) 0 = f (nth i a 0) (nth i b 0).
Proof.
  revert b i. induction a as [|x a IH]; intros [|y b] [|i] L F; try done.
  cbn [zip_with nth]. apply IH; [by injection L|done].
Qed.

Lemma zip_bits f (g : bool -> bool -> bool) a b n x y :
  (forall u v i, 0 <= i -> Z.testbit (f u v) i = g (Z.testbit u i) (Z.testbit v i)) -> f 0 0 = 0 ->
  (forall u v, is_digit u -> is_digit v -> is_digit (f u v)) -> (forall u v, 0 <= u -> 0 <= v -> 0 <= f u v) ->
  is_num a n x -> is_num b n y -> is_num (zip_with f a b) n (f x y).
Proof.
  intros F F0 FD FP NA NB. pose proof (is_num_range _ _ _ NA). pose proof (is_num_range _ _ _ NB).
  destruct NA as (LA & DA & VA), NB as (LB & DB & VB). apply is_num_bits.
  - rewrite length_zip_with. lia.
  - clear -DA DB FD. revert b DB. induction DA as [|u a Hu HA IH]; intros [|v b] DB; [by constructor..|].
    inversion DB; subst. cbn [zip_with]. constructor; [by apply FD|by apply IH].
  - apply FP; lia.
  - intros i Hi. pose proof (Z.mod_pos_bound i 32 ltac:(lia)).
    rewrite nth_zip_with by (done || congruence). rewrite !F by lia. by rewrite <- !val_testbit, VA, VB.
Qed.

Lemma bitops_ok a b n x y : is_num a n x -> is_num b n y ->
  is_num (mpXorBits a b) n (Z.lxor x y) /\ is_num (mpOrBits a b) n (Z.lor x y) /\ is_num (mpAndBits a b) n (Z.land x y).
Proof.
  intros NA NB. split; [|split].
  - apply (zip_bits _ xorb); try done.
    + intros. apply Z.lxor_spec.
    + intros u v Hu Hv. assert (Z.lxor u v = u32 (Z.lxor u v)) as ->; [|apply u32_digit]. apply Z.bits_inj'. intros i Hi.
      rewrite testbit_u32 by done. destruct (Z.ltb_spec i 32); [done|]. by rewrite Z.lxor_spec, !testbit_digit by (done || lia).
    + intros. by apply Z.lxor_nonneg.
  - apply (zip_bits _ orb); try done; [intros; apply Z.lor_spec|intros; by apply lor_digit|intros; by apply Z.lor_nonneg].
  - apply (zip_bits _ andb); try done; [intros; apply Z.land_spec|intros; by apply land_digit|intros; apply Z.land_nonneg; by left].
Qed.

Lemma bdBitops_ok b c x y : bd_is b x -> bd_is c y ->
  bd_is (bdXorBits b c) (Z.lxor x y) /\ bd_is (bdOrBits b c) (Z.lor x y) /\ bd_is (bdAndBits b c) (Z.land x y).
Proof.
  intros Hb Hc. unfold bdXorBits, bdOrBits, bdAndBits. set (n := Nat.max (length b) (length c)).
  destruct (bitops_ok (pad n b) (pad n c) n x y) as (X & O & A); try (apply pad_ok; (done || lia)).
  split; [|split]; by eapply bd_norm_ok.
Qed.

(** ** Shifts *)

Lemma bdShiftRight_ok b x s : bd_is b x -> 0 <= s -> bd_is (bdShiftRight b s) (x / 2 ^ s).
Proof. intros (D & <-) Hs. unfold bdShiftRight. eapply bd_norm_ok. by apply mpShiftRight_ok. Qed.

Lemma bdShiftLeft_ok b x s : bd_is b x -> 0 <= s -> bd_is (bdShiftLeft b s) (x * 2 ^ s).
Proof.
  intros H Hs. unfold bdShiftLeft. change BITS_PER_DIGIT with 32.
  set (m := if 32 <=? s then (length b + Z.to_nat (s / 32))%nat else length b).
  assert (m = length b + Z.to_nat (s / 32))%nat as Em.
  { unfold m. destruct (Z.leb_spec 32 s); [done|]. rewrite Z.div_small by lia. simpl. lia. }
  pose proof (pad_ok (S m) b x H ltac:(lia)) as (L & D & V).
  pose proof (mpShiftLeft_ok (pad (S m) b) s Hs D) as N. rewrite L, V in N. eapply bd_norm_ok.
  rewrite Z.mod_small in N; [exact N|]. destruct H as (DB & <-). pose proof (val_range b DB) as R.
  split; [pose proof (Z.pow_nonneg 2 s ltac:(lia)); nia|].
  assert (Bpow (length b) * 2 ^ s <= Bpow (S m)); [|nia]. unfold Bpow. rewrite <- Z.pow_add_r by lia.
  apply Z.pow_le_mono_r; [lia|]. pose proof (Z.div_mod s 32 ltac:(lia)). pose proof (Z.mod_pos_bound s 32 ltac:(lia)).
  pose proof (Z.div_pos s 32 Hs ltac:(lia)). lia.
Qed.
