(* ===== verification/BigSpec.v ===== *)
(** * BigSpec: what the big-number library promises

    The contracts of bigdigits.c and bigd.c in the form their callers use
    them.  The arrays that the mp functions return have the length and the
    digits the C code declares; programs over BIGD values compute the numbers
    that the same programs over [Z] do. *)

From stdpp Require Import base list numbers option.
From S2P Require Import Prelude BigDigits BigDigitsProps BigArith BigShift BigDivide BigSquare BigMod BigModProps BigModExp.
From S2P Require Import Crypt CryptProps BigConv Bigd BigdProps BigBits.
Local Open Scope Z_scope.

(** ** Types *)

(** An array of n 32-bit digits, DIGIT_T a[n]. *)
Definition array (n : nat) (a : list Z) : Prop := length a = n /\ digits a.

Lemma num_array a n x : is_num a n x -> array n a.
Proof. by intros (L & D & _). Qed.

(** The arithmetic of bigdigits.c is typed: from operands of n digits the
    results are arrays of 32-bit digits of the length the callers allocate (2n
    digits for products and squares, n digits for sums, differences, shifts,
    quotients and remainders), carries and borrows of sums and differences are
    0 or 1, and the carry of a multiplication by a digit is a digit. *)
Theorem mp_results_typed n u v d s : array n u -> array n v -> n <> 0%nat -> is_digit d -> 0 <= s -> val v <> 0 ->
  (array n (mpAdd u v).1 /\ 0 <= (mpAdd u v).2 <= 1) /\ (array n (mpSubtract u v).1 /\ 0 <= (mpSubtract u v).2 <= 1) /\
  array (2 * n) (mpMultiply u v) /\ array (2 * n) (mpSquare u) /\
  array n (mpShiftLeft u s).1 /\ array n (mpShiftRight u s).1 /\
  (array n (mpShortAdd u d).1 /\ 0 <= (mpShortAdd u d).2 <= 1) /\ (array n (mpShortSub u d).1 /\ 0 <= (mpShortSub u d).2 <= 1) /\
  (array n (mpShortMult u d).1 /\ is_digit (mpShortMult u d).2) /\
  array n (div_q u v) /\ array n (div_r u v) /\ array n (mpModulo u v).
Proof.
  intros (LU & DU) (LV & DV) N Hd Hs NZ. assert (u <> []) as NE by (intros ->; cbn in LU; lia).
  pose proof (mpAdd_ok u v ltac:(congruence) DU DV) as HA. destruct (mpAdd u v) as [w1 c1]. destruct HA as (C1 & N1).
  pose proof (mpSubtract_ok u v ltac:(congruence) DU DV) as HS. destruct (mpSubtract u v) as [w2 c2]. destruct HS as (C2 & N2).
  pose proof (mpShortAdd_ok u d NE DU Hd) as HSA. destruct (mpShortAdd u d) as [w3 c3]. destruct HSA as (C3 & N3).
  pose proof (mpShortSub_ok u d NE DU Hd) as HSS. destruct (mpShortSub u d) as [w4 c4]. destruct HSS as (C4 & N4).
  pose proof (mpShortMult_ok u d DU Hd) as HSM. destruct (mpShortMult u d) as [w5 c5]. destruct HSM as (C5 & N5).
  destruct (div_ok u v n (val u) (val v) ltac:(done) DV ltac:(done) NZ) as [NQ NR].
  pose proof (mpMultiply_ok u v ltac:(congruence) DU DV) as NM. pose proof (mpSquare_ok u DU) as NS.
  pose proof (mpShiftLeft_ok u s Hs DU) as NL. pose proof (mpShiftRight_ok u s Hs DU) as NR'.
  pose proof (mpModulo_ok u v n n (val u) (val v) ltac:(done) ltac:(done) NZ) as NMo.
  rewrite LU in *. cbn [fst snd]. repeat (split; [first [done|by eapply num_array|split; [by eapply num_array|done]]|]). by eapply num_array.
Qed.

Lemma mp_results_typed_witness :
  array 4 (mpMultiply [5; 4294967295] [4294967295; 4294967295]) /\ array 2 (div_q [5; 4294967295] [4294967295; 4294967295]).
Proof.
  assert (array 2 [5; 4294967295] /\ array 2 [4294967295; 4294967295]) as [A B] by (split; (split; [done|by repeat constructor])).
  destruct (mp_results_typed 2 [5; 4294967295] [4294967295; 4294967295] 7 33 A B ltac:(lia) ltac:(done) ltac:(lia) ltac:(done))
    as (_ & _ & M & _ & _ & _ & _ & _ & _ & Q & _). by split.
Defined.

(** ** Multiple precision *)

(** C10: mpDivide is exact division: for a non-zero divisor it succeeds, u = q v
    + r with 0 <= r < v, quotient and remainder are digit arrays as long as u,
    and the divisor, which the code normalises in place, is restored. *)
Theorem mp_divide_exact u v : digits u -> digits v -> val v <> 0 ->
  let '(rc, q, r, v') := mpDivide u v in
  rc = 0 /\ array (length u) q /\ array (length u) r /\ val u = val q * val v + val r /\ 0 <= val r < val v /\ v' = v.
Proof.
  intros DU DV NZ. pose proof (mpDivide_ok u v DU DV NZ) as H. destruct (mpDivide u v) as [[[rc q] r] v'].
  destruct H as (-> & NQ & NR & ->). pose proof (val_nonneg v DV).
  split; [done|]. split; [by eapply num_array|]. split; [by eapply num_array|].
  destruct NQ as (_ & _ & ->), NR as (_ & _ & ->). pose proof (Z.div_mod (val u) (val v) NZ). pose proof (Z.mod_pos_bound (val u) (val v)).
  split; [lia|]. split; [lia|done].
Qed.

Lemma mp_divide_exact_witness :
  mpDivide [0; 0; 0x80000000; 0x7fffffff] [1; 0; 0x80000000] =
    (0, [0xfffffffe; 0; 0; 0], [2; 0xffffffff; 0x7fffffff; 0], [1; 0; 0x80000000]) /\
  val [0; 0; 0x80000000; 0x7fffffff] = val [0xfffffffe; 0; 0; 0] * val [1; 0; 0x80000000] + val [2; 0xffffffff; 0x7fffffff; 0].
Proof.
  pose proof (mp_divide_exact [0; 0; 0x80000000; 0x7fffffff] [1; 0; 0x80000000]
    ltac:(by repeat constructor) ltac:(by repeat constructor) ltac:(by vm_compute)) as H.
  assert (mpDivide [0; 0; 0x80000000; 0x7fffffff] [1; 0; 0x80000000] =
    (0, [0xfffffffe; 0; 0; 0], [2; 0xffffffff; 0x7fffffff; 0], [1; 0; 0x80000000])) as E by (vm_compute; reflexivity).
  split; [exact E|]. rewrite E in H. destruct H as (_ & _ & _ & V & _). exact V.
Defined.

(** C16: The sliding-window exponentiation mpModExp computes x^e mod m for every
    modulus and every exponent but 0, for which it returns 1; the result has
    as many digits as the operands. *)
Theorem mp_modexp_is_power n x e m : array n x -> array n e -> array n m -> 0 < val m ->
  exists y rc, mpModExp x e m = Some (y, rc) /\ array n y /\ val y = if val e =? 0 then 1 else val x ^ val e mod val m.
Proof.
  intros (LX & DX) (LE & DE) (LM & DM) P.
  destruct (mpModExp_ok x e m n (val x) (val e) (val m)) as (y & rc & E & NY); try done.
  exists y, rc. split; [done|]. split; [by eapply num_array|]. by destruct NY as (_ & _ & ->).
Qed.

Lemma mp_modexp_is_power_witness : exists y rc, mpModExp [7; 9] [200; 0] [1000; 77] = Some (y, rc) /\ array 2 y /\
  val y = 38654705671 ^ 200 mod 330712482792.
Proof.
  destruct (mp_modexp_is_power 2 [7; 9] [200; 0] [1000; 77]
    ltac:(by split; [done|repeat constructor]) ltac:(by split; [done|repeat constructor]) ltac:(by split; [done|repeat constructor])
    ltac:(by vm_compute)) as (y & rc & E & A & V).
  exists y, rc. split; [exact E|]. split; [exact A|]. rewrite V. vm_compute. reflexivity.
Defined.

(** mpModInv returns 0 and an inverse modulo v exactly when u and v are
    coprime; otherwise it returns 1 and zero.  mpGcd computes the greatest
    common divisor.  Both loops end. *)
Theorem mp_inverse_and_gcd n u v : array n u -> array n v -> 0 < val v ->
  (exists g, mpGcd u v = Some g /\ array n g /\ val g = Z.gcd (val u) (val v)) /\
  (exists x rc, mpModInv u v = Some (x, rc) /\ array n x /\
    (Z.gcd (val u) (val v) = 1 -> rc = 0 /\ (val x * val u) mod val v = 1 mod val v) /\
    (Z.gcd (val u) (val v) <> 1 -> rc = 1 /\ val x = 0)).
Proof.
  intros (LU & DU) (LV & DV) P. split.
  - destruct (mpGcd_ok u v n (val u) (val v)) as (g & E & NG); try done. exists g. split; [done|]. split; [by eapply num_array|]. by destruct NG as (_ & _ & ->).
  - destruct (mpModInv_ok u v n (val u) (val v)) as (x & rc & X & E & NX & H1 & H2); try done.
    exists x, rc. split; [done|]. split; [by eapply num_array|]. destruct NX as (_ & _ & ->). split; [|done].
    intros G. destruct (H1 G) as (? & _ & ?). done.
Qed.

Lemma mp_inverse_and_gcd_witness :
  (exists g, mpGcd [12; 5] [18; 4] = Some g /\ array 2 g /\ val g = Z.gcd (val [12; 5]) (val [18; 4])) /\
  (exists x rc, mpModInv [12; 5] [18; 4] = Some (x, rc) /\ array 2 x /\
    (Z.gcd (val [12; 5]) (val [18; 4]) = 1 -> rc = 0 /\ (val x * val [12; 5]) mod val [18; 4] = 1 mod val [18; 4]) /\
    (Z.gcd (val [12; 5]) (val [18; 4]) <> 1 -> rc = 1 /\ val x = 0)).
Proof.
  exact (mp_inverse_and_gcd 2 [12; 5] [18; 4] ltac:(by split; [done|repeat constructor]) ltac:(by split; [done|repeat constructor]) ltac:(by vm_compute)).
Defined.

(** The squaring routine, which computes the mixed products once and
    doubles them, writes the same array as the general multiplication. *)
Theorem mp_square_is_product x : digits x -> mpSquare x = mpMultiply x x.
Proof.
  intros D. apply (is_num_inj _ _ (2 * length x) (val x * val x)); [by apply mpSquare_ok|by apply mpMultiply_ok].
Qed.

Lemma mp_square_is_product_witness : mpSquare [0xffffffff; 0xffffffff; 3] = mpMultiply [0xffffffff; 0xffffffff; 3] [0xffffffff; 0xffffffff; 3].
Proof. exact (mp_square_is_product [0xffffffff; 0xffffffff; 3] ltac:(by repeat constructor)). Defined.

(** mpSqrt and mpCubeRoot end with the integer roots when 2 n + 1 fits the
    array; the bound matters, since the sums of the Newton steps lose their
    carry: the square root of 2^32 - 1 and the cube root of 2^31, as numbers of
    one digit, come out as 0. *)
Theorem mp_roots_exact k n : array k n -> 2 * val n + 1 < Bpow k ->
  (exists s, mpSqrt n = Some s /\ array k s /\ val s * val s <= val n < (val s + 1) * (val s + 1)) /\
  (forall r, is_cbrt (val n) r -> exists s, mpCubeRoot n = Some s /\ array k s /\ val s = r) /\
  mpSqrt [0xffffffff] = Some [0] /\ mpCubeRoot [0x80000000] = Some [0].
Proof.
  intros (L & D) H. pose proof (val_nonneg n D) as P. split; [|split; [|split; vm_compute; reflexivity]].
  - destruct (mpSqrt_ok n k (val n)) as (s & E & NS); [done|lia|]. exists s. split; [done|]. split; [by eapply num_array|].
    destruct NS as (_ & _ & ->). destruct (Z.sqrt_spec (val n) P). split; [done|lia].
  - intros r Hr. destruct (mpCubeRoot_ok n k (val n) r) as (s & E & NS); [done|done|done|]. exists s. split; [done|].
    split; [by eapply num_array|]. by destruct NS as (_ & _ & ->).
Qed.

Lemma mp_roots_exact_witness : (exists s, mpSqrt [99; 7] = Some s /\ array 2 s /\ val s * val s <= val [99; 7] < (val s + 1) * (val s + 1)) /\
  (exists s, mpCubeRoot [99; 7] = Some s /\ array 2 s /\ val s = 3109).
Proof.
  destruct (mp_roots_exact 2 [99; 7] ltac:(by split; [done|repeat constructor]) ltac:(by vm_compute)) as (S & C & _).
  split; [exact S|]. apply C. red. vm_compute. intuition congruence.
Defined.

(** ** BIGD programs *)

(** Programs over BIGD variables and what they mean on numbers. *)
Inductive bexpr :=
  | BNum (digits : list Z) | BShort (d : Z)
  | BAdd (a b : bexpr) | BSub (a b : bexpr) | BMul (a b : bexpr) | BSqr (a : bexpr) | BPow (a : bexpr) (n : Z)
  | BDiv (a b : bexpr) | BMod (a b : bexpr) | BShl (a : bexpr) (s : Z) | BShr (a : bexpr) (s : Z)
  | BXor (a b : bexpr) | BOr (a b : bexpr) | BAnd (a b : bexpr)
  | BGcd (a b : bexpr) | BModMult (a b m : bexpr) | BModExp (a b m : bexpr).

Fixpoint beval (e : bexpr) : option (list Z) :=
  match e with
  | BNum l => Some l
  | BShort d => Some (bdSetShort d)
  | BAdd a b => x ← beval a; y ← beval b; Some (bdAdd x y).1
  | BSub a b => x ← beval a; y ← beval b; Some (bdSubtract x y).1
  | BMul a b => x ← beval a; y ← beval b; Some (bdMultiply x y)
  | BSqr a => x ← beval a; Some (bdSquare x)
  | BPow a n => x ← beval a; Some (bdPower x n)
  | BDiv a b => x ← beval a; y ← beval b; Some (bdDivide x y).1
  | BMod a b => x ← beval a; y ← beval b; Some (bdModulo x y)
  | BShl a s => x ← beval a; Some (bdShiftLeft x s)
  | BShr a s => x ← beval a; Some (bdShiftRight x s)
  | BXor a b => x ← beval a; y ← beval b; Some (bdXorBits x y)
  | BOr a b => x ← beval a; y ← beval b; Some (bdOrBits x y)
  | BAnd a b => x ← beval a; y ← beval b; Some (bdAndBits x y)
  | BGcd a b => x ← beval a; y ← beval b; bdGcd x y
  | BModMult a b m => x ← beval a; y ← beval b; z ← beval m; Some (bdModMult x y z)
  | BModExp a b m => x ← beval a; y ← beval b; z ← beval m; bdModExp x y z
  end.

Definition when {A} (c : bool) (x : A) : option A := if c then Some x else None.

(** The number; None where an operation is used outside its contract. *)
Fixpoint zeval (e : bexpr) : option Z :=
  match e with
  | BNum l => when (forallb (fun d => (0 <=? d) && (d <? 2 ^ 32)) l) (val l)
  | BShort d => when ((0 <=? d) && (d <? 2 ^ 32)) d
  | BAdd a b => x ← zeval a; y ← zeval b; Some (x + y)
  | BSub a b => x ← zeval a; y ← zeval b; when (y <=? x) (x - y)
  | BMul a b => x ← zeval a; y ← zeval b; Some (x * y)
  | BSqr a => x ← zeval a; Some (x * x)
  | BPow a n => x ← zeval a; when ((0 <=? n) && (n <? 2 ^ 16)) (x ^ n)
  | BDiv a b => x ← zeval a; y ← zeval b; when (negb (y =? 0)) (x / y)
  | BMod a b => x ← zeval a; y ← zeval b; when (negb (y =? 0)) (x mod y)
  | BShl a s => x ← zeval a; when (0 <=? s) (x * 2 ^ s)
  | BShr a s => x ← zeval a; when (0 <=? s) (x / 2 ^ s)
  | BXor a b => x ← zeval a; y ← zeval b; Some (Z.lxor x y)
  | BOr a b => x ← zeval a; y ← zeval b; Some (Z.lor x y)
  | BAnd a b => x ← zeval a; y ← zeval b; Some (Z.land x y)
  | BGcd a b => x ← zeval a; y ← zeval b; Some (Z.gcd x y)
  | BModMult a b m => x ← zeval a; y ← zeval b; z ← zeval m; when (negb (z =? 0)) ((x * y) mod z)
  | BModExp a b m => x ← zeval a; y ← zeval b; z ← zeval m; when (0 <? z) (modexp_value x y z)
  end.

Lemma when_some {A} c (x y : A) : when c x = Some y -> c = true /\ x = y.
Proof. destruct c; [by intros [= ->]|done]. Qed.

(** Running an operand: its number is known and its BIGD stands for it. *)
Ltac operand IH H :=
  match type of H with
  | (zeval ?a ≫= _) = Some _ =>
    let x := fresh "x" in let E := fresh "E" in
    destruct (zeval a) as [x|] eqn:E; cbn [mbind option_bind] in H; [|discriminate H];
    let b := fresh "b" in let B := fresh "B" in
    destruct (IH _ eq_refl) as (b & -> & B); cbn [mbind option_bind]
  end.

(** C17: BIGD programs refine arithmetic on natural numbers: when a program is
    used within the contracts (no negative difference, no division by zero),
    every operation of it ends and the result stands for the number that the
    program denotes. *)
Theorem bd_programs_refine e : forall x, zeval e = Some x -> exists b, beval e = Some b /\ bd_is b x.
Proof.
  induction e as [l|d|a IHa b IHb|a IHa b IHb|a IHa b IHb|a IHa|a IHa n|a IHa b IHb|a IHa b IHb|a IHa s|a IHa s
    |a IHa b IHb|a IHa b IHb|a IHa b IHb|a IHa b IHb|a IHa b IHb m IHm|a IHa b IHb m IHm]; intros x H; cbn [zeval beval] in *;
    try operand IHa H; try operand IHb H; try operand IHm H;
    try (apply when_some in H as [C <-]; to_prop); try injection H as <-.
  - exists l. split; [done|]. split; [|done]. rewrite forallb_forall in C. apply Forall_forall. intros d Hd.
    apply list_elem_of_In, C in Hd. unfold is_digit. lia.
  - eexists. split; [done|]. apply bdSetShort_ok. done.
  - eexists. split; [done|]. by apply bdAdd_ok.
  - eexists. split; [done|]. by apply bdSubtract_ok.
  - eexists. split; [done|]. by apply bdMultiply_ok.
  - eexists. split; [done|]. by apply bdSquare_ok.
  - eexists. split; [done|]. by apply bdPower_ok.
  - eexists. split; [done|]. by apply bdDivide_ok.
  - eexists. split; [done|]. by apply bdModulo_ok.
  - eexists. split; [done|]. by apply bdShiftLeft_ok.
  - eexists. split; [done|]. by apply bdShiftRight_ok.
  - eexists. split; [done|]. by apply bdBitops_ok.
  - eexists. split; [done|]. by apply bdBitops_ok.
  - eexists. split; [done|]. by apply bdBitops_ok.
  - by apply bdGcd_ok.
  - eexists. split; [done|]. by apply bdModMult_ok.
  - edestruct bdModExp_ok as (y & Ey & Hy & _); [..|by exists y]; done.
Qed.

Lemma bd_programs_refine_witness :
  exists b, beval (BMod (BSub (BPow (BShort 3) 50) (BMul (BNum [5; 9]) (BShort 7))) (BAdd (BNum [1; 0; 2]) (BShl (BShort 1) 40))) = Some b /\
    bd_is b ((3 ^ 50 - 38654705669 * 7) mod (36893488147419103233 + 2 ^ 40)).
Proof.
  apply (bd_programs_refine (BMod (BSub (BPow (BShort 3) 50) (BMul (BNum [5; 9]) (BShort 7))) (BAdd (BNum [1; 0; 2]) (BShl (BShort 1) 40)))).
  vm_compute. reflexivity.
Defined.

(** A BIGD printed in hexadecimal and read back is the same number, and
    written as 4 octets per digit and read back it is too. *)
Theorem bd_text_roundtrip b : digits b ->
  val (bdConvFromHex (bdConvToHex b)).1 = val b /\
  (val b <> 0 -> val (bdConvFromOctets (bdConvToOctets b (bdSizeof b * 4)).1).1 = val b).
Proof.
  intros D. assert (bd_is b (val b)) as H by done. split.
  - destruct (bdConvFromHex_ok (bdConvToHex b)) as (_ & ->). by apply bdConvToHex_ok.
  - intros N. destruct (bdConvToOctets_ok b (val b) H N) as (_ & B & V). destruct (bdConvFromOctets_ok _ B) as (_ & ->). done.
Qed.

Lemma bd_text_roundtrip_witness : val (bdConvFromHex (bdConvToHex [0xdeadbeef; 17; 0])).1 = 0x11deadbeef.
Proof. exact (proj1 (bd_text_roundtrip [0xdeadbeef; 17; 0] ltac:(by repeat constructor))). Defined.
