(* ===== verification/Rand.v ===== *)
(** * Rand: the LFSR113 generator of src/rand.c

    Four linear feedback shift registers, the last one disturbed by the
    system timer.  Words are 32-bit; the values the timer register shows at
    the successive reads are a parameter. *)

From stdpp Require Import base list numbers.
From S2P Require Import Prelude BigDigits BigDigitsProps BigShift.
Local Open Scope Z_scope.

(** lfsr113[0..3] and the number of timer reads so far. *)
Record rand_state := { z1 : Z; z2 : Z; z3 : Z; z4 : Z; reads : nat }.

(** The initial contents of lfsr113[]. *)
Definition lfsr113 : rand_state := {| z1 := 0x00009821; z2 := 0x00098722; z3 := 0x00986332; z4 := 0x961FEFA7; reads := 0 |}.

Definition lfsr113_0 (x : Z) : Z :=
  Z.lxor (u32 (Z.shiftl (Z.land x 0xFFFFFFFE) 18)) (Z.shiftr (Z.lxor (u32 (Z.shiftl x 6)) x) 13).
Definition lfsr113_1 (x : Z) : Z :=
  Z.lxor (u32 (Z.shiftl (Z.land x 0xFFFFFFF8) 2)) (Z.shiftr (Z.lxor (u32 (Z.shiftl x 2)) x) 27).
Definition lfsr113_2 (x : Z) : Z :=
  Z.lxor (u32 (Z.shiftl (Z.land x 0xFFFFFFF0) 7)) (Z.shiftr (Z.lxor (u32 (Z.shiftl x 13)) x) 21).
Definition lfsr113_3 (timer x : Z) : Z :=
  Z.lxor (Z.lxor (u32 (Z.shiftl (Z.land x 0xFFFFFF80) 13)) (Z.shiftr (Z.lxor (u32 (Z.shiftl x 3)) x) 12)) timer.

(** One turn of the loop of rand_fill. *)
Definition lfsr113_next (timer : Z) (st : rand_state) : Z * rand_state :=
  let a := lfsr113_0 (z1 st) in
  let b := lfsr113_1 (z2 st) in
  let c := lfsr113_2 (z3 st) in
  let d := lfsr113_3 timer (z4 st) in
  (Z.lxor (Z.lxor (Z.lxor a b) c) d, {| z1 := a; z2 := b; z3 := c; z4 := d; reads := reads st |}).

Fixpoint fill_loop (timer : Z) (length : nat) (st : rand_state) : list Z * rand_state :=
  match length with
  | O => ([], st)
  | S n =>
    let '(x, st) := lfsr113_next timer st in
    let '(xs, st) := fill_loop timer n st in
    (x :: xs, st)
  end.

Section Timer.
(** What GET_DIGIC_TIMER() shows at the k-th read. *)
Variable timer : nat -> Z.

Definition read_timer (st : rand_state) : Z * rand_state :=
  (timer (reads st), {| z1 := z1 st; z2 := z2 st; z3 := z3 st; z4 := z4 st; reads := S (reads st) |}).

Definition rand_fill (length : nat) (st : rand_state) : list Z * rand_state :=
  let '(t, st) := read_timer st in fill_loop t length st.

(** lfsr113[loops % 4] ^= x *)
Definition xor_word (i : nat) (x : Z) (st : rand_state) : rand_state :=
  {| z1 := if (i =? 0)%nat then Z.lxor (z1 st) x else z1 st;
     z2 := if (i =? 1)%nat then Z.lxor (z2 st) x else z2 st;
     z3 := if (i =? 2)%nat then Z.lxor (z3 st) x else z3 st;
     z4 := if (i =? 3)%nat then Z.lxor (z4 st) x else z4 st;
     reads := reads st |}.

Definition seed_step (seed : Z) (loops : nat) (st : rand_state) : rand_state :=
  let '(t, st) := read_timer st in
  (rand_fill 1 (xor_word (loops mod 4) (u32 (seed + t)) st)).2.

Definition rand_seed (seed : Z) (st : rand_state) : rand_state :=
  fold_left (fun st loops => seed_step seed loops st) (seq 0 128) st.
End Timer.

(** ** The registers keep their width and never die *)

(** The step of a register with [k] unused low bits. *)
Definition lfsr_reg (k s a b x : Z) : Z :=
  Z.lxor (u32 (Z.shiftl (Z.ldiff x (Z.ones k)) s)) (Z.shiftr (Z.lxor (u32 (Z.shiftl x a)) x) b).

Lemma land_mask x k : is_digit x -> 0 <= k <= 32 -> Z.land x (2 ^ 32 - 2 ^ k) = Z.ldiff x (Z.ones k).
Proof.
  intros H K. apply Z.bits_inj'. intros i Hi.
  replace (2 ^ 32 - 2 ^ k) with (Z.ldiff (Z.ones 32) (Z.ones k)).
  - rewrite Z.land_spec, !Z.ldiff_spec. rewrite (Z.testbit_ones_nonneg 32) by lia.
    destruct (Z.ltb_spec i 32); [done|]. rewrite (testbit_digit x i) by (done || lia). done.
  - rewrite <- Z.sub_nocarry_ldiff; [rewrite !Z.ones_equiv; lia|]. apply Z.bits_inj'. intros j Hj.
    rewrite Z.ldiff_spec, Z.bits_0, !Z.testbit_ones_nonneg by lia. destruct (Z.ltb_spec j k), (Z.ltb_spec j 32); (done || lia).
Qed.

Lemma lfsr113_0_step x : is_digit x -> lfsr113_0 x = lfsr_reg 1 18 6 13 x.
Proof. intros H. unfold lfsr113_0, lfsr_reg. by rewrite <- land_mask. Qed.
Lemma lfsr113_1_step x : is_digit x -> lfsr113_1 x = lfsr_reg 3 2 2 27 x.
Proof. intros H. unfold lfsr113_1, lfsr_reg. by rewrite <- land_mask. Qed.
Lemma lfsr113_2_step x : is_digit x -> lfsr113_2 x = lfsr_reg 4 7 13 21 x.
Proof. intros H. unfold lfsr113_2, lfsr_reg. by rewrite <- land_mask. Qed.
Lemma lfsr113_3_step t x : is_digit x -> lfsr113_3 t x = Z.lxor (lfsr_reg 7 13 3 12 x) t.
Proof. intros H. unfold lfsr113_3, lfsr_reg. by rewrite <- land_mask. Qed.

Lemma lxor_digit x y : is_digit x -> is_digit y -> is_digit (Z.lxor x y).
Proof.
  intros Hx Hy. assert (Z.lxor x y = u32 (Z.lxor x y)) as ->; [|apply u32_digit].
  apply Z.bits_inj'. intros i Hi. rewrite testbit_u32 by done. destruct (Z.ltb_spec i 32); [done|].
  rewrite Z.lxor_spec, !testbit_digit by (done || lia). done.
Qed.

Lemma shiftr_digit x b : 0 <= b -> is_digit x -> is_digit (Z.shiftr x b).
Proof.
  intros Hb Hx. red in Hx. rewrite Z.shiftr_div_pow2 by done. pose proof (Z.pow_pos_nonneg 2 b ltac:(lia) Hb).
  split; [apply Z.div_pos; lia|]. apply Z.le_lt_trans with x; [|lia]. apply Z.div_le_upper_bound; nia.
Qed.

Lemma lfsr_reg_digit k s a b x : 0 <= b -> is_digit x -> is_digit (lfsr_reg k s a b x).
Proof.
  intros Hb Hx. apply lxor_digit; [apply u32_digit|]. apply shiftr_digit; [done|]. apply lxor_digit; [apply u32_digit|done].
Qed.

(** The high bits of the result are the used low bits of x, its low bits the
    feedback. *)
Lemma lfsr_reg_bit k s a b x i : 0 <= k -> 0 <= s -> 0 <= a -> 0 <= b -> k + s + b = 32 -> is_digit x -> k <= i < 32 ->
  Z.testbit (lfsr_reg k s a b x) i =
  if i <? k + s then xorb (Z.testbit x (i + b - a)) (Z.testbit x (i + b)) else Z.testbit x (i - s).
Proof.
  intros Hk Hs Hap Hbp E Hx Hi. unfold lfsr_reg.
  rewrite Z.lxor_spec, testbit_u32, Z.shiftr_spec, Z.lxor_spec, testbit_u32, !Z.shiftl_spec by lia.
  destruct (Z.ltb_spec i 32); [|lia]. cbn [andb].
  destruct (Z.ltb_spec i (k + s)) as [L|L].
  - destruct (Z.ltb_spec (i + b) 32); [|lia]. cbn [andb].
    assert (Z.testbit (Z.ldiff x (Z.ones k)) (i - s) = false) as ->; [|done].
    destruct (Z.lt_ge_cases (i - s) 0); [by apply Z.testbit_neg_r|].
    rewrite Z.ldiff_spec, Z.testbit_ones_nonneg by lia. destruct (Z.ltb_spec (i - s) k); [by rewrite andb_false_r|lia].
  - destruct (Z.ltb_spec (i + b) 32); [lia|]. cbn [andb]. rewrite (testbit_digit x (i + b)), !xorb_false_r by (done || lia).
    rewrite Z.ldiff_spec, Z.testbit_ones_nonneg by lia. destruct (Z.ltb_spec (i - s) k); [lia|]. by rewrite andb_true_r.
Qed.

Lemma small_bits x k : is_digit x -> 0 <= k -> (forall i, k <= i < 32 -> Z.testbit x i = false) -> x < 2 ^ k.
Proof.
  intros Hx Hk B. assert (x = x mod 2 ^ k) as ->; [|apply Z.mod_pos_bound; lia].
  apply Z.bits_inj'. intros i Hi. destruct (Z.lt_ge_cases i k).
  - by rewrite Z.mod_pow2_bits_low.
  - rewrite Z.mod_pow2_bits_high by lia. destruct (Z.lt_ge_cases i 32); [apply B; lia|by apply testbit_digit].
Qed.

Lemma high_bits x k i : 0 <= k -> 0 <= x < 2 ^ k -> k <= i -> Z.testbit x i = false.
Proof. intros Hk R L. rewrite <- (Z.mod_small x (2 ^ k)) by done. by apply Z.mod_pow2_bits_high. Qed.

(** A register with a used bit set keeps one. *)
Lemma lfsr_reg_alive k s a b x : 0 <= k -> 0 < s -> 0 < a -> 0 <= b -> k + s + b = 32 -> k + s + a <= 32 -> is_digit x ->
  2 ^ k <= x -> 2 ^ k <= lfsr_reg k s a b x.
Proof.
  intros Hk Hs Ha Hb E F Hx L. destruct (Z.le_gt_cases (2 ^ k) (lfsr_reg k s a b x)) as [|G]; [done|]. exfalso.
  pose proof (lfsr_reg_digit k s a b x Hb Hx) as D. red in D.
  assert (forall j, 0 <= j -> k <= j < 32 -> Z.testbit x j = false) as B.
  { intros j Hj. pattern j. apply Z_lt_induction; [|lia]. clear j Hj. intros j IH Hj.
    assert (forall i, k <= i < 32 -> Z.testbit (lfsr_reg k s a b x) i = false) as Z0
      by (intros i Hi; apply (high_bits _ k); lia).
    destruct (Z.lt_ge_cases j (32 - s)) as [Lj|Lj].
    - specialize (Z0 (j + s) ltac:(lia)). rewrite lfsr_reg_bit in Z0 by (done || lia).
      destruct (Z.ltb_spec (j + s) (k + s)); [lia|]. by replace (j + s - s) with j in Z0 by lia.
    - specialize (Z0 (j - b) ltac:(lia)). rewrite lfsr_reg_bit in Z0 by (done || lia).
      destruct (Z.ltb_spec (j - b) (k + s)); [|lia]. replace (j - b + b) with j in Z0 by lia.
      rewrite (IH (j - a)) in Z0 by lia. by rewrite xorb_false_l in Z0. }
  pose proof (small_bits x k Hx Hk ltac:(intros; apply B; lia)). lia.
Qed.

Definition rand_wf (st : rand_state) : Prop := is_digit (z1 st) /\ is_digit (z2 st) /\ is_digit (z3 st) /\ is_digit (z4 st).

(** The first three registers have a used bit set. *)
Definition alive (st : rand_state) : Prop := 2 ^ 1 <= z1 st /\ 2 ^ 3 <= z2 st /\ 2 ^ 4 <= z3 st.

Lemma lfsr113_next_ok t st : is_digit t -> rand_wf st ->
  is_digit (lfsr113_next t st).1 /\ rand_wf (lfsr113_next t st).2 /\ (alive st -> alive (lfsr113_next t st).2).
Proof.
  intros Ht (H1 & H2 & H3 & H4). unfold lfsr113_next; cbn [fst snd].
  rewrite lfsr113_0_step, lfsr113_1_step, lfsr113_2_step, lfsr113_3_step by done.
  pose proof (lfsr_reg_digit 1 18 6 13 _ ltac:(lia) H1). pose proof (lfsr_reg_digit 3 2 2 27 _ ltac:(lia) H2).
  pose proof (lfsr_reg_digit 4 7 13 21 _ ltac:(lia) H3). pose proof (lfsr_reg_digit 7 13 3 12 _ ltac:(lia) H4).
  split; [auto using lxor_digit|]. split; [split; [done|]; split; [done|]; split; [done|by apply lxor_digit]|].
  intros (A1 & A2 & A3). cbn [z1 z2 z3].
  split; [|split]; apply lfsr_reg_alive; try done; try lia.
Qed.

Lemma fill_loop_ok t len : is_digit t -> forall st, rand_wf st ->
  length (fill_loop t len st).1 = len /\ Forall is_digit (fill_loop t len st).1 /\ rand_wf (fill_loop t len st).2 /\
  (alive st -> alive (fill_loop t len st).2).
Proof.
  intros Ht. induction len as [|len IH]; intros st W; cbn [fill_loop]; [done|].
  destruct (lfsr113_next_ok t st Ht W) as (D & W' & A). destruct (lfsr113_next t st) as [x st']. cbn [fst snd] in *.
  destruct (IH st' W') as (L & DS & W2 & A2). destruct (fill_loop t len st') as [xs st2]. cbn [fst snd] in *.
  split; [cbn; lia|]. split; [by constructor|]. split; [done|]. intros. by apply A2, A.
Qed.

Section TimerProps.
Context (timer : nat -> Z) (Htimer : forall k, is_digit (timer k)).

Lemma rand_fill_ok len st : rand_wf st ->
  length (rand_fill timer len st).1 = len /\ Forall is_digit (rand_fill timer len st).1 /\
  rand_wf (rand_fill timer len st).2 /\ (alive st -> alive (rand_fill timer len st).2).
Proof using All. intros W. unfold rand_fill, read_timer. 
  exact (fill_loop_ok (timer (reads st)) len (Htimer _) {| z1 := z1 st; z2 := z2 st; z3 := z3 st; z4 := z4 st; reads := S (reads st) |} W). Qed.

Lemma rand_seed_wf seed st : rand_wf st -> rand_wf (rand_seed timer seed st).
Proof using All.
  unfold rand_seed. generalize (seq 0 128). intros l. revert st. induction l as [|i l IH]; intros st W; [done|].
  cbn [fold_left]. apply IH. unfold seed_step, read_timer. apply rand_fill_ok.
  destruct W as (H1 & H2 & H3 & H4). pose proof (u32_digit (seed + timer (reads st))) as D.
  assert (forall (c : bool) x, is_digit x -> is_digit (if c then Z.lxor x (u32 (seed + timer (reads st))) else x)) as I
    by (intros [] x Hx; [by apply lxor_digit|done]).
  split; [|split; [|split]]; cbn [xor_word z1 z2 z3 z4]; by apply I.
Qed.

(** The states that calls of rand_fill lead to. *)
Inductive filled : rand_state -> Prop :=
  | filled_start : filled lfsr113
  | filled_next st len : filled st -> filled (rand_fill timer len st).2.

Lemma filled_ok st : filled st -> rand_wf st /\ alive st.
Proof using All.
  induction 1 as [|st len _ [W A]]; [by repeat split|]. destruct (rand_fill_ok len st W) as (_ & _ & W' & A'). split; [done|by apply A'].
Qed.
End TimerProps.

(** However often rand_fill is called, and whatever the timer shows, the
    first three registers of the generator never fall into their absorbing
    states, in which they would give constant output for ever; every call
    writes exactly the words asked for, each 32 bits wide. *)
Theorem rand_registers_alive timer st len : (forall k, is_digit (timer k)) -> filled timer st ->
  alive st /\ rand_wf st /\ length (rand_fill timer len st).1 = len /\ Forall is_digit (rand_fill timer len st).1.
Proof.
  intros HT F. destruct (filled_ok timer HT st F) as [W A]. destruct (rand_fill_ok timer HT len st W) as (L & D & _). done.
Qed.

Lemma rand_registers_alive_witness :
  alive (rand_fill (fun _ => 77) 5 lfsr113).2 /\ rand_wf (rand_fill (fun _ => 77) 5 lfsr113).2 /\
  length (rand_fill (fun _ => 77) 3 (rand_fill (fun _ => 77) 5 lfsr113).2).1 = 3%nat /\
  Forall is_digit (rand_fill (fun _ => 77) 3 (rand_fill (fun _ => 77) 5 lfsr113).2).1.
Proof.
  apply (rand_registers_alive (fun _ => 77) (rand_fill (fun _ => 77) 5 lfsr113).2 3); [done|]. apply filled_next, filled_start.
Defined.
