(* ===== verification/Rsa.v ===== *)
(** * Rsa: modules/io_crypt/crypt_rsa.c

    RSA on top of the BIGD layer: key generation, the block operation, and the
    key files.  Strings are lists of character codes.

    Parameters, for what lies outside the sources: the values the timer
    register shows, the results of libc's rand() after each seeding, the
    address [bd_resize] gave the digits of a number, the bytes of memory
    malloc returns, and the memory card. *)

From Stdlib Require Import Strings.Ascii Strings.String.
From stdpp Require Import base list numbers option gmap strings.
From S2P Require Import Prelude BigDigits BigMod BigConv Bigd Crypt Rand.
Local Open Scope Z_scope.

Definition codes (s : string) : list Z := map (fun c => Z.of_N (N_of_ascii c)) (list_ascii_of_string s).

(** ** Random octets *)

(** Little-endian words of a byte buffer. *)
Fixpoint words (n : nat) (bytes : list Z) : list Z :=
  match n with
  | O => []
  | S n => le_word (take 4 bytes) :: words n (drop 4 bytes)
  end.

Section Octets.
Context (timer : nat -> Z).

(** One octet, from a word of its own. *)
Definition rand_octet (st : rand_state) : Z * rand_state :=
  let '(rn, st) := rand_fill timer 1 st in (Z.land (nth 0 rn 0) 0xFF, st).

(** The octets up to a word boundary, and the number still to be written. *)
Fixpoint rand_align (nbytes : nat) (addr : Z) (st : rand_state) : list Z * nat * rand_state :=
  match nbytes with
  | O => ([], O, st)
  | S n =>
    if addr mod 4 =? 0 then ([], nbytes, st)
    else
      let '(b, st) := rand_octet st in
      let '(bs, rest, st) := rand_align n (addr + 1) st in
      (b :: bs, rest, st)
  end.

Fixpoint rand_octets (n : nat) (st : rand_state) : list Z * rand_state :=
  match n with
  | O => ([], st)
  | S n =>
    let '(b, st) := rand_octet st in
    let '(bs, st) := rand_octets n st in
    (b :: bs, st)
  end.

(** The seed is not used: its loop is under [if (0 && seed)]. *)
Definition crypt_rsa_rand (addr : Z) (nbytes : nat) (st : rand_state) : list Z * rand_state :=
  let '(head, nbytes, st) := rand_align nbytes addr st in
  let nwords := (nbytes / 4)%nat in
  let remain := (nbytes mod 4)%nat in
  let '(ws, st) := rand_fill timer nwords st in
  let '(tail, st) := rand_octets remain st in
  (head ++ flat_map (le_bytes 4) ws ++ tail, st).
End Octets.

(** ** Key generation *)

Definition small_primes : list Z :=
  [3; 5; 7; 11; 13; 17; 19; 23; 29; 31; 37; 41; 43;
   47; 53; 59; 61; 67; 71; 73; 79; 83; 89; 97; 101;
   103; 107; 109; 113;
   127; 131; 137; 139; 149; 151; 157; 163; 167; 173;
   179; 181; 191; 193; 197; 199; 211; 223; 227; 229;
   233; 239; 241; 251; 257; 263; 269; 271; 277; 281;
   283; 293; 307; 311; 313; 317; 331; 337; 347; 349;
   353; 359; 367; 373; 379; 383; 389; 397; 401; 409;
   419; 421; 431; 433; 439; 443; 449; 457; 461; 463;
   467; 479; 487; 491; 499; 503; 509; 521; 523; 541;
   547; 557; 563; 569; 571; 577; 587; 593; 599; 601;
   607; 613; 617; 619; 631; 641; 643; 647; 653; 659;
   661; 673; 677; 683; 691; 701; 709; 719; 727; 733;
   739; 743; 751; 757; 761; 769; 773; 787; 797; 809;
   811; 821; 823; 827; 829; 839; 853; 857; 859; 863;
   877; 881; 883; 887; 907; 911; 919; 929; 937; 941;
   947; 953; 967; 971; 977; 983; 991; 997].

Record rsa_key := { rsa_n : list Z; rsa_e : list Z; rsa_d : list Z; rsa_p : list Z; rsa_q : list Z;
                    rsa_dP : list Z; rsa_dQ : list Z; rsa_qInv : list Z }.

Record t_crypt_key := { id : Z; name : list Z; primefac : list Z; key : list Z }.

Section Generate.
(** [lrand k] are the results of rand() after the k-th seeding by the
    Rabin-Miller test; [fuel] bounds the draws of one base. *)
Context (timer : nat -> Z) (lrand : nat -> nat -> Z) (digits_addr : Z) (fuel : nat).

(** The search p, p + 2, ... of generateRSAPrime: whether it found a prime,
    the candidate it ended with, the number of candidates and of tests. *)
Fixpoint prime_search (todo : nat) (first : bool) (p r : list Z) (overflow e : Z) (ntests : nat) (count : Z) (k : nat)
  : option (bool * list Z * Z * nat) :=
  match todo with
  | O => Some (false, p, count, k)
  | S todo =>
    if negb (overflow =? 0) then Some (false, p, count, k)
    else
      let count := count + 1 in
      let r := if first then r else zip_with (fun x q => u32 (x + 2) mod q) r small_primes in
      let next k := let '(p, overflow) := bdShortAdd p 2 in prime_search todo false p r overflow e ntests count k in
      if existsb (fun x => x =? 0) r then next k
      else if bdShortCmp (bdShortMod p e).1 1 =? 0 then next k
      else
        res ← bdRabinMiller (lrand k) fuel p ntests 0;
        if negb (res =? 0) then Some (true, p, count, S k) else next (S k)
  end.

(** A random odd number with its two highest bits set. *)
Definition prime_candidate (nbits : nat) (st : rand_state) : list Z * rand_state :=
  let ndigits := ((nbits + 32 - 1) / 32)%nat in
  let '(bytes, st) := crypt_rsa_rand timer digits_addr (4 * ndigits) st in
  let p := bdRandomSeeded (words ndigits bytes) nbits in
  let p := bdSetBit p (Z.of_nat nbits - 1) 1 in
  let p := bdSetBit p (Z.of_nat nbits - 2) 1 in
  (bdSetBit p 0 1, st).

Fixpoint prime_loops (loops : nat) (nbits : nat) (e : Z) (ntests : nat) (p : list Z) (count : Z) (st : rand_state) (k : nat)
  : option (bool * list Z * Z * rand_state * nat) :=
  match loops with
  | O => Some (false, p, count, st, k)
  | S loops =>
    let '(p, st) := prime_candidate nbits st in
    let r := map (fun q => (bdShortMod p q).2) small_primes in
    '(done, p, count, k) ← prime_search (nbits * 100) true p r 0 e ntests count k;
    if done : bool then Some (true, p, count, st, k) else prime_loops loops nbits e ntests p count st k
  end.

Definition generateRSAPrime (nbits : nat) (e : Z) (ntests : nat) (st : rand_state) (k : nat)
  : option (Z * list Z * rand_state * nat) :=
  '(done, p, count, st, k) ← prime_loops 5 nbits e ntests bdNew 0 st k;
  Some (if done : bool then count else -1, p, st, k).

(** The assertions and what is computed from the three primes. *)
Definition key_of_primes (p q e : list Z) (progress : Z) : option (option rsa_key * Z) :=
  let '(p, q) := if bdCompare p q <? 1 then (q, p) else (p, q) in
  let p1 := (bdDecrement p).1 in
  let q1 := (bdDecrement q).1 in
  g ← bdGcd p1 e;
  if negb (bdShortCmp g 1 =? 0) then Some (None, progress)
  else
    g ← bdGcd q1 e;
    if negb (bdShortCmp g 1 =? 0) then Some (None, progress)
    else
      let n := bdMultiply p q in
      let phi := bdMultiply p1 q1 in
      d ← bdModInv e phi;
      let g := bdModMult e d.1 phi in
      if negb (bdShortCmp g 1 =? 0) then Some (None, progress)
      else
        dP ← bdModInv e p1;
        dQ ← bdModInv e q1;
        qInv ← bdModInv q p;
        Some (Some {| rsa_n := n; rsa_e := e; rsa_d := d.1; rsa_p := p; rsa_q := q;
                      rsa_dP := dP.1; rsa_dQ := dQ.1; rsa_qInv := qInv.1 |}, 98).

(** The key, or None where the code returns -1; *progress; the generators. *)
Definition generateRSAKey (myseed_ok : bool) (nbits : nat) (ee : Z) (ntests : nat) (progress : Z) (st : rand_state) (k : nat)
  : option (option rsa_key * Z * rand_state * nat) :=
  if negb myseed_ok then Some (None, progress, st, k)
  else
    let nq := (nbits / 2)%nat in
    let np := (nbits - nq)%nat in
    '(_, p, st, k) ← generateRSAPrime np ee ntests st k;
    '(_, q, st, k) ← generateRSAPrime nq ee ntests st k;
    if bdIsEqual p q then Some (None, 66, st, k)
    else
      '(_, e, st, k) ← generateRSAPrime nq ee ntests st k;
      '(key, progress) ← key_of_primes p q e 95;
      Some (key, progress, st, k).

(** Writing at the start of a buffer. *)
Definition write_start (out buf : list Z) : list Z := out ++ drop (length out) buf.

(** The check at the end of crypt_rsa_generate: whether "Test" comes back. *)
Definition rsa_selftest (tmp_buf : list Z) (priv_key pub_key : t_crypt_key) : option bool :=
  let d := (bdConvFromHex (key priv_key)).1 in
  let e := (bdConvFromHex (key pub_key)).1 in
  let n := (bdConvFromHex (primefac pub_key)).1 in
  let tmp_buf := write_start (codes "Test" ++ [0]) tmp_buf in
  let source := (bdConvFromOctets (take 8 tmp_buf)).1 in
  result ← bdModExp source d n;
  let len := (bdSizeof result * 4)%nat in
  let tmp_buf := write_start (bdConvToOctets result len).1 tmp_buf in
  let result := (bdConvFromOctets (take len tmp_buf)).1 in
  source ← bdModExp result e n;
  let tmp_buf := write_start (bdConvToOctets source (bdSizeof source * 4)).1 tmp_buf in
  Some (bool_decide (take 5 tmp_buf = codes "Test" ++ [0])).

(** The result, the keys (unchanged on failure), *progress, whether the check
    at the end passed, and the generators. *)
Definition crypt_rsa_generate (myseed_ok : bool) (tmp_buf : list Z) (nbits : nat) (priv_key pub_key : t_crypt_key)
  (progress : Z) (st : rand_state) (k : nat) : option (Z * t_crypt_key * t_crypt_key * Z * bool * rand_state * nat) :=
  let st := (rand_fill timer (256 / 4) st).2 in
  '(res, progress, st, k) ← generateRSAKey myseed_ok (nbits + 1) 3 50 progress st k;
  match res with
  | None => Some (-1, priv_key, pub_key, 99, false, st, k)
  | Some kp =>
    let priv_key := {| id := 0; name := codes "new key"; primefac := bdConvToHex (rsa_n kp); key := bdConvToHex (rsa_d kp) |} in
    let pub_key := {| id := 0; name := codes "new key"; primefac := bdConvToHex (rsa_n kp); key := bdConvToHex (rsa_e kp) |} in
    ok ← rsa_selftest tmp_buf priv_key pub_key;
    Some (0, priv_key, pub_key, 99, ok, st, k)
  end.
End Generate.

(** ** The block operation *)

(** The octets written to dst and their number. *)
Definition crypt_rsa_crypt (src : list Z) (k : t_crypt_key) : option (list Z * Z) :=
  let keyval := (bdConvFromHex (key k)).1 in
  let primefac := (bdConvFromHex (primefac k)).1 in
  let buffer := (bdConvFromOctets src).1 in
  result ← bdModExp buffer keyval primefac;
  let bytes := (bdSizeof result * 4)%nat in
  Some ((bdConvToOctets result bytes).1, u32 (Z.of_nat bytes)).

Record rsa_ctx_t := { pub_key : t_crypt_key; priv_key : t_crypt_key; progress : Z }.

Definition crypt_rsa_get_priv (priv : option rsa_ctx_t) : option t_crypt_key :=
  ctx ← priv; if (length (name (priv_key ctx)) =? 0)%nat then None else Some (priv_key ctx).

Definition crypt_rsa_get_pub (priv : option rsa_ctx_t) : option t_crypt_key :=
  ctx ← priv; if (length (name (pub_key ctx)) =? 0)%nat then None else Some (pub_key ctx).

Definition crypt_rsa_get_keyprogress (priv : option rsa_ctx_t) : Z :=
  match priv with None => 0 | Some ctx => progress ctx end.

Definition crypt_rsa_get_keysize (priv : option rsa_ctx_t) : Z :=
  match priv with
  | None => 0
  | Some ctx =>
    let nibbles := length (primefac (pub_key ctx)) in
    let nibbles := if (nibbles =? 0)%nat then length (primefac (priv_key ctx)) else nibbles in
    if (nibbles =? 0)%nat then 0 else u32 ((Z.of_nat nibbles - 1) * 4)
  end.

Definition crypt_rsa_clear_key (k : t_crypt_key) : t_crypt_key := {| id := id k; name := []; primefac := []; key := [] |}.

Definition crypt_rsa_blocksize (priv : option rsa_ctx_t) : Z :=
  let keysize := crypt_rsa_get_keysize priv in
  if keysize =? 0 then 0 else keysize / 8.

Definition crypt_rsa_encrypt (priv : option rsa_ctx_t) (src : list Z) : option (list Z * Z) :=
  match priv with
  | None => Some ([], 0)
  | Some ctx =>
    if Z.of_nat (length src) <? crypt_rsa_blocksize priv then Some ([], 0) else crypt_rsa_crypt src (pub_key ctx)
  end.

Definition crypt_rsa_decrypt (priv : option rsa_ctx_t) (src : list Z) : option (list Z * Z) :=
  match priv with
  | None => Some ([], 0)
  | Some ctx =>
    if Z.of_nat (length src) <? crypt_rsa_blocksize priv then Some ([], 0) else crypt_rsa_crypt src (priv_key ctx)
  end.

(** ** Key files *)

(** The files of the card, and which calls of the file API succeed. *)
Record card := { files : gmap string (list Z); can_create : string -> bool; can_open : string -> bool; can_read : string -> bool }.

Definition set_file (c : card) (file : string) (data : list Z) : card :=
  {| files := <[file := data]> (files c); can_create := can_create c; can_open := can_open c; can_read := can_read c |}.

Definition crypt_rsa_save (c : card) (file : string) (k : t_crypt_key) : Z * card :=
  if negb (can_create c file) then (0, c)
  else (1, set_file c file (primefac k ++ [10] ++ key k ++ [10])).

(** strchr on a buffer: None when it runs past the end. *)
Fixpoint strchr (c : Z) (s : list Z) : option (option nat) :=
  match s with
  | [] => None
  | x :: s => if x =? c then Some (Some O) else if x =? 0 then Some None else i ← strchr c s; Some (option_map S i)
  end.

(** The C string at the start of a buffer: None when it runs past the end. *)
Fixpoint cstr (s : list Z) : option (list Z) :=
  match s with
  | [] => None
  | x :: s => if x =? 0 then Some [] else r ← cstr s; Some (x :: r)
  end.

(** The result and the key; None when the code reads past its buffer. *)
Definition crypt_rsa_load (c : card) (file : string) (k : t_crypt_key) : option (Z * t_crypt_key) :=
  match files c !! file with
  | None => Some (0, k)
  | Some buffer =>
    if negb (can_open c file) then Some (0, k)
    else if negb (can_read c file) then Some (0, k)
    else
      sep ← strchr 10 buffer;
      match sep with
      | None => Some (0, k)
      | Some i =>
        let buffer := <[i := 0]> buffer in
        let rest := drop (S i) buffer in
        sep2 ← strchr 10 rest;
        let rest := match sep2 with Some j => <[j := 0]> rest | None => rest end in
        primefac ← cstr buffer;
        key ← cstr rest;
        Some (1, {| id := id k; name := codes file; primefac := primefac; key := key |})
      end
  end.

Definition set_pub (ctx : rsa_ctx_t) (k : t_crypt_key) : rsa_ctx_t := {| pub_key := k; priv_key := priv_key ctx; progress := progress ctx |}.
Definition set_priv (ctx : rsa_ctx_t) (k : t_crypt_key) : rsa_ctx_t := {| pub_key := pub_key ctx; priv_key := k; progress := progress ctx |}.
Definition set_progress (ctx : rsa_ctx_t) (p : Z) : rsa_ctx_t := {| pub_key := pub_key ctx; priv_key := priv_key ctx; progress := p |}.

Definition clear_keys (ctx : rsa_ctx_t) : rsa_ctx_t :=
  set_priv (set_pub ctx (crypt_rsa_clear_key (pub_key ctx))) (crypt_rsa_clear_key (priv_key ctx)).

Definition load_keys (c : card) (pub priv : string) (ctx : rsa_ctx_t) : option rsa_ctx_t :=
  '(_, kp) ← crypt_rsa_load c pub (pub_key ctx);
  '(_, ks) ← crypt_rsa_load c priv (priv_key ctx);
  Some (set_priv (set_pub ctx kp) ks).

(** [junk_priv] and [junk_pub] are what the uninitialised local keys hold. *)
Definition crypt_rsa_generate_keys (timer : nat -> Z) (lrand : nat -> nat -> Z) (digits_addr : Z) (fuel : nat)
  (myseed_ok : bool) (tmp_buf : list Z) (keysize : nat) (junk_priv junk_pub : t_crypt_key)
  (c : card) (ctx : rsa_ctx_t) (st : rand_state) (k : nat) : option (rsa_ctx_t * card * rand_state * nat) :=
  '(_, priv, pub, prog, _, st, k) ← crypt_rsa_generate timer lrand digits_addr fuel myseed_ok tmp_buf keysize junk_priv junk_pub 0 st k;
  let c := (crypt_rsa_save c "ML/DATA/io_crypt.key" priv).2 in
  let c := (crypt_rsa_save c "ML/DATA/io_crypt.pub" pub).2 in
  ctx ← load_keys c "ML/DATA/io_crypt.pub" "ML/DATA/io_crypt.key" (clear_keys (set_progress ctx prog));
  Some (set_progress ctx 100, c, st, k).

(** [ctx] is the memory malloc returned for the context, if any. *)
Definition crypt_rsa_init (c : card) (ctx : option rsa_ctx_t) : option (option rsa_ctx_t) :=
  match ctx with
  | None => Some None
  | Some ctx =>
    ctx ← load_keys c "ML/DATA/io_crypt.pub" "ML/DATA/io_crypt.key" (clear_keys ctx);
    ctx ← (if crypt_rsa_get_keysize (Some ctx) =? 0 then load_keys c "io_crypt.pub" "io_crypt.key" ctx else Some ctx);
    ctx ← (if crypt_rsa_get_keysize (Some ctx) =? 0 then load_keys c "IO_CRYPT.PUB" "IO_CRYPT.KEY" ctx else Some ctx);
    Some (Some ctx)
  end.

(** ** The self-test *)

(** The part of crypt_rsa_testfunc after key generation: 1 when the data do
    not come back.  [tail] are the bytes of the buffers after the block. *)
Definition crypt_rsa_testfunc (size : nat) (tail : list Z) (priv_key pub_key : t_crypt_key) : option Z :=
  let size_bytes := (size / 8)%nat in
  let data_orig := map (fun pos => u8 (Z.of_nat pos)) (seq 0 size_bytes) ++ tail in
  '(out, new_len) ← crypt_rsa_crypt (take size_bytes data_orig) pub_key;
  let data := write_start out data_orig in
  '(out, _) ← crypt_rsa_crypt (take (Z.to_nat new_len) data) priv_key;
  let data := write_start out data in
  Some (if bool_decide (words (size_bytes / 4) data = words (size_bytes / 4) data_orig) then 0 else 1).
