(* ===== verification/RsaProps.v ===== *)
(** * RsaProps: RSA decrypts what it encrypted, with the keys it generates *)

From Stdlib Require Import Zmod.ZmodInv ZArith.Zdivisibility.
From stdpp Require Import base list numbers option gmap strings.
From S2P Require Import Prelude BigDigits BigDigitsProps BigArith BigShift BigMod BigModProps BigModExp BigPrime.
From S2P Require Import Crypt CryptProps BigConv Bigd BigdProps BigBits Rand Rsa.
Local Open Scope Z_scope.

(** ** The arithmetic of RSA *)

Lemma coprime_divide_mul p q x : Z.prime p -> Z.prime q -> p <> q -> (p | x) -> (q | x) -> (p * q | x).
Proof.
  intros P Q N [a ->] D. apply Z.divide_prime_mul in D as [D|D]; [| |done].
  - destruct D as [b ->]. exists b. ring.
  - exfalso. apply Z.divide_prime_prime in D; [congruence|done|done].
Qed.

(** Raising to 1 + k (p - 1) changes nothing modulo a prime p. *)
Lemma fermat_exp p m j k : Z.prime p -> 0 <= j -> 0 <= k -> j = 1 + k * (p - 1) -> m ^ j mod p = m mod p.
Proof.
  intros P J K ->. pose proof (Z.prime_ge_2 p P). rewrite Z.pow_add_r, Z.pow_1_r by nia.
  destruct (Z.eq_dec (m mod p) 0) as [E|E].
  - rewrite Z.mul_mod, E, Z.mul_0_l by lia. apply Z.mod_0_l. lia.
  - rewrite (Z.mul_comm k), Z.pow_mul_r, Z.mul_mod, <- Z.mod_pow_l, (Z.fermat_nz p m P E), Z.pow_1_l by lia.
    rewrite (Z.mod_small 1), Z.mul_1_r, Z.mod_mod by lia. done.
Qed.

(** What the two exponents have to satisfy. *)
Record rsa_params (p q E D : Z) : Prop := {
  params_p : Z.prime p; params_q : Z.prime q; params_neq : p <> q;
  params_E : 0 <= E; params_D : 0 <= D; params_inv : (E * D) mod ((p - 1) * (q - 1)) = 1 }.

Lemma params_pos p q E D : rsa_params p q E D -> 0 < E /\ 0 < D /\ 1 < p * q.
Proof.
  intros [P Q N HE HD HI]. pose proof (Z.prime_ge_2 p P). pose proof (Z.prime_ge_2 q Q).
  assert (E * D <> 0) by (intros E0; rewrite E0, Z.mod_0_l in HI; [done|nia]). nia.
Qed.

Lemma params_sym p q E D : rsa_params p q E D -> rsa_params p q D E.
Proof. intros [P Q N HE HD HI]. split; try done. by rewrite Z.mul_comm. Qed.

Lemma rsa_inverse p q E D m : rsa_params p q E D -> 0 <= m < p * q ->
  (m ^ E mod (p * q)) ^ D mod (p * q) = m.
Proof.
  intros R Hm. pose proof (params_pos _ _ _ _ R) as (E0 & D0 & N0). destruct R as [P Q N HE HD HI].
  pose proof (Z.prime_ge_2 p P). pose proof (Z.prime_ge_2 q Q).
  rewrite Z.mod_pow_l, <- Z.pow_mul_r by lia.
  set (k := (E * D) / ((p - 1) * (q - 1))).
  assert (E * D = 1 + k * ((p - 1) * (q - 1))) as EK by (pose proof (Z.div_mod (E * D) ((p - 1) * (q - 1)) ltac:(nia)); unfold k; lia).
  assert (0 <= k) as K0 by (apply Z.div_pos; nia).
  rewrite <- (Z.mod_small m (p * q)) at 2 by done.
  assert ((p * q | m ^ (E * D) - m)) as DV.
  { apply coprime_divide_mul; try done; apply Z.mod_divide; try lia; rewrite Zminus_mod.
    - rewrite (fermat_exp p m (E * D) (k * (q - 1))) by (done || nia). rewrite Z.sub_diag. apply Z.mod_0_l. lia.
    - rewrite (fermat_exp q m (E * D) (k * (p - 1))) by (done || nia). rewrite Z.sub_diag. apply Z.mod_0_l. lia. }
  destruct DV as [c DV]. replace (m ^ (E * D)) with (m + c * (p * q)) by lia. apply Z.mod_add. lia.
Qed.

(** ** Blocks *)

(** Octets as crypt_rsa_crypt writes them: whole words, the first not zero. *)
Definition block (src : list Z) : Prop :=
  Forall is_byte src /\ exists nd, length src = (4 * nd)%nat /\ (nd <> 0%nat -> Bpow (nd - 1) <= octets_val src).

Lemma block_unique a b : block a -> block b -> octets_val a = octets_val b -> a = b.
Proof.
  intros (BA & na & LA & MA) (BB & nb & LB & MB) E.
  pose proof (octets_val_range a BA) as RA. pose proof (octets_val_range b BB) as RB. rewrite LA in RA. rewrite LB in RB.
  assert (forall k, 256 ^ Z.of_nat (4 * k) = Bpow k) as E4.
  { intros k. unfold Bpow. change 256 with (2 ^ 8). rewrite <- Z.pow_mul_r by lia. f_equal. lia. }
  rewrite E4 in RA, RB.
  assert (forall i j, Bpow i < Bpow j -> (i < j)%nat) as LT.
  { intros i j L. destruct (le_lt_dec j i) as [G|]; [|done].
    assert (Bpow j <= Bpow i) by (unfold Bpow; apply Z.pow_le_mono_r; lia). lia. }
  assert (na = nb) as ->.
  { destruct (Nat.eq_dec na 0) as [->|NA], (Nat.eq_dec nb 0) as [->|NB]; [done| | |].
    - specialize (MB NB). pose proof (LT (nb - 1)%nat 0%nat ltac:(lia)). lia.
    - specialize (MA NA). pose proof (LT (na - 1)%nat 0%nat ltac:(lia)). lia.
    - specialize (MA NA). specialize (MB NB). pose proof (LT (na - 1)%nat nb ltac:(lia)). pose proof (LT (nb - 1)%nat na ltac:(lia)). lia. }
  rewrite <- (rev_involutive a), <- (rev_involutive b). f_equal.
  apply le_word_inj; [by apply Forall_rev|by apply Forall_rev|rewrite !length_rev; lia|done].
Qed.

(** The block operation is modular exponentiation; the length returned is the
    number of octets written. *)
Lemma crypt_rsa_crypt_ok src k K N : Forall is_byte src -> hex_val 0 (key k) = K -> hex_val 0 (primefac k) = N -> 0 < N ->
  exists out, crypt_rsa_crypt src k = Some (out, u32 (Z.of_nat (length out))) /\ block out /\
    octets_val out = modexp_value (octets_val src) K N.
Proof.
  intros B EK EN HN. unfold crypt_rsa_crypt.
  pose proof (bdConvFromHex_ok (key k)) as HK. pose proof (bdConvFromHex_ok (primefac k)) as HF. rewrite EK in HK. rewrite EN in HF.
  destruct (bdModExp_ok _ _ _ _ _ _ (bdConvFromOctets_ok src B) HK HF HN) as (y & -> & HY & NS). cbn [mbind option_bind].
  set (v := modexp_value (octets_val src) K N) in *. destruct (Z.eq_dec v 0) as [E|E].
  - assert (bdSizeof y = 0%nat) as E0 by (destruct HY as (D & V); apply mpSizeof_zero; [done|congruence]).
    rewrite E0. exists []. split; [done|]. split; [|done]. split; [by constructor|]. exists 0%nat. done.
  - destruct (bdConvToOctets_ok y v HY E) as (L & BO & VO). eexists. split; [rewrite L; reflexivity|].
    split; [|done]. split; [done|]. exists (bdSizeof y). split; [lia|]. intros NZ. rewrite VO.
    destruct HY as (D & <-). by apply mpSizeof_bounds.
Qed.

(** The two keys of a pair. *)
Definition key_pair (p q E D : Z) (pub priv : t_crypt_key) : Prop :=
  hex_val 0 (primefac pub) = p * q /\ hex_val 0 (primefac priv) = p * q /\
  hex_val 0 (key pub) = E /\ hex_val 0 (key priv) = D.

Lemma key_pair_sym p q E D pub priv : key_pair p q E D pub priv -> key_pair p q D E priv pub.
Proof. intros (A & B & C & F). done. Qed.

(** What one key does, the other undoes. *)
Lemma crypt_rsa_crypt_inverse p q E D pub priv src : rsa_params p q E D -> key_pair p q E D pub priv ->
  Forall is_byte src -> octets_val src < p * q ->
  exists c m, crypt_rsa_crypt src pub = Some (c, u32 (Z.of_nat (length c))) /\ block c /\
    crypt_rsa_crypt c priv = Some (m, u32 (Z.of_nat (length m))) /\ block m /\ octets_val m = octets_val src.
Proof.
  intros R (NP & NS & EP & DS) B L. pose proof (params_pos _ _ _ _ R) as (E0 & D0 & N0).
  pose proof (octets_val_range src B) as RS.
  destruct (crypt_rsa_crypt_ok src pub E (p * q) B EP NP ltac:(lia)) as (c & EC & BC & VC).
  destruct (crypt_rsa_crypt_ok c priv D (p * q) ltac:(apply BC) DS NS ltac:(lia)) as (m & EM & BM & VM).
  exists c, m. split; [done|]. split; [done|]. split; [done|]. split; [done|].
  rewrite VM, VC. unfold modexp_value. destruct (Z.eqb_spec E 0); [lia|]. destruct (Z.eqb_spec D 0); [lia|].
  apply rsa_inverse; [done|lia].
Qed.

Lemma crypt_rsa_crypt_roundtrip p q E D pub priv src : rsa_params p q E D -> key_pair p q E D pub priv ->
  block src -> octets_val src < p * q ->
  exists c, crypt_rsa_crypt src pub = Some (c, u32 (Z.of_nat (length c))) /\ block c /\
    crypt_rsa_crypt c priv = Some (src, u32 (Z.of_nat (length src))).
Proof.
  intros R K B L. destruct (crypt_rsa_crypt_inverse p q E D pub priv src R K ltac:(apply B) L) as (c & m & EC & BC & EM & BM & V).
  rewrite (block_unique m src BM B V) in EM. by exists c.
Qed.

(** ** Prime candidates *)

Lemma octet_byte x : is_byte (Z.land x 0xFF).
Proof. change 0xFF with (Z.ones 8). rewrite Z.land_ones by lia. apply Z.mod_pos_bound. lia. Qed.

Lemma rand_align_bytes timer n : forall addr st, Forall is_byte (rand_align timer n addr st).1.1.
Proof.
  induction n as [|n IH]; intros addr st; cbn [rand_align]; [done|]. destruct (addr mod 4 =? 0); [done|].
  unfold rand_octet. destruct (rand_fill timer 1 st) as [rn st1]. specialize (IH (addr + 1) st1).
  destruct (rand_align timer n (addr + 1) st1) as [[bs rest] st2]. cbn [fst] in *. constructor; [apply octet_byte|done].
Qed.

Lemma rand_octets_bytes timer n : forall st, Forall is_byte (rand_octets timer n st).1.
Proof.
  induction n as [|n IH]; intros st; cbn [rand_octets]; [done|].
  unfold rand_octet. destruct (rand_fill timer 1 st) as [rn st1]. specialize (IH st1).
  destruct (rand_octets timer n st1) as [bs st2]. cbn [fst] in *. constructor; [apply octet_byte|done].
Qed.

Lemma crypt_rsa_rand_bytes timer addr n st : Forall is_byte (crypt_rsa_rand timer addr n st).1.
Proof.
  unfold crypt_rsa_rand. pose proof (rand_align_bytes timer n addr st) as HA.
  destruct (rand_align timer n addr st) as [[head rest] st1]. cbn [fst] in HA.
  destruct (rand_fill timer (rest / 4) st1) as [ws st2]. pose proof (rand_octets_bytes timer (rest mod 4) st2) as HT.
  destruct (rand_octets timer (rest mod 4) st2) as [tail st3]. cbn [fst] in *.
  apply Forall_app; split; [done|]. apply Forall_app; split; [|done].
  induction ws as [|w ws IH]; [done|]. cbn [flat_map]. apply Forall_app; split; [apply le_bytes_range|done].
Qed.

Lemma words_digits n : forall bytes, Forall is_byte bytes -> digits (words n bytes).
Proof.
  induction n as [|n IH]; intros bytes B; cbn [words]; [done|]. constructor; [|apply IH; by apply Forall_drop].
  pose proof (le_word_range (take 4 bytes) ltac:(by apply Forall_take)) as R. split; [lia|].
  apply Z.lt_le_trans with (1 := proj2 R). change (2 ^ 32) with (256 ^ 4). apply Z.pow_le_mono_r; [lia|]. rewrite length_take. lia.
Qed.

Lemma bdRandomSeeded_digits rnd nbits : digits rnd -> digits (bdRandomSeeded rnd nbits).
Proof.
  intros D. unfold bdRandomSeeded. apply Forall_alter; [by apply Forall_take|]. intros. by apply land_digit.
Qed.

(** Two set bits next to each other. *)
Lemma two_bits x k : 0 <= x -> 0 <= k -> Z.testbit x k = true -> Z.testbit x (k + 1) = true -> 3 * 2 ^ k <= x.
Proof.
  intros Hx Hk B0 B1. pose proof (next_bit x k Hk) as E0. pose proof (next_bit x (k + 1) ltac:(lia)) as E1.
  rewrite B0 in E0. rewrite B1 in E1. cbn [Z.b2z] in *.
  assert (0 <= x / 2 ^ (k + 1 + 1)) by (apply Z.div_pos; lia).
  pose proof (Z.mul_div_le x (2 ^ k) ltac:(lia)). nia.
Qed.

Lemma prime_candidate_ok timer addr nbits st : (2 <= nbits)%nat ->
  exists X, bd_is (prime_candidate timer addr nbits st).1 X /\ 3 * 2 ^ (Z.of_nat nbits - 2) <= X /\ Z.odd X = true.
Proof.
  intros L. unfold prime_candidate. pose proof (crypt_rsa_rand_bytes timer addr (4 * ((nbits + 32 - 1) / 32)) st) as B.
  destruct (crypt_rsa_rand timer addr _ st) as [bytes st1]. cbn [fst] in *.
  set (p0 := bdRandomSeeded _ nbits). assert (digits p0) as D0 by (apply bdRandomSeeded_digits, words_digits, B).
  pose proof (val_nonneg p0 D0) as P0.
  set (x1 := with_bit (val p0) (Z.of_nat nbits - 1) true). set (x2 := with_bit x1 (Z.of_nat nbits - 2) true).
  exists (with_bit x2 0 true). split; [|split].
  - apply (bdSetBit_ok _ x2 0 1); [|lia]. apply (bdSetBit_ok _ x1 (Z.of_nat nbits - 2) 1); [|lia].
    apply (bdSetBit_ok _ (val p0) (Z.of_nat nbits - 1) 1); [done|lia].
  - assert (forall i, 0 <= i -> i = Z.of_nat nbits - 1 \/ i = Z.of_nat nbits - 2 -> Z.testbit (with_bit x2 0 true) i = true) as T.
    { intros i Hi O. unfold x2, x1. rewrite !with_bit_spec by lia.
      destruct (Z.eqb_spec i 0); [done|]. destruct (Z.eqb_spec i (Z.of_nat nbits - 2)); [done|].
      destruct (Z.eqb_spec i (Z.of_nat nbits - 1)); [done|lia]. }
    apply two_bits; [by repeat apply with_bit_nonneg|lia|apply T; lia|apply T; lia].
  - rewrite <- Z.bit0_odd, with_bit_spec by lia. done.
Qed.

(** ** The search for a prime *)

Lemma small_primes_eq : small_primes = SMALL_PRIMES.
Proof. reflexivity. Qed.

Lemma zip_with_map {A B C} (f : B -> A -> C) (g : A -> B) l : zip_with f (map g l) l = map (fun q => f (g q) q) l.
Proof. induction l as [|x l IH]; [done|]. cbn [map zip_with]. by rewrite IH. Qed.

(** The table kept along the search holds the remainders of the candidate. *)
Lemma table_step X : 2 <= X -> zip_with (fun x q => u32 (x + 2) mod q) (map (fun q => (X - 2) mod q) small_primes) small_primes
  = map (fun q => X mod q) small_primes.
Proof.
  intros HX. rewrite zip_with_map. apply map_ext_in. intros q I. rewrite small_primes_eq in I. apply small_primes_range in I.
  pose proof (Z.mod_pos_bound (X - 2) q ltac:(lia)). rewrite u32_small by lia.
  rewrite Z.add_mod_idemp_l by lia. f_equal. lia.
Qed.

Lemma table_zero X : existsb (fun x => x =? 0) (map (fun q => X mod q) small_primes) = false <->
  forall q, In q small_primes -> ~ (q | X).
Proof.
  rewrite <- not_true_iff_false, existsb_exists. split.
  - intros H q I D. apply H. exists (X mod q). split; [by apply (in_map (fun q => X mod q))|]. apply Z.eqb_eq, Z.mod_divide; [|done].
    rewrite small_primes_eq in I. apply small_primes_range in I. lia.
  - intros H (x & I & E). apply in_map_iff in I as (q & <- & I). apply (H q I). apply Z.mod_divide; [|by apply Z.eqb_eq].
    rewrite small_primes_eq in I. apply small_primes_range in I. lia.
Qed.

Section Search.
Context (timer : nat -> Z) (lrand : nat -> nat -> Z) (addr : Z) (fuel : nat) (e : Z) (He : 0 < e < 2 ^ 32) (ntests : nat).

(** What the search promises of the number it accepts. *)
Definition accepted (p : list Z) (X : Z) : Prop :=
  (forall q, In q small_primes -> ~ (q | X)) /\ X mod e <> 1 /\
  exists k res, mpRabinMiller (lrand k) fuel p ntests 0 = Some res /\ res <> 0.

Lemma shortmod_is_one p X : bd_is p X -> (bdShortCmp (bdShortMod p e).1 1 =? 0) = (X mod e =? 1).
Proof using He.
  intros H. pose proof (bdShortMod_ok p X e H He) as E. unfold bdShortMod in *; cbn [fst snd] in *. rewrite E.
  rewrite (bdShortCmp_ok _ (X mod e) 1); [apply sgn_eqb| |done].
  apply bdSetShort_ok. pose proof (Z.mod_pos_bound X e ltac:(lia)). unfold is_digit. lia.
Qed.

Lemma prime_search_ok L : 2 <= L -> forall todo (first : bool) p X overflow count k done p' count' k',
  bd_is p X -> L <= X -> Z.odd X = true ->
  prime_search lrand fuel todo first p (map (fun q => (if first then X else X - 2) mod q) small_primes) overflow e ntests count k
    = Some (done, p', count', k') ->
  exists X', bd_is p' X' /\ L <= X' /\ Z.odd X' = true /\ (done = true -> accepted p' X').
Proof using He.
  intros HL. induction todo as [|todo IH]; intros first p X overflow count k d p' count' k' HP LX OX E; cbn [prime_search] in E.
  { injection E as <- <- _ _. by exists X. }
  destruct (negb (overflow =? 0)); [injection E as <- <- _ _; by exists X|].
  assert ((if first then map (fun q => (if first then X else X - 2) mod q) small_primes
           else zip_with (fun x q => u32 (x + 2) mod q) (map (fun q => (if first then X else X - 2) mod q) small_primes) small_primes)
          = map (fun q => X mod q) small_primes) as ET by (destruct first; [done|apply table_step; lia]).
  rewrite ET in E. clear ET.
  pose proof (bdShortAdd_ok p X 2 HP ltac:(done)) as HP2.
  assert (Z.odd (X + 2) = true) as OX2 by (by rewrite Z.odd_add, OX).
  assert (forall k, (let '(p, overflow) := bdShortAdd p 2 in
      prime_search lrand fuel todo false p (map (fun q => X mod q) small_primes) overflow e ntests (count + 1) k) = Some (d, p', count', k') ->
    exists X', bd_is p' X' /\ L <= X' /\ Z.odd X' = true /\ (d = true -> accepted p' X')) as NEXT.
  { intros k0 E0. destruct (bdShortAdd p 2) as [p2 o2]. cbn [fst] in HP2.
    apply (IH false p2 (X + 2) o2 (count + 1) k0 d p' count' k'); try done; [lia|].
    replace (X + 2 - 2) with X by lia. done. }
  destruct (existsb _ _) eqn:EX; [by eapply NEXT|]. rewrite shortmod_is_one with (X := X) in E by done.
  destruct (Z.eqb_spec (X mod e) 1) as [E1|E1]; [by eapply NEXT|].
  unfold bdRabinMiller in E. destruct (mpRabinMiller (lrand k) fuel p ntests 0) as [res|] eqn:EM; cbn [mbind option_bind] in E; [|done].
  destruct (Z.eqb_spec res 0) as [->|NR]; cbn [negb] in E; [by eapply NEXT|]. injection E as <- <- _ _.
  exists X. split; [done|]. split; [done|]. split; [done|]. intros _. split; [by apply table_zero|]. split; [done|]. by exists k, res.
Qed.

(** With fair streams of rand() the search comes to an end. *)
Lemma prime_search_live todo : (forall k, fair (lrand k)) -> forall first p X r overflow count k, bd_is p X -> 2 < X ->
  settles (fun fuel => prime_search lrand fuel todo first p r overflow e ntests count k).
Proof.
  intros HF. induction todo as [|todo IH]; intros first p X r overflow count k HP LX; cbn [prime_search]; [apply settles_ret|].
  destruct (negb (overflow =? 0)); [apply settles_ret|].
  pose proof (bdShortAdd_ok p X 2 HP ltac:(done)) as HP2. destruct (bdShortAdd p 2) as [p2 o2]. cbn [fst] in HP2.
  destruct (existsb _ _); [apply (IH _ _ (X + 2)); (done || lia)|].
  destruct (bdShortCmp _ _ =? 0); [apply (IH _ _ (X + 2)); (done || lia)|].
  apply (settles_bind (fun fuel => bdRabinMiller (lrand k) fuel p ntests 0)).
  - destruct HP as (D & V). apply (mpRabinMiller_live _ _ (length p) X); [apply HF|done|lia].
  - intros res _. destruct (negb (res =? 0)); [apply settles_ret|]. apply (IH _ _ (X + 2)); (done || lia).
Qed.

Lemma first_table p X : bd_is p X -> map (fun q => (bdShortMod p q).2) small_primes = map (fun q => X mod q) small_primes.
Proof.
  intros H. apply map_ext_in. intros q I. rewrite small_primes_eq in I. apply small_primes_range in I. apply bdShortMod_ok; [done|lia].
Qed.

Lemma low_bound nbits : (2 <= nbits)%nat -> 2 < 3 * 2 ^ (Z.of_nat nbits - 2).
Proof. intros. pose proof (Z.pow_pos_nonneg 2 (Z.of_nat nbits - 2) ltac:(lia) ltac:(lia)). lia. Qed.

Lemma prime_loops_ok nbits : (2 <= nbits)%nat -> forall loops p X count st k d p' count' st' k',
  bd_is p X -> (loops = 0%nat -> 3 * 2 ^ (Z.of_nat nbits - 2) <= X /\ Z.odd X = true) ->
  prime_loops timer lrand addr fuel loops nbits e ntests p count st k = Some (d, p', count', st', k') ->
  exists X', bd_is p' X' /\ 3 * 2 ^ (Z.of_nat nbits - 2) <= X' /\ Z.odd X' = true /\ (d = true -> accepted p' X').
Proof using He.
  intros HB. pose proof (low_bound nbits HB) as LB.
  induction loops as [|loops IH]; intros p X count st k d p' count' st' k' HP H0 E; cbn [prime_loops] in E.
  { injection E as <- <- _ _ _. destruct (H0 eq_refl). by exists X. }
  destruct (prime_candidate_ok timer addr nbits st HB) as (X0 & HX0 & L0 & O0).
  destruct (prime_candidate timer addr nbits st) as [p0 st0]. cbn [fst] in HX0.
  rewrite (first_table p0 X0 HX0) in E.
  destruct (prime_search _ _ _ _ _ _ _ _ _ _ _) as [[[[d1 p1] c1] k1]|] eqn:ES; cbn [mbind option_bind] in E; [|done].
  apply (prime_search_ok (3 * 2 ^ (Z.of_nat nbits - 2)) ltac:(lia) _ true _ X0) in ES as (X1 & H1 & L1 & O1 & A1); try done.
  destruct d1; [injection E as <- <- _ _ _; by exists X1|]. by apply (IH p1 X1 c1 st0 k1 d p' count' st' k').
Qed.

Lemma prime_loops_live nbits : (forall k, fair (lrand k)) -> (2 <= nbits)%nat -> forall loops p count st k,
  settles (fun fuel => prime_loops timer lrand addr fuel loops nbits e ntests p count st k).
Proof.
  intros HF HB. pose proof (low_bound nbits HB) as LB.
  induction loops as [|loops IH]; intros p count st k; cbn [prime_loops]; [apply settles_ret|].
  destruct (prime_candidate_ok timer addr nbits st HB) as (X0 & HX0 & L0 & O0).
  destruct (prime_candidate timer addr nbits st) as [p0 st0]. cbn [fst] in HX0.
  apply (settles_bind (fun fuel => prime_search lrand fuel _ true p0 _ 0 e ntests count k)).
  - apply (prime_search_live _ HF _ _ X0); [done|lia].
  - intros [[[d1 p1] c1] k1] _. destruct d1; [apply settles_ret|apply IH].
Qed.

(** generateRSAPrime leaves an odd number with the two highest bits set; a
    result other than -1 says that the number was accepted. *)
Lemma generateRSAPrime_ok nbits st k ret p st' k' : (2 <= nbits)%nat ->
  generateRSAPrime timer lrand addr fuel nbits e ntests st k = Some (ret, p, st', k') ->
  exists X, bd_is p X /\ 3 * 2 ^ (Z.of_nat nbits - 2) <= X /\ Z.odd X = true /\ (ret <> -1 -> accepted p X).
Proof using He.
  intros HB E. unfold generateRSAPrime in E.
  destruct (prime_loops _ _ _ _ _ _ _ _ _ _ _ _) as [[[[[d p1] c1] st1] k1]|] eqn:EL; cbn [mbind option_bind] in E; [|done].
  injection E as <- <- _ _. apply (prime_loops_ok nbits HB 5 bdNew 0) in EL as (X & H1 & L1 & O1 & A1); [|done|done].
  exists X. split; [done|]. split; [done|]. split; [done|]. destruct d; [intros _; by apply A1|lia].
Qed.

Lemma generateRSAPrime_live nbits st k : (forall k, fair (lrand k)) -> (2 <= nbits)%nat ->
  settles (fun fuel => generateRSAPrime timer lrand addr fuel nbits e ntests st k).
Proof.
  intros HF HB. unfold generateRSAPrime.
  apply (settles_bind (fun fuel => prime_loops timer lrand addr fuel 5 nbits e ntests bdNew 0 st k)); [by apply prime_loops_live|].
  intros [[[[d p1] c1] st1] k1] _. apply settles_ret.
Qed.
End Search.

(** ** The key made from the primes *)

(** The key kp belongs to the factors P > Q and the public exponent E. *)
Record good_key (P Q E : Z) (kp : rsa_key) : Prop := {
  good_order : Q < P;
  good_n : bd_is (rsa_n kp) (P * Q);
  good_e : bd_is (rsa_e kp) E;
  good_p : bd_is (rsa_p kp) P;
  good_q : bd_is (rsa_q kp) Q;
  good_d : exists D, bd_is (rsa_d kp) D /\ (E * D) mod ((P - 1) * (Q - 1)) = 1;
  good_dP : exists X, bd_is (rsa_dP kp) X /\ (X * E) mod (P - 1) = 1;
  good_dQ : exists X, bd_is (rsa_dQ kp) X /\ (X * E) mod (Q - 1) = 1;
  good_qInv : exists X, bd_is (rsa_qInv kp) X /\ (Z.gcd Q P = 1 -> (X * Q) mod P = 1) }.

Lemma is_one g x : bd_is g x -> (bdShortCmp g 1 =? 0) = (x =? 1).
Proof. intros H. rewrite (bdShortCmp_ok g x 1 H) by done. apply sgn_eqb. Qed.

Lemma modinv_coprime a m A M : bd_is a A -> bd_is m M -> 1 < M -> Z.gcd A M = 1 ->
  exists x X, bdModInv a m = Some (x, 0) /\ bd_is x X /\ (X * A) mod M = 1.
Proof.
  intros Ha Hm L G. destruct (bdModInv_ok a m A M Ha Hm ltac:(lia)) as (x & s & X & E & HX & H1 & _).
  destruct (H1 G) as (-> & _ & EX). exists x, X. rewrite EX, Z.mod_small by lia. done.
Qed.

(** p > q: the key exists exactly when e is prime to p - 1 and q - 1. *)
Lemma key_of_primes_ok p q e P Q E progress : bd_is p P -> bd_is q Q -> bd_is e E -> 2 < Q -> Q < P ->
  exists key progress', key_of_primes p q e progress = Some (key, progress') /\
    (is_Some key <-> Z.gcd (P - 1) E = 1 /\ Z.gcd (Q - 1) E = 1) /\
    (forall kp, key = Some kp -> good_key P Q E kp).
Proof.
  intros Hp Hq He LQ LP. unfold key_of_primes. rewrite (bdCompare_ok p q P Q Hp Hq).
  destruct (Z.ltb_spec (Z.sgn (P - Q)) 1); [lia|].
  pose proof (bdShortSub_ok p P 1 Hp ltac:(done) ltac:(lia)) as Hp1. pose proof (bdShortSub_ok q Q 1 Hq ltac:(done) ltac:(lia)) as Hq1.
  fold (bdDecrement p) in Hp1. fold (bdDecrement q) in Hq1.
  destruct (bdGcd_ok _ _ _ _ Hp1 He) as (g1 & -> & HG1). cbn [mbind option_bind]. rewrite (is_one _ _ HG1).
  destruct (Z.eqb_spec (Z.gcd (P - 1) E) 1) as [G1|G1]; cbn [negb].
  2:{ eexists _, _. split; [done|]. split; [|done]. split; [intros [? ?]; done|tauto]. }
  destruct (bdGcd_ok _ _ _ _ Hq1 He) as (g2 & -> & HG2). cbn [mbind option_bind]. rewrite (is_one _ _ HG2).
  destruct (Z.eqb_spec (Z.gcd (Q - 1) E) 1) as [G2|G2]; cbn [negb].
  2:{ eexists _, _. split; [done|]. split; [|done]. split; [intros [? ?]; done|tauto]. }
  pose proof (bdMultiply_ok _ _ _ _ Hp1 Hq1) as Hphi.
  assert (Z.gcd E ((P - 1) * (Q - 1)) = 1) as G3 by (apply Z.coprime_mul_r; unfold Z.coprime; by rewrite Z.gcd_comm).
  destruct (modinv_coprime _ _ _ _ He Hphi ltac:(nia) G3) as (d & D & -> & HD & ED). cbn [mbind option_bind fst].
  rewrite (is_one _ ((E * D) mod ((P - 1) * (Q - 1)))) by (apply bdModMult_ok; try done; nia).
  rewrite (Z.mul_comm E D), ED. cbn [negb Z.eqb Pos.eqb].
  destruct (modinv_coprime _ _ _ _ He Hp1 ltac:(lia) ltac:(by rewrite Z.gcd_comm)) as (dP & XP & -> & HXP & EXP). cbn [mbind option_bind fst].
  destruct (modinv_coprime _ _ _ _ He Hq1 ltac:(lia) ltac:(by rewrite Z.gcd_comm)) as (dQ & XQ & -> & HXQ & EXQ). cbn [mbind option_bind fst].
  destruct (bdModInv_ok q p Q P Hq Hp ltac:(lia)) as (qi & s & XI & -> & HXI & H1 & _). cbn [mbind option_bind fst].
  eexists _, _. split; [done|]. split; [done|]. intros kp [= <-]. split; cbn; try done.
  - by apply bdMultiply_ok.
  - exists D. by rewrite Z.mul_comm.
  - by exists XP.
  - by exists XQ.
  - exists XI. split; [done|]. intros G. destruct (H1 G) as (_ & _ & EX). rewrite EX. apply Z.mod_small. lia.
Qed.

(** The factors are swapped when q > p. *)
Lemma key_of_primes_swap p q e P Q progress : bd_is p P -> bd_is q Q -> P < Q -> key_of_primes p q e progress = key_of_primes q p e progress.
Proof.
  intros Hp Hq L. unfold key_of_primes. rewrite (bdCompare_ok p q P Q Hp Hq), (bdCompare_ok q p Q P Hq Hp).
  destruct (Z.ltb_spec (Z.sgn (P - Q)) 1), (Z.ltb_spec (Z.sgn (Q - P)) 1); (done || lia).
Qed.

Section Key.
Context (timer : nat -> Z) (lrand : nat -> nat -> Z) (addr : Z).

Lemma modulus_bits np nq nbits P Q : (2 <= nq)%nat -> (2 <= np)%nat -> nbits = (np + nq)%nat ->
  3 * 2 ^ (Z.of_nat np - 2) <= P -> 3 * 2 ^ (Z.of_nat nq - 2) <= Q -> 2 ^ (Z.of_nat nbits - 1) <= P * Q.
Proof.
  intros Lq Lp E HP HQ. set (a := 2 ^ (Z.of_nat np - 2)) in *. set (b := 2 ^ (Z.of_nat nq - 2)) in *.
  assert (0 < a) by (apply Z.pow_pos_nonneg; lia). assert (0 < b) by (apply Z.pow_pos_nonneg; lia).
  replace (Z.of_nat nbits - 1) with (3 + ((Z.of_nat np - 2) + (Z.of_nat nq - 2))) by lia.
  rewrite !Z.pow_add_r by lia. fold a b. change (2 ^ 3) with 8.
  assert (3 * a * (3 * b) <= P * Q) by (apply Z.mul_le_mono_nonneg; lia). nia.
Qed.

Lemma bound_halves nbits : (4 <= nbits)%nat -> (2 <= nbits / 2)%nat /\ (2 <= nbits - nbits / 2)%nat.
Proof. intros L. pose proof (Nat.div_mod_eq nbits 2). pose proof (Nat.mod_upper_bound nbits 2). lia. Qed.

Lemma generateRSAKey_ok fuel ok nbits ee ntests progress st k kp progress' st' k' : 0 < ee < 2 ^ 32 -> (4 <= nbits)%nat ->
  generateRSAKey timer lrand addr fuel ok nbits ee ntests progress st k = Some (Some kp, progress', st', k') ->
  exists P Q E, good_key P Q E kp /\ 2 < Q /\ 2 ^ (Z.of_nat nbits - 1) <= P * Q.
Proof.
  intros He HB H. destruct (bound_halves nbits HB) as [B1 B2]. unfold generateRSAKey in H. destruct ok; cbn [negb] in H; [|done].
  destruct (generateRSAPrime _ _ _ _ (nbits - nbits / 2) _ _ _ _) as [[[[r1 p] st1] k1]|] eqn:EP; cbn [mbind option_bind] in H; [|done].
  destruct (generateRSAPrime _ _ _ _ (nbits / 2) _ _ st1 _) as [[[[r2 q] st2] k2]|] eqn:EQ; cbn [mbind option_bind] in H; [|done].
  apply generateRSAPrime_ok in EP as (P & HP & LP & _); [|done|done]. apply generateRSAPrime_ok in EQ as (Q & HQ & LQ & _); [|done|done].
  rewrite (bdIsEqual_ok p q P Q HP HQ) in H. destruct (Z.eqb_spec P Q) as [|N]; [done|].
  destruct (generateRSAPrime _ _ _ _ (nbits / 2) _ _ st2 _) as [[[[r3 e] st3] k3]|] eqn:EE; cbn [mbind option_bind] in H; [|done].
  apply generateRSAPrime_ok in EE as (E & HE & LE & _); [|done|done].
  pose proof (low_bound _ B1). pose proof (low_bound _ B2).
  pose proof (modulus_bits _ _ nbits P Q B1 B2 ltac:(lia) LP LQ) as LN.
  destruct (Z.lt_ge_cases Q P) as [L|L].
  - destruct (key_of_primes_ok p q e P Q E 95 HP HQ HE ltac:(lia) L) as (key & pr & EK & _ & G). rewrite EK in H. cbn [mbind option_bind] in H.
    injection H as -> _ _ _. exists P, Q, E. split; [by apply G|]. split; [lia|done].
  - rewrite (key_of_primes_swap p q e P Q) in H by (done || lia).
    destruct (key_of_primes_ok q p e Q P E 95 HQ HP HE ltac:(lia) ltac:(lia)) as (key & pr & EK & _ & G). rewrite EK in H. cbn [mbind option_bind] in H.
    injection H as -> _ _ _. exists Q, P, E. split; [by apply G|]. split; [lia|]. by rewrite Z.mul_comm.
Qed.

Lemma generateRSAKey_live ok nbits ee ntests progress st k : (forall k, fair (lrand k)) -> 0 < ee < 2 ^ 32 -> (4 <= nbits)%nat ->
  settles (fun fuel => generateRSAKey timer lrand addr fuel ok nbits ee ntests progress st k).
Proof.
  intros HF He HB. destruct (bound_halves nbits HB) as [B1 B2]. unfold generateRSAKey. destruct ok; cbn [negb]; [|apply settles_ret].
  apply (settles_bind (fun fuel => generateRSAPrime timer lrand addr fuel (nbits - nbits / 2) ee ntests st k)); [by apply generateRSAPrime_live|].
  intros [[[r1 p] st1] k1] [f1 EP]. apply generateRSAPrime_ok in EP as (P & HP & LP & _); [|done|done].
  apply (settles_bind (fun fuel => generateRSAPrime timer lrand addr fuel (nbits / 2) ee ntests st1 k1)); [by apply generateRSAPrime_live|].
  intros [[[r2 q] st2] k2] [f2 EQ]. apply generateRSAPrime_ok in EQ as (Q & HQ & LQ & _); [|done|done].
  rewrite (bdIsEqual_ok p q P Q HP HQ). destruct (Z.eqb_spec P Q) as [|N]; [apply settles_ret|].
  apply (settles_bind (fun fuel => generateRSAPrime timer lrand addr fuel (nbits / 2) ee ntests st2 k2)); [by apply generateRSAPrime_live|].
  intros [[[r3 e] st3] k3] [f3 EE]. apply generateRSAPrime_ok in EE as (E & HE & LE & _); [|done|done].
  pose proof (low_bound _ B1). pose proof (low_bound _ B2).
  assert (exists key pr, key_of_primes p q e 95 = Some (key, pr)) as (key & pr & ->); [|apply settles_ret].
  destruct (Z.lt_ge_cases Q P) as [L|L].
  - destruct (key_of_primes_ok p q e P Q E 95 HP HQ HE ltac:(lia) L) as (key & pr & EK & _). by exists key, pr.
  - rewrite (key_of_primes_swap p q e P Q) by (done || lia).
    destruct (key_of_primes_ok q p e Q P E 95 HQ HP HE ltac:(lia) ltac:(lia)) as (key & pr & EK & _). by exists key, pr.
Qed.

(** The check at the end of key generation comes to a result. *)
Lemma rsa_selftest_total tmp_buf priv pub : Forall is_byte tmp_buf -> 0 < hex_val 0 (primefac pub) -> exists ok, rsa_selftest tmp_buf priv pub = Some ok.
Proof.
  intros HB HN. unfold rsa_selftest.
  assert (Forall is_byte (write_start (codes "Test" ++ [0]) tmp_buf)) as HW.
  { unfold write_start. apply Forall_app; split; [by repeat constructor|by apply Forall_drop]. }
  pose proof (bdConvFromHex_ok (key priv)) as HD. pose proof (bdConvFromHex_ok (key pub)) as HE. pose proof (bdConvFromHex_ok (primefac pub)) as HF.
  destruct (bdModExp_ok _ _ _ _ _ _ (bdConvFromOctets_ok _ (Forall_take _ 8 _ HW)) HD HF HN) as (y & -> & HY & _). cbn [mbind option_bind].
  set (buf2 := write_start (bdConvToOctets y (bdSizeof y * 4)).1 _).
  assert (Forall is_byte buf2) as HW2.
  { apply Forall_app; split; [|by apply Forall_drop]. unfold bdConvToOctets. destruct (_ =? 0)%nat; [done|]. cbn [fst].
    destruct HY as (DY & _). by apply mpConvToOctets_ok. }
  destruct (bdModExp_ok _ _ _ _ _ _ (bdConvFromOctets_ok _ (Forall_take _ (bdSizeof y * 4) _ HW2)) HE HF HN) as (z & -> & _). by eexists.
Qed.

Lemma crypt_rsa_generate_ok fuel ok tmp_buf nbits priv0 pub0 progress st k priv pub progress' check st' k' : (3 <= nbits)%nat ->
  crypt_rsa_generate timer lrand addr fuel ok tmp_buf nbits priv0 pub0 progress st k = Some (0, priv, pub, progress', check, st', k') ->
  exists P Q E D, key_pair P Q E D pub priv /\ 0 <= E /\ 0 <= D /\ 2 < Q < P /\ (E * D) mod ((P - 1) * (Q - 1)) = 1 /\ 2 ^ Z.of_nat nbits <= P * Q.
Proof.
  intros HB H. unfold crypt_rsa_generate in H.
  destruct (generateRSAKey _ _ _ _ _ _ _ _ _ _ _) as [[[[[kp|] pr] st1] k1]|] eqn:EK; cbn [mbind option_bind] in H; [|done|done].
  destruct (rsa_selftest _ _ _) as [c|]; cbn [mbind option_bind] in H; [|done]. injection H as <- <- _ _ _ _.
  apply generateRSAKey_ok in EK as (P & Q & E & G & LQ & LN); [|done|lia]. destruct G as [LP HN HE _ _ (D & HD & ED) _ _ _].
  exists P, Q, E, D. unfold key_pair. cbn [primefac key]. rewrite !(bdConvToHex_ok _ _ HN), (bdConvToHex_ok _ _ HE), (bdConvToHex_ok _ _ HD).
  split; [done|]. split; [by apply (bd_nonneg _ _ HE)|]. split; [by apply (bd_nonneg _ _ HD)|]. split; [done|]. split; [done|].
  by replace (Z.of_nat nbits) with (Z.of_nat (nbits + 1) - 1) by lia.
Qed.

Lemma crypt_rsa_generate_live ok tmp_buf nbits priv0 pub0 progress st k : (forall k, fair (lrand k)) -> (3 <= nbits)%nat ->
  Forall is_byte tmp_buf ->
  settles (fun fuel => crypt_rsa_generate timer lrand addr fuel ok tmp_buf nbits priv0 pub0 progress st k).
Proof.
  intros HF HB HT. unfold crypt_rsa_generate.
  apply (settles_bind (fun fuel => generateRSAKey timer lrand addr fuel ok (nbits + 1) 3 50 progress _ k)); [apply generateRSAKey_live; (done || lia)|].
  intros [[[[kp|] pr] st1] k1] [f EK]; [|apply settles_ret].
  apply generateRSAKey_ok in EK as (P & Q & E & G & LQ & LN); [|done|lia]. destruct G as [LP HN HE _ _ (D & HD & ED) _ _ _].
  edestruct rsa_selftest_total as [c ->]; [exact HT| |apply settles_ret]. cbn [primefac]. rewrite (bdConvToHex_ok _ _ HN). nia.
Qed.
End Key.

(** A block of at most nbits bits is below a modulus of more. *)
Lemma block_below src nbits N : Forall is_byte src -> (8 * length src <= nbits)%nat -> 2 ^ Z.of_nat nbits <= N -> octets_val src < N.
Proof.
  intros B L LN. apply Z.lt_le_trans with (2 := LN). pose proof (octets_val_range src B) as R. apply Z.lt_le_trans with (1 := proj2 R).
  change 256 with (2 ^ 8). rewrite <- Z.pow_mul_r by lia. apply Z.pow_le_mono_r; lia.
Qed.
