(* ===== verification/RsaFiles.v ===== *)
(** * RsaFiles: key files, and keys from generation to use

    The keys that crypt_rsa_generate_keys makes are written to the card, read
    back into the context and used by the cipher: the theorems of this file
    follow them along that way. *)

From Stdlib Require Import ZArith.Zdivisibility.
From stdpp Require Import base list numbers option gmap strings.
From S2P Require Import Prelude BigDigits BigDigitsProps BigArith BigMod BigModProps BigModExp BigPrime.
From S2P Require Import Crypt CryptProps BigConv Bigd BigdProps BigBits Rand Rsa RsaProps.
Local Open Scope Z_scope.

(** ** A key file read back *)

(** Text that fits on one line of a key file. *)
Definition text_line (s : list Z) : Prop := Forall (fun x => x <> 10 /\ x <> 0) s.

Lemma strchr_line s t : text_line s -> strchr 10 (s ++ 10 :: t) = Some (Some (length s)).
Proof.
  induction 1 as [|x s [N1 N0] H IH]; [done|]. cbn [app strchr length].
  destruct (Z.eqb_spec x 10); [done|]. destruct (Z.eqb_spec x 0); [done|]. by rewrite IH.
Qed.

Lemma cstr_line s t : text_line s -> cstr (s ++ 0 :: t) = Some s.
Proof.
  induction 1 as [|x s [N1 N0] H IH]; [done|]. cbn [app cstr]. destruct (Z.eqb_spec x 0); [done|]. by rewrite IH.
Qed.

Lemma insert_middle (s : list Z) x y t : <[length s := y]> (s ++ x :: t) = s ++ y :: t.
Proof. by rewrite insert_app_r_alt, Nat.sub_diag by lia. Qed.

Lemma drop_middle (s : list Z) y t : drop (S (length s)) (s ++ y :: t) = t.
Proof. rewrite drop_app_ge by lia. by replace (S (length s) - length s)%nat with 1%nat by lia. Qed.

Definition usable_file (c : card) (file : string) : Prop := can_create c file = true /\ can_open c file = true /\ can_read c file = true.

Definition loaded (file : string) (k0 k : t_crypt_key) : t_crypt_key :=
  {| id := id k0; name := codes file; primefac := primefac k; key := key k |}.

(** Reading what was written, whatever other files the card holds. *)
Lemma load_file c file k0 k : files c !! file = Some (primefac k ++ [10] ++ key k ++ [10]) -> can_open c file = true -> can_read c file = true ->
  text_line (primefac k) -> text_line (key k) -> crypt_rsa_load c file k0 = Some (1, loaded file k0 k).
Proof.
  intros F O R LP LK. unfold crypt_rsa_load. rewrite F, O, R. cbn [negb app].
  rewrite strchr_line by done. cbn [mbind option_bind]. rewrite insert_middle, drop_middle.
  rewrite strchr_line by done. cbn [mbind option_bind]. rewrite insert_middle, !cstr_line by done. done.
Qed.

Lemma save_file c file k : can_create c file = true ->
  files (crypt_rsa_save c file k).2 = <[file := primefac k ++ [10] ++ key k ++ [10]]> (files c) /\
  can_create (crypt_rsa_save c file k).2 = can_create c /\ can_open (crypt_rsa_save c file k).2 = can_open c /\
  can_read (crypt_rsa_save c file k).2 = can_read c.
Proof. intros H. unfold crypt_rsa_save. by rewrite H. Qed.

(** A key saved to a file and loaded from it has the same modulus and
    exponent, and carries the file's name; this needs key texts without text_line
    ends, and other files of the card do not matter. *)
Theorem rsa_key_file_roundtrip c file k k0 : usable_file c file -> text_line (primefac k) -> text_line (key k) ->
  (crypt_rsa_save c file k).1 = 1 /\ crypt_rsa_load (crypt_rsa_save c file k).2 file k0 = Some (1, loaded file k0 k).
Proof.
  intros (C & O & R) LP LK. destruct (save_file c file k C) as (F & _ & EO & ER). split; [unfold crypt_rsa_save; by rewrite C|].
  apply load_file; [rewrite F; apply lookup_insert_eq|by rewrite EO|by rewrite ER|done|done].
Qed.

Definition good_card : card := {| files := ∅; can_create := fun _ => true; can_open := fun _ => true; can_read := fun _ => true |}.
Definition small_key : t_crypt_key := {| id := 3; name := []; primefac := codes "a50085"; key := codes "ffb" |}.

Lemma rsa_key_file_roundtrip_witness :
  (crypt_rsa_save good_card "K" small_key).1 = 1 /\
  crypt_rsa_load (crypt_rsa_save good_card "K" small_key).2 "K" small_key = Some (1, loaded "K" small_key small_key).
Proof. apply (rsa_key_file_roundtrip good_card "K" small_key small_key); [done|repeat constructor; done|repeat constructor; done]. Defined.

(** ** The text of a generated key *)

Lemma conv_loop_nonneg b bytes : 0 < b -> forall rd, Forall (fun d => 0 <= d) rd -> Forall (fun d => 0 <= d) (conv_loop b bytes rd).
Proof.
  intros Hb. induction bytes as [|t bytes IH]; intros rd H; cbn [conv_loop]; [done|]. apply IH. clear IH.
  revert t. induction H as [|d rd Hd H IHr]; intros t; cbn [byte_in]; [done|]. constructor; [|apply IHr]. by apply Z.mod_pos_bound.
Qed.

Lemma skip_zeros_Forall (P : Z -> Prop) l : Forall P l -> Forall P (skip_zeros l).
Proof. induction 1 as [|x l Hx H IH]; cbn [skip_zeros]; [done|]. destruct (x =? 0); [done|by constructor]. Qed.

Lemma bdConvToHex_line b : text_line (bdConvToHex b).
Proof.
  unfold bdConvToHex, mpConvToHex. destruct (negb _); [by repeat constructor|]. destruct (mpConvToOctets b _) as [bytes n].
  apply Forall_map, skip_zeros_Forall, Forall_rev. eapply Forall_impl.
  - apply (conv_loop_nonneg 16 bytes ltac:(lia)). by apply Forall_replicate.
  - intros d Hd. cbn in Hd. unfold HEX_DIGITS. destruct (d <? 10); lia.
Qed.

Section Generated.
Context (timer : nat -> Z) (lrand : nat -> nat -> Z) (addr : Z) (fuel : nat) (seed_ok : bool) (tmp_buf : list Z) (keysize : nat)
  (junk_priv junk_pub : t_crypt_key) (st : rand_state) (k : nat).

Lemma generate_lines priv pub pr check st' k' :
  crypt_rsa_generate timer lrand addr fuel seed_ok tmp_buf keysize junk_priv junk_pub 0 st k = Some (0, priv, pub, pr, check, st', k') ->
  text_line (primefac priv) /\ text_line (key priv) /\ text_line (primefac pub) /\ text_line (key pub).
Proof.
  unfold crypt_rsa_generate. intros H.
  destruct (generateRSAKey _ _ _ _ _ _ _ _ _ _ _) as [[[[[kp|] pr1] st1] k1]|]; cbn [mbind option_bind] in H; [|done|done].
  destruct (rsa_selftest _ _ _) as [c|]; cbn [mbind option_bind] in H; [|done]. injection H as <- <- _ _ _ _.
  cbn [primefac key]. auto using bdConvToHex_line.
Qed.

(** Key generation writes both files and loads the keys from them. *)
Lemma generate_keys_ok c ctx priv pub pr check st' k' :
  usable_file c "ML/DATA/io_crypt.key" -> usable_file c "ML/DATA/io_crypt.pub" ->
  crypt_rsa_generate timer lrand addr fuel seed_ok tmp_buf keysize junk_priv junk_pub 0 st k = Some (0, priv, pub, pr, check, st', k') ->
  exists ctx' c', crypt_rsa_generate_keys timer lrand addr fuel seed_ok tmp_buf keysize junk_priv junk_pub c ctx st k = Some (ctx', c', st', k') /\
    progress ctx' = 100 /\ primefac (pub_key ctx') = primefac pub /\ key (pub_key ctx') = key pub /\
    primefac (priv_key ctx') = primefac priv /\ key (priv_key ctx') = key priv.
Proof.
  intros (C1 & O1 & R1) (C2 & O2 & R2) E. destruct (generate_lines _ _ _ _ _ _ E) as (L1 & L2 & L3 & L4).
  unfold crypt_rsa_generate_keys. rewrite E. cbn [mbind option_bind].
  destruct (save_file c "ML/DATA/io_crypt.key" priv C1) as (F1 & EC1 & EO1 & ER1).
  set (c1 := (crypt_rsa_save c "ML/DATA/io_crypt.key" priv).2) in *.
  destruct (save_file c1 "ML/DATA/io_crypt.pub" pub) as (F2 & EC2 & EO2 & ER2); [by rewrite EC1|].
  set (c2 := (crypt_rsa_save c1 "ML/DATA/io_crypt.pub" pub).2) in *. clearbody c1 c2.
  unfold load_keys. rewrite (load_file c2 "ML/DATA/io_crypt.pub" _ pub); [|rewrite F2; apply lookup_insert_eq|by rewrite EO2, EO1|by rewrite ER2, ER1|done|done].
  cbn [mbind option_bind].
  rewrite (load_file c2 "ML/DATA/io_crypt.key" _ priv); [|by rewrite F2, lookup_insert_ne, F1, lookup_insert_eq|by rewrite EO2, EO1|by rewrite ER2, ER1|done|done].
  cbn [mbind option_bind]. eexists _, _. split; [reflexivity|]. done.
Qed.
End Generated.

Lemma key_pair_texts p q E D pub priv pub' priv' : key_pair p q E D pub priv ->
  primefac pub' = primefac pub -> key pub' = key pub -> primefac priv' = primefac priv -> key priv' = key priv -> key_pair p q E D pub' priv'.
Proof. unfold key_pair. intros H -> -> -> ->. done. Qed.

(** ** Keys from generation to use *)

(** C4: RSA key generation end to end: when crypt_rsa_generate returns 0 for a
    key size of at least 3 bits and both key files can be created and read,
    crypt_rsa_generate_keys leaves in the context the keys it wrote to the card
    and read back; both have a modulus P Q of more than keysize bits.  When the
    two numbers P and Q that passed the primality tests are prime, then for any
    octets of at most keysize bits crypt_rsa_crypt with the private key turns
    what crypt_rsa_crypt with the public key made of them into the same number,
    written in whole words without leading zero words, so into the same octets
    exactly if they had that form.  The cipher functions crypt_rsa_encrypt and
    crypt_rsa_decrypt do the same, except that each of them returns length 0 for
    an input shorter than the block size. *)
Theorem rsa_generated_keys_work timer lrand addr fuel seed_ok tmp_buf keysize junk_priv junk_pub c ctx st k priv pub pr check st' k' :
  (3 <= keysize)%nat -> usable_file c "ML/DATA/io_crypt.key" -> usable_file c "ML/DATA/io_crypt.pub" ->
  crypt_rsa_generate timer lrand addr fuel seed_ok tmp_buf keysize junk_priv junk_pub 0 st k = Some (0, priv, pub, pr, check, st', k') ->
  exists ctx' c' P Q,
    crypt_rsa_generate_keys timer lrand addr fuel seed_ok tmp_buf keysize junk_priv junk_pub c ctx st k = Some (ctx', c', st', k') /\
    progress ctx' = 100 /\ hex_val 0 (primefac (pub_key ctx')) = P * Q /\ 2 < Q < P /\ 2 ^ Z.of_nat keysize <= P * Q /\
    (Z.prime P -> Z.prime Q -> forall src, Forall is_byte src -> (8 * length src <= keysize)%nat ->
      exists cipher back, crypt_rsa_crypt src (pub_key ctx') = Some (cipher, u32 (Z.of_nat (length cipher))) /\
        crypt_rsa_crypt cipher (priv_key ctx') = Some (back, u32 (Z.of_nat (length back))) /\
        block back /\ octets_val back = octets_val src /\ (back = src <-> block src) /\
        crypt_rsa_encrypt (Some ctx') src
          = (if Z.of_nat (length src) <? crypt_rsa_blocksize (Some ctx') then Some ([], 0)
             else Some (cipher, u32 (Z.of_nat (length cipher)))) /\
        crypt_rsa_decrypt (Some ctx') cipher
          = (if Z.of_nat (length cipher) <? crypt_rsa_blocksize (Some ctx') then Some ([], 0)
             else Some (back, u32 (Z.of_nat (length back))))).
Proof.
  intros HB U1 U2 E. destruct (crypt_rsa_generate_ok _ _ _ _ _ _ _ _ _ _ _ _ _ _ _ _ _ _ HB E) as (P & Q & EE & D & KP & E0 & D0 & PQ & ED & LN).
  destruct (generate_keys_ok _ _ _ _ _ _ _ _ _ _ _ c ctx _ _ _ _ _ _ U1 U2 E) as (ctx' & c' & EK & PR & T1 & T2 & T3 & T4).
  pose proof (key_pair_texts _ _ _ _ _ _ _ _ KP T1 T2 T3 T4) as KP'.
  exists ctx', c', P, Q. split; [done|]. split; [done|]. split; [by destruct KP'|]. split; [done|]. split; [done|].
  intros PP PQ' src B L.
  destruct (crypt_rsa_crypt_inverse P Q EE D (pub_key ctx') (priv_key ctx') src) as (cipher & back & E1 & _ & E2 & BB & V); try done.
  - split; (done || lia).
  - by apply (block_below src keysize).
  - exists cipher, back. split_and!; try done; [split; [by intros <-|intros Bs; by apply block_unique]|by rewrite <- E1|by rewrite <- E2].
Qed.

Definition no_key : t_crypt_key := {| id := 0; name := []; primefac := []; key := [] |}.
Definition no_ctx : rsa_ctx_t := {| pub_key := no_key; priv_key := no_key; progress := 0 |}.

Lemma rsa_generated_keys_work_witness : exists ctx' c' st' k',
  crypt_rsa_generate_keys (fun _ => 0) (fun _ _ => 0) 0 1 true [] 32 no_key no_key good_card no_ctx lfsr113 0 = Some (ctx', c', st', k') /\
  progress ctx' = 100.
Proof.
  destruct (rsa_generated_keys_work (fun _ => 0) (fun _ _ => 0) 0 1 true [] 32 no_key no_key good_card no_ctx lfsr113 0
    {| id := 0; name := codes "new key"; primefac := codes "1a09fb0b7"; key := codes "cc1536d5" |}
    {| id := 0; name := codes "new key"; primefac := codes "1a09fb0b7"; key := codes "ebfd" |} 99 false
    {| z1 := 2129597959; z2 := 2626025095; z3 := 746707313; z4 := 2469892613; reads := 4 |} 3
    ltac:(lia) ltac:(done) ltac:(done) ltac:(vm_compute; reflexivity)) as (ctx' & c' & P & Q & E & PR & _).
  exists ctx', c'. eexists _, _. split; [exact E|exact PR].
Defined.

(** C34: Key generation terminates: when the results of rand() are fair, enough
    draws let crypt_rsa_generate return, with the keys or with -1. *)
Theorem rsa_generation_live timer lrand addr seed_ok tmp_buf nbits priv0 pub0 progress0 st k :
  (forall k, fair (lrand k)) -> (3 <= nbits)%nat -> Forall is_byte tmp_buf ->
  exists F r, forall fuel, (F <= fuel)%nat ->
    crypt_rsa_generate timer lrand addr fuel seed_ok tmp_buf nbits priv0 pub0 progress0 st k = Some r.
Proof. intros HF HB HT. exact (crypt_rsa_generate_live timer lrand addr seed_ok tmp_buf nbits priv0 pub0 progress0 st k HF HB HT). Qed.

Lemma rsa_generation_live_witness : exists F r, forall fuel, (F <= fuel)%nat ->
  crypt_rsa_generate (fun _ => 0) (fun _ => rand_runs) 0 fuel true [] 1024 no_key no_key 0 lfsr113 0 = Some r.
Proof.
  apply (rsa_generation_live (fun _ => 0) (fun _ => rand_runs) 0 true [] 1024 no_key no_key 0 lfsr113 0); [intros; exact rand_runs_fair|apply Nat.leb_le; reflexivity|done].
Defined.

(** A number that generateRSAPrime reports as found has its two highest
    bits set and is odd, has no divisor in the table of small primes, leaves a
    remainder other than 1 modulo e, and passed the Rabin-Miller test; below
    1009^2 it is prime. *)
Theorem rsa_prime_found timer lrand addr fuel nbits e ntests st k ret p st' k' : 0 < e < 2 ^ 32 -> (2 <= nbits)%nat ->
  generateRSAPrime timer lrand addr fuel nbits e ntests st k = Some (ret, p, st', k') -> ret <> -1 ->
  3 * 2 ^ (Z.of_nat nbits - 2) <= val p /\ Z.odd (val p) = true /\ (forall q, In q small_primes -> ~ (q | val p)) /\ val p mod e <> 1 /\
  (exists j res, mpRabinMiller (lrand j) fuel p ntests 0 = Some res /\ res <> 0) /\ (val p < 1009 * 1009 -> Z.prime (val p)).
Proof.
  intros He HB E N. destruct (generateRSAPrime_ok timer lrand addr fuel e He ntests nbits st k ret p st' k' HB E) as (X & (D & <-) & L & O & A).
  destruct (A N) as (S & M & R). split; [done|]. split; [done|]. split; [done|]. split; [done|]. split; [done|].
  intros U. pose proof (low_bound nbits HB). apply trial_division; [lia|]. intros q [<-|I] _; [|by apply S].
  intros [j Ej]. rewrite Ej, Z.odd_mul, andb_false_r in O. done.
Qed.

Lemma rsa_prime_found_witness : Z.prime (val [4073]).
Proof.
  apply (rsa_prime_found (fun k => Z.of_nat k) (fun _ _ => 0) 0 1 12 3 1 lfsr113 0 8 [4073]
    {| z1 := 1619001652; z2 := 2497664; z3 := 1278318695; z4 := 4260523529; reads := 1 |} 1 ltac:(done) ltac:(lia) ltac:(vm_compute; reflexivity) ltac:(done)).
  vm_compute. reflexivity.
Defined.

(** The cipher of a context: with the keys of two different primes and
    exponents inverse to each other, decrypting what was encrypted gives back
    a block of whole words whose first word is not zero and whose number is
    below the modulus, unless the ciphertext came out shorter than the block
    size, which decryption refuses with length 0. *)
Theorem rsa_cipher_roundtrip p q E D ctx src : rsa_params p q E D -> key_pair p q E D (pub_key ctx) (priv_key ctx) ->
  block src -> octets_val src < p * q -> crypt_rsa_blocksize (Some ctx) <= Z.of_nat (length src) ->
  exists c, crypt_rsa_encrypt (Some ctx) src = Some (c, u32 (Z.of_nat (length c))) /\ block c /\
    crypt_rsa_decrypt (Some ctx) c =
      if Z.of_nat (length c) <? crypt_rsa_blocksize (Some ctx) then Some ([], 0) else Some (src, u32 (Z.of_nat (length src))).
Proof.
  intros R K B L BS. destruct (crypt_rsa_crypt_roundtrip p q E D _ _ src R K B L) as (c & E1 & BC & E2).
  exists c. unfold crypt_rsa_encrypt, crypt_rsa_decrypt. destruct (Z.ltb_spec (Z.of_nat (length src)) (crypt_rsa_blocksize (Some ctx))); [lia|].
  split; [done|]. split; [done|]. destruct (_ <? _); done.
Qed.

Definition small_ctx : rsa_ctx_t :=
  {| pub_key := {| id := 0; name := codes "pub"; primefac := codes "1a09fb0b7"; key := codes "ebfd" |};
     priv_key := {| id := 0; name := codes "key"; primefac := codes "1a09fb0b7"; key := codes "cc1536d5" |}; progress := 100 |}.

Lemma rsa_cipher_roundtrip_witness :
  crypt_rsa_encrypt (Some small_ctx) [1; 2; 3; 4] = Some ([0x28; 0x64; 0x56; 0xd5], 4) /\
  crypt_rsa_decrypt (Some small_ctx) [0x28; 0x64; 0x56; 0xd5] = Some ([1; 2; 3; 4], 4).
Proof.
  destruct (rsa_cipher_roundtrip 110039 63521 0xebfd 0xcc1536d5 small_ctx [1; 2; 3; 4]) as (c & E1 & _ & E2).
  - split; [apply prime_check_ok; [lia|vm_compute; reflexivity]|apply prime_check_ok; [lia|vm_compute; reflexivity]|lia|lia|lia|vm_compute; reflexivity].
  - repeat split; vm_compute; reflexivity.
  - split; [by repeat constructor|]. exists 1%nat. split; [done|]. intros _. vm_compute. discriminate.
  - vm_compute. reflexivity.
  - vm_compute. discriminate.
  - assert (crypt_rsa_encrypt (Some small_ctx) [1; 2; 3; 4] = Some ([0x28; 0x64; 0x56; 0xd5], 4)) as E3 by (vm_compute; reflexivity).
    split; [exact E3|]. rewrite E3 in E1. injection E1 as <- _. exact E2.
Defined.
