(* ===== verification/IoCrypt.v ===== *)
(** * IoCrypt: the file hooks of modules/io_crypt/io_crypt.c and the decrypter

    The module replaces the functions of Canon's file device by hooks that
    encrypt images as they are written and decrypt them as they are read.  An
    encrypted file has a header; the hooks hide it by moving the position of the
    descriptor.  Canon's functions, and the position, which the module reads and
    writes in Canon's own table, are the class [Iodev].

    A hook hands its data to the encryption task and waits for it, so the work
    of the task is done within the call here.  io_decrypt.c, the program that
    decrypts files on a computer, is a function on the bytes of the file. *)

From stdpp Require Import base list numbers option gmap strings.
From S2P Require Import Prelude Crypt BigDigits Rand Rsa.
Local Open Scope Z_scope.

Definition cr2_magic : list Z := [0x49; 0x49; 0x2A; 0x00].
Definition jpg_magic : list Z := [0xff; 0xd8; 0xff; 0xe1].
Definition rsa_magic : list Z := [0xff; 0xd8; 0xff; 0xd8].
Definition lfsr_magic : list Z := [0xff; 0xd8; 0xff; 0x8d].
Definition xtea_magic : list Z := [0xff; 0xd8; 0xff; 0x8e].
Definition rsaxtea_magic : list Z := [0xff; 0xd8; 0xff; 0xd9].

(** memcmp(buf, magic, 4) == 0 *)
Definition has_magic (magic buf : list Z) : bool := bool_decide (take 4 buf = magic).
Definition is_image (buf : list Z) : bool := has_magic jpg_magic buf || has_magic cr2_magic buf.

Definition CRYPT_MODE_SYMMETRIC : Z := 0.
Definition CRYPT_MODE_ASYMMETRIC : Z := 1.
Definition CRYPT_MODE_ASYMMETRIC_PARANOID : Z := 2.

(** ** Canon's file device *)

(** The original handlers; reading takes the buffer as it was and gives it as
    it is, and the number of bytes read.  FIO_GetFileSize gives None where it
    fails and leaves the size as it was. *)
Class Iodev (W : Type) := {
  dev_OpenFile : W -> list Z -> Z -> Z * W;
  dev_ReadFile : W -> Z -> list Z -> list Z * Z * W;
  dev_WriteFile : W -> Z -> list Z -> Z * W;
  dev_CloseFile : W -> Z -> Z * W;
  dev_GetFileSize : W -> list Z -> option Z;
  iodev_GetPosition : W -> Z -> Z;
  iodev_SetPosition : W -> Z -> Z -> W;
}.

(** ** Ciphers of a file *)

Inductive fd_cipher :=
  | Lfsr (c : lfsr64_ctx)
  | Xtea (c : xtea_ctx).

Global Instance fd_cipher_t : crypt_cipher_t fd_cipher := {|
  encrypt c dst src offset :=
    match c with
    | Lfsr c => let '(out, c) := encrypt c dst src offset in (out, Lfsr c)
    | Xtea c => let '(out, c) := encrypt c dst src offset in (out, Xtea c)
    end;
  decrypt c dst src offset :=
    match c with
    | Lfsr c => let '(out, c) := decrypt c dst src offset in (out, Lfsr c)
    | Xtea c => let '(out, c) := decrypt c dst src offset in (out, Xtea c)
    end |}.

Definition cipher_set_blocksize (c : fd_cipher) (size : Z) : fd_cipher :=
  match c with
  | Lfsr c => Lfsr (crypt_lfsr64_set_blocksize c size)
  | Xtea c => Xtea c
  end.

(** The password words that are yet to be filled in. *)
Definition zero_password : list Z := [0; 0; 0; 0].

(** ** State *)

(** [crypt_ctx] is None where priv is NULL. *)
Record fd_map_t := mk_fd_map_t {
  crypt_ctx : option fd_cipher; file_key : Z; header_size : Z; file_size : Z; fd_filename : list Z }.

Record iocrypt (W : Type) := mk_iocrypt {
  iocrypt_files : list fd_map_t;
  iocrypt_key : Z;
  iocrypt_enabled : bool;
  iocrypt_mode : Z;
  iocrypt_block_size : Z;
  iocrypt_rsa_ctx : option rsa_ctx_t;
  rng : rand_state;
  dev : W }.
Arguments mk_iocrypt {W}.
Arguments iocrypt_files {W}. Arguments iocrypt_key {W}. Arguments iocrypt_enabled {W}. Arguments iocrypt_mode {W}.
Arguments iocrypt_block_size {W}. Arguments iocrypt_rsa_ctx {W}. Arguments rng {W}. Arguments dev {W}.

Section Hooks.
Context {W : Type} `{Iodev W}.
Context (timer : nat -> Z).
(** The addresses of the scratch buffer and of local buffers, and the bytes
    that uninitialised memory holds. *)
Context (iocrypt_scratch stack : Z) (stack_buf junk : list Z) (garbage : lfsr64_ctx).

Definition set_dev (s : iocrypt W) (w : W) : iocrypt W :=
  mk_iocrypt (iocrypt_files s) (iocrypt_key s) (iocrypt_enabled s) (iocrypt_mode s) (iocrypt_block_size s) (iocrypt_rsa_ctx s) (rng s) w.
Definition set_rng (s : iocrypt W) (st : rand_state) : iocrypt W :=
  mk_iocrypt (iocrypt_files s) (iocrypt_key s) (iocrypt_enabled s) (iocrypt_mode s) (iocrypt_block_size s) (iocrypt_rsa_ctx s) st (dev s).

Definition get_fd (s : iocrypt W) (fd : Z) : option fd_map_t := iocrypt_files s !! Z.to_nat fd.
Definition set_fd (s : iocrypt W) (fd : Z) (f : fd_map_t) : iocrypt W :=
  mk_iocrypt (<[Z.to_nat fd := f]> (iocrypt_files s)) (iocrypt_key s) (iocrypt_enabled s) (iocrypt_mode s)
    (iocrypt_block_size s) (iocrypt_rsa_ctx s) (rng s) (dev s).

Definition set_crypt_ctx (f : fd_map_t) (c : option fd_cipher) : fd_map_t :=
  mk_fd_map_t c (file_key f) (header_size f) (file_size f) (fd_filename f).
Definition set_header_size (f : fd_map_t) (size : Z) : fd_map_t :=
  mk_fd_map_t (crypt_ctx f) (file_key f) size (file_size f) (fd_filename f).

(** The password dialog is done: [text] is None where it was cancelled. *)
Definition iocrypt_ime_done (s : iocrypt W) (text : option (list Z)) : iocrypt W :=
  mk_iocrypt (iocrypt_files s) (match text with Some t => hash_password t | None => 0 end) (iocrypt_enabled s) (iocrypt_mode s)
    (iocrypt_block_size s) (iocrypt_rsa_ctx s) (rng s) (dev s).

Definition hook_iodev_CloseFile (s : iocrypt W) (fd : Z) : Z * iocrypt W :=
  let s := match get_fd s fd with Some f => set_fd s fd (set_crypt_ctx f None) | None => s end in
  let '(ret, w) := dev_CloseFile (dev s) fd in
  (ret, set_dev s w).

(** ** Setting up encryption *)

(** rand_fill of a byte buffer: whole words, then what malloc left. *)
Definition rand_bytes (n : Z) (st : rand_state) : list Z * rand_state :=
  let '(ws, st) := rand_fill timer (Z.to_nat (n / 4)) st in
  (take (Z.to_nat n) (flat_map (le_bytes 4) ws ++ junk), st).

(** Successive writes to a descriptor. *)
Definition write_all (w : W) (fd : Z) (parts : list (list Z)) : W :=
  fold_left (fun w part => (dev_WriteFile w fd part).2) parts w.

Definition align_header (size : Z) : Z := Z.land (u32 (size + 0x1FF)) (u32 (Z.lnot 0x1FF)).

(** The part both set-ups end with: the position is 0, and the cipher is XTEA. *)
Definition start_xtea (s : iocrypt W) (fd : Z) (f : fd_map_t) (w : W) (key header : Z) : iocrypt W :=
  set_fd (set_dev s (iodev_SetPosition w fd 0)) fd
    (mk_fd_map_t (Some (cipher_set_blocksize (Xtea (crypt_xtea_init zero_password key)) (u32 (Z.shiftl 16 (iocrypt_block_size s)))))
       key header (file_size f) (fd_filename f)).

Definition iocrypt_sym_init (s : iocrypt W) (fd : Z) : Z * iocrypt W :=
  match get_fd s fd with
  | None => (0, s)
  | Some f =>
    let lfsr_blocksize := u32 (Z.shiftl 16 (iocrypt_block_size s)) in
    let '(filler, st) := rand_bytes (0x200 - 8) (rng s) in
    let w := write_all (dev s) fd [xtea_magic; le_bytes 4 lfsr_blocksize; filler] in
    (1, start_xtea (set_rng s st) fd f w (iocrypt_key s) 0x200)
  end.

Definition iocrypt_asym_init (s : iocrypt W) (fd : Z) : option (Z * iocrypt W) :=
  match get_fd s fd with
  | None => Some (0, s)
  | Some f =>
    let lfsr_blocksize := u32 (Z.shiftl 16 (iocrypt_block_size s)) in
    let blocksize := crypt_rsa_blocksize (iocrypt_rsa_ctx s) in
    if blocksize =? 0 then Some (0, s)
    else
      let '(ws, st) := rand_fill timer (Z.to_nat (blocksize / 4)) (rng s) in
      let key := take (Z.to_nat (blocksize + 32)) (flat_map (le_bytes 4) ws ++ junk) in
      let file_key := le_word (take 8 key) in
      '(out, encrypted_size) ← crypt_rsa_encrypt (iocrypt_rsa_ctx s) (take (Z.to_nat blocksize) key);
      let key := write_start out key in
      let used_header := u32 (12 + encrypted_size) in
      let aligned_header := align_header used_header in
      let '(filler, st) := rand_bytes (u32 (aligned_header - used_header)) st in
      let w := write_all (dev s) fd
                 [rsaxtea_magic; le_bytes 4 encrypted_size; le_bytes 4 lfsr_blocksize; take (Z.to_nat encrypted_size) key; filler] in
      Some (1, start_xtea (set_rng s st) fd f w file_key aligned_header)
  end.

(** ** Opening *)

(** A read at a position. *)
Definition read_at (w : W) (fd pos : Z) (buf : list Z) : list Z * W :=
  let '(buf, _, w) := dev_ReadFile (iodev_SetPosition w fd pos) fd buf in (buf, w).

(** An encrypted file: is it an image under the key?  [mk] makes the cipher. *)
Definition try_decrypt (s : iocrypt W) (fd : Z) (f : fd_map_t) (mk : Z -> fd_cipher) (buf : list Z) : iocrypt W :=
  let '(bs, w) := read_at (dev s) fd 4 [0; 0; 0; 0] in
  let c := cipher_set_blocksize (mk (iocrypt_key s)) (le_word bs) in
  let '(buf, w) := read_at w fd 0x200 buf in
  let w := iodev_SetPosition w fd 0 in
  let '(buf, c) := decrypt c stack buf 0 in
  let s := set_dev s w in
  if is_image buf then set_fd s fd (set_header_size (set_crypt_ctx f (Some c)) 0x200)
  else set_fd s fd (set_crypt_ctx f None).

(** The last three characters: None where the name has fewer. *)
Definition extension (filename : list Z) : option (list Z) :=
  if (length filename <? 3)%nat then None else Some (drop (length filename - 3) filename).

Definition open_read (s : iocrypt W) (fd : Z) (f : fd_map_t) : iocrypt W :=
  let '(buf, _, w) := dev_ReadFile (dev s) fd stack_buf in
  let s := set_dev s (iodev_SetPosition w fd 0) in
  if has_magic jpg_magic buf then s
  else if has_magic cr2_magic buf then s
  else if has_magic lfsr_magic buf then try_decrypt s fd f (fun key => Lfsr (crypt_lfsr64_init garbage key)) buf
  else if has_magic xtea_magic buf then try_decrypt s fd f (fun key => Xtea (crypt_xtea_init zero_password key)) buf
  else s.

Definition open_write (s : iocrypt W) (fd : Z) : option (iocrypt W) :=
  if iocrypt_mode s =? CRYPT_MODE_SYMMETRIC then
    Some (if iocrypt_key s =? 0 then s else (iocrypt_sym_init s fd).2)
  else if (iocrypt_mode s =? CRYPT_MODE_ASYMMETRIC) || (iocrypt_mode s =? CRYPT_MODE_ASYMMETRIC_PARANOID) then
    r ← iocrypt_asym_init s fd; Some r.2
  else Some s.

(** None where the code reads outside of its memory. *)
Definition hook_iodev_OpenFile (s : iocrypt W) (filename : list Z) (flags : Z) : option (Z * iocrypt W) :=
  let '(fd, w) := dev_OpenFile (dev s) filename flags in
  let s := set_dev s w in
  match get_fd s fd with
  | Some f =>
    if negb (iocrypt_enabled s) then Some (fd, s)
    else
      let f := mk_fd_map_t None (file_key f) 0 (default (file_size f) (dev_GetFileSize (dev s) filename)) (take 64 filename) in
      let s := set_fd s fd f in
      ext ← extension filename;
      if negb (bool_decide (ext = codes "CR2") || bool_decide (ext = codes "JPG")) then Some (fd, s)
      else if Z.land flags 3 =? 0 then Some (fd, open_read s fd f)
      else s ← open_write s fd; Some (fd, s)
  | None => Some (fd, s)
  end.

(** ** Jobs of iocrypt_task *)

Definition CRYPT_SCRATCH_SIZE : Z := 0x00800000.

(** CRYPT_JOB_ENCRYPT_WRITE: job->ret, the device and the cipher; None where
    the encrypted data is written past the end of the scratch buffer. *)
Definition job_encrypt_write (c : fd_cipher) (fd : Z) (buf : list Z) (fd_pos : Z) (w : W) : option (Z * W * fd_cipher) :=
  if CRYPT_SCRATCH_SIZE <? Z.of_nat (length buf) then None
  else
    let '(out, c) := encrypt c iocrypt_scratch buf fd_pos in
    let '(ret, w) := dev_WriteFile w fd out in
    Some (ret, w, c).

(** CRYPT_JOB_DECRYPT, in place. *)
Definition job_decrypt (c : fd_cipher) (addr : Z) (buf : list Z) (fd_pos : Z) : list Z * fd_cipher :=
  decrypt c addr buf fd_pos.

(** ** Reading and writing *)

(** The contents of buf afterwards, the result and the state; None where the
    code reads outside of its table.  [addr] is the address of buf. *)
Definition hook_iodev_ReadFile (s : iocrypt W) (fd addr : Z) (buf : list Z) : option (list Z * Z * iocrypt W) :=
  let len := Z.of_nat (length buf) in
  if negb (iocrypt_enabled s) then
    let '(buf, ret, w) := dev_ReadFile (dev s) fd buf in Some (buf, ret, set_dev s w)
  else
    let fd_pos := iodev_GetPosition (dev s) fd in
    f ← get_fd s fd;
    match crypt_ctx f with
    | None => let '(buf, ret, w) := dev_ReadFile (dev s) fd buf in Some (buf, ret, set_dev s w)
    | Some c =>
      let w := iodev_SetPosition (dev s) fd (u32 (fd_pos + header_size f)) in
      let '(buf, ret, w) := dev_ReadFile w fd buf in
      let '(buf, ret, w) :=
        if ret <? len then
          let buf := take (Z.to_nat ret) buf ++ replicate (Z.to_nat (len - ret)) 0 in
          let ret := Z.min len (u32 (file_size f - fd_pos)) in
          (buf, ret, iodev_SetPosition w fd (u32 (fd_pos + ret)))
        else (buf, ret, w) in
      let w := iodev_SetPosition w fd (u32 (iodev_GetPosition w fd - header_size f)) in
      let '(buf, c) := job_decrypt c addr buf fd_pos in
      Some (buf, ret, set_fd (set_dev s w) fd (set_crypt_ctx f (Some c)))
    end.

(** The result and the state; None where the job writes outside of its buffer. *)
Definition hook_iodev_WriteFile (s : iocrypt W) (fd : Z) (buf : list Z) : option (Z * iocrypt W) :=
  let plain := let '(ret, w) := dev_WriteFile (dev s) fd buf in Some (ret, set_dev s w) in
  match get_fd s fd with
  | None => plain
  | Some f =>
    if negb (iocrypt_enabled s) then plain
    else
      match crypt_ctx f with
      | None => plain
      | Some c =>
        let fd_pos := iodev_GetPosition (dev s) fd in
        let w := iodev_SetPosition (dev s) fd (u32 (fd_pos + header_size f)) in
        '(ret, w, c) ← job_encrypt_write c fd buf fd_pos w;
        let w := iodev_SetPosition w fd (u32 (iodev_GetPosition w fd - header_size f)) in
        Some (ret, set_fd (set_dev s w) fd (set_crypt_ctx f (Some c)))
      end
  end.
End Hooks.
