(* ===== verification/IoDecrypt.v ===== *)
(** * IoDecrypt: the decryption program, modules/io_crypt/io_decrypt.c

    main as a function of the password, the key files and the bytes of the
    input file: its exit status and what it wrote to the output file. *)

From stdpp Require Import base list numbers option gmap strings.
From S2P Require Import Prelude Crypt BigDigits Rand Rsa IoCrypt.
Local Open Scope Z_scope.

Definition BLOCKSIZE : nat := 8 * 1024.

(** Crash is fclose on a file that was never opened. *)
Inductive outcome :=
  | Exit (status : Z) (out_file : option (list Z))
  | Crash.

(** What the detection of the file type ends with: an exit status, or a cipher
    and the position of the data. *)
Inductive detected :=
  | Stop (status : Z)
  | Go (c : fd_cipher) (pos : nat).

Section Main.
(** The key files, the memory of the RSA context, the address of the buffer and
    what it holds at first, what an LFSR context holds at first, and whether
    the output file can be created. *)
Context (c : card) (rsa_mem : option rsa_ctx_t) (addr : Z) (malloced : list Z) (garbage : lfsr64_ctx) (can_write : bool).

(** fread of n bytes from pos on: None where the file ends before. *)
Definition fread (file : list Z) (pos n : nat) : option (list Z) :=
  let bytes := take n (drop pos file) in
  if (length bytes =? n)%nat then Some bytes else None.

(** The branches of the two symmetric ciphers; [mk] makes the cipher. *)
Definition detect_sym (file : list Z) (key : Z) (mk : Z -> Z -> fd_cipher) : detected :=
  if key =? 0 then Stop (-2)
  else
    match fread file 4 4 with
    | None => Stop (-1)
    | Some bs => Go (mk key (le_word bs)) 0x200
    end.

(** The branches of the two RSA types: the same code but for the cipher. *)
Definition detect_rsa (file : list Z) (mk : Z -> Z -> fd_cipher) : option detected :=
  rsa ← crypt_rsa_init c rsa_mem;
  if crypt_rsa_get_keysize rsa <? 64 then Some (Stop (-1))
  else
    match fread file 4 4, fread file 8 4 with
    | Some es, Some bs =>
      let encrypted_size := le_word es in
      let lfsr_blocksize := le_word bs in
      if (encrypted_size =? 0) || (32768 * 4 <? encrypted_size) then Some (Stop (-1))
      else if (lfsr_blocksize =? 0) || (0x10000000 <? lfsr_blocksize) then Some (Stop (-1))
      else
        match fread file 12 (Z.to_nat encrypted_size) with
        | None => Some (Stop (-1))
        | Some encrypted =>
          '(out, decrypted_size) ← crypt_rsa_decrypt rsa encrypted;
          if (decrypted_size =? 0) || (encrypted_size <? decrypted_size) then Some (Stop (-1))
          else
            let key := le_word (take 8 (write_start out encrypted)) in
            Some (Go (mk key lfsr_blocksize) (Z.to_nat (align_header (u32 (4 + 4 + encrypted_size)))))
        end
    | _, _ => Some (Stop (-1))
    end.

Definition mk_lfsr (key size : Z) : fd_cipher := cipher_set_blocksize (Lfsr (crypt_lfsr64_init garbage key)) size.
Definition mk_xtea (key size : Z) : fd_cipher := Xtea (crypt_xtea_init zero_password key).

Definition detect (file : list Z) (key : Z) : option detected :=
  match fread file 0 4 with
  | None => Some (Stop (-1))
  | Some buffer =>
    if has_magic jpg_magic buffer then Some (Stop 0)
    else if has_magic cr2_magic buffer then Some (Stop 0)
    else if has_magic lfsr_magic buffer then Some (detect_sym file key mk_lfsr)
    else if has_magic xtea_magic buffer then Some (detect_sym file key mk_xtea)
    else if has_magic rsa_magic buffer then detect_rsa file mk_lfsr
    else if has_magic rsaxtea_magic buffer then detect_rsa file mk_xtea
    else if negb (key =? 0) then Some (Go (Lfsr (crypt_lfsr64_init garbage key)) 4)
    else Some (Stop (-2))
  end.

(** The loop: [out_file] is None as long as the output is not opened, which is
    as long as [first] is set. *)
Fixpoint decrypt_loop (fuel : nat) (ctx : fd_cipher) (rest buffer : list Z) (file_offset : Z) (out_file : option (list Z))
  : option outcome :=
  match fuel with
  | O => None
  | S fuel =>
    let part := take BLOCKSIZE rest in
    let eof := (length part <? BLOCKSIZE)%nat in
    if (0 <? length part)%nat then
      let '(part', ctx) := decrypt ctx addr part file_offset in
      let buffer := write_start part' buffer in
      let first := bool_decide (out_file = None) in
      if first && negb (is_image buffer) then Some (Exit 0 None)
      else if first && negb can_write then Some (Exit (-1) None)
      else
        let out_file := Some (default [] out_file ++ part') in
        if eof then Some (Exit 0 out_file)
        else decrypt_loop fuel ctx (drop BLOCKSIZE rest) buffer (u32 (file_offset + Z.of_nat (length part))) out_file
    else Some (if bool_decide (out_file = None) then Crash else Exit 0 out_file)
  end.

(** [in_file] is None where it cannot be opened; without a password the key is
    0. *)
Definition main (in_file : option (list Z)) (password : option (list Z)) : option outcome :=
  let key := match password with Some p => hash_password p | None => 0 end in
  match in_file with
  | None => Some (Exit (-1) None)
  | Some file =>
    d ← detect file key;
    match d with
    | Stop status => Some (Exit status None)
    | Go ctx pos =>
      let rest := drop pos file in
      decrypt_loop (S (length rest / BLOCKSIZE)) ctx rest (write_start (take 4 file) malloced) 0 None
    end
  end.
End Main.
