(* ===== verification/IoCryptProps.v ===== *)
(** * IoCryptProps: encrypted files behave like plain ones

    The laws of Canon's file device, and what the hooks of [IoCrypt] do on top
    of it: a client that reads and writes encrypted files through the hooks
    sees plain files as long as it stays within them, and [client_exec] where
    a read ends past the end; what is on the card is a header and the data xored
    with the key stream of the file. *)

From stdpp Require Import base list numbers option gmap strings.
From S2P Require Import Prelude Crypt CryptProps BigDigits Rand Rsa IoCrypt.
Local Open Scope Z_scope.

(** ** The cipher of a file *)

#[export] Instance fd_cipher_ok : CipherOk fd_cipher.
Proof.
  refine {| usable := fun c => match c with Lfsr c => usable c | Xtea c => usable c end;
            stream := fun c => match c with Lfsr c => stream c | Xtea c => stream c end |}.
  - intros [c|c] o; apply stream_byte.
  - intros [c|c] dst src o U B L R; cbn [encrypt fd_cipher_t].
    + destruct (encrypt_stream c dst src o U B L R) as (c' & -> & U' & E). by exists (Lfsr c').
    + destruct (encrypt_stream c dst src o U B L R) as (c' & -> & U' & E). by exists (Xtea c').
  - intros [c|c] dst src o U B L R; cbn [decrypt fd_cipher_t].
    + destruct (decrypt_stream c dst src o U B L R) as (c' & -> & U' & E). by exists (Lfsr c').
    + destruct (decrypt_stream c dst src o U B L R) as (c' & -> & U' & E). by exists (Xtea c').
Defined.

(** ** Writing into a file *)

Definition overwrite (p : nat) (buf data : list Z) : list Z := take p data ++ buf ++ drop (p + length buf) data.

Lemma take_xor ks n : forall l o, take n (xor_stream ks o l) = xor_stream ks o (take n l).
Proof. induction n as [|n IH]; intros [|b l] o; cbn [take xor_stream]; [done..|]. by rewrite IH. Qed.

Lemma drop_xor ks n : forall l o, drop n (xor_stream ks o l) = xor_stream ks (o + Z.of_nat n) (drop n l).
Proof.
  induction n as [|n IH]; intros [|b l] o; cbn [drop xor_stream]; try done; [by rewrite Z.add_0_r|].
  rewrite IH. f_equal. lia.
Qed.

Lemma overwrite_xor ks p buf data : (p <= length data)%nat ->
  overwrite p (xor_stream ks (Z.of_nat p) buf) (xor_stream ks 0 data) = xor_stream ks 0 (overwrite p buf data).
Proof.
  intros L. unfold overwrite. rewrite !xor_stream_app, take_xor, drop_xor, xor_stream_len, length_take.
  rewrite Nat.min_l, !Z.add_0_l by done. by rewrite Nat2Z.inj_add.
Qed.

Lemma overwrite_header h p buf data : overwrite (length h + p) buf (h ++ data) = h ++ overwrite p buf data.
Proof.
  unfold overwrite. rewrite take_app_add', <- app_assoc by done. do 3 f_equal. rewrite <- Nat.add_assoc. by apply drop_app_add'.
Qed.

Lemma overwrite_len p buf data : (p <= length data)%nat -> length (overwrite p buf data) = Nat.max (length data) (p + length buf).
Proof. intros L. unfold overwrite. rewrite !length_app, length_take, length_drop. lia. Qed.

Lemma overwrite_bytes p buf data : Forall is_byte buf -> Forall is_byte data -> Forall is_byte (overwrite p buf data).
Proof. intros B D. unfold overwrite. auto using Forall_app_2, Forall_take, Forall_drop. Qed.

(** ** What the device promises *)

(** What can be seen of a device: the file of a descriptor, the bytes of a
    file, and the room left on the card. *)
Class IodevView (W : Type) := {
  name_of : W -> Z -> option (list Z);
  stored : W -> list Z -> option (list Z);
  space : W -> Z;
}.

Definition opened {W} `{Iodev W, IodevView W} (w : W) (fd : Z) (name data : list Z) (pos : Z) : Prop :=
  name_of w fd = Some name /\ stored w name = Some data /\ iodev_GetPosition w fd = pos.

(** Nothing but the file and the position of the descriptor differs. *)
Definition frame {W} `{Iodev W, IodevView W} (w w' : W) (fd : Z) (name : list Z) : Prop :=
  (forall fd', name_of w' fd' = name_of w fd') /\ (forall n, n <> name -> stored w' n = stored w n) /\
  (forall fd', fd' <> fd -> iodev_GetPosition w' fd' = iodev_GetPosition w fd').

Class IodevOk (W : Type) `{Iodev W, IodevView W} := {
  set_position_ok w fd name data pos pos' : opened w fd name data pos -> 0 <= pos' < 2 ^ 32 ->
    let w' := iodev_SetPosition w fd pos' in
    opened w' fd name data pos' /\ frame w w' fd name /\ space w' = space w;
  read_ok w fd name data (pos : nat) buf : opened w fd name data (Z.of_nat pos) -> Z.of_nat (pos + length buf) < 2 ^ 32 ->
    let n := Nat.min (length buf) (length data - pos) in
    exists w', dev_ReadFile w fd buf = (take n (drop pos data) ++ drop n buf, Z.of_nat n, w') /\
      opened w' fd name data (Z.of_nat (pos + n)) /\ frame w w' fd name /\ space w' = space w;
  write_ok w fd name data (pos : nat) buf : opened w fd name data (Z.of_nat pos) -> (pos <= length data)%nat ->
    Z.of_nat (pos + length buf) < 2 ^ 32 -> Z.of_nat (length buf) <= space w ->
    exists w', dev_WriteFile w fd buf = (Z.of_nat (length buf), w') /\
      opened w' fd name (overwrite pos buf data) (Z.of_nat (pos + length buf)) /\ frame w w' fd name /\
      space w - Z.of_nat (length buf) <= space w';
}.

Lemma frame_trans {W} `{Iodev W, IodevView W} (w1 w2 w3 : W) fd name :
  frame w1 w2 fd name -> frame w2 w3 fd name -> frame w1 w3 fd name.
Proof.
  intros (A & B & C) (A' & B' & C'). split; [|split].
  - intros fd'. by rewrite A', A.
  - intros n N. by rewrite B', B.
  - intros fd' N. by rewrite C', C.
Qed.

(** A descriptor of another file is not touched. *)
Lemma frame_opened {W} `{Iodev W, IodevView W} (w w' : W) fd name fd' name' data pos :
  frame w w' fd name -> fd' <> fd -> name' <> name -> opened w fd' name' data pos -> opened w' fd' name' data pos.
Proof. intros (A & B & C) N N' (E1 & E2 & E3). split; [|split]; [by rewrite A|by rewrite B|by rewrite C]. Qed.

(** ** Descriptors of encrypted files *)

(** A plain file as the client sees it. *)
Record pfile := mk_pfile { bytes : list Z; cursor : nat }.

(** An encrypted file: its name, the header, the key stream, and the size that
    the descriptor keeps from the time it was opened. *)
Record efile := mk_efile { ename : list Z; header : list Z; keystream : Z -> Z; opened_size : Z }.

Section Hooks.
Context {W : Type} `{Hdev : IodevOk W}.
Context (iocrypt_scratch : Z).

Record tracked (s : iocrypt W) (fd : Z) (e : efile) (f : pfile) : Prop := {
  tracked_fd : 0 <= fd;
  tracked_map : exists m c, get_fd s fd = Some m /\ crypt_ctx m = Some c /\ usable c /\ stream c = keystream e /\
                  header_size m = Z.of_nat (length (header e)) /\ file_size m = opened_size e;
  tracked_file : opened (dev s) fd (ename e) (header e ++ xor_stream (keystream e) 0 (bytes f)) (Z.of_nat (cursor f));
  tracked_bytes : Forall is_byte (bytes f);
  tracked_header : Z.of_nat (length (header e)) < 2 ^ 31;
  tracked_cursor : Z.of_nat (cursor f) < 2 ^ 31;
}.

(** What a call on one descriptor leaves alone. *)
Definition step_frame (s s' : iocrypt W) (fd : Z) (name : list Z) : Prop :=
  iocrypt_enabled s' = iocrypt_enabled s /\ frame (dev s) (dev s') fd name /\
  (forall fd', 0 <= fd' -> fd' <> fd -> get_fd s' fd' = get_fd s fd').

Lemma get_set_fd (s : iocrypt W) fd m f : get_fd s fd = Some m -> get_fd (set_fd s fd f) fd = Some f.
Proof using. intros E. apply list_lookup_insert_eq. by eapply lookup_lt_Some. Qed.

Lemma get_set_fd_ne (s : iocrypt W) fd fd' f : 0 <= fd -> 0 <= fd' -> fd' <> fd -> get_fd (set_fd s fd f) fd' = get_fd s fd'.
Proof using. intros P P' N. apply list_lookup_insert_ne. lia. Qed.

Lemma tracked_frame s s' fd name fd' e f : step_frame s s' fd name -> fd' <> fd -> ename e <> name ->
  tracked s fd' e f -> tracked s' fd' e f.
Proof using.
  intros (_ & F & G) N N' [P M O B L C]. split; [done| |by eapply frame_opened|done..].
  by rewrite G.
Qed.

Lemma write_step s fd e f buf : iocrypt_enabled s = true -> tracked s fd e f -> Forall is_byte buf ->
  Z.of_nat (length buf) <= CRYPT_SCRATCH_SIZE ->
  (cursor f <= length (bytes f))%nat -> Z.of_nat (cursor f + length buf) < 2 ^ 31 -> Z.of_nat (length buf) <= space (dev s) ->
  exists s', hook_iodev_WriteFile iocrypt_scratch s fd buf = Some (Z.of_nat (length buf), s') /\
    tracked s' fd e (mk_pfile (overwrite (cursor f) buf (bytes f)) (cursor f + length buf)) /\
    step_frame s s' fd (ename e) /\ space (dev s) - Z.of_nat (length buf) <= space (dev s').
Proof using All.
  intros En [P (m & c & Em & Ec & U & Ek & Eh & Es) O B L C] Bb Ls Lc Lb Sp.
  unfold hook_iodev_WriteFile, job_encrypt_write. rewrite Em, En, Ec. cbn [negb].
  rewrite (proj2 (Z.ltb_ge _ _) Ls).
  destruct O as (On & Os & Op). rewrite Op, Eh, u32_small by lia.
  destruct (set_position_ok (dev s) fd _ _ _ (Z.of_nat (cursor f) + Z.of_nat (length (header e))) (conj On (conj Os Op)) ltac:(lia))
    as (O1 & F1 & S1). set (w1 := iodev_SetPosition _ _ _) in *. clearbody w1.
  destruct (encrypt_stream c iocrypt_scratch buf (Z.of_nat (cursor f)) U Bb ltac:(lia) ltac:(lia)) as (c' & -> & U' & Ek').
  rewrite <- Nat2Z.inj_add, Nat.add_comm in O1.
  destruct (write_ok w1 fd _ _ _ (xor_stream (stream c) (Z.of_nat (cursor f)) buf) O1) as (w2 & E2 & O2 & F2 & S2);
    rewrite ?length_app, ?xor_stream_len; try lia.
  rewrite E2, xor_stream_len, overwrite_header, Ek, overwrite_xor in * by done. cbn [mbind option_bind].
  rewrite (proj2 (proj2 O2)), u32_small by lia.
  destruct (set_position_ok w2 fd _ _ _ (Z.of_nat (cursor f + length buf)) O2 ltac:(lia)) as (O3 & F3 & S3).
  replace (Z.of_nat (length (header e) + cursor f + length buf) - Z.of_nat (length (header e)))
    with (Z.of_nat (cursor f + length buf)) by lia.
  eexists. split; [done|]. split; [split|split; [split; [|split]|]]; cbn [bytes cursor dev set_fd set_dev]; try done.
  - eexists _, c'. split; [by eapply get_set_fd|]. split; [done|]. split; [done|]. by rewrite Ek'.
  - by apply overwrite_bytes.
  - eapply frame_trans; [exact F1|]. by eapply frame_trans.
  - intros fd' P' N. by rewrite get_set_fd_ne.
  - rewrite S3. rewrite S1 in S2. lia.
Qed.
(** The read below the header: what the device gives before decryption. *)
Lemma read_below (s : iocrypt W) fd e f (buf : list Z) : tracked s fd e f -> Z.of_nat (cursor f + length buf) < 2 ^ 31 ->
  let n := Nat.min (length buf) (length (bytes f) - cursor f) in
  exists w, dev_ReadFile (iodev_SetPosition (dev s) fd (u32 (Z.of_nat (cursor f) + Z.of_nat (length (header e))))) fd buf =
      (xor_stream (keystream e) (Z.of_nat (cursor f)) (take n (drop (cursor f) (bytes f))) ++ drop n buf, Z.of_nat n, w) /\
    opened w fd (ename e) (header e ++ xor_stream (keystream e) 0 (bytes f)) (Z.of_nat (length (header e) + (cursor f + n))) /\
    frame (dev s) w fd (ename e) /\ space w = space (dev s).
Proof using Hdev.
  intros [P _ O B L C] Lb n. rewrite u32_small by lia.
  destruct (set_position_ok (dev s) fd _ _ _ (Z.of_nat (length (header e) + cursor f)) O ltac:(lia)) as (O1 & F1 & S1).
  rewrite Z.add_comm, <- Nat2Z.inj_add.
  destruct (read_ok _ fd _ _ _ buf O1 ltac:(lia)) as (w & E & O2 & F2 & S2). rewrite length_app, xor_stream_len in *.
  replace (length (header e) + length (bytes f) - (length (header e) + cursor f))%nat with (length (bytes f) - cursor f)%nat in * by lia.
  fold n in E, O2. rewrite drop_app_add', drop_xor, take_xor, Z.add_0_l in E by done. exists w. split; [done|].
  split; [by rewrite Nat.add_assoc|]. split; [by eapply frame_trans|]. by rewrite S2, S1.
Qed.

(** The end of a read: the position is set and the data decrypted. *)
Lemma read_finish (s : iocrypt W) fd e f m c w pos c' : tracked s fd e f -> get_fd s fd = Some m -> crypt_ctx m = Some c ->
  stream c = keystream e -> header_size m = Z.of_nat (length (header e)) -> file_size m = opened_size e ->
  usable c' -> stream c' = stream c ->
  opened w fd (ename e) (header e ++ xor_stream (keystream e) 0 (bytes f)) pos -> frame (dev s) w fd (ename e) ->
  space w = space (dev s) -> forall cur : nat, Z.of_nat cur < 2 ^ 31 ->
  let s' := set_fd (set_dev s (iodev_SetPosition w fd (Z.of_nat cur))) fd (set_crypt_ctx m (Some c')) in
  tracked s' fd e (mk_pfile (bytes f) cur) /\ step_frame s s' fd (ename e) /\ space (dev s') = space (dev s).
Proof using Hdev.
  intros [P _ O B L C] Em Ec Ek Eh Ez U Ek' Ow F Sw cur Lc s'.
  destruct (set_position_ok w fd _ _ _ (Z.of_nat cur) Ow ltac:(lia)) as (O3 & F3 & S3).
  split; [split|split; [split; [|split]|]]; cbn [bytes cursor dev set_fd set_dev s']; try done.
  - eexists _, c'. split; [by eapply get_set_fd|]. split; [done|]. split; [done|]. by rewrite Ek'.
  - by eapply frame_trans.
  - intros fd' P' N. unfold s'. by rewrite get_set_fd_ne.
  - by rewrite S3.
Qed.

Lemma read_step s fd e f addr buf : iocrypt_enabled s = true -> tracked s fd e f ->
  (cursor f + length buf <= length (bytes f))%nat -> Z.of_nat (cursor f + length buf) < 2 ^ 31 ->
  exists s', hook_iodev_ReadFile s fd addr buf =
      Some (take (length buf) (drop (cursor f) (bytes f)), Z.of_nat (length buf), s') /\
    tracked s' fd e (mk_pfile (bytes f) (cursor f + length buf)) /\ step_frame s s' fd (ename e) /\ space (dev s') = space (dev s).
Proof using Hdev.
  intros En T Lc Lb. destruct (read_below s fd e f buf T Lb) as (w & E & O & F & Sp).
  rewrite Nat.min_l, drop_all, app_nil_r in * by lia.
  pose proof T as [P (m & c & Em & Ec & U & Ek & Eh & Ez) (On & Os & Op) B L C].
  unfold hook_iodev_ReadFile. rewrite En, Em. cbn [negb mbind option_bind]. rewrite Ec, Op, Eh, E, Z.ltb_irrefl.
  rewrite (proj2 (proj2 O)), u32_small by lia.
  replace (Z.of_nat (length (header e) + (cursor f + length buf)) - Z.of_nat (length (header e)))
    with (Z.of_nat (cursor f + length buf)) by lia.
  unfold job_decrypt. set (d := take (length buf) (drop (cursor f) (bytes f))).
  assert (length d = length buf) as Ld by (unfold d; rewrite length_take, length_drop; lia).
  assert (Forall is_byte d) as Bd by (unfold d; by apply Forall_take, Forall_drop).
  rewrite <- Ek.
  destruct (decrypt_stream c addr (xor_stream (stream c) (Z.of_nat (cursor f)) d) (Z.of_nat (cursor f)) U) as (c' & -> & U' & Ek');
    [apply xor_stream_bytes; [apply stream_byte|done]|lia|rewrite xor_stream_len; lia|].
  rewrite xor_stream_twice. eexists. split; [done|].
  by apply (read_finish s fd e f m c w _ c' T Em Ec Ek Eh Ez U' Ek' O F Sp).
Qed.

(** A read past the end: the key stream follows the data, and the result and
    the new position come from the size the file had when it was opened. *)
Definition short_count (e : efile) (f : pfile) (len : nat) : Z := Z.min (Z.of_nat len) (u32 (opened_size e - Z.of_nat (cursor f))).
Definition short_position (e : efile) (f : pfile) (len : nat) : Z :=
  u32 (u32 (Z.of_nat (cursor f) + short_count e f len) - Z.of_nat (length (header e))).
Definition short_data (e : efile) (f : pfile) (len : nat) : list Z :=
  let n := (length (bytes f) - cursor f)%nat in
  drop (cursor f) (bytes f) ++ xor_stream (keystream e) (Z.of_nat (cursor f + n)) (replicate (len - n) 0).

Lemma read_short s fd e f addr buf : iocrypt_enabled s = true -> tracked s fd e f ->
  (length (bytes f) - cursor f < length buf)%nat -> Z.of_nat (cursor f + length buf) < 2 ^ 31 ->
  exists s', hook_iodev_ReadFile s fd addr buf = Some (short_data e f (length buf), short_count e f (length buf), s') /\
    iodev_GetPosition (dev s') fd = short_position e f (length buf) /\
    (short_position e f (length buf) < 2 ^ 31 ->
       tracked s' fd e (mk_pfile (bytes f) (Z.to_nat (short_position e f (length buf)))) /\
       step_frame s s' fd (ename e) /\ space (dev s') = space (dev s)).
Proof using Hdev.
  intros En T Ln Lb. destruct (read_below s fd e f buf T Lb) as (w & E & O & F & Sp).
  rewrite Nat.min_r in * by lia. set (n := (length (bytes f) - cursor f)%nat) in *.
  pose proof T as [P (m & c & Em & Ec & U & Ek & Eh & Ez) (On & Os & Op) B L C].
  unfold hook_iodev_ReadFile. rewrite En, Em. cbn [negb mbind option_bind]. rewrite Ec, Op, Eh, E.
  destruct (Z.ltb_spec (Z.of_nat n) (Z.of_nat (length buf))); [|lia]. rewrite Ez.
  change (Z.min (Z.of_nat (length buf)) (u32 (opened_size e - Z.of_nat (cursor f)))) with (short_count e f (length buf)).
  pose proof (u32_range (Z.of_nat (cursor f) + short_count e f (length buf))) as R1.
  destruct (set_position_ok w fd _ _ _ _ O R1) as (O2 & F2 & S2).
  rewrite (proj2 (proj2 O2)). change (u32 (u32 _ - _)) with (short_position e f (length buf)).
  pose proof (u32_range _ : 0 <= short_position e f (length buf) < 2 ^ 32) as R2.
  destruct (set_position_ok _ fd _ _ _ _ O2 R2) as (O3 & _).
  assert (take n (drop (cursor f) (bytes f)) = drop (cursor f) (bytes f)) as -> by (apply take_ge; rewrite length_drop; lia).
  set (d := drop (cursor f) (bytes f)). assert (length d = n) as Ld by (unfold d; rewrite length_drop; lia).
  assert (Forall is_byte d) as Bd by (unfold d; by apply Forall_drop).
  rewrite Nat2Z.id, take_app_length' by (by rewrite xor_stream_len).
  replace (Z.to_nat (Z.of_nat (length buf) - Z.of_nat n)) with (length buf - n)%nat by lia.
  unfold job_decrypt. rewrite <- Ek.
  destruct (decrypt_stream c addr (xor_stream (stream c) (Z.of_nat (cursor f)) d ++ replicate (length buf - n) 0) (Z.of_nat (cursor f)) U)
    as (c' & -> & U' & Ek').
  { apply Forall_app_2; [apply xor_stream_bytes; [apply stream_byte|done]|]. by apply Forall_replicate. }
  { lia. }
  { rewrite length_app, xor_stream_len, length_replicate. lia. }
  rewrite xor_stream_app, xor_stream_twice, xor_stream_len, Ld, <- Nat2Z.inj_add, Ek. eexists. split; [done|].
  split; [apply O3|]. intros Ls.
  pose proof (read_finish s fd e f m c _ _ c' T Em Ec Ek Eh Ez U' Ek' O2 ltac:(by eapply frame_trans) ltac:(by rewrite S2)
                (Z.to_nat (short_position e f (length buf))) ltac:(lia)) as R.
  by rewrite Z2Nat.id in R by lia.
Qed.

(** The same with a size that is the one the file has now. *)
Lemma read_past s fd e f m addr buf : iocrypt_enabled s = true -> tracked s fd e f -> get_fd s fd = Some m ->
  (length (bytes f) - cursor f < length buf)%nat -> Z.of_nat (cursor f + length buf) < 2 ^ 31 ->
  file_size m = Z.of_nat (length (header e) + length (bytes f)) -> file_size m < 2 ^ 32 -> (cursor f <= length (bytes f))%nat ->
  let n := (length (bytes f) - cursor f)%nat in
  let ret := Z.min (Z.of_nat (length buf)) (Z.of_nat (length (header e) + n)) in
  exists s', hook_iodev_ReadFile s fd addr buf =
      Some (drop (cursor f) (bytes f) ++ xor_stream (keystream e) (Z.of_nat (length (bytes f))) (replicate (length buf - n) 0), ret, s') /\
    iodev_GetPosition (dev s') fd = u32 (Z.of_nat (cursor f) + ret - Z.of_nat (length (header e))).
Proof using Hdev.
  intros En T Em Ln Lb Es Ls Lc n ret. destruct (read_short s fd e f addr buf En T Ln Lb) as (s' & E & Ep & _).
  destruct T as [_ (m' & c & Em' & _ & _ & _ & _ & Ez) _ _ _ _]. rewrite Em in Em'. injection Em' as <-.
  assert (short_count e f (length buf) = ret) as Ec.
  { unfold short_count, ret. rewrite <- Ez, u32_small by lia. f_equal. lia. }
  exists s'. rewrite E, Ep, Ec. unfold short_data, short_position. fold n. rewrite Ec, (u32_small (_ + ret)) by lia.
  replace (cursor f + n)%nat with (length (bytes f)) by lia. done.
Qed.

(** ** Programs on several files *)

(** The operations of a client; FIO_SeekFile is not hooked and sets the
    position. *)
Inductive op :=
  | Write (fd : Z) (buf : list Z)
  | Read (fd addr : Z) (buf : list Z)
  | Seek (fd : Z) (pos : nat).

Definition exec (s : iocrypt W) (o : op) : option (list Z * Z * iocrypt W) :=
  match o with
  | Write fd buf => '(ret, s) ← hook_iodev_WriteFile iocrypt_scratch s fd buf; Some ([], ret, s)
  | Read fd addr buf => hook_iodev_ReadFile s fd addr buf
  | Seek fd pos => Some ([], 0, set_dev s (iodev_SetPosition (dev s) fd (Z.of_nat pos)))
  end.

(** Plain files: a write starts at most at the end, a read stays within the
    file, and positions are below 2 GiB. *)
Definition plain_exec (m : gmap Z pfile) (o : op) : option (list Z * Z * gmap Z pfile) :=
  match o with
  | Write fd buf =>
    f ← m !! fd;
    if (cursor f <=? length (bytes f))%nat && (Z.of_nat (cursor f + length buf) <? 2 ^ 31) then
      Some ([], Z.of_nat (length buf), <[fd := mk_pfile (overwrite (cursor f) buf (bytes f)) (cursor f + length buf)]> m)
    else None
  | Read fd addr buf =>
    f ← m !! fd;
    if (cursor f + length buf <=? length (bytes f))%nat && (Z.of_nat (cursor f + length buf) <? 2 ^ 31) then
      Some (take (length buf) (drop (cursor f) (bytes f)), Z.of_nat (length buf), <[fd := mk_pfile (bytes f) (cursor f + length buf)]> m)
    else None
  | Seek fd pos =>
    f ← m !! fd; if Z.of_nat pos <? 2 ^ 31 then Some ([], 0, <[fd := mk_pfile (bytes f) pos]> m) else None
  end.

(** Files as a client of the hooks sees them: a read that ends past the end is
    as well defined.  The data of the file is followed by its key stream; the
    count and the next position are computed from the size that the file had
    when it was opened, header and all.  Positions stay below 2 GiB. *)
Definition client_exec (K : Z -> efile) (m : gmap Z pfile) (o : op) : option (list Z * Z * gmap Z pfile) :=
  match o with
  | Read fd addr buf =>
    f ← m !! fd;
    if (cursor f + length buf <=? length (bytes f))%nat then plain_exec m o
    else if (length (bytes f) - cursor f <? length buf)%nat && (Z.of_nat (cursor f + length buf) <? 2 ^ 31)
            && (short_position (K fd) f (length buf) <? 2 ^ 31) then
      Some (short_data (K fd) f (length buf), short_count (K fd) f (length buf),
            <[fd := mk_pfile (bytes f) (Z.to_nat (short_position (K fd) f (length buf)))]> m)
    else None
  | _ => plain_exec m o
  end.

Lemma plain_client K m o r : plain_exec m o = Some r -> client_exec K m o = Some r.
Proof using.
  destruct o as [fd buf|fd addr buf|fd pos]; cbn [client_exec]; [done| |done]. intros E. pose proof E as E'. cbn [plain_exec] in E'.
  destruct (m !! fd) as [f|]; [|done]. cbn [mbind option_bind] in *. by destruct (_ <=? _)%nat.
Qed.

Fixpoint run {S} (step : S -> op -> option (list Z * Z * S)) (s : S) (ops : list op) : option (list (list Z * Z) * S) :=
  match ops with
  | [] => Some ([], s)
  | o :: ops => '(buf, ret, s) ← step s o; '(outs, s) ← run step s ops; Some ((buf, ret) :: outs, s)
  end.

(** Data is bytes, at most as many in one call as the scratch buffer holds. *)
Definition op_bytes (o : op) : Prop :=
  match o with Write _ buf => Forall is_byte buf /\ Z.of_nat (length buf) <= CRYPT_SCRATCH_SIZE | _ => True end.
Definition cost (ops : list op) : Z :=
  Z.of_nat (sum_list_with (fun o => match o with Write _ buf => length buf | _ => O end) ops).

Record files_ok (s : iocrypt W) (K : Z -> efile) (m : gmap Z pfile) : Prop := {
  ok_enabled : iocrypt_enabled s = true;
  ok_tracked : forall fd f, m !! fd = Some f -> tracked s fd (K fd) f;
  ok_distinct : forall fd fd' f f', m !! fd = Some f -> m !! fd' = Some f' -> fd <> fd' -> ename (K fd) <> ename (K fd');
}.

Lemma files_update s s' K m fd f f' : files_ok s K m -> m !! fd = Some f -> tracked s' fd (K fd) f' ->
  step_frame s s' fd (ename (K fd)) -> files_ok s' K (<[fd := f']> m).
Proof using.
  intros [En T D] Ef T' F. split.
  - by rewrite (proj1 F).
  - intros fd1 f1 [[<- <-]|[N E]]%lookup_insert_Some; [done|]. eapply tracked_frame; [done|done| |by apply T].
    intros EE. by apply (D fd1 fd f1 f).
  - intros fd1 fd2 f1 f2 E1 E2 N. apply lookup_insert_Some in E1, E2.
    destruct E1 as [[<- <-]|[N1 E1]], E2 as [[<- <-]|[N2 E2]]; [done|by eapply D..].
Qed.

Lemma exec_refines s K m o r m' : files_ok s K m -> op_bytes o -> cost [o] <= space (dev s) ->
  client_exec K m o = Some (r, m') ->
  exists s', exec s o = Some (r, s') /\ files_ok s' K m' /\ space (dev s) - cost [o] <= space (dev s').
Proof using All.
  intros F B Sp E. unfold cost in *. destruct o as [fd buf|fd addr buf|fd pos]; cbn [client_exec plain_exec exec sum_list_with op_bytes] in *;
    destruct (m !! fd) as [f|] eqn:Ef; cbn [mbind option_bind] in E; try done; pose proof (ok_tracked _ _ _ F fd f Ef) as T.
  - destruct (Nat.leb_spec (cursor f) (length (bytes f))), (Z.ltb_spec (Z.of_nat (cursor f + length buf)) (2 ^ 31)); try done.
    injection E as <- <-. destruct B as [B Ls].
    destruct (write_step s fd _ f buf (ok_enabled _ _ _ F) T) as (s' & -> & T' & F' & S'); [done|done|done|done|lia|].
    exists s'. split; [done|]. split; [by eapply files_update|lia].
  - destruct (Nat.leb_spec (cursor f + length buf) (length (bytes f))), (Z.ltb_spec (Z.of_nat (cursor f + length buf)) (2 ^ 31));
      rewrite ?andb_false_r in E; try done.
    2: { destruct (Nat.ltb_spec (length (bytes f) - cursor f) (length buf)), (Z.ltb_spec (short_position (K fd) f (length buf)) (2 ^ 31)); try done.
         injection E as <- <-.
         destruct (read_short s fd _ f addr buf (ok_enabled _ _ _ F) T) as (s' & -> & _ & T'); [done|done|].
         destruct T' as (T' & F' & S'); [done|]. exists s'. split; [done|]. split; [by eapply files_update|lia]. }
    injection E as <- <-. destruct (read_step s fd _ f addr buf (ok_enabled _ _ _ F) T) as (s' & -> & T' & F' & S'); [done|done|].
    exists s'. split; [done|]. split; [by eapply files_update|lia].
  - destruct (Z.ltb_spec (Z.of_nat pos) (2 ^ 31)); [|done]. injection E as <- <-.
    destruct (set_position_ok (dev s) fd _ _ _ (Z.of_nat pos) (tracked_file _ _ _ _ T) ltac:(lia)) as (O & Fr & S').
    eexists. split; [done|]. split; [|cbn [dev set_dev]; lia]. eapply files_update; [done|done| |split; [done|by split]].
    destruct T. by split.
Qed.

Lemma run_refines ops : forall s K m r m', files_ok s K m -> Forall op_bytes ops -> cost ops <= space (dev s) ->
  run (client_exec K) m ops = Some (r, m') ->
  exists s', run exec s ops = Some (r, s') /\ files_ok s' K m'.
Proof using All.
  induction ops as [|o ops IH]; intros s K m r m' F B Sp E; cbn [run] in *; [injection E as <- <-; by exists s|].
  destruct (client_exec K m o) as [[[buf ret] m1]|] eqn:E1; cbn [mbind option_bind] in E; [|done].
  inversion B as [|? ? B1 B2]; subst.
  assert (cost (o :: ops) = cost [o] + cost ops) as EC by (unfold cost; cbn [sum_list_with]; lia).
  assert (0 <= cost ops) by (unfold cost; lia).
  destruct (exec_refines s K m o (buf, ret) m1 F B1 ltac:(lia) E1) as (s1 & -> & F1 & S1). cbn [mbind option_bind].
  destruct (run (client_exec K) m1 ops) as [[outs m2]|] eqn:E2; cbn [mbind option_bind] in E; [|done]. injection E as <- <-.
  destruct (IH s1 K m1 outs m2 F1 B2 ltac:(lia) E2) as (s2 & -> & F2). by exists s2.
Qed.

Lemma run_plain ops K : forall m r, run plain_exec m ops = Some r -> run (client_exec K) m ops = Some r.
Proof using.
  induction ops as [|o ops IH]; intros m r; cbn [run]; [done|].
  destruct (plain_exec m o) as [[[buf ret] m1]|] eqn:E1; [|done]. rewrite (plain_client K _ _ _ E1). cbn [mbind option_bind].
  destruct (run plain_exec m1 ops) as [[outs m2]|] eqn:E2; [|done]. by rewrite (IH _ _ E2).
Qed.
End Hooks.
