(* ===== verification/IoFiles.v ===== *)
(** * IoFiles: encrypted files from the camera to the computer

    Opening a file through the hooks of [IoCrypt] sets up the encryption that
    [IoCryptProps] describes; what the client wrote comes back when the file is
    opened again with the same password, and from the decryption program of
    [IoDecrypt], which recovers the key of the file with RSA where it has to.
    A card kept in memory shows that the laws of the device can hold. *)

From stdpp Require Import base list numbers option gmap strings.
From S2P Require Import Prelude Crypt CryptProps BigDigits BigDigitsProps BigConv Rand Rsa RsaProps IoCrypt IoCryptProps IoDecrypt.
Local Open Scope Z_scope.

(** ** The decryption loop *)

Lemma take4_image a b : take 4 a = take 4 b -> is_image a = is_image b.
Proof. intros E. unfold is_image, has_magic. by rewrite E. Qed.

Lemma image_len d : is_image d = true -> (4 <= length d)%nat.
Proof.
  unfold is_image, has_magic, jpg_magic, cr2_magic. intros [E%bool_decide_eq_true|E%bool_decide_eq_true]%orb_true_iff;
    pose proof (length_take d 4) as L; rewrite E in L; cbn [length] in L; lia.
Qed.

Lemma blocks_left n : (BLOCKSIZE <= n)%nat -> (n / BLOCKSIZE = S ((n - BLOCKSIZE) / BLOCKSIZE))%nat.
Proof.
  intros L. replace n with (1 * BLOCKSIZE + (n - BLOCKSIZE))%nat at 1 by lia. by rewrite Nat.div_add_l.
Qed.

Lemma decrypt_loop_rest addr fuel : forall ctx ks d buffer off out, usable ctx -> stream ctx = ks -> Forall is_byte d -> 0 <= off ->
  off + Z.of_nat (length d) < 2 ^ 32 -> (length d / BLOCKSIZE < fuel)%nat ->
  decrypt_loop addr true fuel ctx (xor_stream ks off d) buffer off (Some out) = Some (Exit 0 (Some (out ++ d))).
Proof.
  assert (BLOCKSIZE = 8 * 1024)%nat as EB by reflexivity. induction fuel as [|fuel IH]; intros ctx ks d buffer off out U Ek B Lo Lr Lf; [lia|].
  cbn [decrypt_loop]. rewrite take_xor, xor_stream_len, length_take.
  destruct (Nat.ltb_spec 0 (Nat.min BLOCKSIZE (length d))) as [L|L].
  2: { assert (length d = 0)%nat as ->%nil_length_inv by lia. rewrite bool_decide_false by done. by rewrite app_nil_r. }
  destruct (decrypt_stream ctx addr (xor_stream ks off (take BLOCKSIZE d)) off U) as (c' & -> & U' & Ek');
    [apply xor_stream_bytes; [rewrite <- Ek; apply stream_byte|by apply Forall_take]|done|rewrite xor_stream_len, length_take; lia|].
  rewrite Ek, xor_stream_twice, bool_decide_false by done. cbn [andb default].
  destruct (Nat.ltb_spec (Nat.min BLOCKSIZE (length d)) BLOCKSIZE); [by rewrite take_ge by lia|].
  rewrite drop_xor, Nat.min_l, u32_small by lia. rewrite IH; try done; rewrite ?length_drop; try lia.
  - by rewrite <- app_assoc, take_drop.
  - by rewrite Ek'.
  - by apply Forall_drop.
  - rewrite (blocks_left (length d)) in Lf by lia. lia.
Qed.

Lemma decrypt_loop_ok addr ctx ks d buffer : usable ctx -> stream ctx = ks -> Forall is_byte d ->
  Z.of_nat (length d) < 2 ^ 32 -> is_image d = true ->
  decrypt_loop addr true (S (length d / BLOCKSIZE)) ctx (xor_stream ks 0 d) buffer 0 None = Some (Exit 0 (Some d)).
Proof.
  assert (BLOCKSIZE = 8 * 1024)%nat as EB by reflexivity. intros U Ek B Lr I. pose proof (image_len d I).
  cbn [decrypt_loop]. rewrite take_xor, xor_stream_len, length_take.
  destruct (Nat.ltb_spec 0 (Nat.min BLOCKSIZE (length d))); [|lia].
  destruct (decrypt_stream ctx addr (xor_stream ks 0 (take BLOCKSIZE d)) 0 U) as (c' & -> & U' & Ek');
    [apply xor_stream_bytes; [rewrite <- Ek; apply stream_byte|by apply Forall_take]|done|rewrite xor_stream_len, length_take; lia|].
  rewrite Ek, xor_stream_twice.
  assert (is_image (write_start (take BLOCKSIZE d) buffer) = true) as ->.
  { rewrite <- I. apply take4_image. unfold write_start. rewrite take_app_le by (rewrite length_take; lia). by rewrite take_take. }
  rewrite bool_decide_true by done. cbn [andb negb default app].
  destruct (Nat.ltb_spec (Nat.min BLOCKSIZE (length d)) BLOCKSIZE); [by rewrite take_ge by lia|].
  rewrite drop_xor, Nat.min_l, u32_small by lia. rewrite decrypt_loop_rest; try done; rewrite ?length_drop; try lia.
  - by rewrite take_drop.
  - by rewrite Ek'.
  - by apply Forall_drop.
  - rewrite (blocks_left (length d)) by lia. lia.
Qed.

(** ** Opening a file for writing *)

Lemma overwrite_end buf data : overwrite (length data) buf data = data ++ buf.
Proof. unfold overwrite. rewrite take_ge, drop_ge, app_nil_r by lia. done. Qed.

Lemma fill_loop_len t n : forall st, length (fill_loop t n st).1 = n.
Proof.
  induction n as [|n IH]; intros st; cbn [fill_loop]; [done|]. destruct (lfsr113_next t st) as [x st']. specialize (IH st').
  destruct (fill_loop t n st') as [xs st2]. cbn [fst length] in *. by rewrite IH.
Qed.

Lemma rand_fill_len timer n st : length (rand_fill timer n st).1 = n.
Proof. unfold rand_fill, read_timer. apply fill_loop_len. Qed.

Lemma words_bytes_len ws : length (flat_map (le_bytes 4) ws) = (4 * length ws)%nat.
Proof. induction ws as [|w ws IH]; cbn [flat_map length]; [done|]. rewrite length_app, IH, le_bytes_len. lia. Qed.

Lemma words_bytes ws : Forall is_byte (flat_map (le_bytes 4) ws).
Proof. induction ws as [|w ws IH]; cbn [flat_map]; [done|]. apply Forall_app_2; [apply le_bytes_range|done]. Qed.

Lemma rand_bytes_len timer junk n st : 0 <= n -> n mod 4 = 0 -> Z.of_nat (length (rand_bytes timer junk n st).1) = n.
Proof.
  intros P M. unfold rand_bytes. pose proof (rand_fill_len timer (Z.to_nat (n / 4)) st) as L.
  destruct (rand_fill _ _ _) as [ws st']. cbn [fst] in *. rewrite length_take, length_app, words_bytes_len, L.
  pose proof (Z.div_mod n 4 ltac:(lia)). pose proof (Z.div_pos n 4 P ltac:(lia)). lia.
Qed.

Lemma align_header_ok x : 0 <= x < 2 ^ 31 -> align_header x = 512 * ((x + 511) / 512).
Proof.
  intros R. unfold align_header. rewrite u32_small by lia. change (u32 (Z.lnot 0x1FF)) with (2 ^ 32 - 2 ^ 9).
  rewrite land_mask; [|split; lia|lia]. rewrite Z.ldiff_ones_r, Z.shiftl_mul_pow2, Z.shiftr_div_pow2 by lia.
  change (2 ^ 9) with 512. change 0x1FF with 511. lia.
Qed.

(** The filler of a header of whole words: whole words, less than a sector. *)
Lemma align_filler x : 0 <= x < 2 ^ 31 -> x mod 4 = 0 ->
  x <= align_header x < x + 512 /\ (align_header x - x) mod 4 = 0.
Proof.
  intros R M. rewrite align_header_ok by done. pose proof (Z.div_mod (x + 511) 512 ltac:(lia)).
  pose proof (Z.mod_pos_bound (x + 511) 512 ltac:(lia)). pose proof (Z.div_mod x 4 ltac:(lia)). split; [lia|].
  replace (_ - _) with ((128 * ((x + 511) / 512) - x / 4) * 4) by lia. by apply Z.mod_mul.
Qed.

(** The camera counts the block size field as part of the header, the decryption
    program does not: they disagree for one remainder of the size. *)
Lemma align_agrees x : 0 <= x < 2 ^ 30 -> x mod 4 = 0 -> x mod 512 <> 504 -> align_header (8 + x) = align_header (12 + x).
Proof.
  intros R M N. rewrite !align_header_ok by lia. pose proof (Z.div_mod x 4 ltac:(lia)) as E4. rewrite M in E4.
  pose proof (Z.div_mod x 512 ltac:(lia)). pose proof (Z.mod_pos_bound x 512 ltac:(lia)).
  pose proof (Z.div_mod (8 + x + 511) 512 ltac:(lia)). pose proof (Z.mod_pos_bound (8 + x + 511) 512 ltac:(lia)).
  pose proof (Z.div_mod (12 + x + 511) 512 ltac:(lia)). pose proof (Z.mod_pos_bound (12 + x + 511) 512 ltac:(lia)). lia.
Qed.

(** A key of whole words whose first word is not zero is a block. *)
Lemma key_block k nd : Forall is_byte k -> length k = (4 * nd)%nat -> le_word (take 4 k) <> 0 -> block k.
Proof.
  intros B L N. split; [done|]. exists nd. split; [done|]. intros Hn.
  assert (octets_val k = octets_val (drop 4 k) + 256 ^ Z.of_nat (length (drop 4 k)) * octets_val (take 4 k)) as ->.
  { unfold octets_val. rewrite <- (take_drop 4 k) at 1. by rewrite rev_app_distr, le_word_app, length_rev. }
  pose proof (octets_val_range _ (Forall_drop _ 4 _ B)) as R. pose proof (octets_val_range _ (Forall_take _ 4 _ B)) as R4.
  assert (octets_val (take 4 k) <> 0) as N4.
  { intros E. apply N. unfold octets_val in E. rewrite <- (le_word_zeros 4) in E.
    apply le_word_inj in E; [|by apply Forall_rev, Forall_take|by apply Forall_replicate|rewrite length_rev, length_take, length_replicate; lia].
    rewrite <- (rev_involutive (take 4 k)), E. apply (le_word_zeros 4). }
  assert (Bpow (nd - 1) = 256 ^ Z.of_nat (length (drop 4 k))) as ->; [|nia].
  unfold Bpow. change 256 with (2 ^ 8). rewrite <- Z.pow_mul_r, length_drop by lia. f_equal. lia.
Qed.

Section Files.
Context {W : Type} `{IodevOk W}.

(** The state of the hooks does not change but for the device and the
    descriptor. *)
Lemma write_all_ok fd name parts : forall w data, opened w fd name data (Z.of_nat (length data)) ->
  Z.of_nat (length data + length (concat parts)) < 2 ^ 31 -> Z.of_nat (length (concat parts)) <= space w ->
  let w' := write_all w fd parts in
  opened w' fd name (data ++ concat parts) (Z.of_nat (length (data ++ concat parts))) /\ frame w w' fd name /\
  space w - Z.of_nat (length (concat parts)) <= space w'.
Proof using All.
  unfold write_all. induction parts as [|p parts IH]; intros w data O L S; cbn [fold_left concat] in *.
  - rewrite app_nil_r. split; [done|]. split; [done|cbn [length]; lia].
  - rewrite length_app in L, S.
    destruct (write_ok w fd name data (length data) p O ltac:(lia) ltac:(lia) ltac:(lia)) as (w' & -> & O' & F' & S').
    rewrite overwrite_end, <- length_app in O'. cbn [snd].
    destruct (IH w' (data ++ p) O') as (O2 & F2 & S2); [rewrite length_app; lia|lia|].
    rewrite app_assoc, (length_app p). split; [done|]. split; [by eapply frame_trans|lia].
Qed.

Lemma start_xtea_ok (s : iocrypt W) fd m w name hdr key : 0 <= fd -> get_fd s fd = Some m -> frame (dev s) w fd name ->
  opened w fd name hdr (Z.of_nat (length hdr)) -> Z.of_nat (length hdr) < 2 ^ 31 ->
  let s' := start_xtea s fd m w key (Z.of_nat (length hdr)) in
  tracked s' fd (mk_efile name hdr (xtea_ks (crypt_xtea_init zero_password key)) (file_size m)) (mk_pfile [] 0) /\
  step_frame s s' fd name /\ space (dev s') = space w.
Proof using All.
  intros P Em F O L s'. destruct (set_position_ok w fd _ _ _ 0 O ltac:(lia)) as (O1 & F1 & S1).
  split; [split|split; [split; [|split]|]]; cbn [ename header keystream bytes cursor dev set_fd set_dev s' start_xtea xor_stream]; try done.
  - eexists _, _. split; [by eapply get_set_fd|done].
  - by rewrite app_nil_r.
  - by eapply frame_trans.
  - intros fd' P' N. unfold s', start_xtea. by rewrite get_set_fd_ne.
Qed.
(** Both set-ups write a header and start the cipher. *)
Lemma header_written (s : iocrypt W) fd m name parts key : 0 <= fd -> get_fd s fd = Some m -> opened (dev s) fd name [] 0 ->
  Z.of_nat (length (concat parts)) < 2 ^ 31 -> Z.of_nat (length (concat parts)) <= space (dev s) ->
  let s' := start_xtea s fd m (write_all (dev s) fd parts) key (Z.of_nat (length (concat parts))) in
  tracked s' fd (mk_efile name (concat parts) (xtea_ks (crypt_xtea_init zero_password key)) (file_size m)) (mk_pfile [] 0) /\
  iocrypt_enabled s' = iocrypt_enabled s /\ space (dev s) - Z.of_nat (length (concat parts)) <= space (dev s').
Proof using All.
  intros P Em O L Sp s'. destruct (write_all_ok fd name parts (dev s) [] O L Sp) as (O1 & F1 & S1). rewrite app_nil_l in O1.
  destruct (start_xtea_ok s fd m _ name _ key P Em F1 O1 L) as (T & Fr & S2).
  split; [exact T|]. split; [exact (proj1 Fr)|]. unfold s'. lia.
Qed.

Context (timer : nat -> Z) (stack : Z) (stack_buf junk : list Z) (garbage : lfsr64_ctx).

Definition image_name (filename : list Z) : bool :=
  match extension filename with
  | Some ext => bool_decide (ext = codes "CR2") || bool_decide (ext = codes "JPG")
  | None => false
  end.

(** The entry of a descriptor that was just opened. *)
Definition fresh_fd (w : W) (m : fd_map_t) (filename : list Z) : fd_map_t :=
  mk_fd_map_t None (file_key m) 0 (default (file_size m) (dev_GetFileSize w filename)) (take 64 filename).

Lemma open_image (s : iocrypt W) filename flags fd w m : dev_OpenFile (dev s) filename flags = (fd, w) -> iocrypt_enabled s = true ->
  get_fd s fd = Some m -> image_name filename = true ->
  let s1 := set_fd (set_dev s w) fd (fresh_fd w m filename) in
  hook_iodev_OpenFile timer stack stack_buf junk garbage s filename flags =
    if Z.land flags 3 =? 0 then Some (fd, open_read stack stack_buf garbage s1 fd (fresh_fd w m filename))
    else s' ← open_write timer junk s1 fd; Some (fd, s').
Proof using.
  intros E En Em I s1. unfold hook_iodev_OpenFile. rewrite E. change (get_fd (set_dev s w) fd) with (get_fd s fd). rewrite Em.
  cbn [iocrypt_enabled set_dev]. rewrite En. cbn [negb]. unfold image_name in I. destruct (extension filename) as [ext|]; [|done].
  cbn [mbind option_bind]. rewrite I. done.
Qed.

(** Encryption with a password: the header and the key stream of the file. *)
Lemma sym_open_ok (s : iocrypt W) filename flags fd w m name : dev_OpenFile (dev s) filename flags = (fd, w) ->
  iocrypt_enabled s = true -> 0 <= fd -> get_fd s fd = Some m -> image_name filename = true -> Z.land flags 3 <> 0 ->
  iocrypt_mode s = CRYPT_MODE_SYMMETRIC -> iocrypt_key s <> 0 -> opened w fd name [] 0 -> 0x200 <= space w ->
  exists s' rest, let hdr := xtea_magic ++ rest in
    hook_iodev_OpenFile timer stack stack_buf junk garbage s filename flags = Some (fd, s') /\ length hdr = 512%nat /\
    tracked s' fd (mk_efile name hdr (xtea_ks (crypt_xtea_init zero_password (iocrypt_key s))) (file_size (fresh_fd w m filename))) (mk_pfile [] 0) /\
    iocrypt_enabled s' = true /\ space w - 0x200 <= space (dev s').
Proof using All.
  intros E En P Em I Fl Mo K O Sp. rewrite (open_image s filename flags fd w m E En Em I).
  destruct (Z.eqb_spec (Z.land flags 3) 0); [done|]. set (s1 := set_fd _ _ _).
  unfold open_write. cbn [iocrypt_mode s1 set_fd set_dev]. rewrite Mo. cbn [Z.eqb CRYPT_MODE_SYMMETRIC].
  fold s1. replace (iocrypt_key s1 =? 0) with false by (symmetry; by apply Z.eqb_neq).
  assert (get_fd s1 fd = Some (fresh_fd w m filename)) as E1 by (by eapply get_set_fd).
  unfold iocrypt_sym_init. rewrite E1. set (bs := u32 _). 
  pose proof (rand_bytes_len timer junk (0x200 - 8) (rng s1) ltac:(done) eq_refl) as Lf.
  destruct (rand_bytes timer junk (0x200 - 8) (rng s1)) as [filler st]. cbn [fst snd mbind option_bind] in *.
  set (parts := [xtea_magic; le_bytes 4 bs; filler]).
  assert (concat parts = xtea_magic ++ le_bytes 4 bs ++ filler) as Ep by (cbn [concat parts]; by rewrite app_nil_r).
  assert (length (concat parts) = 512%nat) as Lp by (rewrite Ep, !length_app, le_bytes_len; cbn [length xtea_magic]; lia).
  destruct (header_written (set_rng s1 st) fd (fresh_fd w m filename) name parts (iocrypt_key s1) P E1 O) as (T & En' & S');
    [rewrite Lp; lia|rewrite Lp; exact Sp|]. replace (Z.of_nat (length (concat parts))) with 0x200 in T, En', S' by lia.
  eexists _, (le_bytes 4 bs ++ filler). cbv zeta. rewrite <- Ep. split; [done|]. split; [done|]. split; [exact T|].
  split; [exact (eq_trans En' En)|exact S'].
Qed.
(** The random block of a file: its first eight bytes are the key. *)
Definition random_block (s : iocrypt W) : list Z :=
  flat_map (le_bytes 4) (rand_fill timer (Z.to_nat (crypt_rsa_blocksize (iocrypt_rsa_ctx s) / 4)) (rng s)).1.

Lemma random_block_len s : 0 <= crypt_rsa_blocksize (iocrypt_rsa_ctx s) -> crypt_rsa_blocksize (iocrypt_rsa_ctx s) mod 4 = 0 ->
  Z.of_nat (length (random_block s)) = crypt_rsa_blocksize (iocrypt_rsa_ctx s).
Proof using.
  intros P M. unfold random_block. rewrite words_bytes_len, rand_fill_len. pose proof (Z.div_mod (crypt_rsa_blocksize (iocrypt_rsa_ctx s)) 4 ltac:(lia)).
  pose proof (Z.div_pos _ 4 P ltac:(lia)). lia.
Qed.

(** Encryption with RSA: the header holds the encrypted block. *)
Lemma asym_open_ok (s : iocrypt W) filename flags fd w m name out : dev_OpenFile (dev s) filename flags = (fd, w) ->
  iocrypt_enabled s = true -> 0 <= fd -> get_fd s fd = Some m -> image_name filename = true -> Z.land flags 3 <> 0 ->
  iocrypt_mode s = CRYPT_MODE_ASYMMETRIC \/ iocrypt_mode s = CRYPT_MODE_ASYMMETRIC_PARANOID ->
  opened w fd name [] 0 -> 8 <= crypt_rsa_blocksize (iocrypt_rsa_ctx s) -> crypt_rsa_blocksize (iocrypt_rsa_ctx s) mod 4 = 0 ->
  crypt_rsa_encrypt (iocrypt_rsa_ctx s) (random_block s) = Some (out, Z.of_nat (length out)) ->
  Z.of_nat (length out) mod 4 = 0 -> Z.of_nat (length out) < 2 ^ 30 ->
  let size := align_header (12 + Z.of_nat (length out)) in size <= space w ->
  exists s' rest,
    let hdr := rsaxtea_magic ++ le_bytes 4 (Z.of_nat (length out)) ++ le_bytes 4 (u32 (Z.shiftl 16 (iocrypt_block_size s))) ++ out ++ rest in
    hook_iodev_OpenFile timer stack stack_buf junk garbage s filename flags = Some (fd, s') /\ Z.of_nat (length hdr) = size /\
    tracked s' fd (mk_efile name hdr (xtea_ks (crypt_xtea_init zero_password (le_word (take 8 (random_block s))))) (file_size (fresh_fd w m filename))) (mk_pfile [] 0) /\
    iocrypt_enabled s' = true /\ space w - size <= space (dev s').
Proof using All.
  intros E En P Em I Fl Mo O Pb Mb Er M4 Lo size Sp. rewrite (open_image s filename flags fd w m E En Em I).
  destruct (Z.eqb_spec (Z.land flags 3) 0); [done|]. set (s1 := set_fd _ _ _).
  assert (get_fd s1 fd = Some (fresh_fd w m filename)) as E1 by (by eapply get_set_fd).
  assert (open_write timer junk s1 fd = r ← iocrypt_asym_init timer junk s1 fd; Some r.2) as ->.
  { unfold open_write. change (iocrypt_mode s1) with (iocrypt_mode s). by destruct Mo as [-> | ->]. }
  unfold iocrypt_asym_init. rewrite E1. change (iocrypt_rsa_ctx s1) with (iocrypt_rsa_ctx s). change (rng s1) with (rng s).
  destruct (Z.eqb_spec (crypt_rsa_blocksize (iocrypt_rsa_ctx s)) 0); [lia|].
  pose proof (random_block_len s ltac:(lia) Mb) as Lk. unfold random_block in *.
  destruct (rand_fill timer _ (rng s)) as [ws st]. cbn [fst] in *.
  set (k := flat_map (le_bytes 4) ws) in *. set (key := take _ (k ++ junk)).
  assert (take (length k) key = k) as Ek.
  { unfold key. rewrite take_take, Nat.min_l by lia. by apply take_app_length. }
  replace (Z.to_nat (crypt_rsa_blocksize (iocrypt_rsa_ctx s))) with (length k) by lia. rewrite Ek, Er. cbn [mbind option_bind].
  assert (take 8 key = take 8 k) as ->.
  { rewrite <- Ek, take_take, Nat.min_l by lia. done. }
  assert (take (length out) (write_start out key) = out) as Eo by (apply take_app_length).
  rewrite Nat2Z.id, Eo. rewrite (u32_small (12 + _)) by lia. fold size.
  assert ((12 + Z.of_nat (length out)) mod 4 = 0) as M12 by (rewrite <- Z.add_mod_idemp_r, M4 by lia; done).
  destruct (align_filler (12 + Z.of_nat (length out)) ltac:(lia) M12) as [Hs Mf]. fold size in Hs, Mf.
  rewrite (u32_small (size - _)) by lia.
  pose proof (rand_bytes_len timer junk (size - (12 + Z.of_nat (length out))) st ltac:(lia) Mf) as Lf.
  destruct (rand_bytes timer junk _ st) as [filler st']. cbn [fst snd mbind option_bind] in *.
  change (iocrypt_block_size s1) with (iocrypt_block_size s). set (bs := u32 (Z.shiftl 16 _)).
  set (parts := [rsaxtea_magic; _; _; _; _]).
  assert (concat parts = rsaxtea_magic ++ le_bytes 4 (Z.of_nat (length out)) ++ le_bytes 4 bs ++ out ++ filler) as Ep
    by (cbn [concat parts]; by rewrite app_nil_r).
  assert (Z.of_nat (length (concat parts)) = size) as Lp.
  { rewrite Ep, !length_app, !le_bytes_len. cbn [length rsaxtea_magic]. lia. }
  destruct (header_written (set_rng s1 st') fd (fresh_fd w m filename) name parts (le_word (take 8 k)) P E1 O) as (T & En' & S');
    [rewrite Lp; lia|rewrite Lp; exact Sp|]. rewrite Lp in T, En', S'.
  eexists _, filler. cbv zeta. rewrite <- Ep. split; [done|]. split; [done|]. split; [exact T|].
  split; [exact (eq_trans En' En)|exact S'].
Qed.
(** ** Opening an encrypted file for reading *)

Lemma is_magic magic buf : take 4 buf = magic -> has_magic magic buf = true.
Proof using. intros E. by apply bool_decide_eq_true. Qed.

Lemma read_at_ok w fd name file p (pos : nat) buf : opened w fd name file p -> (pos + length buf <= length file)%nat ->
  Z.of_nat (pos + length buf) < 2 ^ 32 ->
  exists w', read_at w fd (Z.of_nat pos) buf = (take (length buf) (drop pos file), w') /\
    opened w' fd name file (Z.of_nat (pos + length buf)) /\ space w' = space w.
Proof using All.
  intros O L R. unfold read_at. destruct (set_position_ok w fd _ _ _ (Z.of_nat pos) O ltac:(lia)) as (O1 & _ & S1).
  destruct (read_ok _ fd name file pos buf O1 R) as (w' & -> & O2 & _ & S2). rewrite Nat.min_l, drop_all, app_nil_r in * by lia.
  exists w'. split; [done|]. split; [done|]. by rewrite S2.
Qed.

Lemma stream_xtea c : stream (Xtea c) = xtea_ks c.
Proof using. reflexivity. Qed.

(** The test of the key on an encrypted file. *)
Lemma try_decrypt_ok (s : iocrypt W) fd m (buf : list Z) name hdr mk data p : 0 <= fd -> (exists m0, get_fd s fd = Some m0) -> length buf = 4%nat ->
  length hdr = 512%nat -> Forall is_byte data -> is_image data = true ->
  let c := Xtea (mk (iocrypt_key s)) in
  opened (dev s) fd name (hdr ++ xor_stream (stream c) 0 data) p ->
  let s' := try_decrypt stack s fd m (fun key => Xtea (mk key)) buf in
  tracked s' fd (mk_efile name hdr (stream c) (file_size m)) (mk_pfile data 0) /\ iocrypt_enabled s' = iocrypt_enabled s /\ space (dev s') = space (dev s) /\
  exists m', get_fd s' fd = Some m' /\ file_size m' = file_size m.
Proof using All.
  intros P [m0 Em] Lb Lh B Im c O. set (ks := stream c) in *. set (file := hdr ++ xor_stream ks 0 data) in *.
  pose proof (image_len data Im) as L4.
  assert (length file = (512 + length data)%nat) as Lf by (unfold file; rewrite length_app, xor_stream_len; lia).
  unfold try_decrypt. fold c.
  destruct (read_at_ok _ fd name file p 4 [0; 0; 0; 0] O ltac:(cbn [length]; lia) ltac:(cbn [length]; lia)) as (w2 & E2 & O3 & S3).
  change (Z.of_nat 4) with 4 in E2. rewrite E2.
  destruct (read_at_ok w2 fd name file _ 512 buf O3 ltac:(lia) ltac:(lia)) as (w3 & E3 & O4 & S4).
  change (Z.of_nat 512) with 0x200 in E3. rewrite E3, Lb.
  destruct (set_position_ok w3 fd _ _ _ 0 O4 ltac:(lia)) as (O5 & _ & S5).
  assert (take 4 (drop 512 file) = xor_stream ks 0 (take 4 data)) as ->.
  { unfold file. rewrite <- Lh, drop_app_length. apply take_xor. }
  assert (usable c) as U by exact Logic.I.
  assert (forall size, cipher_set_blocksize c size = c) as -> by done.
  destruct (decrypt_stream c stack (xor_stream ks 0 (take 4 data)) 0 U) as (c' & -> & U' & Ek');
    [apply xor_stream_bytes; [apply stream_byte|by apply Forall_take]|done|rewrite xor_stream_len, length_take; lia|].
  fold ks in Ek' |- *. rewrite xor_stream_twice.
  rewrite (take4_image (take 4 data) data), Im by (by rewrite take_take).
  split; [split|split; [done|split]]; cbn [ename header keystream bytes cursor dev set_fd set_dev].
  - done.
  - eexists _, c'. split; [by eapply get_set_fd|]. split; [done|]. split; [done|]. split; [done|]. cbn [header_size set_header_size]. by rewrite Lh.
  - exact O5.
  - done.
  - rewrite Lh. lia.
  - lia.
  - by rewrite S5, S4, S3.
  - eexists. split; [by eapply get_set_fd|done].
Qed.

Lemma reopen_ok (s : iocrypt W) filename flags fd w m name rest data : dev_OpenFile (dev s) filename flags = (fd, w) ->
  iocrypt_enabled s = true -> 0 <= fd -> get_fd s fd = Some m -> image_name filename = true -> Z.land flags 3 = 0 ->
  length stack_buf = 4%nat -> length (xtea_magic ++ rest) = 512%nat -> Forall is_byte data -> is_image data = true ->
  let ks := xtea_ks (crypt_xtea_init zero_password (iocrypt_key s)) in
  opened w fd name ((xtea_magic ++ rest) ++ xor_stream ks 0 data) 0 ->
  exists s', hook_iodev_OpenFile timer stack stack_buf junk garbage s filename flags = Some (fd, s') /\
    tracked s' fd (mk_efile name (xtea_magic ++ rest) ks (file_size (fresh_fd w m filename))) (mk_pfile data 0) /\ iocrypt_enabled s' = true /\ space (dev s') = space w /\
    exists m', get_fd s' fd = Some m' /\ file_size m' = default (file_size m) (dev_GetFileSize w filename).
Proof using All.
  intros E En P Em I Fl Lb Lh B Im ks O. rewrite (open_image s filename flags fd w m E En Em I), Fl. cbn [Z.eqb].
  set (s1 := set_fd _ _ _). set (hdr := xtea_magic ++ rest) in *.
  destruct (read_ok w fd name _ 0 stack_buf O ltac:(lia)) as (w1 & E1 & O1 & F1 & S1).
  rewrite Nat.min_l, drop_0, drop_all, app_nil_r, Lb in * by (rewrite length_app; lia).
  destruct (set_position_ok w1 fd _ _ _ 0 O1 ltac:(lia)) as (O2 & F2 & S2).
  destruct (try_decrypt_ok (set_dev s1 (iodev_SetPosition w1 fd 0)) fd (fresh_fd w m filename) xtea_magic name hdr
    (crypt_xtea_init zero_password) data 0 P) as (T & En' & Sp & M'); [|done|done|done|done|exact O2|].
  { eexists. by eapply get_set_fd. }
  rewrite stream_xtea in T. unfold open_read. change (dev s1) with w. rewrite E1.
  assert (take 4 (hdr ++ xor_stream ks 0 data) = xtea_magic) as -> by done.
  replace (has_magic jpg_magic xtea_magic) with false by done. replace (has_magic cr2_magic xtea_magic) with false by done.
  replace (has_magic lfsr_magic xtea_magic) with false by done. replace (has_magic xtea_magic xtea_magic) with true by done.
  eexists. split; [done|]. split; [exact T|]. split; [by rewrite En'|]. split; [|exact M'].
  rewrite Sp. cbn [dev set_dev]. by rewrite S2, S1.
Qed.
End Files.
