(* ===== verification/IoSession.v ===== *)
(** * IoSession: what becomes of a file the camera encrypts

    The theorems about whole sessions: a program that works on encrypted files
    through the hooks, a file that is opened, written and decrypted again, with
    a password or with RSA, and reads past the end of an encrypted file. *)

From stdpp Require Import base list numbers option gmap strings.
From S2P Require Import Prelude Crypt CryptProps BigDigits BigDigitsProps BigConv BigPrime Rand Rsa RsaProps IoCrypt IoCryptProps IoDecrypt IoFiles.
Local Open Scope Z_scope.

(** ** What the decryption program makes of a header *)






(** ** Sessions *)

Section Sessions.
Context {W : Type} `{Hdev : IodevOk W}.
Context (timer : nat -> Z) (stack : Z) (stack_buf junk : list Z) (garbage : lfsr64_ctx) (scratch : Z).











(** A read past the end of an encrypted file.  The comment in the code
    promises zeroes, but the zeroes are decrypted with the rest, so the client
    gets the key stream; and the size the file has on the card, which is with
    the header, decides how many bytes are reported.  At the end of the file, a
    read of at most the size of the header reports all bytes read; a read of
    just that size leaves the position where it is, so that a client that reads
    until nothing is left never ends. *)
Theorem iocrypt_read_past_end s fd e f m addr buf : iocrypt_enabled s = true -> tracked s fd e f -> get_fd s fd = Some m ->
  file_size m = Z.of_nat (length (header e) + length (bytes f)) -> file_size m < 2 ^ 32 ->
  (cursor f <= length (bytes f) < cursor f + length buf)%nat -> Z.of_nat (cursor f + length buf) < 2 ^ 31 ->
  let n := (length (bytes f) - cursor f)%nat in
  let ret := Z.min (Z.of_nat (length buf)) (Z.of_nat (length (header e) + n)) in
  exists s', hook_iodev_ReadFile s fd addr buf =
      Some (drop (cursor f) (bytes f) ++ xor_stream (keystream e) (Z.of_nat (length (bytes f))) (replicate (length buf - n) 0), ret, s') /\
    iodev_GetPosition (dev s') fd = u32 (Z.of_nat (cursor f) + ret - Z.of_nat (length (header e))) /\
    (n = 0%nat -> length buf = length (header e) ->
       ret = Z.of_nat (length buf) /\ iodev_GetPosition (dev s') fd = iodev_GetPosition (dev s) fd).
Proof using Hdev.
  intros En T Em Es Ls Lc Lb n ret.
  destruct (read_past s fd e f m addr buf En T Em ltac:(lia) Lb Es Ls ltac:(lia)) as (s' & E & Ep). fold n ret in E, Ep.
  exists s'. split; [exact E|]. split; [exact Ep|]. intros N Lh. assert (ret = Z.of_nat (length buf)) as Er by (unfold ret; lia).
  split; [done|]. rewrite Ep, Er, Lh. pose proof (tracked_file _ _ _ _ T) as (_ & _ & ->). rewrite u32_small by lia. lia.
Qed.
End Sessions.
