(* ===== verification/IoDevice.v ===== *)
(** * IoDevice: a card kept in memory

    A device that meets the laws of [IoCryptProps], and the theorems of
    [IoSession] at work on it: a file written with a password, one written with
    RSA, and a read past the end. *)

From Stdlib Require Import ZArith.Zdivisibility ZArith.Zpow_facts ZArith.Znumtheory.
From stdpp Require Import base list numbers option gmap strings.
From S2P Require Import Prelude Crypt CryptProps BigDigits BigDigitsProps BigConv BigPrime Rand Rsa RsaProps IoCrypt IoCryptProps IoDecrypt IoFiles IoSession.
Local Open Scope Z_scope.

Record sdcard := mk_sdcard {
  open_names : gmap Z (list Z);
  contents : gmap (list Z) (list Z);
  positions : gmap Z Z;
  room : Z }.

Definition position (w : sdcard) (fd : Z) : Z := default 0 (positions w !! fd).
Definition set_position (w : sdcard) (fd pos : Z) : sdcard :=
  mk_sdcard (open_names w) (contents w) (<[fd := pos]> (positions w)) (room w).
Definition file_name (w : sdcard) (fd : Z) : option (list Z) := open_names w !! fd.
Definition file_data (w : sdcard) (fd : Z) : list Z := default [] (name ← file_name w fd; contents w !! name).

Definition open_file (w : sdcard) (name : list Z) (flags : Z) : Z * sdcard :=
  let fd := Z.of_nat (size (open_names w)) in
  (fd, mk_sdcard (<[fd := name]> (open_names w)) (if Z.land flags 3 =? 0 then contents w else <[name := []]> (contents w))
         (<[fd := 0]> (positions w)) (room w)).

Definition read_file (w : sdcard) (fd : Z) (buf : list Z) : list Z * Z * sdcard :=
  let pos := Z.to_nat (position w fd) in
  let n := Nat.min (length buf) (length (file_data w fd) - pos) in
  (take n (drop pos (file_data w fd)) ++ drop n buf, Z.of_nat n, set_position w fd (Z.of_nat (pos + n))).

Definition write_file (w : sdcard) (fd : Z) (buf : list Z) : Z * sdcard :=
  match file_name w fd with
  | Some name =>
    if Z.of_nat (length buf) <=? room w then
      let pos := Z.to_nat (position w fd) in
      (Z.of_nat (length buf),
       mk_sdcard (open_names w) (<[name := overwrite pos buf (file_data w fd)]> (contents w))
         (<[fd := Z.of_nat (pos + length buf)]> (positions w)) (room w - Z.of_nat (length buf)))
    else (0, w)
  | None => (0, w)
  end.

#[export] Instance sdcard_dev : Iodev sdcard := {|
  dev_OpenFile := open_file; dev_ReadFile := read_file; dev_WriteFile := write_file;
  dev_CloseFile := fun w fd => (0, mk_sdcard (delete fd (open_names w)) (contents w) (positions w) (room w));
  dev_GetFileSize := fun w name => Z.of_nat ∘ length <$> contents w !! name;
  iodev_GetPosition := position; iodev_SetPosition := set_position |}.

#[export] Instance sdcard_view : IodevView sdcard := {|
  name_of := file_name; stored := fun w name => contents w !! name; space := room |}.

Lemma set_position_law (w : sdcard) fd name data pos pos' : opened w fd name data pos ->
  opened (set_position w fd pos') fd name data pos' /\ frame w (set_position w fd pos') fd name.
Proof.
  intros (E1 & E2 & E3). split; [split; [done|split; [done|]]|split; [done|split; [done|]]].
  - cbn. unfold position, set_position. cbn [positions]. by rewrite lookup_insert_eq.
  - intros fd' N. cbn. unfold position, set_position. cbn [positions]. by rewrite lookup_insert_ne.
Qed.

Lemma opened_data (w : sdcard) fd name data pos : opened w fd name data pos -> file_data w fd = data.
Proof. intros (E1 & E2 & _). cbn in E1, E2. unfold file_data. rewrite E1. cbn [mbind option_bind]. by rewrite E2. Qed.

#[export] Instance sdcard_ok : IodevOk sdcard.
Proof.
  split.
  - intros w fd name data pos pos' O _ w'. destruct (set_position_law w fd name data pos pos' O). done.
  - intros w fd name data pos buf O R n. pose proof O as (_ & _ & Ep). cbn in Ep.
    cbn [dev_ReadFile sdcard_dev]. unfold read_file. rewrite (opened_data w fd name data _ O), Ep, Nat2Z.id. fold n.
    eexists. split; [done|]. destruct (set_position_law w fd name data _ (Z.of_nat (pos + n)) O). done.
  - intros w fd name data pos buf O L R S. pose proof O as (En & Es & Ep). cbn in En, Ep, S.
    cbn [dev_WriteFile sdcard_dev]. unfold write_file. rewrite En, (opened_data w fd name data _ O), Ep, Nat2Z.id.
    destruct (Z.leb_spec (Z.of_nat (length buf)) (room w)); [|lia]. eexists. split; [done|].
    split; [split; [done|split]|split; [split; [done|split]|]]; cbn.
    + by rewrite lookup_insert_eq.
    + unfold position. cbn [positions]. by rewrite lookup_insert_eq.
    + intros n N. by rewrite lookup_insert_ne.
    + intros fd' N. unfold position. cbn [positions]. by rewrite lookup_insert_ne.
    + lia.
Qed.

(** ** Examples *)

Definition no_file : fd_map_t := mk_fd_map_t None 0 0 0 [].
Definition img1 : list Z := codes "B:/DCIM/100CANON/IMG_0001.JPG".
Definition img2 : list Z := codes "B:/DCIM/100CANON/IMG_0002.CR2".

(** Two encrypted files with headers of 4 and 3 bytes. *)
Definition two_ciphers (fd : Z) : xtea_ctx := crypt_xtea_init zero_password (7 + fd).
Definition two_files (fd : Z) : efile :=
  if fd =? 0 then mk_efile img1 [1; 2; 3; 4] (xtea_ks (two_ciphers 0)) 4 else mk_efile img2 [5; 6; 7] (xtea_ks (two_ciphers 1)) 3.
Definition two_open : iocrypt sdcard :=
  mk_iocrypt (mk_fd_map_t (Some (Xtea (two_ciphers 0))) 7 4 4 img1 :: mk_fd_map_t (Some (Xtea (two_ciphers 1))) 8 3 3 img2 :: replicate 30 no_file)
    7 true 0 4 None lfsr113
    (mk_sdcard (<[0 := img1]> {[1 := img2]}) (<[img1 := [1; 2; 3; 4]]> {[img2 := [5; 6; 7]]}) (<[0 := 0]> {[1 := 0]}) 100000).

Lemma first_tracked : tracked two_open 0 (two_files 0) (mk_pfile [] 0).
Proof.
  split; [done| | |done|vm_compute; reflexivity|done].
  - eexists _, (Xtea (two_ciphers 0)). split; [reflexivity|]. split; [reflexivity|]. split; [exact Logic.I|]. split; [apply stream_xtea|split; reflexivity].
  - split; [vm_compute; reflexivity|split; vm_compute; reflexivity].
Qed.










(** A key pair of two primes above 2^32; the computer has both key files, the
    camera the public one. *)








Lemma iocrypt_read_past_end_witness :
  exists s', hook_iodev_ReadFile two_open 0 0 [0; 0; 0; 0] = Some (xor_stream (xtea_ks (two_ciphers 0)) 0 [0; 0; 0; 0], 4, s') /\
    iodev_GetPosition (dev s') 0 = 0.
Proof.
  destruct (iocrypt_read_past_end two_open 0 (two_files 0) (mk_pfile [] 0) _ 0 [0; 0; 0; 0] eq_refl first_tracked eq_refl) as (s' & E & _ & N).
  - reflexivity.
  - reflexivity.
  - cbn [length bytes cursor]. lia.
  - reflexivity.
  - exists s'. split; [exact E|]. destruct (N eq_refl eq_refl) as [_ ->]. reflexivity.
Defined.
